(* ===== verification/_CoqProject ===== *)
-Q . S2P
Prelude.v
GoStd.v
Floats.v
Sha256.v
GoFmt.v
GoTime.v
Base64.v
Json.v
JsonDecode.v
TimeText.v
Uuid.v
AesGcm.v
Actions.v
Temporal.v
Policy.v
AuditLog.v
Engine.v
MemService.v
ApprovalActivity.v
AgentsMd.v
AgentsHook.v
GraphqlParser.v
GraphqlCost.v
CacheStore.v
RateLimiter.v
Outbox.v
IssueNoise.v
ArchiveFrames.v
ObjectStore.v
Archive.v
BillingTables.v
AppClient.v
RowFile.v
ArchiveWorkflow.v
DekDestruction.v
Grpc.v
MetadataStore.v
Credential.v
Identity.v
BillingService.v
BillingRpc.v
EligiblePartitions.v
ReadThrough.v
Invalidator.v
Repositories.v
RestApi.v
Hmac.v
McpSession.v
CiRunClient.v
Mcp.v
CiJob.v
CiBilling.v
PersistedQueries.v
FloatText.v
GraphqlExec.v
GraphqlInput.v
GraphqlApi.v
GitMeter.v
GitStream.v
GitProxy.v
GitBlobs.v
RedisStore.v
RedisLimiter.v
UuidOrder.v
PgStore.v
PgIdentity.v
PgHistory.v
PartitionGap.v
Schedules.v
OutboxTtl.v
IssueHold.v
IdentityRpc.v
PolicyStub.v
Compliance.v
StoreCompliance.v
SchemaText.v
SharedWriter.v
DurationText.v
Binaries.v
