(* ===== verification/Prelude.v ===== *)
(** * GitScale: a verification library for the platform's Go services

    GitScale is a Git hosting platform written in Go, split into planes that
    do not import each other: the application plane ([plane/application]:
    approvals, AGENTS.md enforcement, issue noise filtering, GraphQL, REST,
    MCP, identity), the data plane ([plane/data]: stores, cache, rate limits,
    outbox and Kafka), the git plane ([plane/git]) and the workflow plane
    ([plane/workflow], Temporal activities).  This library models the parts
    that carry the platform's own decisions and state, definition by
    definition, and proves what makes each of them correct.

    ** How the code is modelled

    A Go function that returns a value and an error is a function to
    [result E A]; a method that mutates its receiver takes the receiver's
    state and returns the new one; a mutex makes a method one atomic step, so
    concurrent use is a sequence of steps.  Maps are [gmap]; where the code
    ranges over a map the order of the keys is an argument.  [int] and [int64]
    are [Z] with their wrap-around written out where it can occur, [float64]
    is the binary64 of [SpecFloat], strings and byte slices are Rocq strings.
    A clock is a time argument; interfaces (stores, blob readers, producers,
    search backends) are classes, records of functions or arguments.  Error
    messages, logs and latency metrics are not modelled; error codes are.

    ** Files

    - [Prelude]: results, machine integers, time, automation.  [GoStd]: the
      parts of the Go standard library the services use (strings, [utf8],
      [path.Match], [strconv.Atoi]).  [Floats], [GoFmt], [GoTime], [Base64]:
      binary64 operations, integer formatting, the proleptic calendar with
      [AddDate] and RFC 3339, base64 with its round trip.  [Sha256],
      [AesGcm], [Json], [JsonDecode], [TimeText], [Uuid]: executable SHA-256
      and AES-256-GCM, JSON values, their encoding and decoding, times and
      UUIDs as text.
      [Hmac], [FloatText], [UuidOrder]: HMAC-SHA-256, decimal texts as
      binary64, the order of UUIDs as text.
    - [Actions]: the state and error monad the services are written in.
      [Temporal] ([plane/workflow/retrypolicy.go]): activities, failures, and
      [ExecuteActivity], which runs an activity under the retry policy against
      a script of lost and repeated attempts.
    - [Policy] ([plane/application/policy]: dsl.go, plan.go, predicates.go,
      validate.go): approval policies, plan hashing, rule matching,
      validation.  Validation accepts exactly the well-formed policies; the
      code it reports depends on map order.
    - [AuditLog] (audit.go): canonical payloads, row hashes, [VerifyChain],
      [AppendRow].  Chains extend, and two verified chains with one last hash
      agree on what the hashes cover or exhibit a SHA-256 collision; the plan
      and policy columns are not covered, and only for declared kinds does the
      text hashed tell the payload from the actor kind.
    - [Engine] (engine.go): first-match routing of plans, against the class
      [PolicyBackend] of loader and recorder.
    - [MemService] (memservice.go, service.go): the approval service as a
      state machine ([op], [run_op], [reachable]).  Its invariant gives
      quorum for approved plans, a verified audit log, frozen decided plans;
      the inlined submission refines the engine.
    - [ApprovalActivity] ([plane/workflow/approval/activity.go]): the polling
      loop over a class [World] (client, clock, cancellation).  It terminates
      against the service for ladders that resolve, and reports what the
      service said.
    - [AgentsMd] ([plane/application/agentsmd]: policy.go, diagnostic.go,
      parser.go, merge.go): the AGENTS.md parser, whose YAML decoder is an
      argument, and the merge; well-formed output, a print/parse round trip,
      injective keys, union.
    - [AgentsHook] (evaluate.go, hook/handler.go, policystore): evaluation of
      Never rules and the pre-receive hook, which allows a push exactly when
      no rule of either policy matches.
    - [GraphqlParser], [GraphqlCost] ([plane/application/graphql/cost]): the
      query parser and the cost analyser; totality, the exact meaning of an
      accepted query against a compositional reference ([total], [height],
      [acyclic]), prices of paginated fields, the binary64 discount, and the
      exponential cost of fragment doubling.
    - [CacheStore] ([plane/data/cache]: store.go, store_memory.go,
      store_namespace.go): the class [CacheStore] with its laws
      [CacheLaws]; the memory store and the namespaced store satisfy them,
      every lawful store answers like the reference map with deadlines, and
      namespaces are isolated.
    - [RateLimiter] ([plane/data/ratelimit]: limiter.go, limiter_memory.go,
      namespace.go): the token bucket over an arithmetic class, executable in
      binary64; over-admission and progress bounds in exact arithmetic.
    - [Outbox] ([plane/data/outbox], [plane/data/store/domain.go]): the drain
      cycle as a transaction with every failure an argument, the expirer, the
      configuration, the class [ProducerContract] and the mock producer.
      At-least-once delivery by rule induction over writers, replicas and
      expirer; order, progress and termination.
    - [IssueNoise] ([plane/application/issuenoise] and its rules): the seven
      rules, the scorer in binary64, the verdict, the router over the stub
      store; the issue table agrees with the audit trail, scores are
      probabilities, fail-open and dark launch.
    - [ArchiveFrames], [ObjectStore], [Archive] ([plane/workflow/billing]:
      export_activity.go, restore_decoder.go, objectstore*.go,
      *keyprovider.go, and the activities of archive and restore): the
      encrypted frame format, whose decoder accepts exactly sealed, numbered
      frames; object stores and key providers behind the classes
      [ObjectStore] and [KeyProvider]; manifests, checksums, export and
      decryption.
    - [BillingTables] ([plane/data/store/billing]): partition and quarantine
      tables, each SQL statement with a fate of its own (executed, executed
      without acknowledgement, not executed), behind [Archiver] and
      [Restorer]; the stubs.  [AppClient] ([plane/workflow/appclient]): the
      billing client, idempotent per partition.  [RowFile]: a concrete row
      format that satisfies the laws assumed of Parquet.
    - [ArchiveWorkflow] (archive_workflow.go, restore_workflow.go,
      archive_router_workflow.go, workflow.go, activity.go): whatever fails
      and is retried, no run of the archive loses a partition's rows; a
      restore appends exactly them to the month's quarantine table and touches
      nothing else; dates of routers and rollover.
    - [DekDestruction] (dek_destruction*.go, destroy_dek_activity.go, legal
      holds and approvals): which key versions a run may destroy, and that
      its result accounts for every partition; a transit key as Vault
      documents it is an instance of the client class.
    - [MetadataStore] ([plane/data/store]: metadata.go, retryable.go,
      stub/metadata.go, stub/billing.go): the rows of the metadata store and
      its in-memory implementation with transactions, whose reads may see
      later committed states ([seen]) and whose writes are applied by
      [commit]; rows stay filed under their keys, cursors visit every
      repository once.
    - [Credential], [Identity] ([plane/application/identity]): argon2id
      hashes as text, and the identity service over the store with its retry
      loop, the class [IdentityService] of its operations and the gRPC handlers
      over any of that class.  Every change is the rows of its operation and its
      own event, events tell the state when calls do not overlap, rows stay well
      formed when they do, secrets are not published.
    - [BillingService], [BillingRpc] ([plane/application/billing],
      [plane/workflow/appclient/billing_grpc.go]): the billing service, its
      in-memory double, which answers alike, its gRPC server and the workflow
      plane's client over a connection that loses calls and answers.  [Grpc]:
      status codes and id arguments.
    - [EligiblePartitions] (list_eligible_partitions_activity.go): the
      partitions the destruction workflow is given.
    - [ReadThrough] ([plane/data/cache]: identity.go, repo_location.go, keys.go;
      [plane/git/locator]): read-through lookups as trees of their calls, run
      concurrently by a step relation.  Served identities are bounded in age,
      and an invalidation takes effect when no earlier load is under way; the
      race it loses is exhibited.  Cached and direct locators answer alike.
    - [Invalidator] ([plane/application/identity-cache-invalidator],
      [plane/data/kafka/envelope.go], [plane/data/outbox/producer_kafka.go]):
      the wire format of identity events with its round trip, the handlers, the
      deduplication and the loop over a class [MessageReader], run with kafka-go's
      reader and restarted at will: what is committed has been invalidated,
      unless a cache error made the loop pass it over.
    - [Repositories] ([plane/application/repositories]): creation, lookup and
      keyset paging; one event for each repository, and paging that visits all.
    - [RestApi] ([plane/application/restapi]): authentication, metering, routing
      and handlers over the services.  Every change is the one operation that
      the request's method, path and body ask for and the handler's check lets
      its principal do, paid for from its own bucket; listing survives the trip
      of its cursors through URLs.
    - [McpSession], [CiRunClient], [Mcp] ([plane/application/mcp]): session
      tokens signed with HMAC-SHA-256 ([Hmac]), the CI clients behind the class
      [CIClient], the tool registry, the seven tools and the JSON-RPC server.  It
      acts for its caller only, draws from its own buckets, and shows the policy
      that [AgentsHook] enforces.
    - [PersistedQueries], [GraphqlExec], [GraphqlInput], [GraphqlApi]
      ([plane/application/graphql]: persisted, resolvers, middleware, router.go,
      errors.go): both stores of persisted queries behind one class with laws,
      the executor and every resolver, and the HTTP handlers with the cost meter
      and the choice of the read pool.  What a request changes are steps of the
      root fields of the mutation it asks for, what is executed is what was
      analysed, paid for and within its limits, a registered hash keeps its
      text, and no query makes the executor panic.
    - [CiJob], [CiBilling] ([plane/workflow/runner], [plane/workflow/ci]): the
      microVM provisioner as a class with its in-memory instance, the five
      activities and the job's workflow under lost attempts and cancellation: no
      VM is left up, and a job that ran is charged exactly once.
    - [GitMeter], [GitStream], [GitProxy], [GitBlobs] ([plane/git]: metering,
      sink, client, rpc, gitaly): the two-tier counter and the sink its events
      reach, which agree when calls do not overlap and the cache answers; the
      goroutine between a Gitaly stream
      and its reader as two interleaved processes over [io.Pipe]; the proxy,
      where every push that reached Gitaly is metered; the blob reader of the
      hook, where the blob of one revision is what a push is judged by and a
      missing one blocks it.
    - [RedisStore], [RedisLimiter] (store_redis.go, limiter_redis.go and the
      three Lua scripts): the cache and the limiter over the class [Redis] of
      commands with documented laws.  For expiries of at least a millisecond the
      cache is the reference map with deadlines; in exact arithmetic, for one
      capacity and one positive rate per key, the limiter answers as the
      in-memory one.
    - [PgStore], [PgIdentity], [PgHistory] ([plane/data/store/postgres],
      identity's postgres_service.go): the tables of the migrations with their keys and
      checks, every statement, transactions that fail or lose the answer to
      their commit; the identity service on them.  The tables keep their
      invariants, listings are those of the in-memory store, a change is the
      rows of its operation and its own event, and replaying the events of any
      history, failures and lost answers included, gives the tables.
    - [PartitionGap] (partition_gap_metric.go): the bounds PostgreSQL prints,
      read back, and the gauges; they show the day inserts begin to fail when the
      partitions leave no hole, and a rollover moves that day by one month.
    - [Schedules] ([plane/workflow]: registry.go, schedule.go and all bundles;
      cmd/workflow-worker, cmd/partition-rollover-trigger): what the worker
      registers and schedules before it starts.  Everything its workflows
      dispatch is registered once, its schedules converge to the source, the
      trigger's month is the one created; the rollover's own schedule passes no
      run time and never succeeds.
    - [OutboxTtl] ([plane/data/outbox/wiring], [plane/workflow/outboxttl]): one
      consumer per domain, and the workflow that expires published rows.
    - [IssueHold] ([plane/workflow/issuehold], [plane/workflow/canary]): the hold
      on an issue, which closes only what is still held, and the health check.
    - [IdentityRpc], [PolicyStub] ([plane/workflow/appclient]: identity.go,
      identity_grpc.go, policy.go): the identity client over a connection that
      loses calls and answers, each call at most one change of the service on
      PostgreSQL that identity-service wraps;
      the recording policy client, transparent to [ApprovalActivity].
    - [Compliance], [StoreCompliance] ([plane/data/compliance]): the contract
      suites as programs over the interfaces.  Every lawful [CacheStore] passes,
      as do the in-memory limiter and the mock producer; a metadata store that
      keeps [MetadataContract] passes, and both stores do.  The cases that
      cannot fail are exhibited.
    - [SchemaText] ([plane/application/graphql/schema]): the scanner of field
      names.  It never panics, and a schema in the repository's layout is read
      back exactly.
    - [SharedWriter] ([producer_kafka.go], wiring.go): the settings of the Kafka
      writer, and the consumers of [OutboxTtl] publishing through it at once,
      where setting the topic and sending are steps of their own.  While no two
      of them fight over it what is marked has reached its topic; with the one
      writer of [StartAll] an event can go to another domain's topic for good.
      [Invalidator] treats a publication as one step, which this theorem covers.
    - [DurationText], [Binaries] (cmd): [time.ParseDuration], and every process
      from its environment to the component it serves.  A server that starts has
      been told it is insecure and has a database that answers; the MCP server
      always starts, with three tools that never succeed.

    ** Interaction

    [MemService] implements the interface of [Engine] and appends to the
    chains of [AuditLog]; [ApprovalActivity] drives [MemService] through
    [World]; [AgentsHook] parses and merges with [AgentsMd]; [GraphqlCost]
    walks the documents of [GraphqlParser]; [Outbox] publishes through
    [ProducerContract].  The archive workflows are written against the classes
    [Archiver], [Restorer], [ObjectStore], [KeyProvider], [BillingClient],
    [GlueClient] and [vaultLogicalClient], and proved from their law classes;
    the Postgres tables, the stubs and a catalog are instances.  Restore reads
    what export wrote: [archived] is the contract between the two.
    [Identity] and [BillingService] run transactions of [MetadataStore];
    [BillingRpc] makes their client an instance of [BillingClient] with its
    laws, so the archive workflows can run against the service itself, and
    [EligiblePartitions] reads back the archives it recorded.  The events of
    [Identity], written by the Kafka producer, make [Invalidator] delete the
    keys [ReadThrough] looks up, in any lawful [CacheStore].  [RestApi] serves
    [Identity] and [Repositories] over HTTP and draws from [RateLimiter];
    [Mcp] stands behind the same middleware and uses [AgentsMd], [AgentsHook]
    and a [CIClient].  [GraphqlApi] stands on [GraphqlCost] for prices, on
    [Identity] and [MetadataStore] for its resolvers and on any lawful store of
    persisted queries.  [CiJob] is proved against the class [CIBillingClient],
    which [CiBilling] shows the client of [BillingRpc] to be.  [GitProxy] runs
    the hook of [AgentsHook], a locator of [ReadThrough] and a counter of
    [GitMeter], whose cache is any [CacheStore].  [RedisStore] and
    [RedisLimiter] share one Redis; [PgIdentity] runs the operations of
    [Identity] on [PgStore] and is, as the in-memory service is, an
    [IdentityService] that the handlers of [Identity] and the client of
    [IdentityRpc] are stated over.  [PartitionGap] and [Schedules] read and extend the
    tables of [BillingTables] through the rollover of [ArchiveWorkflow];
    [OutboxTtl] runs the expirer of [Outbox] under [Temporal].  [StoreCompliance]
    runs its cases against [MetadataStore] and [PgStore] through one class.
    [Binaries] hands the settings it reads to [RestApi], [GraphqlApi], [Mcp] and
    [SharedWriter].

    ** Fuel

    Loops that are not structural take fuel, and a theorem shows the fuel
    given is enough: [GraphqlParser] three units per byte
    ([ParseQuery_fuel]), [GraphqlCost.walk] the number of fragments
    ([walk_total]), [Outbox.Expire] one more than the number of rows
    ([Expire_terminates_safely]).  [ApprovalActivity.Execute] polls an
    outside world, so its fuel is an argument and [Execute_terminates] shows
    that some amount suffices.  The frame loops of [ArchiveFrames] get one
    more than the length of their input ([decode_frames], [frames_count]);
    activities are attempted [MaximumAttempts] times.  The scanners of [GoStd]
    and [IssueNoise] take the length of their input.

    ** Not modelled

    Services and libraries outside the repository are arguments with laws or
    functions on tables: PostgreSQL, Redis, Kafka, Temporal, Vault, S3, Glue,
    Gitaly, Parquet, YAML, Argon2, [uuid.Parse] and [uuid.NewSHA1], the text of
    numbers between Go, Lua and Redis.  Left out are the
    servers' listening, signals and shutdown under cmd, OpenTelemetry and Prometheus, the JSON text of REST and MCP
    answers, error messages, the embedded GraphQL schema texts, generated protobuf code and the edge plane, an empty package.  No code of the repository
    implements the issue closer or the search backends; they stay classes and
    arguments. *)

From stdpp Require Export base gmap strings list fin_maps sorting pretty.
From Stdlib Require Export ZArith Lia Ascii Bool.

#[global] Open Scope Z_scope.

(** ** Results of fallible operations

    A Go function returning [(T, error)] is modelled by [result E T]. *)
Inductive result (E A : Type) : Type :=
| Ok (a : A)
| Err (e : E).
Arguments Ok {E A} a.
Arguments Err {E A} e.

Declare Scope go_scope.
Delimit Scope go_scope with go.
#[global] Open Scope go_scope.

Notation "'let?' x ':=' c 'in' k" :=
  (match c with Ok x => k | Err e => Err e end)
  (at level 10, x pattern, c at level 100, k at level 200) : go_scope.

Definition is_ok {E A} (r : result E A) : bool :=
  match r with Ok _ => true | Err _ => false end.

#[export] Instance result_eq_dec {E A} `{EqDecision E, EqDecision A} : EqDecision (result E A).
Proof. solve_decision. Defined.

(** ** Machine integers

    Go's [int] and [int64] are 64-bit two's complement; arithmetic wraps. *)
Definition int64_min : Z := - 2 ^ 63.
Definition int64_max : Z := 2 ^ 63 - 1.
Definition wrap64 (z : Z) : Z := (z + 2 ^ 63) mod 2 ^ 64 - 2 ^ 63.
Definition is_int64 (z : Z) : Prop := int64_min <= z <= int64_max.

Lemma wrap64_range z : is_int64 (wrap64 z).
Proof.
  unfold is_int64, wrap64, int64_min, int64_max.
  pose proof (Z.mod_pos_bound (z + 2 ^ 63) (2 ^ 64)). lia.
Qed.

Lemma wrap64_id z : is_int64 z -> wrap64 z = z.
Proof.
  unfold is_int64, wrap64, int64_min, int64_max. intros H.
  rewrite Z.mod_small; lia.
Qed.

Lemma wrap64_add_l x y : wrap64 (wrap64 x + y) = wrap64 (x + y).
Proof.
  unfold wrap64. f_equal.
  replace ((x + 2 ^ 63) mod 2 ^ 64 - 2 ^ 63 + y + 2 ^ 63) with ((x + 2 ^ 63) mod 2 ^ 64 + y) by lia.
  rewrite Zplus_mod_idemp_l. f_equal. lia.
Qed.

(** ** Time

    A [time.Time] is the number of nanoseconds since the Unix epoch (Go keeps
    seconds and nanoseconds in two words, so [Add] does not wrap in the range
    of years the services handle); the zero [Time] is year 1.  A
    [time.Duration] is an [int64] count of nanoseconds. *)
Definition time := Z.
Definition duration := Z.
Definition Nanosecond : duration := 1.
Definition Millisecond : duration := 1000000.
Definition Second : duration := 1000000000.
Definition Hour : duration := 3600 * Second.
Definition zero_time : time := -62135596800 * Second.
Definition IsZero (t : time) : bool := t =? zero_time.
(** [t.After(u)]. *)
Definition After (t u : time) : bool := u <? t.
(** [t.Add(d)]. *)
Definition Add (t : time) (d : duration) : time := t + d.
(** [t.Sub(u)] saturates at the ends of the [Duration] range. *)
Definition Sub (t u : time) : duration := Z.max int64_min (Z.min int64_max (t - u)).

(** ** UUIDs

    A [uuid.UUID] is a 16-byte array, represented by its big-endian value. *)
Definition uuid := Z.
Definition uuid_Nil : uuid := 0.

(** ** Shared list lemmas *)

Lemma existsb_elem_of {A} (f : A -> bool) (l : list A) :
  existsb f l = true <-> exists x, x ∈ l /\ f x = true.
Proof.
  rewrite existsb_exists. split; intros (x & H & Hf); exists x; split; auto;
    by apply list_elem_of_In.
Qed.

Lemma last_snoc_some {A} (l : list A) (x : A) : last (l ++ [x]) = Some x.
Proof. apply last_snoc. Qed.

Lemma filter_true {A} (P : A -> Prop) `{forall x, Decision (P x)} l : Forall P l -> filter P l = l.
Proof. induction 1; [done|]. rewrite filter_cons_True by done. by f_equal. Qed.

Lemma filter_none {A} (P : A -> Prop) `{forall x, Decision (P x)} l : Forall (fun x => ~ P x) l -> filter P l = [].
Proof. induction 1; [done|]. by rewrite filter_cons_False. Qed.

(** ** Automation *)

Create HintDb gitscale.
Create Rewrite HintDb gitscale.

#[export] Hint Resolve wrap64_range : gitscale.
#[export] Hint Rewrite @app_nil_r @length_app : gitscale.

(** Case analysis on every [match] or [if] of the goal or of a hypothesis
    [H], discarding the absurd branches. *)
Ltac case_split :=
  repeat match goal with
    | |- context [match ?x with _ => _ end] => destruct x eqn:?; simplify_eq/=
    end.

Ltac case_split_in H :=
  repeat match type of H with
    | context [match ?x with _ => _ end] => destruct x eqn:?; simplify_eq/=
    end.

(** Turn boolean tests in the context into propositions. *)
Ltac reflect_bools :=
  repeat match goal with
    | H : negb _ = true |- _ => apply negb_true_iff in H
    | H : negb _ = false |- _ => apply negb_false_iff in H
    | H : (_ && _) = true |- _ => apply andb_true_iff in H as [? ?]
    | H : (_ || _) = false |- _ => apply orb_false_iff in H as [? ?]
    | H : bool_decide _ = true |- _ => apply bool_decide_eq_true in H
    | H : bool_decide _ = false |- _ => apply bool_decide_eq_false in H
    | H : (_ =? _)%Z = true |- _ => apply Z.eqb_eq in H
    | H : (_ =? _)%Z = false |- _ => apply Z.eqb_neq in H
    | H : (_ <? _)%Z = true |- _ => apply Z.ltb_lt in H
    | H : (_ <? _)%Z = false |- _ => apply Z.ltb_ge in H
    | H : (_ <=? _)%Z = true |- _ => apply Z.leb_le in H
    | H : (_ <=? _)%Z = false |- _ => apply Z.leb_gt in H
    end.
