(* ===== verification/GoStd.v ===== *)
(** * The parts of Go's standard library that the services use

    Executable models of [strings], [unicode/utf8], [path.Match] and
    [strconv.Atoi], on byte strings (a Go [string] is a Rocq [string] of
    8-bit characters). *)

From S2P Require Import Prelude.

(** ** Bytes *)

Definition code (c : ascii) : Z := Z.of_N (N_of_ascii c).
Definition chr (z : Z) : ascii := ascii_of_N (Z.to_N z).
Definition s2l : string -> list ascii := String.list_ascii_of_string.
Definition l2s : list ascii -> string := String.string_of_list_ascii.

Lemma code_range c : 0 <= code c < 256.
Proof. unfold code. pose proof (N_ascii_bounded c). lia. Qed.

Lemma code_inj c d : code c = code d -> c = d.
Proof.
  unfold code. intros H. rewrite <- (ascii_N_embedding c), <- (ascii_N_embedding d).
  f_equal. lia.
Qed.

Lemma s2l_l2s l : s2l (l2s l) = l.
Proof. apply String.list_ascii_of_string_of_list_ascii. Qed.

Lemma l2s_s2l s : l2s (s2l s) = s.
Proof. apply String.string_of_list_ascii_of_string. Qed.

Lemma s2l_inj s t : s2l s = s2l t -> s = t.
Proof. intros H. rewrite <- (l2s_s2l s), H. apply l2s_s2l. Qed.

Lemma s2l_app s t : s2l (s +:+ t) = s2l s ++ s2l t.
Proof. induction s as [|c s IH]; [done|]. simpl. f_equal. exact IH. Qed.

Lemma l2s_app a b : l2s (a ++ b) = l2s a +:+ l2s b.
Proof. apply s2l_inj. by rewrite s2l_app, !s2l_l2s. Qed.

Lemma sapp_assoc (a b c : string) : (a +:+ b) +:+ c = a +:+ (b +:+ c).
Proof. induction a as [|x a IH]; [done|]. exact (f_equal (String.String x) IH). Qed.

Lemma s2l_length s : length (s2l s) = String.length s.
Proof. induction s as [|c s IH]; [done|]. simpl. f_equal. exact IH. Qed.

#[export] Hint Rewrite s2l_l2s l2s_s2l s2l_app : gitscale.

Definition is_digit (c : ascii) : bool := (48 <=? code c) && (code c <=? 57).
Definition is_lower (c : ascii) : bool := (97 <=? code c) && (code c <=? 122).
Definition is_upper (c : ascii) : bool := (65 <=? code c) && (code c <=? 90).
(** [+ 32] on upper-case ASCII letters, identity elsewhere. *)
Definition to_lower_byte (c : ascii) : ascii := if is_upper c then chr (code c + 32) else c.

(** ** Package strings *)

Section list_prefix.
Context {A : Type} `{EqDecision A}.

(** The rest of [l] after prefix [p], if [p] is one. *)
Fixpoint strip_prefix (p l : list A) : option (list A) :=
  match p, l with
  | [], _ => Some l
  | x :: p', y :: l' => if bool_decide (x = y) then strip_prefix p' l' else None
  | _ :: _, [] => None
  end.

Lemma strip_prefix_spec p l r : strip_prefix p l = Some r <-> l = p ++ r.
Proof.
  revert l. induction p as [|x p IH]; intros [|y l]; simpl; try (split; congruence).
  case_bool_decide as H; [subst | split; congruence].
  rewrite IH. split; congruence.
Qed.

Lemma strip_prefix_app p r : strip_prefix p (p ++ r) = Some r.
Proof. by apply strip_prefix_spec. Qed.

Lemma strip_prefix_none p l : strip_prefix p l = None <-> forall r, l <> p ++ r.
Proof.
  destruct (strip_prefix p l) as [r|] eqn:E.
  - apply strip_prefix_spec in E. split; [done|]. intros H. by destruct (H r).
  - split; [|done]. intros _ r ->. by rewrite strip_prefix_app in E.
Qed.
End list_prefix.

Definition HasPrefix (s p : string) : bool :=
  bool_decide (is_Some (strip_prefix (s2l p) (s2l s))).
Definition TrimPrefix (s p : string) : string :=
  match strip_prefix (s2l p) (s2l s) with Some r => l2s r | None => s end.
Definition HasSuffix (s p : string) : bool :=
  bool_decide (is_Some (strip_prefix (reverse (s2l p)) (reverse (s2l s)))).
Definition TrimSuffix (s p : string) : string :=
  match strip_prefix (reverse (s2l p)) (reverse (s2l s)) with
  | Some r => l2s (reverse r)
  | None => s
  end.

Lemma HasPrefix_spec s p : HasPrefix s p = true <-> exists r, s = p +:+ r.
Proof.
  unfold HasPrefix. rewrite bool_decide_eq_true. split.
  - intros [r H]. apply strip_prefix_spec in H. exists (l2s r). apply s2l_inj.
    by rewrite s2l_app, s2l_l2s.
  - intros [r ->]. exists (s2l r). by rewrite s2l_app, strip_prefix_app.
Qed.

Lemma HasSuffix_spec s p : HasSuffix s p = true <-> exists r, s = r +:+ p.
Proof.
  unfold HasSuffix. rewrite bool_decide_eq_true. split.
  - intros [r H]. apply strip_prefix_spec in H. exists (l2s (reverse r)). apply s2l_inj.
    rewrite s2l_app, s2l_l2s. apply (f_equal reverse) in H.
    by rewrite reverse_app, !reverse_involutive in H.
  - intros [r ->]. exists (reverse (s2l r)). by rewrite s2l_app, reverse_app, strip_prefix_app.
Qed.

Lemma TrimSuffix_app s p : TrimSuffix (s +:+ p) p = s.
Proof.
  unfold TrimSuffix. rewrite s2l_app, reverse_app, strip_prefix_app, reverse_involutive.
  apply l2s_s2l.
Qed.

Lemma TrimPrefix_app p s : TrimPrefix (p +:+ s) p = s.
Proof. unfold TrimPrefix. rewrite s2l_app, strip_prefix_app. apply l2s_s2l. Qed.

(** The encodings of the code points for which [unicode.IsSpace] holds:
    the six ASCII ones, U+0085, U+00A0, U+1680, U+2000-U+200A, U+2028,
    U+2029, U+202F, U+205F and U+3000. *)
Definition space_encodings : list (list ascii) :=
  map (map chr)
  ([[9]; [10]; [11]; [12]; [13]; [32]; [194; 133]; [194; 160]; [225; 154; 128];
    [226; 128; 168]; [226; 128; 169]; [226; 128; 175]; [226; 129; 159]; [227; 128; 128]]
   ++ map (fun k => [226; 128; 128 + Z.of_nat k]) (seq 0 11)).

(** Drop one leading member of [set], if any. *)
Fixpoint strip_any (set : list (list ascii)) (l : list ascii) : option (list ascii) :=
  match set with
  | [] => None
  | p :: set' => match strip_prefix p l with Some r => Some r | None => strip_any set' l end
  end.

Fixpoint trim_any (set : list (list ascii)) (fuel : nat) (l : list ascii) : list ascii :=
  match fuel with
  | O => l
  | S fuel' => match strip_any set l with Some r => trim_any set fuel' r | None => l end
  end.

Definition trim_left_set (set : list (list ascii)) (s : string) : string :=
  l2s (trim_any set (String.length s) (s2l s)).
Definition trim_right_set (set : list (list ascii)) (s : string) : string :=
  l2s (reverse (trim_any (reverse <$> set) (String.length s) (reverse (s2l s)))).

Definition TrimSpace (s : string) : string :=
  trim_left_set space_encodings (trim_right_set space_encodings s).
(** [TrimLeft]/[TrimRight] with a cutset of ASCII characters. *)
Definition TrimLeft (s cutset : string) : string := trim_left_set ((fun c => [c]) <$> s2l cutset) s.
Definition TrimRight (s cutset : string) : string := trim_right_set ((fun c => [c]) <$> s2l cutset) s.

(** [strings.Index(s, sub)] for a one-byte [sub], as the pair of what precedes
    and what follows its first occurrence. *)
Fixpoint cut_at (c : ascii) (l : list ascii) : option (list ascii * list ascii) :=
  match l with
  | [] => None
  | x :: l' =>
      if bool_decide (x = c) then Some ([], l')
      else match cut_at c l' with Some (a, b) => Some (x :: a, b) | None => None end
  end.

(** [strings.Split(s, sep)] for a one-byte separator. *)
Fixpoint split_on (c : ascii) (l : list ascii) : list (list ascii) :=
  match l with
  | [] => [[]]
  | x :: l' =>
      if bool_decide (x = c) then [] :: split_on c l'
      else match split_on c l' with
           | [] => [[x]]
           | w :: ws => (x :: w) :: ws
           end
  end.
Definition Split (s : string) (c : ascii) : list string := l2s <$> split_on c (s2l s).

Fixpoint Join (parts : list string) (sep : string) : string :=
  match parts with
  | [] => ""
  | [p] => p
  | p :: ps => p +:+ sep +:+ Join ps sep
  end.

(** [strings.ToLower] on ASCII; bytes above 127 are left alone. *)
Definition ToLower (s : string) : string := l2s (to_lower_byte <$> s2l s).
Definition EqualFold (s t : string) : bool := bool_decide (ToLower s = ToLower t).

Arguments HasPrefix : simpl never.
Arguments HasSuffix : simpl never.
Arguments TrimPrefix : simpl never.
Arguments TrimSuffix : simpl never.
Arguments TrimSpace : simpl never.
Arguments TrimLeft : simpl never.
Arguments TrimRight : simpl never.
Arguments Split : simpl never.
Arguments ToLower : simpl never.
Arguments EqualFold : simpl never.

Lemma split_on_nonempty c l : split_on c l <> [].
Proof. destruct l as [|x l]; simpl; [done|]. case_bool_decide; [done|]. by destruct (split_on c l). Qed.

Lemma Join_Split_list c l : Join (l2s <$> split_on c l) (l2s [c]) = l2s l.
Proof.
  induction l as [|x l IH]; [done|]. simpl. case_bool_decide as H.
  - subst. simpl. destruct (split_on c l) eqn:E; [by destruct (split_on_nonempty c l)|].
    simpl. simpl in IH. rewrite IH. done.
  - destruct (split_on c l) as [|w ws] eqn:E; [by destruct (split_on_nonempty c l)|].
    simpl in *. destruct ws as [|w' ws]; simpl in *; by rewrite <- IH.
Qed.

(** Splitting and joining on the same separator is the identity. *)
Lemma Join_Split s c : Join (Split s c) (l2s [c]) = s.
Proof. unfold Split. rewrite Join_Split_list. apply l2s_s2l. Qed.

(** *** Trimming and splitting text without surrounding space *)

(** Visible ASCII characters: neither space nor part of a multi-byte space. *)
Definition visible (c : ascii) : Prop := 33 <= code c <= 126.
#[export] Instance visible_dec c : Decision (visible c).
Proof. unfold visible. apply _. Defined.

Definition ends_visible (l : list ascii) : Prop :=
  (exists c l', l = c :: l' /\ visible c) /\ (exists c l', l = l' ++ [c] /\ visible c).

Definition ends_visible_b (l : list ascii) : bool :=
  match head l, last l with
  | Some c, Some d => bool_decide (visible c) && bool_decide (visible d)
  | _, _ => false
  end.

Lemma ends_visible_dec l : ends_visible_b l = true -> ends_visible l.
Proof.
  unfold ends_visible_b. destruct l as [|c l]; [done|]. destruct (last (c :: l)) as [d|] eqn:HL; [|done].
  simpl. intros H. reflect_bools. apply last_Some in HL as [l' HL]. split; [by exists c, l|by exists d, l'].
Qed.

Lemma strip_any_none set c l :
  (forall p, p ∈ set -> exists x p', p = x :: p' /\ x <> c) -> strip_any set (c :: l) = None.
Proof.
  induction set as [|p set IH]; intros H; simpl; [done|].
  destruct (H p) as (x & p' & -> & Hx); [left|]. simpl. rewrite bool_decide_eq_false_2 by done.
  apply IH. intros q Hq. apply H. by right.
Qed.

Definition heads_invisible (set : list (list ascii)) : bool :=
  forallb (fun p => match p with x :: _ => negb (bool_decide (visible x)) | [] => false end) set.

Lemma strip_any_visible set c l :
  heads_invisible set = true -> visible c -> strip_any set (c :: l) = None.
Proof.
  intros Hh Hc. apply strip_any_none. intros p Hp.
  apply forallb_forall with (x := p) in Hh; [|by apply list_elem_of_In].
  destruct p as [|x p']; [done|]. exists x, p'. split; [done|]. intros ->.
  by rewrite bool_decide_eq_true_2 in Hh.
Qed.

Lemma trim_left_visible set s c l :
  heads_invisible set = true -> s2l s = c :: l -> visible c -> trim_left_set set s = s.
Proof.
  intros Hh Hs Hc. unfold trim_left_set. rewrite Hs.
  destruct (String.length s); cbn [trim_any]; rewrite ?strip_any_visible by done; by rewrite <- Hs, l2s_s2l.
Qed.

Lemma trim_right_visible set s c l :
  heads_invisible (reverse <$> set) = true -> s2l s = l ++ [c] -> visible c -> trim_right_set set s = s.
Proof.
  intros Hh Hs Hc. unfold trim_right_set. rewrite Hs, reverse_snoc.
  assert (trim_any (reverse <$> set) (String.length s) (c :: reverse l) = c :: reverse l) as ->.
  { destruct (String.length s); cbn [trim_any]; by rewrite ?strip_any_visible. }
  by rewrite reverse_cons, reverse_involutive, <- Hs, l2s_s2l.
Qed.

Lemma TrimSpace_visible s : ends_visible (s2l s) -> TrimSpace s = s.
Proof.
  intros [(c & l & Hf & Hc) (c' & l' & Hl & Hc')]. unfold TrimSpace.
  rewrite (trim_right_visible _ s c' l') by done. by apply (trim_left_visible _ s c l).
Qed.

Lemma TrimSpace_leading s : ends_visible (s2l s) -> TrimSpace (" " +:+ s) = s.
Proof.
  intros [(c & l & Hf & Hc) (c' & l' & Hl & Hc')]. unfold TrimSpace.
  rewrite (trim_right_visible _ (" " +:+ s) c' (chr 32 :: l')); [|done| |done].
  2:{ rewrite s2l_app, Hl. done. }
  unfold trim_left_set. change (String.length (" " +:+ s)) with (S (String.length s)). rewrite s2l_app.
  change (s2l " " ++ s2l s) with (chr 32 :: s2l s). cbn [trim_any].
  assert (strip_any space_encodings (chr 32 :: s2l s) = Some (s2l s)) as -> by reflexivity.
  assert (trim_any space_encodings (String.length s) (s2l s) = s2l s) as ->; [|apply l2s_s2l].
  rewrite Hf. destruct (String.length s); cbn [trim_any]; by rewrite ?strip_any_visible.
Qed.

Lemma cut_at_app c a b : c ∉ a -> cut_at c (a ++ c :: b) = Some (a, b).
Proof.
  induction a as [|x a IH]; intros H; simpl.
  - by rewrite bool_decide_eq_true_2.
  - rewrite not_elem_of_cons in H. destruct H as [Hx H].
    rewrite bool_decide_eq_false_2 by congruence. by rewrite IH.
Qed.

Lemma split_on_none c l : c ∉ l -> split_on c l = [l].
Proof.
  induction l as [|x l IH]; intros H; simpl; [done|]. rewrite not_elem_of_cons in H. destruct H as [Hx H].
  rewrite bool_decide_eq_false_2 by congruence. by rewrite IH.
Qed.

Lemma split_on_app c a l : c ∉ a -> split_on c (a ++ c :: l) = a :: split_on c l.
Proof.
  induction a as [|x a IH]; intros H; simpl.
  - by rewrite bool_decide_eq_true_2.
  - rewrite not_elem_of_cons in H. destruct H as [Hx H].
    rewrite bool_decide_eq_false_2 by congruence. by rewrite IH.
Qed.

Lemma Split_Join lines c :
  lines <> [] -> Forall (fun l => c ∉ s2l l) lines -> Split (Join lines (l2s [c])) c = lines.
Proof.
  intros Hne H. unfold Split. induction H as [|l lines Hl Hls IH]; [done|].
  destruct lines as [|l' lines]; cbn [Join].
  - rewrite split_on_none by done. simpl. by rewrite l2s_s2l.
  - rewrite !s2l_app, s2l_l2s. simpl app at 2. rewrite split_on_app by done.
    simpl. rewrite l2s_s2l. f_equal. by apply IH.
Qed.

(** ** Package unicode/utf8 *)

Definition RuneError : Z := 65533.
Definition in_range (lo hi : Z) (c : ascii) : bool := (lo <=? code c) && (code c <=? hi).
Definition is_cont (c : ascii) : bool := in_range 128 191 c.

(** [utf8.DecodeRuneInString]: the first code point and its width; an invalid
    sequence is [(RuneError, 1)], the empty string [(RuneError, 0)]. *)
Definition DecodeRune (l : list ascii) : Z * nat :=
  match l with
  | [] => (RuneError, 0%nat)
  | c0 :: t =>
      let b0 := code c0 in
      if b0 <? 128 then (b0, 1%nat)
      else if in_range 194 223 c0 then
        match t with
        | c1 :: _ => if is_cont c1 then ((b0 - 192) * 64 + (code c1 - 128), 2%nat) else (RuneError, 1%nat)
        | _ => (RuneError, 1%nat)
        end
      else if in_range 224 239 c0 then
        match t with
        | c1 :: c2 :: _ =>
            let lo := if b0 =? 224 then 160 else 128 in
            let hi := if b0 =? 237 then 159 else 191 in
            if in_range lo hi c1 && is_cont c2
            then (((b0 - 224) * 64 + (code c1 - 128)) * 64 + (code c2 - 128), 3%nat)
            else (RuneError, 1%nat)
        | _ => (RuneError, 1%nat)
        end
      else if in_range 240 244 c0 then
        match t with
        | c1 :: c2 :: c3 :: _ =>
            let lo := if b0 =? 240 then 144 else 128 in
            let hi := if b0 =? 244 then 143 else 191 in
            if in_range lo hi c1 && is_cont c2 && is_cont c3
            then ((((b0 - 240) * 64 + (code c1 - 128)) * 64 + (code c2 - 128)) * 64 + (code c3 - 128), 4%nat)
            else (RuneError, 1%nat)
        | _ => (RuneError, 1%nat)
        end
      else (RuneError, 1%nat)
  end.

Lemma DecodeRune_width c l :
  (1 <= snd (DecodeRune (c :: l)))%nat /\ (snd (DecodeRune (c :: l)) <= length (c :: l))%nat.
Proof. unfold DecodeRune. case_split; simpl; lia. Qed.

(** ** Package path: [Match] *)

Module Path.

Definition star_c : ascii := "*".
Definition slash : ascii := "/".
Definition backslash : ascii := "\".
Definition lbrack : ascii := "[".
Definition rbrack : ascii := "]".
Definition quest : ascii := "?".
Definition caret : ascii := "^".
Definition dash : ascii := "-".

(** [getEsc]: a possibly escaped character of a class; [None] is
    [ErrBadPattern]. *)
Definition getEsc (chunk : list ascii) : option (Z * list ascii) :=
  let decode (k : list ascii) :=
    let '(r, n) := DecodeRune k in
    let nchunk := drop n k in
    if ((r =? RuneError) && (n =? 1)%nat) then None
    else match nchunk with [] => None | _ => Some (r, nchunk) end in
  match chunk with
  | [] => None
  | c :: chunk' =>
      if bool_decide (c = dash) || bool_decide (c = rbrack) then None
      else if bool_decide (c = backslash) then
        match chunk' with [] => None | _ => decode chunk' end
      else decode chunk
  end.

(** The ranges of a class, until the closing bracket. *)
Fixpoint matchRanges (fuel : nat) (r : Z) (nrange : nat) (matched : bool) (chunk : list ascii)
  : option (bool * list ascii) :=
  match fuel with
  | O => None
  | S fuel' =>
      match chunk with
      | c :: chunk' =>
          if bool_decide (c = rbrack) && (0 <? nrange)%nat then Some (matched, chunk')
          else
            match getEsc chunk with
            | None => None
            | Some (lo, k) =>
                match k with
                | d :: k' =>
                    if bool_decide (d = dash) then
                      match getEsc k' with
                      | None => None
                      | Some (hi, k2) =>
                          matchRanges fuel' r (S nrange) (matched || ((lo <=? r) && (r <=? hi))) k2
                      end
                    else matchRanges fuel' r (S nrange) (matched || (lo =? r)) k
                | [] => None
                end
            end
      | [] => None (* getEsc of the empty chunk *)
      end
  end.

(** [matchChunk]: [None] is [ErrBadPattern], [Some None] a failed match,
    [Some (Some rest)] a match that leaves [rest] of the name. *)
Fixpoint matchChunk (fuel : nat) (failed : bool) (chunk s : list ascii) : option (option (list ascii)) :=
  match fuel with
  | O => None
  | S fuel' =>
      match chunk with
      | [] => Some (if failed then None else Some s)
      | c :: chunk' =>
          let failed := failed || match s with [] => true | _ => false end in
          if bool_decide (c = lbrack) then
            let '(r, n) := if failed then (0, 0%nat) else DecodeRune s in
            let s := drop n s in
            let '(negated, k) :=
              match chunk' with
              | d :: k => if bool_decide (d = caret) then (true, k) else (false, chunk')
              | [] => (false, chunk')
              end in
            match matchRanges (S (length k)) r 0 false k with
            | None => None
            | Some (m, k') => matchChunk fuel' (failed || Bool.eqb m negated) k' s
            end
          else if bool_decide (c = quest) then
            if failed then matchChunk fuel' true chunk' s
            else
              let failed' := match s with x :: _ => bool_decide (x = slash) | [] => true end in
              matchChunk fuel' failed' chunk' (drop (snd (DecodeRune s)) s)
          else
            let lit (c : ascii) (chunk' : list ascii) :=
              if failed then matchChunk fuel' true chunk' s
              else matchChunk fuel' (negb (match s with x :: _ => bool_decide (c = x) | [] => false end))
                     chunk' (tail s) in
            if bool_decide (c = backslash) then
              match chunk' with
              | [] => None
              | c' :: k => lit c' k
              end
            else lit c chunk'
      end
  end.

Definition match_chunk (chunk s : list ascii) : option (option (list ascii)) :=
  matchChunk (S (length chunk)) false chunk s.

(** [scanChunk] after the leading stars: the chunk up to the next star that
    is not inside a class, and the rest. *)
Fixpoint scan_rest (inrange : bool) (p : list ascii) : list ascii * list ascii :=
  match p with
  | [] => ([], [])
  | c :: p' =>
      if bool_decide (c = backslash) then
        match p' with
        | c' :: p'' => let '(k, r) := scan_rest inrange p'' in (c :: c' :: k, r)
        | [] => ([c], [])
        end
      else if bool_decide (c = star_c) && negb inrange then ([], p)
      else
        let inrange' :=
          if bool_decide (c = lbrack) then true
          else if bool_decide (c = rbrack) then false else inrange in
        let '(k, r) := scan_rest inrange' p' in (c :: k, r)
  end.

Fixpoint drop_stars (p : list ascii) : bool * list ascii :=
  match p with
  | c :: p' => if bool_decide (c = star_c) then (true, snd (drop_stars p')) else (false, p)
  | [] => (false, [])
  end.

Definition scanChunk (pattern : list ascii) : bool * list ascii * list ascii :=
  let '(star, p) := drop_stars pattern in
  let '(chunk, rest) := scan_rest false p in (star, chunk, rest).

(** Is the rest of the pattern well formed? *)
Fixpoint check_rest (fuel : nat) (pattern : list ascii) : bool :=
  match fuel with
  | O => false
  | S fuel' =>
      match pattern with
      | [] => true
      | _ =>
          let '(_, chunk, pattern') := scanChunk pattern in
          match match_chunk chunk [] with None => false | Some _ => check_rest fuel' pattern' end
      end
  end.

(** The inner loop of [Match]: try [chunk] after skipping bytes other than
    ['/'].  [None]: bad pattern; [Some None]: no position matches. *)
Fixpoint skip_match (chunk : list ascii) (last : bool) (name : list ascii)
  : option (option (list ascii)) :=
  match name with
  | [] => Some None
  | x :: name' =>
      if bool_decide (x = slash) then Some None
      else
        match match_chunk chunk name' with
        | None => None
        | Some (Some t) =>
            if last && negb (match t with [] => true | _ => false end)
            then skip_match chunk last name'
            else Some (Some t)
        | Some None => skip_match chunk last name'
        end
  end.

Inductive verdict := Matched | NoMatch | BadPattern.

Fixpoint Match_loop (fuel : nat) (pattern name : list ascii) : verdict :=
  match fuel with
  | O => BadPattern
  | S fuel' =>
      match pattern with
      | [] => match name with [] => Matched | _ => NoMatch end
      | _ =>
          let '(star, chunk, pattern') := scanChunk pattern in
          let no_match :=
            if check_rest (S (length pattern')) pattern' then NoMatch else BadPattern in
          let last := match pattern' with [] => true | _ => false end in
          if star && match chunk with [] => true | _ => false end then
            if bool_decide (slash ∈ name) then NoMatch else Matched
          else
            match match_chunk chunk name with
            | None => BadPattern
            | Some r =>
                let here :=
                  match r with
                  | Some t => if last && negb (match t with [] => true | _ => false end)
                              then None else Some t
                  | None => None
                  end in
                match here with
                | Some t => Match_loop fuel' pattern' t
                | None =>
                    if star then
                      match skip_match chunk last name with
                      | None => BadPattern
                      | Some (Some t) => Match_loop fuel' pattern' t
                      | Some None => no_match
                      end
                    else no_match
                end
            end
      end
  end.

(** [path.Match(pattern, name)]. *)
Definition Match (pattern name : string) : verdict :=
  Match_loop (S (String.length pattern)) (s2l pattern) (s2l name).

(** *** Behaviour on the patterns the policies use *)

Definition is_meta (c : ascii) : bool :=
  bool_decide (c = star_c) || bool_decide (c = quest) ||
  bool_decide (c = lbrack) || bool_decide (c = backslash).
Definition literal (l : list ascii) : Prop := Forall (fun c => is_meta c = false) l.

Ltac meta_facts :=
  match goal with
  | H : is_meta ?c = false |- _ =>
      unfold is_meta in H; reflect_bools;
      repeat match goal with
        | Hc : c <> ?x |- context [bool_decide (c = ?x)] => rewrite (bool_decide_eq_false_2 _ Hc)
        end; simpl
  end.

Lemma scan_rest_literal p tl :
  literal p -> scan_rest false (p ++ star_c :: tl) = (p, star_c :: tl).
Proof.
  induction 1 as [|c p Hc Hp IH]; simpl; [done|]. meta_facts.
  replace (if bool_decide (c = rbrack) then false else false) with false by by case_bool_decide.
  by rewrite IH.
Qed.

Lemma scan_rest_literal_end p : literal p -> scan_rest false p = (p, []).
Proof.
  induction 1 as [|c p Hc Hp IH]; simpl; [done|]. meta_facts.
  replace (if bool_decide (c = rbrack) then false else false) with false by by case_bool_decide.
  by rewrite IH.
Qed.

Lemma drop_stars_literal p : literal p -> p <> [] -> drop_stars p = (false, p).
Proof. destruct 1 as [|c p Hc Hp]; [done|]. intros _. simpl. by meta_facts. Qed.

Lemma matchChunk_failed_literal p s fuel :
  literal p -> (length p < fuel)%nat -> matchChunk fuel true p s = Some None.
Proof.
  intros Hp. revert s fuel. induction Hp as [|c p Hc Hp IH]; intros s [|fuel] Hf; simpl in *; try lia; [done|].
  meta_facts. apply IH. lia.
Qed.

Lemma matchChunk_literal p s fuel :
  literal p -> (length p < fuel)%nat -> matchChunk fuel false p s = Some (strip_prefix p s).
Proof.
  intros Hp. revert s fuel. induction Hp as [|c p Hc Hp IH]; intros s [|fuel] Hf; simpl in *; try lia; [done|].
  meta_facts. destruct s as [|x s]; simpl.
  - apply matchChunk_failed_literal; [done|lia].
  - case_bool_decide; simpl; [apply IH; lia | apply matchChunk_failed_literal; [done|lia]].
Qed.

Lemma match_chunk_literal p s : literal p -> match_chunk p s = Some (strip_prefix p s).
Proof. intros. apply matchChunk_literal; [done|lia]. Qed.

Lemma Match_loop_star fuel name :
  Match_loop (S fuel) [star_c] name = if bool_decide (slash ∈ name) then NoMatch else Matched.
Proof. done. Qed.

Lemma Match_loop_literal fuel p name :
  literal p -> (1 < fuel)%nat ->
  Match_loop fuel p name = if bool_decide (p = name) then Matched else NoMatch.
Proof.
  intros Hp Hf. destruct fuel as [|[|fuel]]; [lia..|]. destruct (decide (p = [])) as [->|Hne].
  { simpl. by destruct name; case_bool_decide. }
  assert (scanChunk p = (false, p, [])) as Hsc.
  { unfold scanChunk. by rewrite drop_stars_literal, scan_rest_literal_end. }
  cbn [Match_loop]. destruct p as [|c p]; [done|]. rewrite Hsc. cbn [andb]. rewrite match_chunk_literal by done.
  destruct (strip_prefix (c :: p) name) as [t|] eqn:E.
  - apply strip_prefix_spec in E as ->. destruct t as [|x t]; simpl.
    + rewrite app_nil_r. by rewrite bool_decide_eq_true_2.
    + rewrite bool_decide_eq_false_2; [done|]. intros [= H]. apply (f_equal length) in H.
      rewrite length_app in H. simpl in H. lia.
  - simpl. rewrite bool_decide_eq_false_2; [done|]. intros <-.
    apply (proj1 (strip_prefix_none _ _) E []). by rewrite app_nil_r.
Qed.

Lemma literal_app_star_loop fuel p name :
  literal p -> (2 < fuel)%nat ->
  Match_loop fuel (p ++ [star_c]) name =
    match strip_prefix p name with
    | Some r => if bool_decide (slash ∈ r) then NoMatch else Matched
    | None => NoMatch
    end.
Proof.
  intros Hp Hf. destruct fuel as [|[|fuel]]; [lia..|]. destruct (decide (p = [])) as [->|Hne]; [done|].
  assert (scanChunk (p ++ [star_c]) = (false, p, [star_c])) as Hsc.
  { unfold scanChunk. destruct Hp as [|c p Hc Hp]; [done|].
    assert (drop_stars (c :: (p ++ [star_c])) = (false, c :: (p ++ [star_c]))) as E
      by (simpl; by meta_facts).
    simpl app. rewrite E. rewrite app_comm_cons, scan_rest_literal; [done | by constructor]. }
  cbn [Match_loop]. rewrite Hsc. cbn [andb]. rewrite match_chunk_literal by done.
  destruct p as [|c p]; [done|]. simpl app. destruct (strip_prefix _ _) as [t|] eqn:E; [|done].
  done.
Qed.

(** A pattern without metacharacters matches exactly itself. *)
Lemma Match_literal p name :
  literal (s2l p) -> Match p name = if bool_decide (p = name) then Matched else NoMatch.
Proof.
  intros Hp. unfold Match. destruct (decide (p = "")) as [->|Hne].
  - destruct name; by case_bool_decide.
  - rewrite Match_loop_literal; [|done|destruct p; simpl; [done|lia]].
    do 2 case_bool_decide; try done; exfalso; [|congruence].
    by apply s2l_inj in H.
Qed.

(** A literal prefix followed by a star matches the names that continue the
    prefix within the same path component. *)
Lemma Match_literal_star p name :
  literal (s2l p) ->
  Match (p +:+ "*") name = Matched <-> exists r, name = p +:+ r /\ slash ∉ s2l r.
Proof.
  intros Hp. unfold Match. rewrite s2l_app. destruct (decide (p = "")) as [->|Hne].
  { simpl. case_bool_decide as H; split; try done.
    - intros (r & -> & Hr). done.
    - intros _. by exists name. }
  rewrite (literal_app_star_loop _ _ _ Hp).
  2:{ destruct p; [done|]. rewrite <- s2l_length, s2l_app, length_app. simpl. lia. }
  destruct (strip_prefix (s2l p) (s2l name)) as [r|] eqn:E.
  - apply strip_prefix_spec in E. case_bool_decide as H; split; try done.
    + intros (r' & -> & Hr'). rewrite s2l_app in E. by apply app_inv_head in E as <-.
    + intros _. exists (l2s r). rewrite s2l_l2s. split; [|done]. apply s2l_inj.
      by rewrite s2l_app, s2l_l2s.
  - split; [done|]. intros (r & -> & _). rewrite s2l_app, strip_prefix_app in E. done.
Qed.

End Path.

(** ** Package strconv *)

(** Decimal value of a digit string, most significant digit first. *)
Definition digits_value (l : list ascii) : Z :=
  fold_left (fun n c => n * 10 + (code c - 48)) l 0.

(** [strconv.Atoi] (base 10, 64-bit [int]): an optional sign and at least one
    digit, within range; [None] is any [*NumError]. *)
Definition Atoi (s : string) : option Z :=
  let '(neg, ds) :=
    match s2l s with
    | c :: l => if bool_decide (c = "-"%char) then (true, l)
                else if bool_decide (c = "+"%char) then (false, l) else (false, c :: l)
    | [] => (false, [])
    end in
  if negb (forallb is_digit ds) || match ds with [] => true | _ => false end then None
  else
    let v := if neg : bool then - digits_value ds else digits_value ds in
    if (int64_min <=? v) && (v <=? int64_max) then Some v else None.

Lemma Atoi_range s v : Atoi s = Some v -> is_int64 v.
Proof.
  unfold Atoi, is_int64. intros H. case_split_in H; reflect_bools; lia.
Qed.
