(* ===== verification/Floats.v ===== *)
(** * [float64]

    IEEE 754 binary64 through the executable [SpecFloat]: conversion from
    integers, decimal literals, arithmetic and comparisons as Go has them. *)

From Corelib Require Export SpecFloat.
From S2P Require Import Prelude.

Definition float := spec_float.
Definition f_of_int (z : Z) : float := binary_normalize 53 1024 z 0 false.
(** The binary64 nearest to [n / d]: how Go reads a decimal literal. *)
Definition lit (n d : Z) : float := SFdiv 53 1024 (f_of_int n) (f_of_int d).
Definition fadd (x y : float) : float := SFadd 53 1024 x y.
Definition fsub (x y : float) : float := SFsub 53 1024 x y.
Definition fdiv (x y : float) : float := SFdiv 53 1024 x y.
Definition flt (x y : float) : bool := SFltb x y.
Definition fge (x y : float) : bool := SFleb y x.
Definition f0 : float := S754_zero false.
Definition f1 : float := f_of_int 1.

(** ** Conversion to integers *)

(** The integer part of a finite float, towards zero, and its ceiling. *)
Definition float_trunc (x : spec_float) : option Z :=
  match x with
  | S754_zero _ => Some 0
  | S754_finite s m e =>
      let v := if 0 <=? e then Z.pos m * 2 ^ e else Z.pos m / 2 ^ (- e) in
      Some (if s then - v else v)
  | _ => None
  end.

Definition float_ceil (x : spec_float) : option Z :=
  match x with
  | S754_zero _ => Some 0
  | S754_finite s m e =>
      let v := if s then Z.neg m else Z.pos m in
      Some (if 0 <=? e then v * 2 ^ e else - (- v / 2 ^ (- e)))
  | _ => None
  end.

Definition in_int (z : Z) : bool := (int64_min <=? z) && (z <=? int64_max).

(** [int(x)]; what becomes of a value that does not fit is up to the
    implementation. *)
Definition int_of_float64 (int_of_wide : spec_float -> Z) (x : spec_float) (rounded : option Z) : Z :=
  match rounded with
  | Some z => if in_int z then z else int_of_wide x
  | None => int_of_wide x
  end.
