(* ===== verification/Sha256.v ===== *)
(** * Package crypto/sha256

    [sha256.Sum256] (FIPS 180-4) on byte strings, executable.  The audit chain
    and the plan hash are computed with it; its collision resistance is never
    assumed, theorems that rely on it exhibit the collision instead. *)

From S2P Require Import Prelude GoStd.

Definition w32 (z : Z) : Z := z mod 2 ^ 32.
Definition rotr (n x : Z) : Z := Z.lor (Z.shiftr x n) (w32 (Z.shiftl x (32 - n))).
Definition Ch (x y z : Z) : Z := Z.lxor (Z.land x y) (Z.land (Z.lxor x (2 ^ 32 - 1)) z).
Definition Maj (x y z : Z) : Z := Z.lxor (Z.lxor (Z.land x y) (Z.land x z)) (Z.land y z).
Definition bsig0 (x : Z) : Z := Z.lxor (Z.lxor (rotr 2 x) (rotr 13 x)) (rotr 22 x).
Definition bsig1 (x : Z) : Z := Z.lxor (Z.lxor (rotr 6 x) (rotr 11 x)) (rotr 25 x).
Definition ssig0 (x : Z) : Z := Z.lxor (Z.lxor (rotr 7 x) (rotr 18 x)) (Z.shiftr x 3).
Definition ssig1 (x : Z) : Z := Z.lxor (Z.lxor (rotr 17 x) (rotr 19 x)) (Z.shiftr x 10).

Definition round_constants : list Z :=
  [
   1116352408; 1899447441; 3049323471; 3921009573; 961987163; 1508970993; 2453635748; 2870763221;
   3624381080; 310598401; 607225278; 1426881987; 1925078388; 2162078206; 2614888103; 3248222580;
   3835390401; 4022224774; 264347078; 604807628; 770255983; 1249150122; 1555081692; 1996064986;
   2554220882; 2821834349; 2952996808; 3210313671; 3336571891; 3584528711; 113926993; 338241895;
   666307205; 773529912; 1294757372; 1396182291; 1695183700; 1986661051; 2177026350; 2456956037;
   2730485921; 2820302411; 3259730800; 3345764771; 3516065817; 3600352804; 4094571909; 275423344;
   430227734; 506948616; 659060556; 883997877; 958139571; 1322822218; 1537002063; 1747873779;
   1955562222; 2024104815; 2227730452; 2361852424; 2428436474; 2756734187; 3204031479; 3329325298].

Definition initial_hash : list Z :=
  [
   1779033703; 3144134277; 1013904242; 2773480762; 1359893119; 2600822924; 528734635; 1541459225].

(** The [n] low bytes of [z], most significant first. *)
Fixpoint be_bytes (n : nat) (z : Z) : list ascii :=
  match n with
  | O => []
  | S n' => chr ((Z.shiftr z (8 * Z.of_nat n')) mod 256) :: be_bytes n' z
  end.

Definition be_word (l : list ascii) : Z := fold_left (fun acc c => acc * 256 + code c) l 0.

Definition pad (m : list ascii) : list ascii :=
  let len := length m in
  m ++ [chr 128] ++ replicate (Nat.modulo (119 - Nat.modulo len 64) 64) (chr 0)
    ++ be_bytes 8 (8 * Z.of_nat len).

Fixpoint words_of (fuel : nat) (l : list ascii) : list Z :=
  match fuel with
  | O => []
  | S fuel' => be_word (take 4 l) :: words_of fuel' (drop 4 l)
  end.

(** Extend the schedule, kept most recent word first. *)
Fixpoint schedule (n : nat) (rev_w : list Z) : list Z :=
  match n with
  | O => rev_w
  | S n' =>
      let w k := nth k rev_w 0 in
      schedule n' (w32 (ssig1 (w 1%nat) + w 6%nat + ssig0 (w 14%nat) + w 15%nat) :: rev_w)
  end.

Record regs := Regs { ra : Z; rb : Z; rc : Z; rd : Z; re : Z; rf : Z; rg : Z; rh : Z }.

Definition sha_round (r : regs) (kw : Z * Z) : regs :=
  let t1 := rh r + bsig1 (re r) + Ch (re r) (rf r) (rg r) + kw.1 + kw.2 in
  let t2 := bsig0 (ra r) + Maj (ra r) (rb r) (rc r) in
  Regs (w32 (t1 + t2)) (ra r) (rb r) (rc r) (w32 (rd r + t1)) (re r) (rf r) (rg r).

Definition compress (h : regs) (block : list ascii) : regs :=
  let w := reverse (schedule 48 (reverse (words_of 16 block))) in
  let r := fold_left sha_round (combine round_constants w) h in
  Regs (w32 (ra h + ra r)) (w32 (rb h + rb r)) (w32 (rc h + rc r)) (w32 (rd h + rd r))
       (w32 (re h + re r)) (w32 (rf h + rf r)) (w32 (rg h + rg r)) (w32 (rh h + rh r)).

Fixpoint blocks (n : nat) (l : list ascii) : list (list ascii) :=
  match n with
  | O => []
  | S n' => take 64 l :: blocks n' (drop 64 l)
  end.

(** [sha256.Sum256]: a digest is its 32 bytes. *)
Definition digest := list ascii.
Definition Sum256 (m : list ascii) : digest :=
  let p := pad m in
  let w k := nth k initial_hash 0 in
  let h0 := Regs (w 0%nat) (w 1%nat) (w 2%nat) (w 3%nat) (w 4%nat) (w 5%nat) (w 6%nat) (w 7%nat) in
  let h := fold_left compress (blocks (Nat.div (length p) 64) p) h0 in
  be_bytes 4 (ra h) ++ be_bytes 4 (rb h) ++ be_bytes 4 (rc h) ++ be_bytes 4 (rd h) ++
  be_bytes 4 (re h) ++ be_bytes 4 (rf h) ++ be_bytes 4 (rg h) ++ be_bytes 4 (rh h).

Lemma length_be_bytes n z : length (be_bytes n z) = n.
Proof. induction n; simpl; congruence. Qed.

(** Big-endian encoding determines the value modulo [2 ^ (8 n)]. *)
Lemma code_chr z : 0 <= z < 256 -> code (chr z) = z.
Proof. intros. unfold code, chr. rewrite N_ascii_embedding; lia. Qed.

Lemma be_bytes_inj n z1 z2 :
  be_bytes n z1 = be_bytes n z2 -> z1 mod 2 ^ (8 * Z.of_nat n) = z2 mod 2 ^ (8 * Z.of_nat n).
Proof.
  induction n as [|n IH]; intros H; [by rewrite !Z.mod_1_r|].
  injection H as Hc Ht. specialize (IH Ht).
  apply (f_equal code) in Hc.
  rewrite !code_chr in Hc by (apply Z.mod_pos_bound; lia).
  rewrite !Z.shiftr_div_pow2 in Hc by lia.
  replace (8 * Z.of_nat (S n)) with (8 * Z.of_nat n + 8) by lia.
  rewrite Z.pow_add_r by lia. change (2 ^ 8) with 256.
  rewrite !Z.rem_mul_r by lia. by rewrite Hc, IH.
Qed.

Lemma Sum256_length m : length (Sum256 m) = 32%nat.
Proof. unfold Sum256. cbv zeta. rewrite !length_app, !length_be_bytes. done. Qed.

(** Two messages of the given ones collide. *)
Definition collide (l1 l2 : list (list ascii)) : Prop :=
  exists m1 m2, m1 ∈ l1 /\ m2 ∈ l2 /\ m1 <> m2 /\ Sum256 m1 = Sum256 m2.

Lemma collide_mono l1 l2 k1 k2 : l1 ⊆ k1 -> l2 ⊆ k2 -> collide l1 l2 -> collide k1 k2.
Proof. intros H1 H2 (m1 & m2 & ? & ? & ?). exists m1, m2. auto. Qed.

Lemma Sum256_eq m1 m2 : Sum256 m1 = Sum256 m2 -> m1 = m2 \/ collide [m1] [m2].
Proof.
  intros H. destruct (decide (m1 = m2)) as [E|E]; [by left|].
  right. exists m1, m2. split_and!; [by left|by left|done|done].
Qed.

(** Digest of "abc", the first test vector of FIPS 180-4. *)
Example Sum256_abc :
  be_word (Sum256 (s2l "abc")) =
  0xba7816bf8f01cfea414140de5dae2223b00361a396177a9cb410ff61f20015ad.
Proof. vm_compute. reflexivity. Qed.

(** A message of 56 bytes needs a second block. *)
Example Sum256_two_blocks :
  be_word (Sum256 (s2l "abcdbcdecdefdefgefghfghighijhijkijkljklmklmnlmnomnopnopq")) =
  0x248d6a61d20638b8e5c026930c3e6039a33ce45964ff2167f6ecedd419db06c1.
Proof. vm_compute. reflexivity. Qed.
