(* ===== verification/GoFmt.v ===== *)
(** * Packages strconv, fmt and encoding/base64

    Decimal printing of integers ([strconv.Itoa], [FormatInt], the verbs [%d]
    and [%0Nd]) with its inverse, and the base64 codecs the services use. *)

From S2P Require Import Prelude GoStd Sha256.

(** ** Decimal digits *)

Definition all_digits (l : list ascii) : Prop := Forall (fun c => is_digit c = true) l.

Lemma digits_value_snoc l c : digits_value (l ++ [c]) = digits_value l * 10 + (code c - 48).
Proof. unfold digits_value. by rewrite fold_left_app. Qed.

Lemma pretty_N_char_code x : (x < 10)%N -> code (pretty_N_char x) = 48 + Z.of_N x.
Proof.
  intros H. assert (x = 0 \/ x = 1 \/ x = 2 \/ x = 3 \/ x = 4 \/ x = 5 \/ x = 6 \/ x = 7 \/ x = 8 \/ x = 9)%N
    as E by lia.
  by repeat (destruct E as [->|E]; [done|]); subst.
Qed.

Lemma is_digit_code c : is_digit c = true <-> 48 <= code c <= 57.
Proof. unfold is_digit. rewrite andb_true_iff, !Z.leb_le. lia. Qed.

Lemma pretty_N_char_digit x : (x < 10)%N -> is_digit (pretty_N_char x) = true.
Proof. intros H. apply is_digit_code. rewrite pretty_N_char_code by done. lia. Qed.

(** The digits are those of [x]: none for zero, otherwise no leading zero. *)
Lemma pretty_N_go_digits x s : exists ds,
  s2l (pretty_N_go x s) = ds ++ s2l s /\ all_digits ds /\ digits_value ds = Z.of_N x /\
  (x = 0%N /\ ds = [] \/ exists d ds', ds = d :: ds' /\ code d <> 48).
Proof.
  revert s. induction x as [x IH] using (well_founded_induction N.lt_wf_0). intros s.
  destruct (decide (x = 0)%N) as [->|Hx].
  { exists []. rewrite pretty_N_go_0. repeat split; [constructor|by left]. }
  rewrite pretty_N_go_step by lia.
  destruct (IH (x `div` 10)%N ltac:(apply N.div_lt; lia)
               (String.String (pretty_N_char (x `mod` 10)) s)) as (ds & Hs & Hd & Hv & Hh).
  pose proof (N.mod_lt x 10 ltac:(lia)) as Hm.
  pose proof (pretty_N_char_code _ Hm) as Hc. pose proof (N.div_mod' x 10) as Hx'.
  exists (ds ++ [pretty_N_char (x `mod` 10)]). split_and!.
  - rewrite Hs, <- app_assoc. done.
  - apply Forall_app. split; [done|]. constructor; [|constructor]. by apply pretty_N_char_digit.
  - rewrite digits_value_snoc, Hv, Hc. lia.
  - right. destruct Hh as [[E ->]|(d & ds' & -> & Hn)]; [|by eexists _, _].
    eexists _, _. split; [done|]. rewrite Hc. intros C. apply Hx. rewrite Hx', E. revert C. generalize (x mod 10)%N. lia.
Qed.

Lemma pretty_N_digits x : exists ds,
  s2l (pretty x) = ds /\ all_digits ds /\ ds <> [] /\ digits_value ds = Z.of_N x /\
  (hd "0"%char ds = "0"%char -> ds = ["0"%char]).
Proof.
  unfold pretty, pretty_N. case_decide as E.
  - subst. exists ["0"%char]. repeat split; [repeat constructor|done].
  - destruct (pretty_N_go_digits x "") as (ds & Hs & Hd & Hv & Hh).
    exists ds. rewrite Hs, app_nil_r. split_and!; [done..| | |].
    + destruct Hh as [[-> _]|(d & ds' & -> & _)]; done.
    + done.
    + destruct Hh as [[-> _]|(d & ds' & -> & Hn)]; [done|]. simpl. intros ->. by destruct Hn.
Qed.

(** [strconv.Itoa], [strconv.FormatInt(n, 10)] and [%d]. *)
Definition Itoa (n : Z) : string := pretty n.

(** [%0wd]: zeros between the sign and the digits, up to width [w]. *)
Definition zero_pad (w : nat) (ds : list ascii) : list ascii :=
  replicate (w - length ds) "0"%char ++ ds.
Definition fmt_0d (w : nat) (n : Z) : string :=
  if n <? 0 then l2s ("-"%char :: zero_pad (w - 1) (s2l (Itoa (- n))))
  else l2s (zero_pad w (s2l (Itoa n))).

Lemma Itoa_nonneg n : 0 <= n -> exists ds,
  s2l (Itoa n) = ds /\ all_digits ds /\ ds <> [] /\ digits_value ds = n /\
  (hd "0"%char ds = "0"%char -> ds = ["0"%char]).
Proof.
  intros H. unfold Itoa.
  replace (pretty n) with (pretty (Z.to_N n)).
  - destruct (pretty_N_digits (Z.to_N n)) as (ds & H1 & H2 & H3 & H4 & H5).
    exists ds. split_and!; auto. lia.
  - by destruct n.
Qed.

Lemma Itoa_neg n : n < 0 -> s2l (Itoa n) = "-"%char :: s2l (Itoa (- n)).
Proof. intros H. by destruct n. Qed.

Lemma digits_no_char c ds : is_digit c = false -> all_digits ds -> c ∉ ds.
Proof.
  intros Hc Hd Hin. unfold all_digits in Hd. rewrite Forall_forall in Hd.
  specialize (Hd c Hin). simpl in Hd. congruence.
Qed.

Lemma all_digits_forallb ds : all_digits ds -> forallb is_digit ds = true.
Proof. induction 1 as [|c l Hc Hl IH]; [done|]. simpl. by rewrite Hc. Qed.

Lemma Atoi_digits ds :
  all_digits ds -> ds <> [] -> is_int64 (digits_value ds) -> Atoi (l2s ds) = Some (digits_value ds).
Proof.
  intros Hd Hn Hr. unfold Atoi. rewrite s2l_l2s. destruct ds as [|c l]; [done|].
  assert (Hc : 48 <= code c <= 57) by (apply is_digit_code; by inversion Hd).
  rewrite !bool_decide_false by (intros ->; cbv in Hc; destruct Hc; congruence).
  rewrite all_digits_forallb by done. simpl negb. simpl orb. cbv iota.
  unfold is_int64 in Hr. by rewrite !(proj2 (Z.leb_le _ _)) by lia.
Qed.

Lemma Atoi_minus_digits ds :
  all_digits ds -> ds <> [] -> is_int64 (- digits_value ds) ->
  Atoi (l2s ("-"%char :: ds)) = Some (- digits_value ds).
Proof.
  intros Hd Hn Hr. unfold Atoi. rewrite s2l_l2s. rewrite bool_decide_true by done. cbv iota.
  rewrite all_digits_forallb by done. destruct ds as [|c l]; [done|]. simpl negb. simpl orb. cbv iota.
  unfold is_int64 in Hr. by rewrite !(proj2 (Z.leb_le _ _)) by lia.
Qed.

(** [Atoi] inverts [Itoa] on 64-bit integers. *)
Lemma Atoi_Itoa n : is_int64 n -> Atoi (Itoa n) = Some n.
Proof.
  intros H. rewrite <- (l2s_s2l (Itoa n)). destruct (decide (n < 0)) as [Hn|Hn].
  - destruct (Itoa_nonneg (- n) ltac:(lia)) as (ds & E & Hd & Hne & Hv & _).
    rewrite Itoa_neg by done. rewrite E, Atoi_minus_digits; rewrite ?Hv; auto.
    + f_equal. lia.
    + by rewrite Z.opp_involutive.
  - destruct (Itoa_nonneg n ltac:(lia)) as (ds & E & Hd & Hne & Hv & _).
    rewrite E, Atoi_digits; rewrite ?Hv; auto.
Qed.

Lemma digits_value_zeros k ds : digits_value (replicate k "0"%char ++ ds) = digits_value ds.
Proof.
  unfold digits_value. rewrite fold_left_app. f_equal.
  induction k as [|k IH]; [done|]. simpl. apply IH.
Qed.

(** A padded non-negative number is digits with the value of the number. *)
Lemma fmt_0d_digits w n : 0 <= n -> exists ds,
  s2l (fmt_0d w n) = ds /\ all_digits ds /\ ds <> [] /\ digits_value ds = n.
Proof.
  intros H. destruct (Itoa_nonneg n H) as (ds & E & Hd & Hne & Hv & _).
  exists (zero_pad w ds). unfold fmt_0d. rewrite (proj2 (Z.ltb_ge _ _)) by lia.
  rewrite s2l_l2s, E. unfold zero_pad. split_and!; [done| | |].
  - apply Forall_app. split; [by apply Forall_replicate|done].
  - destruct ds; [done|]. by destruct (replicate _ _).
  - by rewrite digits_value_zeros.
Qed.

Lemma fmt_0d_inj w n m : 0 <= n -> 0 <= m -> fmt_0d w n = fmt_0d w m -> n = m.
Proof.
  intros Hn Hm E. destruct (fmt_0d_digits w n Hn) as (a & Ha & _ & _ & <-).
  destruct (fmt_0d_digits w m Hm) as (b & Hb & _ & _ & <-). congruence.
Qed.

(** Digits followed by something that is not a digit can be read back. *)
Lemma digits_app_inj d1 d2 c1 c2 r1 r2 :
  all_digits d1 -> all_digits d2 -> is_digit c1 = false -> is_digit c2 = false ->
  d1 ++ c1 :: r1 = d2 ++ c2 :: r2 -> d1 = d2 /\ c1 :: r1 = c2 :: r2.
Proof.
  intros H1. revert d2. induction H1 as [|x d1 Hx H1 IH]; intros d2 H2 Hc1 Hc2 E.
  - destruct H2 as [|y d2 Hy H2]; [done|]. injection E as -> _. congruence.
  - destruct H2 as [|y d2 Hy H2]; [injection E as -> _; congruence|].
    injection E as -> E. destruct (IH d2 H2 Hc1 Hc2 E) as [-> ?]. done.
Qed.

(** Numbers are read back up to the first byte that is not part of them. *)
Lemma Itoa_app_inj n m c1 c2 r1 r2 : is_digit c1 = false -> is_digit c2 = false ->
  s2l (Itoa n) ++ c1 :: r1 = s2l (Itoa m) ++ c2 :: r2 -> n = m /\ c1 :: r1 = c2 :: r2.
Proof.
  intros H1 H2 E. assert (Habs : forall a b x y l l', 0 <= a -> s2l (Itoa a) ++ x :: l <> "-"%char :: s2l (Itoa b) ++ y :: l').
  { intros a b x y l l' Ha E'. destruct (Itoa_nonneg a Ha) as (ds & Ed & Hd & Hne & _). rewrite Ed in E'.
    destruct Hd as [|d ds Hdd Hd]; [done|]. by injection E' as -> _. }
  enough (s2l (Itoa n) = s2l (Itoa m) /\ c1 :: r1 = c2 :: r2) as [En ?].
  { split; [|done]. apply s2l_inj in En. by apply (inj pretty) in En. }
  destruct (Z.lt_ge_cases n 0) as [Hn|Hn], (Z.lt_ge_cases m 0) as [Hm|Hm];
    rewrite ?(Itoa_neg n Hn), ?(Itoa_neg m Hm) in E |- *.
  - injection E as E. destruct (Itoa_nonneg (- n)) as (ds & Ed & Hd & _); [lia|].
    destruct (Itoa_nonneg (- m)) as (es & Ee & He & _); [lia|]. rewrite Ed, Ee in E |- *.
    apply digits_app_inj in E as [-> ?]; auto.
  - symmetry in E. by apply Habs in E.
  - by apply Habs in E.
  - destruct (Itoa_nonneg n Hn) as (ds & Ed & Hd & _). destruct (Itoa_nonneg m Hm) as (es & Ee & He & _).
    rewrite Ed, Ee in E |- *. apply digits_app_inj in E as [-> ?]; auto.
Qed.

Example fmt_0d_samples : (fmt_0d 4 2026, fmt_0d 2 5, fmt_0d 4 (-7), fmt_0d 2 123) =
  ("2026", "05", "-007", "123").
Proof. vm_compute. reflexivity. Qed.

(** ** The longest prefix of digits *)
Fixpoint span_digits (l : list ascii) : list ascii * list ascii :=
  match l with
  | c :: l' => if is_digit c then let '(ds, r) := span_digits l' in (c :: ds, r) else ([], l)
  | [] => ([], [])
  end.

Lemma span_digits_app ds rest : all_digits ds ->
  (forall c r, rest = c :: r -> is_digit c = false) -> span_digits (ds ++ rest) = (ds, rest).
Proof.
  intros Hd Hr. induction Hd as [|c ds Hc Hd IH]; cbn [app span_digits].
  - destruct rest as [|c r]; [done|]. cbn [span_digits]. by rewrite (Hr c r eq_refl).
  - by rewrite Hc, IH.
Qed.
