(* ===== verification/GoTime.v ===== *)
(** * Calendar dates of the [time] package

    [Year], [Month], [Day], [Date] and [AddDate] of a [time.Time] in UTC, and
    [Format(time.RFC3339)].  Days are those of the proleptic Gregorian
    calendar, counted from 1970-01-01. *)

From S2P Require Import Prelude GoStd GoFmt.

Definition seconds_per_day : Z := 86400.

(** Day number of the first of March of year [y] is where a 400-year cycle of
    146097 days is easiest to divide. *)
Definition doy_of (m d : Z) : Z := (153 * (if 2 <? m then m - 3 else m + 9) + 2) / 5 + d - 1.
Definition days_from_civil (y m d : Z) : Z :=
  let y' := if m <=? 2 then y - 1 else y in
  let yoe := y' mod 400 in
  y' / 400 * 146097 + (365 * yoe + yoe / 4 - yoe / 100 + doy_of m d) - 719468.

Definition year_of_doe (doe : Z) : Z := (doe - doe / 1460 + doe / 36524 - doe / 146096) / 365.
Definition first_day (yoe : Z) : Z := 365 * yoe + yoe / 4 - yoe / 100.
Definition month_of_doy (doy : Z) : Z * Z :=
  let mp := (5 * doy + 2) / 153 in
  (if mp <? 10 then mp + 3 else mp - 9, doy - (153 * mp + 2) / 5 + 1).
Definition civil_of_doe (doe : Z) : Z * Z * Z :=
  let yoe := year_of_doe doe in
  let '(m, d) := month_of_doy (doe - first_day yoe) in
  (if m <=? 2 then yoe + 1 else yoe, m, d).

Definition civil_from_days (z : Z) : Z * Z * Z :=
  let z' := z + 719468 in
  let '(y, m, d) := civil_of_doe (z' mod 146097) in
  (y + z' / 146097 * 400, m, d).

Definition days_of (t : time) : Z := t / Second / seconds_per_day.
Definition second_of_day (t : time) : Z := t / Second mod seconds_per_day.
Definition civil (t : time) : Z * Z * Z := civil_from_days (days_of t).
Definition Year (t : time) : Z := (civil t).1.1.
Definition Month (t : time) : Z := (civil t).1.2.
Definition Day (t : time) : Z := (civil t).2.

(** [time.Date]: the month is normalised into 1..12, the day counts on from
    the first of the month. *)
Definition date_days (year month day : Z) : Z :=
  days_from_civil (year + (month - 1) / 12) ((month - 1) mod 12 + 1) day.

(** [t.AddDate(years, months, days)] keeps the time of day. *)
Definition AddDate (t : time) (years months days : Z) : time :=
  let '(y, m, d) := civil t in
  date_days (y + years) (m + months) (d + days) * (seconds_per_day * Second)
  + t mod (seconds_per_day * Second).

(** [t.UTC().Format(time.RFC3339)], for the years 0 to 9999. *)
Definition RFC3339 (t : time) : string :=
  let '(y, m, d) := civil t in
  let s := second_of_day t in
  fmt_0d 4 y +:+ "-" +:+ fmt_0d 2 m +:+ "-" +:+ fmt_0d 2 d +:+ "T"
  +:+ fmt_0d 2 (s / 3600) +:+ ":" +:+ fmt_0d 2 (s / 60 mod 60) +:+ ":" +:+ fmt_0d 2 (s mod 60) +:+ "Z".

Example dates :
  (civil_from_days 0, civil_from_days 11016, civil_from_days (-1)) = ((1970, 1, 1), (2000, 2, 29), (1969, 12, 31)) /\
  RFC3339 (1767225599 * Second) = "2025-12-31T23:59:59Z" /\
  RFC3339 (AddDate (1767225599 * Second) 0 (-18) 0) = "2024-07-01T23:59:59Z".
Proof. vm_compute. auto. Qed.

(** ** Correctness of the calendar *)

Fixpoint all_below (n : nat) (p : Z -> bool) (from : Z) : bool :=
  match n with O => true | S n' => p from && all_below n' p (from + 1) end.

Lemma all_below_spec n p from x : all_below n p from = true -> from <= x < from + Z.of_nat n -> p x = true.
Proof.
  revert from. induction n as [|n IH]; intros from H Hx; [lia|]. cbn [all_below] in H.
  apply andb_true_iff in H as [Hp H]. destruct (decide (x = from)) as [->|]; [done|].
  apply (IH (from + 1)); [done|lia].
Qed.

(** Last day of a March-based year of the cycle. *)
Definition last_doy (yoe : Z) : Z :=
  if yoe =? 399 then 365 else first_day (yoe + 1) - first_day yoe - 1.

Definition check_year (yoe : Z) : bool :=
  (year_of_doe (first_day yoe) =? yoe) && (year_of_doe (first_day yoe + last_doy yoe) =? yoe)
  && (364 <=? last_doy yoe) && (last_doy yoe <=? 365) && (first_day yoe + last_doy yoe <=? 146096) && (0 <=? first_day yoe).
Definition check_doy (doy : Z) : bool :=
  let '(m, d) := month_of_doy doy in
  (1 <=? m) && (m <=? 12) && (1 <=? d) && (d <=? 31) && (doy_of m d =? doy).
Definition check_month (m : Z) : bool :=
  all_below 28 (fun d => bool_decide (month_of_doy (doy_of m d) = (m, d))
    && (0 <=? doy_of m d) && (doy_of m d <=? 364)) 1.

Lemma check_years : all_below 400 check_year 0 = true.
Proof. vm_compute. reflexivity. Qed.
Lemma check_doys : all_below 366 check_doy 0 = true.
Proof. vm_compute. reflexivity. Qed.
Lemma check_months : all_below 12 check_month 1 = true.
Proof. vm_compute. reflexivity. Qed.

Lemma year_checks yoe : 0 <= yoe < 400 ->
  year_of_doe (first_day yoe) = yoe /\ year_of_doe (first_day yoe + last_doy yoe) = yoe /\
  364 <= last_doy yoe <= 365 /\ first_day yoe + last_doy yoe <= 146096 /\ 0 <= first_day yoe.
Proof.
  intros H. pose proof (all_below_spec _ _ _ yoe check_years ltac:(lia)) as Hc. unfold check_year in Hc.
  reflect_bools. auto.
Qed.

Lemma year_of_doe_mono a b : 0 <= a <= b -> b <= 146096 -> year_of_doe a <= year_of_doe b.
Proof.
  intros Hab Hb. unfold year_of_doe. apply Z.div_le_mono; [lia|].
  assert (a - a / 1460 <= b - b / 1460) by (Z.to_euclidean_division_equations; lia).
  assert (a / 36524 - a / 146096 <= b / 36524 - b / 146096) by (Z.to_euclidean_division_equations; lia).
  lia.
Qed.

(** The year found for a day of the cycle is the one the day lies in. *)
Lemma year_of_doe_bounds doe : 0 <= doe < 146097 ->
  let yoe := year_of_doe doe in
  0 <= yoe < 400 /\ first_day yoe <= doe <= first_day yoe + last_doy yoe.
Proof.
  intros H. assert (H0 : 0 <= year_of_doe doe < 400).
  { split; [apply (year_of_doe_mono 0 doe); lia|].
    pose proof (year_of_doe_mono doe 146096 ltac:(lia) ltac:(lia)) as Hm.
    change (year_of_doe 146096) with 399 in Hm. lia. }
  split; [done|]. set (yoe := year_of_doe doe) in *.
  destruct (year_checks yoe H0) as (_ & _ & _ & _ & Hf0). split.
  - destruct (Z.le_gt_cases (first_day yoe) doe) as [|Hlt]; [done|exfalso].
    destruct (decide (yoe = 0)) as [E|]; [rewrite E in Hlt; cbv in Hlt; destruct doe; cbv in Hlt; lia || congruence|].
    destruct (year_checks (yoe - 1)) as (_ & E & _ & Hm & _); [lia|].
    assert (Hd : doe <= first_day (yoe - 1) + last_doy (yoe - 1)).
    { unfold last_doy. rewrite (proj2 (Z.eqb_neq _ _)) by lia. replace (yoe - 1 + 1) with yoe by lia. lia. }
    pose proof (year_of_doe_mono doe (first_day (yoe - 1) + last_doy (yoe - 1)) ltac:(lia) Hm). unfold yoe in *. lia.
  - destruct (Z.le_gt_cases doe (first_day yoe + last_doy yoe)) as [|Hlt]; [done|exfalso].
    destruct (decide (yoe = 399)) as [E|]; [rewrite E in Hlt; change (first_day 399 + last_doy 399) with 146096 in Hlt; lia|].
    destruct (year_checks (yoe + 1)) as (E & _ & _ & _ & Hf); [lia|].
    assert (Hd : first_day (yoe + 1) <= doe).
    { unfold last_doy in Hlt. rewrite (proj2 (Z.eqb_neq _ _)) in Hlt by lia. lia. }
    pose proof (year_of_doe_mono (first_day (yoe + 1)) doe ltac:(lia) ltac:(lia)). unfold yoe in *. lia.
Qed.

Lemma days_shift y k m d : days_from_civil (y + k * 400) m d = days_from_civil y m d + k * 146097.
Proof.
  unfold days_from_civil. destruct (m <=? 2);
    [replace (y + k * 400 - 1) with (y - 1 + k * 400) by lia|];
    rewrite Z.mod_add, Z.div_add by lia; lia.
Qed.

(** A day number is the date it stands for. *)
Lemma civil_days z : let '(y, m, d) := civil_from_days z in
  1 <= m <= 12 /\ 1 <= d <= 31 /\ days_from_civil y m d = z.
Proof.
  unfold civil_from_days, civil_of_doe. pose proof (Z.mod_pos_bound (z + 719468) 146097 ltac:(lia)) as Hb.
  pose proof (Z.div_mod (z + 719468) 146097 ltac:(lia)) as Hdm.
  set (doe := (z + 719468) mod 146097) in *.
  destruct (year_of_doe_bounds doe Hb) as [Hy Hf]. set (yoe := year_of_doe doe) in *.
  destruct (year_checks yoe Hy) as (_ & _ & Hl & _).
  pose proof (all_below_spec _ _ _ (doe - first_day yoe) check_doys ltac:(lia)) as Hc. unfold check_doy in Hc.
  destruct (month_of_doy _) as [m d]. reflect_bools. split_and!; try lia. rewrite days_shift.
  unfold days_from_civil.
  replace (if m <=? 2 then _ else _) with yoe by (destruct (m <=? 2); lia).
  rewrite (Z.div_small yoe), (Z.mod_small yoe) by lia. unfold first_day in *. lia.
Qed.

(** The first 28 days of a month are dates of that month. *)
Lemma days_civil y m d : 1 <= m <= 12 -> 1 <= d <= 28 -> civil_from_days (days_from_civil y m d) = (y, m, d).
Proof.
  intros Hm Hd. unfold civil_from_days, days_from_civil, civil_of_doe.
  set (y' := if m <=? 2 then y - 1 else y).
  pose proof (Z.mod_pos_bound y' 400 ltac:(lia)) as Hb.
  destruct (year_checks (y' mod 400) Hb) as (E1 & E2 & Hl & Hmax & Hf0).
  pose proof (all_below_spec _ _ _ m check_months ltac:(lia)) as Hc. unfold check_month in Hc.
  eapply all_below_spec in Hc; [|instantiate (1 := d); lia]. reflect_bools.
  match goal with |- context [?a - 719468 + 719468] => replace (a - 719468 + 719468)
    with (first_day (y' mod 400) + doy_of m d + y' / 400 * 146097) by (unfold first_day; lia) end.
  rewrite Z.mod_add, (Z.mod_small (first_day _ + _)) by lia.
  rewrite Z.div_add, (Z.div_small (first_day _ + _)) by lia.
  assert (Ey : year_of_doe (first_day (y' mod 400) + doy_of m d) = y' mod 400).
  { apply Z.le_antisymm.
    - rewrite <- E2 at 2. apply year_of_doe_mono; lia.
    - rewrite <- E1 at 1. apply year_of_doe_mono; lia. }
  rewrite Ey. replace (first_day (y' mod 400) + doy_of m d - first_day (y' mod 400)) with (doy_of m d) by lia.
  match goal with H : month_of_doy _ = _ |- _ => rewrite H end.
  pose proof (Z.div_mod y' 400 ltac:(lia)). unfold y' in *.
  destruct (m <=? 2); f_equal; f_equal; lia.
Qed.

(** Moving by months keeps the day of the month when every month has it. *)
Lemma AddDate_months t k : Day t <= 28 ->
  let m := Month t + k - 1 in
  civil (AddDate t 0 k 0) = (Year t + m / 12, m mod 12 + 1, Day t).
Proof.
  intros Hd. unfold Day, Year, Month, AddDate, civil in *.
  pose proof (civil_days (days_of t)) as Hc. destruct (civil_from_days (days_of t)) as [[y m] d].
  cbn [fst snd] in *. destruct Hc as (Hm & Hd' & _). unfold date_days, days_of at 1.
  assert (HS : seconds_per_day * Second = 86400000000000) by reflexivity. rewrite HS.
  pose proof (Z.mod_pos_bound t 86400000000000 ltac:(lia)) as Hr.
  rewrite Z.div_div by (unfold Second, seconds_per_day; lia).
  replace (Second * seconds_per_day) with 86400000000000 by reflexivity.
  rewrite Z.div_add_l, (Z.div_small (t mod _)), Z.add_0_r by lia.
  pose proof (Z.mod_pos_bound (m + k - 1) 12 ltac:(lia)).
  rewrite days_civil by lia. by rewrite !Z.add_0_r.
Qed.

(** The calendar never moves by more than the number of days it is given. *)
Lemma AddDate_days t k : AddDate t 0 0 k = t + k * (seconds_per_day * Second).
Proof.
  unfold AddDate, civil. pose proof (civil_days (days_of t)) as Hc.
  destruct (civil_from_days (days_of t)) as [[y m] d]. destruct Hc as (Hm & Hd & Hz).
  unfold date_days. rewrite !Z.add_0_r, Z.div_small, Z.mod_small by lia.
  replace (m - 1 + 1) with m by lia. rewrite Z.add_0_r.
  assert (E : days_from_civil y m (d + k) = days_from_civil y m d + k) by (unfold days_from_civil, doy_of; lia).
  rewrite E, Hz. unfold days_of.
  assert (HS : seconds_per_day * Second = 86400000000000) by reflexivity. rewrite HS.
  rewrite Z.div_div by (unfold Second, seconds_per_day; lia).
  replace (Second * seconds_per_day) with 86400000000000 by reflexivity.
  pose proof (Z.div_mod t 86400000000000 ltac:(lia)). lia.
Qed.

(** The leap years counted one by one. *)
Lemma days_from_civil_leap y m d :
  days_from_civil y m d =
  let y' := if m <=? 2 then y - 1 else y in 365 * y' + y' / 4 - y' / 100 + y' / 400 + doy_of m d - 719468.
Proof.
  unfold days_from_civil. set (y' := if m <=? 2 then y - 1 else y). cbv zeta.
  pose proof (Z.div_mod y' 400 ltac:(lia)) as E. set (q := y' / 400) in *. set (r := y' mod 400) in *.
  assert (E4 : y' / 4 = r / 4 + 100 * q).
  { rewrite E. replace (400 * q + r) with (r + (100 * q) * 4) by lia. by rewrite Z.div_add by lia. }
  assert (E100 : y' / 100 = r / 100 + 4 * q).
  { rewrite E. replace (400 * q + r) with (r + (4 * q) * 100) by lia. by rewrite Z.div_add by lia. }
  rewrite E4, E100. lia.
Qed.

(** The first day of a month and of the month after it. *)
Definition next_month (y m : Z) : Z * Z := if 12 <? m + 1 then (y + 1, 1) else (y, m + 1).

Lemma next_month_later y m : 1 <= m <= 12 ->
  days_from_civil y m 1 + 28 <= days_from_civil (next_month y m).1 (next_month y m).2 1.
Proof.
  intros Hm. rewrite !days_from_civil_leap. unfold next_month, doy_of.
  assert (Hleap : 365 * (y - 1) + (y - 1) / 4 - (y - 1) / 100 + (y - 1) / 400 + 365
    <= 365 * y + y / 4 - y / 100 + y / 400) by (Z.to_euclidean_division_equations; lia).
  destruct (Z.ltb_spec 12 (m + 1)); cbn [fst snd].
  - replace m with 12 by lia. change (12 <=? 2) with false. change (1 <=? 2) with true.
    change (2 <? 12) with true. change (2 <? 1) with false. cbv iota. replace (y + 1 - 1) with y by lia.
    change ((153 * (12 - 3) + 2) / 5) with 275. change ((153 * (1 + 9) + 2) / 5) with 306. lia.
  - destruct (Z.leb_spec m 2), (Z.leb_spec (m + 1) 2), (Z.ltb_spec 2 m), (Z.ltb_spec 2 (m + 1)); try lia.
    + replace m with 1 by lia. change ((153 * (1 + 9) + 2) / 5) with 306. change ((153 * (1 + 1 + 9) + 2) / 5) with 337. lia.
    + replace m with 2 by lia. change ((153 * (2 + 9) + 2) / 5) with 337. change ((153 * (2 + 1 - 3) + 2) / 5) with 0. lia.
    + assert ((153 * (m - 3) + 2) / 5 + 28 <= (153 * (m + 1 - 3) + 2) / 5)
        by (clear Hleap; Z.to_euclidean_division_equations; lia). lia.
Qed.

(** Days of a month count on from its first. *)
Lemma days_in_month y m d : days_from_civil y m d = days_from_civil y m 1 + (d - 1).
Proof. unfold days_from_civil, doy_of. lia. Qed.
