(* ===== verification/Base64.v ===== *)
(** * [encoding/base64]

    [StdEncoding] and [RawStdEncoding] (padded and not, alphabet with [+] and
    [/]) and [RawURLEncoding] (unpadded, alphabet with [-] and [_]), and that decoding undoes
    encoding. *)

From S2P Require Import Prelude GoStd Sha256.

Record Encoding := mkEncoding { alphabet : list ascii; padded : bool }.

Definition letters : string := "ABCDEFGHIJKLMNOPQRSTUVWXYZabcdefghijklmnopqrstuvwxyz0123456789".
Definition StdEncoding : Encoding := mkEncoding (s2l (letters +:+ "+/")) true.
Definition RawStdEncoding : Encoding := mkEncoding (s2l (letters +:+ "+/")) false.
Definition RawURLEncoding : Encoding := mkEncoding (s2l (letters +:+ "-_")) false.

Definition pad_char : ascii := "=".

Section encoding.
Context (enc : Encoding).

Definition digit_char (d : Z) : ascii := nth (Z.to_nat d) (alphabet enc) pad_char.

Fixpoint index_of (c : ascii) (l : list ascii) (i : Z) : option Z :=
  match l with
  | [] => None
  | x :: l' => if decide (x = c) then Some i else index_of c l' (i + 1)
  end.
Definition char_digit (c : ascii) : option Z := index_of c (alphabet enc) 0.

Definition padding (n : nat) : list ascii := if padded enc then replicate n pad_char else [].

Fixpoint encode (l : list ascii) : list ascii :=
  match l with
  | [] => []
  | [a] => [digit_char (code a / 4); digit_char (code a mod 4 * 16)] ++ padding 2
  | [a; b] => [digit_char (code a / 4); digit_char (code a mod 4 * 16 + code b / 16);
               digit_char (code b mod 16 * 4)] ++ padding 1
  | a :: b :: c :: l' =>
      [digit_char (code a / 4); digit_char (code a mod 4 * 16 + code b / 16);
       digit_char (code b mod 16 * 4 + code c / 64); digit_char (code c mod 64)] ++ encode l'
  end.
Definition EncodeToString (l : list ascii) : string := l2s (encode l).

Definition byte0 (p q : Z) : ascii := chr (p * 4 + q / 16).
Definition byte1 (q r : Z) : ascii := chr (q mod 16 * 16 + r / 4).
Definition byte2 (r s : Z) : ascii := chr (r mod 4 * 64 + s).

Definition decode1 (a b : ascii) : option (list ascii) :=
  p ← char_digit a; q ← char_digit b; Some [byte0 p q].
Definition decode2 (a b c : ascii) : option (list ascii) :=
  p ← char_digit a; q ← char_digit b; r ← char_digit c; Some [byte0 p q; byte1 q r].

(** A padded quantum must be the last one; without padding the last quantum
    may have two or three digits. *)
Fixpoint decode (l : list ascii) : option (list ascii) :=
  match l with
  | [] => Some []
  | [_] => None
  | [a; b] => if padded enc then None else decode1 a b
  | [a; b; c] => if padded enc then None else decode2 a b c
  | a :: b :: c :: d :: l' =>
      if padded enc && bool_decide (d = pad_char) then
        match l' with
        | [] => if decide (c = pad_char) then decode1 a b else decode2 a b c
        | _ => None
        end
      else
        p ← char_digit a; q ← char_digit b; r ← char_digit c; s ← char_digit d;
        rest ← decode l';
        Some (byte0 p q :: byte1 q r :: byte2 r s :: rest)
  end.

(** Line ends in the input are skipped. *)
Definition is_line_end (c : ascii) : bool := (code c =? 10) || (code c =? 13).
Definition DecodeString (s : string) : option (list ascii) :=
  decode (List.filter (fun c => negb (is_line_end c)) (s2l s)).
End encoding.

Example base64_samples :
  EncodeToString StdEncoding (s2l "2026-05") = "MjAyNi0wNQ==" /\
  DecodeString StdEncoding "MjAyNi0wNQ==" = Some (s2l "2026-05") /\
  DecodeString StdEncoding "MjAyNi0wNQ" = None /\
  EncodeToString RawURLEncoding (s2l "hi>?") = "aGk-Pw" /\
  DecodeString RawURLEncoding "aGk-Pw" = Some (s2l "hi>?") /\
  DecodeString StdEncoding "Zm9=v" = None.
Proof. vm_compute. auto 10. Qed.

(** ** Round trip *)

(** An alphabet of 64 distinct characters, none of them padding or a line
    end. *)
Definition digit_ok (enc : Encoding) (d : Z) : bool :=
  bool_decide (char_digit enc (digit_char enc d) = Some d)
  && negb (bool_decide (digit_char enc d = pad_char)) && negb (is_line_end (digit_char enc d)).
Definition alphabet_ok (enc : Encoding) : bool := forallb (fun n => digit_ok enc (Z.of_nat n)) (seq 0 64).

Lemma StdEncoding_ok : alphabet_ok StdEncoding = true.
Proof. vm_compute. reflexivity. Qed.
Lemma RawStdEncoding_ok : alphabet_ok RawStdEncoding = true.
Proof. vm_compute. reflexivity. Qed.
Lemma RawURLEncoding_ok : alphabet_ok RawURLEncoding = true.
Proof. vm_compute. reflexivity. Qed.

Ltac digits_in :=
  repeat match goal with
    | |- context [code ?c / ?k] => lazymatch goal with
        | H : 0 <= code c < 256 |- _ => fail | _ => pose proof (code_range c) end
    | |- context [code ?c mod ?k] => lazymatch goal with
        | H : 0 <= code c < 256 |- _ => fail | _ => pose proof (code_range c) end
    end; Z.to_euclidean_division_equations; lia.

Section roundtrip.
Context (enc : Encoding) (Hok : alphabet_ok enc = true).

Lemma digit_spec d : 0 <= d < 64 ->
  char_digit enc (digit_char enc d) = Some d /\ digit_char enc d <> pad_char /\
  is_line_end (digit_char enc d) = false.
Proof.
  intros H. unfold alphabet_ok in Hok. rewrite forallb_forall in Hok.
  specialize (Hok (Z.to_nat d)). rewrite Z2Nat.id in Hok by lia.
  unfold digit_ok in Hok. lapply Hok; [|apply in_seq; lia]. clear Hok. intros Hok. reflect_bools. auto.
Qed.

Lemma byte_eq z c : z = code c -> chr z = c.
Proof. intros ->. apply code_inj, code_chr, code_range. Qed.

Lemma byte0_ok a r : 0 <= r < 16 -> byte0 (code a / 4) (code a mod 4 * 16 + r) = a.
Proof. intros H. apply byte_eq. pose proof (code_range a). Z.to_euclidean_division_equations. lia. Qed.
Lemma byte1_ok a b r : 0 <= r < 4 -> byte1 (code a mod 4 * 16 + code b / 16) (code b mod 16 * 4 + r) = b.
Proof. intros H. apply byte_eq. pose proof (code_range b). Z.to_euclidean_division_equations. lia. Qed.
Lemma byte2_ok b c : byte2 (code b mod 16 * 4 + code c / 64) (code c mod 64) = c.
Proof. apply byte_eq. pose proof (code_range c). Z.to_euclidean_division_equations. lia. Qed.

Lemma encode_induction (P : list ascii -> Prop) :
  P [] -> (forall a, P [a]) -> (forall a b, P [a; b]) ->
  (forall a b c l, P l -> P (a :: b :: c :: l)) -> forall l, P l.
Proof.
  intros H0 H1 H2 H3. fix IH 1. intros [|a [|b [|c l]]]; [done|apply H1|apply H2|apply H3, IH].
Qed.

Lemma decode_encode l : decode enc (encode enc l) = Some l.
Proof.
  induction l as [|a|a b|a b c l IH] using encode_induction; [done|..]; cbn [encode].
  - destruct (digit_spec (code a / 4)) as (E1 & N1 & _); [digits_in|].
    destruct (digit_spec (code a mod 4 * 16)) as (E2 & N2 & _); [digits_in|].
    assert (E : decode1 enc (digit_char enc (code a / 4)) (digit_char enc (code a mod 4 * 16)) = Some [a]).
    { unfold decode1. rewrite E1, E2. cbn. f_equal. f_equal.
      rewrite <- (Z.add_0_r (code a mod 4 * 16)). apply byte0_ok. lia. }
    unfold padding. destruct (padded enc) eqn:Ep; cbn [app replicate decode]; rewrite Ep; [|done].
    cbn [andb]. rewrite bool_decide_true by done. by rewrite decide_True.
  - destruct (digit_spec (code a / 4)) as (E1 & N1 & _); [digits_in|].
    destruct (digit_spec (code a mod 4 * 16 + code b / 16)) as (E2 & N2 & _); [digits_in|].
    destruct (digit_spec (code b mod 16 * 4)) as (E3 & N3 & _); [digits_in|].
    assert (E : decode2 enc (digit_char enc (code a / 4)) (digit_char enc (code a mod 4 * 16 + code b / 16))
      (digit_char enc (code b mod 16 * 4)) = Some [a; b]).
    { unfold decode2. rewrite E1, E2, E3. cbn -[byte0 byte1]. f_equal. rewrite byte0_ok by digits_in.
      rewrite <- (Z.add_0_r (code b mod 16 * 4)). rewrite byte1_ok by lia. done. }
    unfold padding. destruct (padded enc) eqn:Ep; cbn [app replicate decode]; rewrite Ep; [|done].
    cbn [andb]. rewrite bool_decide_true by done. by rewrite decide_False.
  - destruct (digit_spec (code a / 4)) as (E1 & N1 & _); [digits_in|].
    destruct (digit_spec (code a mod 4 * 16 + code b / 16)) as (E2 & N2 & _); [digits_in|].
    destruct (digit_spec (code b mod 16 * 4 + code c / 64)) as (E3 & N3 & _); [digits_in|].
    destruct (digit_spec (code c mod 64)) as (E4 & N4 & _); [digits_in|].
    cbn [app decode]. rewrite (bool_decide_false _ N4), andb_false_r. rewrite E1, E2, E3, E4.
    cbn -[byte0 byte1 byte2 decode]. rewrite IH. cbn -[byte0 byte1 byte2].
    rewrite byte0_ok, byte1_ok, byte2_ok by digits_in. done.
Qed.

Lemma encode_no_line_end l : List.filter (fun c => negb (is_line_end c)) (encode enc l) = encode enc l.
Proof.
  assert (Hp : forall n, List.filter (fun c => negb (is_line_end c)) (padding enc n) = padding enc n).
  { intros n. unfold padding. destruct (padded enc); [|done]. induction n as [|n IHn]; [done|].
    cbn [replicate List.filter]. change (negb (is_line_end pad_char)) with true. cbv iota. by rewrite IHn. }
  induction l as [|a|a b|a b c l IH] using encode_induction; [done|..]; cbn [encode app List.filter];
    repeat match goal with |- context [is_line_end (digit_char enc ?d)] =>
      let H := fresh in assert (H : is_line_end (digit_char enc d) = false)
        by (apply digit_spec; digits_in); rewrite H; clear H; cbn [negb] end; by rewrite ?Hp, ?IH.
Qed.

(** Decoding undoes encoding. *)
Lemma DecodeString_EncodeToString l : DecodeString enc (EncodeToString enc l) = Some l.
Proof.
  unfold DecodeString, EncodeToString. rewrite s2l_l2s, encode_no_line_end. apply decode_encode.
Qed.
End roundtrip.

(** Without padding the text consists of letters of the alphabet. *)
Lemma encode_alphabet enc l : alphabet_ok enc = true -> padded enc = false ->
  Forall (fun c => is_Some (char_digit enc c)) (encode enc l).
Proof.
  intros Hok Hp. assert (Hd : forall d, 0 <= d < 64 -> is_Some (char_digit enc (digit_char enc d))).
  { intros d Hd. destruct (digit_spec enc Hok d Hd) as [-> _]. done. }
  induction l as [|a|a b|a b c l IH] using encode_induction; [constructor|..]; cbn [encode]; unfold padding;
    rewrite ?Hp, ?app_nil_r; repeat constructor; try (apply Hd; digits_in); done.
Qed.
