(* ===== verification/Json.v ===== *)
(** * Package encoding/json, as the policy service uses it

    JSON values as [json.Unmarshal] into [any] produces them, the encoding of
    strings by [json.Marshal], and the decoding of what [json.Marshal] wrote.
    Numbers are integers: every number the services write is an [int] far
    below 2^53, which [float64] holds exactly and prints back in the same
    decimal digits. *)

From S2P Require Import Prelude GoStd.

Unset Elimination Schemes.
Inductive json :=
| JNull
| JBool (b : bool)
| JNum (n : Z)
| JStr (s : string)
| JArr (l : list json)
| JObj (members : list (string * json)).
Set Elimination Schemes.

(** Induction over the nested lists. *)
Section json_ind.
Context (P : json -> Prop).
Context (HNull : P JNull) (HBool : forall b, P (JBool b)) (HNum : forall n, P (JNum n))
        (HStr : forall s, P (JStr s))
        (HArr : forall l, Forall P l -> P (JArr l))
        (HObj : forall m, Forall (fun kv => P kv.2) m -> P (JObj m)).

Fixpoint json_ind (v : json) : P v :=
  match v with
  | JNull => HNull
  | JBool b => HBool b
  | JNum n => HNum n
  | JStr s => HStr s
  | JArr l =>
      HArr l ((fix go l : Forall P l := match l with
                | [] => Forall_nil_2 P
                | x :: l' => Forall_cons_2 P x l' (json_ind x) (go l')
                end) l)
  | JObj m =>
      HObj m ((fix go m : Forall (fun kv => P kv.2) m := match m with
                | [] => Forall_nil_2 _
                | kv :: m' => Forall_cons_2 (fun kv => P kv.2) kv m' (json_ind kv.2) (go m')
                end) m)
  end.
End json_ind.

(** ** Strings *)

Definition hex_digit (z : Z) : ascii := if z <? 10 then chr (48 + z) else chr (87 + z).
(** [\u00XX] *)
Definition u00 (z : Z) : list ascii :=
  s2l "\u00" ++ [hex_digit (z / 16); hex_digit (z mod 16)].
Definition dquote : ascii := chr 34.

(** One ASCII byte inside a string literal, with HTML escaping. *)
Definition escape_byte (c : ascii) : list ascii :=
  let z := code c in
  if (z =? 34) || (z =? 92) then [chr 92; c]
  else if z =? 8 then s2l "\b"
  else if z =? 12 then s2l "\f"
  else if z =? 10 then s2l "\n"
  else if z =? 13 then s2l "\r"
  else if z =? 9 then s2l "\t"
  else if (z <? 32) || (z =? 60) || (z =? 62) || (z =? 38) then u00 z
  else [c].

Fixpoint escape_string (fuel : nat) (l : list ascii) : list ascii :=
  match fuel, l with
  | S fuel', c :: l' =>
      if code c <? 128 then escape_byte c ++ escape_string fuel' l'
      else
        let '(r, n) := DecodeRune l in
        let rest := escape_string fuel' (drop n l) in
        if (r =? RuneError) && (n =? 1)%nat then s2l "\ufffd" ++ rest
        else if r =? 8232 then s2l "\u2028" ++ rest
        else if r =? 8233 then s2l "\u2029" ++ rest
        else take n l ++ rest
  | _, _ => []
  end.

(** [json.Marshal(s)]. *)
Definition marshal_string (s : string) : list ascii :=
  dquote :: escape_string (String.length s) (s2l s) ++ [dquote].

(** What a string is after [Marshal] and [Unmarshal]: every invalid byte has
    become U+FFFD. *)
Fixpoint to_valid (fuel : nat) (l : list ascii) : list ascii :=
  match fuel, l with
  | S fuel', _ :: _ =>
      let '(r, n) := DecodeRune l in
      (if (r =? RuneError) && (n =? 1)%nat then [chr 239; chr 191; chr 189] else take n l)
        ++ to_valid fuel' (drop n l)
  | _, _ => []
  end.
Definition ToValidUTF8 (s : string) : string := l2s (to_valid (String.length s) (s2l s)).

(** [json.Unmarshal] of [json.Marshal] of a value. *)
Fixpoint json_roundtrip (v : json) : json :=
  match v with
  | JStr s => JStr (ToValidUTF8 s)
  | JArr l => JArr (map json_roundtrip l)
  | JObj m => JObj (map (fun kv => (ToValidUTF8 kv.1, json_roundtrip kv.2)) m)
  | _ => v
  end.

(** [json.Marshal] of a scalar. *)
Definition marshal_bool (b : bool) : list ascii := s2l (if b then "true" else "false").
Definition marshal_int (n : Z) : list ascii := s2l (pretty n).

Example marshal_string_html :
  l2s (marshal_string "a<b>\") = l2s (dquote :: s2l "a\u003cb\u003e\\" ++ [dquote]).
Proof. vm_compute. reflexivity. Qed.
