(* ===== verification/JsonDecode.v ===== *)
(** * Package encoding/json: decoding

    [json.Unmarshal] as an executable function on byte strings: a lexer, a
    stack machine over the tokens (the shape of Go's scanner), and the rules by
    which the members of an object are matched to the fields of a struct.
    Number literals keep their text, as the decoder converts them only once it
    knows the type of the field.  [Unmarshal_marshal] is the round trip with
    the encoder for values whose strings are ASCII. *)

From S2P Require Import Prelude GoStd GoFmt Json.

Inductive jval :=
| VNull
| VBool (b : bool)
| VNum (literal : string)
| VStr (s : string)
| VArr (l : list jval)
| VObj (members : list (string * jval)).

(** ** Strings *)

Definition hex_value (c : ascii) : option Z :=
  let z := code c in
  if (48 <=? z) && (z <=? 57) then Some (z - 48)
  else if (97 <=? z) && (z <=? 102) then Some (z - 87)
  else if (65 <=? z) && (z <=? 70) then Some (z - 55)
  else None.

(** Four hexadecimal digits ([getu4]). *)
Definition hex4 (l : list ascii) : option (Z * list ascii) :=
  match l with
  | a :: b :: c :: d :: l' =>
      match hex_value a, hex_value b, hex_value c, hex_value d with
      | Some a, Some b, Some c, Some d => Some (((a * 16 + b) * 16 + c) * 16 + d, l')
      | _, _, _, _ => None
      end
  | _ => None
  end.

(** [utf8.AppendRune]; surrogates are encoded as U+FFFD. *)
Definition EncodeRune (r : Z) : list ascii :=
  let r := if (55296 <=? r) && (r <=? 57343) then RuneError else r in
  if r <? 128 then [chr r]
  else if r <? 2048 then [chr (192 + r / 64); chr (128 + r mod 64)]
  else if r <? 65536 then [chr (224 + r / 4096); chr (128 + r / 64 mod 64); chr (128 + r mod 64)]
  else [chr (240 + r / 262144); chr (128 + r / 4096 mod 64); chr (128 + r / 64 mod 64); chr (128 + r mod 64)].

(** The escape after a backslash. *)
Definition simple_escape (c : ascii) : option ascii :=
  let z := code c in
  if (z =? 34) || (z =? 92) || (z =? 47) then Some c
  else if z =? 98 then Some (chr 8) else if z =? 102 then Some (chr 12)
  else if z =? 110 then Some (chr 10) else if z =? 114 then Some (chr 13)
  else if z =? 116 then Some (chr 9) else None.

(** [\uXXXX], with the low surrogate that may follow a high one. *)
Definition unicode_escape (l : list ascii) : option (list ascii * list ascii) :=
  match hex4 l with
  | None => None
  | Some (r, l') =>
      if (55296 <=? r) && (r <=? 56319) then
        match l' with
        | b :: u :: l'' =>
            if (code b =? 92) && (code u =? 117) then
              match hex4 l'' with
              | Some (r2, l3) =>
                  if (56320 <=? r2) && (r2 <=? 57343)
                  then Some (EncodeRune ((r - 55296) * 1024 + (r2 - 56320) + 65536), l3)
                  else Some (EncodeRune r, l')
              | None => Some (EncodeRune r, l')
              end
            else Some (EncodeRune r, l')
        | _ => Some (EncodeRune r, l')
        end
      else Some (EncodeRune r, l')
  end.

(** The bytes of a string literal up to the closing quote, and what follows. *)
Fixpoint lex_string (fuel : nat) (l : list ascii) : option (list ascii * list ascii) :=
  match fuel, l with
  | S fuel, c :: l' =>
      let z := code c in
      let emit (s rest : list ascii) :=
        match lex_string fuel rest with
        | Some (t, r) => Some (s ++ t, r)
        | None => None
        end in
      if z =? 34 then Some ([], l')
      else if z =? 92 then
        match l' with
        | e :: l'' =>
            if code e =? 117 then
              match unicode_escape l'' with
              | Some (s, rest) => emit s rest
              | None => None
              end
            else match simple_escape e with
                 | Some d => emit [d] l''
                 | None => None
                 end
        | [] => None
        end
      else if z <? 32 then None
      else if z <? 128 then emit [c] l'
      else
        let '(r, n) := DecodeRune l in
        if (r =? RuneError) && (n =? 1)%nat then emit [chr 239; chr 191; chr 189] l'
        else emit (take n l) (drop n l)
  | _, _ => None
  end.

(** ** Tokens *)

Inductive token :=
| TLBrace | TRBrace | TLBrack | TRBrack | TColon | TComma
| TNull | TBool (b : bool) | TNum (literal : string) | TStr (s : string).

Definition is_e (c : ascii) : bool := (code c =? 101) || (code c =? 69).
Definition is_sign (c : ascii) : bool := (code c =? 43) || (code c =? 45).

(** The integer part: a zero, or digits that do not start with one. *)
Definition lex_int (l : list ascii) : option (list ascii * list ascii) :=
  match l with
  | c :: l' =>
      if code c =? 48 then Some ([c], l')
      else if is_digit c then Some (span_digits l) else None
  | [] => None
  end.

Definition lex_frac (l : list ascii) : option (list ascii * list ascii) :=
  match l with
  | c :: l' =>
      if code c =? 46 then
        match span_digits l' with
        | ([], _) => None
        | (d, r) => Some (c :: d, r)
        end
      else Some ([], l)
  | [] => Some ([], [])
  end.

Definition lex_exp (l : list ascii) : option (list ascii * list ascii) :=
  match l with
  | c :: l' =>
      if is_e c then
        let '(s, l'') := match l' with
                         | s :: l'' => if is_sign s then ([s], l'') else ([], l')
                         | [] => ([], [])
                         end in
        match span_digits l'' with
        | ([], _) => None
        | (d, r) => Some (c :: s ++ d, r)
        end
      else Some ([], l)
  | [] => Some ([], [])
  end.

Definition lex_number (l : list ascii) : option (list ascii * list ascii) :=
  let '(sign, l) := match l with
                    | c :: l' => if code c =? 45 then ([c], l') else ([], l)
                    | [] => ([], [])
                    end in
  match lex_int l with
  | None => None
  | Some (i, l) =>
      match lex_frac l with
      | None => None
      | Some (f, l) =>
          match lex_exp l with
          | None => None
          | Some (e, l) => Some (sign ++ i ++ f ++ e, l)
          end
      end
  end.

Definition is_json_space (c : ascii) : bool :=
  (code c =? 32) || (code c =? 9) || (code c =? 10) || (code c =? 13).

Definition lex_word (w : list ascii) (t : token) (l : list ascii) : option (token * list ascii) :=
  match strip_prefix w l with Some r => Some (t, r) | None => None end.

(** One token at the head of [c :: l']. *)
Definition lex_one (c : ascii) (l' : list ascii) : option (token * list ascii) :=
  let z := code c in
  if z =? 123 then Some (TLBrace, l') else if z =? 125 then Some (TRBrace, l')
  else if z =? 91 then Some (TLBrack, l') else if z =? 93 then Some (TRBrack, l')
  else if z =? 58 then Some (TColon, l') else if z =? 44 then Some (TComma, l')
  else if z =? 110 then lex_word (s2l "ull") TNull l'
  else if z =? 116 then lex_word (s2l "rue") (TBool true) l'
  else if z =? 102 then lex_word (s2l "alse") (TBool false) l'
  else if z =? 34 then
    match lex_string (S (length l')) l' with
    | Some (s, r) => Some (TStr (l2s s), r)
    | None => None
    end
  else match lex_number (c :: l') with
       | Some (n, r) => Some (TNum (l2s n), r)
       | None => None
       end.

Fixpoint lex (fuel : nat) (l : list ascii) : option (list token) :=
  match fuel, l with
  | _, [] => Some []
  | S fuel, c :: l' =>
      if is_json_space c then lex fuel l'
      else match lex_one c l' with
           | Some (t, r) => match lex fuel r with Some ts => Some (t :: ts) | None => None end
           | None => None
           end
  | O, _ :: _ => None
  end.

(** ** The stack machine *)

Inductive frame :=
| FArr (rev_elems : list jval)
| FObj (rev_members : list (string * jval)) (key : string).

Inductive mode :=
| MValue                                            (* a value must follow *)
| MElemOrEnd                                        (* after [ *)
| MKeyOrEnd                                         (* after { *)
| MKey (rev_members : list (string * jval))         (* after a comma in an object *)
| MColon (rev_members : list (string * jval)) (key : string)
| MAfter (v : jval).                                (* a value has ended *)

Record machine := Machine { stack : list frame; now_in : mode }.

(** Go limits the nesting of arrays and objects ([maxNestingDepth]). *)
Definition max_nesting : Z := 10000.
Definition open (st : list frame) (m : mode) : option machine :=
  if Z.of_nat (length st) <? max_nesting then Some (Machine st m) else None.

Definition value_token (t : token) : option jval :=
  match t with
  | TNull => Some VNull | TBool b => Some (VBool b)
  | TNum n => Some (VNum n) | TStr s => Some (VStr s) | _ => None
  end.

(** A token where a value is expected, on top of the frames [st].  The frame
    of the array or object being opened is pushed when its first element or
    key is seen. *)
Definition start_value (st : list frame) (t : token) : option machine :=
  match t with
  | TLBrack => open st MElemOrEnd
  | TLBrace => open st MKeyOrEnd
  | _ => match value_token t with Some v => Some (Machine st (MAfter v)) | None => None end
  end.

Definition step (m : machine) (t : token) : option machine :=
  let st := stack m in
  match now_in m with
  | MValue => start_value st t
  | MElemOrEnd =>
      match t with
      | TRBrack => Some (Machine st (MAfter (VArr [])))
      | _ => start_value (FArr [] :: st) t
      end
  | MKeyOrEnd =>
      match t with
      | TRBrace => Some (Machine st (MAfter (VObj [])))
      | TStr k => Some (Machine st (MColon [] k))
      | _ => None
      end
  | MKey ms => match t with TStr k => Some (Machine st (MColon ms k)) | _ => None end
  | MColon ms k => match t with TColon => Some (Machine (FObj ms k :: st) MValue) | _ => None end
  | MAfter v =>
      match st with
      | FArr es :: st' =>
          match t with
          | TComma => Some (Machine (FArr (v :: es) :: st') MValue)
          | TRBrack => Some (Machine st' (MAfter (VArr (reverse (v :: es)))))
          | _ => None
          end
      | FObj ms k :: st' =>
          match t with
          | TComma => Some (Machine st' (MKey ((k, v) :: ms)))
          | TRBrace => Some (Machine st' (MAfter (VObj (reverse ((k, v) :: ms)))))
          | _ => None
          end
      | [] => None
      end
  end.

Fixpoint run_machine (m : machine) (ts : list token) : option machine :=
  match ts with
  | [] => Some m
  | t :: ts' => match step m t with Some m' => run_machine m' ts' | None => None end
  end.

(** [json.Unmarshal] into an untyped tree; [None] is a [SyntaxError]. *)
Definition Unmarshal (data : string) : option jval :=
  match lex (String.length data) (s2l data) with
  | None => None
  | Some ts =>
      match run_machine (Machine [] MValue) ts with
      | Some (Machine [] (MAfter v)) => Some v
      | _ => None
      end
  end.

(** [json.NewDecoder(r).Decode]: the first value of the input, whatever comes
    after it. *)
Fixpoint decode_first (fuel : nat) (m : machine) (l : list ascii) : option jval :=
  match fuel, l with
  | S fuel, c :: l' =>
      if is_json_space c then decode_first fuel m l'
      else match lex_one c l' with
           | None => None
           | Some (t, r) =>
               match step m t with
               | None => None
               | Some (Machine [] (MAfter v)) => Some v
               | Some m' => decode_first fuel m' r
               end
           end
  | _, _ => None
  end.
Definition Decode (data : string) : option jval := decode_first (String.length data) (Machine [] MValue) (s2l data).

(** A text that is one value is decoded as that value. *)
Lemma Unmarshal_Decode data v : Unmarshal data = Some v -> Decode data = Some v.
Proof.
  unfold Unmarshal, Decode.
  assert (Hgo : forall fuel m l ts, (forall v, m <> Machine [] (MAfter v)) -> lex fuel l = Some ts ->
    match run_machine m ts with Some (Machine [] (MAfter v)) => Some v | _ => None end = Some v ->
    decode_first fuel m l = Some v).
  { induction fuel as [|fuel IH]; intros m [|c l] ts Hm Hl Hr; cbn [lex] in Hl; try done.
    - injection Hl as <-. cbn in Hr. destruct m as [[|] []]; try done. by destruct (Hm v0).
    - injection Hl as <-. cbn in Hr. destruct m as [[|] []]; try done. by destruct (Hm v0).
    - cbn [decode_first]. destruct (is_json_space c); [by eapply IH|].
      destruct (lex_one c l) as [[t r]|]; [|done]. destruct (lex fuel r) as [ts'|] eqn:El; [|done]. injection Hl as <-.
      cbn [run_machine] in Hr. destruct (step m t) as [m'|]; [|done].
      assert (Hend : forall v0, m' = Machine [] (MAfter v0) -> v0 = v).
      { intros v0 ->. destruct ts' as [|t' ts']; cbn in Hr; congruence. }
      destruct m' as [[|fr st] md]; [|by eapply IH]. destruct md as [| | | | |v0]; try by eapply IH.
      f_equal. by apply Hend. }
  destruct (lex _ _) as [ts|] eqn:El; [|done]. intros Hr. by eapply Hgo.
Qed.

(** ** Encoding *)

(** The images of the elements of a list, separated by [comma]. *)
Section sep_by.
Context {A B : Type} (comma : B) (f : A -> list B).
Fixpoint sep_by (l : list A) : list B :=
  match l with
  | [] => []
  | [x] => f x
  | x :: l' => f x ++ comma :: sep_by l'
  end.
End sep_by.

(** [json.Marshal]. *)
Fixpoint marshal (v : jval) : list ascii :=
  match v with
  | VNull => s2l "null"
  | VBool b => marshal_bool b
  | VNum n => s2l n
  | VStr s => marshal_string s
  | VArr l => "["%char :: sep_by ","%char marshal l ++ ["]"%char]
  | VObj m => "{"%char ::
      sep_by ","%char (fun kv => marshal_string kv.1 ++ ":"%char :: marshal kv.2) m ++ ["}"%char]
  end.
Definition Marshal (v : jval) : string := l2s (marshal v).
Definition VInt (n : Z) : jval := VNum (Itoa n).

(** ** Decoding into structs

    The members of an object are assigned in order to the field their key
    names, so the last one wins; a key that no field has exactly is compared
    without regard to case; [null] leaves the field alone. *)
Definition names_field (field key : string) : bool :=
  bool_decide (key = field) || EqualFold key field.

Definition field_values (field : string) (members : list (string * jval)) : list jval :=
  (filter (fun kv => names_field field kv.1 = true) members).*2.

(** Decode a field of a struct, starting from its zero value: [None] when some
    assignment fails. *)
Definition decode_field {A} (dec : jval -> option A) (zero : A) (field : string)
    (members : list (string * jval)) : option A :=
  fold_left (fun acc v => match acc, v with
                          | Some a, VNull => Some a
                          | Some _, _ => dec v
                          | None, _ => None
                          end) (field_values field members) (Some zero).

(** Slices and maps: [null] empties them, and the value given for a key again
    is decoded over the one before. *)
Definition decode_into {A} (dec : A -> jval -> option A) (zero : A) (field : string)
    (members : list (string * jval)) : option A :=
  fold_left (fun acc v => a ← acc; dec a v) (field_values field members) (Some zero).
Fixpoint dec_elements {A} (dec : A -> jval -> option A) (zero : A) (prev : list A) (l : list jval) : option (list A) :=
  match l with
  | [] => Some []
  | v :: l' => a ← dec (default zero (head prev)) v; rest ← dec_elements dec zero (tail prev) l'; Some (a :: rest)
  end.
Definition dec_slice {A} (dec : A -> jval -> option A) (zero : A) (prev : list A) (v : jval) : option (list A) :=
  match v with VNull => Some [] | VArr l => dec_elements dec zero prev l | _ => None end.
Definition dec_map {A} (dec : jval -> option A) (zero : A) (prev : gmap string A) (v : jval) : option (gmap string A) :=
  match v with
  | VNull => Some ∅
  | VObj ms => fold_left (fun acc kv => m ← acc;
                 a ← match kv.2 with VNull => Some zero | x => dec x end; Some (<[kv.1 := a]> m)) ms (Some prev)
  | _ => None
  end.
(** [json.RawMessage]: the last value given; none is the empty message. *)
Definition raw_field (field : string) (members : list (string * jval)) : option jval := last (field_values field members).

Definition dec_string (v : jval) : option string :=
  match v with VStr s => Some s | _ => None end.
(** An element or a field that [null] leaves as it is. *)
Definition string_into (prev : string) (v : jval) : option string :=
  match v with VNull => Some prev | _ => dec_string v end.
Definition strings_into : list string -> jval -> option (list string) := dec_slice string_into "".
Definition dec_bool (v : jval) : option bool :=
  match v with VBool b => Some b | _ => None end.
(** [strconv.ParseInt] of a number literal: no sign but minus, no fraction. *)
Definition dec_int (v : jval) : option Z :=
  match v with VNum n => Atoi n | _ => None end.

(** The members of a struct's object; [null] decodes to the zero struct. *)
Definition struct_members (v : jval) : option (list (string * jval)) :=
  match v with VObj m => Some m | VNull => Some [] | _ => None end.

(** Single quotes stand for double quotes in sample documents. *)
Definition json_text (s : string) : string :=
  l2s ((fun c => if bool_decide (c = "'"%char) then dquote else c) <$> s2l s).

Example Unmarshal_sample :
  Unmarshal (json_text " {'a' : [1, -2.5e+3 , 'x\u0041\n'], 'b':{} , 'c':null}  ") =
  Some (VObj [("a", VArr [VNum "1"; VNum "-2.5e+3"; VStr (l2s (s2l "xA" ++ [chr 10]))]);
              ("b", VObj []); ("c", VNull)]).
Proof. vm_compute. reflexivity. Qed.

Example Unmarshal_rejects : map (fun s => Unmarshal (json_text s))
    ["01"; "[1,]"; "{'a':1,}"; "'x"; "1 2"; "-"; "nul"; "[1 2]"; "{1:2}"; ""] = replicate 10 None.
Proof. vm_compute. reflexivity. Qed.

(** ** Round trip *)

Definition is_ascii (s : string) : Prop := Forall (fun c => code c < 128) (s2l s).

#[export] Instance is_ascii_dec s : Decision (is_ascii s).
Proof. apply _. Defined.

Lemma escape_string_ascii l : Forall (fun c => code c < 128) l ->
  escape_string (length l) l = l ≫= escape_byte.
Proof.
  induction 1 as [|c l Hc Hl IH]; [done|]. simpl. by rewrite (proj2 (Z.ltb_lt _ _)), IH.
Qed.

Lemma lex_string_byte fuel c rest : code c < 128 ->
  lex_string (S fuel) (escape_byte c ++ rest) =
  match lex_string fuel rest with Some (t, r) => Some (c :: t, r) | None => None end.
Proof.
  intros H. destruct c as [b0 b1 b2 b3 b4 b5 b6 b7].
  destruct b7; [exfalso; revert H; clear; destruct b0, b1, b2, b3, b4, b5, b6; cbv; congruence|].
  destruct b0, b1, b2, b3, b4, b5, b6; reflexivity.
Qed.

Lemma lex_string_escaped l rest fuel :
  Forall (fun c => code c < 128) l -> (length l < fuel)%nat ->
  lex_string fuel ((l ≫= escape_byte) ++ dquote :: rest) = Some (l, rest).
Proof.
  intros Hl. revert fuel. induction Hl as [|c l Hc Hl IH]; intros fuel Hf.
  - destruct fuel; [simpl in Hf; lia|]. done.
  - destruct fuel as [|fuel]; [simpl in Hf; lia|].
    rewrite bind_cons, <- app_assoc, lex_string_byte, IH by (auto; simpl in Hf; lia). done.
Qed.

Lemma escape_byte_nonempty c : (1 <= length (escape_byte c))%nat.
Proof. unfold escape_byte. case_split; simpl; lia. Qed.

Lemma length_escaped l : (length l <= length (l ≫= escape_byte))%nat.
Proof.
  induction l as [|c l IH]; [done|]. rewrite bind_cons, length_app.
  pose proof (escape_byte_nonempty c). simpl. lia.
Qed.

(** ** The fuel of the lexer is enough *)

Lemma hex4_shorter l r l' : hex4 l = Some (r, l') -> (length l' < length l)%nat.
Proof. unfold hex4. intros H. case_split_in H; simpl; lia. Qed.

Lemma unicode_escape_shorter l s r : unicode_escape l = Some (s, r) -> (length r < length l)%nat.
Proof.
  unfold unicode_escape. intros H.
  destruct (hex4 l) as [[x l']|] eqn:E; [|done]. apply hex4_shorter in E.
  case_split_in H; repeat match goal with
    | Hx : hex4 _ = Some _ |- _ => apply hex4_shorter in Hx
    end; simpl in *; lia.
Qed.

Lemma lex_string_shorter fuel l s r : lex_string fuel l = Some (s, r) -> (length r < length l)%nat.
Proof.
  revert l s r. induction fuel as [|fuel IH]; intros l s r H; [done|].
  destruct l as [|c l']; [done|]. pose proof (DecodeRune_width c l') as Hw.
  cbn [lex_string] in H.
  case_split_in H; repeat match goal with
    | Hx : lex_string _ _ = Some _ |- _ => apply IH in Hx
    | Hx : unicode_escape _ = Some _ |- _ => apply unicode_escape_shorter in Hx
    end; rewrite ?length_skipn, ?length_drop in *; simpl in *; lia.
Qed.

Lemma lex_string_fuel f1 f2 l :
  (length l < f1)%nat -> (length l < f2)%nat -> lex_string f1 l = lex_string f2 l.
Proof.
  revert f2 l. induction f1 as [|f1 IH]; intros f2 l H1 H2; [lia|].
  destruct f2 as [|f2]; [lia|]. destruct l as [|c l']; [done|].
  pose proof (DecodeRune_width c l') as Hw. cbn [lex_string]. simpl in H1, H2.
  assert (Hrec : forall rest, (length rest <= length l')%nat -> lex_string f1 rest = lex_string f2 rest)
    by (intros; apply IH; lia).
  destruct (code c =? 34); [done|]. destruct (code c =? 92).
  - destruct l' as [|e l'']; [done|]. simpl in Hrec. destruct (code e =? 117).
    + destruct (unicode_escape l'') as [[s rest]|] eqn:E; [|done].
      apply unicode_escape_shorter in E. by rewrite Hrec by lia.
    + destruct (simple_escape e); [|done]. by rewrite Hrec by lia.
  - destruct (code c <? 32); [done|]. destruct (code c <? 128); [by rewrite Hrec|].
    destruct (DecodeRune (c :: l')) as [r n]. simpl in Hw.
    case_match; rewrite Hrec; [done| |done|]; rewrite ?length_drop; simpl; lia.
Qed.

Lemma span_digits_le l d r : span_digits l = (d, r) -> (length r <= length l)%nat.
Proof.
  revert d r. induction l as [|c l IH]; intros d r H; simpl in H; [by simplify_eq|].
  destruct (is_digit c); [|by simplify_eq].
  destruct (span_digits l) as [d' r'] eqn:E. simplify_eq. specialize (IH _ _ eq_refl). simpl. lia.
Qed.

Lemma lex_int_shorter l i r : lex_int l = Some (i, r) -> (length r < length l)%nat.
Proof.
  destruct l as [|c l]; [done|]. simpl. intros H.
  destruct (code c =? 48); [simplify_eq; simpl; lia|].
  destruct (is_digit c) eqn:E; [|done]. destruct (span_digits l) as [d r'] eqn:E2.
  simplify_eq. apply span_digits_le in E2. simpl. lia.
Qed.

Lemma lex_frac_le l i r : lex_frac l = Some (i, r) -> (length r <= length l)%nat.
Proof.
  destruct l as [|c l]; [intros [= <- <-]; done|]. simpl. intros H.
  destruct (code c =? 46); [|simplify_eq; simpl; lia].
  destruct (span_digits l) as [[|? ?] r'] eqn:E2; simplify_eq. apply span_digits_le in E2. simpl. lia.
Qed.

Lemma lex_exp_le l i r : lex_exp l = Some (i, r) -> (length r <= length l)%nat.
Proof.
  destruct l as [|c l]; [intros [= <- <-]; done|]. simpl. intros H.
  destruct (is_e c); [|simplify_eq; simpl; lia].
  destruct (match l with [] => _ | _ => _ end) as [s l0] eqn:E0.
  assert (length l0 <= length l)%nat by (destruct l; case_split_in E0; simplify_eq/=; lia).
  destruct (span_digits l0) as [[|? ?] r'] eqn:E2; simplify_eq. apply span_digits_le in E2. simpl. lia.
Qed.

Lemma lex_number_shorter l i r : lex_number l = Some (i, r) -> (length r < length l)%nat.
Proof.
  unfold lex_number. intros H.
  destruct (match l with [] => _ | _ => _ end) as [sg l0] eqn:E0.
  assert (length l0 <= length l)%nat by (destruct l; case_split_in E0; simplify_eq/=; lia).
  destruct (lex_int l0) as [[i1 l1]|] eqn:E1; [|done]. apply lex_int_shorter in E1.
  destruct (lex_frac l1) as [[i2 l2]|] eqn:E2; [|done]. apply lex_frac_le in E2.
  destruct (lex_exp l2) as [[i3 l3]|] eqn:E3; [|done]. apply lex_exp_le in E3.
  simplify_eq. lia.
Qed.

#[local] Arguments strip_prefix : simpl never.
#[local] Arguments lex_string : simpl never.
#[local] Arguments lex_number : simpl never.
#[local] Arguments s2l : simpl never.

Lemma lex_one_le c l t r : lex_one c l = Some (t, r) -> (length r <= length l)%nat.
Proof.
  unfold lex_one, lex_word. intros H. case_split_in H; repeat match goal with
    | Hx : strip_prefix _ _ = Some _ |- _ => apply strip_prefix_spec in Hx; subst
    | Hx : lex_string _ _ = Some _ |- _ => apply lex_string_shorter in Hx
    | Hx : lex_number _ = Some _ |- _ => apply lex_number_shorter in Hx
    end; rewrite ?length_app; simpl in *; lia.
Qed.

Lemma lex_fuel f1 f2 l : (length l <= f1)%nat -> (length l <= f2)%nat -> lex f1 l = lex f2 l.
Proof.
  revert f2 l. induction f1 as [|f1 IH]; intros f2 l H1 H2.
  - destruct l; [by destruct f2|simpl in H1; lia].
  - destruct l as [|c l]; [by destruct f2|]. destruct f2 as [|f2]; [simpl in H2; lia|].
    simpl in *. destruct (is_json_space c); [apply IH; lia|].
    destruct (lex_one c l) as [[t r]|] eqn:E; [|done]. apply lex_one_le in E.
    by rewrite (IH f2) by lia.
Qed.

(** ** The tokens of an encoded value *)

Fixpoint toks (v : jval) : list token :=
  match v with
  | VNull => [TNull]
  | VBool b => [TBool b]
  | VNum n => [TNum n]
  | VStr s => [TStr s]
  | VArr l => TLBrack :: sep_by TComma toks l ++ [TRBrack]
  | VObj m => TLBrace :: sep_by TComma (fun kv => TStr kv.1 :: TColon :: toks kv.2) m ++ [TRBrace]
  end.

(** Values whose encoding is read back unchanged. *)
Fixpoint encodable (v : jval) : Prop :=
  match v with
  | VNum n => exists z, n = Itoa z
  | VStr s => is_ascii s
  | VArr l => fold_right (fun v P => encodable v /\ P) True l
  | VObj m => fold_right (fun kv P => (is_ascii kv.1 /\ encodable kv.2) /\ P) True m
  | _ => True
  end.

Fixpoint nesting (v : jval) : nat :=
  match v with
  | VArr l => S (fold_right (fun v n => Nat.max (nesting v) n) O l)
  | VObj m => S (fold_right (fun kv n => Nat.max (nesting kv.2) n) O m)
  | _ => O
  end.

Section jval_induction.
Context (P : jval -> Prop).
Context (HNull : P VNull) (HBool : forall b, P (VBool b)) (HNum : forall n, P (VNum n))
        (HStr : forall s, P (VStr s)) (HArr : forall l, Forall P l -> P (VArr l))
        (HObj : forall m, Forall (fun kv => P kv.2) m -> P (VObj m)).
Fixpoint jval_induction (v : jval) : P v :=
  match v with
  | VNull => HNull | VBool b => HBool b | VNum n => HNum n | VStr s => HStr s
  | VArr l => HArr l ((fix go l : Forall P l :=
      match l with
      | [] => Forall_nil_2 P
      | x :: l' => Forall_cons_2 P x l' (jval_induction x) (go l')
      end) l)
  | VObj m => HObj m ((fix go m : Forall (fun kv => P kv.2) m :=
      match m with
      | [] => Forall_nil_2 _
      | kv :: m' => Forall_cons_2 (fun kv => P kv.2) kv m' (jval_induction kv.2) (go m')
      end) m)
  end.
End jval_induction.

Definition lexall (l : list ascii) : option (list token) := lex (length l) l.

(** A number literal ends before these. *)
Definition num_stop (rest : list ascii) : Prop :=
  match rest with c :: _ => is_digit c = false /\ code c <> 46 /\ is_e c = false | [] => True end.

Definition lexes_to (l : list ascii) (ts : list token) : Prop :=
  forall rest, num_stop rest -> lexall (l ++ rest) = (ts ++.) <$> lexall rest.

Lemma lexall_one c l t r :
  is_json_space c = false -> lex_one c l = Some (t, r) -> lexall (c :: l) = (t ::.) <$> lexall r.
Proof.
  intros Hs H. unfold lexall. cbn [length lex]. rewrite Hs, H. apply lex_one_le in H.
  rewrite (lex_fuel (length l) (length r)) by lia. by destruct (lex _ r).
Qed.

Lemma lexes_app a b ta tb c b' :
  b = c :: b' -> num_stop [c] -> lexes_to a ta -> lexes_to b tb -> lexes_to (a ++ b) (ta ++ tb).
Proof.
  intros -> Hc Ha Hb rest Hr. rewrite <- app_assoc, Ha by apply Hc. rewrite Hb by done.
  destruct (lexall rest); [|done]. simpl. by rewrite app_assoc.
Qed.

Lemma lexes_punct c t : is_json_space c = false -> (forall l, lex_one c l = Some (t, l)) ->
  lexes_to [c] [t].
Proof. intros Hs H rest _. apply (lexall_one c rest t rest Hs (H rest)). Qed.

Lemma lexes_cons c t b tb : is_json_space c = false -> (forall l, lex_one c l = Some (t, l)) ->
  lexes_to b tb -> lexes_to (c :: b) (t :: tb).
Proof.
  intros Hs H Hb rest Hr. cbn [app]. rewrite (lexall_one c (b ++ rest) t _ Hs (H _)), (Hb rest Hr).
  by destruct (lexall rest).
Qed.

Lemma lexes_word c w t : is_json_space c = false -> (forall l, lex_one c (w ++ l) = Some (t, l)) ->
  lexes_to (c :: w) [t].
Proof. intros Hs H rest _. apply (lexall_one c (w ++ rest) t rest Hs (H rest)). Qed.

Lemma lexes_string s : is_ascii s -> lexes_to (marshal_string s) [TStr s].
Proof.
  intros Hs rest _. unfold marshal_string. cbn [app].
  rewrite <- s2l_length, escape_string_ascii by done.
  rewrite <- app_assoc. change ([dquote] ++ rest) with (dquote :: rest).
  eapply lexall_one; [done|].
  unfold lex_one. change (code dquote) with 34. cbn [Z.eqb Pos.eqb].
  rewrite lex_string_escaped; [by rewrite l2s_s2l|done|].
  rewrite length_app. pose proof (length_escaped (s2l s)). lia.
Qed.

(** *** Numbers *)

Lemma lex_tail_stop rest : num_stop rest -> lex_frac rest = Some ([], rest) /\ lex_exp rest = Some ([], rest).
Proof.
  destruct rest as [|c rest]; [done|]. intros (_ & H1 & H2). simpl.
  by rewrite (proj2 (Z.eqb_neq _ _) H1), H2.
Qed.

Lemma lex_digits ds rest : all_digits ds -> ds <> [] ->
  (hd "0"%char ds = "0"%char -> ds = ["0"%char]) -> num_stop rest ->
  lex_int (ds ++ rest) = Some (ds, rest).
Proof.
  intros Hd Hn Hz Hr. destruct ds as [|c ds]; [done|]. cbn [lex_int app].
  destruct (Z.eqb_spec (code c) 48) as [E|E].
  - apply (code_inj c "0"%char) in E. subst c. by injection (Hz eq_refl) as ->.
  - inversion_clear Hd as [|? ? Hc Hd']. rewrite Hc. f_equal.
    apply (span_digits_app (c :: ds)); [by constructor|]. intros c' r ->. apply Hr.
Qed.

Lemma lex_number_Itoa z rest : num_stop rest ->
  lex_number (s2l (Itoa z) ++ rest) = Some (s2l (Itoa z), rest).
Proof.
  intros Hr. destruct (lex_tail_stop rest Hr) as [Hf He]. destruct (decide (z < 0)) as [Hz|Hz].
  - rewrite Itoa_neg by done.
    destruct (Itoa_nonneg (- z) ltac:(lia)) as (ds & -> & Hd & Hn & _ & Hh).
    unfold lex_number. cbn [app]. change (code "-" =? 45) with true. cbv iota beta.
    by rewrite lex_digits, Hf, He, !app_nil_r by done.
  - destruct (Itoa_nonneg z ltac:(lia)) as (ds & -> & Hd & Hn & _ & Hh).
    unfold lex_number. destruct ds as [|c ds]; [done|]. cbn [app].
    assert (Hc : is_digit c = true) by (by inversion Hd). apply is_digit_code in Hc.
    rewrite (proj2 (Z.eqb_neq _ _)) by lia. cbv iota beta.
    change (c :: ds ++ rest) with ((c :: ds) ++ rest).
    by rewrite lex_digits, Hf, He, !app_nil_r by done.
Qed.

Lemma lexes_number z : lexes_to (s2l (Itoa z)) [TNum (Itoa z)].
Proof.
  intros rest Hr. pose proof (lex_number_Itoa z rest Hr) as Hn.
  assert (Hh : exists c l, s2l (Itoa z) = c :: l /\ (code c = 45 \/ 48 <= code c <= 57)).
  { destruct (decide (z < 0)) as [Hz|Hz].
    - rewrite Itoa_neg by done. eexists _, _. split; [done|by left].
    - destruct (Itoa_nonneg z ltac:(lia)) as ([|c ds] & -> & Hd & Hne & _); [done|].
      eexists _, _. split; [done|]. right. apply is_digit_code. by inversion Hd. }
  destruct Hh as (c & l & El & Hc). rewrite El in *. cbn [app] in *.
  eapply lexall_one.
  - unfold is_json_space. rewrite !(proj2 (Z.eqb_neq _ _)) by lia. done.
  - unfold lex_one. rewrite !(proj2 (Z.eqb_neq (code c) _)) by lia. cbv iota.
    rewrite Hn, <- El. by rewrite l2s_s2l.
Qed.

Lemma lexes_sep_by {A} (f : A -> list ascii) (g : A -> list token) l c t b tb :
  Forall (fun x => lexes_to (f x) (g x)) l ->
  lexes_to b tb -> b = c :: t -> num_stop [c] ->
  lexes_to (sep_by ","%char f l ++ b) (sep_by TComma g l ++ tb).
Proof.
  intros Hl Hb -> Hc. induction Hl as [|x l Hx Hl IH]; [done|].
  destruct l as [|y l].
  - by eapply lexes_app.
  - cbn [sep_by] in *. rewrite <- !app_assoc. cbn [app].
    eapply lexes_app; [done|done|done|]. apply lexes_cons; done.
Qed.

Lemma marshal_lexes v : encodable v -> lexes_to (marshal v) (toks v).
Proof.
  induction v as [|[]|n|s|l IH|m IH] using jval_induction; intros He; simpl in He.
  - by apply lexes_word.
  - by apply lexes_word.
  - by apply lexes_word.
  - destruct He as [z ->]. apply lexes_number.
  - by apply lexes_string.
  - cbn [marshal toks]. apply lexes_cons; [done..|].
    eapply lexes_sep_by; [|by apply lexes_punct|done|done].
    induction IH as [|x l Hx IH IHl]; [constructor|]. destruct He as [H1 H2]. constructor; auto.
  - cbn [marshal toks]. apply lexes_cons; [done..|].
    eapply lexes_sep_by; [|by apply lexes_punct|done|done].
    induction IH as [|x l Hx IH IHl]; [constructor|]. destruct He as [[H0 H1] H2]. constructor; auto.
    eapply (lexes_app _ _ [_]); [done|done|by apply lexes_string|]. apply lexes_cons; auto.
Qed.

(** ** The stack machine rebuilds the value *)

Definition fits (st : list frame) (v : jval) : Prop := Z.of_nat (length st + nesting v) <= max_nesting.

Lemma toks_head v : exists t ts, toks v = t :: ts /\ t <> TRBrack.
Proof. destruct v; simpl; eexists _, _; (split; [reflexivity|discriminate]). Qed.

Definition rebuilds (v : jval) : Prop := forall st ts, fits st v ->
  run_machine (Machine st MValue) (toks v ++ ts) = run_machine (Machine st (MAfter v)) ts.

(** The elements of an array after its first frame has been pushed. *)
Lemma run_elems l es st ts :
  Forall rebuilds l -> Forall (fun v => fits (FArr es :: st) v) l -> l <> [] ->
  run_machine (Machine (FArr es :: st) MValue) (sep_by TComma toks l ++ TRBrack :: ts) =
  run_machine (Machine st (MAfter (VArr (reverse es ++ l)))) ts.
Proof.
  intros Hr. revert es. induction Hr as [|v l Hv Hr IH]; intros es Hf Hn; [done|].
  inversion Hf as [|? ? Hf1 Hf2]; subst. destruct l as [|w l].
  - cbn [sep_by]. rewrite Hv by done. simpl. by rewrite reverse_cons.
  - cbn [sep_by]. rewrite <- app_assoc, Hv by done. cbn [app run_machine step now_in stack].
    change (match l with [] => toks w | _ => toks w ++ TComma :: sep_by TComma toks l end)
      with (sep_by TComma toks (w :: l)).
    rewrite IH; [|done|done]. by rewrite reverse_cons, <- app_assoc.
Qed.

Lemma run_members m ms st ts :
  Forall (fun kv => rebuilds kv.2) m -> Forall (fun kv => fits (FObj [] "" :: st) kv.2) m -> m <> [] ->
  run_machine (Machine st (MKey ms))
    (sep_by TComma (fun kv => TStr kv.1 :: TColon :: toks kv.2) m ++ TRBrace :: ts) =
  run_machine (Machine st (MAfter (VObj (reverse ms ++ m)))) ts.
Proof.
  intros Hr. revert ms. induction Hr as [|[k v] m Hv Hr IH]; intros ms Hf Hn; [done|].
  inversion Hf as [|? ? Hf1 Hf2]; subst. destruct m as [|kv m].
  - cbn [sep_by app run_machine step now_in stack fst snd]. cbn [snd] in Hv.
    rewrite Hv by done. simpl. by rewrite reverse_cons.
  - cbn [sep_by]. rewrite <- app_assoc. cbn [app run_machine step now_in stack fst snd].
    cbn [snd] in Hv. rewrite Hv by done. cbn [app run_machine step now_in stack].
    rewrite IH; [|done|done]. by rewrite reverse_cons, <- app_assoc.
Qed.

Lemma fits_open st v : fits st v -> (1 <= nesting v)%nat -> (Z.of_nat (length st) <? max_nesting) = true.
Proof. unfold fits. intros. apply Z.ltb_lt. lia. Qed.

Lemma fold_max_le {A} (f : A -> nat) l :
  Forall (fun v => (f v <= fold_right (fun v n => Nat.max (f v) n) O l)%nat) l.
Proof.
  induction l as [|x l IH]; constructor; simpl; [lia|].
  eapply Forall_impl; [exact IH|]. intros y Hy. simpl in Hy. lia.
Qed.

Lemma fits_children {A} (f : A -> jval) st n l (fr : frame) :
  Z.of_nat (length st + S n) <= max_nesting ->
  n = fold_right (fun x n => Nat.max (nesting (f x)) n) O l ->
  Forall (fun x => fits (fr :: st) (f x)) l.
Proof.
  intros Hf ->. eapply Forall_impl; [apply (fold_max_le (fun x => nesting (f x)))|].
  intros x Hx. unfold fits. cbn [length]. simpl in Hx. lia.
Qed.

Lemma toks_rebuild v : rebuilds v.
Proof.
  induction v as [|b|n|s|l IH|m IH] using jval_induction; intros st ts Hf; try done.
  - cbn [toks]. rewrite <- app_comm_cons, <- app_assoc. cbn [run_machine step now_in start_value stack].
    unfold open. rewrite (fits_open _ _ Hf) by (simpl; lia).
    destruct l as [|v l]; [done|]. change ([TRBrack] ++ ts) with (TRBrack :: ts).
    etransitivity; [|apply (run_elems (v :: l) [] st ts); [done| |done]].
    + destruct (toks_head v) as (t & tv & Ht & Hne).
      assert (Hs : exists X, sep_by TComma toks (v :: l) ++ TRBrack :: ts = t :: X)
        by (destruct l; cbn [sep_by]; rewrite Ht; by eexists).
      destruct Hs as [X ->]. cbn [run_machine step now_in stack]. by destruct t.
    + by eapply (fits_children id).
  - cbn [toks]. rewrite <- app_comm_cons, <- app_assoc. cbn [run_machine step now_in start_value stack].
    unfold open. rewrite (fits_open _ _ Hf) by (simpl; lia).
    destruct m as [|kv m]; [done|]. change ([TRBrace] ++ ts) with (TRBrace :: ts).
    etransitivity; [|apply (run_members (kv :: m) [] st ts); [done| |done]].
    + by destruct m.
    + by eapply (fits_children snd).
Qed.

(** [json.Unmarshal] inverts [json.Marshal] on values with ASCII strings and
    integer numbers, nested no deeper than Go's limit. *)
Lemma Unmarshal_marshal v : encodable v -> Z.of_nat (nesting v) <= max_nesting ->
  Unmarshal (Marshal v) = Some v.
Proof.
  intros He Hn. unfold Unmarshal, Marshal. rewrite <- s2l_length, s2l_l2s.
  pose proof (marshal_lexes v He [] I) as Hl. rewrite !app_nil_r in Hl.
  unfold lexall in Hl. rewrite Hl. cbn [length lex fmap option_fmap option_map].
  by rewrite app_nil_r, <- (app_nil_r (toks v)), toks_rebuild.
Qed.

(** The order in which Go assigns members does not matter to a field named
    once. *)
Lemma decode_field_single {A} (dec : jval -> option A) zero field v members :
  field_values field members = [v] -> v <> VNull -> decode_field dec zero field members = dec v.
Proof. unfold decode_field. intros -> H. by destruct v. Qed.

Lemma dec_int_VInt n : is_int64 n -> dec_int (VInt n) = Some n.
Proof. apply Atoi_Itoa. Qed.

(** ** ASCII text *)

Lemma is_ascii_app s t : is_ascii s -> is_ascii t -> is_ascii (s +:+ t).
Proof. unfold is_ascii. rewrite s2l_app. intros. by apply Forall_app. Qed.

Lemma digits_ascii ds : all_digits ds -> Forall (fun c => code c < 128) ds.
Proof.
  intros Hd. eapply Forall_impl; [exact Hd|]. intros c Hc. apply is_digit_code in Hc. lia.
Qed.

Lemma fmt_0d_ascii w n : is_ascii (fmt_0d w n).
Proof.
  unfold is_ascii, fmt_0d. destruct (Z.ltb_spec n 0).
  - rewrite s2l_l2s. constructor; [done|]. unfold zero_pad. apply Forall_app. split; [by apply Forall_replicate|].
    destruct (Itoa_nonneg (- n) ltac:(lia)) as (ds & -> & Hd & _). by apply digits_ascii.
  - rewrite s2l_l2s. unfold zero_pad. apply Forall_app. split; [by apply Forall_replicate|].
    destruct (Itoa_nonneg n ltac:(lia)) as (ds & -> & Hd & _). by apply digits_ascii.
Qed.

Definition is_ascii_b (s : string) : bool := forallb (fun c => code c <? 128) (s2l s).
Lemma is_ascii_true s : is_ascii_b s = true -> is_ascii s.
Proof.
  unfold is_ascii_b, is_ascii. rewrite forallb_forall, Forall_forall. intros H x Hx.
  apply Z.ltb_lt, H. by apply list_elem_of_In.
Qed.

Ltac ascii := repeat first [apply is_ascii_app | apply fmt_0d_ascii | apply is_ascii_true; reflexivity | assumption].

(** ** Lists of strings *)

(** A null in an array of strings leaves the zero string. *)
Definition dec_strings (v : jval) : option (list string) :=
  match v with VArr l => mapM (fun x => match x with VNull => Some "" | _ => dec_string x end) l | _ => None end.

Lemma encodable_strings l : Forall is_ascii l -> encodable (VArr (map VStr l)).
Proof. induction 1 as [|s l Hs _ IH]; [done|]. by split. Qed.
Lemma nesting_strings l : fold_right (fun v n => Nat.max (nesting v) n) 0%nat (map VStr l) = 0%nat.
Proof. induction l as [|s l IH]; [done|]. cbn. by rewrite IH. Qed.
Lemma dec_strings_map l : dec_strings (VArr (map VStr l)) = Some l.
Proof. cbn. induction l as [|s l IH]; [done|]. cbn. by rewrite IH. Qed.
