(* ===== verification/TimeText.v ===== *)
(** * Times in JSON

    [time.Time.MarshalJSON] and [UnmarshalJSON]: RFC 3339 with the fraction of
    a second, written in UTC and read strictly, with any offset. *)

From S2P Require Import Prelude GoStd GoFmt GoTime Sha256 Json JsonDecode.

(** ** Writing *)

Fixpoint trim_zeros (l : list ascii) : list ascii :=
  match l with
  | [] => []
  | c :: l' =>
      match trim_zeros l' with
      | [] => if bool_decide (c = "0"%char) then [] else [c]
      | t => c :: t
      end
  end.

(** Nine digits without the zeros at the end; nothing for a whole second. *)
Definition fraction (ns : Z) : string :=
  if ns =? 0 then "" else "." +:+ l2s (trim_zeros (s2l (fmt_0d 9 ns))).

(** [t.UTC().Format(time.RFC3339Nano)], for the years 0 to 9999. *)
Definition RFC3339Nano (t : time) : string :=
  let '(y, m, d) := civil t in
  let s := second_of_day t in
  fmt_0d 4 y +:+ "-" +:+ fmt_0d 2 m +:+ "-" +:+ fmt_0d 2 d +:+ "T"
  +:+ fmt_0d 2 (s / 3600) +:+ ":" +:+ fmt_0d 2 (s / 60 mod 60) +:+ ":" +:+ fmt_0d 2 (s mod 60)
  +:+ fraction (t mod Second) +:+ "Z".

Definition VTime (t : time) : jval := VStr (RFC3339Nano t).

(** ** Reading *)

(** Exactly [n] digits. *)
Fixpoint fixed_uint (n : nat) (acc : Z) (l : list ascii) : option (Z * list ascii) :=
  match n with
  | O => Some (acc, l)
  | S n' =>
      match l with
      | c :: l' => if is_digit c then fixed_uint n' (acc * 10 + (code c - 48)) l' else None
      | [] => None
      end
  end.
Definition expect_char (c : ascii) (l : list ascii) : option (list ascii) :=
  match l with x :: l' => if bool_decide (x = c) then Some l' else None | [] => None end.

(** At most nine digits of a fraction count. *)
Definition read_fraction (l : list ascii) : Z * list ascii :=
  match l with
  | "."%char :: (c :: _) as l' =>
      if is_digit c then
        let '(ds, rest) := span_digits l' in
        (digits_value (take 9 ds ++ replicate (9 - length ds) "0"%char), rest)
      else (0, l)
  | _ => (0, l)
  end.

(** [Z], or an offset of hours and minutes, in seconds. *)
Definition read_zone (l : list ascii) : option Z :=
  match l with
  | ["Z"%char] => Some 0
  | sign :: l' =>
      '(h, l') ← fixed_uint 2 0 l';
      l' ← expect_char ":" l';
      '(m, l') ← fixed_uint 2 0 l';
      if (h <=? 23) && (m <=? 59) && bool_decide (l' = []) then
        if bool_decide (sign = "+"%char) then Some ((h * 60 + m) * 60)
        else if bool_decide (sign = "-"%char) then Some (- ((h * 60 + m) * 60))
        else None
      else None
  | [] => None
  end.

Definition parseStrictRFC3339 (s : string) : option time :=
  '(year, l) ← fixed_uint 4 0 (s2l s); l ← expect_char "-" l;
  '(month, l) ← fixed_uint 2 0 l; l ← expect_char "-" l;
  '(day, l) ← fixed_uint 2 0 l; l ← expect_char "T" l;
  '(hour, l) ← fixed_uint 2 0 l; l ← expect_char ":" l;
  '(min, l) ← fixed_uint 2 0 l; l ← expect_char ":" l;
  '(sec, l) ← fixed_uint 2 0 l;
  let '(nsec, l) := read_fraction l in
  offset ← read_zone l;
  (** the date exists *)
  if (1 <=? month) && (month <=? 12) && bool_decide (civil_from_days (days_from_civil year month day) = (year, month, day))
    && (hour <=? 23) && (min <=? 59) && (sec <=? 59) then
    Some ((days_from_civil year month day * seconds_per_day + hour * 3600 + min * 60 + sec - offset) * Second + nsec)
  else None.

(** A field of type [time.Time]. *)
Definition dec_time (v : jval) : option time := match v with VStr s => parseStrictRFC3339 s | _ => None end.

Example parse_times : map parseStrictRFC3339
    ["2026-05-06T07:08:09Z"; "2026-05-06T09:08:09.5+02:00"; "2026-02-29T00:00:00Z"; "2026-05-06T07:08:09.Z";
     "2026-05-06T24:00:00Z"; "2026-05-06 07:08:09Z"; "2026-05-06T07:08:09"] =
  [Some (1778051289 * Second); Some (1778051289 * Second + 500 * Millisecond); None; None; None; None; None].
Proof. vm_compute. reflexivity. Qed.

(** ** Round trip *)

Lemma fixed_uint_digits ds acc rest : all_digits ds ->
  fixed_uint (length ds) acc (ds ++ rest) = Some (fold_left (fun n c => n * 10 + (code c - 48)) ds acc, rest).
Proof. intros Hd. revert acc. induction Hd as [|c ds Hc Hd IH]; intros acc; [done|]. cbn. by rewrite Hc, IH. Qed.

Lemma digits_value_acc ds a :
  fold_left (fun n c => n * 10 + (code c - 48)) ds a = a * 10 ^ Z.of_nat (length ds) + digits_value ds.
Proof.
  revert a. unfold digits_value. induction ds as [|c ds IH]; intros a; [cbn; lia|]. cbn [fold_left length].
  rewrite IH, (IH (0 * 10 + _)), Nat2Z.inj_succ, Z.pow_succ_r by lia. lia.
Qed.

Lemma digits_value_cons c ds : digits_value (c :: ds) = (code c - 48) * 10 ^ Z.of_nat (length ds) + digits_value ds.
Proof. unfold digits_value at 1. cbn [fold_left]. by rewrite digits_value_acc. Qed.

Lemma digits_nonneg ds : all_digits ds -> 0 <= digits_value ds.
Proof.
  induction 1 as [|c ds Hc _ IH]; [done|]. rewrite digits_value_cons. apply is_digit_code in Hc.
  pose proof (Z.pow_nonneg 10 (Z.of_nat (length ds)) ltac:(lia)). nia.
Qed.

(** A number below [10^w] is written with exactly [w] digits. *)
Lemma length_fmt_0d w n : 0 <= n < 10 ^ Z.of_nat w -> (1 <= w)%nat -> length (s2l (fmt_0d w n)) = w.
Proof.
  intros Hn Hw. unfold fmt_0d. rewrite (proj2 (Z.ltb_ge _ _)) by lia. rewrite s2l_l2s.
  destruct (Itoa_nonneg n ltac:(lia)) as (ds & -> & Hd & Hne & Hv & Hz). unfold zero_pad.
  rewrite length_app, length_replicate. enough (length ds <= w)%nat by lia.
  destruct ds as [|c ds]; [done|]. inversion_clear Hd as [|? ? Hc Hds].
  destruct (decide (c = "0"%char)) as [->|Hc0]; [specialize (Hz eq_refl); injection Hz as ->; cbn; lia|].
  apply Nat.nlt_ge. intros Hlt. cbn [length] in Hlt. rewrite digits_value_cons in Hv.
  pose proof (digits_nonneg ds Hds). apply is_digit_code in Hc.
  assert (code c <> 48) by (intros E; apply Hc0, code_inj; done).
  assert (10 ^ Z.of_nat w <= 10 ^ Z.of_nat (length ds)) by (apply Z.pow_le_mono_r; lia). nia.
Qed.

Lemma fixed_uint_fmt w n rest : 0 <= n < 10 ^ Z.of_nat w -> (1 <= w)%nat ->
  fixed_uint w 0 (s2l (fmt_0d w n) ++ rest) = Some (n, rest).
Proof.
  intros Hn Hw. pose proof (length_fmt_0d w n Hn Hw) as Hl.
  destruct (fmt_0d_digits w n ltac:(lia)) as (ds & E & Hd & _ & Hv). rewrite E in Hl |- *.
  rewrite <- Hl at 1. rewrite fixed_uint_digits by done. fold (digits_value ds). by rewrite Hv.
Qed.

Lemma trim_zeros_pad l : l = trim_zeros l ++ replicate (length l - length (trim_zeros l)) "0"%char.
Proof.
  induction l as [|c l IH]; [done|]. cbn [trim_zeros]. destruct (trim_zeros l) as [|x t].
  - cbn [app length] in IH. rewrite Nat.sub_0_r in IH. case_bool_decide as Hc; cbn [app length].
    + subst c. rewrite Nat.sub_0_r. cbn [replicate]. by f_equal.
    + cbn [Nat.sub]. rewrite Nat.sub_0_r. congruence.
  - cbn [app length] in *. f_equal. by rewrite IH at 1.
Qed.

Lemma trim_zeros_digits l : all_digits l -> all_digits (trim_zeros l).
Proof. intros H. rewrite (trim_zeros_pad l) in H. by apply Forall_app in H as [? _]. Qed.

Lemma read_fraction_fmt ns rest : 0 <= ns < Second ->
  (forall c r, rest = c :: r -> is_digit c = false) -> (forall r, rest <> "."%char :: r) ->
  read_fraction (s2l (fraction ns) ++ rest) = (ns, rest).
Proof.
  intros Hn Hr Hdot. unfold fraction. destruct (Z.eqb_spec ns 0) as [->|Hne].
  { cbn [s2l app]. unfold read_fraction. destruct rest as [|x rest]; [done|].
    destruct (decide (x = "."%char)) as [->|Hx]; [by destruct (Hdot rest)|]. destruct x as [[] [] [] [] [] [] [] []]; done. }
  destruct (fmt_0d_digits 9 ns ltac:(lia)) as (ds & E & Hd & _ & Hv).
  pose proof (length_fmt_0d 9 ns ltac:(change (10 ^ Z.of_nat 9) with Second; lia) ltac:(lia)) as Hl.
  rewrite s2l_app, s2l_l2s, E in *. pose proof (trim_zeros_pad ds) as Hp. pose proof (trim_zeros_digits ds Hd) as Ht.
  destruct (trim_zeros ds) as [|c t] eqn:Et.
  { exfalso. cbn [app] in Hp. rewrite Hp, <- (app_nil_r (replicate _ _)), digits_value_zeros in Hv. cbn in Hv. lia. }
  change (s2l ".") with ["."%char]. cbn [app]. unfold read_fraction.
  assert (Hc : is_digit c = true) by (by inversion Ht). rewrite Hc, app_comm_cons, span_digits_app by done.
  assert (Hlt : (length (c :: t) <= 9)%nat) by (rewrite <- Hl, Hp, length_app; lia).
  rewrite take_ge by done. rewrite <- Hl, <- Hp. by rewrite Hv.
Qed.

Lemma parse_RFC3339Nano t : 0 <= Year t <= 9999 -> parseStrictRFC3339 (RFC3339Nano t) = Some t.
Proof.
  unfold Year, RFC3339Nano. destruct (civil t) as [[y m] d] eqn:Ec. cbn [fst snd]. intros Hy.
  pose proof (civil_days (days_of t)) as Hcd. unfold civil in Ec. rewrite Ec in Hcd. destruct Hcd as (Hm & Hd & Hz).
  set (s := second_of_day t).
  assert (Hs : 0 <= s < 86400) by (apply Z.mod_pos_bound; done).
  assert (Hh : 0 <= s / 3600 < 24) by (split; [apply Z.div_pos|apply Z.div_lt_upper_bound]; lia).
  pose proof (Z.mod_pos_bound (s / 60) 60 ltac:(lia)). pose proof (Z.mod_pos_bound s 60 ltac:(lia)).
  unfold parseStrictRFC3339. rewrite !s2l_app.
  assert (Hx : forall c rest, expect_char c (s2l (String c "") ++ rest) = Some rest)
    by (intros c rest; cbn; by rewrite bool_decide_true).
  repeat first [rewrite fixed_uint_fmt by (cbn; lia) | rewrite Hx | progress cbn [mbind option_bind]].
  rewrite read_fraction_fmt; [|by apply Z.mod_pos_bound|by intros c r [= <- _]|by intros r [=]].
  change (read_zone (s2l "Z")) with (Some 0). cbn [mbind option_bind].
  rewrite Hz, bool_decide_true by done. rewrite !(proj2 (Z.leb_le _ _)) by lia. cbn [andb]. f_equal.
  assert (E : t / Second = days_of t * seconds_per_day + s) by (unfold days_of, s, second_of_day; rewrite Z.mul_comm; apply Z.div_mod; done).
  assert (Es : s = s / 3600 * 3600 + s / 60 mod 60 * 60 + s mod 60).
  { pose proof (Z.div_mod s 60 ltac:(lia)). pose proof (Z.div_mod (s / 60) 60 ltac:(lia)) as H60.
    rewrite Z.div_div in H60 by lia. change (60 * 60) with 3600 in H60. lia. }
  match goal with |- ?sum * Second + _ = _ => replace sum with (t / Second) by (rewrite E; unfold seconds_per_day in *; lia) end.
  pose proof (Z.div_mod t Second ltac:(done)). lia.
Qed.

Lemma dec_time_VTime t : 0 <= Year t <= 9999 -> dec_time (VTime t) = Some t.
Proof. apply parse_RFC3339Nano. Qed.

(** ** Times that can be written *)

(** A time outside the years 0 to 9999 cannot be written. *)
Definition marshal_time (t : time) : option jval :=
  if (0 <=? Year t) && (Year t <=? 9999) then Some (VTime t) else None.
Definition year_ok (t : time) : Prop := 0 <= Year t <= 9999.
Lemma marshal_time_ok t : year_ok t -> marshal_time t = Some (VTime t).
Proof. intros [H1 H2]. unfold marshal_time. by rewrite (proj2 (Z.leb_le _ _) H1), (proj2 (Z.leb_le _ _) H2). Qed.

Lemma trim_zeros_ascii l : Forall (fun c => code c < 128) l -> Forall (fun c => code c < 128) (trim_zeros l).
Proof.
  induction 1 as [|c l Hc _ IH]; [constructor|]. cbn [trim_zeros]. destruct (trim_zeros l); [case_match; by repeat constructor|].
  by constructor.
Qed.
Lemma RFC3339Nano_ascii t : is_ascii (RFC3339Nano t).
Proof.
  assert (Hf : forall n, is_ascii (fraction n)).
  { intros n. unfold fraction. case_match; ascii. unfold is_ascii. rewrite s2l_l2s. apply trim_zeros_ascii, fmt_0d_ascii. }
  unfold RFC3339Nano. destruct (civil t) as [[y m] d]. cbv zeta. ascii. apply Hf.
Qed.

#[export] Hint Resolve RFC3339Nano_ascii : gitscale.
