(* ===== verification/Uuid.v ===== *)
(** * The text form of UUIDs and digests

    [uuid.UUID.String] and [hex.EncodeToString], used by the audit log and by
    the event envelopes. *)

From S2P Require Import Prelude GoStd Sha256 Json JsonDecode.

Definition hex_of_bytes (l : list ascii) : list ascii :=
  l ≫= fun c => [hex_digit (code c / 16); hex_digit (code c mod 16)].
(** [uuid.UUID.String]. *)
Definition uuid_String (u : uuid) : string :=
  let h := hex_of_bytes (be_bytes 16 u) in
  l2s (take 8 h ++ s2l "-" ++ take 4 (drop 8 h) ++ s2l "-" ++ take 4 (drop 12 h) ++ s2l "-"
       ++ take 4 (drop 16 h) ++ s2l "-" ++ drop 20 h).

Example uuid_String_sample :
  uuid_String 0x123e4567e89b12d3a456426614174000 = "123e4567-e89b-12d3-a456-426614174000".
Proof. vm_compute. reflexivity. Qed.

(** ** The text determines the UUID *)

Definition uuid_ok (u : uuid) : Prop := 0 <= u < 2 ^ 128.

Lemma hex_digit_inj a b : 0 <= a < 16 -> 0 <= b < 16 -> hex_digit a = hex_digit b -> a = b.
Proof.
  intros Ha Hb H. apply (f_equal code) in H. unfold hex_digit in H.
  destruct (Z.ltb_spec a 10), (Z.ltb_spec b 10); rewrite !code_chr in H; lia.
Qed.

Lemma hex_of_bytes_cons c l :
  hex_of_bytes (c :: l) = hex_digit (code c / 16) :: hex_digit (code c mod 16) :: hex_of_bytes l.
Proof. done. Qed.

Lemma hex_of_bytes_length l : length (hex_of_bytes l) = (2 * length l)%nat.
Proof. induction l as [|c l IH]; [done|]. rewrite hex_of_bytes_cons. cbn [length]. rewrite IH. lia. Qed.

Lemma hex_of_bytes_inj l1 l2 : hex_of_bytes l1 = hex_of_bytes l2 -> l1 = l2.
Proof.
  revert l2. induction l1 as [|c l1 IH]; intros [|d l2] H; try done.
  rewrite !hex_of_bytes_cons in H. injection H as H1 H2 H3. pose proof (code_range c) as Hc. pose proof (code_range d) as Hd.
  apply hex_digit_inj in H1; [|split; [apply Z.div_pos|apply Z.div_lt_upper_bound]; lia..].
  apply hex_digit_inj in H2; [|apply Z.mod_pos_bound; lia..].
  f_equal; [|by apply IH]. apply code_inj.
  rewrite (Z.div_mod (code c) 16), (Z.div_mod (code d) 16) by lia. congruence.
Qed.

Lemma uuid_String_length u : length (s2l (uuid_String u)) = 36%nat.
Proof.
  unfold uuid_String. cbv zeta. rewrite s2l_l2s, !length_app, !length_take, !length_drop, hex_of_bytes_length, length_be_bytes. done.
Qed.

Lemma uuid_groups (l : list ascii) :
  l = take 8 l ++ take 4 (drop 8 l) ++ take 4 (drop 12 l) ++ take 4 (drop 16 l) ++ drop 20 l.
Proof.
  rewrite <- (take_drop 8 l) at 1. f_equal. rewrite <- (take_drop 4 (drop 8 l)) at 1. f_equal.
  rewrite drop_drop. rewrite <- (take_drop 4 (drop _ l)) at 1. f_equal.
  rewrite drop_drop. rewrite <- (take_drop 4 (drop _ l)) at 1. f_equal. by rewrite drop_drop.
Qed.

Lemma uuid_String_inj u v : uuid_ok u -> uuid_ok v -> uuid_String u = uuid_String v -> u = v.
Proof.
  intros Hu Hv H. apply (f_equal s2l) in H. unfold uuid_String in H. cbv zeta in H. rewrite !s2l_l2s in H.
  set (h := hex_of_bytes (be_bytes 16 u)) in H. set (k := hex_of_bytes (be_bytes 16 v)) in H.
  assert (Lh : length h = 32%nat) by (unfold h; by rewrite hex_of_bytes_length, length_be_bytes).
  assert (Lk : length k = 32%nat) by (unfold k; by rewrite hex_of_bytes_length, length_be_bytes).
  assert (E : h = k).
  { apply app_inj_1 in H as [H1 H]; [|rewrite !length_take; lia].
    apply app_inj_1 in H as [_ H]; [|done].
    apply app_inj_1 in H as [H2 H]; [|rewrite !length_take, !length_drop; lia].
    apply app_inj_1 in H as [_ H]; [|done].
    apply app_inj_1 in H as [H3 H]; [|rewrite !length_take, !length_drop; lia].
    apply app_inj_1 in H as [_ H]; [|done].
    apply app_inj_1 in H as [H4 H]; [|rewrite !length_take, !length_drop; lia].
    apply app_inj_1 in H as [_ H5]; [|done].
    rewrite (uuid_groups h), (uuid_groups k). congruence. }
  apply hex_of_bytes_inj, be_bytes_inj in E. change (2 ^ (8 * Z.of_nat 16)) with (2 ^ 128) in E.
  rewrite !Z.mod_small in E by done. done.
Qed.

(** ** Reading the text back

    A parser of the canonical form, one of those [uuid.Parse] accepts. *)
Definition unhex (c : ascii) : Z := if code c <? 58 then code c - 48 else code c - 87.
Definition hex_value_of (l : list ascii) : Z := fold_left (fun n c => n * 16 + unhex c) l 0.
Definition canonical_Parse (s : string) : option uuid :=
  let u := hex_value_of (List.filter (fun c => negb (bool_decide (c = "-"%char))) (s2l s)) in
  if bool_decide (uuid_String u = s) then Some u else None.

Lemma unhex_hex_digit z : 0 <= z < 16 -> unhex (hex_digit z) = z.
Proof.
  intros H. unfold unhex, hex_digit. destruct (Z.ltb_spec z 10); rewrite code_chr by lia; case_match; reflect_bools; lia.
Qed.

Lemma hex_digit_no_dash z : 0 <= z < 16 -> hex_digit z <> "-"%char.
Proof.
  intros H E. apply (f_equal code) in E. unfold hex_digit in E. change (code "-") with 45 in E.
  destruct (Z.ltb_spec z 10); rewrite code_chr in E; lia.
Qed.

Lemma code_digits c : 0 <= code c / 16 < 16 /\ 0 <= code c mod 16 < 16.
Proof. pose proof (code_range c). split; [split; [apply Z.div_pos|apply Z.div_lt_upper_bound]; lia|apply Z.mod_pos_bound; lia]. Qed.

Lemma hex_value_bytes l n :
  fold_left (fun n c => n * 16 + unhex c) (hex_of_bytes l) n = fold_left (fun n c => n * 256 + code c) l n.
Proof.
  revert n. induction l as [|c l IH]; intros n; [done|]. rewrite hex_of_bytes_cons. cbn [fold_left].
  destruct (code_digits c). rewrite !unhex_hex_digit by done. rewrite IH. f_equal.
  pose proof (Z.div_mod (code c) 16). lia.
Qed.

Lemma be_bytes_value n z a :
  fold_left (fun n c => n * 256 + code c) (be_bytes n z) a = a * 2 ^ (8 * Z.of_nat n) + z mod 2 ^ (8 * Z.of_nat n).
Proof.
  revert a. induction n as [|n IH]; intros a; [cbn; rewrite Z.mod_1_r; lia|]. cbn [be_bytes fold_left].
  rewrite IH, code_chr by (apply Z.mod_pos_bound; lia). rewrite Z.shiftr_div_pow2 by lia.
  replace (8 * Z.of_nat (S n)) with (8 * Z.of_nat n + 8) by lia. rewrite Z.pow_add_r by lia. change (2 ^ 8) with 256.
  rewrite (Z.rem_mul_r z) by lia. lia.
Qed.

Lemma no_dash_hex l : List.filter (fun c => negb (bool_decide (c = "-"%char))) (hex_of_bytes l) = hex_of_bytes l.
Proof.
  induction l as [|c l IH]; [done|]. rewrite hex_of_bytes_cons. cbn [List.filter]. destruct (code_digits c).
  rewrite !bool_decide_false by (by apply hex_digit_no_dash). cbn [negb]. by rewrite IH.
Qed.

Lemma canonical_Parse_String u : uuid_ok u -> canonical_Parse (uuid_String u) = Some u.
Proof.
  intros Hu. unfold canonical_Parse. cbv zeta.
  assert (E : hex_value_of (List.filter (fun c => negb (bool_decide (c = "-"%char))) (s2l (uuid_String u))) = u);
    [|by rewrite E, bool_decide_true].
  unfold uuid_String. cbv zeta. rewrite s2l_l2s. set (h := hex_of_bytes (be_bytes 16 u)).
  set (f := fun c => negb (bool_decide (c = "-"%char))). rewrite !List.filter_app.
  change (List.filter f (s2l "-")) with (@nil ascii). cbn [app].
  rewrite <- !List.filter_app.
  rewrite <- uuid_groups. unfold h, f. rewrite no_dash_hex. unfold hex_value_of. rewrite hex_value_bytes, be_bytes_value.
  change (2 ^ (8 * Z.of_nat 16)) with (2 ^ 128). rewrite Z.mod_small by done. lia.
Qed.

(** ** The text is ASCII *)

Lemma hex_of_bytes_ascii l : Forall (fun c => code c < 128) (hex_of_bytes l).
Proof.
  induction l as [|c l IH]; [constructor|]. rewrite hex_of_bytes_cons. destruct (code_digits c) as [H1 H2].
  assert (Hx : forall z, 0 <= z < 16 -> code (hex_digit z) < 128)
    by (intros z Hz; unfold hex_digit; destruct (Z.ltb_spec z 10); rewrite code_chr; lia).
  repeat constructor; auto.
Qed.
Lemma uuid_String_ascii u : is_ascii (uuid_String u).
Proof.
  unfold uuid_String, is_ascii. cbv zeta. rewrite s2l_l2s. pose proof (hex_of_bytes_ascii (be_bytes 16 u)) as Hh.
  rewrite !Forall_app. split_and!; try (by apply Forall_take); try (by apply Forall_drop);
    try (by apply Forall_take, Forall_drop); by repeat constructor.
Qed.

#[export] Hint Resolve uuid_String_ascii : gitscale.
