(* ===== verification/AesGcm.v ===== *)
(** * Packages crypto/aes and crypto/cipher: AES-256-GCM

    The AEAD of the billing archive, executable: AES-256 (FIPS 197) and the
    Galois/counter mode with 12-byte nonces and 16-byte tags (SP 800-38D).
    That opening inverts sealing is proved for every key, nonce and additional
    data; that it is hard to forge a tag is never assumed. *)

From S2P Require Import Prelude GoStd Sha256.

(** ** The field GF(2^8) and the S-box *)

Definition xtime (b : Z) : Z :=
  Z.land (Z.lxor (Z.shiftl b 1) (if 128 <=? b then 27 else 0)) 255.

Fixpoint gmul (n : nat) (a b : Z) : Z :=
  match n with
  | O => 0
  | S n' => Z.lxor (if Z.odd b then a else 0) (gmul n' (xtime a) (Z.shiftr b 1))
  end.

Fixpoint gpow (n : nat) (a : Z) : Z :=
  match n with O => 1 | S n' => gmul 8 a (gpow n' a) end.

Definition rotl8 (k b : Z) : Z := Z.land (Z.lor (Z.shiftl b k) (Z.shiftr b (8 - k))) 255.
(** Multiplicative inverse (the 254th power), then the affine map. *)
Definition sbox_entry (b : Z) : Z :=
  let i := gpow 254 b in
  Z.lxor (Z.lxor (Z.lxor (Z.lxor (Z.lxor i (rotl8 1 i)) (rotl8 2 i)) (rotl8 3 i)) (rotl8 4 i)) 99.

Definition sbox_table : list Z := Eval vm_compute in map (fun n => sbox_entry (Z.of_nat n)) (seq 0 256).
Definition sbox (b : Z) : Z := nth (Z.to_nat b) sbox_table 0.

(** ** The key schedule: 60 words of four bytes *)

Definition xor_list (a b : list Z) : list Z := zip_with Z.lxor a b.
Definition rcons : list Z := [1; 2; 4; 8; 16; 32; 64].

(** [rev_w] holds the words so far, most recent first; [i] is the next index. *)
Fixpoint expand (n : nat) (i : nat) (rev_w : list (list Z)) : list (list Z) :=
  match n with
  | O => rev_w
  | S n' =>
      let temp := nth 0 rev_w [] in
      let t :=
        if (i mod 8 =? 0)%nat
        then xor_list (map sbox (drop 1 temp ++ take 1 temp)) [nth (i / 8 - 1) rcons 0; 0; 0; 0]
        else if (i mod 8 =? 4)%nat then map sbox temp else temp in
      expand n' (S i) (xor_list (nth 7 rev_w []) t :: rev_w)
  end.

Fixpoint groups (n k : nat) (l : list Z) : list (list Z) :=
  match n with O => [] | S n' => take k l :: groups n' k (drop k l) end.

Definition key_schedule (key : list Z) : list (list Z) :=
  let words := reverse (expand 52 8 (reverse (groups 8 4 key))) in
  map (fun r => concat (take 4 (drop (4 * r) words))) (seq 0 15).

(** ** The block cipher; the state is a list of 16 bytes, column by column *)

Definition shift_rows (s : list Z) : list Z :=
  map (fun i => nth ((4 * ((i / 4 + i mod 4) mod 4) + i mod 4)%nat) s 0) (seq 0 16).

Definition mix_column (c : list Z) : list Z :=
  match c with
  | [a; b; c; d] =>
      let m2 := xtime in let m3 x := Z.lxor (xtime x) x in
      [Z.lxor (Z.lxor (m2 a) (m3 b)) (Z.lxor c d); Z.lxor (Z.lxor a (m2 b)) (Z.lxor (m3 c) d);
       Z.lxor (Z.lxor a b) (Z.lxor (m2 c) (m3 d)); Z.lxor (Z.lxor (m3 a) b) (Z.lxor c (m2 d))]
  | _ => c
  end.

Definition aes_round (s rk : list Z) : list Z :=
  xor_list (concat (map mix_column (groups 4 4 (shift_rows (map sbox s))))) rk.

Definition aes256_block (key block : list Z) : list Z :=
  match key_schedule key with
  | rk0 :: rks =>
      let s := fold_left aes_round (take 13 rks) (xor_list block rk0) in
      xor_list (shift_rows (map sbox s)) (nth 13 rks [])
  | [] => []
  end.

(** ** GHASH *)

Fixpoint gf128_mul (n : nat) (x v acc : Z) : Z :=
  match n with
  | O => acc
  | S n' =>
      gf128_mul n' x (if Z.odd v then Z.lxor (Z.shiftr v 1) (Z.shiftl 225 120) else Z.shiftr v 1)
        (if Z.testbit x (Z.of_nat n') then Z.lxor acc v else acc)
  end.

Definition be_val (l : list ascii) : Z := be_word l.

Fixpoint blocks16 (fuel : nat) (l : list ascii) : list (list ascii) :=
  match fuel, l with
  | S fuel', _ :: _ => take 16 l :: blocks16 fuel' (drop 16 l)
  | _, _ => []
  end.

Definition pad16 (b : list ascii) : list ascii := b ++ replicate (16 - length b) (chr 0).

Definition ghash (h : Z) (aad ct : list ascii) : Z :=
  let lens := be_bytes 8 (8 * Z.of_nat (length aad)) ++ be_bytes 8 (8 * Z.of_nat (length ct)) in
  fold_left (fun y b => gf128_mul 128 (Z.lxor y (be_val (pad16 b))) h 0)
    (blocks16 (length aad) aad ++ blocks16 (length ct) ct ++ [lens]) 0.

(** ** Galois/counter mode *)

Definition bytes_xor (a b : list ascii) : list ascii :=
  zip_with (fun x y => chr (Z.lxor (code x) (code y))) a b.

Definition aes (key : list ascii) (block : list ascii) : list ascii :=
  map chr (aes256_block (map code key) (map code block)).

(** Counter mode from counter value [ctr], a block of 16 bytes at a time. *)
Fixpoint gctr (key nonce : list ascii) (ctr : Z) (fuel : nat) (l : list ascii) : list ascii :=
  match fuel, l with
  | S fuel', _ :: _ =>
      let b := take 16 l in
      bytes_xor b (aes key (nonce ++ be_bytes 4 ctr)) ++ gctr key nonce (ctr + 1) fuel' (drop 16 l)
  | _, _ => []
  end.

Definition NonceSize : nat := 12.
Definition Overhead : nat := 16.

Definition gcm_tag (key nonce aad ct : list ascii) : list ascii :=
  let h := be_val (aes key (replicate 16 (chr 0))) in
  bytes_xor (be_bytes 16 (ghash h aad ct)) (aes key (nonce ++ be_bytes 4 1)).

(** [aead.Seal(nil, nonce, plaintext, aad)]. *)
Definition Seal (key nonce plaintext aad : list ascii) : list ascii :=
  let ct := gctr key nonce 2 (length plaintext) plaintext in
  ct ++ gcm_tag key nonce aad ct.

(** [aead.Open(nil, nonce, ciphertext, aad)]; [None] is an authentication
    failure. *)
Definition Open (key nonce ciphertext aad : list ascii) : option (list ascii) :=
  if (length ciphertext <? Overhead)%nat then None
  else
    let n := (length ciphertext - Overhead)%nat in
    let ct := take n ciphertext in
    let tag := drop n ciphertext in
    if bool_decide (tag = gcm_tag key nonce aad ct)
    then Some (gctr key nonce 2 (length ct) ct) else None.

(** ** Lengths *)

Lemma length_map_sbox s : length (map sbox s) = length s.
Proof. apply length_map. Qed.

Lemma xor_list_length a b : length (xor_list a b) = Nat.min (length a) (length b).
Proof. apply length_zip_with. Qed.

Lemma aes_length key block :
  length (aes key block) = Nat.min 16 (length (nth 13 (drop 1 (key_schedule (map code key))) [])).
Proof.
  unfold aes, aes256_block. rewrite length_map. destruct (key_schedule _) as [|rk0 rks] eqn:E.
  - unfold key_schedule in E. discriminate E.
  - rewrite xor_list_length. reflexivity.
Qed.

(** Every group of four words of the schedule has 16 bytes for a key of 32. *)
Lemma expand_words n i rev_w :
  Forall (fun w => length w = 4%nat) rev_w -> (8 <= length rev_w)%nat ->
  Forall (fun w => length w = 4%nat) (expand n i rev_w) /\ length (expand n i rev_w) = (n + length rev_w)%nat.
Proof.
  revert i rev_w. induction n as [|n IH]; intros i rev_w Hf Hl; [done|].
  cbn [expand]. set (w := xor_list _ _).
  assert (Hnth : forall k, (k < 8)%nat -> length (nth k rev_w []) = 4%nat).
  { intros k Hk. apply (Forall_nth (fun w => length w = 4%nat) [] rev_w); [done|lia]. }
  assert (Hw : length w = 4%nat).
  { unfold w. rewrite xor_list_length, Hnth by lia. pose proof (Hnth 0%nat ltac:(lia)) as H0.
    destruct (i mod 8 =? 0)%nat; [|destruct (i mod 8 =? 4)%nat]; simpl.
    - rewrite xor_list_length, length_map, length_app, length_drop, length_take, H0. done.
    - by rewrite length_map, H0.
    - by rewrite H0. }
  destruct (IH (S i) (w :: rev_w)) as [H1 H2]; [by constructor|simpl; lia|].
  split; [done|]. rewrite H2. simpl. lia.
Qed.

Lemma groups_words l : length l = 32%nat -> Forall (fun w => length w = 4%nat) (groups 8 4 l).
Proof.
  intros H. do 32 (destruct l as [|? l]; [simpl in H; lia|]).
  destruct l; [|simpl in H; lia]. repeat constructor.
Qed.

Lemma concat_words (l : list (list Z)) :
  Forall (fun w => length w = 4%nat) l -> length (concat l) = (4 * length l)%nat.
Proof. induction 1 as [|w l Hw Hl IH]; [done|]. simpl. rewrite length_app, IH, Hw. lia. Qed.

Lemma round_key_length key r : length key = 32%nat -> (r < 15)%nat ->
  length (nth r (key_schedule key) []) = 16%nat.
Proof.
  intros Hk Hr. unfold key_schedule. set (words := reverse _).
  assert (Hw : Forall (fun w => length w = 4%nat) words /\ length words = 60%nat).
  { destruct (expand_words 52 8 (reverse (groups 8 4 key))) as [H1 H2].
    - apply Forall_reverse, groups_words, Hk.
    - by rewrite length_reverse.
    - split; [by apply Forall_reverse|]. unfold words. by rewrite length_reverse, H2, length_reverse. }
  destruct Hw as [Hw Hl]. clearbody words.
  rewrite (nth_indep _ [] ((fun r => concat (take 4 (drop (4 * r) words))) 0%nat))
    by (rewrite length_map, length_seq; lia).
  rewrite (map_nth (fun r => concat (take 4 (drop (4 * r) words)))), seq_nth by done.
  rewrite concat_words; [rewrite length_take, length_drop, Hl; lia|].
  apply Forall_take, Forall_drop, Hw.
Qed.

Lemma aes_block_length key block : length key = 32%nat -> length (aes key block) = 16%nat.
Proof.
  intros Hk. rewrite aes_length.
  assert (H : forall (l : list (list Z)), nth 13 (drop 1 l) [] = nth 14 l []) by (intros [|]; done).
  by rewrite H, round_key_length by (rewrite ?length_map; auto; lia).
Qed.

Lemma bytes_xor_length a b : length (bytes_xor a b) = Nat.min (length a) (length b).
Proof. apply length_zip_with. Qed.

Lemma gctr_length key nonce ctr fuel l : length key = 32%nat -> (length l <= fuel)%nat ->
  length (gctr key nonce ctr fuel l) = length l.
Proof.
  intros Hk. revert ctr l. induction fuel as [|fuel IH]; intros ctr l Hf.
  - destruct l; [done|simpl in Hf; lia].
  - destruct l as [|c l]; [done|]. cbn [gctr].
    rewrite length_app, IH, bytes_xor_length, aes_block_length, length_take, length_drop
      by (rewrite ?length_drop; auto; cbn [length] in *; lia).
    cbn [length] in *. lia.
Qed.

Lemma gcm_tag_length key nonce aad ct : length key = 32%nat -> length (gcm_tag key nonce aad ct) = 16%nat.
Proof.
  intros Hk. unfold gcm_tag. by rewrite bytes_xor_length, length_be_bytes, aes_block_length.
Qed.

Lemma Seal_length key nonce p aad : length key = 32%nat ->
  length (Seal key nonce p aad) = (length p + Overhead)%nat.
Proof. intros Hk. unfold Seal. by rewrite length_app, gctr_length, gcm_tag_length. Qed.

(** ** Opening inverts sealing *)

Lemma bytes_xor_involutive a b : (length a <= length b)%nat -> bytes_xor (bytes_xor a b) b = a.
Proof.
  revert b. induction a as [|x a IH]; intros [|y b] H; simpl in *; try done; [lia|].
  f_equal; [|apply IH; lia]. apply code_inj.
  pose proof (code_range x). pose proof (code_range y).
  assert (Hb : forall u v, 0 <= u < 256 -> 0 <= v < 256 -> 0 <= Z.lxor u v < 256).
  { intros u v Hu Hv. split; [apply Z.lxor_nonneg; lia|].
    destruct (decide (Z.lxor u v = 0)) as [->|Hz]; [lia|].
    change 256 with (2 ^ 8). apply Z.log2_lt_pow2; [pose proof (Z.lxor_nonneg u v); lia|].
    eapply Z.le_lt_trans; [apply Z.log2_lxor; lia|].
    assert (forall w, 0 <= w < 256 -> Z.log2 w < 8)
      by (intros w Hw; destruct (decide (w = 0)) as [->|]; [done|apply Z.log2_lt_pow2; lia]).
    apply Z.max_lub_lt; auto. }
  rewrite (code_chr (Z.lxor (code x) (code y))) by auto.
  by rewrite Z.lxor_assoc, Z.lxor_nilpotent, Z.lxor_0_r, code_chr.
Qed.

Lemma gctr_involutive key nonce ctr fuel fuel' l : length key = 32%nat ->
  (length l <= fuel)%nat -> (length l <= fuel')%nat ->
  gctr key nonce ctr fuel' (gctr key nonce ctr fuel l) = l.
Proof.
  intros Hk. revert ctr l fuel'. induction fuel as [|fuel IH]; intros ctr l fuel' Hf Hf'.
  - destruct l; [|simpl in Hf; lia]. by destruct fuel'.
  - destruct l as [|c l]; [by destruct fuel'|]. destruct fuel' as [|fuel']; [simpl in Hf'; lia|].
    cbn [gctr]. remember (take 16 (c :: l)) as b eqn:Eb.
    pose proof (aes_block_length key (nonce ++ be_bytes 4 ctr) Hk) as Hkl.
    remember (aes key (nonce ++ be_bytes 4 ctr)) as k eqn:Ek. clear Ek.
    assert (Hb : (length (bytes_xor b k) = length b /\ 1 <= length b <= 16)%nat).
    { rewrite bytes_xor_length, Hkl, Eb, length_take. cbn [length]. lia. }
    destruct (bytes_xor b k ++ gctr key nonce (ctr + 1) fuel (drop 16 (c :: l))) as [|x y] eqn:E.
    { apply (f_equal length) in E. rewrite length_app in E. cbn [length] in E. lia. }
    rewrite <- E. clear x y E.
    destruct (decide (length b = 16)%nat) as [Hl|Hl].
    + rewrite take_app_length', drop_app_length' by lia.
      rewrite bytes_xor_involutive by lia.
      rewrite IH by (rewrite length_drop; cbn [length] in *; lia). subst b. apply take_drop.
    + assert (Hd : drop 16 (c :: l) = []).
      { apply drop_ge. rewrite Eb, length_take in Hl. lia. }
      rewrite Hd. replace (gctr key nonce (ctr + 1) fuel []) with (@nil ascii) by by destruct fuel.
      rewrite app_nil_r, take_ge, drop_ge by lia.
      replace (gctr key nonce (ctr + 1) fuel' []) with (@nil ascii) by by destruct fuel'.
      rewrite app_nil_r, bytes_xor_involutive by lia.
      rewrite Eb. rewrite <- (take_drop 16 (c :: l)) at 2. by rewrite Hd, app_nil_r.
Qed.

Lemma Open_Seal key nonce p aad : length key = 32%nat ->
  Open key nonce (Seal key nonce p aad) aad = Some p.
Proof.
  intros Hk. unfold Open. rewrite Seal_length by done.
  rewrite (proj2 (Nat.ltb_ge _ _)) by lia.
  replace (length p + Overhead - Overhead)%nat with (length (gctr key nonce 2 (length p) p))
    by (rewrite gctr_length; auto; lia).
  unfold Seal. rewrite take_app_length, drop_app_length, bool_decide_true by done.
  rewrite gctr_involutive; auto. by rewrite gctr_length.
Qed.

(** What [Open] accepts is what [Seal] produces. *)
Lemma Open_inv key nonce ct aad p : length key = 32%nat ->
  Open key nonce ct aad = Some p -> ct = Seal key nonce p aad.
Proof.
  intros Hk. unfold Open. destruct (_ <? _)%nat eqn:El; [done|]. apply Nat.ltb_ge in El.
  case_bool_decide as Ht; [|done]. intros [= <-].
  set (c := take (length ct - Overhead) ct) in *.
  unfold Seal. rewrite gctr_length by done. rewrite gctr_involutive by auto.
  rewrite <- Ht. symmetry. apply take_drop.
Qed.

(** Test cases 13 and 14 of the GCM specification. *)
Example gcm_empty :
  be_val (Seal (replicate 32 (chr 0)) (replicate 12 (chr 0)) [] []) = 0x530f8afbc74536b9a963b4f1c4cb738b.
Proof. vm_compute. reflexivity. Qed.

Example gcm_one_block :
  be_val (Seal (replicate 32 (chr 0)) (replicate 12 (chr 0)) (replicate 16 (chr 0)) []) =
  0xcea7403d4d606b6e074ec5d3baf39d18d0d1c8a799996bf0265b98b5d48ab919.
Proof. vm_compute. reflexivity. Qed.
