(* ===== verification/Actions.v ===== *)
(** * Actions: state and errors

    Operations that read and change a state and may fail: a method with a
    receiver and an error result.  A failed action keeps the state it
    reached. *)

From S2P Require Import Prelude.

Definition action (E W A : Type) : Type := W -> W * result E A.

Section action.
Context {E W : Type}.

Definition ret {A} (a : A) : action E W A := fun w => (w, Ok a).
Definition throw {A} (e : E) : action E W A := fun w => (w, Err e).
Definition bind {A B} (m : action E W A) (k : A -> action E W B) : action E W B := fun w =>
  match m w with
  | (w', Ok a) => k a w'
  | (w', Err e) => (w', Err e)
  end.
(** [if !ok { return err }]. *)
Definition require (b : bool) (e : E) : action E W unit := if b then ret tt else throw e.
Definition map_err {A} (f : E -> E) (m : action E W A) : action E W A := fun w =>
  match m w with
  | (w', Ok a) => (w', Ok a)
  | (w', Err e) => (w', Err (f e))
  end.

Lemma bind_ok {A B} (m : action E W A) (k : A -> action E W B) w w' b :
  bind m k w = (w', Ok b) <-> exists w1 a, m w = (w1, Ok a) /\ k a w1 = (w', Ok b).
Proof.
  unfold bind. destruct (m w) as [w1 [a|e]]; split; [|intros (? & ? & ? & ?)|..]; try naive_solver.
Qed.

Lemma bind_Ok {A B} (m : action E W A) (k : A -> action E W B) w w' a : m w = (w', Ok a) -> bind m k w = k a w'.
Proof. unfold bind. by intros ->. Qed.

Lemma map_err_ok {A} f (m : action E W A) w w' a : map_err f m w = (w', Ok a) <-> m w = (w', Ok a).
Proof. unfold map_err. destruct (m w) as [w1 [?|?]]; naive_solver. Qed.

Lemma map_err_state {A} f (m : action E W A) w : (map_err f m w).1 = (m w).1.
Proof. unfold map_err. by destruct (m w) as [? [?|?]]. Qed.

(** A predicate on worlds that every run of an activity preserves. *)
Definition preserves (P : W -> Prop) {A} (m : action E W A) : Prop := forall w, P w -> P (m w).1.

Lemma preserves_ret (P : W -> Prop) {A} (a : A) : preserves P (ret a).
Proof. by intros w. Qed.
Lemma preserves_throw (P : W -> Prop) {A} e : preserves P (throw (A := A) e).
Proof. by intros w. Qed.
Lemma preserves_require (P : W -> Prop) b e : preserves P (require b e).
Proof. unfold require. destruct b; by intros w. Qed.
Lemma preserves_bind (P : W -> Prop) {A B} (m : action E W A) (k : A -> action E W B) :
  preserves P m -> (forall a, preserves P (k a)) -> preserves P (bind m k).
Proof.
  intros Hm Hk w Hw. unfold bind. specialize (Hm w Hw). destruct (m w) as [w' [a|e]]; [by apply Hk|done].
Qed.
Lemma preserves_map_err (P : W -> Prop) {A} f (m : action E W A) : preserves P m -> preserves P (map_err f m).
Proof. intros H w Hw. rewrite map_err_state. by apply H. Qed.
End action.

#[export] Hint Resolve preserves_ret preserves_throw preserves_require preserves_bind preserves_map_err : gitscale.

Notation "'let!' x ':=' c 'in' k" := (bind c (fun x => k))
  (at level 10, x pattern, c at level 100, k at level 200) : go_scope.
