(* ===== verification/Temporal.v ===== *)
(** * Activities under the Temporal retry policy

    [plane/workflow/retrypolicy.go], and what [workflow.ExecuteActivity]
    documents: an activity is attempted until an attempt succeeds, fails with
    a non-retryable error, or the attempts are used up.  An attempt may be
    lost before it runs, and its result may be lost after it has run, so an
    activity runs at least once and its effects may happen several times. *)

From S2P Require Import Prelude.
From S2P Require Import Actions.

(** ** Activities

    A step of a worker on a world [W].  An error is an application error with
    a type Temporal is told not to retry, or any other error, named after
    what failed. *)
Inductive failure := NonRetryable (type : string) | Failed (what : string).

#[export] Instance failure_eq_dec : EqDecision failure.
Proof. solve_decision. Defined.

Notation act := (action failure).

(** ** The retry policy *)

Record RetryPolicy := mkRetryPolicy {
  InitialInterval : duration;
  BackoffCoefficient : Z;
  MaximumInterval : duration;
  MaximumAttempts : nat }.

Definition DefaultRetryPolicy : RetryPolicy := mkRetryPolicy (1 * Second) 2 (60 * Second) 5.

(** The wait before attempt [n + 2]. *)
Definition interval (rp : RetryPolicy) (n : nat) : duration :=
  Z.min (MaximumInterval rp) (InitialInterval rp * BackoffCoefficient rp ^ Z.of_nat n).
Definition waits (rp : RetryPolicy) : list duration := map (interval rp) (seq 0 (MaximumAttempts rp - 1)).

(** ** ExecuteActivity

    What becomes of each attempt: delivered, lost before it ran, or run with
    its result lost.  A script shorter than the attempts is continued by
    deliveries.  Attempt [i] of an activity is [a i]: the clock and the random
    source it sees are its own. *)
Inductive delivery := Delivered | NotRun | ResultLost.

Definition Timeout : failure := Failed "activity timeout".

Section execute.
Context {W A : Type} (a : nat -> act W A).

Fixpoint attempts (left i : nat) (script : list delivery) : act W A := fun w =>
  match left with
  | O => (w, Err Timeout)
  | S left' =>
      let next := attempts left' (S i) (tail script) in
      match default Delivered (head script) with
      | NotRun => next w
      | ResultLost => next (a i w).1
      | Delivered =>
          match a i w with
          | (w', Ok r) => (w', Ok r)
          | (w', Err (NonRetryable t)) => (w', Err (NonRetryable t))
          | (w', Err (Failed e)) => if (left' =? 0)%nat then (w', Err (Failed e)) else next w'
          end
      end
  end.

Definition ExecuteActivity (script : list delivery) : act W A :=
  attempts (MaximumAttempts DefaultRetryPolicy) 0 script.

Lemma attempts_preserves (P : W -> Prop) left i script :
  (forall j, preserves P (a j)) -> preserves P (attempts left i script).
Proof.
  intros Ha. revert i script. induction left as [|left IH]; intros i script w Hw; [done|].
  cbn [attempts]. pose proof (Ha i w Hw) as Hi. destruct (default Delivered (head script)).
  - destruct (a i w) as [w' [r|[t|e]]]; [done..|]. destruct (left =? 0)%nat; [done|by apply IH].
  - by apply IH.
  - by apply IH.
Qed.

(** A result that arrives is the result of a run, from a state the earlier
    runs led to. *)
Lemma attempts_ok (P : W -> Prop) left i script w w' r :
  (forall j, preserves P (a j)) -> P w -> attempts left i script w = (w', Ok r) ->
  exists j w0, P w0 /\ a j w0 = (w', Ok r).
Proof.
  intros Ha. revert i script w. induction left as [|left IH]; intros i script w Hw H; [done|].
  cbn [attempts] in H. pose proof (Ha i w Hw) as Hi. destruct (default Delivered (head script)).
  - destruct (a i w) as [w1 [r'|[t|e]]] eqn:E; [|done|].
    + simplify_eq. eauto.
    + destruct (left =? 0)%nat; [done|]. eapply IH; [|exact H]; done.
  - eapply IH; [|exact H]; done.
  - eapply IH; [|exact H]; done.
Qed.

(** An activity that succeeds at once is run once when nothing is lost. *)
Lemma ExecuteActivity_first w w' r : a 0 w = (w', Ok r) -> ExecuteActivity [] w = (w', Ok r).
Proof. intros H. unfold ExecuteActivity. cbn. by rewrite H. Qed.

Lemma ExecuteActivity_preserves (P : W -> Prop) script :
  (forall j, preserves P (a j)) -> preserves P (ExecuteActivity script).
Proof. apply attempts_preserves. Qed.

Lemma ExecuteActivity_ok (P : W -> Prop) script w w' r :
  (forall j, preserves P (a j)) -> P w -> ExecuteActivity script w = (w', Ok r) ->
  exists j w0, P w0 /\ a j w0 = (w', Ok r).
Proof. apply attempts_ok. Qed.
End execute.

#[export] Hint Resolve ExecuteActivity_preserves : gitscale.

(** Five attempts leave four waits. *)
Example DefaultRetryPolicy_waits : waits DefaultRetryPolicy = map (fun n => n * Second) [1; 2; 4; 8].
Proof. vm_compute. reflexivity. Qed.
