(* ===== verification/Policy.v ===== *)
(** * Plan-approval policy: DSL, validation, predicates and the plan hash

    Models [plane/application/policy/dsl.go], [plan.go], [predicates.go] and
    [validate.go].  String-typed enums keep their wire strings; error messages
    are reduced to their closed-enum codes. *)

From S2P Require Import Prelude GoStd Sha256 Json.

(** ** dsl.go *)

Definition PredicateKind := string.
Definition PredicatePRMerge : PredicateKind := "pr_merge".
Definition PredicateForcePush : PredicateKind := "force_push".
Definition PredicateProductionDeploy : PredicateKind := "production_deploy".
Definition PredicateBulkAction : PredicateKind := "bulk_action".
Definition PredicateAgentDefault : PredicateKind := "agent_default".

Definition AllPredicateKinds : list PredicateKind :=
  [PredicatePRMerge; PredicateForcePush; PredicateProductionDeploy; PredicateBulkAction;
   PredicateAgentDefault].

Definition PredicateKind_IsValid (k : PredicateKind) : bool :=
  existsb (fun v => bool_decide (v = k)) AllPredicateKinds.

Definition OnTimeout := string.
Definition OnTimeoutNotifyNext : OnTimeout := "notify_next".
Definition OnTimeoutAutoDeny : OnTimeout := "auto_deny".
Definition OnTimeoutFallBack : OnTimeout := "fall_back".

Definition OnTimeout_IsValid (o : OnTimeout) : bool :=
  bool_decide (o = OnTimeoutNotifyNext) || bool_decide (o = OnTimeoutAutoDeny)
  || bool_decide (o = OnTimeoutFallBack).

Record ApproverGroup := mkApproverGroup {
  ag_Name : string;
  ag_HumanUserIDs : list uuid;
  ag_RequiredCount : Z
}.

Record EscalationRung := mkRung {
  rung_GroupName : string;
  rung_SLASeconds : Z;
  rung_OnTimeout : OnTimeout
}.

Record Rule := mkRule {
  rule_Kind : PredicateKind;
  rule_Match : gmap string string;
  rule_Threshold : option Z;
  rule_Ladder : list EscalationRung;
  rule_ExpirySeconds : Z
}.

Record Policy := mkPolicy {
  pol_ID : uuid;
  pol_OrgID : uuid;
  pol_RepoID : option uuid;
  pol_Name : string;
  pol_Version : Z;
  pol_Rules : list Rule;
  pol_ApproverGroups : gmap string ApproverGroup
}.

(** ** plan.go *)

Definition ProposerKind := string.
Definition ProposerKindAgent : ProposerKind := "agent".
Definition ProposerKindService : ProposerKind := "service".

Definition ProposerKind_IsValid (k : ProposerKind) : bool :=
  bool_decide (k = ProposerKindAgent) || bool_decide (k = ProposerKindService).

Record Action := mkAction {
  act_Kind : string;
  act_Fields : gmap string string
}.

Record Plan := mkPlan {
  plan_ID : uuid;
  plan_OrgID : uuid;
  plan_RepoID : option uuid;
  plan_PolicyID : uuid;
  plan_ProposerID : uuid;
  plan_ProposerKind : ProposerKind;
  plan_Actions : list Action;
  plan_PlanHash : digest;
  plan_CreatedAt : time
}.

Definition PlanStatus := string.
Definition PlanStatusPending : PlanStatus := "pending".
Definition PlanStatusApproved : PlanStatus := "approved".
Definition PlanStatusRejected : PlanStatus := "rejected".
Definition PlanStatusExpired : PlanStatus := "expired".
Definition PlanStatusEscalated : PlanStatus := "escalated".
Definition PlanStatusAutoApprovedNoRule : PlanStatus := "auto_approved_no_rule".
Definition PlanStatusAutoDenied : PlanStatus := "auto_denied".

Record Decision := mkDecision {
  dec_PlanID : uuid;
  dec_Status : PlanStatus;
  dec_AutoApproved : bool;
  dec_MatchedRuleIndex : Z;
  dec_Ladder : list EscalationRung;
  dec_ExpirySeconds : Z
}.

(** Reading a missing key of a [map[string]string] gives the empty string. *)
Definition map_get (m : gmap string string) (k : string) : string := default "" (m !! k).

(** A map's members in ascending key order ([sort.Strings] on its keys). *)
Definition sorted_keys {A} (m : gmap string A) : list string :=
  merge_sort String.le (map_to_list m).*1.

Definition sorted_fields (m : gmap string string) : list (string * string) :=
  (fun k => (k, map_get m k)) <$> sorted_keys m.

Definition comma : list ascii := s2l ",".

Fixpoint join_bytes (sep : list ascii) (parts : list (list ascii)) : list ascii :=
  match parts with
  | [] => []
  | [p] => p
  | p :: ps => p ++ sep ++ join_bytes sep ps
  end.

Definition marshal_field (kv : string * string) : list ascii :=
  marshal_string kv.1 ++ s2l ":" ++ marshal_string kv.2.

Definition marshal_action (a : Action) : list ascii :=
  s2l "{" ++ marshal_string "kind" ++ s2l ":" ++ marshal_string (act_Kind a)
  ++ (if bool_decide (act_Fields a = ∅) then []
      else comma ++ marshal_string "fields" ++ s2l ":{"
           ++ join_bytes comma (marshal_field <$> sorted_fields (act_Fields a)) ++ s2l "}")
  ++ s2l "}".

(** The encoder never fails on these types, so the error result is dropped. *)
Definition CanonicalActionsJSON (actions : list Action) : list ascii :=
  s2l "[" ++ join_bytes comma (marshal_action <$> actions) ++ s2l "]".

Definition ComputePlanHash (p : Plan) : Plan :=
  mkPlan (plan_ID p) (plan_OrgID p) (plan_RepoID p) (plan_PolicyID p) (plan_ProposerID p)
    (plan_ProposerKind p) (plan_Actions p) (Sum256 (CanonicalActionsJSON (plan_Actions p)))
    (plan_CreatedAt p).

(** ** predicates.go *)

Definition matchByField (actions : list Action) (kind field want : string) : bool :=
  existsb (fun a =>
    bool_decide (act_Kind a = kind)
    && (bool_decide (want = "") || bool_decide (map_get (act_Fields a) field = want))) actions.

Definition matchByPattern (actions : list Action) (kind field pattern : string) : bool :=
  existsb (fun a =>
    bool_decide (act_Kind a = kind)
    && (let v := map_get (act_Fields a) field in
        bool_decide (pattern = "")
        || match Path.Match pattern v with Path.Matched => true | _ => false end
        || (HasSuffix pattern "/*" && HasPrefix v (TrimSuffix pattern "*")))) actions.

Definition matchRule (r : Rule) (actions : list Action) (proposer : ProposerKind) : bool :=
  if bool_decide (rule_Kind r = PredicatePRMerge) then
    matchByField actions "pr_merge" "branch" (map_get (rule_Match r) "branch")
  else if bool_decide (rule_Kind r = PredicateForcePush) then
    matchByPattern actions "force_push" "ref" (map_get (rule_Match r) "ref_pattern")
  else if bool_decide (rule_Kind r = PredicateProductionDeploy) then
    matchByField actions "production_deploy" "environment" (map_get (rule_Match r) "environment")
  else if bool_decide (rule_Kind r = PredicateBulkAction) then
    match rule_Threshold r with
    | None => false
    | Some t => t <=? Z.of_nat (length actions)
    end
  else if bool_decide (rule_Kind r = PredicateAgentDefault) then
    bool_decide (proposer = ProposerKindAgent)
  else false.

(** ** validate.go *)

Definition ValidationError := string. (** its [Code] *)
Definition CodeInvalidPredicateKind : ValidationError := "policy_invalid_predicate_kind".
Definition CodeEmptyLadder : ValidationError := "policy_empty_ladder".
Definition CodeUnknownApproverGroup : ValidationError := "policy_unknown_approver_group".
Definition CodeZeroRequiredCount : ValidationError := "policy_zero_required_count".
Definition CodeNonHumanApprover : ValidationError := "policy_non_human_approver".
Definition CodeInvalidOnTimeout : ValidationError := "policy_invalid_on_timeout".
Definition CodeBulkThresholdMissing : ValidationError := "policy_bulk_threshold_missing".
Definition CodeRequiredCountTooLarge : ValidationError := "policy_required_count_too_large".
Definition CodeFallBackOnFirstRung : ValidationError := "policy_fall_back_on_first_rung".
Definition CodeEmptyName : ValidationError := "policy_empty_name".
Definition CodeNonPositiveExpiry : ValidationError := "policy_non_positive_expiry".
Definition CodeNonPositiveSLA : ValidationError := "policy_non_positive_sla".
Definition CodeNoRules : ValidationError := "policy_no_rules".

(** The first error of a list of checks. *)
Definition first_error {E} (l : list (option E)) : option E :=
  fold_right (fun c r => match c with Some e => Some e | None => r end) None l.

Definition when {E} (c : bool) (e : E) : option E := if c then Some e else None.

Definition validate_group (ng : string * ApproverGroup) : option ValidationError :=
  let '(name, g) := ng in
  first_error
    [when (negb (bool_decide (name = ag_Name g))) CodeEmptyName;
     when (ag_RequiredCount g <=? 0) CodeZeroRequiredCount;
     when (Z.of_nat (length (ag_HumanUserIDs g)) <? ag_RequiredCount g) CodeRequiredCountTooLarge;
     when (bool_decide (uuid_Nil ∈ ag_HumanUserIDs g)) CodeNonHumanApprover].

Definition validate_rung (groups : gmap string ApproverGroup) (j : nat) (rung : EscalationRung)
  : option ValidationError :=
  first_error
    [when (bool_decide (groups !! rung_GroupName rung = None)) CodeUnknownApproverGroup;
     when (rung_SLASeconds rung <=? 0) CodeNonPositiveSLA;
     when (negb (OnTimeout_IsValid (rung_OnTimeout rung))) CodeInvalidOnTimeout;
     when ((j =? 0)%nat && bool_decide (rung_OnTimeout rung = OnTimeoutFallBack))
       CodeFallBackOnFirstRung].

Definition validate_rule (groups : gmap string ApproverGroup) (r : Rule) : option ValidationError :=
  first_error
    [when (negb (PredicateKind_IsValid (rule_Kind r))) CodeInvalidPredicateKind;
     when (rule_ExpirySeconds r <=? 0) CodeNonPositiveExpiry;
     when (bool_decide (rule_Kind r = PredicateBulkAction)
           && match rule_Threshold r with None => true | Some t => t <=? 0 end)
       CodeBulkThresholdMissing;
     when (bool_decide (rule_Ladder r = [])) CodeEmptyLadder;
     first_error (imap (validate_rung groups) (rule_Ladder r))].

(** [Validate] ranges over the [ApproverGroups] map, whose iteration order Go
    leaves unspecified: the order is an argument. *)
Definition validate_in (order : list (string * ApproverGroup)) (p : option Policy)
  : option ValidationError :=
  match p with
  | None => Some CodeEmptyName
  | Some p =>
      first_error
        [when (bool_decide (pol_Name p = "")) CodeEmptyName;
         when (bool_decide (pol_Rules p = [])) CodeNoRules;
         first_error (validate_group <$> order);
         first_error (validate_rule (pol_ApproverGroups p) <$> pol_Rules p)]
  end.

(** One execution of [Validate], the one that visits the groups in the order
    of the map's own enumeration. *)
Definition Validate (p : Policy) : option ValidationError :=
  validate_in (map_to_list (pol_ApproverGroups p)) (Some p).

(** [IsCode] for the errors modelled here. *)
Definition IsCode (err : option ValidationError) (c : string) : bool := bool_decide (err = Some c).

#[export] Instance ApproverGroup_eq_dec : EqDecision ApproverGroup.
Proof. solve_decision. Defined.
#[export] Instance EscalationRung_eq_dec : EqDecision EscalationRung.
Proof. solve_decision. Defined.
#[export] Instance Rule_eq_dec : EqDecision Rule.
Proof. solve_decision. Defined.
#[export] Instance Policy_eq_dec : EqDecision Policy.
Proof. solve_decision. Defined.
#[export] Instance Action_eq_dec : EqDecision Action.
Proof. solve_decision. Defined.
#[export] Instance Plan_eq_dec : EqDecision Plan.
Proof. solve_decision. Defined.
#[export] Instance Decision_eq_dec : EqDecision Decision.
Proof. solve_decision. Defined.

(** ** What [Validate] accepts *)

Definition group_wf (name : string) (g : ApproverGroup) : Prop :=
  ag_Name g = name /\ 0 < ag_RequiredCount g <= Z.of_nat (length (ag_HumanUserIDs g))
  /\ uuid_Nil ∉ ag_HumanUserIDs g.

Definition rung_wf (groups : gmap string ApproverGroup) (j : nat) (rung : EscalationRung) : Prop :=
  is_Some (groups !! rung_GroupName rung) /\ 0 < rung_SLASeconds rung
  /\ OnTimeout_IsValid (rung_OnTimeout rung) = true
  /\ (j = 0%nat -> rung_OnTimeout rung <> OnTimeoutFallBack).

Definition rule_wf (groups : gmap string ApproverGroup) (r : Rule) : Prop :=
  PredicateKind_IsValid (rule_Kind r) = true /\ 0 < rule_ExpirySeconds r
  /\ (rule_Kind r = PredicateBulkAction -> exists t, rule_Threshold r = Some t /\ 0 < t)
  /\ rule_Ladder r <> []
  /\ forall j rung, rule_Ladder r !! j = Some rung -> rung_wf groups j rung.

Definition policy_wf (p : Policy) : Prop :=
  pol_Name p <> "" /\ pol_Rules p <> []
  /\ (forall name g, pol_ApproverGroups p !! name = Some g -> group_wf name g)
  /\ (forall r, r ∈ pol_Rules p -> rule_wf (pol_ApproverGroups p) r).

Lemma first_error_none {E} (l : list (option E)) : first_error l = None <-> Forall (eq None) l.
Proof.
  induction l as [|[e|] l IH]; simpl; [by split; [constructor|]|..].
  - split; [done|]. by inversion 1.
  - rewrite IH, Forall_cons. naive_solver.
Qed.

Lemma when_none {E} c (e : E) : when c e = None <-> c = false.
Proof. by destruct c. Qed.

Lemma eq_comm_none {E} (o : option E) : None = o <-> o = None.
Proof. by split. Qed.

Lemma validate_group_wf name g : validate_group (name, g) = None <-> group_wf name g.
Proof.
  unfold validate_group, group_wf.
  rewrite first_error_none, !Forall_cons, Forall_nil, !eq_comm_none, !when_none,
    negb_false_iff, bool_decide_eq_true, bool_decide_eq_false, Z.leb_gt, Z.ltb_ge.
  naive_solver lia.
Qed.

Lemma validate_rung_wf groups j rung : validate_rung groups j rung = None <-> rung_wf groups j rung.
Proof.
  unfold validate_rung, rung_wf.
  rewrite first_error_none, !Forall_cons, Forall_nil, !eq_comm_none, !when_none,
    bool_decide_eq_false, Z.leb_gt, negb_false_iff, andb_false_iff, Nat.eqb_neq,
    bool_decide_eq_false, <- not_eq_None_Some.
  destruct (decide (j = 0%nat)); naive_solver.
Qed.

Lemma validate_rule_wf groups r : validate_rule groups r = None <-> rule_wf groups r.
Proof.
  unfold validate_rule, rule_wf.
  rewrite first_error_none, !Forall_cons, Forall_nil, !eq_comm_none, !when_none, first_error_none,
    negb_false_iff, Z.leb_gt, andb_false_iff, !bool_decide_eq_false, Forall_lookup.
  assert ((forall j x, imap (validate_rung groups) (rule_Ladder r) !! j = Some x -> None = x)
          <-> forall j rung, rule_Ladder r !! j = Some rung -> rung_wf groups j rung) as ->.
  { split.
    - intros H j rung Hj. apply validate_rung_wf. symmetry. apply (H j).
      by rewrite list_lookup_imap, Hj.
    - intros H j x. rewrite list_lookup_imap. destruct (rule_Ladder r !! j) as [rung|] eqn:Hj; [|done].
      intros [= <-]. symmetry. apply validate_rung_wf. eauto. }
  destruct (rule_Threshold r) as [t|]; rewrite ?Z.leb_gt;
    destruct (decide (rule_Kind r = PredicateBulkAction)); naive_solver.
Qed.

Lemma validate_in_wf order p :
  order ≡ₚ map_to_list (pol_ApproverGroups p) ->
  validate_in order (Some p) = None <-> policy_wf p.
Proof.
  intros Ho. unfold validate_in, policy_wf.
  rewrite first_error_none, !Forall_cons, Forall_nil, !eq_comm_none, !when_none, !first_error_none,
    !Forall_fmap, !bool_decide_eq_false, Ho, !Forall_forall.
  setoid_rewrite eq_comm_none. setoid_rewrite validate_rule_wf.
  assert ((forall x, x ∈ map_to_list (pol_ApproverGroups p) -> validate_group x = None)
          <-> forall name g, pol_ApproverGroups p !! name = Some g -> group_wf name g) as ->.
  { split.
    - intros H name g Hg. apply validate_group_wf, H. by apply elem_of_map_to_list.
    - intros H [name g] Hg. apply elem_of_map_to_list in Hg. apply validate_group_wf. eauto. }
  naive_solver.
Qed.

Lemma Validate_wf p : Validate p = None <-> policy_wf p.
Proof. by apply validate_in_wf. Qed.

#[export] Hint Resolve -> Validate_wf : gitscale.

(** ** Predicates *)

Lemma matchByPattern_dir actions kind field dir :
  Path.literal (s2l dir) ->
  matchByPattern actions kind field (dir +:+ "/*") = true
  <-> exists a rest, a ∈ actions /\ act_Kind a = kind
                     /\ map_get (act_Fields a) field = dir +:+ "/" +:+ rest.
Proof.
  intros Hlit. unfold matchByPattern. rewrite existsb_elem_of.
  assert (HasSuffix (dir +:+ "/*") "/*" = true) as Hs by (apply HasSuffix_spec; by eexists).
  assert (TrimSuffix (dir +:+ "/*") "*" = dir +:+ "/") as Ht.
  { replace (dir +:+ "/*") with ((dir +:+ "/") +:+ "*") by (by rewrite sapp_assoc).
    apply TrimSuffix_app. }
  assert (Path.literal (s2l (dir +:+ "/"))) as Hlit'.
  { rewrite s2l_app. apply Forall_app. split; [done|]. by repeat constructor. }
  assert (dir +:+ "/*" = (dir +:+ "/") +:+ "*") as Hp by (by rewrite sapp_assoc).
  setoid_rewrite andb_true_iff. setoid_rewrite bool_decide_eq_true.
  rewrite Hs, Ht. simpl.
  assert (forall v, bool_decide (dir +:+ "/*" = "") ||
     match Path.Match (dir +:+ "/*") v with Path.Matched => true | _ => false end
     || HasPrefix v (dir +:+ "/") = true <-> exists rest, v = dir +:+ "/" +:+ rest) as Hv.
  { intros v. rewrite !orb_true_iff, HasPrefix_spec, bool_decide_eq_true. split.
    - intros [[H|H]|[r ->]].
      + by destruct dir.
      + destruct (Path.Match _ v) eqn:E; try done. rewrite Hp in E.
        apply Path.Match_literal_star in E as (r & -> & _); [|done].
        exists r. by rewrite sapp_assoc.
      + exists r. by rewrite sapp_assoc.
    - intros [r ->]. right. exists r. by rewrite sapp_assoc. }
  setoid_rewrite Hv. naive_solver.
Qed.

(** ** Properties *)

(** [Validate] accepts a policy exactly when it is structurally well
    formed (named, with rules; groups keyed by their own name with
    [0 < required <= members] and no zero UUID; rules of a known kind with
    positive expiry, a positive threshold for bulk rules and a non-empty
    ladder whose rungs name declared groups, have a positive SLA, a known
    timeout disposition and no fall_back on the first rung), whatever order
    the approver-group map is visited in. *)
Theorem Validate_accepts_iff_wf p order :
  order ≡ₚ map_to_list (pol_ApproverGroups p) ->
  validate_in order (Some p) = None <-> policy_wf p.
Proof. apply validate_in_wf. Qed.

(** The code [Validate] reports is not stable: it ranges over a Go map,
    and there is a policy for which two iteration orders report two different
    codes. *)
Theorem Validate_code_depends_on_map_order :
  exists p o1 o2,
    o1 ≡ₚ map_to_list (pol_ApproverGroups p) /\ o2 ≡ₚ map_to_list (pol_ApproverGroups p)
    /\ validate_in o1 (Some p) = Some CodeZeroRequiredCount
    /\ validate_in o2 (Some p) = Some CodeRequiredCountTooLarge.
Proof.
  set (g1 := ("a", mkApproverGroup "a" [] 0)). set (g2 := ("b", mkApproverGroup "b" [] 1)).
  exists (mkPolicy 1 1 None "p" 1 [mkRule "pr_merge" ∅ None [] 60] (list_to_map [g1; g2])), [g1; g2], [g2; g1].
  assert ([g1; g2] ≡ₚ map_to_list (list_to_map [g1; g2] : gmap string ApproverGroup)) as H.
  { symmetry. apply map_to_list_to_map. repeat constructor; set_solver. }
  split; [exact H|]. split; [rewrite <- H; apply Permutation_swap|]. done.
Qed.

(** A force_push rule whose ref_pattern is a literal directory followed by
    ["/*"] fires exactly when some force_push action's ref lies strictly under
    that directory, at any depth. *)
Theorem matchRule_force_push_dir r actions proposer dir :
  rule_Kind r = PredicateForcePush -> map_get (rule_Match r) "ref_pattern" = dir +:+ "/*" ->
  Path.literal (s2l dir) ->
  matchRule r actions proposer = true
  <-> exists a rest, a ∈ actions /\ act_Kind a = "force_push"
                     /\ map_get (act_Fields a) "ref" = dir +:+ "/" +:+ rest.
Proof.
  intros Hk Hm Hl. unfold matchRule. rewrite Hk, Hm. simpl. by apply matchByPattern_dir.
Qed.

Definition sample_group : ApproverGroup := mkApproverGroup "leads" [11; 12; 13] 2.
Definition sample_rung : EscalationRung := mkRung "leads" 60 OnTimeoutNotifyNext.
Definition sample_rung2 : EscalationRung := mkRung "leads" 60 OnTimeoutFallBack.
Definition sample_rule : Rule :=
  mkRule PredicateForcePush {["ref_pattern" := "refs/heads/release/*"]} None [sample_rung; sample_rung2] 3600.
Definition sample_policy : Policy :=
  mkPolicy 100 1 None "protect" 1 [sample_rule; mkRule PredicateAgentDefault ∅ None [sample_rung] 3600]
    {["leads" := sample_group]}.
Definition sample_action : Action := mkAction "force_push" {["ref" := "refs/heads/release/v1/x"]}.

Lemma Validate_accepts_iff_wf_witness :
  validate_in [("leads", sample_group)] (Some sample_policy) = None <-> policy_wf sample_policy.
Proof. apply Validate_accepts_iff_wf. vm_compute. reflexivity. Defined.

Lemma matchRule_force_push_dir_witness :
  matchRule sample_rule [sample_action] ProposerKindAgent = true
  <-> exists a rest, a ∈ [sample_action] /\ act_Kind a = "force_push"
        /\ map_get (act_Fields a) "ref" = "refs/heads/release" +:+ "/" +:+ rest.
Proof.
  apply matchRule_force_push_dir; [reflexivity | vm_compute; reflexivity |].
  vm_compute. repeat constructor.
Defined.
