(* ===== verification/AuditLog.v ===== *)
(** * The hash-chained audit log of the policy service

    Models [plane/application/policy/audit.go].  The bytes of a
    [json.RawMessage] are represented by what [json.Unmarshal] makes of them:
    nothing, an error, or a value. *)

From S2P Require Import Prelude GoStd Sha256 Json Policy.

Definition AuditEventKind := string.
Definition AuditEventSubmitted : AuditEventKind := "submitted".
Definition AuditEventApproved : AuditEventKind := "approved".
Definition AuditEventRejected : AuditEventKind := "rejected".
Definition AuditEventEscalated : AuditEventKind := "escalated".
Definition AuditEventExpired : AuditEventKind := "expired".
Definition AuditEventAutoApprovedNoRule : AuditEventKind := "auto_approved_no_rule".
Definition AuditEventAutoDenied : AuditEventKind := "auto_denied".

Definition AuditEventKind_IsValid (k : AuditEventKind) : bool :=
  bool_decide (k ∈ [AuditEventSubmitted; AuditEventApproved; AuditEventRejected;
    AuditEventEscalated; AuditEventExpired; AuditEventAutoApprovedNoRule; AuditEventAutoDenied]).

Definition ActorKind := string.
Definition ActorKindHuman : ActorKind := "human".
Definition ActorKindAgent : ActorKind := "agent".
Definition ActorKindService : ActorKind := "service".
Definition ActorKindSystem : ActorKind := "system".

Definition ActorKind_IsValid (k : ActorKind) : bool :=
  bool_decide (k ∈ [ActorKindHuman; ActorKindAgent; ActorKindService; ActorKindSystem]).

Inductive RawMessage :=
| RawEmpty
| RawInvalid
| RawJSON (v : json).

Record AuditRow := mkAuditRow {
  row_ID : Z;
  row_PolicyID : uuid;
  row_PlanID : option uuid;
  row_EventKind : AuditEventKind;
  row_ActorID : option uuid;
  row_ActorKind : ActorKind;
  row_Payload : RawMessage;
  row_PrevHash : digest;
  row_RowHash : digest;
  row_CreatedAt : time
}.

Definition GenesisHash : digest := replicate 32 (chr 0).

Inductive audit_error := ErrPayloadNotJSON.

(** Object members in key order: [keys] sorted, each with its value. *)
Definition key_le {A} (a b : string * A) : Prop := String.le a.1 b.1.
#[export] Instance key_le_dec {A} : RelDecision (@key_le A).
Proof. intros a b. unfold key_le. apply _. Defined.

Fixpoint canonicalize (v : json) : list ascii :=
  match v with
  | JObj m =>
      s2l "{" ++
      join_bytes comma
        ((fun kv => marshal_string kv.1 ++ s2l ":" ++ kv.2)
         <$> merge_sort key_le (map (fun kv => (kv.1, canonicalize kv.2)) m))
      ++ s2l "}"
  | JArr l => s2l "[" ++ join_bytes comma (map canonicalize l) ++ s2l "]"
  | JNull => s2l "null"
  | JBool b => marshal_bool b
  | JNum n => marshal_int n
  | JStr s => marshal_string s
  end.

Definition CanonicalPayload (payload : RawMessage) : result audit_error (list ascii) :=
  match payload with
  | RawEmpty => Ok (s2l "null")
  | RawInvalid => Err ErrPayloadNotJSON
  | RawJSON v => Ok (canonicalize v)
  end.

Definition unit_separator : ascii := chr 31.

Definition actor_bytes (id : option uuid) : list ascii :=
  match id with Some u => be_bytes 16 u | None => replicate 16 (chr 0) end.

(** What [ComputeRowHash] writes into the hash. *)
Definition row_message (prev : digest) (canon : list ascii) (r : AuditRow) : list ascii :=
  prev ++ canon ++ s2l (row_ActorKind r) ++ [unit_separator] ++ s2l (row_EventKind r)
  ++ [unit_separator] ++ actor_bytes (row_ActorID r) ++ be_bytes 8 (row_CreatedAt r).

Definition ComputeRowHash (prev : digest) (r : AuditRow) : result audit_error digest :=
  let? canon := CanonicalPayload (row_Payload r) in
  Ok (Sum256 (row_message prev canon r)).

Inductive chain_error :=
| PrevHashMismatch
| RowHashMismatch
| RowHashFailed (e : audit_error).

(** The loop of [VerifyChain], from row [i] on. *)
Fixpoint verify_from (i : Z) (prev : digest) (rows : list AuditRow) : Z * option chain_error :=
  match rows with
  | [] => (-1, None)
  | r :: rows' =>
      if bool_decide (row_PrevHash r <> prev) then (i, Some PrevHashMismatch)
      else
        match ComputeRowHash prev r with
        | Err e => (i, Some (RowHashFailed e))
        | Ok got =>
            if bool_decide (got <> row_RowHash r) then (i, Some RowHashMismatch)
            else verify_from (i + 1) got rows'
        end
  end.

Definition VerifyChain (rows : list AuditRow) : Z * option chain_error :=
  verify_from 0 GenesisHash rows.

(** [wall] is the reading of [time.Now] used for a row with no timestamp. *)
Definition AppendRow (wall : time) (prev : digest) (r : AuditRow) : result audit_error AuditRow :=
  let created := if IsZero (row_CreatedAt r) then wall else row_CreatedAt r in
  let stamped (h : digest) :=
    mkAuditRow (row_ID r) (row_PolicyID r) (row_PlanID r) (row_EventKind r) (row_ActorID r)
      (row_ActorKind r) (row_Payload r) prev h created in
  let? hash := ComputeRowHash prev (stamped (row_RowHash r)) in
  Ok (stamped hash).

(** ** The chain invariant *)

Definition last_hash (rows : list AuditRow) : digest :=
  match last rows with Some r => row_RowHash r | None => GenesisHash end.

Definition chain_valid (rows : list AuditRow) : Prop := VerifyChain rows = (-1, None).

(** Row [r] is a correctly hashed successor of a row with hash [prev]. *)
Definition row_ok (prev : digest) (r : AuditRow) : Prop :=
  row_PrevHash r = prev /\ ComputeRowHash prev r = Ok (row_RowHash r).

Inductive chained : digest -> list AuditRow -> Prop :=
| chained_nil prev : chained prev []
| chained_cons prev r rows : row_ok prev r -> chained (row_RowHash r) rows -> chained prev (r :: rows).

Lemma verify_from_chained i prev rows :
  0 <= i -> verify_from i prev rows = (-1, None) <-> chained prev rows.
Proof.
  revert i prev. induction rows as [|r rows IH]; intros i prev Hi; simpl.
  { split; constructor. }
  case_bool_decide as Hp.
  { split; [done|]. inversion 1 as [|??? []]; subst. done. }
  destruct (ComputeRowHash prev r) as [got|e] eqn:E.
  - case_bool_decide as Hg.
    + split; [by intros [= ->]|]. inversion 1 as [|??? [? H2]]; subst. congruence.
    + subst got. rewrite IH by lia. split.
      * intros. by constructor.
      * by inversion 1.
  - split; [by intros [= ->]|]. inversion 1 as [|??? [? H2]]; subst. congruence.
Qed.

Lemma chain_valid_chained rows : chain_valid rows <-> chained GenesisHash rows.
Proof. apply verify_from_chained. lia. Qed.

Definition hash_after (prev : digest) (rows : list AuditRow) : digest :=
  match last rows with Some r => row_RowHash r | None => prev end.

Lemma hash_after_cons prev r rows : hash_after prev (r :: rows) = hash_after (row_RowHash r) rows.
Proof.
  unfold hash_after. rewrite last_cons. by destruct (last rows).
Qed.

Lemma chained_snoc prev rows r :
  chained prev rows -> row_ok (hash_after prev rows) r -> chained prev (rows ++ [r]).
Proof.
  induction 1 as [prev|prev r' rows H1 H2 IH]; intros Hr; simpl; [by constructor; [|constructor]|].
  rewrite hash_after_cons in Hr. constructor; auto.
Qed.

Lemma AppendRow_ok wall prev r r' : AppendRow wall prev r = Ok r' -> row_ok prev r'.
Proof. unfold AppendRow. intros H. case_split_in H. split; [done|]. simpl. done. Qed.

Lemma chain_valid_append wall rows r r' :
  chain_valid rows -> AppendRow wall (last_hash rows) r = Ok r' -> chain_valid (rows ++ [r']).
Proof.
  rewrite !chain_valid_chained. intros Hc Ha. apply chained_snoc; [done|].
  by eapply AppendRow_ok.
Qed.

#[export] Hint Resolve chain_valid_append : gitscale.

(** ** Tamper evidence *)

Lemma chained_snoc_inv prev rows r :
  chained prev (rows ++ [r]) -> chained prev rows /\ row_ok (hash_after prev rows) r.
Proof.
  revert prev. induction rows as [|r' rows IH]; intros prev; simpl.
  - inversion 1; subst. split; [constructor|done].
  - inversion 1; subst. apply IH in H4 as [??]. rewrite hash_after_cons. split; [by constructor|done].
Qed.

Lemma row_ok_hash_length prev r : row_ok prev r -> length (row_RowHash r) = 32%nat.
Proof.
  intros [_ H]. unfold ComputeRowHash in H. case_split_in H. rewrite <- H. apply Sum256_length.
Qed.

Lemma chained_hash_length prev rows :
  length prev = 32%nat -> chained prev rows -> length (hash_after prev rows) = 32%nat.
Proof.
  intros Hl Hc. revert Hl. induction Hc as [|prev r rows H1 H2 IH]; intros Hl; [done|].
  rewrite hash_after_cons. apply IH. by eapply row_ok_hash_length.
Qed.

(** The fields of a row that its hash covers. *)
Definition covered (r : AuditRow) :=
  (CanonicalPayload (row_Payload r), row_ActorKind r, row_EventKind r,
   actor_bytes (row_ActorID r), be_bytes 8 (row_CreatedAt r), row_PrevHash r, row_RowHash r).

(** What the hash covers of them: payload and actor kind run together, no
    separator being written between the two. *)
Definition run_together (r : AuditRow) (canon : list ascii) : list ascii :=
  canon ++ s2l (row_ActorKind r) ++ [unit_separator] ++ s2l (row_EventKind r).
Definition covered_text (r : AuditRow) :=
  (match CanonicalPayload (row_Payload r) with Ok c => Some (run_together r c) | Err _ => None end,
   actor_bytes (row_ActorID r), be_bytes 8 (row_CreatedAt r), row_PrevHash r, row_RowHash r).

(** Kinds among the declared ones; [VerifyChain] does not look. *)
Definition kinds_valid (r : AuditRow) : Prop :=
  ActorKind_IsValid (row_ActorKind r) = true /\ AuditEventKind_IsValid (row_EventKind r) = true.

(** What was hashed for a row. *)
Definition hashed (r : AuditRow) : list (list ascii) :=
  match CanonicalPayload (row_Payload r) with Ok c => [row_message (row_PrevHash r) c r] | Err _ => [] end.

Lemma length_actor_bytes id : length (actor_bytes id) = 16%nat.
Proof. destruct id; [apply length_be_bytes | done]. Qed.

(** Splitting at the last separator. *)
Lemma split_last_sep {A} (s : A) x1 x2 e1 e2 :
  s ∉ e1 -> s ∉ e2 -> x1 ++ s :: e1 = x2 ++ s :: e2 -> x1 = x2 /\ e1 = e2.
Proof.
  revert x2. induction x1 as [|a x1 IH]; intros [|b x2] H1 H2 E; injection E as H.
  - by subst.
  - destruct H1. rewrite H0. apply elem_of_app. right. left.
  - destruct H2. rewrite <- H0. apply elem_of_app. right. left.
  - apply IH in H0 as [-> ->]; subst; auto.
Qed.

Lemma actor_kind_suffix c1 c2 k1 k2 :
  ActorKind_IsValid k1 = true -> ActorKind_IsValid k2 = true ->
  c1 ++ s2l k1 = c2 ++ s2l k2 -> c1 = c2 /\ k1 = k2.
Proof.
  unfold ActorKind_IsValid. intros H1 H2 H. reflect_bools.
  assert (last (c1 ++ s2l k1) = last (c2 ++ s2l k2)) as HL by congruence.
  rewrite !last_app in HL.
  assert (k1 = k2) as ->.
  { rewrite !elem_of_cons, elem_of_nil in H1, H2.
    destruct H1 as [->|[->|[->|[->|[]]]]], H2 as [->|[->|[->|[->|[]]]]]; by vm_compute in HL. }
  by apply app_inv_tail in H.
Qed.

Lemma event_kind_no_sep k : AuditEventKind_IsValid k = true -> unit_separator ∉ s2l k.
Proof.
  unfold AuditEventKind_IsValid. intros H. reflect_bools.
  rewrite !elem_of_cons, elem_of_nil in H.
  destruct H as [->|[->|[->|[->|[->|[->|[->|[]]]]]]]];
    apply (bool_decide_unpack _); vm_compute; exact I.
Qed.

Lemma row_message_inj p1 p2 c1 c2 r1 r2 :
  length p1 = 32%nat -> length p2 = 32%nat -> row_message p1 c1 r1 = row_message p2 c2 r2 ->
  p1 = p2 /\ run_together r1 c1 = run_together r2 c2
  /\ actor_bytes (row_ActorID r1) = actor_bytes (row_ActorID r2)
  /\ be_bytes 8 (row_CreatedAt r1) = be_bytes 8 (row_CreatedAt r2).
Proof.
  intros L1 L2 H. unfold row_message in H. apply app_inj_1 in H as [-> H]; [|congruence].
  rewrite !app_assoc in H. apply app_inj_2 in H as [H ->]; [|by rewrite !length_be_bytes].
  apply app_inj_2 in H as [H ->]; [|by rewrite !length_actor_bytes].
  apply app_inj_2 in H as [H _]; [|done]. unfold run_together. by rewrite !app_assoc.
Qed.

Lemma run_together_inj c1 c2 r1 r2 :
  kinds_valid r1 -> kinds_valid r2 -> run_together r1 c1 = run_together r2 c2 ->
  c1 = c2 /\ row_ActorKind r1 = row_ActorKind r2 /\ row_EventKind r1 = row_EventKind r2.
Proof.
  intros [A1 E1] [A2 E2] H. unfold run_together in H. rewrite !app_assoc in H.
  rewrite <- !(app_assoc _ [unit_separator]) in H. simpl in H.
  apply split_last_sep in H as [H Hek]; [|by apply event_kind_no_sep..].
  apply actor_kind_suffix in H as [-> ->]; auto.
  apply s2l_inj in Hek. auto.
Qed.

Lemma row_ok_covered_inj p1 p2 r1 r2 :
  length p1 = 32%nat -> length p2 = 32%nat ->
  row_ok p1 r1 -> row_ok p2 r2 -> row_RowHash r1 = row_RowHash r2 ->
  (p1 = p2 /\ covered_text r1 = covered_text r2) \/ collide (hashed r1) (hashed r2).
Proof.
  intros L1 L2 [<- H1] [<- H2] Hh. unfold ComputeRowHash in *.
  destruct (CanonicalPayload (row_Payload r1)) as [c1|] eqn:C1; [|done].
  destruct (CanonicalPayload (row_Payload r2)) as [c2|] eqn:C2; [|done].
  destruct (decide (row_message (row_PrevHash r1) c1 r1 = row_message (row_PrevHash r2) c2 r2)) as [E|NE].
  - apply row_message_inj in E as (? & ? & ? & ?); auto.
    left. split; [done|]. unfold covered_text. rewrite C1, C2. congruence.
  - right. unfold hashed. rewrite C1, C2. exists (row_message (row_PrevHash r1) c1 r1), (row_message (row_PrevHash r2) c2 r2).
    split_and!; [by left|by left|done|congruence].
Qed.

Lemma chained_covered_inj rows1 rows2 :
  chained GenesisHash rows1 -> chained GenesisHash rows2 ->
  length rows1 = length rows2 -> hash_after GenesisHash rows1 = hash_after GenesisHash rows2 ->
  covered_text <$> rows1 = covered_text <$> rows2 \/ collide (rows1 ≫= hashed) (rows2 ≫= hashed).
Proof.
  revert rows2. induction rows1 as [|r1 rows1 IH] using rev_ind; intros rows2 C1 C2 HL HH.
  { left. by destruct rows2. }
  destruct rows2 as [|r2 rows2 _] using rev_ind.
  { rewrite length_app in HL. simpl in HL. lia. }
  apply chained_snoc_inv in C1 as [C1 R1], C2 as [C2 R2].
  assert (length GenesisHash = 32%nat) as HG by done.
  rewrite !length_app in HL. unfold hash_after in HH at 1 2. rewrite !last_snoc in HH.
  destruct (row_ok_covered_inj _ _ _ _ (chained_hash_length _ _ HG C1)
              (chained_hash_length _ _ HG C2) R1 R2 HH) as [[HP HC]|Hc].
  2:{ right. eapply collide_mono; [| |exact Hc]; rewrite bind_app; cbn; rewrite app_nil_r; set_solver. }
  destruct (IH rows2) as [HE|Hc]; auto; [simpl in *; lia| |].
  2:{ right. eapply collide_mono; [| |exact Hc]; rewrite bind_app; set_solver. }
  left. rewrite !fmap_app. simpl. congruence.
Qed.

Lemma row_ok_canonical prev r : row_ok prev r -> exists c, CanonicalPayload (row_Payload r) = Ok c.
Proof. intros [_ H]. unfold ComputeRowHash in H. destruct (CanonicalPayload _) as [c|]; [by exists c|done]. Qed.

Lemma covered_text_covered rows1 : forall rows2 p1 p2,
  chained p1 rows1 -> chained p2 rows2 -> Forall kinds_valid rows1 -> Forall kinds_valid rows2 ->
  covered_text <$> rows1 = covered_text <$> rows2 -> covered <$> rows1 = covered <$> rows2.
Proof.
  induction rows1 as [|r1 rows1 IH]; intros [|r2 rows2] p1 p2 C1 C2 K1 K2 HT; [done..|]. inversion_clear C1 as [|??? R1 T1]. inversion_clear C2 as [|??? R2 T2].
  apply Forall_cons in K1 as [K1 Kr1], K2 as [K2 Kr2]. cbn [fmap list_fmap] in HT |- *. apply (inj2 cons) in HT as [Hr HT]. f_equal; [|by eapply IH].
  destruct (row_ok_canonical _ _ R1) as [c1 E1], (row_ok_canonical _ _ R2) as [c2 E2]. unfold covered, covered_text in *. rewrite E1, E2 in *.
  rewrite !pair_equal_spec in Hr |- *. destruct Hr as ((((Hx & Ha) & Hb) & Hp) & Hh). injection Hx as Hj. apply run_together_inj in Hj as (-> & -> & ->); [|done..]. done.
Qed.

(** Changing the [ID], [PolicyID] and [PlanID] columns of rows. *)
Definition relabel (f : AuditRow -> Z * uuid * option uuid) (r : AuditRow) : AuditRow :=
  mkAuditRow (f r).1.1 (f r).1.2 (f r).2 (row_EventKind r) (row_ActorID r) (row_ActorKind r)
    (row_Payload r) (row_PrevHash r) (row_RowHash r) (row_CreatedAt r).

Lemma verify_from_relabel f i prev rows :
  verify_from i prev (relabel f <$> rows) = verify_from i prev rows.
Proof.
  revert i prev. induction rows as [|r rows IH]; intros i prev; [done|]. simpl.
  change (ComputeRowHash prev (relabel f r)) with (ComputeRowHash prev r).
  destruct (ComputeRowHash prev r); by rewrite ?IH.
Qed.

(** ** Canonical payloads do not depend on member order *)

(** The same JSON value with object members listed in another order. *)
Inductive json_same : json -> json -> Prop :=
| same_refl v : json_same v v
| same_arr l1 l2 : Forall2 json_same l1 l2 -> json_same (JArr l1) (JArr l2)
| same_obj m1 m2 m2' :
    m1 ≡ₚ m2 ->
    Forall2 (fun kv1 kv2 : string * json => kv1.1 = kv2.1 /\ json_same kv1.2 kv2.2) m2 m2' ->
    json_same (JObj m1) (JObj m2').

(** No object of the value has a duplicate key (a Go map never has). *)
Inductive keys_unique : json -> Prop :=
| ku_null : keys_unique JNull
| ku_bool b : keys_unique (JBool b)
| ku_num n : keys_unique (JNum n)
| ku_str s : keys_unique (JStr s)
| ku_arr l : Forall keys_unique l -> keys_unique (JArr l)
| ku_obj m : NoDup m.*1 -> Forall (fun kv => keys_unique kv.2) m -> keys_unique (JObj m).

#[export] Instance key_le_total {A} : Total (@key_le A).
Proof. intros a b. apply String.le_total. Qed.
#[export] Instance key_le_trans {A} : Transitive (@key_le A).
Proof. intros a b c. unfold key_le. apply transitivity. Qed.

Lemma key_sort_unique {A} (l1 l2 : list (string * A)) :
  NoDup l1.*1 -> l1 ≡ₚ l2 -> merge_sort key_le l1 = merge_sort key_le l2.
Proof.
  intros Hnd Hp.
  assert (forall a b, a ∈ l1 -> b ∈ l1 -> key_le a b -> key_le b a -> a = b) as Hanti.
  { intros a b Ha Hb H1 H2. assert (a.1 = b.1) as E by by apply (anti_symm String.le).
    apply list_elem_of_lookup in Ha as [i Hi], Hb as [j Hj].
    assert (i = j) as ->; [|congruence].
    apply (NoDup_lookup _ i j a.1 Hnd).
    - by rewrite list_lookup_fmap, Hi.
    - rewrite list_lookup_fmap, Hj. by rewrite E. }
  eapply (StronglySorted_unique_strong key_le).
  - intros a b Ha Hb. rewrite merge_sort_Permutation in Ha. rewrite merge_sort_Permutation, <- Hp in Hb. auto.
  - apply StronglySorted_merge_sort; apply _.
  - apply StronglySorted_merge_sort; apply _.
  - by rewrite !merge_sort_Permutation.
Qed.

Lemma canonicalize_same v1 v2 :
  json_same v1 v2 -> keys_unique v1 -> canonicalize v1 = canonicalize v2.
Proof.
  revert v2. induction v1 as [| | | |l IH|m IH] using json_ind; intros v2 Hs Hk;
    inversion Hs as [|? l2 Hf|? m2 m2' Hp Hf]; subst; try done.
  - simpl. do 3 f_equal. inversion Hk as [| | | |? Hk'|]; subst. clear Hs Hk.
    induction Hf as [|x y l l2 Hxy Hf IHf]; [done|]. inversion IH; subst. inversion Hk'; subst.
    simpl. f_equal; auto.
  - simpl. inversion Hk as [| | | | |? Hnd Hk']; subst. do 4 f_equal.
    assert (map (fun kv => (kv.1, canonicalize kv.2)) m2 =
            map (fun kv => (kv.1, canonicalize kv.2)) m2') as <-.
    { rewrite Hp in IH, Hk'. clear Hs Hk Hp Hnd. induction Hf as [|x y l l2 [Hk Hxy] Hf IHf]; [done|].
      inversion IH; subst. inversion Hk'; subst. simpl. f_equal; [|by auto]. f_equal; auto. }
    apply key_sort_unique; [|by rewrite Hp].
    assert ((map (fun kv => (kv.1, canonicalize kv.2)) m).*1 = m.*1) as ->; [|done].
    clear. induction m as [|kv m IH]; [done|]. csimpl. by rewrite IH.
Qed.

(** ** Properties *)

(** Appending to a verified chain with [AppendRow] under the hash of its
    last row gives a chain that [VerifyChain] accepts again, and [AppendRow]
    succeeds exactly when the payload is JSON (or empty). *)
Theorem AppendRow_extends_chain wall rows r :
  chain_valid rows ->
  match AppendRow wall (last_hash rows) r with
  | Ok r' => chain_valid (rows ++ [r']) /\ row_Payload r <> RawInvalid
  | Err _ => row_Payload r = RawInvalid
  end.
Proof.
  intros Hc. destruct (AppendRow wall (last_hash rows) r) as [r'|e] eqn:E.
  - split; [by eauto with gitscale|]. intros Hp. unfold AppendRow, ComputeRowHash in E.
    simpl in E. by rewrite Hp in E.
  - unfold AppendRow, ComputeRowHash in E. simpl in E. by destruct (row_Payload r).
Qed.

(** C3: Two audit chains that [VerifyChain] accepts, of the same length and
    ending in the same row hash, agree in every row on the links, the actor,
    the timestamp and on the text hashed of payload, actor kind and event kind,
    of which no separator parts the first two, unless two of the messages hashed for their rows collide; when
    the kinds in both chains are among the declared ones, which [VerifyChain]
    does not check, they agree on payload and on each kind. *)
Theorem audit_chain_tamper_evident rows1 rows2 :
  chain_valid rows1 -> chain_valid rows2 ->
  length rows1 = length rows2 -> last_hash rows1 = last_hash rows2 ->
  (covered_text <$> rows1 = covered_text <$> rows2 /\
   (Forall kinds_valid rows1 -> Forall kinds_valid rows2 -> covered <$> rows1 = covered <$> rows2)) \/
  collide (rows1 ≫= hashed) (rows2 ≫= hashed).
Proof.
  rewrite !chain_valid_chained. intros C1 C2 HL HH. destruct (chained_covered_inj _ _ C1 C2 HL HH) as [E|Hc]; [left|by right].
  split; [done|]. intros K1 K2. by eapply covered_text_covered.
Qed.

(** The hash does not cover the [ID], [PolicyID] and [PlanID] columns:
    rewriting them arbitrarily in every row leaves the verdict of
    [VerifyChain] unchanged, so a row can be re-attributed to another plan
    without the chain breaking. *)
Theorem VerifyChain_ignores_plan_columns f rows :
  VerifyChain (relabel f <$> rows) = VerifyChain rows.
Proof. apply verify_from_relabel. Qed.

(** [canonicalize] depends only on the JSON value: listing the members of
    objects in another order, at any depth, gives the same bytes (keys being
    unique, as in a Go map). *)
Theorem canonicalize_member_order v1 v2 :
  json_same v1 v2 -> keys_unique v1 -> canonicalize v1 = canonicalize v2.
Proof. apply canonicalize_same. Qed.

(** A two-row chain built by [AppendRow]. *)
Definition sample_row (k : AuditEventKind) (v : json) : AuditRow :=
  mkAuditRow 1 7 (Some 9) k (Some 5) ActorKindHuman (RawJSON v) [] [] 1000.
Definition append_all (rows : list AuditRow) : list AuditRow :=
  fold_left (fun acc r =>
    match AppendRow 0 (last_hash acc) r with Ok r' => acc ++ [r'] | Err _ => acc end) rows [].
Definition sample_chain : list AuditRow :=
  append_all [sample_row AuditEventSubmitted (JObj [("rung", JNum 0); ("a", JStr "x")]);
              sample_row AuditEventApproved (JObj [("rung", JNum 0)])].

Lemma AppendRow_extends_chain_witness :
  match AppendRow 0 (last_hash sample_chain) (sample_row AuditEventApproved JNull) with
  | Ok r' => chain_valid (sample_chain ++ [r'])
             /\ row_Payload (sample_row AuditEventApproved JNull) <> RawInvalid
  | Err _ => row_Payload (sample_row AuditEventApproved JNull) = RawInvalid
  end.
Proof. apply AppendRow_extends_chain. vm_compute. reflexivity. Defined.

Lemma audit_chain_tamper_evident_witness :
  let other := relabel (fun _ => (3, 4, None)) <$> sample_chain in
  (covered_text <$> sample_chain = covered_text <$> other /\
   (Forall kinds_valid sample_chain -> Forall kinds_valid other -> covered <$> sample_chain = covered <$> other)) \/
  collide (sample_chain ≫= hashed) (other ≫= hashed).
Proof. apply audit_chain_tamper_evident; vm_compute; reflexivity. Defined.

(** With kinds that are not declared, two different chains are accepted under one
    hash: actor kind "human" after the payload 12, "2human" after 1. *)
Example kinds_blur :
  let row kind n := mkAuditRow 1 7 (Some 9) AuditEventSubmitted (Some 5) kind (RawJSON (JNum n)) [] [] 1000 in
  match AppendRow 0 GenesisHash (row "human" 12), AppendRow 0 GenesisHash (row "2human" 1) with
  | Ok r1, Ok r2 => (VerifyChain [r1], VerifyChain [r2], bool_decide (row_RowHash r1 = row_RowHash r2), bool_decide (row_ActorKind r1 = row_ActorKind r2))
  | _, _ => ((0, None), (0, None), false, true)
  end = ((-1, None), (-1, None), true, false).
Proof. vm_compute. reflexivity. Qed.

Lemma canonicalize_member_order_witness :
  canonicalize (JObj [("b", JNum 1); ("a", JArr [JNull])])
  = canonicalize (JObj [("a", JArr [JNull]); ("b", JNum 1)]).
Proof.
  apply canonicalize_member_order.
  - eapply same_obj; [apply Permutation_swap|]. repeat constructor.
  - repeat constructor; set_solver.
Defined.
