(* ===== verification/Engine.v ===== *)
(** * The policy engine

    Models [plane/application/policy/engine.go]: [Engine.SubmitPlan] against
    the interfaces [PolicyLoader] and [PlanRecorder], here one class over the
    backend's state.  [uuid.New] is an argument. *)

From S2P Require Import Prelude GoStd Sha256 Json Policy AuditLog.

(** The errors of the package, up to message text and wrapping. *)
Inductive policy_error :=
| ErrNilPlan
| ErrInvalidProposerKind
| ErrPolicyNotFound
| ErrValidation (code : ValidationError)
| ErrAudit (e : audit_error)
| ErrAPI (code : string)
| ErrPanic.
(** [ErrPanic] is an index out of range, which aborts the Go program. *)

Class PolicyBackend (S : Type) := {
  LoadPolicy : S -> uuid -> option uuid -> result policy_error (option Policy);
  RecordSubmission : S -> Plan -> Decision -> S * option policy_error
}.

(** The first rule that matches, with its index. *)
Fixpoint first_match (i : Z) (rules : list Rule) (actions : list Action) (proposer : ProposerKind)
  : option (Z * Rule) :=
  match rules with
  | [] => None
  | r :: rules' =>
      if matchRule r actions proposer then Some (i, r)
      else first_match (i + 1) rules' actions proposer
  end.

Definition set_PolicyID (p : Plan) (id : uuid) : Plan :=
  mkPlan (plan_ID p) (plan_OrgID p) (plan_RepoID p) id (plan_ProposerID p) (plan_ProposerKind p)
    (plan_Actions p) (plan_PlanHash p) (plan_CreatedAt p).

Definition set_ID (p : Plan) (id : uuid) : Plan :=
  mkPlan id (plan_OrgID p) (plan_RepoID p) (plan_PolicyID p) (plan_ProposerID p)
    (plan_ProposerKind p) (plan_Actions p) (plan_PlanHash p) (plan_CreatedAt p).

(** The plan as [SubmitPlan] stamps it in place: policy, hash, identifier. *)
Definition stamp_plan (fresh : uuid) (pol : Policy) (p : Plan) : Plan :=
  let p := ComputePlanHash (set_PolicyID p (pol_ID pol)) in
  if bool_decide (plan_ID p = uuid_Nil) then set_ID p fresh else p.

Definition decide_plan (pol : Policy) (p : Plan) : Decision :=
  match first_match 0 (pol_Rules pol) (plan_Actions p) (plan_ProposerKind p) with
  | Some (i, r) =>
      mkDecision (plan_ID p) PlanStatusPending false i (rule_Ladder r) (rule_ExpirySeconds r)
  | None => mkDecision (plan_ID p) PlanStatusAutoApprovedNoRule true (-1) [] 0
  end.

Section engine.
Context {S : Type} `{PolicyBackend S}.

(** [Engine.SubmitPlan]: the backend's state and the plan after the call, and
    the decision or the error. *)
Definition Engine_SubmitPlan (fresh : uuid) (st : S) (plan : option Plan)
  : S * option Plan * result policy_error Decision :=
  match plan with
  | None => (st, None, Err ErrNilPlan)
  | Some p =>
      if negb (ProposerKind_IsValid (plan_ProposerKind p))
      then (st, Some p, Err ErrInvalidProposerKind)
      else
        match LoadPolicy st (plan_OrgID p) (plan_RepoID p) with
        | Err e => (st, Some p, Err e)
        | Ok None => (st, Some p, Err ErrPolicyNotFound)
        | Ok (Some pol) =>
            match Validate pol with
            | Some c => (st, Some p, Err (ErrValidation c))
            | None =>
                let p := stamp_plan fresh pol p in
                let d := decide_plan pol p in
                match RecordSubmission st p d with
                | (st', Some e) => (st', Some p, Err e)
                | (st', None) => (st', Some p, Ok d)
                end
            end
        end
  end.
End engine.

Lemma first_match_some i rules actions k j r :
  first_match i rules actions k = Some (j, r) <->
  exists n, j = i + Z.of_nat n /\ rules !! n = Some r /\ matchRule r actions k = true
    /\ forall m r', (m < n)%nat -> rules !! m = Some r' -> matchRule r' actions k = false.
Proof.
  revert i. induction rules as [|r0 rules IH]; intros i; simpl.
  { split; [done|]. intros (n & _ & Hn & _). by rewrite lookup_nil in Hn. }
  destruct (matchRule r0 actions k) eqn:E.
  - split.
    + intros [= <- <-]. exists 0%nat. repeat split; [lia|done|lia].
    + intros (n & -> & Hn & Hm & Hlt). destruct n as [|n]; simpl in Hn; [simplify_eq; f_equal; f_equal; lia|].
      specialize (Hlt 0%nat r0 ltac:(lia) eq_refl). congruence.
  - rewrite IH. split; intros (n & -> & Hn & Hm & Hlt).
    + exists (S n). repeat split; [lia|done|done|]. intros [|m] r' Hmn Hr'; simpl in Hr'; [congruence|].
      apply (Hlt m); [lia|done].
    + destruct n as [|n]; simpl in Hn; [congruence|]. exists n. repeat split; [lia|done|done|].
      intros m r' Hmn Hr'. apply (Hlt (S m)); [lia|done].
Qed.

Lemma first_match_none i rules actions k :
  first_match i rules actions k = None <-> forall r, r ∈ rules -> matchRule r actions k = false.
Proof.
  revert i. induction rules as [|r0 rules IH]; intros i; simpl.
  { split; [|done]. intros _ r Hr. by apply elem_of_nil in Hr. }
  destruct (matchRule r0 actions k) eqn:E.
  - split; [done|]. intros H. rewrite (H r0) in E; [done|]. left.
  - rewrite IH. setoid_rewrite elem_of_cons. naive_solver.
Qed.

(** The engine's decision is first-match-wins: it routes to rule [i] with
    that rule's ladder and expiry exactly when rule [i] matches and no earlier
    rule does, and auto-approves exactly when no rule of the policy matches. *)
Theorem decide_plan_first_match pol p :
  let d := decide_plan pol p in
  let fires r := matchRule r (plan_Actions p) (plan_ProposerKind p) in
  (dec_AutoApproved d = true <-> forall r, r ∈ pol_Rules pol -> fires r = false)
  /\ forall n r,
      (dec_MatchedRuleIndex d = Z.of_nat n /\ dec_Status d = PlanStatusPending
       /\ dec_Ladder d = rule_Ladder r /\ dec_ExpirySeconds d = rule_ExpirySeconds r
       /\ pol_Rules pol !! n = Some r)
      <-> (pol_Rules pol !! n = Some r /\ fires r = true
           /\ forall m r', (m < n)%nat -> pol_Rules pol !! m = Some r' -> fires r' = false).
Proof.
  intros d fires. subst d. unfold decide_plan.
  destruct (first_match 0 _ _ _) as [[i r]|] eqn:E; simpl.
  - apply first_match_some in E as (n & -> & Hn & Hm & Hlt). split.
    + split; [done|]. intros HF. unfold fires in HF. rewrite (HF r) in Hm; [done|].
      by apply list_elem_of_lookup_2 in Hn.
    + intros n' r'. split.
      * intros (Heq & _ & _ & _ & Hn'). assert (n' = n) as -> by lia. simplify_eq. auto.
      * intros (Hn' & Hm' & Hlt'). assert (n' = n) as ->.
        { destruct (Nat.lt_trichotomy n n') as [Hl|[->|Hl]]; [|done|].
          - specialize (Hlt' _ _ Hl Hn). unfold fires in Hlt'. congruence.
          - specialize (Hlt _ _ Hl Hn'). unfold fires in Hm'. congruence. }
        simplify_eq. repeat split; try done; lia.
  - rewrite first_match_none in E. split; [by split|]. intros n r. split.
    + intros (? & _). lia.
    + intros (Hn & Hm & _). unfold fires in Hm. rewrite E in Hm; [done|].
      by apply list_elem_of_lookup_2 in Hn.
Qed.
