(* ===== verification/MemService.v ===== *)
(** * The approval service

    Models [plane/application/policy/memservice.go] and the types of
    [service.go]: the in-memory [ApprovalService], every method with its
    guards, its changes to plans and audit log and its errors.  Methods run
    under one mutex, so each is an atomic step.  [now] is the reading of the
    service clock, [wall] of [time.Now] and [fresh] of [uuid.New]. *)

From S2P Require Import Prelude GoStd Sha256 Json Uuid Policy AuditLog Engine.

(** ** service.go *)

Definition CodePlanAlreadyDecided : string := "plan_already_decided".
Definition CodePlanExpired : string := "plan_expired".
Definition CodeDecisionUnauthorized : string := "decision_unauthorized".
Definition CodePlanNotFound : string := "plan_not_found".
Definition CodeRungOutOfRange : string := "rung_out_of_range".

Record DecisionInput := mkDecisionInput {
  di_PlanID : uuid;
  di_ActorID : uuid;
  di_Approve : bool;
  di_Reason : string;
  di_RungIndex : Z
}.

Record DecisionOutcome := mkDecisionOutcome {
  do_Status : PlanStatus;
  do_QuorumMet : bool;
  do_Approvals : Z;
  do_Rejections : Z
}.

Record EscalateInput := mkEscalateInput {
  ei_PlanID : uuid;
  ei_FromRung : Z;
  ei_Reason : string
}.

Record EscalateOutcome := mkEscalateOutcome {
  eo_NewRung : Z;
  eo_OnTimeout : OnTimeout;
  eo_FinalRung : bool
}.

(** ** memservice.go: state *)

Record memPlan := mkMemPlan {
  mp_plan : Plan;
  mp_status : PlanStatus;
  mp_currentRung : Z;
  mp_approvals : gmap Z (gset uuid);
  mp_rejections : gmap Z (gset uuid);
  mp_ladder : list EscalationRung;
  mp_policy : Policy;
  mp_expiresAt : time
}.

Record MemService := mkMemService {
  ms_policies : gmap uuid Policy;
  ms_plans : gmap uuid memPlan;
  ms_audit : gmap uuid (list AuditRow)
}.

Definition NewMemService : MemService := mkMemService ∅ ∅ ∅.

Definition set_status (mp : memPlan) (st : PlanStatus) : memPlan :=
  mkMemPlan (mp_plan mp) st (mp_currentRung mp) (mp_approvals mp) (mp_rejections mp)
    (mp_ladder mp) (mp_policy mp) (mp_expiresAt mp).
Definition set_rung (mp : memPlan) (r : Z) : memPlan :=
  mkMemPlan (mp_plan mp) (mp_status mp) r (mp_approvals mp) (mp_rejections mp)
    (mp_ladder mp) (mp_policy mp) (mp_expiresAt mp).
Definition set_approvals (mp : memPlan) (a : gmap Z (gset uuid)) : memPlan :=
  mkMemPlan (mp_plan mp) (mp_status mp) (mp_currentRung mp) a (mp_rejections mp)
    (mp_ladder mp) (mp_policy mp) (mp_expiresAt mp).
Definition set_rejections (mp : memPlan) (r : gmap Z (gset uuid)) : memPlan :=
  mkMemPlan (mp_plan mp) (mp_status mp) (mp_currentRung mp) (mp_approvals mp) r
    (mp_ladder mp) (mp_policy mp) (mp_expiresAt mp).
Definition put_plan (s : MemService) (id : uuid) (mp : memPlan) : MemService :=
  mkMemService (ms_policies s) (<[id := mp]> (ms_plans s)) (ms_audit s).

(** ** memservice.go: helpers *)

(** Votes recorded at a rung; a missing entry of the Go map is empty. *)
Definition votes (m : gmap Z (gset uuid)) (rung : Z) : gset uuid := default ∅ (m !! rung).
Definition add_vote (m : gmap Z (gset uuid)) (rung : Z) (actor : uuid) : gmap Z (gset uuid) :=
  <[rung := {[actor]} ∪ votes m rung]> m.
Definition count (s : gset uuid) : Z := Z.of_nat (size s).

Definition rawJSON (v : json) : RawMessage := RawJSON (json_roundtrip v).

Definition contains (haystack : list uuid) (needle : uuid) : bool :=
  existsb (fun id => id =? needle) haystack.

Definition actorKindFromProposer (p : ProposerKind) : ActorKind :=
  if bool_decide (p = ProposerKindAgent) then ActorKindAgent
  else if bool_decide (p = ProposerKindService) then ActorKindService
  else ActorKindSystem.

Definition appendAuditLocked (s : MemService) (policyID : uuid) (planID : option uuid)
    (kind : AuditEventKind) (actorID : option uuid) (actorKind : ActorKind)
    (payload : RawMessage) (now wall : time) : MemService * option audit_error :=
  let rows := default [] (ms_audit s !! policyID) in
  let prev := last_hash rows in
  let row := mkAuditRow (Z.of_nat (length rows) + 1) policyID planID kind actorID actorKind
               payload (replicate 32 (chr 0)) (replicate 32 (chr 0)) now in
  match AppendRow wall prev row with
  | Err e => (s, Some e)
  | Ok row' => (mkMemService (ms_policies s) (ms_plans s) (<[policyID := rows ++ [row']]> (ms_audit s)), None)
  end.

(** ** memservice.go: operations *)

Definition RegisterPolicy (s : MemService) (p : option Policy) : MemService * option ValidationError :=
  match p with
  | None => (s, validate_in [] None)
  | Some pol =>
      match Validate pol with
      | Some c => (s, Some c)
      | None => (mkMemService (<[pol_OrgID pol := pol]> (ms_policies s)) (ms_plans s) (ms_audit s), None)
      end
  end.

Definition MemService_LoadPolicy (s : MemService) (orgID : uuid) (_ : option uuid)
  : result policy_error (option Policy) := Ok (ms_policies s !! orgID).

Definition MemService_RecordSubmission (now wall : time) (s : MemService) (plan : Plan) (d : Decision)
  : MemService * option policy_error :=
  match ms_policies s !! plan_OrgID plan with
  | None => (s, Some ErrPolicyNotFound)
  | Some pol =>
      let expires :=
        if 0 <? dec_ExpirySeconds d then Add now (wrap64 (dec_ExpirySeconds d * Second))
        else zero_time in
      let mp := mkMemPlan plan (dec_Status d) 0 ∅ ∅ (dec_Ladder d) pol expires in
      let s := put_plan s (plan_ID plan) mp in
      let kind := if dec_AutoApproved d then AuditEventAutoApprovedNoRule else AuditEventSubmitted in
      let payload := rawJSON (JObj
        [("plan_id", JStr (uuid_String (plan_ID plan)));
         ("matched_rule_index", JNum (dec_MatchedRuleIndex d));
         ("plan_hash", JStr (l2s (hex_of_bytes (plan_PlanHash plan))));
         ("proposer_kind", JStr (plan_ProposerKind plan))]) in
      let '(s, e) := appendAuditLocked s (pol_ID pol) (Some (plan_ID plan)) kind
                       (Some (plan_ProposerID plan)) (actorKindFromProposer (plan_ProposerKind plan))
                       payload now wall in
      (s, ErrAudit <$> e)
  end.

(** [MemService.SubmitPlan] inlines the engine's evaluation. *)
Definition SubmitPlan (now wall : time) (fresh : uuid) (s : MemService) (plan : option Plan)
  : MemService * option Plan * result policy_error Decision :=
  match plan with
  | None => (s, None, Err ErrNilPlan)
  | Some p =>
      if negb (ProposerKind_IsValid (plan_ProposerKind p))
      then (s, Some p, Err ErrInvalidProposerKind)
      else
        match ms_policies s !! plan_OrgID p with
        | None => (s, Some p, Err ErrPolicyNotFound)
        | Some pol =>
            match Validate pol with
            | Some c => (s, Some p, Err (ErrValidation c))
            | None =>
                let p := ComputePlanHash (set_PolicyID p (pol_ID pol)) in
                let p := if bool_decide (plan_ID p = uuid_Nil) then set_ID p fresh else p in
                let d :=
                  match first_match 0 (pol_Rules pol) (plan_Actions p) (plan_ProposerKind p) with
                  | Some (i, r) =>
                      mkDecision (plan_ID p) PlanStatusPending false i (rule_Ladder r)
                        (rule_ExpirySeconds r)
                  | None => mkDecision (plan_ID p) PlanStatusAutoApprovedNoRule true (-1) [] 0
                  end in
                match MemService_RecordSubmission now wall s p d with
                | (s', Some e) => (s', Some p, Err e)
                | (s', None) => (s', Some p, Ok d)
                end
            end
        end
  end.

(** The audit row of a state change of plan [mp]; the error is discarded. *)
Definition audit_plan (s : MemService) (mp : memPlan) (kind : AuditEventKind) (actor : option uuid)
    (actorKind : ActorKind) (payload : json) (now wall : time) : MemService :=
  (appendAuditLocked s (pol_ID (mp_policy mp)) (Some (plan_ID (mp_plan mp))) kind actor actorKind
     (rawJSON payload) now wall).1.
Arguments audit_plan : simpl never.

Definition RecordDecision (now wall : time) (s : MemService) (inp : DecisionInput)
  : MemService * result policy_error DecisionOutcome :=
  match ms_plans s !! di_PlanID inp with
  | None => (s, Err (ErrAPI CodePlanNotFound))
  | Some mp =>
      if negb (bool_decide (mp_status mp = PlanStatusPending))
      then (s, Err (ErrAPI CodePlanAlreadyDecided))
      else if negb (IsZero (mp_expiresAt mp)) && After now (mp_expiresAt mp) then
        let s := put_plan s (di_PlanID inp) (set_status mp PlanStatusExpired) in
        (audit_plan s mp AuditEventExpired None ActorKindSystem
           (JObj [("reason", JStr "expiry_window_elapsed")]) now wall,
         Err (ErrAPI CodePlanExpired))
      else if (di_RungIndex inp <? 0) || (Z.of_nat (length (mp_ladder mp)) <=? di_RungIndex inp)
      then (s, Err (ErrAPI CodeRungOutOfRange))
      else if negb (di_RungIndex inp =? mp_currentRung mp)
      then (s, Err (ErrAPI CodeRungOutOfRange))
      else
        match mp_ladder mp !! Z.to_nat (mp_currentRung mp) with
        | None => (s, Err ErrPanic)
        | Some rung =>
            match pol_ApproverGroups (mp_policy mp) !! rung_GroupName rung with
            | None => (s, Err (ErrAPI CodeDecisionUnauthorized))
            | Some group =>
                if negb (contains (ag_HumanUserIDs group) (di_ActorID inp))
                then (s, Err (ErrAPI CodeDecisionUnauthorized))
                else if negb (di_Approve inp) && bool_decide (di_Reason inp = "")
                then (s, Err (ErrAPI CodeDecisionUnauthorized))
                else
                  let mp :=
                    if di_Approve inp
                    then set_approvals mp (add_vote (mp_approvals mp) (di_RungIndex inp) (di_ActorID inp))
                    else set_rejections mp (add_vote (mp_rejections mp) (di_RungIndex inp) (di_ActorID inp)) in
                  let approvals := count (votes (mp_approvals mp) (di_RungIndex inp)) in
                  let rejections := count (votes (mp_rejections mp) (di_RungIndex inp)) in
                  if 0 <? rejections then
                    let s := put_plan s (di_PlanID inp) (set_status mp PlanStatusRejected) in
                    (audit_plan s mp AuditEventRejected (Some (di_ActorID inp)) ActorKindHuman
                       (JObj [("rung", JNum (di_RungIndex inp)); ("reason", JStr (di_Reason inp))]) now wall,
                     Ok (mkDecisionOutcome PlanStatusRejected false approvals rejections))
                  else if ag_RequiredCount group <=? approvals then
                    let s := put_plan s (di_PlanID inp) (set_status mp PlanStatusApproved) in
                    (audit_plan s mp AuditEventApproved (Some (di_ActorID inp)) ActorKindHuman
                       (JObj [("rung", JNum (di_RungIndex inp)); ("approvals", JNum approvals)]) now wall,
                     Ok (mkDecisionOutcome PlanStatusApproved true approvals rejections))
                  else
                    let s := put_plan s (di_PlanID inp) mp in
                    (audit_plan s mp AuditEventSubmitted (Some (di_ActorID inp)) ActorKindHuman
                       (JObj [("rung", JNum (di_RungIndex inp)); ("vote", JStr "approve_partial");
                              ("approvals", JNum approvals)]) now wall,
                     Ok (mkDecisionOutcome PlanStatusPending false approvals rejections))
            end
        end
  end.

Definition Escalate (now wall : time) (s : MemService) (inp : EscalateInput)
  : MemService * result policy_error EscalateOutcome :=
  match ms_plans s !! ei_PlanID inp with
  | None => (s, Err (ErrAPI CodePlanNotFound))
  | Some mp =>
      if negb (bool_decide (mp_status mp = PlanStatusPending))
      then (s, Err (ErrAPI CodePlanAlreadyDecided))
      else if negb (ei_FromRung inp =? mp_currentRung mp)
      then (s, Err (ErrAPI CodeRungOutOfRange))
      else
        match (if mp_currentRung mp <? 0 then None else mp_ladder mp !! Z.to_nat (mp_currentRung mp)) with
        | None => (s, Err ErrPanic)
        | Some rung =>
            let cur := mp_currentRung mp in
            if bool_decide (rung_OnTimeout rung = OnTimeoutAutoDeny) then
              let s := put_plan s (ei_PlanID inp) (set_status mp PlanStatusAutoDenied) in
              (audit_plan s mp AuditEventAutoDenied None ActorKindSystem
                 (JObj [("rung", JNum cur); ("reason", JStr (ei_Reason inp))]) now wall,
               Ok (mkEscalateOutcome cur (rung_OnTimeout rung) true))
            else if bool_decide (rung_OnTimeout rung = OnTimeoutFallBack) then
              let s := put_plan s (ei_PlanID inp) (set_rung mp (cur - 1)) in
              (audit_plan s mp AuditEventEscalated None ActorKindSystem
                 (JObj [("from_rung", JNum (ei_FromRung inp)); ("to_rung", JNum (cur - 1));
                        ("kind", JStr "fall_back")]) now wall,
               Ok (mkEscalateOutcome (cur - 1) (rung_OnTimeout rung) false))
            else if bool_decide (rung_OnTimeout rung = OnTimeoutNotifyNext) then
              let next := cur + 1 in
              if Z.of_nat (length (mp_ladder mp)) <=? next then
                let s := put_plan s (ei_PlanID inp) (set_status mp PlanStatusAutoDenied) in
                (audit_plan s mp AuditEventAutoDenied None ActorKindSystem
                   (JObj [("rung", JNum cur); ("reason", JStr "ladder_exhausted")]) now wall,
                 Ok (mkEscalateOutcome cur (rung_OnTimeout rung) true))
              else
                let s := put_plan s (ei_PlanID inp) (set_status (set_rung mp next) PlanStatusPending) in
                (audit_plan s mp AuditEventEscalated None ActorKindSystem
                   (JObj [("from_rung", JNum (ei_FromRung inp)); ("to_rung", JNum next);
                          ("kind", JStr "notify_next")]) now wall,
                 Ok (mkEscalateOutcome next (rung_OnTimeout rung) false))
            else (s, Ok (mkEscalateOutcome 0 (rung_OnTimeout rung) false))
        end
  end.

Definition GetPlanStatus (s : MemService) (planID : uuid) : result policy_error PlanStatus :=
  match ms_plans s !! planID with
  | None => Err (ErrAPI CodePlanNotFound)
  | Some mp => Ok (mp_status mp)
  end.

Definition AuditChain (s : MemService) (policyID : uuid) : list AuditRow :=
  default [] (ms_audit s !! policyID).

#[export] Instance mem_backend (now wall : time) : PolicyBackend MemService := {
  LoadPolicy := MemService_LoadPolicy;
  RecordSubmission := MemService_RecordSubmission now wall
}.

(** ** Histories *)

Inductive op :=
| OpRegister (p : option Policy)
| OpSubmit (now wall : time) (fresh : uuid) (plan : option Plan)
| OpDecide (now wall : time) (inp : DecisionInput)
| OpEscalate (now wall : time) (inp : EscalateInput).

Definition run_op (s : MemService) (o : op) : MemService :=
  match o with
  | OpRegister p => (RegisterPolicy s p).1
  | OpSubmit now wall fresh plan => (SubmitPlan now wall fresh s plan).1.1
  | OpDecide now wall inp => (RecordDecision now wall s inp).1
  | OpEscalate now wall inp => (Escalate now wall s inp).1
  end.

(** States of a service that started empty. *)
Inductive reachable : MemService -> Prop :=
| reach_init : reachable NewMemService
| reach_step s o : reachable s -> reachable (run_op s o).

(** ** The service invariant *)

Definition rung_group (mp : memPlan) (rung : Z) : option ApproverGroup :=
  if rung <? 0 then None
  else r ← mp_ladder mp !! Z.to_nat rung; pol_ApproverGroups (mp_policy mp) !! rung_GroupName r.

Definition is_rung (mp : memPlan) (rung : Z) : Prop := 0 <= rung < Z.of_nat (length (mp_ladder mp)).

(** The ladder is that of a rule of the plan's (validated) policy. *)
Definition ladder_ok (mp : memPlan) : Prop :=
  policy_wf (mp_policy mp)
  /\ exists r, r ∈ pol_Rules (mp_policy mp) /\ mp_ladder mp = rule_Ladder r.

Definition votes_by_members (mp : memPlan) (m : gmap Z (gset uuid)) : Prop :=
  forall rung u, u ∈ votes m rung -> exists g, rung_group mp rung = Some g /\ u ∈ ag_HumanUserIDs g.

(** [RequiredCount] distinct members of the current rung's group approved. *)
Definition quorum (mp : memPlan) : Prop :=
  exists g, rung_group mp (mp_currentRung mp) = Some g
    /\ 0 < ag_RequiredCount g <= count (votes (mp_approvals mp) (mp_currentRung mp)).

Record plan_inv (id : uuid) (mp : memPlan) : Prop := {
  pi_id : plan_ID (mp_plan mp) = id;
  pi_ladder : mp_status mp <> PlanStatusAutoApprovedNoRule ->
              ladder_ok mp /\ is_rung mp (mp_currentRung mp);
  pi_members : votes_by_members mp (mp_approvals mp);
  pi_rejecters : votes_by_members mp (mp_rejections mp);
  pi_unrejected : mp_status mp <> PlanStatusRejected -> forall rung, votes (mp_rejections mp) rung = ∅;
  pi_approved : mp_status mp = PlanStatusApproved -> quorum mp
}.

Definition audit_inv (rows : list AuditRow) : Prop := chain_valid rows /\ Forall kinds_valid rows.

Record svc_inv (s : MemService) : Prop := {
  si_policies : forall org pol, ms_policies s !! org = Some pol -> policy_wf pol;
  si_plans : forall id mp, ms_plans s !! id = Some mp -> plan_inv id mp;
  si_audit : forall pid rows, ms_audit s !! pid = Some rows -> audit_inv rows
}.

(** *** Audit *)

Lemma AuditChain_inv s pid : svc_inv s -> audit_inv (AuditChain s pid).
Proof.
  intros [_ _ Ha]. unfold AuditChain. destruct (ms_audit s !! pid) as [rows|] eqn:E; [by eapply Ha|].
  by split; [|constructor].
Qed.

Lemma appendAudit_inv s pid plid kind actor ak payload now wall :
  svc_inv s -> ActorKind_IsValid ak = true -> AuditEventKind_IsValid kind = true ->
  svc_inv (appendAuditLocked s pid plid kind actor ak payload now wall).1.
Proof.
  intros Hs Hak Hek. unfold appendAuditLocked. fold (AuditChain s pid).
  pose proof (AuditChain_inv s pid Hs) as [Hc Hk]. unfold AuditChain in *.
  set (row := mkAuditRow _ _ _ _ _ _ _ _ _ _).
  destruct (AppendRow wall _ row) as [row'|e] eqn:E; simpl; [|done].
  destruct Hs as [Hp Hpl Ha]. split; simpl; [done|done|].
  intros pid' rows' [[<- <-]|[_ H]]%lookup_insert_Some; [|by eapply Ha].
  split; [by eauto with gitscale|]. apply Forall_app. split; [done|]. apply Forall_singleton.
  unfold AppendRow in E. case_split_in E. done.
Qed.

Lemma audit_plan_inv s mp kind actor ak payload now wall :
  svc_inv s -> ActorKind_IsValid ak = true -> AuditEventKind_IsValid kind = true ->
  svc_inv (audit_plan s mp kind actor ak payload now wall).
Proof. apply appendAudit_inv. Qed.

Lemma appendAudit_frame s pid plid kind actor ak payload now wall :
  let s' := (appendAuditLocked s pid plid kind actor ak payload now wall).1 in
  ms_policies s' = ms_policies s /\ ms_plans s' = ms_plans s.
Proof. unfold appendAuditLocked. by case_split. Qed.

Lemma audit_plan_plans s mp kind actor ak payload now wall :
  ms_plans (audit_plan s mp kind actor ak payload now wall) = ms_plans s.
Proof. apply appendAudit_frame. Qed.

Lemma put_plan_inv s id mp : svc_inv s -> plan_inv id mp -> svc_inv (put_plan s id mp).
Proof.
  intros [Hp Hpl Ha] Hm. split; simpl; [done| |done].
  intros id' mp' [[<- <-]|[_ H]]%lookup_insert_Some; [done|]. by eapply Hpl.
Qed.

#[export] Hint Resolve put_plan_inv audit_plan_inv : gitscale.
#[export] Hint Rewrite audit_plan_plans : gitscale.

(** *** Votes *)

Lemma votes_add m rung actor rung' :
  votes (add_vote m rung actor) rung' =
  if decide (rung = rung') then {[actor]} ∪ votes m rung else votes m rung'.
Proof.
  unfold votes at 1, add_vote. rewrite lookup_insert. by case_decide.
Qed.

Lemma count_pos s (u : uuid) : u ∈ s -> 0 < count s.
Proof.
  intros H. unfold count. destruct (decide (size s = 0%nat)) as [E|]; [|lia].
  apply size_empty_inv in E. set_solver.
Qed.

Lemma count_zero s : count s <= 0 -> s = ∅.
Proof.
  unfold count. intros H. assert (size s = 0%nat) as E by lia.
  apply size_empty_inv in E. by apply leibniz_equiv.
Qed.

Lemma contains_elem l u : contains l u = true <-> u ∈ l.
Proof.
  unfold contains. rewrite existsb_elem_of. setoid_rewrite Z.eqb_eq. naive_solver.
Qed.

Lemma votes_by_members_add mp m rung actor g :
  votes_by_members mp m -> rung_group mp rung = Some g -> actor ∈ ag_HumanUserIDs g ->
  votes_by_members mp (add_vote m rung actor).
Proof.
  intros Hm Hg Ha rung' u. rewrite votes_add. case_decide; subst; [|apply Hm].
  rewrite elem_of_union, elem_of_singleton. intros [->|Hu]; [by exists g|by apply Hm].
Qed.

(** *** Rungs *)

Lemma rung_lookup mp rung :
  is_rung mp rung -> exists r, mp_ladder mp !! Z.to_nat rung = Some r.
Proof. intros [H1 H2]. apply lookup_lt_is_Some_2. lia. Qed.

Lemma ladder_rung_wf mp rung r :
  ladder_ok mp -> mp_ladder mp !! rung = Some r ->
  rung_wf (pol_ApproverGroups (mp_policy mp)) rung r.
Proof.
  intros [Hwf (rule & Hr & HL)] H. destruct Hwf as (_ & _ & _ & Hrules).
  apply Hrules in Hr as (_ & _ & _ & _ & Hrungs). rewrite HL in H. auto.
Qed.

Lemma ladder_group mp rung r :
  ladder_ok mp -> 0 <= rung -> mp_ladder mp !! Z.to_nat rung = Some r ->
  exists g, pol_ApproverGroups (mp_policy mp) !! rung_GroupName r = Some g
    /\ rung_group mp rung = Some g /\ group_wf (rung_GroupName r) g.
Proof.
  intros Hl H0 Hr. destruct (ladder_rung_wf mp _ r Hl Hr) as ([g Hg] & _). exists g.
  unfold rung_group. rewrite Hr. simpl. destruct (Z.ltb_spec rung 0); [lia|].
  destruct Hl as [(_ & _ & Hgr & _) _]. auto.
Qed.

(** *** Preservation *)

Lemma RegisterPolicy_inv s p : svc_inv s -> svc_inv (RegisterPolicy s p).1.
Proof.
  intros [Hp Hpl Ha]. unfold RegisterPolicy. destruct p as [pol|]; [|done].
  destruct (Validate pol) eqn:E; [done|]. apply Validate_wf in E. split; simpl; [|done|done].
  intros org pol' [[_ <-]|[_ H]]%lookup_insert_Some; [done|]. by eapply Hp.
Qed.

Lemma actorKindFromProposer_valid k : ActorKind_IsValid (actorKindFromProposer k) = true.
Proof. unfold actorKindFromProposer. by case_split. Qed.

(** A decision whose ladder is that of a rule, or an auto-approval. *)
Definition decision_ok (pol : Policy) (d : Decision) : Prop :=
  dec_Status d = PlanStatusAutoApprovedNoRule
  \/ dec_Status d = PlanStatusPending
     /\ exists r, r ∈ pol_Rules pol /\ dec_Ladder d = rule_Ladder r.

Lemma decide_plan_ok pol p : decision_ok pol (decide_plan pol p).
Proof.
  unfold decide_plan. destruct (first_match _ _ _ _) as [[i r]|] eqn:E; [|by left].
  right. split; [done|]. apply first_match_some in E as (n & _ & Hn & _).
  exists r. split; [|done]. by apply list_elem_of_lookup_2 in Hn.
Qed.

Lemma fresh_plan_inv pol plan d expires :
  policy_wf pol -> decision_ok pol d ->
  plan_inv (plan_ID plan) (mkMemPlan plan (dec_Status d) 0 ∅ ∅ (dec_Ladder d) pol expires).
Proof.
  intros Hwf Hd. split; simpl; try done.
  - intros Hst. destruct Hd as [|[_ (r & Hr & HL)]]; [done|]. split; [split; [done|by exists r]|].
    destruct Hwf as (_ & _ & _ & Hrules). apply Hrules in Hr as (_ & _ & _ & Hne & _).
    unfold is_rung. simpl. rewrite HL. destruct (rule_Ladder r); [done|]. simpl. lia.
  - intros HA. destruct Hd as [E|[E _]]; by rewrite E in HA.
Qed.

Lemma RecordSubmission_inv now wall s plan d :
  svc_inv s -> (forall pol, ms_policies s !! plan_OrgID plan = Some pol -> decision_ok pol d) ->
  svc_inv (MemService_RecordSubmission now wall s plan d).1.
Proof.
  intros Hs Hd. unfold MemService_RecordSubmission.
  destruct (ms_policies s !! plan_OrgID plan) as [pol|] eqn:E; [|done].
  match goal with |- svc_inv (let '(_, _) := ?a in _).1 => assert (svc_inv a.1) as H; [|by destruct a] end.
  apply appendAudit_inv; [|apply actorKindFromProposer_valid | by destruct (dec_AutoApproved d)].
  apply put_plan_inv; [done|]. apply fresh_plan_inv; [|by auto]. by eapply si_policies.
Qed.

Lemma plan_OrgID_stamp fresh pol p : plan_OrgID (stamp_plan fresh pol p) = plan_OrgID p.
Proof. unfold stamp_plan. by case_bool_decide. Qed.

Lemma SubmitPlan_engine now wall fresh s plan :
  SubmitPlan now wall fresh s plan = Engine_SubmitPlan (H := mem_backend now wall) fresh s plan.
Proof.
  destruct plan as [p|]; [|done]. unfold SubmitPlan, Engine_SubmitPlan. simpl.
  destruct (negb _); [done|]. unfold MemService_LoadPolicy.
  destruct (ms_policies s !! plan_OrgID p); [|done]. by destruct (Validate _).
Qed.

Lemma SubmitPlan_inv now wall fresh s plan :
  svc_inv s -> svc_inv (SubmitPlan now wall fresh s plan).1.1.
Proof.
  intros Hs. rewrite SubmitPlan_engine. unfold Engine_SubmitPlan. destruct plan as [p|]; [|done].
  destruct (negb _); [done|]. simpl. unfold MemService_LoadPolicy.
  destruct (ms_policies s !! plan_OrgID p) as [pol|] eqn:E; [|done].
  destruct (Validate pol); [done|].
  pose proof (RecordSubmission_inv now wall s (stamp_plan fresh pol p)
                (decide_plan pol (stamp_plan fresh pol p)) Hs) as H.
  rewrite plan_OrgID_stamp, E in H.
  destruct (MemService_RecordSubmission _ _ _ _ _) as [s' [e|]]; simpl in *; apply H;
    intros ? [= <-]; apply decide_plan_ok.
Qed.

Lemma set_status_inv id mp st :
  plan_inv id mp -> mp_status mp = PlanStatusPending ->
  st <> PlanStatusRejected -> st <> PlanStatusApproved -> plan_inv id (set_status mp st).
Proof.
  intros [H1 H2 H3 H4 H5 H6] Hp Hr Ha. split; simpl; try done.
  - intros _. apply H2. by rewrite Hp.
  - intros _. apply H5. by rewrite Hp.
Qed.

Lemma set_rung_inv id mp rung :
  plan_inv id mp -> mp_status mp = PlanStatusPending -> is_rung mp rung ->
  plan_inv id (set_rung mp rung).
Proof.
  intros [H1 H2 H3 H4 H5 H6] Hp Hr. split; simpl; try done.
  - intros H. split; [by apply H2|done].
  - by rewrite Hp.
Qed.

Lemma Escalate_inv now wall s inp : svc_inv s -> svc_inv (Escalate now wall s inp).1.
Proof.
  intros Hs. unfold Escalate. destruct (ms_plans s !! ei_PlanID inp) as [mp|] eqn:E; [|done].
  pose proof (si_plans s Hs _ _ E) as Hmp.
  case_bool_decide as Hp; simpl; [|done]. destruct (negb _); [done|].
  destruct (Z.ltb_spec (mp_currentRung mp) 0) as [|H0]; [done|].
  destruct (mp_ladder mp !! _) as [rung|] eqn:Er; [|done].
  destruct (pi_ladder _ _ Hmp) as [Hl Hcur]; [by rewrite Hp|].
  destruct (ladder_rung_wf _ _ _ Hl Er) as (_ & _ & _ & Hfb).
  case_bool_decide; simpl.
  - apply audit_plan_inv; [|done..]. apply put_plan_inv; [done|]. by apply set_status_inv.
  - case_bool_decide as Hf; simpl; [|case_bool_decide; simpl; [|done]].
    + apply audit_plan_inv; [|done..]. apply put_plan_inv; [done|].
      apply set_rung_inv; [done|done|]. unfold is_rung in *.
      assert (Z.to_nat (mp_currentRung mp) <> 0%nat) by (intros Hz; by apply Hfb in Hz). lia.
    + destruct (Z.leb_spec (Z.of_nat (length (mp_ladder mp))) (mp_currentRung mp + 1)); simpl.
      * apply audit_plan_inv; [|done..]. apply put_plan_inv; [done|]. by apply set_status_inv.
      * apply audit_plan_inv; [|done..]. apply put_plan_inv; [done|].
        apply set_status_inv; [|by simpl|done|done]. apply set_rung_inv; [done|done|].
        unfold is_rung in *. lia.
Qed.

Lemma approve_inv id mp g actor :
  plan_inv id mp -> mp_status mp = PlanStatusPending ->
  rung_group mp (mp_currentRung mp) = Some g -> actor ∈ ag_HumanUserIDs g ->
  plan_inv id (set_approvals mp (add_vote (mp_approvals mp) (mp_currentRung mp) actor)).
Proof.
  intros [H1 H2 H3 H4 H5 H6] Hp Hg Ha. split; simpl; try done.
  - by eapply votes_by_members_add.
  - by rewrite Hp.
Qed.

Lemma reject_inv id mp g actor :
  plan_inv id mp -> mp_status mp = PlanStatusPending ->
  rung_group mp (mp_currentRung mp) = Some g -> actor ∈ ag_HumanUserIDs g ->
  plan_inv id (set_status (set_rejections mp (add_vote (mp_rejections mp) (mp_currentRung mp) actor))
                 PlanStatusRejected).
Proof.
  intros [H1 H2 H3 H4 H5 H6] Hp Hg Ha. split; simpl; try done.
  - intros _. apply H2. by rewrite Hp.
  - by eapply votes_by_members_add.
Qed.

Lemma set_approved_inv id mp :
  plan_inv id mp -> mp_status mp = PlanStatusPending -> quorum mp ->
  plan_inv id (set_status mp PlanStatusApproved).
Proof.
  intros [H1 H2 H3 H4 H5 H6] Hp Hq. split; simpl; try done.
  - intros _. apply H2. by rewrite Hp.
  - intros _. apply H5. by rewrite Hp.
Qed.

Lemma RecordDecision_inv now wall s inp : svc_inv s -> svc_inv (RecordDecision now wall s inp).1.
Proof.
  intros Hs. unfold RecordDecision. destruct (ms_plans s !! di_PlanID inp) as [mp|] eqn:E; [|done].
  pose proof (si_plans s Hs _ _ E) as Hmp.
  case_bool_decide as Hp; simpl; [|done].
  destruct (negb _ && _).
  { apply audit_plan_inv; [|done..]. apply put_plan_inv; [done|]. by apply set_status_inv. }
  destruct ((_ <? 0) || _) eqn:Hrange; [done|]. reflect_bools.
  destruct (Z.eqb_spec (di_RungIndex inp) (mp_currentRung mp)) as [Hcur|]; simpl; [|done].
  destruct (mp_ladder mp !! _) as [rung|] eqn:Er; [|done].
  destruct (pi_ladder _ _ Hmp) as [Hl _]; [by rewrite Hp|].
  destruct (ladder_group mp (mp_currentRung mp) _ Hl ltac:(lia) Er) as (g & Hg & Hrg & _ & Hreq & _). rewrite Hg.
  destruct (contains _ _) eqn:Hc; simpl; [|done]. apply contains_elem in Hc. rewrite Hcur in *.
  destruct (di_Approve inp) eqn:Hap; simpl.
  - pose proof (approve_inv _ _ _ _ Hmp Hp Hrg Hc) as Hmp'.
    rewrite (pi_unrejected _ _ Hmp (ltac:(by rewrite Hp))). change (count ∅) with 0. simpl.
    destruct (Z.leb_spec (ag_RequiredCount g)
                (count (votes (add_vote (mp_approvals mp) (mp_currentRung mp) (di_ActorID inp))
                          (mp_currentRung mp)))) as [Hq|Hq]; simpl; apply audit_plan_inv; try done;
      apply put_plan_inv; try done.
    apply set_approved_inv; [done|done|]. exists g. split; [done|]. simpl. lia.
  - case_bool_decide; [done|].
    rewrite votes_add, decide_True by done.
    destruct (Z.ltb_spec 0 (count ({[di_ActorID inp]} ∪ votes (mp_rejections mp) (mp_currentRung mp)))) as [|Hz].
    + simpl. apply audit_plan_inv; [|done..]. apply put_plan_inv; [done|]. by eapply reject_inv.
    + pose proof (count_pos ({[di_ActorID inp]} ∪ votes (mp_rejections mp) (mp_currentRung mp))
                    (di_ActorID inp) ltac:(set_solver)). lia.
Qed.

Lemma run_op_inv s o : svc_inv s -> svc_inv (run_op s o).
Proof.
  destruct o; simpl;
    [apply RegisterPolicy_inv | apply SubmitPlan_inv | apply RecordDecision_inv | apply Escalate_inv].
Qed.

Lemma reachable_inv s : reachable s -> svc_inv s.
Proof.
  induction 1 as [|s o _ IH]; [|by apply run_op_inv]. split; simpl; intros ??; by rewrite lookup_empty.
Qed.

Lemma GetPlanStatus_put s id mp mp' kind actor ak payload now wall :
  GetPlanStatus (audit_plan (put_plan s id mp) mp' kind actor ak payload now wall) id
  = Ok (mp_status mp).
Proof. unfold GetPlanStatus. rewrite audit_plan_plans. simpl. by rewrite lookup_insert_eq. Qed.

(** The guards a vote has passed when [RecordDecision] accepts it. *)
Definition vote_admitted (s : MemService) (now : time) (inp : DecisionInput) (mp : memPlan)
    (g : ApproverGroup) : Prop :=
  ms_plans s !! di_PlanID inp = Some mp /\ mp_status mp = PlanStatusPending
  /\ (mp_expiresAt mp = zero_time \/ now <= mp_expiresAt mp)
  /\ di_RungIndex inp = mp_currentRung mp
  /\ rung_group mp (mp_currentRung mp) = Some g /\ di_ActorID inp ∈ ag_HumanUserIDs g.

(** The outcome of an admitted vote: an approval approves the plan when the
    distinct approvers of the rung reach the group's required count; a
    rejection needs a reason and rejects the plan at once. *)
Definition vote_outcome (inp : DecisionInput) (mp : memPlan) (g : ApproverGroup) (out : DecisionOutcome) : Prop :=
  let voters := {[di_ActorID inp]} ∪ votes (mp_approvals mp) (mp_currentRung mp) in
  if di_Approve inp then
    out = if ag_RequiredCount g <=? count voters
          then mkDecisionOutcome PlanStatusApproved true (count voters) 0
          else mkDecisionOutcome PlanStatusPending false (count voters) 0
  else di_Reason inp <> "" /\ do_Status out = PlanStatusRejected /\ do_QuorumMet out = false.

Lemma RecordDecision_cases now wall s inp :
  svc_inv s ->
  match RecordDecision now wall s inp with
  | (s', Ok out) =>
      (exists mp g, vote_admitted s now inp mp g /\ vote_outcome inp mp g out)
      /\ GetPlanStatus s' (di_PlanID inp) = Ok (do_Status out)
  | (s', Err e) =>
      e <> ErrPanic /\
      (s' = s \/ (e = ErrAPI CodePlanExpired /\ GetPlanStatus s' (di_PlanID inp) = Ok PlanStatusExpired))
  end.
Proof.
  intros Hs. unfold RecordDecision. destruct (ms_plans s !! di_PlanID inp) as [mp|] eqn:E; [|by auto].
  pose proof (si_plans s Hs _ _ E) as Hmp.
  case_bool_decide as Hp; simpl; [|by auto].
  destruct (negb _ && _) eqn:Hexp.
  { split; [done|]. right. split; [done|]. by rewrite GetPlanStatus_put. }
  destruct ((_ <? 0) || _) eqn:Hrange; [by auto|]. reflect_bools.
  destruct (Z.eqb_spec (di_RungIndex inp) (mp_currentRung mp)) as [Hcur|]; simpl; [|by auto].
  destruct (pi_ladder _ _ Hmp) as [Hl Hisr]; [by rewrite Hp|].
  destruct (rung_lookup _ _ Hisr) as [rung Er]. rewrite Er.
  destruct (ladder_group mp (mp_currentRung mp) _ Hl ltac:(lia) Er) as (g & Hg & Hrg & _). rewrite Hg.
  destruct (contains _ _) eqn:Hc; simpl; [|by auto]. apply contains_elem in Hc.
  assert (vote_admitted s now inp mp g) as Hadm.
  { repeat split; auto. apply andb_false_iff in Hexp as [Hz|Hz].
    - left. apply negb_false_iff in Hz. by apply Z.eqb_eq in Hz.
    - right. unfold After in Hz. by apply Z.ltb_ge in Hz. }
  rewrite Hcur. unfold vote_outcome. destruct (di_Approve inp) eqn:Hap; simpl.
  - rewrite (pi_unrejected _ _ Hmp (ltac:(by rewrite Hp))), votes_add, decide_True by done.
    change (count ∅) with 0. simpl.
    destruct (Z.leb_spec (ag_RequiredCount g)
                (count ({[di_ActorID inp]} ∪ votes (mp_approvals mp) (mp_currentRung mp)))) as [Hq|Hq].
    + rewrite GetPlanStatus_put. split; [|done]. exists mp, g. split; [done|].
      by destruct (Z.leb_spec (ag_RequiredCount g)
                (count ({[di_ActorID inp]} ∪ votes (mp_approvals mp) (mp_currentRung mp)))); [|lia].
    + rewrite GetPlanStatus_put. split; [|by simpl; rewrite Hp]. exists mp, g. split; [done|].
      by destruct (Z.leb_spec (ag_RequiredCount g)
                (count ({[di_ActorID inp]} ∪ votes (mp_approvals mp) (mp_currentRung mp)))); [lia|].
  - case_bool_decide as Hrs; [by auto|]. rewrite votes_add, decide_True by done.
    pose proof (count_pos ({[di_ActorID inp]} ∪ votes (mp_rejections mp) (mp_currentRung mp))
                  (di_ActorID inp) ltac:(set_solver)) as Hpos.
    apply Z.ltb_lt in Hpos. rewrite Hpos, GetPlanStatus_put. split; [|done].
    by exists mp, g.
Qed.

(** Plans other than the one an operation addresses. *)
Definition op_target (o : op) (id : uuid) : Prop :=
  match o with
  | OpRegister _ => False
  | OpSubmit _ _ fresh (Some p) =>
      (if bool_decide (plan_ID p = uuid_Nil) then fresh else plan_ID p) = id
  | OpSubmit _ _ _ None => False
  | OpDecide _ _ inp => di_PlanID inp = id
  | OpEscalate _ _ inp => ei_PlanID inp = id
  end.

Definition is_submit (o : op) : bool := match o with OpSubmit _ _ _ _ => true | _ => false end.

Lemma appendAudit_plans s pid plid kind actor ak payload now wall :
  ms_plans (appendAuditLocked s pid plid kind actor ak payload now wall).1 = ms_plans s.
Proof. apply appendAudit_frame. Qed.

Lemma plan_ID_stamp fresh pol p :
  plan_ID (stamp_plan fresh pol p) = if bool_decide (plan_ID p = uuid_Nil) then fresh else plan_ID p.
Proof. unfold stamp_plan. simpl. by case_bool_decide. Qed.

Lemma SubmitPlan_frame now wall fresh s plan id :
  ~ op_target (OpSubmit now wall fresh plan) id ->
  ms_plans (SubmitPlan now wall fresh s plan).1.1 !! id = ms_plans s !! id.
Proof.
  intros Hne. rewrite SubmitPlan_engine. unfold Engine_SubmitPlan. destruct plan as [p|]; [|done].
  simpl in Hne. destruct (negb _); [done|]. simpl. unfold MemService_LoadPolicy.
  destruct (ms_policies s !! plan_OrgID p) as [pol|] eqn:E; [|done].
  destruct (Validate pol); [done|]. unfold MemService_RecordSubmission. rewrite plan_OrgID_stamp, E.
  match goal with |- context [appendAuditLocked ?a ?b ?c ?d ?e ?f ?g ?h ?i] =>
    pose proof (appendAudit_plans a b c d e f g h i) as Hpl;
    destruct (appendAuditLocked a b c d e f g h i) as [s' [er|]] end;
  simpl in *; rewrite Hpl, lookup_insert_ne; try done; by rewrite plan_ID_stamp.
Qed.

Lemma decided_frozen s o id mp :
  ms_plans s !! id = Some mp -> mp_status mp <> PlanStatusPending ->
  ~ (is_submit o = true /\ op_target o id) -> ms_plans (run_op s o) !! id = Some mp.
Proof.
  intros Hid Hst Hno. destruct o as [p|now wall fresh plan|now wall inp|now wall inp]; simpl.
  - unfold RegisterPolicy. destruct p as [pol|]; [|done]. by destruct (Validate pol).
  - rewrite SubmitPlan_frame; [done|]. intros Ht. apply Hno. by split.
  - unfold RecordDecision. destruct (decide (di_PlanID inp = id)) as [->|Hne].
    { rewrite Hid. by rewrite bool_decide_eq_false_2. }
    by case_split; rewrite ?audit_plan_plans; simpl; rewrite ?lookup_insert_ne.
  - unfold Escalate. destruct (decide (ei_PlanID inp = id)) as [->|Hne].
    { rewrite Hid. by rewrite bool_decide_eq_false_2. }
    by case_split; rewrite ?audit_plan_plans; simpl; rewrite ?lookup_insert_ne.
Qed.

(** Two escalations at a [notify_next] rung below a [fall_back] rung. *)
Definition escalate_at (now wall : time) (id : uuid) (rung : Z) (s : MemService) : MemService :=
  (Escalate now wall s (mkEscalateInput id rung "sla_breach")).1.

Fixpoint bounce (n : nat) (now wall : time) (id : uuid) (k : Z) (s : MemService) : MemService :=
  match n with
  | O => s
  | S n' => bounce n' now wall id k (escalate_at now wall id (k + 1) (escalate_at now wall id k s))
  end.

Lemma escalate_notify_next now wall s id mp rung :
  ms_plans s !! id = Some mp -> mp_status mp = PlanStatusPending -> 0 <= mp_currentRung mp ->
  mp_ladder mp !! Z.to_nat (mp_currentRung mp) = Some rung ->
  rung_OnTimeout rung = OnTimeoutNotifyNext ->
  mp_currentRung mp + 1 < Z.of_nat (length (mp_ladder mp)) ->
  ms_plans (escalate_at now wall id (mp_currentRung mp) s) !! id
  = Some (set_rung mp (mp_currentRung mp + 1)).
Proof.
  intros Hid Hp H0 Hr Hn Hlen. unfold escalate_at, Escalate. simpl. rewrite Hid, Hp, Z.eqb_refl. simpl.
  destruct (Z.ltb_spec (mp_currentRung mp) 0); [lia|]. rewrite Hr, Hn. simpl.
  destruct (Z.leb_spec (Z.of_nat (length (mp_ladder mp))) (mp_currentRung mp + 1)); [lia|].
  cbn [fst]. rewrite audit_plan_plans. simpl. rewrite lookup_insert_eq.
  destruct mp; simpl in *. by subst.
Qed.

Lemma escalate_fall_back now wall s id mp rung :
  ms_plans s !! id = Some mp -> mp_status mp = PlanStatusPending -> 0 <= mp_currentRung mp ->
  mp_ladder mp !! Z.to_nat (mp_currentRung mp) = Some rung ->
  rung_OnTimeout rung = OnTimeoutFallBack ->
  ms_plans (escalate_at now wall id (mp_currentRung mp) s) !! id
  = Some (set_rung mp (mp_currentRung mp - 1)).
Proof.
  intros Hid Hp H0 Hr Hn. unfold escalate_at, Escalate. simpl. rewrite Hid, Hp, Z.eqb_refl. simpl.
  destruct (Z.ltb_spec (mp_currentRung mp) 0); [lia|]. rewrite Hr, Hn.
  rewrite bool_decide_eq_false_2, bool_decide_eq_true_2 by done. cbn [fst]. rewrite audit_plan_plans. simpl. by rewrite lookup_insert_eq.
Qed.

(** ** Properties *)

(** C1: K-of-n safety.  In every reachable state of the service, an approved
    plan has at its current rung at least the group's (positive) required
    number of distinct approvers, every one of them a member of the rung's
    approver group, and no rejection anywhere. *)
Theorem approved_plans_have_quorum s id mp :
  reachable s -> ms_plans s !! id = Some mp -> mp_status mp = PlanStatusApproved ->
  exists g, rung_group mp (mp_currentRung mp) = Some g
    /\ 0 < ag_RequiredCount g <= count (votes (mp_approvals mp) (mp_currentRung mp))
    /\ (forall u, u ∈ votes (mp_approvals mp) (mp_currentRung mp) -> u ∈ ag_HumanUserIDs g)
    /\ forall rung, votes (mp_rejections mp) rung = ∅.
Proof.
  intros Hr%reachable_inv Hid Hst. pose proof (si_plans _ Hr _ _ Hid) as Hp.
  destruct (pi_approved _ _ Hp Hst) as (g & Hg & Hq). exists g. split; [done|]. split; [done|]. split.
  - intros u Hu. apply (pi_members _ _ Hp) in Hu as (g' & Hg' & Hu). congruence.
  - apply (pi_unrejected _ _ Hp). by rewrite Hst.
Qed.

(** In every reachable state the audit log of every policy passes
    [VerifyChain]. *)
Theorem audit_log_always_verifies s pid :
  reachable s -> VerifyChain (AuditChain s pid) = (-1, None).
Proof. intros Hr%reachable_inv. by apply AuditChain_inv. Qed.

(** C8: [RecordDecision] in a reachable state never indexes out of range; an
    accepted vote comes from a member of the current rung's group on a
    pending, unexpired plan and has the outcome of k-of-n voting (a rejection
    needs a reason and is final at once); the new status is what
    [GetPlanStatus] then returns; and a refused vote changes nothing, except
    that a late one marks the plan expired. *)
Theorem RecordDecision_behaviour now wall s inp :
  reachable s ->
  match RecordDecision now wall s inp with
  | (s', Ok out) =>
      (exists mp g, vote_admitted s now inp mp g /\ vote_outcome inp mp g out)
      /\ GetPlanStatus s' (di_PlanID inp) = Ok (do_Status out)
  | (s', Err e) =>
      e <> ErrPanic /\
      (s' = s \/ (e = ErrAPI CodePlanExpired /\ GetPlanStatus s' (di_PlanID inp) = Ok PlanStatusExpired))
  end.
Proof. intros Hr%reachable_inv. by apply RecordDecision_cases. Qed.

(** A decided plan is frozen: once a plan is no longer pending, no
    operation changes it, except a submission that reuses its identifier. *)
Theorem decided_plans_are_frozen s o id mp :
  ms_plans s !! id = Some mp -> mp_status mp <> PlanStatusPending ->
  ~ (is_submit o = true /\ op_target o id) -> ms_plans (run_op s o) !! id = Some mp.
Proof. apply decided_frozen. Qed.

(** C16: [MemService.SubmitPlan], which inlines the evaluation to avoid
    re-taking its mutex, computes what the engine computes with the service
    as its loader and recorder: same state, same stamped plan, same decision
    or error. *)
Theorem SubmitPlan_refines_engine now wall fresh s plan :
  SubmitPlan now wall fresh s plan = Engine_SubmitPlan (H := mem_backend now wall) fresh s plan.
Proof. apply SubmitPlan_engine. Qed.

(** A ladder with a notify_next rung followed by a fall_back rung never
    resolves by escalation: any number of SLA breaches brings the plan back to
    exactly the same pending state. *)
Theorem fall_back_escalation_never_resolves n now wall id s mp r1 r2 :
  ms_plans s !! id = Some mp -> mp_status mp = PlanStatusPending -> 0 <= mp_currentRung mp ->
  mp_ladder mp !! Z.to_nat (mp_currentRung mp) = Some r1 ->
  mp_ladder mp !! Z.to_nat (mp_currentRung mp + 1) = Some r2 ->
  rung_OnTimeout r1 = OnTimeoutNotifyNext -> rung_OnTimeout r2 = OnTimeoutFallBack ->
  ms_plans (bounce n now wall id (mp_currentRung mp) s) !! id = Some mp.
Proof.
  intros Hid Hp H0 Hr1 Hr2 Hn Hf. revert s Hid. induction n as [|n IH]; intros s Hid; [done|].
  simpl. apply IH. pose proof (lookup_lt_Some _ _ _ Hr2) as Hlen.
  pose proof (escalate_notify_next now wall s id mp r1 Hid Hp H0 Hr1 Hn ltac:(lia)) as E1.
  pose proof (escalate_fall_back now wall _ id _ r2 E1 Hp ltac:(simpl; lia) Hr2 Hf) as E2.
  simpl in E2. rewrite E2. destruct mp; unfold set_rung; simpl. do 2 f_equal. lia.
Qed.

(** The approval window is exact up to the range of [time.Duration]: a
    plan recorded with an expiry of at most 9223372036 seconds expires exactly
    that many seconds after the submission. *)
Theorem expiry_window_exact now wall s plan d pol :
  ms_policies s !! plan_OrgID plan = Some pol -> 0 < dec_ExpirySeconds d <= 9223372036 ->
  exists mp, ms_plans (MemService_RecordSubmission now wall s plan d).1 !! plan_ID plan = Some mp
    /\ mp_expiresAt mp = now + dec_ExpirySeconds d * Second.
Proof.
  intros Hpol He. unfold MemService_RecordSubmission. rewrite Hpol.
  match goal with |- context [appendAuditLocked ?a ?b ?c ?d ?e ?f ?g ?h ?i] =>
    pose proof (appendAudit_plans a b c d e f g h i) as Hpl;
    destruct (appendAuditLocked a b c d e f g h i) as [s' er] end.
  simpl in *. rewrite Hpl, lookup_insert_eq. eexists. split; [done|]. simpl.
  destruct (Z.ltb_spec 0 (dec_ExpirySeconds d)); [|lia]. unfold Add. rewrite wrap64_id; [done|].
  unfold is_int64, int64_min, int64_max, Second. lia.
Qed.

(** *** Samples *)

Definition sample_plan : Plan :=
  mkPlan 0 1 None 0 77 ProposerKindAgent [sample_action] [] zero_time.
Definition sample_submitted : MemService :=
  run_op (run_op NewMemService (OpRegister (Some sample_policy))) (OpSubmit 1000 0 50 (Some sample_plan)).
Definition sample_vote (actor : uuid) : DecisionInput := mkDecisionInput 50 actor true "" 0.
Definition sample_approved : MemService :=
  run_op (run_op sample_submitted (OpDecide 2000 0 (sample_vote 11))) (OpDecide 3000 0 (sample_vote 12)).
Definition sample_rejected : MemService :=
  run_op sample_submitted (OpDecide 2000 0 (mkDecisionInput 50 11 false "no" 0)).
Definition the_plan (s : MemService) (id : uuid) : memPlan :=
  default (mkMemPlan sample_plan "" 0 ∅ ∅ [] sample_policy 0) (ms_plans s !! id).

Lemma sample_approved_reachable : reachable sample_approved.
Proof. repeat constructor. Qed.

(** Resubmitting a rejected plan under its own identifier makes it pending
    again: the one way a decided plan changes. *)
Example resubmission_reopens :
  GetPlanStatus sample_rejected 50 = Ok PlanStatusRejected
  /\ GetPlanStatus
       (run_op sample_rejected (OpSubmit 4000 0 60 (Some (set_ID sample_plan 50)))) 50
     = Ok PlanStatusPending.
Proof. vm_compute. done. Qed.

(** One second more than [time.Duration] holds: the window ends before it
    starts. *)
Example expiry_window_overflows :
  Validate (mkPolicy 100 1 None "p" 1 [mkRule PredicateAgentDefault ∅ None [sample_rung] 9223372037]
              {["leads" := sample_group]}) = None
  /\ Add 0 (wrap64 (9223372037 * Second)) < 0.
Proof. vm_compute. done. Qed.

Lemma approved_plans_have_quorum_witness :
  exists g, rung_group (the_plan sample_approved 50) (mp_currentRung (the_plan sample_approved 50)) = Some g
    /\ 0 < ag_RequiredCount g
         <= count (votes (mp_approvals (the_plan sample_approved 50)) (mp_currentRung (the_plan sample_approved 50)))
    /\ (forall u, u ∈ votes (mp_approvals (the_plan sample_approved 50)) (mp_currentRung (the_plan sample_approved 50))
          -> u ∈ ag_HumanUserIDs g)
    /\ forall rung, votes (mp_rejections (the_plan sample_approved 50)) rung = ∅.
Proof.
  apply (approved_plans_have_quorum sample_approved 50);
    [apply sample_approved_reachable | vm_compute; reflexivity | vm_compute; reflexivity].
Defined.

Lemma audit_log_always_verifies_witness :
  length (AuditChain sample_approved 100) = 3%nat
  /\ VerifyChain (AuditChain sample_approved 100) = (-1, None).
Proof.
  split; [vm_compute; reflexivity|].
  apply audit_log_always_verifies. apply sample_approved_reachable.
Defined.

Lemma RecordDecision_behaviour_witness :
  match RecordDecision 2000 0 sample_submitted (sample_vote 11) with
  | (s', Ok out) =>
      (exists mp g, vote_admitted sample_submitted 2000 (sample_vote 11) mp g
                    /\ vote_outcome (sample_vote 11) mp g out)
      /\ GetPlanStatus s' 50 = Ok (do_Status out)
  | (s', Err e) =>
      e <> ErrPanic /\
      (s' = sample_submitted
       \/ (e = ErrAPI CodePlanExpired /\ GetPlanStatus s' 50 = Ok PlanStatusExpired))
  end.
Proof. apply (RecordDecision_behaviour 2000 0 sample_submitted (sample_vote 11)). repeat constructor. Defined.

Lemma decided_plans_are_frozen_witness :
  ms_plans (run_op sample_approved (OpEscalate 9000 0 (mkEscalateInput 50 0 "sla_breach"))) !! 50
  = Some (the_plan sample_approved 50).
Proof.
  apply decided_plans_are_frozen; [vm_compute; reflexivity | vm_compute; discriminate |].
  simpl. intros [H _]. discriminate H.
Defined.

Lemma fall_back_escalation_never_resolves_witness :
  Validate sample_policy = None
  /\ ms_plans (bounce 1000 5000 0 50 (mp_currentRung (the_plan sample_submitted 50)) sample_submitted) !! 50
     = Some (the_plan sample_submitted 50).
Proof.
  split; [vm_compute; reflexivity|].
  apply (fall_back_escalation_never_resolves 1000 5000 0 50 sample_submitted
           (the_plan sample_submitted 50) sample_rung sample_rung2);
    vm_compute; first [reflexivity | discriminate].
Defined.

Lemma expiry_window_exact_witness :
  exists mp, ms_plans (MemService_RecordSubmission 10 0
      (run_op NewMemService (OpRegister (Some sample_policy))) sample_plan
      (mkDecision 0 PlanStatusPending false 0 [sample_rung] 3600)).1 !! plan_ID sample_plan = Some mp
    /\ mp_expiresAt mp = 10 + 3600 * Second.
Proof.
  apply (expiry_window_exact 10 0 _ sample_plan
           (mkDecision 0 PlanStatusPending false 0 [sample_rung] 3600) sample_policy);
    [vm_compute; reflexivity | vm_compute; split; [reflexivity|discriminate]].
Defined.
