(* ===== verification/ApprovalActivity.v ===== *)
(** * The workflow plane's approval activity

    Models [plane/workflow/approval/activity.go]: [Activity.Execute] submits a
    plan and long-polls the policy service, escalating when the rung's SLA
    elapses.  The activity is written against the [PolicyClient] interface of
    the workflow plane; the clock, the context and the passage of time while it
    sleeps are operations of the world it runs in. *)

From S2P Require Import Prelude GoStd Sha256 Json Uuid Policy AuditLog Engine MemService.

Definition PollInterval : duration := 2 * Second.
Definition SLAJitter : duration := 5 * Second.

Record ActivityInput := mkActivityInput {
  ai_OrgID : uuid;
  ai_RepoID : option uuid;
  ai_ProposerID : uuid;
  ai_ProposerKind : ProposerKind;
  ai_Actions : list Action
}.

Record ActivityResult := mkActivityResult {
  ar_PlanID : uuid;
  ar_Status : PlanStatus
}.

Inductive activity_error :=
| ENilClient
| EInvalidProposer
| ESubmit (e : policy_error)
| ECanceled
| EPoll (e : policy_error)
| ELadderExhausted
| EIndexPanic
| EEscalate (e : policy_error).

(** The policy client and the surroundings of the activity. *)
Class World (W : Type) := {
  pc_SubmitPlan : W -> Plan -> W * result policy_error Decision;
  pc_GetPlanStatus : W -> uuid -> W * result policy_error PlanStatus;
  pc_Escalate : W -> EscalateInput -> W * result policy_error EscalateOutcome;
  w_now : W -> time;
  w_ctx_err : W -> bool;
  (** [select] between [ctx.Done] (the flag is true) and [time.After]. *)
  w_sleep : duration -> W -> W * bool
}.

Section activity.
Context {W : Type} `{World W} (pollInterval slaJitter : duration).

Definition zero_result : ActivityResult := mkActivityResult uuid_Nil "".

(** The [for] loop of [Execute]; [None] when the fuel runs out. *)
Fixpoint poll_loop (fuel : nat) (w : W) (d : Decision) (currentRung : Z) (rungEnteredAt : time)
  : option (W * ActivityResult * option activity_error) :=
  match fuel with
  | O => None
  | S fuel' =>
      if w_ctx_err w
      then Some (w, mkActivityResult (dec_PlanID d) PlanStatusPending, Some ECanceled)
      else
        let '(w, r) := pc_GetPlanStatus w (dec_PlanID d) in
        match r with
        | Err e => Some (w, zero_result, Some (EPoll e))
        | Ok status =>
            if negb (bool_decide (status = PlanStatusPending))
            then Some (w, mkActivityResult (dec_PlanID d) status, None)
            else
              match (if currentRung <? 0 then None else dec_Ladder d !! Z.to_nat currentRung) with
              | None => Some (w, zero_result, Some (if currentRung <? 0 then EIndexPanic else ELadderExhausted))
              | Some rung =>
                  let deadline :=
                    Add rungEnteredAt (wrap64 (wrap64 (rung_SLASeconds rung * Second) + slaJitter)) in
                  if After (w_now w) deadline then
                    let '(w, r) := pc_Escalate w (mkEscalateInput (dec_PlanID d) currentRung "sla_breach") in
                    match r with
                    | Err e => Some (w, zero_result, Some (EEscalate e))
                    | Ok out =>
                        if eo_FinalRung out then poll_loop fuel' w d currentRung rungEnteredAt
                        else poll_loop fuel' w d (eo_NewRung out) (w_now w)
                    end
                  else
                    let '(w, done) := w_sleep pollInterval w in
                    if done then Some (w, mkActivityResult (dec_PlanID d) PlanStatusPending, Some ECanceled)
                    else poll_loop fuel' w d currentRung rungEnteredAt
              end
        end
  end.

(** [Activity.Execute]; the flag says whether the client is nil. *)
Definition Execute (fuel : nat) (nil_client : bool) (w : W) (inp : ActivityInput)
  : option (W * ActivityResult * option activity_error) :=
  if nil_client then Some (w, zero_result, Some ENilClient)
  else if negb (ProposerKind_IsValid (ai_ProposerKind inp)) then Some (w, zero_result, Some EInvalidProposer)
  else
    let plan := mkPlan uuid_Nil (ai_OrgID inp) (ai_RepoID inp) uuid_Nil (ai_ProposerID inp)
                  (ai_ProposerKind inp) (ai_Actions inp) (replicate 32 (chr 0)) zero_time in
    let '(w, r) := pc_SubmitPlan w plan in
    match r with
    | Err e => Some (w, zero_result, Some (ESubmit e))
    | Ok d =>
        if dec_AutoApproved d || bool_decide (dec_Status d = PlanStatusAutoApprovedNoRule)
        then Some (w, mkActivityResult (dec_PlanID d) (dec_Status d), None)
        else if negb (bool_decide (dec_Status d = PlanStatusPending))
        then Some (w, mkActivityResult (dec_PlanID d) (dec_Status d), None)
        else poll_loop fuel w d 0 (w_now w)
    end.
End activity.

(** ** The activity against the in-memory service

    While the activity sleeps, [idle] lets time pass and approvers vote. *)

Record mem_world := mkWorld { w_svc : MemService; w_clock : time }.

Definition vote_step (s : MemService) (v : time * time * DecisionInput) : MemService :=
  (RecordDecision v.1.1 v.1.2 s v.2).1.

Section mem_world.
Context (wall : time) (fresh : uuid) (cancelled : mem_world -> bool)
        (idle : mem_world -> list (time * time * DecisionInput)).

#[local] Instance mem_world_World : World mem_world := {
  pc_SubmitPlan w p :=
    let '(s, _, r) := SubmitPlan (w_clock w) wall fresh (w_svc w) (Some p) in
    (mkWorld s (w_clock w), r);
  pc_GetPlanStatus w id := (w, GetPlanStatus (w_svc w) id);
  pc_Escalate w inp :=
    let '(s, r) := Escalate (w_clock w) wall (w_svc w) inp in (mkWorld s (w_clock w), r);
  w_now := w_clock;
  w_ctx_err := cancelled;
  w_sleep dt w := (mkWorld (fold_left vote_step (idle w) (w_svc w)) (w_clock w + dt), cancelled w)
}.

(** The plan as the activity sees it: decided, or pending at [rung] of the
    decision's ladder. *)
Definition tracks (s : MemService) (d : Decision) (rung : Z) : Prop :=
  exists mp, ms_plans s !! dec_PlanID d = Some mp
    /\ (mp_status mp <> PlanStatusPending
        \/ mp_ladder mp = dec_Ladder d /\ mp_currentRung mp = rung
           /\ 0 <= rung < Z.of_nat (length (dec_Ladder d))).

Lemma vote_keeps_rung s v d rung : tracks s d rung -> tracks (vote_step s v) d rung.
Proof.
  intros (mp & Hid & Hmp). destruct v as [[now wl] inp]. unfold vote_step, RecordDecision. simpl.
  destruct (decide (di_PlanID inp = dec_PlanID d)) as [E|Hne].
  - rewrite E, Hid. case_bool_decide as Hp; simpl; [|by exists mp; auto].
    destruct Hmp as [Hmp|(HL & Hc & Hr)]; [done|].
    case_split; unfold tracks; rewrite ?audit_plan_plans; simpl; rewrite ?lookup_insert_eq;
      eexists; (split; [done|]); simpl; auto.
  - assert (tracks s d rung) as Ht by (exists mp; auto).
    case_split; try done; unfold tracks; rewrite audit_plan_plans; simpl;
      rewrite lookup_insert_ne by done; by exists mp.
Qed.

Lemma votes_keep_rung s l d rung : tracks s d rung -> tracks (fold_left vote_step l s) d rung.
Proof. revert s. induction l as [|v l IH]; intros s Ht; [done|]. by apply IH, vote_keeps_rung. Qed.

(** What [Escalate] does to a tracked pending plan with no fall_back rung. *)
Lemma escalate_tracked now s d rung r mp :
  ms_plans s !! dec_PlanID d = Some mp -> mp_status mp = PlanStatusPending ->
  mp_ladder mp = dec_Ladder d -> mp_currentRung mp = rung ->
  0 <= rung < Z.of_nat (length (dec_Ladder d)) -> dec_Ladder d !! Z.to_nat rung = Some r ->
  rung_OnTimeout r = OnTimeoutNotifyNext \/ rung_OnTimeout r = OnTimeoutAutoDeny ->
  exists s' out,
    Escalate now wall s (mkEscalateInput (dec_PlanID d) rung "sla_breach") = (s', Ok out)
    /\ (eo_FinalRung out = true
        /\ (exists mp', ms_plans s' !! dec_PlanID d = Some mp' /\ mp_status mp' <> PlanStatusPending)
        \/ eo_FinalRung out = false /\ eo_NewRung out = rung + 1 /\ tracks s' d (rung + 1)).
Proof.
  intros Hid Hp HL Hc Hr Hlk Hot. unfold Escalate. cbn [ei_PlanID ei_FromRung]. rewrite Hid, Hp, Hc, Z.eqb_refl.
  cbn [negb]. rewrite bool_decide_eq_true_2 by done. cbn [negb].
  destruct (Z.ltb_spec rung 0); [lia|]. rewrite HL, Hlk.
  destruct Hot as [->| ->].
  - rewrite !bool_decide_eq_false_2, bool_decide_eq_true_2 by done.
    destruct (Z.leb_spec (Z.of_nat (length (dec_Ladder d))) (rung + 1)).
    + do 2 eexists. split; [done|]. left. split; [done|]. eexists.
      rewrite audit_plan_plans. simpl. by rewrite lookup_insert_eq.
    + do 2 eexists. split; [done|]. right. split; [done|]. split; [done|].
      unfold tracks. rewrite audit_plan_plans. simpl. rewrite lookup_insert_eq.
      eexists. split; [done|]. right. simpl. repeat split; [done|lia|lia].
  - rewrite bool_decide_eq_true_2 by done.
    do 2 eexists. split; [done|]. left. split; [done|]. eexists.
    rewrite audit_plan_plans. simpl. by rewrite lookup_insert_eq.
Qed.

Context (pollInterval slaJitter : duration) (Hpoll : 0 < pollInterval).

Lemma poll_decided d rung entered w mp :
  ms_plans (w_svc w) !! dec_PlanID d = Some mp -> mp_status mp <> PlanStatusPending ->
  exists r, poll_loop pollInterval slaJitter 1 w d rung entered = Some r.
Proof.
  intros Hid Hp. simpl. destruct (cancelled w); [by eexists|]. unfold GetPlanStatus. rewrite Hid.
  rewrite bool_decide_eq_false_2 by done. by eexists.
Qed.

Definition resolving (r : EscalationRung) : Prop :=
  rung_OnTimeout r = OnTimeoutNotifyNext \/ rung_OnTimeout r = OnTimeoutAutoDeny.

Definition terminates (w : mem_world) (d : Decision) (rung : Z) (entered : time) : Prop :=
  exists fuel r, poll_loop pollInterval slaJitter fuel w d rung entered = Some r.

Definition rung_deadline (r : EscalationRung) (entered : time) : time :=
  Add entered (wrap64 (wrap64 (rung_SLASeconds r * Second) + slaJitter)).

Definition slept (w : mem_world) : mem_world :=
  mkWorld (fold_left vote_step (idle w) (w_svc w)) (w_clock w + pollInterval).

(** One turn of the loop on a pending plan. *)
Lemma poll_turn d rung entered w r mp :
  ms_plans (w_svc w) !! dec_PlanID d = Some mp -> mp_status mp = PlanStatusPending ->
  0 <= rung -> dec_Ladder d !! Z.to_nat rung = Some r ->
  (rung_deadline r entered < w_clock w ->
   exists s' out,
     Escalate (w_clock w) wall (w_svc w) (mkEscalateInput (dec_PlanID d) rung "sla_breach") = (s', Ok out)
     /\ (if eo_FinalRung out then terminates (mkWorld s' (w_clock w)) d rung entered
         else terminates (mkWorld s' (w_clock w)) d (eo_NewRung out) (w_clock w))) ->
  (w_clock w <= rung_deadline r entered -> terminates (slept w) d rung entered) ->
  terminates w d rung entered.
Proof.
  intros Hid Hp H0 Hlk Hesc Hsleep.
  destruct (cancelled w) eqn:Hc; [exists 1%nat; simpl; rewrite Hc; by eexists|].
  unfold After, rung_deadline in *.
  destruct (Z.ltb_spec (Add entered (wrap64 (wrap64 (rung_SLASeconds r * Second) + slaJitter))) (w_clock w))
    as [Hd|Hd].
  - destruct (Hesc Hd) as (s' & out & HE & HT).
    destruct (eo_FinalRung out) eqn:Hf; destruct HT as (fuel & res & HT); exists (S fuel), res; simpl;
      rewrite Hc; unfold GetPlanStatus; rewrite Hid, Hp; simpl;
      destruct (Z.ltb_spec rung 0); try lia; rewrite Hlk; unfold After;
      (destruct (Z.ltb_spec (Add entered (wrap64 (wrap64 (rung_SLASeconds r * Second) + slaJitter))) (w_clock w));
        [|lia]); by rewrite HE, Hf.
  - destruct (Hsleep Hd) as (fuel & res & HT). exists (S fuel), res. simpl.
    rewrite Hc. unfold GetPlanStatus. rewrite Hid, Hp. simpl.
    destruct (Z.ltb_spec rung 0); [lia|]. rewrite Hlk. unfold After.
    by destruct (Z.ltb_spec (Add entered (wrap64 (wrap64 (rung_SLASeconds r * Second) + slaJitter))) (w_clock w));
      [lia|].
Qed.

Lemma decided_terminates d rung entered w :
  (exists mp, ms_plans (w_svc w) !! dec_PlanID d = Some mp /\ mp_status mp <> PlanStatusPending) ->
  terminates w d rung entered.
Proof. intros (mp & Hid & Hp). destruct (poll_decided d rung entered w mp Hid Hp). by exists 1%nat, x. Qed.

(** The wait at one rung ends, given that the rungs above it do. *)
Lemma rung_terminates d rung :
  Forall resolving (dec_Ladder d) ->
  (forall w entered, tracks (w_svc w) d (rung + 1) -> terminates w d (rung + 1) entered) ->
  forall ticks w entered, tracks (w_svc w) d rung ->
    (forall r, dec_Ladder d !! Z.to_nat rung = Some r ->
       rung_deadline r entered - w_clock w < Z.of_nat ticks * pollInterval) ->
    terminates w d rung entered.
Proof.
  intros Hres Hnext ticks. induction ticks as [|t IHt]; intros w entered Ht Htick;
    pose proof Ht as (mp & Hid & Hmp);
    (destruct (decide (mp_status mp = PlanStatusPending)) as [Hp|Hnp];
      [|apply decided_terminates; by eauto]);
    (destruct Hmp as [?|(HL & Hc & Hr)]; [done|]);
    destruct (lookup_lt_is_Some_2 (dec_Ladder d) (Z.to_nat rung) ltac:(lia)) as [r Hlk];
    pose proof (proj1 (Forall_lookup _ _) Hres _ _ Hlk) as Hot;
    (apply (poll_turn d rung entered w r mp); [done|done|lia|done| |]).
  1, 3: intros _;
    destruct (escalate_tracked (w_clock w) _ d rung r mp Hid Hp HL Hc Hr Hlk Hot)
      as (s' & out & HE & [[Hf Hdec]|(Hf & Hn & Ht')]); exists s', out; rewrite HE, Hf;
      (split; [done|]); [by apply decided_terminates | rewrite Hn; by apply Hnext].
  - intros Hle. specialize (Htick r Hlk). lia.
  - intros Hle. apply IHt; [by apply votes_keep_rung|]. intros r' Hlk'. simplify_eq.
    specialize (Htick r Hlk). simpl. lia.
Qed.

Lemma tracks_terminates d k :
  Forall resolving (dec_Ladder d) ->
  forall rung w entered, Z.of_nat (length (dec_Ladder d)) - rung <= Z.of_nat k ->
    tracks (w_svc w) d rung -> terminates w d rung entered.
Proof.
  intros Hres. induction k as [|k IH]; intros rung w entered Hk Ht.
  - destruct Ht as (mp & Hid & [Hd|(_ & _ & Hr)]); [|lia]. apply decided_terminates. by eauto.
  - destruct (dec_Ladder d !! Z.to_nat rung) as [r|] eqn:Hlk.
    + eapply (rung_terminates d rung Hres) with
        (ticks := Z.to_nat (Z.max 0 (rung_deadline r entered - w_clock w) + 1)); [|done|].
      * intros w' entered' Ht'. apply IH; [lia|done].
      * intros r' Hlk'. simplify_eq. nia.
    + destruct Ht as (mp & Hid & [Hd|(_ & _ & Hr)]); [apply decided_terminates; by eauto|].
      apply lookup_ge_None in Hlk. lia.
Qed.

Lemma submit_tracked now s plan s' p' d :
  (forall org pol, ms_policies s !! org = Some pol ->
     forall r, r ∈ pol_Rules pol -> Forall resolving (rule_Ladder r)) ->
  SubmitPlan now wall fresh s (Some plan) = (s', p', Ok d) -> dec_Status d = PlanStatusPending ->
  Forall resolving (dec_Ladder d) /\ tracks s' d 0.
Proof.
  intros Hnofb HS Hst. rewrite SubmitPlan_engine in HS. unfold Engine_SubmitPlan in HS.
  destruct (negb _); [done|]. simpl in HS. unfold MemService_LoadPolicy in HS.
  destruct (ms_policies s !! plan_OrgID plan) as [pol|] eqn:Hpol; [|done].
  destruct (Validate pol) eqn:HV; [done|]. apply Validate_wf in HV.
  unfold MemService_RecordSubmission in HS. rewrite plan_OrgID_stamp, Hpol in HS.
  match type of HS with context [appendAuditLocked ?a ?b ?c ?d ?e ?f ?g ?h ?i] =>
    pose proof (appendAudit_plans a b c d e f g h i) as Hpl;
    destruct (appendAuditLocked a b c d e f g h i) as [s1 [er|]] end; [done|].
  simpl in HS, Hpl. injection HS as <- <- <-.
  destruct (decide_plan_ok pol (stamp_plan fresh pol plan)) as [E|[_ (r & Hr & HL)]]; [by rewrite E in Hst|].
  split; [rewrite HL; by eapply Hnofb|].
  assert (dec_PlanID (decide_plan pol (stamp_plan fresh pol plan)) = plan_ID (stamp_plan fresh pol plan)) as HID.
  { unfold decide_plan. by destruct (first_match _ _ _ _) as [[]|]. }
  unfold tracks. rewrite Hpl, HID, lookup_insert_eq. eexists. split; [done|]. right. simpl.
  repeat split; [lia|]. rewrite HL. destruct HV as (_ & _ & _ & Hrules).
  apply Hrules in Hr as (_ & _ & _ & Hne & _). destruct (rule_Ladder r); [done|]. simpl. lia.
Qed.

(** C11: Against the service, with approvers voting at any time, the approval
    activity always returns (enough turns of the poll loop exist) when the
    policy's rules have no fall_back rung: every rung is eventually decided,
    denied or escalated past, and the ladder is finite. *)
Theorem Execute_terminates nil_client w inp :
  (forall org pol, ms_policies (w_svc w) !! org = Some pol ->
     forall r, r ∈ pol_Rules pol -> Forall resolving (rule_Ladder r)) ->
  exists fuel res, Execute pollInterval slaJitter fuel nil_client w inp = Some res.
Proof.
  intros Hnofb. unfold Execute. destruct nil_client; [by exists 0%nat; eexists|].
  destruct (negb _); [by exists 0%nat; eexists|].
  set (plan := mkPlan _ _ _ _ _ _ _ _ _). cbn [pc_SubmitPlan mem_world_World].
  destruct (SubmitPlan (w_clock w) wall fresh (w_svc w) (Some plan)) as [[s p'] r] eqn:E.
  destruct r as [d|e]; [|by exists 0%nat; eexists].
  destruct (_ || _) eqn:Ea; [by exists 0%nat; eexists|].
  destruct (decide (dec_Status d = PlanStatusPending)) as [Hp|Hp];
    [rewrite bool_decide_eq_true_2 by done | rewrite bool_decide_eq_false_2 by done; by exists 0%nat; eexists].
  cbn [negb].
  destruct (submit_tracked _ _ _ _ _ _ Hnofb E Hp) as [Hres Ht].
  by apply (tracks_terminates d (length (dec_Ladder d)) Hres 0 (mkWorld s (w_clock w))); [lia|].
Qed.
End mem_world.

Section interface.
Context {W : Type} `{World W} (pollInterval slaJitter : duration).

Lemma poll_loop_status fuel w d rung entered w' res :
  poll_loop pollInterval slaJitter fuel w d rung entered = Some (w', res, None) ->
  ar_PlanID res = dec_PlanID d /\ ar_Status res <> PlanStatusPending
  /\ exists w0, pc_GetPlanStatus w0 (dec_PlanID d) = (w', Ok (ar_Status res)).
Proof.
  revert w rung entered. induction fuel as [|fuel IH]; intros w rung entered; [done|].
  cbn [poll_loop]. destruct (w_ctx_err w); [done|].
  destruct (pc_GetPlanStatus w (dec_PlanID d)) as [w1 [st|e]] eqn:Hg; [|done].
  case_bool_decide as Hst; cbn [negb]; [|intros [= <- <-]; simpl; by eauto].
  destruct (if rung <? 0 then None else dec_Ladder d !! Z.to_nat rung) as [r|]; [|done].
  destruct (After _ _).
  - destruct (pc_Escalate _ _) as [w2 [out|e]]; [|done]. destruct (eo_FinalRung out); apply IH.
  - destruct (w_sleep _ _) as [w2 []]; [done|]. apply IH.
Qed.

(** Whatever the policy client answers, an execution of the activity that
  returns without an error reports a settled plan: either the decision of
  the submission itself (auto-approved, or any non-pending status), or a
  non-pending status that [GetPlanStatus] returned in the last poll. *)
Theorem Execute_reports_settled_status fuel nil_client w inp w' res :
  Execute pollInterval slaJitter fuel nil_client w inp = Some (w', res, None) ->
  exists w1 d plan,
    pc_SubmitPlan w plan = (w1, Ok d) /\ ar_PlanID res = dec_PlanID d
    /\ ((ar_Status res = dec_Status d
         /\ (dec_AutoApproved d = true \/ dec_Status d <> PlanStatusPending))
        \/ (ar_Status res <> PlanStatusPending
            /\ exists w0, pc_GetPlanStatus w0 (dec_PlanID d) = (w', Ok (ar_Status res)))).
Proof.
  unfold Execute. destruct nil_client; [done|]. destruct (negb _); [done|].
  set (plan := mkPlan _ _ _ _ _ _ _ _ _).
  destruct (pc_SubmitPlan w plan) as [w1 [d|e]] eqn:HS; [|done]. intros HE. exists w1, d, plan.
  split; [done|]. destruct (dec_AutoApproved d) eqn:Ha; cbn [orb] in HE.
  { injection HE as _ <-. simpl. auto 10. }
  case_bool_decide as H1; [injection HE as _ <-; simpl; rewrite H1; split; [done|]; left; split; [done|by right]|].
  case_bool_decide as H2; cbn [negb] in HE.
  - apply poll_loop_status in HE as (? & ? & ?). auto.
  - injection HE as _ <-. simpl. auto 10.
Qed.
End interface.

(** *** Samples *)

Definition no_fb_policy : Policy :=
  mkPolicy 100 1 None "p" 1 [mkRule PredicateAgentDefault ∅ None [sample_rung; mkRung "leads" 60 OnTimeoutAutoDeny] 3600]
    {["leads" := sample_group]}.
Definition sample_world : mem_world :=
  mkWorld (run_op NewMemService (OpRegister (Some no_fb_policy))) 1000.
Definition sample_input : ActivityInput := mkActivityInput 1 None 77 ProposerKindAgent [sample_action].
Definition never (w : mem_world) : bool := false.
Definition nobody (w : mem_world) : list (time * time * DecisionInput) := [].

(** With nobody voting the plan is denied after both rungs. *)
Example sample_execution :
  (fun r => r.1.2) <$>
    Execute (H := mem_world_World 0 50 never nobody) PollInterval SLAJitter 100 false sample_world sample_input
  = Some (mkActivityResult 50 PlanStatusAutoDenied).
Proof. vm_compute. reflexivity. Qed.

Lemma Execute_terminates_witness :
  exists fuel res,
    Execute (H := mem_world_World 0 50 never nobody) PollInterval SLAJitter fuel false sample_world sample_input
    = Some res.
Proof.
  apply Execute_terminates; [reflexivity|].
  intros org pol Hpol r Hr. assert (Validate no_fb_policy = None) as HV by (vm_compute; reflexivity).
  simpl in Hpol. rewrite HV in Hpol. simpl in Hpol. apply lookup_insert_Some in Hpol as [[_ <-]|[_ Hpol]].
  - apply list_elem_of_singleton in Hr as ->. apply Forall_cons; split; [by left|]. apply Forall_cons; split; [by right|constructor].
  - clear HV. exfalso. exact (lookup_empty_Some (M := gmap uuid) org pol Hpol).
Defined.

(** A client whose plans are approved by the first poll. *)
Definition sample_decision : Decision := mkDecision 50 PlanStatusPending false 0 [sample_rung] 3600.
Definition instant_world : World unit := {|
  pc_SubmitPlan w p := (w, Ok sample_decision);
  pc_GetPlanStatus w id := (w, Ok PlanStatusApproved);
  pc_Escalate w inp := (w, Err (ErrAPI CodePlanAlreadyDecided));
  w_now w := 0;
  w_ctx_err w := false;
  w_sleep dt w := (w, false)
|}.

Lemma Execute_reports_settled_status_witness :
  exists w1 d plan,
    pc_SubmitPlan (World := instant_world) tt plan = (w1, Ok d) /\ 50 = dec_PlanID d
    /\ ((PlanStatusApproved = dec_Status d
         /\ (dec_AutoApproved d = true \/ dec_Status d <> PlanStatusPending))
        \/ (PlanStatusApproved <> PlanStatusPending
            /\ exists w0, pc_GetPlanStatus (World := instant_world) w0 (dec_PlanID d)
                          = (tt, Ok PlanStatusApproved))).
Proof.
  apply (@Execute_reports_settled_status unit instant_world PollInterval SLAJitter 1 false tt sample_input tt
           (mkActivityResult 50 PlanStatusApproved)).
  reflexivity.
Defined.
