(* ===== verification/AgentsMd.v ===== *)
(** * AGENTS.md policies: types, parser, merge

    Models [plane/application/agentsmd/policy.go], [diagnostic.go],
    [parser.go] and [merge.go].  [yaml.Unmarshal] of the front matter is a
    parameter (the library is not part of the repository); diagnostic message
    texts are left out. *)

From S2P Require Import Prelude GoStd.

(** ** policy.go *)

Definition SchemaVersionV1 : string := "gitscale/v1".

Definition PredicateName := string.
Definition PredicateForcePushToBranch : PredicateName := "force_push_to_branch".
Definition PredicateDeleteBranch : PredicateName := "delete_branch".
Definition PredicatePushToBranch : PredicateName := "push_to_branch".
Definition PredicateModifyPath : PredicateName := "modify_path".
Definition PredicatePushBinaryOverSize : PredicateName := "push_binary_over_size".

Definition AllPredicates : list PredicateName :=
  [PredicateForcePushToBranch; PredicateDeleteBranch; PredicatePushToBranch; PredicateModifyPath;
   PredicatePushBinaryOverSize].

Record PredicateSelector := mkSelector {
  sel_BranchGlob : string;
  sel_PathGlob : string;
  sel_MaxBytes : Z
}.

Record NeverPredicate := mkNever {
  np_Name : PredicateName;
  np_Selector : PredicateSelector
}.

Record AgentsPolicy := mkAgentsPolicy {
  ap_SchemaVersion : string;
  ap_Empty : bool;
  ap_Never : list NeverPredicate
}.

#[export] Instance PredicateSelector_eq_dec : EqDecision PredicateSelector.
Proof. solve_decision. Defined.
#[export] Instance NeverPredicate_eq_dec : EqDecision NeverPredicate.
Proof. solve_decision. Defined.

(** The loop of [itoa64]: digits of a positive [n] in front of [buf]. *)
Fixpoint itoa64_loop (fuel : nat) (n : Z) (buf : list ascii) : list ascii :=
  match fuel with
  | O => buf
  | S fuel' =>
      if 0 <? n then itoa64_loop fuel' (n ÷ 10) (chr (48 + Z.rem n 10) :: buf) else buf
  end.

Definition itoa64 (n : Z) : string :=
  if n =? 0 then "0"
  else
    let negative := n <? 0 in
    let n := if negative then wrap64 (- n) else n in
    let buf := itoa64_loop 20 n [] in
    l2s (if negative then "-"%char :: buf else buf).

Definition key (p : NeverPredicate) : string :=
  np_Name p +:+ "|" +:+ sel_BranchGlob (np_Selector p) +:+ "|" +:+ sel_PathGlob (np_Selector p)
  +:+ "|" +:+ itoa64 (sel_MaxBytes (np_Selector p)).

(** ** diagnostic.go *)

Inductive Severity := SeverityError | SeverityWarning.

Definition CodeUnknownSection : string := "unknown_section".
Definition CodeMalformedPredicate : string := "malformed_predicate".
Definition CodeUnsupportedSchemaVersion : string := "unsupported_schema_version".
Definition CodeDuplicatePredicate : string := "duplicate_predicate".
Definition CodeEmptyNeverBlock : string := "empty_never_block".
Definition CodeUnknownPredicate : string := "unknown_predicate".
Definition CodeMalformedFrontMatter : string := "malformed_front_matter".

Record Diagnostic := mkDiagnostic {
  dg_Code : string;
  dg_Severity : Severity;
  dg_Line : Z
}.

(** ** parser.go *)

Record frontMatter := mkFrontMatter { fm_Schema : string; fm_Version : string }.

Definition newline : ascii := chr 10.

Definition splitLines (data : string) : list string :=
  if bool_decide (data = "") then [] else Split data newline.

(** Lines up to and after the first one that is a [---] delimiter. *)
Fixpoint find_delimiter (lines : list string) : option (list string * list string) :=
  match lines with
  | [] => None
  | l :: rest =>
      if bool_decide (TrimSpace l = "---") then Some ([], rest)
      else match find_delimiter rest with
           | Some (a, b) => Some (l :: a, b)
           | None => None
           end
  end.

(** [splitFrontMatter]: front matter, body and the body's first line number, or
    the diagnostic. *)
Definition splitFrontMatter (data : string) : result Diagnostic (string * string * Z) :=
  let bad := mkDiagnostic CodeMalformedFrontMatter SeverityError 1 in
  match splitLines data with
  | [] => Err bad
  | l0 :: rest =>
      if negb (bool_decide (TrimSpace l0 = "---")) then Err bad
      else
        match find_delimiter rest with
        | None => Err bad
        | Some (front, body) =>
            Ok (Join front (l2s [newline]), Join body (l2s [newline]), Z.of_nat (length front) + 2)
        end
  end.

Definition knownPredicates (n : PredicateName) : bool := bool_decide (n ∈ AllPredicates).

Definition isKnownHeading (h : string) : bool :=
  bool_decide (ToLower h ∈ ["never"; "always"; "prefer"]).

Definition unquote (s : string) : string :=
  match s2l s with
  | first :: (_ :: _) as l =>
      match last l with
      | Some lst =>
          if (bool_decide (first = chr 34) && bool_decide (lst = chr 34))
             || (bool_decide (first = chr 39) && bool_decide (lst = chr 39))
          then l2s (take (length l - 2) (tail l))
          else s
      | None => s
      end
  | _ => s
  end.

Fixpoint parse_digits (n : Z) (l : list ascii) : option Z :=
  match l with
  | [] => Some n
  | c :: l' =>
      if is_digit c then parse_digits (wrap64 (wrap64 (n * 10) + (code c - 48))) l' else None
  end.

(** [parseSize]: [None] is an error. *)
Definition parseSize (s : string) : option Z :=
  match last (s2l s) with
  | None => None
  | Some c =>
      let init := take (length (s2l s) - 1) (s2l s) in
      let '(mul, digits) :=
        if bool_decide (c = "k"%char) || bool_decide (c = "K"%char) then (1024, init)
        else if bool_decide (c = "m"%char) || bool_decide (c = "M"%char) then (1024 * 1024, init)
        else if bool_decide (c = "g"%char) || bool_decide (c = "G"%char) then (1024 * 1024 * 1024, init)
        else (1, s2l s) in
      match parse_digits 0 digits with
      | Some n => Some (wrap64 (n * mul))
      | None => None
      end
  end.

Definition branch_selector (g : string) : PredicateSelector := mkSelector g "" 0.
Definition path_selector (g : string) : PredicateSelector := mkSelector "" g 0.
Definition size_selector (n : Z) : PredicateSelector := mkSelector "" "" n.

(** [parsePredicateItem]: [None] is a non-empty error message. *)
Definition parsePredicateItem (item : string) : option NeverPredicate :=
  match cut_at ":"%char (s2l item) with
  | None => None
  | Some (before, after) =>
      let name := TrimSpace (l2s before) in
      let selector := TrimSpace (l2s after) in
      if bool_decide (name = "") || bool_decide (selector = "") then None
      else if bool_decide (name = PredicateForcePushToBranch) || bool_decide (name = PredicateDeleteBranch)
              || bool_decide (name = PredicatePushToBranch)
      then Some (mkNever name (branch_selector (unquote selector)))
      else if bool_decide (name = PredicateModifyPath)
      then Some (mkNever name (path_selector (unquote selector)))
      else if bool_decide (name = PredicatePushBinaryOverSize) then
        match parseSize (unquote selector) with
        | None => None
        | Some n => Some (mkNever name (size_selector n))
        end
      else Some (mkNever name (branch_selector (unquote selector)))
  end.

(** The variables of the scan in [parseNeverBlock]. *)
Record scan := mkScan {
  sc_preds : list NeverPredicate;
  sc_diags : list Diagnostic;
  sc_seen : gset string;
  sc_inNever : bool;
  sc_neverStart : Z;
  sc_neverCount : Z
}.

Definition scan_init : scan := mkScan [] [] ∅ false 0 0.

Definition empty_block_diag (s : scan) : list Diagnostic :=
  if sc_inNever s && (sc_neverCount s =? 0)
  then [mkDiagnostic CodeEmptyNeverBlock SeverityWarning (sc_neverStart s)] else [].

(** One line of the body, at line [fileLine] of the file. *)
Definition scan_line (s : scan) (fileLine : Z) (raw : string) : scan :=
  let line := TrimRight raw (l2s [chr 13; chr 9; chr 32]) in
  let trim := TrimSpace line in
  if HasPrefix trim "#" then
    let diags := sc_diags s ++ empty_block_diag s in
    let heading := TrimSpace (TrimLeft trim "#") in
    if EqualFold heading "Never" then mkScan (sc_preds s) diags (sc_seen s) true fileLine 0
    else
      mkScan (sc_preds s)
        (diags ++ if isKnownHeading heading then []
                  else [mkDiagnostic CodeUnknownSection SeverityWarning fileLine])
        (sc_seen s) false (sc_neverStart s) (sc_neverCount s)
  else if negb (sc_inNever s) then s
  else if negb (HasPrefix trim "- ") then s
  else
    let report code sev :=
      mkScan (sc_preds s) (sc_diags s ++ [mkDiagnostic code sev fileLine]) (sc_seen s)
        (sc_inNever s) (sc_neverStart s) (sc_neverCount s + 1) in
    let item := TrimSpace (TrimPrefix trim "- ") in
    match parsePredicateItem item with
    | None => report CodeMalformedPredicate SeverityError
    | Some pred =>
        if negb (knownPredicates (np_Name pred)) then report CodeUnknownPredicate SeverityError
        else if bool_decide (key pred ∈ sc_seen s) then report CodeDuplicatePredicate SeverityWarning
        else
          mkScan (sc_preds s ++ [pred]) (sc_diags s) ({[key pred]} ∪ sc_seen s)
            (sc_inNever s) (sc_neverStart s) (sc_neverCount s + 1)
    end.

Fixpoint scan_lines (s : scan) (fileLine : Z) (lines : list string) : scan :=
  match lines with
  | [] => s
  | l :: rest => scan_lines (scan_line s fileLine l) (fileLine + 1) rest
  end.

Definition parseNeverBlock (body : string) (lineOffset : Z) : list NeverPredicate * list Diagnostic :=
  let s := scan_lines scan_init (lineOffset + 1) (splitLines body) in
  (sc_preds s, sc_diags s ++ empty_block_diag s).

Definition empty_policy : AgentsPolicy := mkAgentsPolicy "" true [].

Section parse.
(** [yaml.Unmarshal] of the front matter into [frontMatter]; [None] is an
    error. *)
Context (yaml_unmarshal : string -> option frontMatter).

Definition Parse (data : string) : AgentsPolicy * list Diagnostic :=
  if bool_decide (TrimSpace data = "") then (empty_policy, [])
  else
    match splitFrontMatter data with
    | Err d => (empty_policy, [d])
    | Ok (front, body, frontEndLine) =>
        let fm := if bool_decide (TrimSpace front = "") then Some (mkFrontMatter "" "")
                  else yaml_unmarshal front in
        match fm with
        | None => (empty_policy, [mkDiagnostic CodeMalformedFrontMatter SeverityError 1])
        | Some fm =>
            if bool_decide (fm_Schema fm = "")
            then (empty_policy, [mkDiagnostic CodeMalformedFrontMatter SeverityError 1])
            else if negb (bool_decide (fm_Schema fm = SchemaVersionV1))
            then (empty_policy, [mkDiagnostic CodeUnsupportedSchemaVersion SeverityError 1])
            else
              let '(preds, diags) := parseNeverBlock body frontEndLine in
              (mkAgentsPolicy (fm_Schema fm) (bool_decide (preds = [])) preds, diags)
        end
    end.
End parse.

(** ** merge.go *)

(** One of the two loops of [Merge]: append what is not yet seen. *)
Fixpoint merge_into (acc : list NeverPredicate) (seen : gset string) (l : list NeverPredicate)
  : list NeverPredicate * gset string :=
  match l with
  | [] => (acc, seen)
  | p :: rest =>
      if bool_decide (key p ∈ seen) then merge_into acc seen rest
      else merge_into (acc ++ [p]) ({[key p]} ∪ seen) rest
  end.

(** The predicates of a policy pointer that [Merge] reads. *)
Definition live (p : option AgentsPolicy) : list NeverPredicate :=
  match p with
  | Some q => if ap_Empty q then [] else ap_Never q
  | None => []
  end.

Definition Merge (org repo : option AgentsPolicy) : AgentsPolicy :=
  let '(acc, seen) := merge_into [] ∅ (live org) in
  let '(never, _) := merge_into acc seen (live repo) in
  mkAgentsPolicy SchemaVersionV1 (bool_decide (never = [])) never.

(** ** The deduplication key *)

Lemma itoa64_loop_value fuel n buf :
  0 <= n < 10 ^ Z.of_nat fuel ->
  fold_left (fun n c => n * 10 + (code c - 48)) (itoa64_loop fuel n buf) 0
  = fold_left (fun n c => n * 10 + (code c - 48)) buf n.
Proof.
  revert n buf. induction fuel as [|fuel IH]; intros n buf Hn; simpl.
  { change (10 ^ Z.of_nat 0) with 1 in Hn. by replace n with 0 by lia. }
  destruct (Z.ltb_spec 0 n) as [Hp|Hp]; [|by replace n with 0 by lia].
  rewrite Nat2Z.inj_succ, Z.pow_succ_r in Hn by lia.
  rewrite Z.quot_div_nonneg, Z.rem_mod_nonneg by lia.
  pose proof (Z.mod_pos_bound n 10 ltac:(lia)) as Hm.
  rewrite IH by (split; [apply Z.div_pos; lia | apply Z.div_lt_upper_bound; lia]).
  simpl. f_equal. unfold code, chr. rewrite N_ascii_embedding by lia.
  rewrite Z2N.id by lia. pose proof (Z.div_mod n 10). lia.
Qed.

Lemma itoa64_loop_digits fuel n buf :
  0 <= n -> Forall (fun c => is_digit c = true) buf ->
  Forall (fun c => is_digit c = true) (itoa64_loop fuel n buf).
Proof.
  revert n buf. induction fuel as [|fuel IH]; intros n buf Hn Hb; simpl; [done|].
  destruct (Z.ltb_spec 0 n); [|done]. apply IH; [apply Z.quot_pos; lia|].
  constructor; [|done]. pose proof (Z.rem_bound_pos n 10 ltac:(lia) ltac:(lia)).
  unfold is_digit, code, chr. rewrite N_ascii_embedding by lia. apply andb_true_iff.
  split; apply Z.leb_le; lia.
Qed.

(** Reads [itoa64]'s output back. *)
Definition atoi64 (s : string) : Z :=
  match s2l s with
  | c :: l =>
      if bool_decide (c = "-"%char) then
        match l with [] => int64_min | _ => - digits_value l end
      else digits_value (c :: l)
  | [] => 0
  end.

Lemma itoa64_loop_digits_value n :
  0 < n <= int64_max ->
  digits_value (itoa64_loop 20 n []) = n /\ itoa64_loop 20 n [] <> []
  /\ Forall (fun c => is_digit c = true) (itoa64_loop 20 n []).
Proof.
  unfold int64_max. intros Hn.
  assert (digits_value (itoa64_loop 20 n []) = n) as Hv.
  { apply (itoa64_loop_value 20 n []). change (10 ^ Z.of_nat 20) with 100000000000000000000. lia. }
  split; [done|]. split; [|by apply itoa64_loop_digits; [lia|]].
  intros E. rewrite E in Hv. change (0 = n) in Hv. lia.
Qed.

Lemma atoi64_itoa64 n : is_int64 n -> atoi64 (itoa64 n) = n.
Proof.
  unfold is_int64, itoa64. intros Hn. destruct (Z.eqb_spec n 0) as [->|Hz]; [done|].
  unfold atoi64. rewrite s2l_l2s. destruct (Z.ltb_spec n 0) as [Hneg|Hpos].
  - rewrite bool_decide_eq_true_2 by done. destruct (decide (n = int64_min)) as [->|Hmin]; [done|].
    rewrite wrap64_id by (unfold is_int64, int64_min, int64_max in *; lia).
    destruct (itoa64_loop_digits_value (- n)) as (Hv & Hne & _);
      [unfold int64_min, int64_max in *; lia|].
    destruct (itoa64_loop 20 (- n) []); [done|]. rewrite Hv. lia.
  - destruct (itoa64_loop_digits_value n) as (Hv & Hne & Hd); [lia|].
    destruct (itoa64_loop 20 n []) as [|c l]; [done|]. inversion Hd as [|? ? Hc _]; subst.
    rewrite bool_decide_eq_false_2; [done|]. by intros ->.
Qed.

Lemma itoa64_inj n m : is_int64 n -> is_int64 m -> itoa64 n = itoa64 m -> n = m.
Proof. intros Hn Hm E. rewrite <- (atoi64_itoa64 n Hn), <- (atoi64_itoa64 m Hm). by rewrite E. Qed.

(** The selector of a predicate sets the one field its name reads. *)
Inductive pred_wf : NeverPredicate -> Prop :=
| wf_branch n g :
    n ∈ [PredicateForcePushToBranch; PredicateDeleteBranch; PredicatePushToBranch] ->
    pred_wf (mkNever n (branch_selector g))
| wf_path g : pred_wf (mkNever PredicateModifyPath (path_selector g))
| wf_size k : is_int64 k -> pred_wf (mkNever PredicatePushBinaryOverSize (size_selector k)).

Lemma split_first_sep {A} (s : A) n1 n2 x1 x2 :
  s ∉ n1 -> s ∉ n2 -> n1 ++ s :: x1 = n2 ++ s :: x2 -> n1 = n2 /\ x1 = x2.
Proof.
  revert n2. induction n1 as [|a n1 IH]; intros [|b n2] H1 H2 E; injection E as H.
  - by subst.
  - destruct H2. subst. left.
  - destruct H1. subst. left.
  - subst. rewrite not_elem_of_cons in H1, H2. destruct H1, H2.
    apply IH in H0 as [-> ->]; auto.
Qed.

Definition bar : ascii := "|".

Lemma known_name_no_bar n : n ∈ AllPredicates -> bar ∉ s2l n.
Proof.
  unfold AllPredicates. rewrite !elem_of_cons, elem_of_nil.
  intros [->|[->|[->|[->|[->|[]]]]]]; apply (bool_decide_unpack _); vm_compute; exact I.
Qed.

Lemma pred_wf_known p : pred_wf p -> np_Name p ∈ AllPredicates.
Proof.
  unfold AllPredicates. destruct 1 as [n g Hn| |]; simpl; rewrite !elem_of_cons.
  - rewrite !elem_of_cons in Hn. naive_solver.
  - naive_solver.
  - naive_solver.
Qed.

Lemma key_bytes p :
  s2l (key p) = s2l (np_Name p) ++ bar :: (s2l (sel_BranchGlob (np_Selector p)) ++ bar ::
    (s2l (sel_PathGlob (np_Selector p)) ++ bar :: s2l (itoa64 (sel_MaxBytes (np_Selector p))))).
Proof. unfold key. by rewrite !s2l_app. Qed.

Lemma key_inj p q : pred_wf p -> pred_wf q -> key p = key q -> p = q.
Proof.
  intros Hp Hq E. apply (f_equal s2l) in E. rewrite !key_bytes in E.
  apply split_first_sep in E as [En E]; [|by apply known_name_no_bar, pred_wf_known..].
  apply s2l_inj in En.
  destruct Hp as [n g Hn|g|k Hk], Hq as [n' g' Hn'|g'|k' Hk']; simpl in *; subst;
    try (by rewrite !elem_of_cons, elem_of_nil in Hn; naive_solver);
    try (by rewrite !elem_of_cons, elem_of_nil in Hn'; naive_solver); try done.
  - apply app_inv_tail in E. by apply s2l_inj in E as ->.
  - injection E as E. apply app_inv_tail in E. by apply s2l_inj in E as ->.
  - injection E as E. by apply s2l_inj, itoa64_inj in E as ->.
Qed.

(** ** What the parser produces *)

Lemma parsePredicateItem_wf item p :
  parsePredicateItem item = Some p -> np_Name p ∈ AllPredicates -> pred_wf p.
Proof.
  unfold parsePredicateItem. intros H Hk. case_split_in H; reflect_bools.
  - apply wf_branch. apply orb_true_iff in Heqb0 as [Heqb0|Heqb0];
      [apply orb_true_iff in Heqb0 as [Heqb0|Heqb0]|]; reflect_bools; rewrite Heqb0; set_solver.
  - rewrite Heqb1. constructor.
  - rewrite Heqb2. constructor. unfold parseSize in Heqo0. case_split_in Heqo0; apply wrap64_range.
  - exfalso. unfold AllPredicates in Hk. rewrite !elem_of_cons, elem_of_nil in Hk. naive_solver.
Qed.

Definition keys_of (l : list NeverPredicate) : gset string := list_to_set (key <$> l).

Lemma keys_of_app l1 l2 : keys_of (l1 ++ l2) = keys_of l1 ∪ keys_of l2.
Proof. unfold keys_of. by rewrite fmap_app, list_to_set_app_L. Qed.

Lemma elem_of_keys_of k l : k ∈ keys_of l <-> exists p, k = key p /\ p ∈ l.
Proof. unfold keys_of. rewrite elem_of_list_to_set. by rewrite list_elem_of_fmap. Qed.

Record scan_inv (s : scan) : Prop := {
  si_wf : Forall pred_wf (sc_preds s);
  si_seen : sc_seen s = keys_of (sc_preds s);
  si_nodup : NoDup (key <$> sc_preds s)
}.

Lemma nodup_key_snoc l p :
  NoDup (key <$> l) -> key p ∉ keys_of l -> NoDup (key <$> (l ++ [p])).
Proof.
  intros Hn Hk. rewrite fmap_app. apply NoDup_app. split; [done|]. split; [|by apply NoDup_singleton].
  intros x Hx Hx'. apply list_elem_of_singleton in Hx' as ->. apply Hk. unfold keys_of.
  by apply elem_of_list_to_set.
Qed.

Lemma scan_line_inv s n raw : scan_inv s -> scan_inv (scan_line s n raw).
Proof.
  intros Hs. pose proof Hs as [Hwf Hseen Hnd]. unfold scan_line.
  destruct (HasPrefix _ "#"); [by destruct (EqualFold _ _)|].
  destruct (negb (sc_inNever s)); [done|]. destruct (negb (HasPrefix _ "- ")); [done|].
  destruct (parsePredicateItem _) as [pred|] eqn:Hp; [|by split].
  destruct (negb (knownPredicates _)) eqn:Hkn; [by split|]. case_bool_decide as Hdup; [by split|].
  reflect_bools. split; simpl.
  - apply Forall_app. split; [done|]. apply Forall_singleton.
    eapply parsePredicateItem_wf; [done|]. by unfold knownPredicates in *; reflect_bools.
  - rewrite keys_of_app, Hseen. unfold keys_of at 3. simpl. set_solver.
  - apply nodup_key_snoc; [done|]. by rewrite <- Hseen.
Qed.

Lemma scan_lines_inv s n lines : scan_inv s -> scan_inv (scan_lines s n lines).
Proof. revert s n. induction lines as [|l lines IH]; intros s n Hs; [done|]. by apply IH, scan_line_inv. Qed.

Lemma parseNeverBlock_inv body off :
  Forall pred_wf (parseNeverBlock body off).1 /\ NoDup (key <$> (parseNeverBlock body off).1).
Proof.
  destruct (scan_lines_inv scan_init (off + 1) (splitLines body)) as [Hwf _ Hnd].
  { split; simpl; [constructor|done|constructor]. }
  done.
Qed.

(** ** Merging *)

Lemma merge_into_spec l acc seen :
  seen = keys_of acc -> NoDup (key <$> acc) ->
  let '(acc', seen') := merge_into acc seen l in
  seen' = keys_of acc' /\ NoDup (key <$> acc') /\ (exists rest, acc' = acc ++ rest)
  /\ (forall p, p ∈ acc' -> p ∈ acc \/ p ∈ l)
  /\ (forall p, p ∈ l -> key p ∈ keys_of acc').
Proof.
  revert acc seen. induction l as [|p l IH]; intros acc seen Hs Hn; simpl.
  { repeat split; auto; [by exists []; rewrite app_nil_r|]. intros q Hq. by apply elem_of_nil in Hq. }
  case_bool_decide as Hk.
  - specialize (IH acc seen Hs Hn). destruct (merge_into acc seen l) as [acc' seen'].
    destruct IH as (H1 & H2 & (rest & H3) & H4 & H5). repeat split; eauto.
    + intros q Hq. apply H4 in Hq as [|]; [by left|by right; right].
    + intros q [->|Hq]%elem_of_cons; [|by auto]. rewrite H3, keys_of_app. set_solver.
  - specialize (IH (acc ++ [p]) ({[key p]} ∪ seen)).
    destruct (merge_into (acc ++ [p]) _ l) as [acc' seen'].
    destruct IH as (H1 & H2 & (rest & H3) & H4 & H5).
    { rewrite keys_of_app, Hs. unfold keys_of at 3. simpl. set_solver. }
    { apply nodup_key_snoc; [done|]. by rewrite <- Hs. }
    repeat split; auto.
    + exists (p :: rest). by rewrite H3, <- app_assoc.
    + intros q Hq. apply H4 in Hq as [Hq|]; [|by right; right].
      apply elem_of_app in Hq as [|Hq]; [by left|]. right. by apply list_elem_of_singleton in Hq as ->; left.
    + intros q [->|Hq]%elem_of_cons; [|by auto]. rewrite H3, !keys_of_app.
      unfold keys_of at 2. simpl. set_solver.
Qed.

Lemma Merge_cases org repo :
  let m := Merge org repo in
  NoDup (key <$> ap_Never m)
  /\ (forall p, p ∈ ap_Never m -> p ∈ live org \/ p ∈ live repo)
  /\ (forall p, p ∈ live org \/ p ∈ live repo -> key p ∈ keys_of (ap_Never m))
  /\ (exists o rest, ap_Never m = o ++ rest /\ (forall p, p ∈ o -> p ∈ live org)
                     /\ forall p, p ∈ live org -> key p ∈ keys_of o)
  /\ (ap_Empty m = true <-> ap_Never m = []).
Proof.
  unfold Merge. pose proof (merge_into_spec (live org) [] ∅ eq_refl ltac:(constructor)) as Ho.
  destruct (merge_into [] ∅ (live org)) as [acc seen]. destruct Ho as (O1 & O2 & _ & O4 & O5).
  pose proof (merge_into_spec (live repo) acc seen O1 O2) as Hr.
  destruct (merge_into acc seen (live repo)) as [never seen']. destruct Hr as (R1 & R2 & (rest & R3) & R4 & R5).
  assert (forall p, p ∈ acc -> p ∈ live org) as Hacc.
  { intros p Hp. apply O4 in Hp as [Hp|]; [by apply elem_of_nil in Hp|done]. }
  simpl. split; [done|]. split; [|split; [|split]].
  - intros p Hp. apply R4 in Hp as [Hp|]; auto.
  - intros p [Hp|Hp]; [|by auto]. rewrite R3, keys_of_app. apply O5 in Hp. set_solver.
  - exists acc, rest. auto.
  - by rewrite bool_decide_eq_true.
Qed.

(** ** Printing a Never block *)

Definition render_selector (p : NeverPredicate) : string :=
  if bool_decide (np_Name p = PredicateModifyPath) then sel_PathGlob (np_Selector p)
  else if bool_decide (np_Name p = PredicatePushBinaryOverSize) then itoa64 (sel_MaxBytes (np_Selector p))
  else sel_BranchGlob (np_Selector p).

Definition render_item (p : NeverPredicate) : string :=
  "- " +:+ np_Name p +:+ ": " +:+ render_selector p.

Definition render (preds : list NeverPredicate) : string :=
  Join ("## Never" :: (render_item <$> preds)) (l2s [newline]).

(** A selector that needs no quoting: visible at both ends, not starting with
    a quote, on one line; sizes are non-negative. *)
Definition plain_glob (g : string) : Prop :=
  ends_visible (s2l g) /\ newline ∉ s2l g
  /\ match s2l g with c :: _ => c <> chr 34 /\ c <> chr 39 | [] => False end.

Inductive printable : NeverPredicate -> Prop :=
| pr_branch n g :
    n ∈ [PredicateForcePushToBranch; PredicateDeleteBranch; PredicatePushToBranch] -> plain_glob g ->
    printable (mkNever n (branch_selector g))
| pr_path g : plain_glob g -> printable (mkNever PredicateModifyPath (path_selector g))
| pr_size k : 0 <= k <= int64_max -> printable (mkNever PredicatePushBinaryOverSize (size_selector k)).

Lemma unquote_plain g : plain_glob g -> unquote g = g.
Proof.
  intros (_ & _ & Hq). unfold unquote. destruct (s2l g) as [|c [|c' l]]; try done.
  destruct Hq. destruct (last _); [|done]. by rewrite !(bool_decide_eq_false_2 (c = _)).
Qed.

Lemma parse_digits_value l n :
  Forall (fun c => is_digit c = true) l ->
  0 <= n -> fold_left (fun n c => n * 10 + (code c - 48)) l n <= int64_max ->
  parse_digits n l = Some (fold_left (fun n c => n * 10 + (code c - 48)) l n).
Proof.
  intros Hd. revert n. induction Hd as [|c l Hc Hl IH]; intros n Hn Hm; [done|]. simpl in *.
  rewrite Hc. unfold is_digit in Hc. reflect_bools.
  assert (forall l n, Forall (fun c => is_digit c = true) l -> 0 <= n ->
            n <= fold_left (fun n c => n * 10 + (code c - 48)) l n) as Hmono.
  { clear. induction l as [|c l IH]; intros n Hd Hn; simpl; [lia|]. inversion Hd as [|? ? Hc Hl]; subst.
    unfold is_digit in Hc. reflect_bools. specialize (IH (n * 10 + (code c - 48)) Hl). lia. }
  pose proof (Hmono l (n * 10 + (code c - 48)) Hl ltac:(lia)).
  rewrite (wrap64_id (n * 10)) by (unfold is_int64, int64_min, int64_max in *; lia).
  rewrite wrap64_id by (unfold is_int64, int64_min, int64_max in *; lia).
  apply IH; [lia|done].
Qed.

Lemma itoa64_nonneg k :
  0 <= k <= int64_max ->
  s2l (itoa64 k) <> [] /\ Forall (fun c => is_digit c = true) (s2l (itoa64 k)) /\ digits_value (s2l (itoa64 k)) = k.
Proof.
  intros Hk. unfold itoa64. destruct (Z.eqb_spec k 0) as [->|Hz]; [by repeat constructor|].
  destruct (Z.ltb_spec k 0); [lia|]. rewrite s2l_l2s.
  destruct (itoa64_loop_digits_value k) as (? & ? & ?); [lia|]. done.
Qed.

Lemma digit_visible c : is_digit c = true -> visible c.
Proof. unfold is_digit, visible. intros. reflect_bools. lia. Qed.

Lemma digits_ends_visible l :
  l <> [] -> Forall (fun c => is_digit c = true) l -> ends_visible l.
Proof.
  intros Hne Hd. split.
  - destruct Hd as [|c l Hc Hl]; [done|]. exists c, l. split; [done|]. by apply digit_visible.
  - destruct l as [|c l _] using rev_ind; [done|]. exists c, l. split; [done|].
    apply Forall_app in Hd as [_ Hc]. inversion Hc; subst. by apply digit_visible.
Qed.

Lemma digit_not_newline l : Forall (fun c => is_digit c = true) l -> newline ∉ l.
Proof. intros Hd Hn. rewrite Forall_forall in Hd. apply Hd in Hn. by vm_compute in Hn. Qed.

Lemma itoa64_plain k : 0 <= k <= int64_max -> plain_glob (itoa64 k).
Proof.
  intros Hk. destruct (itoa64_nonneg k Hk) as (Hne & Hd & _). split; [by apply digits_ends_visible|].
  split; [by apply digit_not_newline|]. destruct Hd as [|c l Hc _]; [done|].
  split; intros ->; by vm_compute in Hc.
Qed.

Lemma digit_no_suffix c :
  is_digit c = true ->
  c <> "k"%char /\ c <> "K"%char /\ c <> "m"%char /\ c <> "M"%char /\ c <> "g"%char /\ c <> "G"%char.
Proof. intros Hc. repeat split; intros ->; by vm_compute in Hc. Qed.

Lemma parseSize_itoa64 k : 0 <= k <= int64_max -> parseSize (itoa64 k) = Some k.
Proof.
  intros Hk. destruct (itoa64_nonneg k Hk) as (Hne & Hd & Hv). unfold parseSize.
  destruct (last (s2l (itoa64 k))) as [c|] eqn:HL; [|by apply last_None in HL].
  assert (is_digit c = true) as Hc.
  { apply last_Some in HL as [l' HL]. rewrite HL in Hd. apply Forall_app in Hd as [_ Hd]. by inversion Hd. }
  destruct (digit_no_suffix c Hc) as (? & ? & ? & ? & ? & ?).
  rewrite !bool_decide_eq_false_2 by done. simpl.
  rewrite parse_digits_value; [|done|lia|]; unfold digits_value in Hv; rewrite Hv; [|lia].
  rewrite Z.mul_1_r, wrap64_id; [done|]. unfold is_int64, int64_min, int64_max in *. lia.
Qed.

Lemma printable_wf p : printable p -> pred_wf p.
Proof. destruct 1; constructor; [done|]. unfold is_int64, int64_min, int64_max in *. lia. Qed.

Lemma printable_selector p : printable p -> plain_glob (render_selector p).
Proof.
  destruct 1 as [n g Hn Hg|g Hg|k Hk]; unfold render_selector; simpl; [|done|by apply itoa64_plain].
  rewrite !elem_of_cons, elem_of_nil in Hn. by destruct Hn as [->|[->|[->|[]]]].
Qed.

Definition colon : ascii := ":".

Lemma known_name_plain n :
  n ∈ AllPredicates -> colon ∉ s2l n /\ newline ∉ s2l n /\ ends_visible (s2l n).
Proof.
  unfold AllPredicates. rewrite !elem_of_cons, elem_of_nil.
  intros [->|[->|[->|[->|[->|[]]]]]];
    (split; [apply (bool_decide_unpack _); vm_compute; exact I|]);
    (split; [apply (bool_decide_unpack _); vm_compute; exact I|]);
    apply ends_visible_dec; vm_compute; reflexivity.
Qed.

Lemma parsePredicateItem_render p :
  printable p -> parsePredicateItem (np_Name p +:+ ": " +:+ render_selector p) = Some p.
Proof.
  intros Hp. pose proof (printable_selector p Hp) as Hsel. pose proof Hsel as (Hends & _ & Hq).
  destruct (known_name_plain (np_Name p)) as (Hcol & _ & Hname); [by apply pred_wf_known, printable_wf|].
  unfold parsePredicateItem.
  assert (s2l (np_Name p +:+ ": " +:+ render_selector p)
          = s2l (np_Name p) ++ colon :: s2l (" " +:+ render_selector p)) as -> by by rewrite s2l_app.
  rewrite (cut_at_app colon) by done. rewrite !l2s_s2l, TrimSpace_leading, TrimSpace_visible by done.
  rewrite (unquote_plain _ Hsel).
  assert (np_Name p <> "") as Hn0 by (intros E; rewrite E in Hname; by destruct Hname as [(? & ? & ? & _) _]).
  assert (render_selector p <> "") as Hs0 by (intros E; by rewrite E in Hq).
  rewrite (bool_decide_eq_false_2 (np_Name p = "")), (bool_decide_eq_false_2 (render_selector p = "")) by done.
  simpl. destruct Hp as [n g Hn Hg|g Hg|k Hk]; simpl in *.
  - rewrite !elem_of_cons, elem_of_nil in Hn. by destruct Hn as [->|[->|[->|[]]]].
  - done.
  - unfold render_selector. simpl. by rewrite parseSize_itoa64.
Qed.

Lemma ends_visible_app a b : ends_visible a -> ends_visible b -> forall m, ends_visible (a ++ m ++ b).
Proof.
  intros [(c & l & -> & Hc) _] [_ (d & l' & -> & Hd)] m. split.
  - by exists c, (l ++ m ++ l' ++ [d]).
  - exists d, ((c :: l) ++ m ++ l'). by rewrite <- !app_assoc.
Qed.

Lemma render_item_visible p :
  printable p ->
  ends_visible (s2l (render_item p)) /\ ends_visible (s2l (np_Name p +:+ ": " +:+ render_selector p)).
Proof.
  intros Hp. destruct (printable_selector p Hp) as (Hs & _).
  destruct (known_name_plain (np_Name p)) as (_ & _ & Hn); [by apply pred_wf_known, printable_wf|].
  unfold render_item. rewrite !s2l_app. split; [|by apply ends_visible_app].
  pose proof (ends_visible_app [("-"%char)] (s2l (render_selector p))
                (ends_visible_dec ["-"%char] eq_refl) Hs (s2l " " ++ s2l (np_Name p) ++ s2l ": ")) as H.
  by rewrite <- !app_assoc in H.
Qed.

Lemma scan_render_item s n p :
  sc_inNever s = true -> printable p -> key p ∉ sc_seen s ->
  scan_line s n (render_item p) =
  mkScan (sc_preds s ++ [p]) (sc_diags s) ({[key p]} ∪ sc_seen s) true (sc_neverStart s) (sc_neverCount s + 1).
Proof.
  intros Hin Hp Hk. destruct (render_item_visible p Hp) as [Hv Hvi]. unfold scan_line.
  assert (TrimRight (render_item p) (l2s [chr 13; chr 9; chr 32]) = render_item p) as ->.
  { destruct Hv as [_ (c & l & Hl & Hc)]. by apply (trim_right_visible _ _ c l). }
  rewrite (TrimSpace_visible _ Hv).
  assert (HasPrefix (render_item p) "#" = false) as ->.
  { apply not_true_iff_false. rewrite HasPrefix_spec. by intros [r Hr]. }
  assert (HasPrefix (render_item p) "- " = true) as -> by (apply HasPrefix_spec; by eexists).
  rewrite Hin. cbn [negb]. unfold render_item at 1. rewrite TrimPrefix_app, (TrimSpace_visible _ Hvi).
  rewrite parsePredicateItem_render by done. unfold knownPredicates.
  rewrite bool_decide_eq_true_2 by (by apply pred_wf_known, printable_wf). cbn [negb].
  by rewrite bool_decide_eq_false_2.
Qed.

Lemma scan_render_items s n preds :
  sc_inNever s = true -> sc_seen s = keys_of (sc_preds s) ->
  Forall printable preds -> NoDup (key <$> (sc_preds s ++ preds)) ->
  let s' := scan_lines s n (render_item <$> preds) in
  sc_preds s' = sc_preds s ++ preds /\ sc_diags s' = sc_diags s /\ sc_inNever s' = true
  /\ sc_neverCount s' = sc_neverCount s + Z.of_nat (length preds).
Proof.
  intros Hin Hseen Hp. revert s n Hin Hseen. induction Hp as [|p preds Hp Hps IH]; intros s n Hin Hseen Hnd; simpl.
  { rewrite app_nil_r. repeat split; auto. lia. }
  assert (key p ∉ sc_seen s) as Hk.
  { rewrite Hseen. intros (q & Hq & Hin')%elem_of_keys_of. rewrite fmap_app in Hnd.
    apply NoDup_app in Hnd as (_ & Hdis & _). apply (Hdis (key p)); [|by left].
    rewrite Hq. by apply list_elem_of_fmap_2. }
  rewrite scan_render_item by done.
  destruct (IH (mkScan (sc_preds s ++ [p]) (sc_diags s) ({[key p]} ∪ sc_seen s) true
                  (sc_neverStart s) (sc_neverCount s + 1)) (n + 1)) as (H1 & H2 & H3 & H4); simpl; [done| |by rewrite <- app_assoc|].
  { rewrite keys_of_app, Hseen. unfold keys_of at 3. simpl. set_solver. }
  simpl in H1, H2, H4. rewrite <- app_assoc in H1.
  split; [exact H1|]. split; [exact H2|]. split; [exact H3|]. etransitivity; [exact H4|]. lia.
Qed.

Lemma render_item_oneline p : printable p -> newline ∉ s2l (render_item p).
Proof.
  intros Hp. destruct (printable_selector p Hp) as (_ & Hs & _).
  destruct (known_name_plain (np_Name p)) as (_ & Hn & _); [by apply pred_wf_known, printable_wf|].
  unfold render_item. rewrite !s2l_app, !elem_of_app.
  intros [H|[H|[H|H]]]; try done; revert H; apply (bool_decide_unpack _); vm_compute; exact I.
Qed.

(** ** Properties *)

Lemma Parse_wf yaml data :
  let p := (Parse yaml data).1 in
  Forall pred_wf (ap_Never p) /\ NoDup (ap_Never p) /\ (ap_Empty p = true <-> ap_Never p = []).
Proof.
  assert (forall e, e = empty_policy ->
    Forall pred_wf (ap_Never e) /\ NoDup (ap_Never e) /\ (ap_Empty e = true <-> ap_Never e = [])) as He.
  { intros e ->. by repeat split; constructor. }
  unfold Parse. case_bool_decide; [by apply He|].
  destruct (splitFrontMatter data) as [[[front body] off]|d]; [|by apply He].
  destruct (if bool_decide (TrimSpace front = "") then _ else _) as [fm|]; [|by apply He].
  case_bool_decide; [by apply He|]. case_bool_decide; cbn [negb]; [|by apply He].
  pose proof (parseNeverBlock_inv body off) as [Hwf Hnd].
  destruct (parseNeverBlock body off) as [preds diags]. simpl in *.
  split; [done|]. split; [by apply NoDup_fmap_1 in Hnd|]. by rewrite bool_decide_eq_true.
Qed.

(** [Parse] never yields an unenforceable or ambiguous policy: every
    predicate it keeps has a known name and sets exactly the selector field
    its name reads, no predicate occurs twice, and [Empty] says exactly that
    there is none. *)
Theorem Parse_policy_wf yaml data :
  let p := (Parse yaml data).1 in
  Forall pred_wf (ap_Never p) /\ NoDup (ap_Never p) /\ (ap_Empty p = true <-> ap_Never p = []).
Proof. apply Parse_wf. Qed.

(** The deduplication key identifies a predicate: two predicates as the
    parser builds them (any int64 size, globs of any bytes) with the same key
    are the same predicate, so deduplication never drops a distinct rule. *)
Theorem key_identifies_predicate p q : pred_wf p -> pred_wf q -> key p = key q -> p = q.
Proof. apply key_inj. Qed.

(** [Merge] is the duplicate-free union: a predicate is enforced exactly
    when the org policy or the repository policy has it, so neither document
    can remove a rule of the other, and the org's rules come first. *)
Theorem Merge_is_union org repo :
  Forall pred_wf (live org) -> Forall pred_wf (live repo) ->
  let m := Merge org repo in
  (forall p, p ∈ ap_Never m <-> p ∈ live org \/ p ∈ live repo)
  /\ NoDup (ap_Never m)
  /\ (exists o rest, ap_Never m = o ++ rest /\ forall p, p ∈ o <-> p ∈ live org)
  /\ (ap_Empty m = true <-> ap_Never m = []).
Proof.
  intros Ho Hr. destruct (Merge_cases org repo) as (H1 & H2 & H3 & (o & rest & H4 & H5 & H6) & H7).
  rewrite Forall_forall in Ho, Hr.
  split; [|split; [by apply NoDup_fmap_1 in H1|split; [|done]]].
  - intros p. split; [apply H2|]. intros Hp. pose proof (H3 p Hp) as (q & Hk & Hq)%elem_of_keys_of.
    replace p with q; [done|]. symmetry. apply key_inj; [naive_solver|apply H2 in Hq; naive_solver|done].
  - exists o, rest. split; [done|]. intros p. split; [apply H5|]. intros Hp.
    pose proof (H6 p Hp) as (q & Hk & Hq)%elem_of_keys_of. replace p with q; [done|].
    symmetry. apply key_inj; [by apply Ho|by apply Ho, H5|done].
Qed.

(** Printing a Never block and parsing it back gives the same predicates
    in the same order and no diagnostics, for distinct predicates whose
    selectors need no quoting and non-negative sizes up to the [int64]
    maximum. *)
Theorem parseNeverBlock_render preds off :
  preds <> [] -> Forall printable preds -> NoDup preds ->
  parseNeverBlock (render preds) off = (preds, []).
Proof.
  intros Hne Hp Hnd.
  assert (NoDup (key <$> preds)) as Hk.
  { apply NoDup_fmap_2_strong; [|done]. intros p q Hpi Hqi. rewrite Forall_forall in Hp.
    apply key_inj; by apply printable_wf, Hp. }
  unfold parseNeverBlock, splitLines. rewrite bool_decide_eq_false_2 by by destruct preds.
  unfold render. rewrite Split_Join; [|done|].
  2:{ constructor; [apply (bool_decide_unpack _); vm_compute; exact I|].
      rewrite Forall_fmap. eapply Forall_impl; [done|]. by apply render_item_oneline. }
  cbn [scan_lines].
  assert (scan_line scan_init (off + 1) "## Never" = mkScan [] [] ∅ true (off + 1) 0) as -> by (vm_compute; reflexivity).
  destruct (scan_render_items (mkScan [] [] ∅ true (off + 1) 0) (off + 1 + 1) preds) as (H1 & H2 & H3 & H4); try done.
  rewrite H1, H2. unfold empty_block_diag. rewrite H3, H4. simpl.
  destruct (Z.eqb_spec (0 + Z.of_nat (length preds)) 0) as [E|]; [|done]. by destruct preds.
Qed.

(** *** Samples *)

(** Outside the parser's output the key is ambiguous: a glob may contain the
    separator. *)
Example key_ambiguous_in_general :
  key (mkNever "push_to_branch" (mkSelector "a|b" "c" 0))
  = key (mkNever "push_to_branch" (mkSelector "a" "b|c" 0)).
Proof. by vm_compute. Qed.

(** A deeper heading ends the Never block, whatever its level. *)
Example subheading_ends_never_block :
  (parseNeverBlock (Join ["## Never"; "### Branches"; "- push_to_branch: main"] (l2s [newline])) 0).1 = [].
Proof. vm_compute. reflexivity. Qed.

(** Sizes wrap around: a limit above the [int64] range becomes a small one. *)
Example parseSize_wraps : parseSize "18446744073709551617" = Some 1 /\ parseSize "9223372036854775808" = Some int64_min.
Proof. by vm_compute. Qed.

Definition sample_preds : list NeverPredicate :=
  [mkNever PredicatePushToBranch (branch_selector "release/*");
   mkNever PredicatePushBinaryOverSize (size_selector 1048576)].

Lemma sample_preds_printable : Forall printable sample_preds.
Proof.
  repeat constructor; try (vm_compute; discriminate);
    try (apply (bool_decide_unpack _); vm_compute; exact I).
  - by exists "r"%char, (s2l "elease/*").
  - by exists "*"%char, (s2l "release/").
Qed.

Lemma key_identifies_predicate_witness :
  mkNever PredicatePushToBranch (branch_selector "a|b") = mkNever PredicatePushToBranch (branch_selector "a|b").
Proof.
  apply key_identifies_predicate; [..|vm_compute; reflexivity];
    apply wf_branch; right; right; left.
Defined.

Lemma Merge_is_union_witness :
  let m := Merge (Some (mkAgentsPolicy SchemaVersionV1 false sample_preds))
                 (Some (mkAgentsPolicy SchemaVersionV1 false (reverse sample_preds))) in
  ap_Never m = sample_preds /\
  ((forall p, p ∈ ap_Never m <-> p ∈ sample_preds \/ p ∈ reverse sample_preds)
   /\ NoDup (ap_Never m)
   /\ (exists o rest, ap_Never m = o ++ rest /\ forall p, p ∈ o <-> p ∈ sample_preds)
   /\ (ap_Empty m = true <-> ap_Never m = [])).
Proof.
  split; [vm_compute; reflexivity|].
  apply (Merge_is_union (Some (mkAgentsPolicy SchemaVersionV1 false sample_preds))
           (Some (mkAgentsPolicy SchemaVersionV1 false (reverse sample_preds)))).
  - eapply Forall_impl; [apply sample_preds_printable|]. apply printable_wf.
  - apply Forall_reverse. eapply Forall_impl; [apply sample_preds_printable|]. apply printable_wf.
Defined.

Lemma parseNeverBlock_render_witness : parseNeverBlock (render sample_preds) 3 = (sample_preds, []).
Proof.
  apply parseNeverBlock_render; [discriminate | apply sample_preds_printable |].
  apply (bool_decide_unpack _); vm_compute; exact I.
Defined.
