(* ===== verification/AgentsHook.v ===== *)
(** * AGENTS.md enforcement: evaluation, pre-receive hook, org policy store

    Models [plane/application/agentsmd/evaluate.go], [hook/handler.go] and
    [policystore/policystore.go].  The blob reader and the repository metadata
    are the interfaces of the code, as records of operations whose errors
    distinguish the not-found sentinel from infrastructure failures; a reason
    carries what its message shows. *)

From S2P Require Import Prelude GoStd AgentsMd.

(** ** evaluate.go *)

Definition ZeroOID : string := "0000000000000000000000000000000000000000".

Record RefUpdate := mkRefUpdate {
  ru_RefName : string;
  ru_OldOID : string;
  ru_NewOID : string
}.

Section evaluate.
Context {E : Type}.

Record FileResolver := mkFileResolver {
  fr_Changed : string -> string -> result E (list string);
  fr_Size : string -> string -> result E Z;
  fr_IsFastForward : string -> string -> result E bool
}.

Inductive eval_error :=
| ENoResolver
| EResolver (e : E).

Inductive Reason :=
| ReasonDelete (branch glob : string)
| ReasonPush (branch glob : string)
| ReasonForcePush (branch glob : string)
| ReasonPath (path glob : string)
| ReasonBlob (path : string) (size limit : Z).

Record Violation := mkViolation {
  vi_Predicate : NeverPredicate;
  vi_RefName : string;
  vi_Reason : Reason
}.

Record EvaluationInput := mkEvaluationInput {
  ev_RepoID : string;
  ev_AgentID : string;
  ev_Updates : list RefUpdate;
  ev_Files : option FileResolver
}.

Definition globMatch (glob name : string) : bool :=
  if bool_decide (glob = "") then false
  else match Path.Match glob name with Path.Matched => true | _ => false end.

Definition branch_prefix : string := "refs/heads/".

Definition branchMatches (glob refName : string) : bool :=
  if negb (HasPrefix refName branch_prefix) then false
  else globMatch glob (TrimPrefix refName branch_prefix).

Definition branchName (refName : string) : string :=
  if HasPrefix refName branch_prefix then TrimPrefix refName branch_prefix else refName.

Definition pathMatches (glob p : string) : bool :=
  if HasSuffix glob "/**" then
    let prefix := TrimSuffix glob "/**" in
    bool_decide (p = prefix) || HasPrefix p (prefix +:+ "/")
  else if bool_decide (glob = "**") then true
  else match Path.Match glob p with Path.Matched => true | _ => false end.

(** The loop of push_binary_over_size: the first path over the limit. *)
Fixpoint first_oversize (f : FileResolver) (oid : string) (limit : Z) (paths : list string)
  : result eval_error (option Reason) :=
  match paths with
  | [] => Ok None
  | p :: rest =>
      match fr_Size f oid p with
      | Err e => Err (EResolver e)
      | Ok sz => if limit <? sz then Ok (Some (ReasonBlob p sz limit)) else first_oversize f oid limit rest
      end
  end.

(** [matchPredicate]: [Ok (Some reason)] is a match. *)
Definition matchPredicate (pred : NeverPredicate) (upd : RefUpdate) (files : option FileResolver)
  : result eval_error (option Reason) :=
  let glob := sel_BranchGlob (np_Selector pred) in
  let branch := branchName (ru_RefName upd) in
  if bool_decide (np_Name pred = PredicateDeleteBranch) then
    if negb (branchMatches glob (ru_RefName upd)) then Ok None
    else if negb (bool_decide (ru_NewOID upd = ZeroOID)) then Ok None
    else Ok (Some (ReasonDelete branch glob))
  else if bool_decide (np_Name pred = PredicatePushToBranch) then
    if negb (branchMatches glob (ru_RefName upd)) then Ok None
    else Ok (Some (ReasonPush branch glob))
  else if bool_decide (np_Name pred = PredicateForcePushToBranch) then
    if negb (branchMatches glob (ru_RefName upd)) then Ok None
    else if bool_decide (ru_OldOID upd = ZeroOID) || bool_decide (ru_NewOID upd = ZeroOID) then Ok None
    else
      match files with
      | None => Err ENoResolver
      | Some f =>
          match fr_IsFastForward f (ru_OldOID upd) (ru_NewOID upd) with
          | Err e => Err (EResolver e)
          | Ok ff => if ff then Ok None else Ok (Some (ReasonForcePush branch glob))
          end
      end
  else if bool_decide (np_Name pred = PredicateModifyPath) then
    match files with
    | None => Err ENoResolver
    | Some f =>
        match fr_Changed f (ru_OldOID upd) (ru_NewOID upd) with
        | Err e => Err (EResolver e)
        | Ok paths =>
            let pg := sel_PathGlob (np_Selector pred) in
            match list_find (fun p => pathMatches pg p = true) paths with
            | Some (_, p) => Ok (Some (ReasonPath p pg))
            | None => Ok None
            end
        end
    end
  else if bool_decide (np_Name pred = PredicatePushBinaryOverSize) then
    match files with
    | None => Err ENoResolver
    | Some f =>
        match fr_Changed f (ru_OldOID upd) (ru_NewOID upd) with
        | Err e => Err (EResolver e)
        | Ok paths => first_oversize f (ru_NewOID upd) (sel_MaxBytes (np_Selector pred)) paths
        end
    end
  else Ok None.

(** The inner loop of [Evaluate], over the updates. *)
Fixpoint eval_updates (pred : NeverPredicate) (files : option FileResolver) (upds : list RefUpdate)
  : result (string * string * eval_error) (list Violation) :=
  match upds with
  | [] => Ok []
  | u :: rest =>
      match matchPredicate pred u files with
      | Err e => Err (np_Name pred, ru_RefName u, e)
      | Ok m =>
          let? vs := eval_updates pred files rest in
          Ok (match m with Some r => mkViolation pred (ru_RefName u) r :: vs | None => vs end)
      end
  end.

(** The outer loop, over the predicates. *)
Fixpoint eval_preds (preds : list NeverPredicate) (files : option FileResolver) (upds : list RefUpdate)
  : result (string * string * eval_error) (list Violation) :=
  match preds with
  | [] => Ok []
  | p :: rest =>
      let? vs := eval_updates p files upds in
      let? ws := eval_preds rest files upds in
      Ok (vs ++ ws)
  end.

Definition Evaluate (policy : option AgentsPolicy) (input : EvaluationInput)
  : result (string * string * eval_error) (list Violation) :=
  match policy with
  | None => Ok []
  | Some p =>
      if ap_Empty p || bool_decide (ap_Never p = []) then Ok []
      else eval_preds (ap_Never p) (ev_Files input) (ev_Updates input)
  end.

(** ** hook/handler.go *)

Inductive blob_error :=
| ErrBlobNotFound
| EBlobInfra (e : E).

Record BlobReader := mkBlobReader {
  br_ReadBlob : string -> string -> string -> result blob_error string;
  br_ListChangedPaths : string -> string -> string -> result E (list string);
  br_BlobSize : string -> string -> string -> result E Z;
  br_IsFastForward : string -> string -> string -> result E bool
}.

Definition PolicyStore := string -> result E string.

Record RepoRef := mkRepoRef { rr_RepoID : string; rr_AgentID : string }.

Definition AgentsMdPath : string := "AGENTS.md".

Inductive push_error :=
| EReadRepoPolicy (e : E)
| EResolveOrgPolicy (e : E)
| EEvaluate (e : string * string * eval_error)
| ENeverViolation (vs : list Violation).

(** [tryOID]: [Ok None] when there is nothing to read at this commit. *)
Definition tryOID (blobs : BlobReader) (repo : RepoRef) (oid : string) : result E (option string) :=
  if bool_decide (oid = "") || bool_decide (oid = ZeroOID) then Ok None
  else
    match br_ReadBlob blobs (rr_RepoID repo) oid AgentsMdPath with
    | Ok data => Ok (Some data)
    | Err ErrBlobNotFound => Ok None
    | Err (EBlobInfra e) => Err e
    end.

(** The first commit of a list that has an AGENTS.md. *)
Fixpoint try_oids (blobs : BlobReader) (repo : RepoRef) (oids : list string) : result E (option string) :=
  match oids with
  | [] => Ok None
  | oid :: rest =>
      match tryOID blobs repo oid with
      | Err e => Err e
      | Ok (Some data) => Ok (Some data)
      | Ok None => try_oids blobs repo rest
      end
  end.

Definition readRepoPolicy (blobs : BlobReader) (repo : RepoRef) (updates : list RefUpdate) : result E string :=
  match try_oids blobs repo (ru_NewOID <$> updates) with
  | Err e => Err e
  | Ok (Some data) => Ok data
  | Ok None =>
      match try_oids blobs repo (ru_OldOID <$> updates) with
      | Err e => Err e
      | Ok (Some data) => Ok data
      | Ok None =>
          match br_ReadBlob blobs (rr_RepoID repo) "HEAD" AgentsMdPath with
          | Ok data => Ok data
          | Err ErrBlobNotFound => Ok ""
          | Err (EBlobInfra e) => Err e
          end
      end
  end.

Definition resolverAdapter (blobs : BlobReader) (repoID : string) : FileResolver :=
  mkFileResolver (br_ListChangedPaths blobs repoID) (br_BlobSize blobs repoID)
    (br_IsFastForward blobs repoID).

Context (yaml_unmarshal : string -> option frontMatter).

Definition PreReceive (blobs : BlobReader) (policies : PolicyStore) (repo : RepoRef)
    (updates : list RefUpdate) : result push_error unit :=
  match readRepoPolicy blobs repo updates with
  | Err e => Err (EReadRepoPolicy e)
  | Ok repoBytes =>
      match policies (rr_RepoID repo) with
      | Err e => Err (EResolveOrgPolicy e)
      | Ok orgBytes =>
          let repoPolicy := (Parse yaml_unmarshal repoBytes).1 in
          let orgPolicy := (Parse yaml_unmarshal orgBytes).1 in
          let merged := Merge (Some orgPolicy) (Some repoPolicy) in
          if ap_Empty merged then Ok tt
          else
            let input := mkEvaluationInput (rr_RepoID repo) (rr_AgentID repo) updates
                           (Some (resolverAdapter blobs (rr_RepoID repo))) in
            match Evaluate (Some merged) input with
            | Err e => Err (EEvaluate e)
            | Ok [] => Ok tt
            | Ok vs => Err (ENeverViolation vs)
            end
      end
  end.

(** ** policystore.go *)

Definition AgentsPolicyRepoSlug : string := ".gitscale-agents".

Inductive meta_error :=
| ErrNotFound
| EMetaInfra (e : E).

Record RepoMetadata := mkRepoMetadata {
  rm_LookupRepoSlug : string -> result meta_error (string * string);
  rm_LookupRepoIDBySlug : string -> string -> result meta_error string
}.

(** No policy is the empty document. *)
Definition ResolveOrgPolicyBytes (meta : RepoMetadata) (blobs : BlobReader) (repoID : string) : result E string :=
  match rm_LookupRepoSlug meta repoID with
  | Err ErrNotFound => Ok ""
  | Err (EMetaInfra e) => Err e
  | Ok (orgSlug, _) =>
      match rm_LookupRepoIDBySlug meta orgSlug AgentsPolicyRepoSlug with
      | Err ErrNotFound => Ok ""
      | Err (EMetaInfra e) => Err e
      | Ok policyRepoID =>
          match br_ReadBlob blobs policyRepoID "HEAD" "AGENTS.md" with
          | Ok data => Ok data
          | Err ErrBlobNotFound => Ok ""
          | Err (EBlobInfra e) => Err e
          end
      end
  end.

(** ** Evaluation as a set of pairs *)

Lemma eval_updates_ok pred files upds vs :
  eval_updates pred files upds = Ok vs ->
  (forall u, u ∈ upds -> exists m, matchPredicate pred u files = Ok m)
  /\ forall v, v ∈ vs <-> exists u r, u ∈ upds /\ matchPredicate pred u files = Ok (Some r)
                                      /\ v = mkViolation pred (ru_RefName u) r.
Proof.
  revert vs. induction upds as [|u upds IH]; intros vs H; simpl in H.
  { injection H as <-. split; [intros u Hu; by apply elem_of_nil in Hu|].
    intros v. rewrite elem_of_nil. split; [done|]. intros (u & r & Hu & _). by apply elem_of_nil in Hu. }
  destruct (matchPredicate pred u files) as [m|e] eqn:E1; [|done].
  destruct (eval_updates pred files upds) as [ws|e] eqn:E2; [|done]. injection H as <-.
  destruct (IH ws eq_refl) as [H1 H2]. split.
  { intros u' [->|Hu']%elem_of_cons; [by exists m|by apply H1]. }
  intros v. split.
  - intros Hv. assert ((exists r, m = Some r /\ v = mkViolation pred (ru_RefName u) r) \/ v ∈ ws) as [(r & -> & ->)|Hw].
    { destruct m as [r|]; [apply elem_of_cons in Hv as [->|Hv]; [left; by exists r|by right]|by right]. }
    + exists u, r. split; [left|done].
    + apply H2 in Hw as (u' & r & Hu' & Hm & ->). exists u', r. split; [by right|done].
  - intros (u' & r & [->|Hu']%elem_of_cons & Hm & ->).
    + rewrite E1 in Hm. injection Hm as ->. left.
    + assert (mkViolation pred (ru_RefName u') r ∈ ws) as Hw by (apply H2; by exists u', r).
      destruct m; [by right|done].
Qed.

Lemma eval_preds_ok preds files upds vs :
  eval_preds preds files upds = Ok vs ->
  (forall p u, p ∈ preds -> u ∈ upds -> exists m, matchPredicate p u files = Ok m)
  /\ forall v, v ∈ vs <-> exists p u r, p ∈ preds /\ u ∈ upds /\ matchPredicate p u files = Ok (Some r)
                                        /\ v = mkViolation p (ru_RefName u) r.
Proof.
  revert vs. induction preds as [|p preds IH]; intros vs H; simpl in H.
  { injection H as <-. split; [intros p u Hp; by apply elem_of_nil in Hp|].
    intros v. rewrite elem_of_nil. split; [done|]. intros (p & u & r & Hp & _). by apply elem_of_nil in Hp. }
  destruct (eval_updates p files upds) as [ws|e] eqn:E1; [|done].
  destruct (eval_preds preds files upds) as [xs|e] eqn:E2; [|done]. injection H as <-.
  destruct (IH xs eq_refl) as [H1 H2]. destruct (eval_updates_ok _ _ _ _ E1) as [H3 H4].
  split.
  { intros q u [->|Hq]%elem_of_cons Hu; [by apply H3|by apply H1]. }
  intros v. rewrite elem_of_app, H4, H2. split.
  - intros [(u & r & Hu & Hm & ->)|(q & u & r & Hq & Hu & Hm & ->)].
    + exists p, u, r. split; [left|done].
    + exists q, u, r. split; [by right|done].
  - intros (q & u & r & [->|Hq]%elem_of_cons & Hu & Hm & ->).
    + left. by exists u, r.
    + right. by exists q, u, r.
Qed.

(** Evaluation fails only where some pair fails. *)
Lemma eval_updates_total pred files upds :
  (forall u, u ∈ upds -> exists m, matchPredicate pred u files = Ok m) ->
  exists vs, eval_updates pred files upds = Ok vs.
Proof.
  induction upds as [|u upds IH]; intros H; simpl; [by eexists|].
  destruct (H u) as [m ->]; [left|]. destruct IH as [vs ->]; [|by eexists].
  intros u' Hu'. apply H. by right.
Qed.

Lemma eval_preds_total preds files upds :
  (forall p u, p ∈ preds -> u ∈ upds -> exists m, matchPredicate p u files = Ok m) ->
  exists vs, eval_preds preds files upds = Ok vs.
Proof.
  induction preds as [|p preds IH]; intros H; simpl; [by eexists|].
  destruct (eval_updates_total p files upds) as [vs ->]; [intros u Hu; apply H; [left|done]|].
  destruct IH as [ws ->]; [|by eexists]. intros q u Hq Hu. apply H; [by right|done].
Qed.

Lemma eval_preds_quiet preds files upds :
  eval_preds preds files upds = Ok [] <->
  forall p u, p ∈ preds -> u ∈ upds -> matchPredicate p u files = Ok None.
Proof.
  split.
  - intros H p u Hp Hu. destruct (eval_preds_ok _ _ _ _ H) as [H1 H2].
    destruct (H1 p u Hp Hu) as [[r|] Hm]; [|done].
    destruct (H2 (mkViolation p (ru_RefName u) r)) as [_ H3].
    assert (mkViolation p (ru_RefName u) r ∈ @nil Violation) as Hin by (apply H3; by exists p, u, r).
    by apply elem_of_nil in Hin.
  - intros H. destruct (eval_preds_total preds files upds) as [vs Hvs]; [intros; exists None; by apply H|].
    rewrite Hvs. destruct vs as [|v vs]; [done|].
    destruct (eval_preds_ok _ _ _ _ Hvs) as [_ H2].
    destruct (proj1 (H2 v)) as (p & u & r & Hp & Hu & Hm & _); [left|]. rewrite H in Hm; done.
Qed.


Lemma live_parsed data :
  live (Some (Parse yaml_unmarshal data).1) = ap_Never (Parse yaml_unmarshal data).1.
Proof.
  destruct (Parse_wf yaml_unmarshal data) as (_ & _ & He). simpl.
  destruct (ap_Empty (Parse yaml_unmarshal data).1); [|done]. symmetry. by apply He.
Qed.

(** The rules in force: those of the org document and of the repository's. *)
Definition in_force (org repo : string) (p : NeverPredicate) : Prop :=
  p ∈ ap_Never (Parse yaml_unmarshal org).1 \/ p ∈ ap_Never (Parse yaml_unmarshal repo).1.

Lemma merged_in_force org repo p :
  p ∈ ap_Never (Merge (Some (Parse yaml_unmarshal org).1) (Some (Parse yaml_unmarshal repo).1))
  <-> in_force org repo p.
Proof.
  destruct (Merge_cases (Some (Parse yaml_unmarshal org).1) (Some (Parse yaml_unmarshal repo).1))
    as (_ & H2 & H3 & _). unfold in_force. rewrite !live_parsed in H2, H3.
  destruct (Parse_wf yaml_unmarshal org) as (Ho & _), (Parse_wf yaml_unmarshal repo) as (Hr & _).
  rewrite Forall_forall in Ho, Hr. split; [apply H2|]. intros Hp.
  pose proof (H3 p Hp) as (q & Hk & Hq)%elem_of_keys_of. replace p with q; [done|].
  symmetry. apply key_inj; [destruct Hp; auto|apply H2 in Hq as []; auto|done].
Qed.

Lemma PreReceive_cases blobs policies repo updates rb ob :
  readRepoPolicy blobs repo updates = Ok rb -> policies (rr_RepoID repo) = Ok ob ->
  PreReceive blobs policies repo updates = Ok tt <->
  forall p u, in_force ob rb p -> u ∈ updates ->
    matchPredicate p u (Some (resolverAdapter blobs (rr_RepoID repo))) = Ok None.
Proof.
  intros Hrb Hob. unfold PreReceive. rewrite Hrb, Hob. setoid_rewrite <- merged_in_force.
  set (m := Merge _ _).
  assert (ap_Empty m = true <-> ap_Never m = []) as He by apply Merge_cases.
  destruct (ap_Empty m) eqn:Hem.
  { rewrite (proj1 He eq_refl). split; [|done]. intros _ p u Hp. by apply elem_of_nil in Hp. }
  unfold Evaluate. rewrite Hem. rewrite bool_decide_eq_false_2; [|intros H; by apply He in H]. simpl.
  rewrite <- eval_preds_quiet. destruct (eval_preds _ _ _) as [[|v vs]|e]; naive_solver.
Qed.

(** C2: The pre-receive hook allows a push exactly when the repository's and
    the organisation's policies could both be read and no rule in force of
    either document matches (or fails on) any ref update: it fails closed on
    every infrastructure error, and neither document weakens the other. *)
Theorem PreReceive_allows_iff blobs policies repo updates :
  PreReceive blobs policies repo updates = Ok tt <->
  exists rb ob,
    readRepoPolicy blobs repo updates = Ok rb /\ policies (rr_RepoID repo) = Ok ob
    /\ forall p u, in_force ob rb p -> u ∈ updates ->
         matchPredicate p u (Some (resolverAdapter blobs (rr_RepoID repo))) = Ok None.
Proof.
  destruct (readRepoPolicy blobs repo updates) as [rb|e] eqn:Hrb.
  2:{ unfold PreReceive. rewrite Hrb. split; [done|]. by intros (? & ? & ? & _). }
  destruct (policies (rr_RepoID repo)) as [ob|e] eqn:Hob.
  2:{ unfold PreReceive. rewrite Hrb, Hob. split; [done|]. by intros (? & ? & _ & ? & _). }
  rewrite (PreReceive_cases _ _ _ _ rb ob) by done. split; [by eauto|].
  by intros (rb' & ob' & [= <-] & [= <-] & H).
Qed.

Lemma branchMatches_dir dir name :
  Path.literal (s2l dir) -> Path.slash ∉ s2l name ->
  branchMatches (dir +:+ "/*") (branch_prefix +:+ dir +:+ "/" +:+ name) = true.
Proof.
  intros Hd Hn. unfold branchMatches.
  assert (HasPrefix (branch_prefix +:+ dir +:+ "/" +:+ name) branch_prefix = true) as ->
    by (apply HasPrefix_spec; by eexists).
  rewrite TrimPrefix_app. cbn [negb]. unfold globMatch. rewrite bool_decide_eq_false_2 by by destruct dir.
  replace (dir +:+ "/*") with ((dir +:+ "/") +:+ "*") by by rewrite sapp_assoc.
  assert (Path.Match ((dir +:+ "/") +:+ "*") (dir +:+ "/" +:+ name) = Path.Matched) as ->; [|done].
  apply Path.Match_literal_star.
  - rewrite s2l_app. apply Forall_app. split; [done|]. by repeat constructor.
  - exists name. by rewrite sapp_assoc.
Qed.

(** An organisation rule [push_to_branch: DIR/*] protects the branches
    directly under [DIR]: any push that updates such a branch is rejected,
    whatever the repository's own AGENTS.md says and whatever else the push
    contains. *)
Theorem org_branch_rule_binds blobs policies repo updates ob dir u name :
  policies (rr_RepoID repo) = Ok ob ->
  mkNever PredicatePushToBranch (branch_selector (dir +:+ "/*")) ∈ ap_Never (Parse yaml_unmarshal ob).1 ->
  Path.literal (s2l dir) -> Path.slash ∉ s2l name ->
  u ∈ updates -> ru_RefName u = branch_prefix +:+ dir +:+ "/" +:+ name ->
  exists e, PreReceive blobs policies repo updates = Err e.
Proof.
  intros Hob Hp Hd Hn Hu Hr.
  destruct (PreReceive blobs policies repo updates) as [[]|e] eqn:HP; [exfalso|by eexists].
  destruct (readRepoPolicy blobs repo updates) as [rb|er] eqn:Hrb; [|unfold PreReceive in HP; by rewrite Hrb in HP].
  rewrite (PreReceive_cases _ _ _ _ rb ob) in HP by done.
  specialize (HP _ u (or_introl Hp) Hu). unfold matchPredicate in HP. simpl in HP.
  by rewrite Hr, branchMatches_dir in HP.
Qed.
End evaluate.

Arguments FileResolver : clear implicits.
Arguments BlobReader : clear implicits.

(** *** Samples *)

(** A YAML reader for the one-field front matter of the samples. *)
Definition sample_yaml (s : string) : option frontMatter :=
  if bool_decide (s = "schema: gitscale/v1") then Some (mkFrontMatter SchemaVersionV1 "") else None.
Definition sample_org : string :=
  Join ["---"; "schema: gitscale/v1"; "---"; "## Never"; "- push_to_branch: release/*"] (l2s [newline]).
Definition sample_blobs : BlobReader unit :=
  mkBlobReader (fun _ _ _ => Err ErrBlobNotFound) (fun _ _ _ => Ok []) (fun _ _ _ => Ok 0) (fun _ _ _ => Ok true).
Definition sample_update : RefUpdate := mkRefUpdate "refs/heads/release/v1" "a1" "b2".

Example sample_push_rejected :
  PreReceive sample_yaml sample_blobs (fun _ => Ok sample_org) (mkRepoRef "r" "a") [sample_update]
  = Err (ENeverViolation
           [mkViolation (mkNever PredicatePushToBranch (branch_selector "release/*")) "refs/heads/release/v1"
              (ReasonPush "release/v1" "release/*")]).
Proof. vm_compute. reflexivity. Qed.

Example sample_push_allowed :
  PreReceive sample_yaml sample_blobs (fun _ => Ok sample_org) (mkRepoRef "r" "a")
    [mkRefUpdate "refs/heads/release/v1/hotfix" "a1" "b2"] = Ok tt.
Proof. vm_compute. reflexivity. Qed.

Lemma org_branch_rule_binds_witness :
  exists e, PreReceive sample_yaml sample_blobs (fun _ => Ok sample_org) (mkRepoRef "r" "a")
              [mkRefUpdate "refs/tags/x" "a" "b"; sample_update] = Err e.
Proof.
  apply (org_branch_rule_binds sample_yaml sample_blobs (fun _ => Ok sample_org) (mkRepoRef "r" "a")
           [mkRefUpdate "refs/tags/x" "a" "b"; sample_update] sample_org "release" sample_update "v1").
  - reflexivity.
  - apply (bool_decide_unpack _). vm_compute. exact I.
  - vm_compute. repeat constructor.
  - apply (bool_decide_unpack _). vm_compute. exact I.
  - right. left.
  - reflexivity.
Defined.
