(* ===== verification/GraphqlParser.v ===== *)
(** * The query parser of the GraphQL cost analyser

    Models [plane/application/graphql/cost/parser.go].  The parser state is
    the offset [pos] and the bytes from there on; loops and recursion run on
    fuel, and [ParseQuery] supplies enough of it (see [ParseQuery_total]).
    Parse errors keep their offset, not the wording of their message. *)

From S2P Require Import Prelude GoStd.

(** ** AST *)

Inductive OperationKind := OpQuery | OpMutation.
#[export] Instance OperationKind_eq_dec : EqDecision OperationKind.
Proof. solve_decision. Defined.

Record ArgValue := mkArgValue {
  av_IntValue : option Z;
  av_Raw : string
}.

(** [Selection], with the fields of [Field] and [FragmentRef] that each kind
    populates. *)
Unset Elimination Schemes.
Inductive Selection :=
| SelField (name alias : string) (args : gmap string ArgValue) (directives : list string)
    (sels : list Selection)
| SelFragmentSpread (name : string)
| SelInlineFragment (onType : string) (sels : list Selection).
Set Elimination Schemes.

Record Operation := mkOperation {
  op_Kind : OperationKind;
  op_Name : string;
  op_Sels : list Selection
}.

Record Fragment := mkFragment {
  frag_Name : string;
  frag_OnType : string;
  frag_Sels : list Selection
}.

Record Document := mkDocument {
  doc_Operations : list Operation;
  doc_Fragments : gmap string Fragment
}.

(** ** Parser state *)

Record parser := mkParser { pos : Z; rest : list ascii }.

Inductive parse_error :=
| ErrParse (offset : Z)
| ErrNoOperations
| OutOfFuel.

Definition M A := result parse_error (A * parser).

Definition advance (n : nat) (p : parser) : parser := mkParser (pos p + Z.of_nat n) (drop n (rest p)).
Definition eof (p : parser) : bool := match rest p with [] => true | _ => false end.
Definition peek_is (c : ascii) (p : parser) : bool :=
  match rest p with x :: _ => bool_decide (x = c) | [] => false end.
Definition errf {A} (p : parser) : M A := Err (ErrParse (pos p)).

Definition is_ws (c : ascii) : bool :=
  bool_decide (c ∈ [chr 32; chr 9; chr 10; chr 13; ","%char]).

(** Number of bytes [skipWS] consumes; [comment] inside a [#] comment. *)
Fixpoint ws_length (comment : bool) (l : list ascii) : nat :=
  match l with
  | [] => 0
  | c :: l' =>
      if comment then S (ws_length (negb (bool_decide (c = chr 10))) l')
      else if is_ws c then S (ws_length false l')
      else if bool_decide (c = "#"%char) then S (ws_length true l')
      else 0
  end.

Definition skipWS (p : parser) : parser := advance (ws_length false (rest p)) p.

Definition is_ident (c : ascii) : bool :=
  is_lower c || is_upper c || is_digit c || bool_decide (c = "_"%char).

Fixpoint span_length (f : ascii -> bool) (l : list ascii) : nat :=
  match l with
  | c :: l' => if f c then S (span_length f l') else 0
  | [] => 0
  end.

Definition readIdent (p : parser) : string * parser :=
  let p := skipWS p in
  let n := span_length is_ident (rest p) in
  (l2s (take n (rest p)), advance n p).

Definition expect (c : ascii) (p : parser) : M unit :=
  let p := skipWS p in
  if peek_is c p then Ok (tt, advance 1 p) else errf p.

Definition dq : ascii := chr 34.

(** Offset of the first block-string terminator. *)
Fixpoint find_triple (l : list ascii) : option nat :=
  match l with
  | [] => None
  | _ :: l' =>
      match strip_prefix [dq; dq; dq] l with
      | Some _ => Some 0%nat
      | None => S <$> find_triple l'
      end
  end.

(** The scan of a quoted string after its opening quote: whether it is closed
    and how far [p.pos] moves, closing quote included.  A backslash moves [pos]
    by two even at the end of the input. *)
Fixpoint string_scan (fuel : nat) (l : list ascii) : bool * nat :=
  match fuel, l with
  | S fuel', c :: l' =>
      if bool_decide (c = "\"%char) then
        let '(closed, n) := string_scan fuel' (tail l') in (closed, S (S n))
      else if bool_decide (c = dq) then (true, 1%nat)
      else let '(closed, n) := string_scan fuel' l' in (closed, S n)
  | _, _ => (false, 0%nat)
  end.

Definition readString (p : parser) : M string :=
  match strip_prefix [dq; dq; dq] (rest p) with
  | Some after =>
      match find_triple after with
      | None => errf p
      | Some e => Ok (l2s (take (3 + e + 3) (rest p)), advance (3 + e + 3) p)
      end
  | None =>
      let '(closed, n) := string_scan (length (rest p)) (tail (rest p)) in
      if closed then Ok (l2s (take (S n) (rest p)), advance (S n) p)
      else Err (ErrParse (pos p + Z.of_nat (S n)))
  end.

Fixpoint balanced_loop (fuel : nat) (open close : ascii) (depth : Z) (p : parser) : M unit :=
  match fuel with
  | O => Err OutOfFuel
  | S fuel' =>
      match rest p with
      | [] => errf p
      | c :: _ =>
          if bool_decide (c = open) then balanced_loop fuel' open close (depth + 1) (advance 1 p)
          else if bool_decide (c = close) then
            if depth - 1 =? 0 then Ok (tt, advance 1 p)
            else balanced_loop fuel' open close (depth - 1) (advance 1 p)
          else if bool_decide (c = dq) then
            let? (_, p') := readString p in balanced_loop fuel' open close depth p'
          else balanced_loop fuel' open close depth (advance 1 p)
      end
  end.

Definition skipBalanced (open close : ascii) (p : parser) : M unit :=
  if negb (peek_is open p) then errf p
  else balanced_loop (S (length (rest p))) open close 0 p.

Definition readNumber (p : parser) : M ArgValue :=
  let n0 := if peek_is "-"%char p then 1%nat else 0%nat in
  let n1 := (n0 + span_length is_digit (drop n0 (rest p)))%nat in
  let hasDot := peek_is "."%char (advance n1 p) in
  let n := if hasDot then (n1 + 1 + span_length is_digit (drop (n1 + 1) (rest p)))%nat else n1 in
  let raw := l2s (take n (rest p)) in
  let p' := advance n p in
  if hasDot then Ok (mkArgValue None raw, p')
  else Ok (mkArgValue (Atoi raw) raw, p').

Definition parseValue (p : parser) : M ArgValue :=
  let p := skipWS p in
  match rest p with
  | [] => errf p
  | c :: _ =>
      if bool_decide (c = "$"%char) then
        let '(name, p') := readIdent (advance 1 p) in Ok (mkArgValue None ("$" +:+ name), p')
      else if bool_decide (c = dq) then
        let? (raw, p') := readString p in Ok (mkArgValue None raw, p')
      else if bool_decide (c = "["%char) then
        let? (_, p') := skipBalanced "["%char "]"%char p in
        Ok (mkArgValue None (l2s (take (length (rest p) - length (rest p')) (rest p))), p')
      else if bool_decide (c = "{"%char) then
        let? (_, p') := skipBalanced "{"%char "}"%char p in
        Ok (mkArgValue None (l2s (take (length (rest p) - length (rest p')) (rest p))), p')
      else if bool_decide (c = "-"%char) || is_digit c then readNumber p
      else
        let '(ident, p') := readIdent p in
        if bool_decide (ident = "") then errf p' else Ok (mkArgValue None ident, p')
  end.

Fixpoint args_loop (fuel : nat) (args : gmap string ArgValue) (p : parser) : M (gmap string ArgValue) :=
  match fuel with
  | O => Err OutOfFuel
  | S fuel' =>
      let p := skipWS p in
      if eof p then errf p
      else if peek_is ")"%char p then Ok (args, advance 1 p)
      else
        let '(name, p) := readIdent p in
        if bool_decide (name = "") then errf p
        else
          let? (_, p) := expect ":"%char (skipWS p) in
          let? (val, p) := parseValue (skipWS p) in
          args_loop fuel' (<[name := val]> args) p
  end.

Definition parseArgs (p : parser) : M (gmap string ArgValue) :=
  let? (_, p) := expect "("%char p in
  args_loop (S (length (rest p))) ∅ p.

(** The directive loop shared by operations, inline fragments and fields:
    [@name(...)], keeping the names. *)
Fixpoint directives_loop (fuel : nat) (acc : list string) (p : parser) : M (list string) :=
  match fuel with
  | O => Err OutOfFuel
  | S fuel' =>
      if negb (peek_is "@"%char p) then Ok (acc, p)
      else
        let '(dname, p) := readIdent (advance 1 p) in
        let p := skipWS p in
        if peek_is "("%char p then
          let? (_, p) := skipBalanced "("%char ")"%char p in
          directives_loop fuel' (acc ++ [dname]) (skipWS p)
        else directives_loop fuel' (acc ++ [dname]) (skipWS p)
  end.

Definition directives (p : parser) : M (list string) := directives_loop (S (length (rest p))) [] p.

(** [parseSelectionSet], its loop, and [parseField]. *)
Fixpoint parseSelectionSet (fuel : nat) (p : parser) {struct fuel} : M (list Selection) :=
  match fuel with
  | O => Err OutOfFuel
  | S fuel' =>
      let? (_, p) := expect "{"%char p in
      selections_loop fuel' [] p
  end
with selections_loop (fuel : nat) (out : list Selection) (p : parser) {struct fuel} : M (list Selection) :=
  match fuel with
  | O => Err OutOfFuel
  | S fuel' =>
      let p := skipWS p in
      if eof p then errf p
      else if peek_is "}"%char p then Ok (out, advance 1 p)
      else
        match strip_prefix ["."; "."; "."]%char (rest p) with
        | Some _ =>
            let '(ident, p) := readIdent (skipWS (advance 3 p)) in
            if bool_decide (ident = "on") then
              let '(typeName, p) := readIdent p in
              let? (_, p) := directives (skipWS p) in
              let? (sels, p) := parseSelectionSet fuel' p in
              selections_loop fuel' (out ++ [SelInlineFragment typeName sels]) p
            else selections_loop fuel' (out ++ [SelFragmentSpread ident]) p
        | None =>
            let? (f, p) := parseField fuel' p in
            selections_loop fuel' (out ++ [f]) p
        end
  end
with parseField (fuel : nat) (p : parser) {struct fuel} : M Selection :=
  match fuel with
  | O => Err OutOfFuel
  | S fuel' =>
      let '(name, p) := readIdent p in
      if bool_decide (name = "") then errf p
      else
        let p := skipWS p in
        let? (na, p) :=
          (if peek_is ":"%char p then
             let '(name2, p) := readIdent (skipWS (advance 1 p)) in
             if bool_decide (name2 = "") then errf p else Ok ((name2, name), skipWS p)
           else Ok ((name, ""), p)) in
        let? (args, p) := (if peek_is "("%char p then parseArgs p else Ok (∅, p)) in
        let? (dirs, p) := directives (skipWS p) in
        if peek_is "{"%char p then
          let? (sels, p) := parseSelectionSet fuel' p in
          Ok (SelField na.1 na.2 args dirs sels, p)
        else Ok (SelField na.1 na.2 args dirs [], p)
  end.

(** Enough for any input: each byte is paid for three times. *)
Definition fuel_for (p : parser) : nat := 3 * length (rest p) + 3.

Definition parseOperation (kind : OperationKind) (p : parser) : M Operation :=
  let '(name, p) := readIdent p in
  let p := skipWS p in
  let? (_, p) := (if peek_is "("%char p then skipBalanced "("%char ")"%char p else Ok (tt, p)) in
  let? (_, p) := directives (skipWS p) in
  let? (sels, p) := parseSelectionSet (fuel_for p) p in
  Ok (mkOperation kind name sels, p).

Definition parseFragment (p : parser) : M Fragment :=
  let '(name, p) := readIdent p in
  if bool_decide (name = "") then errf p
  else
    let '(on, p) := readIdent p in
    if negb (bool_decide (on = "on")) then errf p
    else
      let '(onType, p) := readIdent p in
      if bool_decide (onType = "") then errf p
      else
        let? (sels, p) := parseSelectionSet (fuel_for p) p in
        Ok (mkFragment name onType sels, p).

Definition kindFor (kw : string) : OperationKind :=
  if bool_decide (kw = "mutation") then OpMutation else OpQuery.

(** The top-level loop of [ParseQuery]. *)
Fixpoint definitions_loop (fuel : nat) (doc : Document) (p : parser) : result parse_error Document :=
  match fuel with
  | O => Err OutOfFuel
  | S fuel' =>
      if eof p then Ok doc
      else
        let '(kw, p) := readIdent p in
        if bool_decide (kw = "query") || bool_decide (kw = "mutation") then
          let? (op, p) := parseOperation (kindFor kw) p in
          definitions_loop fuel' (mkDocument (doc_Operations doc ++ [op]) (doc_Fragments doc)) (skipWS p)
        else if bool_decide (kw = "subscription") then Err (ErrParse (pos p))
        else if bool_decide (kw = "fragment") then
          let? (frag, p) := parseFragment p in
          definitions_loop fuel'
            (mkDocument (doc_Operations doc) (<[frag_Name frag := frag]> (doc_Fragments doc))) (skipWS p)
        else Err (ErrParse (pos p))
  end.

Definition ParseQuery (src : string) : result parse_error Document :=
  let p := skipWS (mkParser 0 (s2l src)) in
  if peek_is "{"%char p then
    let? (sels, p) := parseSelectionSet (fuel_for p) p in
    if eof (skipWS p) then Ok (mkDocument [mkOperation OpQuery "" sels] ∅)
    else Err (ErrParse (pos (skipWS p)))
  else
    let? doc := definitions_loop (S (length (rest p))) (mkDocument [] ∅) p in
    if bool_decide (doc_Operations doc = []) then Err ErrNoOperations else Ok doc.

(** ** Consumption

    [safe k p r]: [r] is not out of fuel, and a successful [r] has consumed at
    least [k] bytes of [p]. *)
Definition len (p : parser) : nat := length (rest p).

Definition safe {A} (k : nat) (p : parser) (r : M A) : Prop :=
  match r with
  | Ok (_, p') => (len p' + k <= len p)%nat
  | Err e => e <> OutOfFuel
  end.

Lemma len_advance n p : len (advance n p) = (len p - n)%nat.
Proof. apply length_drop. Qed.

Lemma skipWS_le p : (len (skipWS p) <= len p)%nat.
Proof. unfold skipWS. rewrite len_advance. lia. Qed.

Lemma peek_is_len c p : peek_is c p = true -> (1 <= len p)%nat.
Proof. unfold peek_is, len. destruct (rest p); simpl; [done|lia]. Qed.

Lemma eof_len p : eof p = false -> (1 <= len p)%nat.
Proof. unfold eof, len. destruct (rest p); simpl; [done|lia]. Qed.

Lemma readIdent_le p : (len (readIdent p).2 <= len p)%nat.
Proof. unfold readIdent. cbn [snd]. rewrite len_advance. pose proof (skipWS_le p). lia. Qed.

Lemma span_length_le f l : (span_length f l <= length l)%nat.
Proof. induction l as [|c l IH]; simpl; [lia|]. destruct (f c); simpl; lia. Qed.

Lemma readIdent_lt p : (readIdent p).1 <> "" -> (len (readIdent p).2 + 1 <= len p)%nat.
Proof.
  unfold readIdent. cbn [fst snd]. rewrite len_advance. intros Hne.
  pose proof (skipWS_le p). pose proof (span_length_le is_ident (rest (skipWS p))).
  destruct (span_length is_ident (rest (skipWS p))); [done|].
  unfold len in *. lia.
Qed.

Lemma errf_safe {A} k p q : safe (A:=A) k p (errf q).
Proof. done. Qed.

Lemma expect_safe c p : safe 1 p (expect c p).
Proof.
  unfold expect. destruct (peek_is c (skipWS p)) eqn:H; [|done].
  apply peek_is_len in H. simpl. rewrite len_advance. pose proof (skipWS_le p). lia.
Qed.

Lemma readString_safe p : (1 <= len p)%nat -> safe 1 p (readString p).
Proof.
  intros Hp. unfold readString. destruct (strip_prefix _ _).
  - destruct (find_triple _); simpl; [rewrite len_advance; lia | done].
  - destruct (string_scan _ _) as [[] n]; simpl; [rewrite len_advance; lia | done].
Qed.
(** [use H]: case analysis on the parser call that [H : safe k p r] is about. *)
Ltac use H :=
  match type of H with
  | safe _ _ ?r => destruct r as [[? ?]|?]; cbn [safe] in H |- *; [|exact H]
  end.

(** The [readIdent] at the head of the goal, with its consumption. *)
Ltac ident name p' :=
  match goal with
  | |- context [readIdent ?p] =>
      let H1 := fresh "Hle" in let H2 := fresh "Hlt" in
      pose proof (readIdent_le p) as H1; pose proof (readIdent_lt p) as H2;
      destruct (readIdent p) as [name p']; cbn [fst snd] in H1, H2
  end.

Ltac ws := repeat match goal with
  | _ : context [skipWS ?p] |- _ =>
      lazymatch goal with _ : (len (skipWS p) <= len p)%nat |- _ => fail | _ => pose proof (skipWS_le p) end
  | |- context [skipWS ?p] =>
      lazymatch goal with _ : (len (skipWS p) <= len p)%nat |- _ => fail | _ => pose proof (skipWS_le p) end
  end.

Ltac measure := ws; rewrite ?len_advance in *; lia.

Lemma safe_weaken {A} j k p q (r : M A) :
  safe j q r -> (len q + k <= len p + j)%nat -> safe k p r.
Proof. destruct r as [[a p']|e]; simpl; [lia|done]. Qed.

Lemma balanced_loop_safe fuel o c d p : (len p < fuel)%nat -> safe 1 p (balanced_loop fuel o c d p).
Proof.
  revert d p. induction fuel as [|fuel IH]; intros d p Hf; [lia|]. simpl.
  destruct (rest p) as [|x l] eqn:E; [done|].
  assert (1 <= len p)%nat by (unfold len; rewrite E; simpl; lia).
  assert (Hnext : forall d', safe 1 p (balanced_loop fuel o c d' (advance 1 p))).
  { intros d'. eapply safe_weaken; [apply IH|]; measure. }
  repeat case_bool_decide; auto.
  - destruct (d - 1 =? 0); [|auto]. simpl. measure.
  - pose proof (readString_safe p) as HS. specialize (HS ltac:(lia)). use HS.
    eapply safe_weaken; [apply IH|]; lia.
Qed.

Lemma skipBalanced_safe o c p : safe 1 p (skipBalanced o c p).
Proof.
  unfold skipBalanced. destruct (peek_is o p); [|done]. apply balanced_loop_safe. unfold len. lia.
Qed.

Lemma readNumber_safe p c l :
  rest p = c :: l -> bool_decide (c = "-"%char) || is_digit c = true -> safe 1 p (readNumber p).
Proof.
  intros E Hc. unfold readNumber.
  assert (Hl : len p = S (length l)) by (unfold len; by rewrite E).
  set (n0 := if peek_is "-"%char p then 1%nat else 0%nat).
  set (n1 := (n0 + span_length is_digit (drop n0 (rest p)))%nat).
  assert (1 <= n1)%nat.
  { subst n1 n0. unfold peek_is. rewrite E. simpl.
    destruct (bool_decide (c = "-"%char)); simpl; [lia|].
    simpl in Hc. rewrite Hc. lia. }
  destruct (peek_is "."%char (advance n1 p)); simpl; measure.
Qed.

Lemma parseValue_safe p : safe 1 p (parseValue p).
Proof.
  unfold parseValue. pose proof (skipWS_le p). set (q := skipWS p) in *.
  destruct (rest q) as [|c l] eqn:E; [done|].
  assert (1 <= len q)%nat by (unfold len; rewrite E; simpl; lia).
  repeat case_bool_decide.
  - ident n p'. simpl. measure.
  - pose proof (readString_safe q) as HS. specialize (HS ltac:(lia)). use HS. lia.
  - pose proof (skipBalanced_safe "["%char "]"%char q) as HS. use HS. lia.
  - pose proof (skipBalanced_safe "{"%char "}"%char q) as HS. use HS. lia.
  - eapply safe_weaken; [eapply readNumber_safe; [done|by rewrite bool_decide_true]|lia].
  - destruct (is_digit c) eqn:Hd; cbn [orb].
    + eapply safe_weaken; [eapply readNumber_safe; [done|by rewrite Hd, orb_true_r]|lia].
    + ident n p'. case_bool_decide; [done|]. simpl. specialize (Hlt ltac:(done)). lia.
Qed.

Lemma args_loop_safe fuel args p : (len p < fuel)%nat -> safe 1 p (args_loop fuel args p).
Proof.
  revert args p. induction fuel as [|fuel IH]; intros args p Hf; [lia|]. cbn [args_loop].
  destruct (eof (skipWS p)) eqn:He; [done|]. apply eof_len in He.
  destruct (peek_is ")"%char (skipWS p)); [simpl; measure|].
  ident n p1. case_bool_decide; [done|]. specialize (Hlt ltac:(done)).
  pose proof (expect_safe ":"%char (skipWS p1)) as H1. use H1.
  pose proof (parseValue_safe (skipWS p0)) as H2. use H2.
  eapply safe_weaken; [apply IH|]; measure.
Qed.

Lemma parseArgs_safe p : safe 1 p (parseArgs p).
Proof.
  unfold parseArgs. pose proof (expect_safe "("%char p) as H1. use H1.
  eapply safe_weaken; [apply args_loop_safe; unfold len; lia|lia].
Qed.

Lemma directives_loop_safe fuel acc p : (len p < fuel)%nat -> safe 0 p (directives_loop fuel acc p).
Proof.
  revert acc p. induction fuel as [|fuel IH]; intros acc p Hf; [lia|]. cbn [directives_loop].
  destruct (peek_is "@"%char p) eqn:Hp; [|simpl; lia]. apply peek_is_len in Hp. cbn [negb].
  ident n p1. destruct (peek_is "("%char (skipWS p1)).
  - pose proof (skipBalanced_safe "("%char ")"%char (skipWS p1)) as H1. use H1.
    eapply safe_weaken; [apply IH|]; measure.
  - eapply safe_weaken; [apply IH|]; measure.
Qed.

Lemma directives_safe p : safe 0 p (directives p).
Proof. apply directives_loop_safe. unfold len. lia. Qed.

Lemma parseField_safe_step fuel p :
  (forall p, (3 * len p + 1 <= fuel)%nat -> safe 1 p (parseSelectionSet fuel p)) ->
  (3 * len p + 1 <= S fuel)%nat -> safe 1 p (parseField (S fuel) p).
Proof.
  intros IHset Hf. cbn [parseField]. ident n p1. case_bool_decide; [done|].
  specialize (Hlt ltac:(done)).
  assert (Hal : safe 0 p1 (if peek_is ":"%char (skipWS p1) then
            let '(name2, p) := readIdent (skipWS (advance 1 (skipWS p1))) in
            if bool_decide (name2 = "") then errf p else Ok ((name2, n), skipWS p)
          else Ok ((n, ""), skipWS p1))).
  { destruct (peek_is ":"%char (skipWS p1)); [|simpl; measure].
    ident n2 p2. case_bool_decide; [done|]. simpl. measure. }
  use Hal.
  assert (Har : safe 0 p2 (if peek_is "("%char p2 then parseArgs p2 else Ok (∅, p2))).
  { destruct (peek_is "("%char p2); [|simpl; lia].
    eapply safe_weaken; [apply parseArgs_safe|lia]. }
  use Har.
  pose proof (directives_safe (skipWS p3)) as Hd. use Hd.
  destruct (peek_is "{"%char p4); [|simpl; measure].
  pose proof (IHset p4) as Hs. specialize (Hs ltac:(measure)). use Hs. measure.
Qed.

Lemma selections_loop_safe_step fuel out p :
  (forall p, (3 * len p + 1 <= fuel)%nat -> safe 1 p (parseSelectionSet fuel p)) ->
  (forall p, (3 * len p + 1 <= fuel)%nat -> safe 1 p (parseField fuel p)) ->
  (forall out p, (3 * len p + 2 <= fuel)%nat -> safe 1 p (selections_loop fuel out p)) ->
  (3 * len p + 2 <= S fuel)%nat -> safe 1 p (selections_loop (S fuel) out p).
Proof.
  intros IHset IHfield IHloop Hf. cbn [selections_loop].
  destruct (eof (skipWS p)) eqn:He; [done|]. apply eof_len in He.
  destruct (peek_is "}"%char (skipWS p)); [simpl; measure|].
  destruct (strip_prefix _ (rest (skipWS p))).
  - ident n p1. case_bool_decide.
    + ident tn p2. pose proof (directives_safe (skipWS p2)) as Hd. use Hd.
      pose proof (IHset p0) as Hs. specialize (Hs ltac:(measure)). use Hs.
      eapply safe_weaken; [apply IHloop|]; measure.
    + eapply safe_weaken; [apply IHloop|]; measure.
  - pose proof (IHfield (skipWS p)) as Hs. specialize (Hs ltac:(measure)). use Hs.
    eapply safe_weaken; [apply IHloop|]; measure.
Qed.

(** Fuel: a set or a field needs three units per byte and one more, the loop two more. *)
Lemma selection_fuel fuel :
  (forall p, (3 * len p + 1 <= fuel)%nat -> safe 1 p (parseSelectionSet fuel p)) /\
  (forall p, (3 * len p + 1 <= fuel)%nat -> safe 1 p (parseField fuel p)) /\
  (forall out p, (3 * len p + 2 <= fuel)%nat -> safe 1 p (selections_loop fuel out p)).
Proof.
  induction fuel as [|fuel (IHset & IHfield & IHloop)].
  - repeat split; intros; lia.
  - split; [|split].
    + intros p Hf. cbn [parseSelectionSet].
      pose proof (expect_safe "{"%char p) as H1. use H1.
      eapply safe_weaken; [apply IHloop|]; lia.
    + intros p Hf. by apply parseField_safe_step.
    + intros out p Hf. by apply selections_loop_safe_step.
Qed.

Lemma parseSelectionSet_safe p : safe 1 p (parseSelectionSet (fuel_for p) p).
Proof. apply selection_fuel. unfold fuel_for, len. lia. Qed.

Lemma parseOperation_safe kind p : safe 1 p (parseOperation kind p).
Proof.
  unfold parseOperation. ident n p1.
  assert (Hv : safe 0 p1 (if peek_is "("%char (skipWS p1)
      then skipBalanced "("%char ")"%char (skipWS p1) else Ok (tt, skipWS p1))).
  { destruct (peek_is _ _); [|simpl; measure].
    eapply safe_weaken; [apply skipBalanced_safe|]; measure. }
  use Hv. pose proof (directives_safe (skipWS p0)) as Hd. use Hd.
  pose proof (parseSelectionSet_safe p2) as Hs. use Hs. measure.
Qed.

Lemma parseFragment_safe p : safe 1 p (parseFragment p).
Proof.
  unfold parseFragment. ident n p1. case_bool_decide; [done|].
  ident on p2. case_bool_decide; [|done]. cbn [negb]. ident ty p3. case_bool_decide; [done|].
  pose proof (parseSelectionSet_safe p3) as Hs. use Hs. lia.
Qed.

Lemma definitions_loop_total fuel doc p :
  (len p < fuel)%nat -> definitions_loop fuel doc p <> Err OutOfFuel.
Proof.
  revert doc p. induction fuel as [|fuel IH]; intros doc p Hf; [lia|]. cbn [definitions_loop].
  destruct (eof p); [done|]. ident kw p1.
  destruct (bool_decide (kw = "query") || _).
  { pose proof (parseOperation_safe (kindFor kw) p1) as H1.
    destruct (parseOperation _ _) as [[op p2]|e]; simpl in H1; [|congruence].
    apply IH. measure. }
  case_bool_decide; [done|]. case_bool_decide; [|done].
  pose proof (parseFragment_safe p1) as H1.
  destruct (parseFragment _) as [[fr p2]|e]; simpl in H1; [|congruence].
  apply IH. measure.
Qed.

Lemma ParseQuery_fuel src : ParseQuery src <> Err OutOfFuel.
Proof.
  unfold ParseQuery. set (p := skipWS _). destruct (peek_is "{"%char p).
  - pose proof (parseSelectionSet_safe p) as H.
    destruct (parseSelectionSet _ _) as [[sels p']|e]; simpl in H; [|congruence].
    by destruct (eof _).
  - pose proof (definitions_loop_total (S (length (rest p))) (mkDocument [] ∅) p) as H.
    specialize (H ltac:(unfold len; lia)).
    destruct (definitions_loop _ _ _); [by case_bool_decide | congruence].
Qed.

Example parse_sample :
  (fun d => (length (doc_Operations d), doc_Fragments d !! "F")) <$>
  match ParseQuery "query Q($n: Int) { repo: repository(id: 5) { issues(first: $n) { nodes { id } } ...F } } fragment F on Repository { name }" with
  | Ok d => Some d | Err _ => None end
  = Some (1%nat, Some (mkFragment "F" "Repository" [SelField "name" "" ∅ [] []])).
Proof. vm_compute. reflexivity. Qed.
