(* ===== verification/GraphqlCost.v ===== *)
(** * Pre-execution cost analysis of GraphQL queries

    Models [plane/application/graphql/cost/analyzer.go].  [walk] threads the
    visited set and the [*Cost] the Go code mutates; recursion through
    fragment spreads runs on fuel, of which the number of fragments of the
    document is enough ([walk_total]).  Depth counters stay below the length
    of the source and are unbounded integers here; complexity is an [int] and
    wraps.  [float64] is IEEE 754 binary64 as specified by [SpecFloat]; the
    conversion of a float outside the [int] range is implementation-dependent
    in Go and a parameter of the model. *)

From Corelib Require Import SpecFloat.
From S2P Require Import Prelude GoStd Floats GraphqlParser.

(** ** Configuration *)

Definition PrincipalKind := Z.
Definition PrincipalUnknown : PrincipalKind := 0.
Definition PrincipalHuman : PrincipalKind := 1.
Definition PrincipalAgent : PrincipalKind := 2.

Record Cost := mkCost { Depth : Z; Complexity : Z }.

Definition ParseCost (c : Cost) : Z :=
  let pc := Z.quot (Complexity c) 10 in
  if pc <? 20 then 20 else pc.

Record Limits := mkLimits {
  MaxDepth : gmap PrincipalKind Z;
  MaxComplexity : gmap PrincipalKind Z;
  PersistedDiscount : spec_float;
  DefaultFirst : Z;
  MaxFirst : Z
}.

(** The [float64] of an [int]. *)
Definition float64_of_int (z : Z) : spec_float := binary_normalize 53 1024 z 0 false.
Definition float_half : spec_float := S754_finite false 4503599627370496 (-53).

Definition DefaultLimits : Limits := {|
  MaxDepth := {[ PrincipalHuman := 10; PrincipalAgent := 8 ]};
  MaxComplexity := {[ PrincipalHuman := 1000; PrincipalAgent := 5000 ]};
  PersistedDiscount := float_half;
  DefaultFirst := 20;
  MaxFirst := 100
|}.

Record FieldWeight := mkWeight { Weight : Z; Multipliers : list string }.

Record FieldWeights := mkFieldWeights {
  fw_Default : Z;
  fw_PerType : gmap string (gmap string FieldWeight)
}.

Definition flat (w : Z) : FieldWeight := mkWeight w [].

Definition DefaultFieldWeights : FieldWeights := {|
  fw_Default := 1;
  fw_PerType := {[
    "Query" := {[ "repository" := flat 1; "user" := flat 1; "agent" := flat 1;
                  "pullRequest" := flat 2; "organization" := flat 1 ]};
    "Repository" := {[ "owner" := flat 1; "pullRequests" := mkWeight 2 ["first"];
                       "issues" := mkWeight 2 ["first"] ]};
    "Organization" := {[ "members" := mkWeight 2 ["first"] ]};
    "Mutation" := {[ "createPullRequest" := flat 10; "createAgent" := flat 10;
                     "updateAgentPermissions" := flat 10 ]}
  ]}
|}.

Record Analyzer := mkAnalyzer {
  a_Limits : Limits;
  a_Weights : FieldWeights;
  RootQuery : string;
  RootMut : string
}.

Definition New (lim : Limits) (w : FieldWeights) : Analyzer :=
  mkAnalyzer
    (mkLimits (MaxDepth lim) (MaxComplexity lim) (PersistedDiscount lim)
       (if DefaultFirst lim <=? 0 then 20 else DefaultFirst lim)
       (if MaxFirst lim <=? 0 then 100 else MaxFirst lim))
    w "Query" "Mutation".

(** Sentinel errors; the limit errors come with the cost that broke the limit. *)
Inductive cost_error :=
| ErrDocument (e : parse_error)
| ErrDepthExceeded (c : Cost)
| ErrCostBudgetExceeded (c : Cost)
| ErrUnknownOperation
| ErrAmbiguousOperation
| ErrFragmentCycle (name : string)
| ErrFragmentNotDefined (name : string)
| WalkOutOfFuel.

(** ** Operation selection *)

Definition pickOperation (doc : Document) (name : string) : result cost_error Operation :=
  match doc_Operations doc with
  | [] => Err ErrUnknownOperation
  | [op] =>
      if negb (bool_decide (name = "")) && negb (bool_decide (op_Name op = name))
         && negb (bool_decide (op_Name op = ""))
      then Err ErrUnknownOperation else Ok op
  | ops =>
      if bool_decide (name = "") then Err ErrAmbiguousOperation
      else match List.find (fun op => bool_decide (op_Name op = name)) ops with
           | Some op => Ok op
           | None => Err ErrUnknownOperation
           end
  end.

(** ** Static tables *)

Definition childTypes : gmap string (gmap string string) := {[
  "Query" := {[ "repository" := "Repository"; "user" := "User"; "agent" := "Agent";
                "pullRequest" := "PullRequest"; "organization" := "Organization" ]};
  "Repository" := {[ "owner" := "User"; "pullRequests" := "PullRequestConnection";
                     "issues" := "IssueConnection"; "defaultBranch" := "Ref" ]};
  "Organization" := {[ "members" := "UserConnection" ]};
  "PullRequestConnection" := {[ "nodes" := "PullRequest"; "pageInfo" := "PageInfo" ]};
  "IssueConnection" := {[ "nodes" := "Issue"; "pageInfo" := "PageInfo" ]};
  "UserConnection" := {[ "nodes" := "User"; "pageInfo" := "PageInfo" ]};
  "PullRequest" := {[ "author" := "User" ]};
  "Mutation" := {[ "createPullRequest" := "CreatePullRequestPayload";
                   "createAgent" := "CreateAgentPayload";
                   "updateAgentPermissions" := "UpdateAgentPermissionsPayload" ]};
  "CreatePullRequestPayload" := {[ "pullRequest" := "PullRequest" ]};
  "CreateAgentPayload" := {[ "agent" := "Agent" ]};
  "UpdateAgentPermissionsPayload" := {[ "agent" := "Agent" ]}
]}.

Definition childType (parent field : string) : string :=
  match childTypes !! parent ≫= (fun m => m !! field) with
  | Some t => t
  | None => "_unknown_"
  end.

Definition weightFor (a : Analyzer) (parent field : string) : FieldWeight :=
  match fw_PerType (a_Weights a) !! parent ≫= (fun t => t !! field) with
  | Some w => w
  | None => flat (fw_Default (a_Weights a))
  end.

(** ** Integer arguments *)

(** The dynamic types of a variable value that [coerceInt] tells apart. *)
Inductive anyval :=
| VInt (n : Z)
| VInt32 (n : Z)
| VInt64 (n : Z)
| VFloat64 (x : spec_float)
| VNumber (s : string)
| VOther.

Section analyzer.
Context (int_of_wide : spec_float -> Z).

Definition coerceInt (v : anyval) : Z :=
  match v with
  | VInt n | VInt32 n | VInt64 n => n
  | VFloat64 x => int_of_float64 int_of_wide x (float_trunc x)
  | VNumber s => default 0 (Atoi s)
  | VOther => 0
  end.

(** A nil [vars] map is the empty map: both lookups miss. *)
Definition intArg (args : gmap string ArgValue) (name : string) (vars : gmap string anyval) : Z :=
  match args !! name with
  | None => 0
  | Some v =>
      match av_IntValue v with
      | Some n => n
      | None =>
          match s2l (av_Raw v) with
          | c :: (_ :: _) as r =>
              if bool_decide (c = "$"%char)
              then match vars !! l2s r with Some got => coerceInt got | None => 0 end
              else default 0 (Atoi (av_Raw v))
          | _ => default 0 (Atoi (av_Raw v))
          end
      end
  end.

(** ** The walk *)

(** The multiplier loop of [walkField] with its [break]. *)
Fixpoint find_mult (lim : Limits) (args : gmap string ArgValue) (vars : gmap string anyval)
    (names : list string) : Z :=
  match names with
  | [] => 1
  | n :: names' =>
      let v := intArg args n vars in
      if 0 <? v then (if MaxFirst lim <? v then MaxFirst lim else v)
      else find_mult lim args vars names'
  end.

Definition multiplier (lim : Limits) (w : FieldWeight) (args : gmap string ArgValue)
    (vars : gmap string anyval) : Z :=
  let mult := find_mult lim args vars (Multipliers w) in
  match Multipliers w with
  | m0 :: _ => if intArg args m0 vars <=? 0 then DefaultFirst lim else mult
  | [] => mult
  end.

Definition field_cost (a : Analyzer) (vars : gmap string anyval) (parent name : string)
    (args : gmap string ArgValue) : Z :=
  let w := weightFor a parent name in
  wrap64 (Weight w * multiplier (a_Limits a) w args vars).

Definition introspection (name : string) : bool := HasPrefix name "__".

(** What the walk mutates: the set of open fragments and the cost. *)
Definition walk_state : Type := gset string * Cost.

Definition enter (d : Z) (x : walk_state) : walk_state :=
  (x.1, if Depth x.2 <? d then mkCost d (Complexity x.2) else x.2).

Definition charge (k : Z) (x : walk_state) : walk_state :=
  (x.1, mkCost (Depth x.2) (wrap64 (Complexity x.2 + k))).

Definition for_each {A S E} (f : A -> S -> result E S) : list A -> S -> result E S :=
  fix go l s := match l with
    | [] => Ok s
    | a :: l' => let? s := f a s in go l' s
    end.

Context (a : Analyzer) (vars : gmap string anyval).

(** One selection; [spread] handles a fragment spread at a depth.  The field
    case is [walkField]. *)
Fixpoint walk_sel (spread : string -> Z -> walk_state -> result cost_error walk_state)
    (s : Selection) (parentType : string) (d : Z) (x : walk_state) {struct s} :
    result cost_error walk_state :=
  match s with
  | SelField name _ args _ sels =>
      if introspection name then Ok x
      else
        let x := charge (field_cost a vars parentType name args) x in
        match sels with
        | [] => Ok x
        | _ => for_each (fun s' => walk_sel spread s' (childType parentType name) (d + 1)) sels
                 (enter (d + 1) x)
        end
  | SelInlineFragment onType sels =>
      let child := if bool_decide (onType = "") then parentType else onType in
      for_each (fun s' => walk_sel spread s' child d) sels (enter d x)
  | SelFragmentSpread name => spread name d x
  end.

Context (doc : Document).

Definition open_fragment (name : string) (x : walk_state) : walk_state := ({[name]} ∪ x.1, x.2).
Definition close_fragment (name : string) (x : walk_state) : walk_state := (x.1 ∖ {[name]}, x.2).

Fixpoint walk (fuel : nat) (sels : list Selection) (parentType : string) (d : Z) (x : walk_state) :
    result cost_error walk_state :=
  for_each (fun s => walk_sel (fun name d x =>
    if bool_decide (name ∈ x.1) then Err (ErrFragmentCycle name)
    else match doc_Fragments doc !! name with
         | None => Err (ErrFragmentNotDefined name)
         | Some frag =>
             match fuel with
             | O => Err WalkOutOfFuel
             | S fuel' =>
                 let? x' := walk fuel' (frag_Sels frag) (frag_OnType frag) d (open_fragment name x) in
                 Ok (close_fragment name x')
             end
         end) s parentType d) sels (enter d x).
End analyzer.

Definition discounted (int_of_wide : spec_float -> Z) (lim : Limits) (persisted : bool) (c : Cost) : Cost :=
  if persisted && SFltb (S754_zero false) (PersistedDiscount lim) then
    let x := SFmul 53 1024 (float64_of_int (Complexity c)) (PersistedDiscount lim) in
    mkCost (Depth c) (int_of_float64 int_of_wide x (float_ceil x))
  else c.

(** [ok && max > 0 && v > max]. *)
Definition exceeds (limits : gmap PrincipalKind Z) (kind : PrincipalKind) (v : Z) : bool :=
  match limits !! kind with
  | Some m => (0 <? m) && (m <? v)
  | None => false
  end.

Definition root_type (a : Analyzer) (op : Operation) : string :=
  if bool_decide (op_Kind op = OpMutation) then RootMut a else RootQuery a.

Definition Analyze (int_of_wide : spec_float -> Z) (a : Analyzer) (src opName : string)
    (vars : gmap string anyval) (kind : PrincipalKind) (persisted : bool) : result cost_error Cost :=
  match ParseQuery src with
  | Err e => Err (ErrDocument e)
  | Ok doc =>
      let? op := pickOperation doc opName in
      let? x := walk int_of_wide a vars doc (size (doc_Fragments doc)) (op_Sels op) (root_type a op)
                  1 (∅, mkCost 0 0) in
      let c := discounted int_of_wide (a_Limits a) persisted x.2 in
      if exceeds (MaxDepth (a_Limits a)) kind (Depth c) then Err (ErrDepthExceeded c)
      else if exceeds (MaxComplexity (a_Limits a)) kind (Complexity c) then Err (ErrCostBudgetExceeded c)
      else Ok c
  end.

Definition no_wide (_ : spec_float) : Z := int64_min.
Definition gitscale : Analyzer := New DefaultLimits DefaultFieldWeights.

Example analyze_sample :
  Analyze no_wide gitscale "query($n: Int) { repository { pullRequests(first: $n) { nodes { author { login } } } ...F } } fragment F on Repository { name __typename }"
    "" {[ "n" := VFloat64 (float64_of_int 250) ]} PrincipalHuman true
  = Ok (mkCost 5 103).
Proof. vm_compute. reflexivity. Qed.

Example analyze_cycle :
  Analyze no_wide gitscale "query { ...F } fragment F on Query { user { ...G } } fragment G on User { ...F }"
    "" ∅ PrincipalHuman false = Err (ErrFragmentCycle "F").
Proof. vm_compute. reflexivity. Qed.

(** ** Induction on selections *)

Lemma Selection_rect_forall (P : Selection -> Prop) :
  (forall name alias args dirs sels, Forall P sels -> P (SelField name alias args dirs sels)) ->
  (forall name, P (SelFragmentSpread name)) ->
  (forall onType sels, Forall P sels -> P (SelInlineFragment onType sels)) ->
  forall s, P s.
Proof.
  intros Hf Hs Hi. fix IH 1. intros [name alias args dirs sels|name|onType sels].
  - apply Hf. induction sels; constructor; auto.
  - apply Hs.
  - apply Hi. induction sels; constructor; auto.
Qed.

(** ** Reference definitions

    The spreads a walk meets (nothing below an introspection field), the
    fragments it can reach, and the cost and height of the expanded tree. *)
Inductive spread_in : Selection -> string -> Prop :=
| spread_here name : spread_in (SelFragmentSpread name) name
| spread_field name alias args dirs sels s n :
    introspection name = false -> s ∈ sels -> spread_in s n ->
    spread_in (SelField name alias args dirs sels) n
| spread_inline onType sels s n : s ∈ sels -> spread_in s n -> spread_in (SelInlineFragment onType sels) n.

Definition spread_of (sels : list Selection) (n : string) : Prop := exists s, s ∈ sels /\ spread_in s n.

Inductive reach (doc : Document) : list Selection -> string -> Prop :=
| reach_one sels n : spread_of sels n -> reach doc sels n
| reach_step sels m frag n :
    spread_of sels m -> doc_Fragments doc !! m = Some frag -> reach doc (frag_Sels frag) n ->
    reach doc sels n.

Definition acyclic (doc : Document) (sels : list Selection) : Prop :=
  forall n, reach doc sels n -> exists frag, doc_Fragments doc !! n = Some frag /\ ~ reach doc (frag_Sels frag) n.

Definition sumZ (l : list Z) : Z := foldr Z.add 0 l.

Section reference.
Context (int_of_wide : spec_float -> Z) (a : Analyzer) (vars : gmap string anyval) (doc : Document).

Fixpoint sel_cost (spread : string -> Z) (s : Selection) (pt : string) : Z :=
  match s with
  | SelField name _ args _ sels =>
      if introspection name then 0
      else field_cost int_of_wide a vars pt name args
           + sumZ (map (fun s' => sel_cost spread s' (childType pt name)) sels)
  | SelInlineFragment onType sels =>
      sumZ (map (fun s' => sel_cost spread s' (if bool_decide (onType = "") then pt else onType)) sels)
  | SelFragmentSpread name => spread name
  end.

(** Complexity of the tree with its fragments expanded. *)
Fixpoint total (fuel : nat) (sels : list Selection) (pt : string) : Z :=
  sumZ (map (fun s => sel_cost (fun name =>
    match fuel, doc_Fragments doc !! name with
    | S fuel', Some frag => total fuel' (frag_Sels frag) (frag_OnType frag)
    | _, _ => 0
    end) s pt) sels).

Definition maxZ (l : list Z) : Z := foldr Z.max 0 l.

Fixpoint sel_height (spread : string -> Z) (s : Selection) : Z :=
  match s with
  | SelField name _ _ _ sels =>
      if introspection name then 0
      else match sels with [] => 0 | _ => 1 + maxZ (map (sel_height spread) sels) end
  | SelInlineFragment _ sels => maxZ (map (sel_height spread) sels)
  | SelFragmentSpread name => spread name
  end.

(** Nesting of selection sets below the outermost one, fragments expanded. *)
Fixpoint height (fuel : nat) (sels : list Selection) : Z :=
  maxZ (map (sel_height (fun name =>
    match fuel, doc_Fragments doc !! name with
    | S fuel', Some frag => height fuel' (frag_Sels frag)
    | _, _ => 0
    end)) sels).
End reference.

(** ** The walk, described *)

Section walk_proofs.
Context (int_of_wide : spec_float -> Z) (a : Analyzer) (vars : gmap string anyval).

Notation walk_sel := (walk_sel int_of_wide a vars).

(** What a walk over selections does, from what [spread] does. *)
Lemma for_each_outcome {A} (f : A -> walk_state -> result cost_error walk_state)
    (In : A -> string -> Prop) (Good : string -> Prop) (Bad : string -> cost_error -> Prop) V l x :
  Forall (fun s => forall x, x.1 = V ->
    match f s x with
    | Ok x' => x'.1 = V /\ (forall n, In s n -> Good n)
    | Err e => exists n, In s n /\ Bad n e
    end) l ->
  x.1 = V ->
  match for_each f l x with
  | Ok x' => x'.1 = V /\ (forall n, (exists s, s ∈ l /\ In s n) -> Good n)
  | Err e => exists n, (exists s, s ∈ l /\ In s n) /\ Bad n e
  end.
Proof.
  intros Hl. revert x. induction Hl as [|s l Hs Hl IH]; intros x Hx; simpl.
  - split; [done|]. intros n (s & Hs & _). by apply not_elem_of_nil in Hs.
  - specialize (Hs x Hx). destruct (f s x) as [y|e].
    + destruct Hs as [Hy Hg]. specialize (IH y Hy). destruct (for_each f l y) as [z|e].
      * destruct IH as [Hz Hr]. split; [done|]. intros n (t & Ht & Hn).
        apply elem_of_cons in Ht as [->|Ht]; eauto.
      * destruct IH as (n & (t & Ht & Hn) & Hb). exists n. split; [|done].
        exists t. split; [apply elem_of_cons; auto|done].
    + destruct Hs as (n & Hn & Hb). exists n. split; [|done]. exists s. split; [apply elem_of_cons; auto|done].
Qed.

(** [over_sels H]: the outcome [H] of the [for_each] of the goal over the
    selections whose induction hypothesis is [IH]. *)
Ltac over_sels IH Good Bad V H :=
  match goal with
  | |- context [for_each ?f ?l ?y] =>
      assert (H := for_each_outcome f spread_in Good Bad V l y);
      lapply H; [clear H; intros H | eapply Forall_impl; [exact IH|]; intros ? Hs ? ?; by apply Hs];
      specialize (H ltac:(assumption)); destruct (for_each f l y)
  end.

Lemma walk_sel_outcome spread (Good : string -> Prop) (Bad : string -> cost_error -> Prop) V :
  (forall n d x, x.1 = V ->
    match spread n d x with Ok x' => x'.1 = V /\ Good n | Err e => Bad n e end) ->
  forall s pt d x, x.1 = V ->
    match walk_sel spread s pt d x with
    | Ok x' => x'.1 = V /\ (forall n, spread_in s n -> Good n)
    | Err e => exists n, spread_in s n /\ Bad n e
    end.
Proof.
  intros Hsp s. induction s as [name alias args dirs sels IH|name|onType sels IH] using Selection_rect_forall;
    intros pt d x Hx; cbn [GraphqlCost.walk_sel].
  - destruct (introspection name) eqn:Hi.
    { split; [done|]. intros n Hn. inversion Hn; congruence. }
    destruct sels as [|s0 sels].
    { split; [done|]. intros n Hn. inversion Hn; subst. set_solver. }
    over_sels IH Good Bad V H.
    + destruct H as [? H]. split; [done|]. intros n Hn. inversion Hn; subst. eauto.
    + destruct H as (n & (t & Ht & Hn) & Hb). exists n. split; [|done]. by econstructor.
  - specialize (Hsp name d x Hx). destruct (spread name d x).
    + destruct Hsp. split; [done|]. intros n Hn. by inversion Hn; subst.
    + exists name. split; [constructor|done].
  - over_sels IH Good Bad V H.
    + destruct H as [? H]. split; [done|]. intros n Hn. inversion Hn; subst. eauto.
    + destruct H as (n & (t & Ht & Hn) & Hb). exists n. split; [|done]. by econstructor.
Qed.

Context (doc : Document).
Notation walk := (walk int_of_wide a vars doc).

Definition spread_ok (fuel : nat) (V : gset string) (n : string) : Prop :=
  n ∉ V /\ exists frag fuel' d c x', doc_Fragments doc !! n = Some frag /\ fuel = S fuel' /\
    walk fuel' (frag_Sels frag) (frag_OnType frag) d ({[n]} ∪ V, c) = Ok x'.

Definition spread_fails (fuel : nat) (V : gset string) (n : string) (e : cost_error) : Prop :=
  (n ∈ V /\ e = ErrFragmentCycle n) \/
  (doc_Fragments doc !! n = None /\ e = ErrFragmentNotDefined n) \/
  exists frag, n ∉ V /\ doc_Fragments doc !! n = Some frag /\
    ((fuel = O /\ e = WalkOutOfFuel) \/
     exists fuel' d c, fuel = S fuel' /\
       walk fuel' (frag_Sels frag) (frag_OnType frag) d ({[n]} ∪ V, c) = Err e).

Lemma walk_outcome fuel sels pt d x :
  match walk fuel sels pt d x with
  | Ok x' => x'.1 = x.1 /\ (forall n, spread_of sels n -> spread_ok fuel x.1 n)
  | Err e => exists n, spread_of sels n /\ spread_fails fuel x.1 n e
  end.
Proof.
  revert sels pt d x. induction fuel as [|fuel IH]; intros sels pt d x; cbn [GraphqlCost.walk];
    apply (for_each_outcome _ spread_in (spread_ok _ x.1) (spread_fails _ x.1) x.1); try done;
    apply Forall_forall; intros s _ y Hy; apply walk_sel_outcome; try done;
    intros n d' z Hz; rewrite Hz; case_bool_decide as Hn; try (by left);
    (destruct (doc_Fragments doc !! n) as [frag|] eqn:Ef; [|by right; left]).
  - right. right. exists frag. split_and!; auto.
  - destruct z as [V c]. simpl in Hz. subst V.
    specialize (IH (frag_Sels frag) (frag_OnType frag) d' (open_fragment n (x.1, c))).
    unfold open_fragment in *. simpl in *. destruct (walk fuel _ _ _ _) as [x'|e] eqn:Ew.
    + destruct IH as [Hx' _]. split; [simpl; rewrite Hx'; set_solver|].
      split; [done|]. exists frag, fuel, d', c, x'. auto.
    + right. right. exists frag. split_and!; auto. right. exists fuel, d', c. auto.
Qed.

(** Fragments that are defined and not open: the walk needs no more fuel. *)
Definition closed_fragments (V : gset string) : gset string := dom (doc_Fragments doc) ∖ V.

Lemma closed_fragments_open V n frag :
  n ∉ V -> doc_Fragments doc !! n = Some frag ->
  size (closed_fragments V) = S (size (closed_fragments ({[n]} ∪ V))).
Proof.
  intros Hn Hf. apply elem_of_dom_2 in Hf. unfold closed_fragments.
  replace (dom (doc_Fragments doc) ∖ V)
    with ({[n]} ∪ (dom (doc_Fragments doc) ∖ ({[n]} ∪ V)) : gset string).
  - rewrite size_union by set_solver. by rewrite size_singleton.
  - apply set_eq. intros m. destruct (decide (m = n)); set_solver.
Qed.

Definition fragment_error (e : cost_error) : Prop :=
  exists n, e = ErrFragmentCycle n \/ e = ErrFragmentNotDefined n.

Lemma walk_error fuel sels pt d x e :
  (size (closed_fragments x.1) <= fuel)%nat -> walk fuel sels pt d x = Err e -> fragment_error e.
Proof.
  revert sels pt d x. induction fuel as [|fuel IH]; intros sels pt d x Hf He;
    (match type of He with walk ?n _ _ _ _ = _ =>
       pose proof (walk_outcome n sels pt d x) as H end);
    rewrite He in H; destruct H as (n & _ & [[_ H]|[[_ H]|(frag & Hn & Hfr & H)]]);
    try (exists n; auto; fail);
    pose proof (closed_fragments_open _ _ _ Hn Hfr) as Hs; [lia|].
  destruct H as [[? _]|(fuel' & d' & c & [= <-] & Hw)]; [done|].
  eapply IH; [|exact Hw]. simpl. lia.
Qed.

Lemma walk_total fuel sels pt d x :
  (size (closed_fragments x.1) <= fuel)%nat -> walk fuel sels pt d x <> Err WalkOutOfFuel.
Proof. intros Hf He. apply walk_error in He as (n & [|]); done. Qed.

(** A successful walk visits everything it reaches with the path open. *)
Lemma reach_walk sels n :
  reach doc sels n -> forall fuel pt d x x', walk fuel sels pt d x = Ok x' ->
  n ∉ x.1 /\ exists frag V fuel' d' c y, doc_Fragments doc !! n = Some frag /\ n ∈ V /\
    walk fuel' (frag_Sels frag) (frag_OnType frag) d' (V, c) = Ok y.
Proof.
  induction 1 as [sels n Hs|sels m frag n Hs Hm _ IH]; intros fuel pt d x x' Hw;
    pose proof (walk_outcome fuel sels pt d x) as H;
    rewrite Hw in H; destruct H as [_ H];
    specialize (H _ Hs); destruct H as (Hn & frag' & fuel' & d' & c & y & Hf & Hfu & Hw').
  - split; [done|]. exists frag', ({[n]} ∪ x.1), fuel', d', c, y. split_and!; auto. set_solver.
  - rewrite Hm in Hf. simplify_eq. apply IH in Hw' as [Hni Hex]. simpl in Hni.
    split; [set_solver|done].
Qed.

Lemma walk_sound fuel sels pt d x x' : walk fuel sels pt d x = Ok x' -> acyclic doc sels.
Proof.
  intros Hw n Hr. eapply reach_walk in Hw as (_ & frag & V & f & d' & c & y & Hf & HV & Hw); [|done].
  exists frag. split; [done|]. intros Hr2. by eapply reach_walk in Hw as [? _].
Qed.

Lemma walk_complete fuel sels pt d x :
  (size (closed_fragments x.1) <= fuel)%nat -> acyclic doc sels ->
  (forall v, v ∈ x.1 -> ~ reach doc sels v) -> is_ok (walk fuel sels pt d x) = true.
Proof.
  revert sels pt d x. induction fuel as [|fuel IH]; intros sels pt d x Hsz Hac HV;
    (match goal with |- is_ok (walk ?n _ _ _ _) = _ =>
       pose proof (walk_outcome n sels pt d x) as H;
       pose proof (walk_total n sels pt d x Hsz) as Ht;
       destruct (walk n sels pt d x) as [x'|e] eqn:Ew; [done|]
     end); exfalso;
    destruct H as (n & Hs & [[Hn _]|[[Hn _]|(frag & Hn & Hfr & H)]]).
  1, 4: eapply HV; [done|by constructor].
  1, 3: destruct (Hac n) as (fr & ? & _); [by constructor|congruence].
  - destruct H as [[_ ->]|(f & _ & _ & ? & _)]; done.
  - destruct H as [[? _]|(f & d' & c & [= <-] & Hw)]; [done|].
    pose proof (closed_fragments_open _ _ _ Hn Hfr).
    destruct (Hac n) as (fr & Hfr' & Hself); [by constructor|]. rewrite Hfr in Hfr'. simplify_eq.
    specialize (IH (frag_Sels fr) (frag_OnType fr) d' ({[n]} ∪ x.1, c)). rewrite Hw in IH.
    cut (false = true); [done|]. apply IH; simpl; [lia|..].
    + intros m Hm. apply Hac. by eapply reach_step.
    + intros v Hv. apply elem_of_union in Hv as [Hv%elem_of_singleton|Hv]; [by subst|].
      intros Hr. eapply HV; [done|]. by eapply reach_step.
Qed.
End walk_proofs.

(** ** The cost, described *)

(** The state after charging [k] below a selection set at depth [d] that
    nests [h] further sets. *)
Definition charged (d h k : Z) (x : walk_state) : walk_state :=
  (x.1, mkCost (Z.max (Depth x.2) (d + h)) (wrap64 (Complexity x.2 + k))).

Definition entered (d : Z) (x : walk_state) : Prop := d <= Depth x.2 /\ is_int64 (Complexity x.2).

Lemma maxZ_nonneg l : 0 <= maxZ l.
Proof. unfold maxZ. induction l; simpl; lia. Qed.

Lemma charged_entered d h k x : entered d x -> entered d (charged d h k x).
Proof. intros [? ?]. split; simpl; [lia|apply wrap64_range]. Qed.

Lemma for_each_charged {A} (f : A -> walk_state -> result cost_error walk_state) (h k : A -> Z) d l x x' :
  Forall (fun s => forall x x', entered d x -> f s x = Ok x' -> x' = charged d (h s) (k s) x) l ->
  entered d x -> for_each f l x = Ok x' -> x' = charged d (maxZ (map h l)) (sumZ (map k l)) x.
Proof.
  intros Hl. revert x. induction Hl as [|s l Hs Hl IH]; intros x [Hd Hc]; simpl.
  - intros [= <-]. destruct x as [V [D C]]. unfold charged. simpl in *. f_equal.
    rewrite !Z.add_0_r, wrap64_id by done. f_equal. lia.
  - destruct (f s x) as [y|e] eqn:Ey; [|done]. intros H.
    apply Hs in Ey as ->; [|by split]. apply IH in H as ->; [|by apply charged_entered].
    unfold charged. simpl. rewrite wrap64_add_l. f_equal. f_equal; [lia|f_equal; lia].
Qed.

Lemma enter_depth d x : is_int64 (Complexity x.2) -> entered d (enter d x).
Proof. unfold enter, entered. destruct (Depth x.2 <? d) eqn:E; simpl; reflect_bools; split; (lia || done). Qed.

Lemma charged_enter d h k x : 0 <= h -> charged d h k (enter d x) = charged d h k x.
Proof.
  intros. unfold charged, enter. destruct x as [V [D C]]; simpl.
  destruct (D <? d) eqn:E; simpl; reflect_bools; f_equal; f_equal; lia.
Qed.

Section cost_proofs.
Context (int_of_wide : spec_float -> Z) (a : Analyzer) (vars : gmap string anyval) (doc : Document).

Lemma walk_sel_charged spread hs ks :
  (forall n d x x', entered d x -> spread n d x = Ok x' -> x' = charged d (hs n) (ks n) x) ->
  forall s pt d x x', entered d x -> walk_sel int_of_wide a vars spread s pt d x = Ok x' ->
  x' = charged d (sel_height hs s) (sel_cost int_of_wide a vars ks s pt) x.
Proof.
  intros Hsp s. induction s as [name alias args dirs sels IH|name|onType sels IH] using Selection_rect_forall;
    intros pt d x x' [Hd Hc] Hw; cbn [walk_sel sel_height sel_cost] in *.
  - destruct (introspection name).
    { injection Hw as <-. destruct x as [V [D C]]. unfold charged. simpl in *.
      rewrite !Z.add_0_r, wrap64_id by done. f_equal. f_equal. lia. }
    destruct sels as [|s0 sels].
    { injection Hw as <-. unfold charge, charged. simpl. f_equal. f_equal; [lia|f_equal; lia]. }
    eapply for_each_charged in Hw;
      [|eapply Forall_impl; [exact IH|]; intros s Hs y y' Hy; by apply Hs
       |by apply enter_depth, wrap64_range].
    subst x'. rewrite charged_enter by apply maxZ_nonneg.
    unfold charged, charge. simpl fst. simpl snd. cbn [Depth Complexity].
    rewrite wrap64_add_l. f_equal. f_equal; [lia|f_equal; lia].
  - by apply Hsp.
  - eapply for_each_charged in Hw;
      [|eapply Forall_impl; [exact IH|]; intros s Hs y y' Hy; by apply Hs
       |by apply enter_depth].
    subst x'. apply charged_enter, maxZ_nonneg.
Qed.

Lemma walk_charged fuel sels pt d x x' :
  is_int64 (Complexity x.2) -> walk int_of_wide a vars doc fuel sels pt d x = Ok x' ->
  x' = charged d (height doc fuel sels) (total int_of_wide a vars doc fuel sels pt) x.
Proof.
  revert sels pt d x x'. induction fuel as [|fuel IH]; intros sels pt d x x' Hc Hw;
    rewrite <- charged_enter by apply maxZ_nonneg;
    cbn [walk height total] in *;
    (eapply (for_each_charged _ _ (fun s => sel_cost _ _ _ _ s pt)); [|by apply enter_depth|exact Hw]);
    apply Forall_forall; intros s _ y y' Hy; apply walk_sel_charged; try done.
  all: simpl; intros n d' z z' [Hzd Hzc] Hz; case_bool_decide; [done|];
    destruct (doc_Fragments doc !! n) as [frag|]; try done.
  destruct (walk _ _ _ _ _ _ _ _ _) as [w|] eqn:Ew; [|done].
  pose proof (walk_outcome int_of_wide a vars doc fuel (frag_Sels frag) (frag_OnType frag) d' (open_fragment n z)) as Hv.
  rewrite Ew in Hv. apply IH in Ew; [|done]. subst w. simplify_eq.
  unfold close_fragment, charged. simpl. f_equal. set_solver.
Qed.
End cost_proofs.

(** ** Analysis, described *)

Definition within (limits : gmap PrincipalKind Z) (kind : PrincipalKind) (v : Z) : Prop :=
  forall m, limits !! kind = Some m -> 0 < m -> v <= m.

Lemma exceeds_within limits kind v : exceeds limits kind v = false <-> within limits kind v.
Proof.
  unfold exceeds, within. destruct (limits !! kind) as [m|]; [|by split].
  rewrite andb_false_iff, !Z.ltb_ge. split.
  - intros H m' [= <-]. lia.
  - intros H. specialize (H m eq_refl). lia.
Qed.

(** The undiscounted cost of an operation: one more than the nesting below
    its selection set, and the sum of the field costs as an [int]. *)
Definition operation_cost int_of_wide a vars (doc : Document) (op : Operation) : Cost :=
  let n := size (doc_Fragments doc) in
  mkCost (1 + height doc n (op_Sels op))
    (wrap64 (total int_of_wide a vars doc n (op_Sels op) (root_type a op))).

Section operation_walk.
Context (int_of_wide : spec_float -> Z) (a : Analyzer) (vars : gmap string anyval) (doc : Document).

Lemma closed_fragments_empty : size (closed_fragments doc ∅) = size (doc_Fragments doc).
Proof. unfold closed_fragments. by rewrite difference_empty_L, size_dom. Qed.

Lemma walk_from_root sels pt :
  (exists e, walk int_of_wide a vars doc (size (doc_Fragments doc)) sels pt 1 (∅, mkCost 0 0) = Err e
    /\ fragment_error e /\ ~ acyclic doc sels) \/
  (walk int_of_wide a vars doc (size (doc_Fragments doc)) sels pt 1 (∅, mkCost 0 0)
    = Ok (∅, mkCost (1 + height doc (size (doc_Fragments doc)) sels)
               (wrap64 (total int_of_wide a vars doc (size (doc_Fragments doc)) sels pt)))
   /\ acyclic doc sels).
Proof.
  pose proof closed_fragments_empty as Hsz.
  destruct (walk _ _ _ _ _ _ _ _ _) as [x|e] eqn:Ew; [right|left].
  - split; [|by eapply walk_sound].
    apply walk_charged in Ew as ->; [|done]. unfold charged. simpl. do 3 f_equal.
    assert (0 <= height doc (size (doc_Fragments doc)) sels)
      by (destruct (size (doc_Fragments doc)); apply maxZ_nonneg). lia.
  - exists e. split_and!; [done|..].
    + eapply walk_error; [|exact Ew]. simpl. lia.
    + intros Hac. eapply walk_complete in Hac; [by rewrite Ew in Hac|simpl; lia|set_solver].
Qed.
End operation_walk.

(** ** Properties *)

(** The analysis is total: for every source, operation name and variables,
    cyclic or undefined fragments included, [Analyze] returns a cost or one of
    the errors of the package; neither the parser nor the walk runs out of fuel. *)
Theorem Analyze_total wide a src opName vars kind persisted :
  Analyze wide a src opName vars kind persisted <> Err (ErrDocument OutOfFuel) /\
  Analyze wide a src opName vars kind persisted <> Err WalkOutOfFuel.
Proof.
  unfold Analyze. pose proof (ParseQuery_fuel src) as Hp.
  destruct (ParseQuery src) as [doc|e]; [|by split; congruence].
  assert (Hpick : forall e, pickOperation doc opName = Err e ->
    e <> ErrDocument OutOfFuel /\ e <> WalkOutOfFuel).
  { intros e. unfold pickOperation. intros H. case_split_in H; done. }
  destruct (pickOperation doc opName) as [op|e]; [|by destruct (Hpick e eq_refl); split; congruence].
  destruct (walk_from_root wide a vars doc (op_Sels op) (root_type a op))
    as [(e & -> & (n & [->| ->]) & _)|[-> _]]; try done.
  by repeat destruct (exceeds _ _ _).
Qed.

(** C7: [Analyze] accepts a query with cost [c] exactly when the document
    parses, the operation is found, every fragment the operation reaches is
    defined and does not reach itself, and [c], the depth and the (discounted)
    sum of the field costs of the fragment-expanded operation, is within the
    limits of the principal's class. *)
Theorem Analyze_accepts_iff wide a src opName vars kind persisted c :
  Analyze wide a src opName vars kind persisted = Ok c <->
  exists doc op, ParseQuery src = Ok doc /\ pickOperation doc opName = Ok op /\
    acyclic doc (op_Sels op) /\
    c = discounted wide (a_Limits a) persisted (operation_cost wide a vars doc op) /\
    within (MaxDepth (a_Limits a)) kind (Depth c) /\
    within (MaxComplexity (a_Limits a)) kind (Complexity c).
Proof.
  setoid_rewrite <- exceeds_within. unfold Analyze. destruct (ParseQuery src) as [doc|e].
  2: { split; [done|]. by intros (? & ? & ? & _). }
  destruct (pickOperation doc opName) as [op|e] eqn:Ep.
  2: { split; [done|]. intros (doc' & op' & Hd & Hp & _). congruence. }
  destruct (walk_from_root wide a vars doc (op_Sels op) (root_type a op))
    as [(e & -> & _ & Hna)|[-> Hac]].
  { split; [done|]. intros (doc' & op' & Hd & Hp & Hac & _). congruence. }
  fold (operation_cost wide a vars doc op).
  cbn [snd]. set (c0 := discounted _ _ _ _). split.
  - destruct (exceeds (MaxDepth _) _ _) eqn:E1; [done|].
    destruct (exceeds (MaxComplexity _) _ _) eqn:E2; [done|]. intros [= <-].
    exists doc, op. by split_and!.
  - intros (? & ? & [= <-] & Hp & _ & -> & H1 & H2). rewrite Ep in Hp. injection Hp as <-.
    fold c0 in H1, H2 |- *. by rewrite H1, H2.
Qed.

(** The documented price of a paginated field: a field whose weight
    declares one multiplier argument costs [weight × min(arg, MaxFirst)], and
    [weight × DefaultFirst] when the argument is missing or not positive. *)
Theorem connection_cost wide a vars parent name args w m :
  weightFor a parent name = mkWeight w [m] ->
  1 <= MaxFirst (a_Limits a) -> 0 <= w ->
  w * Z.max (MaxFirst (a_Limits a)) (DefaultFirst (a_Limits a)) <= int64_max ->
  0 <= DefaultFirst (a_Limits a) ->
  field_cost wide a vars parent name args =
    w * (if intArg wide args m vars <=? 0 then DefaultFirst (a_Limits a)
         else Z.min (intArg wide args m vars) (MaxFirst (a_Limits a))).
Proof.
  intros Hw Hm Hw0 Hmax Hd. unfold field_cost, multiplier. rewrite Hw. cbn [Weight Multipliers find_mult].
  set (v := intArg wide args m vars).
  assert (Hwrap : forall k, 0 <= k <= Z.max (MaxFirst (a_Limits a)) (DefaultFirst (a_Limits a)) ->
    wrap64 (w * k) = w * k).
  { intros k Hk. apply wrap64_id. unfold is_int64, int64_min. split; [lia|].
    etransitivity; [|exact Hmax]. apply Z.mul_le_mono_nonneg_l; lia. }
  destruct (v <=? 0) eqn:E; reflect_bools; [apply Hwrap; lia|].
  destruct (0 <? v) eqn:E2; reflect_bools; [|lia].
  destruct (MaxFirst (a_Limits a) <? v) eqn:E3; reflect_bools.
  - rewrite Z.min_r by lia. apply Hwrap. lia.
  - rewrite Z.min_l by lia. apply Hwrap. lia.
Qed.

Lemma connection_cost_witness :
  field_cost no_wide gitscale ∅ "Repository" "issues" {[ "first" := mkArgValue (Some 500) "500" ]} = 200.
Proof.
  rewrite (connection_cost no_wide gitscale ∅ "Repository" "issues" _ 2 "first");
    [vm_compute; reflexivity|vm_compute; reflexivity|vm_compute; discriminate..].
Defined.

(** ** Fragment doubling *)

Definition fname (k : nat) : string := "F" +:+ pretty k.

Definition bomb_fragment (k : nat) : Fragment :=
  mkFragment (fname k) "T"
    match k with
    | O => [SelField "x" "" ∅ [] []]
    | S k' => [SelFragmentSpread (fname k'); SelFragmentSpread (fname k')]
    end.

Fixpoint bomb_fragments (n : nat) : gmap string Fragment :=
  match n with
  | O => {[ fname 0 := bomb_fragment 0 ]}
  | S n' => <[ fname n := bomb_fragment n ]> (bomb_fragments n')
  end.

(** [query { ...Fn }] where every fragment spreads the next one twice. *)
Definition bomb (n : nat) : Document :=
  mkDocument [mkOperation OpQuery "" [SelFragmentSpread (fname n)]] (bomb_fragments n).

Lemma fname_inj j k : fname j = fname k -> j = k.
Proof. unfold fname. intros H. by apply (inj pretty), (inj (String.append "F")). Qed.

Lemma bomb_lookup n k : (k <= n)%nat -> doc_Fragments (bomb n) !! fname k = Some (bomb_fragment k).
Proof.
  simpl. induction n as [|n IH]; intros Hk; simpl.
  - assert (k = O) as -> by lia. apply lookup_singleton_eq.
  - destruct (decide (k = S n)) as [->|Hne]; [apply lookup_insert_eq|].
    rewrite lookup_insert_ne by (intros H%fname_inj; lia). apply IH. lia.
Qed.

Lemma bomb_size n : size (bomb_fragments n) = S n.
Proof.
  induction n as [|n IH]; simpl; [apply map_size_singleton|].
  rewrite map_size_insert_None; [by rewrite IH|]. apply not_elem_of_dom.
  cut (forall m, fname m ∈ dom (bomb_fragments n) -> (m <= n)%nat).
  { intros H Hin. apply H in Hin. lia. }
  clear. intros m. induction n as [|n IH]; simpl.
  - rewrite dom_singleton_L. intros H%elem_of_singleton%fname_inj. lia.
  - rewrite dom_insert_L. intros [H%elem_of_singleton%fname_inj|H%IH]%elem_of_union; lia.
Qed.

Lemma bomb_spread k m : spread_of (frag_Sels (bomb_fragment k)) m -> exists k', k = S k' /\ m = fname k'.
Proof.
  intros (s & Hs & Hm). destruct k as [|k]; simpl in Hs.
  - apply list_elem_of_singleton in Hs as ->. inversion Hm; subst. set_solver.
  - exists k. split; [done|].
    assert (s = SelFragmentSpread (fname k)) as -> by set_solver. by inversion Hm.
Qed.

Lemma bomb_reach n sels m : reach (bomb n) sels m ->
  forall k, (k <= n)%nat -> sels = frag_Sels (bomb_fragment k) -> exists j, m = fname j /\ (j < k)%nat.
Proof.
  induction 1 as [sels m Hs|sels l frag m Hs Hl _ IH]; intros k Hk ->;
    apply bomb_spread in Hs as (k' & -> & ->).
  - exists k'. split; [done|lia].
  - rewrite bomb_lookup in Hl by lia. simplify_eq.
    destruct (IH k') as (j & -> & Hj); [lia|done|]. exists j. split; [done|lia].
Qed.

Lemma bomb_acyclic n : acyclic (bomb n) [SelFragmentSpread (fname n)].
Proof.
  intros m Hm. assert (exists j, m = fname j /\ (j <= n)%nat) as (j & -> & Hj).
  { inversion Hm as [? ? Hs|? l frag ? Hs Hl Hr]; subst;
      destruct Hs as (s & ->%list_elem_of_singleton & Hn); inversion Hn; subst.
    - by exists n.
    - rewrite bomb_lookup in Hl by lia. injection Hl as <-.
      destruct (bomb_reach n _ m Hr n) as (j & ? & ?); [done..|]. exists j. split; [done|lia]. }
  exists (bomb_fragment j). split; [by apply bomb_lookup|]. intros Hr.
  destruct (bomb_reach n _ _ Hr j) as (i & Hi%fname_inj & ?); [done..|lia].
Qed.

Lemma bomb_total wide vars n k fuel pt :
  (k <= n)%nat -> (k < fuel)%nat ->
  total wide gitscale vars (bomb n) fuel [SelFragmentSpread (fname k)] pt = 2 ^ Z.of_nat k.
Proof.
  revert k pt. induction fuel as [|fuel IH]; intros k pt Hk Hf; [lia|].
  cbn [total map sel_cost sumZ foldr]. rewrite (bomb_lookup n k Hk). destruct k as [|k].
  - destruct fuel; simpl; vm_compute; reflexivity.
  - assert (Htwo : forall s pt, total wide gitscale vars (bomb n) fuel [s; s] pt
      = total wide gitscale vars (bomb n) fuel [s] pt + total wide gitscale vars (bomb n) fuel [s] pt).
    { intros s pt'. destruct fuel; cbn [total map sumZ foldr]; lia. }
    cbn [bomb_fragment frag_Sels frag_OnType]. rewrite Htwo, IH by lia.
    rewrite Nat2Z.inj_succ, Z.pow_succ_r by lia. lia.
Qed.

Lemma bomb_height n k fuel : (k <= n)%nat -> height (bomb n) fuel [SelFragmentSpread (fname k)] = 0.
Proof.
  revert k. induction fuel as [|fuel IH]; intros k Hk; [done|].
  cbn [height map sel_height maxZ foldr]. rewrite (bomb_lookup n k Hk). destruct k as [|k].
  - by destruct fuel.
  - cbn [bomb_fragment frag_Sels].
    assert (Htwo : forall s, height (bomb n) fuel [s; s] = height (bomb n) fuel [s]).
    { intros s. destruct fuel; cbn [height map maxZ foldr]; lia. }
    rewrite Htwo, IH by lia. done.
Qed.

(** The complexity counts every path through fragments: a document of
    [n + 1] fragments that each spread the next one twice is priced [2^n], by a
    walk that charges [2^n] fields one by one.  From [n = 64] on the [int] sum
    wraps to zero. *)
Theorem fragment_doubling wide vars n :
  walk wide gitscale vars (bomb n) (size (doc_Fragments (bomb n))) [SelFragmentSpread (fname n)] "Query"
    1 (∅, mkCost 0 0) = Ok (∅, mkCost 1 (wrap64 (2 ^ Z.of_nat n))).
Proof.
  destruct (walk_from_root wide gitscale vars (bomb n) [SelFragmentSpread (fname n)] "Query")
    as [(e & _ & _ & H)|[-> _]]; [by destruct H; apply bomb_acyclic|].
  cbn [doc_Fragments bomb]. rewrite bomb_size. fold (bomb n).
  rewrite bomb_total, bomb_height by lia. done.
Qed.

Example doubling_wraps_to_zero : wrap64 (2 ^ Z.of_nat 64) = 0.
Proof. reflexivity. Qed.

(** Only the first multiplier argument counts: a value of a later one is
    found by the loop and then replaced by the default. *)
Example later_multiplier_ignored :
  multiplier no_wide DefaultLimits (mkWeight 2 ["first"; "last"])
    {[ "last" := mkArgValue (Some 100) "100" ]} ∅ = 20.
Proof. vm_compute. reflexivity. Qed.

(** The rejection charge rounds down. *)
Example ParseCost_rounds_down : ParseCost (mkCost 3 309) = 30.
Proof. reflexivity. Qed.

(** [check_from f n z]: [f] holds of [z], ..., [z + n - 1]. *)
Fixpoint check_from (f : Z -> bool) (n : nat) (z : Z) : bool :=
  match n with O => true | S n' => f z && check_from f n' (z + 1) end.

Lemma check_from_spec f n z c : check_from f n z = true -> z <= c < z + Z.of_nat n -> f c = true.
Proof.
  revert z. induction n as [|n IH]; intros z; simpl; [lia|]. intros [H1 H2]%andb_true_iff Hc.
  destruct (decide (c = z)) as [->|Hne]; [done|]. apply (IH (z + 1)); [done|lia].
Qed.

(** The discounted [float64] of [z] rounds up to half of it. *)
Definition halves_exactly (z : Z) : bool :=
  match float_ceil (SFmul 53 1024 (float64_of_int z) float_half) with
  | Some v => (v =? (z + 1) / 2) && in_int v
  | None => false
  end.

Lemma halves_exactly_checked : check_from halves_exactly (Z.to_nat 10001) 0 = true.
Proof. vm_compute. reflexivity. Qed.

(** The persisted-query discount of the default limits halves the cost,
    rounding up, for every complexity up to twice the largest budget: the
    binary64 arithmetic introduces no error there. *)
Theorem persisted_discount_halves wide d c :
  0 <= c <= 10000 -> discounted wide DefaultLimits true (mkCost d c) = mkCost d ((c + 1) / 2).
Proof.
  intros Hc. pose proof (check_from_spec _ _ _ c halves_exactly_checked ltac:(lia)) as H.
  unfold halves_exactly in H. unfold discounted, int_of_float64.
  cbn [PersistedDiscount DefaultLimits Complexity Depth].
  change (SFltb (S754_zero false) float_half) with true. cbn [andb].
  destruct (float_ceil _) as [v|]; [|done]. reflect_bools. rewrite H0. by f_equal.
Qed.

Lemma persisted_discount_halves_witness :
  discounted no_wide DefaultLimits true (mkCost 4 205) = mkCost 4 103.
Proof. exact (persisted_discount_halves no_wide 4 205 ltac:(lia)). Defined.
