(* ===== verification/CacheStore.v ===== *)
(** * The cache: TTL store, in-memory implementation, namespaces

    Models [plane/data/cache/store.go], [store_memory.go] and
    [store_namespace.go].  Every operation of [CacheStore] takes the time its
    clock reads; the mutex makes operations atomic, so a run is a sequence of
    them.  Stored and returned byte slices are copies in Go and strings here. *)

From S2P Require Import Prelude GoStd.

Inductive cache_error := ErrNotFound.

#[export] Instance cache_error_eq_dec : EqDecision cache_error.
Proof. solve_decision. Defined.

(** ** The interface *)

Class CacheStore (S : Type) := {
  Get : time -> string -> S -> result cache_error string * S;
  MGet : time -> list string -> S -> list (option string) * S;
  Set_ : time -> string -> string -> duration -> S -> S;
  Delete : time -> string -> S -> S;
  CompareAndSwap : time -> string -> string -> string -> duration -> S -> bool * S
}.

(** ** MemoryStore *)

Record memEntry := mkEntry { value : string; expiresAt : time }.

Record MemoryStore := mkMemoryStore { entries : gmap string memEntry }.

Definition NewMemoryStore : MemoryStore := mkMemoryStore ∅.

Definition expired (now : time) (e : memEntry) : bool := After now (expiresAt e).

Definition MemoryStore_Get (now : time) (key : string) (m : MemoryStore) :
    result cache_error string * MemoryStore :=
  match entries m !! key with
  | Some e =>
      if expired now e then (Err ErrNotFound, mkMemoryStore (delete key (entries m)))
      else (Ok (value e), m)
  | None => (Err ErrNotFound, mkMemoryStore (delete key (entries m)))
  end.

Fixpoint MemoryStore_MGet (now : time) (keys : list string) (m : MemoryStore) :
    list (option string) * MemoryStore :=
  match keys with
  | [] => ([], m)
  | key :: keys' =>
      let '(slot, m) :=
        match entries m !! key with
        | Some e =>
            if expired now e then (None, mkMemoryStore (delete key (entries m)))
            else (Some (value e), m)
        | None => (None, mkMemoryStore (delete key (entries m)))
        end in
      let '(out, m) := MemoryStore_MGet now keys' m in
      (slot :: out, m)
  end.

Definition MemoryStore_Set (now : time) (key v : string) (ttl : duration) (m : MemoryStore) : MemoryStore :=
  mkMemoryStore (<[key := mkEntry v (Add now ttl)]> (entries m)).

Definition MemoryStore_Delete (_ : time) (key : string) (m : MemoryStore) : MemoryStore :=
  mkMemoryStore (delete key (entries m)).

(** [bytes.Equal] does not tell nil from empty: both are the empty string. *)
Definition MemoryStore_CompareAndSwap (now : time) (key expected replacement : string) (ttl : duration)
    (m : MemoryStore) : bool * MemoryStore :=
  let cur :=
    match entries m !! key with
    | Some e => if expired now e then "" else value e
    | None => ""
    end in
  let exp := if 0 <? Z.of_nat (String.length expected) then expected else "" in
  if negb (bool_decide (cur = exp)) then (false, m)
  else (true, mkMemoryStore (<[key := mkEntry replacement (Add now ttl)]> (entries m))).

#[export] Instance memory_store : CacheStore MemoryStore := {
  Get := MemoryStore_Get;
  MGet := MemoryStore_MGet;
  Set_ := MemoryStore_Set;
  Delete := MemoryStore_Delete;
  CompareAndSwap := MemoryStore_CompareAndSwap
}.

(** ** namespacedStore *)

Definition WithNamespace (env : string) : string := "gitscale:" +:+ env +:+ ":".

Definition prefixed (prefix key : string) : string := prefix +:+ key.

(** A [namespacedStore] with its prefix, over an inner store of type [S]. *)
Definition namespacedStore {S} `{CacheStore S} (prefix : string) : CacheStore S := {|
  Get := fun now key => Get now (prefixed prefix key);
  MGet := fun now keys => MGet now (map (prefixed prefix) keys);
  Set_ := fun now key => Set_ now (prefixed prefix key);
  Delete := fun now key => Delete now (prefixed prefix key);
  CompareAndSwap := fun now key => CompareAndSwap now (prefixed prefix key)
|}.

(** How a call to a remote cache goes: when, and whether it reports an error (a
    write may have been carried out all the same). *)
Inductive outcome := Works | Fails (executed : bool).
Record cache_call := mkCacheCall { c_now : time; c_outcome : outcome }.

(** ** Abstract specification

    What a store promises: there is a view [live now s] of the store at each
    time, a partial map from keys to values, that only the operations on a key
    and the passing of time change.  Clocks do not go backwards: the laws are
    about the views from the time of the operation on. *)
Class CacheLaws (S : Type) `{CacheStore S} := {
  live : time -> S -> string -> option string;
  Get_spec now k s : (Get now k s).1 = match live now s k with Some v => Ok v | None => Err ErrNotFound end;
  Get_frame now k s now' k' : now <= now' -> live now' (Get now k s).2 k' = live now' s k';
  MGet_spec now ks s : (MGet now ks s).1 = map (live now s) ks;
  MGet_frame now ks s now' k' : now <= now' -> live now' (MGet now ks s).2 k' = live now' s k';
  Set_spec now k v ttl s now' k' : now <= now' ->
    live now' (Set_ now k v ttl s) k' =
      if bool_decide (k' = k) then (if After now' (Add now ttl) then None else Some v)
      else live now' s k';
  Delete_spec now k s now' k' : now <= now' ->
    live now' (Delete now k s) k' = if bool_decide (k' = k) then None else live now' s k';
  CAS_spec now k e r ttl s :
    (CompareAndSwap now k e r ttl s).1 = bool_decide (default "" (live now s k) = e);
  CAS_frame now k e r ttl s now' k' : now <= now' ->
    live now' (CompareAndSwap now k e r ttl s).2 k' =
      if bool_decide (default "" (live now s k) = e)
      then live now' (Set_ now k r ttl s) k' else live now' s k'
}.

Definition mem_live (now : time) (m : MemoryStore) (k : string) : option string :=
  match entries m !! k with
  | Some e => if expired now e then None else Some (value e)
  | None => None
  end.

Lemma expired_mono now now' e : now <= now' -> expired now e = true -> expired now' e = true.
Proof. unfold expired, After. rewrite !Z.ltb_lt. lia. Qed.

(** Dropping a key that is expired or absent at [now] is invisible from [now] on. *)
Lemma live_delete_dead now now' m k k' :
  now <= now' -> mem_live now m k = None ->
  mem_live now' (mkMemoryStore (delete k (entries m))) k' = mem_live now' m k'.
Proof.
  intros Hle Hdead. unfold mem_live in *. simpl. destruct (decide (k = k')) as [->|Hne].
  - rewrite lookup_delete_eq. destruct (entries m !! k') as [e|]; [|done].
    destruct (expired now e) eqn:E; [|done]. by rewrite (expired_mono now now').
  - by rewrite lookup_delete_ne.
Qed.

Lemma mem_live_set now k v ttl m now' k' :
  mem_live now' (MemoryStore_Set now k v ttl m) k' =
    if bool_decide (k' = k) then (if After now' (Add now ttl) then None else Some v)
    else mem_live now' m k'.
Proof.
  unfold mem_live. simpl. case_bool_decide as Hk.
  - subst. by rewrite lookup_insert_eq.
  - by rewrite lookup_insert_ne.
Qed.

Lemma mem_get_frame now k m now' k' :
  now <= now' -> mem_live now' (MemoryStore_Get now k m).2 k' = mem_live now' m k'.
Proof.
  intros Hle. unfold MemoryStore_Get. destruct (entries m !! k) as [e|] eqn:He.
  - destruct (expired now e) eqn:Hx; simpl; [|done].
    eapply live_delete_dead; [done|]. unfold mem_live. by rewrite He, Hx.
  - eapply live_delete_dead; [done|]. unfold mem_live. by rewrite He.
Qed.

(** One slot of [MGet] is a [Get]. *)
Lemma mget_cons now k ks m :
  MemoryStore_MGet now (k :: ks) m =
    let '(out, m') := MemoryStore_MGet now ks (MemoryStore_Get now k m).2 in
    (mem_live now m k :: out, m').
Proof.
  simpl. unfold MemoryStore_Get, mem_live. destruct (entries m !! k) as [e|]; [|done].
  by destruct (expired now e).
Qed.

Lemma mget_spec now ks m :
  (MemoryStore_MGet now ks m).1 = map (mem_live now m) ks /\
  forall now' k', now <= now' -> mem_live now' (MemoryStore_MGet now ks m).2 k' = mem_live now' m k'.
Proof.
  revert m. induction ks as [|k ks IH]; intros m; [done|]. rewrite mget_cons.
  destruct (IH (MemoryStore_Get now k m).2) as [IHout IHframe].
  destruct (MemoryStore_MGet now ks _) as [out m']. simpl in *. split.
  - f_equal. rewrite IHout. apply map_ext. intros k'. apply mem_get_frame. lia.
  - intros now' k' Hle. rewrite IHframe by done. by apply mem_get_frame.
Qed.

Lemma cas_cur now k m :
  match entries m !! k with Some e => if expired now e then "" else value e | None => "" end
  = default "" (mem_live now m k).
Proof. unfold mem_live. destruct (entries m !! k) as [e|]; [|done]. by destruct (expired now e). Qed.

Lemma cas_exp (e : string) : (if 0 <? Z.of_nat (String.length e) then e else "") = e.
Proof. by destruct e. Qed.

Lemma cas_unfold now k e r ttl m :
  MemoryStore_CompareAndSwap now k e r ttl m =
    if bool_decide (default "" (mem_live now m k) = e) then (true, MemoryStore_Set now k r ttl m)
    else (false, m).
Proof.
  unfold MemoryStore_CompareAndSwap. cbn zeta. rewrite cas_cur, cas_exp. by case_bool_decide.
Qed.

#[export] Instance memory_laws : CacheLaws MemoryStore.
Proof.
  refine {| live := mem_live |}; intros; simpl in *.
  - unfold MemoryStore_Get, mem_live. destruct (entries s !! k) as [e|]; [|done]. by destruct (expired now e).
  - by apply mem_get_frame.
  - apply mget_spec.
  - by apply mget_spec.
  - apply mem_live_set.
  - unfold mem_live. simpl. case_bool_decide as Hk; [subst; by rewrite lookup_delete_eq|].
    by rewrite lookup_delete_ne.
  - rewrite cas_unfold. by case_bool_decide.
  - rewrite cas_unfold. by case_bool_decide.
Defined.

(** A namespaced store keeps the laws, on the keys below its prefix. *)
Lemma prefixed_eq prefix k k' : bool_decide (prefixed prefix k' = prefixed prefix k) = bool_decide (k' = k).
Proof.
  apply bool_decide_ext. unfold prefixed. split; [|by intros ->]. by intros H%(inj (String.append prefix)).
Qed.

Lemma namespaced_laws {S} {C : CacheStore S} {L : CacheLaws S} prefix : @CacheLaws S (namespacedStore prefix).
Proof.
  refine {| live := fun now s k => live now s (prefixed prefix k) |}; intros; simpl.
  - apply Get_spec.
  - by apply Get_frame.
  - rewrite MGet_spec, map_map. done.
  - by apply MGet_frame.
  - rewrite Set_spec by done. by rewrite prefixed_eq.
  - rewrite Delete_spec by done. by rewrite prefixed_eq.
  - apply CAS_spec.
  - by apply CAS_frame.
Defined.

(** ** Runs *)

Inductive cache_op :=
| OGet (k : string)
| OMGet (ks : list string)
| OSet (k v : string) (ttl : duration)
| ODelete (k : string)
| OCAS (k expected replacement : string) (ttl : duration).

Inductive cache_out :=
| RGet (r : result cache_error string)
| RMGet (vs : list (option string))
| RUnit
| RBool (b : bool).

Section runs.
Context {S : Type} {C : CacheStore S}.

Definition run_cache_op (now : time) (o : cache_op) (s : S) : cache_out * S :=
  match o with
  | OGet k => let '(r, s) := Get now k s in (RGet r, s)
  | OMGet ks => let '(r, s) := MGet now ks s in (RMGet r, s)
  | OSet k v ttl => (RUnit, Set_ now k v ttl s)
  | ODelete k => (RUnit, Delete now k s)
  | OCAS k e r ttl => let '(b, s) := CompareAndSwap now k e r ttl s in (RBool b, s)
  end.

Fixpoint run_trace (tr : list (time * cache_op)) (s : S) : list cache_out * S :=
  match tr with
  | [] => ([], s)
  | (now, o) :: tr' =>
      let '(r, s) := run_cache_op now o s in
      let '(rs, s) := run_trace tr' s in (r :: rs, s)
  end.
End runs.

(** Clock readings that never go backwards, from [t] on. *)
Fixpoint clock_ok (t : time) (tr : list (time * cache_op)) : Prop :=
  match tr with
  | [] => True
  | (now, _) :: tr' => t <= now /\ clock_ok now tr'
  end.

Definition op_keys (o : cache_op) : list string :=
  match o with
  | OGet _ | OMGet _ => []
  | OSet k _ _ | ODelete k | OCAS k _ _ _ => [k]
  end.

Section lawful.
Context {S T : Type} {CS : CacheStore S} {CT : CacheStore T} {LS : CacheLaws S} {LT : CacheLaws T}.

Definition same_view (t : time) (s : S) (u : T) : Prop :=
  forall now k, t <= now -> live now s k = live now u k.

Lemma same_view_op now o s u :
  same_view now s u ->
  (run_cache_op now o s).1 = (run_cache_op now o u).1 /\
  same_view now (run_cache_op now o s).2 (run_cache_op now o u).2.
Proof.
  intros H. assert (Hnow : forall k, live now s k = live now u k) by (intros; apply H; lia).
  destruct o as [k|ks|k v ttl|k|k e r ttl]; simpl.
  - pose proof (Get_spec now k s) as G1. pose proof (Get_spec now k u) as G2.
    pose proof (Get_frame now k s) as F1. pose proof (Get_frame now k u) as F2.
    destruct (Get now k s), (Get now k u). simpl in *. rewrite G1, G2, Hnow. split; [done|].
    intros now' k' Hle. rewrite F1, F2 by done. by apply H.
  - pose proof (MGet_spec now ks s) as G1. pose proof (MGet_spec now ks u) as G2.
    pose proof (MGet_frame now ks s) as F1. pose proof (MGet_frame now ks u) as F2.
    destruct (MGet now ks s), (MGet now ks u). simpl in *. rewrite G1, G2.
    split; [f_equal; apply map_ext; done|].
    intros now' k' Hle. rewrite F1, F2 by done. by apply H.
  - split; [done|]. intros now' k' Hle. rewrite !Set_spec by done. by rewrite H.
  - split; [done|]. intros now' k' Hle. rewrite !Delete_spec by done. by rewrite H.
  - pose proof (CAS_spec now k e r ttl s) as G1. pose proof (CAS_spec now k e r ttl u) as G2.
    pose proof (CAS_frame now k e r ttl s) as F1. pose proof (CAS_frame now k e r ttl u) as F2.
    destruct (CompareAndSwap now k e r ttl s), (CompareAndSwap now k e r ttl u). simpl in *.
    rewrite G1, G2, Hnow. split; [done|].
    intros now' k' Hle. rewrite F1, F2, Hnow by done. case_bool_decide; [|by apply H].
    rewrite !Set_spec by done. by rewrite H.
Qed.

Lemma same_view_later t t' s u : t <= t' -> same_view t s u -> same_view t' s u.
Proof. intros Hle H now k Hk. apply H. lia. Qed.

Lemma lawful_stores_agree t tr s u :
  clock_ok t tr -> same_view t s u -> (run_trace tr s).1 = (run_trace tr u).1.
Proof.
  revert t s u. induction tr as [|[now o] tr IH]; intros t s u; simpl; [done|].
  intros [Hle Hc] Hv. apply (same_view_later _ now) in Hv; [|done].
  apply (same_view_op now o) in Hv as [Ho Hv].
  destruct (run_cache_op now o s) as [r1 s1], (run_cache_op now o u) as [r2 u1]. simpl in *.
  apply (IH now) in Hv; [|done]. destruct (run_trace tr s1), (run_trace tr u1). simpl in *. by subst.
Qed.

(** An operation through a namespace leaves every key outside the prefix alone. *)
Lemma namespaced_frame prefix now o s now' k :
  now <= now' -> (forall k', k <> prefixed prefix k') ->
  live now' (run_cache_op (C := namespacedStore prefix) now o s).2 k = live now' s k.
Proof.
  intros Hle Hk. destruct o as [k0|ks|k0 v ttl|k0|k0 e r ttl]; simpl.
  - pose proof (Get_frame now (prefixed prefix k0) s now' k Hle) as F. by destruct (Get _ _ _).
  - pose proof (MGet_frame now (map (prefixed prefix) ks) s now' k Hle) as F. by destruct (MGet _ _ _).
  - rewrite Set_spec by done. by rewrite bool_decide_false.
  - rewrite Delete_spec by done. by rewrite bool_decide_false.
  - pose proof (CAS_frame now (prefixed prefix k0) e r ttl s now' k Hle) as F.
    destruct (CompareAndSwap _ _ _ _ _ _). simpl in *. rewrite F. case_bool_decide; [|done].
    rewrite Set_spec by done. by rewrite bool_decide_false.
Qed.
End lawful.

(** ** The eager reference: a map from keys to values with deadlines *)

Record ttl_map := mkTtl { bindings : gmap string (string * time) }.

Definition ttl_live (now : time) (m : ttl_map) (k : string) : option string :=
  match bindings m !! k with
  | Some (v, deadline) => if After now deadline then None else Some v
  | None => None
  end.

Definition ttl_put (k v : string) (deadline : time) (m : ttl_map) : ttl_map :=
  mkTtl (<[k := (v, deadline)]> (bindings m)).

#[export] Instance ttl_store : CacheStore ttl_map := {
  Get := fun now k m => (match ttl_live now m k with Some v => Ok v | None => Err ErrNotFound end, m);
  MGet := fun now ks m => (map (ttl_live now m) ks, m);
  Set_ := fun now k v ttl m => ttl_put k v (Add now ttl) m;
  Delete := fun _ k m => mkTtl (delete k (bindings m));
  CompareAndSwap := fun now k e r ttl m =>
    if bool_decide (default "" (ttl_live now m k) = e) then (true, ttl_put k r (Add now ttl) m) else (false, m)
}.

#[export] Instance ttl_laws : CacheLaws ttl_map.
Proof.
  refine {| live := ttl_live |}; intros; simpl; try done.
  - unfold ttl_live. simpl. case_bool_decide; [subst; by rewrite lookup_insert_eq|by rewrite lookup_insert_ne].
  - unfold ttl_live. simpl. case_bool_decide; [subst; by rewrite lookup_delete_eq|by rewrite lookup_delete_ne].
  - by case_bool_decide.
  - by case_bool_decide.
Defined.

Lemma env_prefix_disjoint env1 env2 k1 k2 :
  (":"%char ∉ s2l env1) -> (":"%char ∉ s2l env2) ->
  prefixed (WithNamespace env1) k1 = prefixed (WithNamespace env2) k2 -> env1 = env2.
Proof.
  intros H1 H2 H. unfold prefixed, WithNamespace in H.
  rewrite !sapp_assoc in H. apply (inj (String.append "gitscale:")) in H.
  apply (f_equal s2l) in H. rewrite !s2l_app in H.
  change (s2l ":") with [":"%char] in H. cbn [app] in H.
  apply (f_equal (cut_at ":"%char)) in H. rewrite !cut_at_app in H by done.
  apply s2l_inj. congruence.
Qed.

(** ** Properties *)

(** The in-memory store, used through any key namespace, is a map with
    deadlines: on every sequence of operations whose clock does not go
    backwards it gives the answers of the reference map that never evicts.
    Lazy eviction, inside [Get] and [MGet], and the key prefix are
    unobservable. *)
Theorem MemoryStore_refines_ttl_map t tr prefix :
  clock_ok t tr ->
  (run_trace (C := namespacedStore prefix) tr NewMemoryStore).1 = (run_trace tr (mkTtl ∅)).1.
Proof.
  intros Hc. apply (lawful_stores_agree (LS := namespaced_laws prefix) t); [done|].
  intros now k _. done.
Qed.

Definition sample_trace : list (time * cache_op) :=
  [(0, OSet "a" "1" 10); (10, OGet "a"); (11, OGet "a"); (11, OCAS "a" "" "2" 5); (12, OMGet ["a"; "b"])].

Lemma MemoryStore_refines_ttl_map_witness :
  clock_ok 0 sample_trace /\
  (run_trace (C := namespacedStore (WithNamespace "prod")) sample_trace NewMemoryStore).1
    = [RUnit; RGet (Ok "1"); RGet (Err ErrNotFound); RBool true; RMGet [Some "2"; None]].
Proof.
  assert (Hc : clock_ok 0 sample_trace) by (simpl; lia). split; [exact Hc|].
  rewrite (MemoryStore_refines_ttl_map 0 sample_trace (WithNamespace "prod") Hc). vm_compute. reflexivity.
Defined.

(** Environments do not interfere: whatever is done through the
    namespace of one environment, the keys of another one (names without a
    colon) keep their values, in any store that satisfies the cache laws. *)
Theorem namespaces_isolated {S} {C : CacheStore S} {L : CacheLaws S} env1 env2 now o s now' k :
  env1 <> env2 -> ":"%char ∉ s2l env1 -> ":"%char ∉ s2l env2 -> now <= now' ->
  live now' (run_cache_op (C := namespacedStore (WithNamespace env1)) now o s).2
    (prefixed (WithNamespace env2) k)
  = live now' s (prefixed (WithNamespace env2) k).
Proof.
  intros Hne H1 H2 Hle. apply namespaced_frame; [done|]. intros k' H.
  by apply Hne, eq_sym, (env_prefix_disjoint env2 env1 k k').
Qed.

Lemma namespaces_isolated_witness :
  let s := MemoryStore_Set 0 "gitscale:dev:k" "v" 100 NewMemoryStore in
  live 5 (run_cache_op (C := namespacedStore (WithNamespace "prod")) 5 (ODelete "k") s).2
    (prefixed (WithNamespace "dev") "k") = Some "v".
Proof.
  cbv zeta. rewrite (namespaces_isolated "prod" "dev" 5 (ODelete "k") _ 5 "k");
    [reflexivity|discriminate|..|lia]; simpl; set_solver.
Defined.

(** A colon in an environment name lets two namespaces overlap. *)
Example namespaces_overlap :
  prefixed (WithNamespace "eu") "west:k" = prefixed (WithNamespace "eu:west") "k".
Proof. reflexivity. Qed.

(** [CompareAndSwap] with an empty expectation cannot tell an absent key from
    one that holds the empty value, and overwrites the latter. *)
Example CAS_overwrites_empty_value :
  let s := MemoryStore_Set 0 "k" "" 100 NewMemoryStore in
  live 1 s "k" = Some "" /\ (MemoryStore_CompareAndSwap 1 "k" "" "new" 100 s).1 = true.
Proof. by vm_compute. Qed.
