(* ===== verification/RateLimiter.v ===== *)
(** * Token-bucket rate limiting

    Models [plane/data/ratelimit/limiter.go], [limiter_memory.go] and
    [namespace.go].  The limiter's arithmetic is an argument ([Float64]): the
    instance [binary64] is IEEE 754 as the Go code runs it, the instance
    [exact_arith] is rational arithmetic.  The quantitative theorems are about
    [exact_arith]: they show the algorithm, not the rounding of [float64]. *)

From Corelib Require Import SpecFloat.
From Stdlib Require Import QArith Lqa.
From S2P Require Import Prelude GoStd.

#[local] Open Scope Z_scope.

(** ** Arithmetic *)

Class Float64 (F : Type) := {
  fzero : F;
  seconds : duration -> F;
  fadd : F -> F -> F;
  fsub : F -> F -> F;
  fmul : F -> F -> F;
  fltb : F -> F -> bool
}.

(** [Duration.Seconds]: whole seconds plus the fraction of a second. *)
Definition of_int (z : Z) : spec_float := binary_normalize 53 1024 z 0 false.

#[export] Instance binary64 : Float64 spec_float := {
  fzero := S754_zero false;
  seconds := fun d => SFadd 53 1024 (of_int (Z.quot d Second))
                        (SFdiv 53 1024 (of_int (Z.rem d Second)) (of_int 1000000000));
  fadd := SFadd 53 1024;
  fsub := SFsub 53 1024;
  fmul := SFmul 53 1024;
  fltb := SFltb
}.

Definition seconds_Q (d : duration) : Q := Qmake d 1000000000.

#[export] Instance exact_arith : Float64 Q := {
  fzero := 0%Q;
  seconds := seconds_Q;
  fadd := Qplus;
  fsub := Qminus;
  fmul := Qmult;
  fltb := fun x y => negb (Qle_bool y x)
}.

(** ** MemoryLimiter *)

Record BucketState (F : Type) := mkBucketState {
  Capacity : F;
  Remaining : F;
  RefillPerSec : F;
  Surface : string
}.
Arguments mkBucketState {F}.
Arguments Capacity {F}.
Arguments Remaining {F}.
Arguments RefillPerSec {F}.
Arguments Surface {F}.

Record bucketState (F : Type) := mkBucket { tokens : F; lastAt : time; capacity : F; refill : F }.
Arguments mkBucket {F}.
Arguments tokens {F}.
Arguments lastAt {F}.
Arguments capacity {F}.
Arguments refill {F}.

(** The buckets by key; the mutex makes every call atomic. *)
Notation MemoryLimiter F := (gmap string (bucketState F)).

Section limiter.
Context {F : Type} `{Float64 F}.

Definition NewMemoryLimiter : MemoryLimiter F := ∅.

(** The bucket of a key after [Take], and its answer. *)
Definition take_bucket (now : time) (cap refillPerSec n : F) (b : bucketState F) : bool * bucketState F :=
  let elapsed := seconds (Sub now (lastAt b)) in
  let t := fadd (tokens b) (fmul elapsed refillPerSec) in
  let t := if fltb cap t then cap else t in
  if fltb t n then (false, mkBucket t now cap refillPerSec)
  else (true, mkBucket (fsub t n) now cap refillPerSec).

Definition Take (now : time) (key : string) (cap refillPerSec n : F) (m : MemoryLimiter F) :
    bool * F * MemoryLimiter F :=
  let b := default (mkBucket cap now cap refillPerSec) (m !! key) in
  let '(granted, b) := take_bucket now cap refillPerSec n b in
  (granted, tokens b, <[key := b]> m).

(** An unknown key reports the zero [BucketState]. *)
Definition Inspect (key : string) (m : MemoryLimiter F) : BucketState F :=
  match m !! key with
  | Some b => mkBucketState (capacity b) (tokens b) (refill b) ""
  | None => mkBucketState fzero fzero fzero ""
  end.

(** [WithNamespace]: the namespaced limiter delegates with a prefixed key. *)
Definition limiter_prefix (env : string) : string := "gitscale:" +:+ env +:+ ":".

Definition namespaced_Take (prefix : string) (now : time) (key : string) (cap refillPerSec take : F)
    (m : MemoryLimiter F) : bool * F * MemoryLimiter F :=
  Take now (prefix +:+ key) cap refillPerSec take m.

Definition namespaced_Inspect (prefix key : string) (m : MemoryLimiter F) : BucketState F :=
  Inspect (prefix +:+ key) m.
End limiter.

Example take_binary64 :
  let f := of_int in
  let m0 : MemoryLimiter spec_float := NewMemoryLimiter in
  let '(g1, r1, m1) := Take 0 "k" (f 10) (f 2) (f 7) m0 in
  let '(g2, r2, m2) := Take Second "k" (f 10) (f 2) (f 6) m1 in
  let '(g3, r3, m3) := Take (2 * Second) "k" (f 10) (f 2) (f 6) m2 in
  (g1, g2, g3, SFeqb r1 (f 3), SFeqb r2 (f 5), SFeqb r3 (f 1)) = (true, false, true, true, true, true).
Proof. vm_compute. reflexivity. Qed.

(** ** Properties of the algorithm in exact arithmetic *)

(** Requests to one bucket with fixed parameters. *)
Section exact_runs.
Context (key : string) (cap rate : Q).

Fixpoint run_takes (trace : list (time * Q)) (m : MemoryLimiter Q) : Q * MemoryLimiter Q :=
  match trace with
  | [] => (0%Q, m)
  | (now, n) :: trace' =>
      let '(granted, _, m) := Take now key cap rate n m in
      let '(total, m) := run_takes trace' m in
      ((if granted : bool then n + total else total)%Q, m)
  end.

(** Requests are for a non-negative amount, at times that do not go back. *)
Fixpoint trace_ok (t : time) (trace : list (time * Q)) : Prop :=
  match trace with
  | [] => True
  | (now, n) :: trace' => t <= now /\ (0 <= n)%Q /\ trace_ok now trace'
  end.

Definition last_time (t : time) (trace : list (time * Q)) : time := default t (last (trace.*1)).

Lemma seconds_Sub now t : t <= now -> (0 <= seconds_Q (Sub now t) <= seconds_Q (now - t)%Z)%Q.
Proof.
  intros Hle. unfold seconds_Q, Qle, Sub, int64_min, int64_max. simpl. lia.
Qed.

Lemma seconds_Q_add a b : (seconds_Q (a + b)%Z == seconds_Q a + seconds_Q b)%Q.
Proof. unfold seconds_Q, Qeq, Qplus. simpl. lia. Qed.

Lemma Qltb_spec x y : negb (Qle_bool y x) = true <-> (x < y)%Q.
Proof. rewrite negb_true_iff. rewrite <- not_true_iff_false, Qle_bool_iff. split; [apply Qnot_le_lt|apply Qlt_not_le]. Qed.

Definition bucket_ok (b : bucketState Q) : Prop := (0 <= tokens b <= cap)%Q.

(** One [Take] on a bucket: the level stays within bounds, and what is
    granted plus what is left is at most what was there plus the refill. *)
Lemma take_bucket_spec now n b :
  (0 <= rate)%Q -> (0 <= cap)%Q -> (0 <= n)%Q -> lastAt b <= now -> bucket_ok b ->
  let '(granted, b') := take_bucket now cap rate n b in
  bucket_ok b' /\ lastAt b' = now /\
  ((if granted : bool then n else 0) + tokens b' <= tokens b + seconds_Q (now - lastAt b)%Z * rate)%Q.
Proof.
  intros Hr Hc Hn Hle [Hb0 Hb1]. unfold take_bucket. simpl.
  pose proof (seconds_Sub now (lastAt b) Hle) as [Hs0 Hs1].
  set (e := seconds_Q (Sub now (lastAt b))) in *. set (d := seconds_Q (now - lastAt b)%Z) in *.
  assert (Her : (0 <= e * rate <= d * rate)%Q).
  { split; [by apply Qmult_le_0_compat|]. by apply Qmult_le_compat_r. }
  set (t := (tokens b + e * rate)%Q) in *.
  assert (Hclamp : exists t', (if negb (Qle_bool t cap) then cap else t) = t' /\ (0 <= t' <= cap)%Q /\ (t' <= t)%Q).
  { eexists. split; [reflexivity|]. destruct (negb (Qle_bool t cap)) eqn:E.
    - apply Qltb_spec in E. split; [split; lra|lra].
    - apply negb_false_iff, Qle_bool_iff in E. subst t. split; [split; lra|lra]. }
  destruct Hclamp as (t' & -> & [Ht0 Ht1] & Htt). subst t.
  destruct (negb (Qle_bool n t')) eqn:E; simpl.
  - split; [by split|]. split; [done|]. lra.
  - apply negb_false_iff, Qle_bool_iff in E. split; [split; simpl; lra|]. split; [done|]. lra.
Qed.

Lemma last_time_cons t now n trace : last_time t ((now, n) :: trace) = last_time now trace.
Proof. unfold last_time. simpl. rewrite last_cons. by destruct (last _). Qed.

Lemma last_time_ge t trace : trace_ok t trace -> t <= last_time t trace.
Proof.
  revert t. induction trace as [|[now n] trace IH]; intros t; simpl; [unfold last_time; simpl; lia|].
  intros (Hle & _ & Htr). rewrite last_time_cons. apply IH in Htr. lia.
Qed.

(** What a [Take] does to the bucket of the key, present or not. *)
Lemma Take_bucket now n m b :
  default (mkBucket cap now cap rate) (m !! key) = b ->
  exists granted b', take_bucket now cap rate n b = (granted, b') /\
    Take now key cap rate n m = (granted, tokens b', <[key := b']> m).
Proof.
  intros <-. unfold Take. destruct (take_bucket _ _ _ _ _) as [g b'] eqn:E. by exists g, b'.
Qed.

Lemma run_takes_from trace m b :
  (0 <= rate)%Q -> (0 <= cap)%Q -> m !! key = Some b -> bucket_ok b -> trace_ok (lastAt b) trace ->
  ((run_takes trace m).1 <= tokens b + seconds_Q (last_time (lastAt b) trace - lastAt b)%Z * rate)%Q /\
  exists b', (run_takes trace m).2 !! key = Some b' /\ bucket_ok b'.
Proof.
  intros Hr Hc. revert m b. induction trace as [|[now n] trace IH]; intros m b Hm Hb Htr.
  - simpl. unfold last_time. simpl. split; [|by exists b]. destruct Hb.
    assert (seconds_Q (lastAt b - lastAt b)%Z == 0)%Q by (unfold seconds_Q, Qeq; simpl; lia). nra.
  - destruct Htr as (Hle & Hn & Htr). rewrite last_time_cons. cbn [run_takes].
    destruct (Take_bucket now n m b) as (g & b' & Htb & ->); [by rewrite Hm|].
    pose proof (take_bucket_spec now n b Hr Hc Hn Hle Hb) as Hspec. rewrite Htb in Hspec.
    destruct Hspec as (Hb' & Hl & Hcons). rewrite <- Hl in Htr.
    destruct (IH (<[key := b']> m) b') as [IH1 IH2]; [by rewrite lookup_insert_eq|done|done|].
    destruct (run_takes trace (<[key := b']> m)) as [total m']. simpl in *. split; [|done].
    rewrite Hl in IH1. pose proof (last_time_ge now trace) as Hge. rewrite <- Hl in Hge at 1. specialize (Hge Htr).
    assert (Hs : (seconds_Q (last_time now trace - lastAt b)%Z
                  == seconds_Q (last_time now trace - now)%Z + seconds_Q (now - lastAt b)%Z)%Q).
    { rewrite <- seconds_Q_add. unfold seconds_Q, Qeq. simpl. lia. }
    rewrite Hs. destruct g; nra.
Qed.

(** C17: No over-admission.  For any sequence of requests to a key, at times
    that do not go backwards, the tokens granted never exceed the capacity
    plus what refills in the elapsed time, and the level left in the bucket is
    between zero and the capacity. *)
Theorem Take_never_over_grants t0 trace :
  (0 <= rate)%Q -> (0 <= cap)%Q -> trace_ok t0 trace ->
  ((run_takes trace NewMemoryLimiter).1 <= cap + seconds_Q (last_time t0 trace - t0)%Z * rate)%Q /\
  forall b, (run_takes trace NewMemoryLimiter).2 !! key = Some b -> (0 <= tokens b <= cap)%Q.
Proof.
  intros Hr Hc Htr. destruct trace as [|[now n] trace].
  - simpl. unfold last_time. simpl. split; [|done].
    assert (seconds_Q (t0 - t0)%Z == 0)%Q by (unfold seconds_Q, Qeq; simpl; lia). nra.
  - destruct Htr as (Hle & Hn & Htr). rewrite last_time_cons. cbn [run_takes].
    set (b := mkBucket cap now cap rate).
    destruct (Take_bucket now n NewMemoryLimiter b) as (g & b' & Htb & ->); [done|].
    pose proof (take_bucket_spec now n b Hr Hc Hn) as Hspec. rewrite Htb in Hspec.
    destruct Hspec as (Hb' & Hl & Hcons); [simpl; lia|split; simpl; lra|].
    rewrite <- Hl in Htr.
    destruct (run_takes_from trace (<[key := b']> NewMemoryLimiter) b') as [H1 (b2 & H2 & H3)];
      [done|done|by rewrite lookup_insert_eq|done|done|].
    destruct (run_takes trace _) as [total m']. simpl in *.
    split; [|intros b3 Hb3; rewrite H2 in Hb3; injection Hb3 as <-; exact H3].
    rewrite Hl in H1.
    assert (Hs : (seconds_Q (last_time now trace - t0)%Z
                  == seconds_Q (last_time now trace - now)%Z + seconds_Q (now - t0)%Z)%Q)
      by (rewrite <- seconds_Q_add; unfold seconds_Q, Qeq; simpl; lia).
    assert (Hz : (seconds_Q (now - now)%Z == 0)%Q) by (unfold seconds_Q, Qeq; simpl; lia).
    assert (Hp : (0 <= seconds_Q (now - t0)%Z)%Q) by (unfold seconds_Q, Qle; simpl; lia).
    rewrite Hs. destruct g; nra.
Qed.

(** Requests are served: a bucket left alone for [n / refill] seconds
    grants [n] tokens, for every [n] up to the capacity. *)
Theorem Take_granted_after_refill now n m b :
  m !! key = Some b -> (0 <= tokens b)%Q -> (n <= cap)%Q ->
  now - lastAt b <= int64_max -> lastAt b <= now ->
  (n <= seconds_Q (now - lastAt b)%Z * rate)%Q ->
  (Take now key cap rate n m).1.1 = true.
Proof.
  intros Hm Hb Hn Hmax Hle Hwait. unfold Take. rewrite Hm. simpl. unfold take_bucket. simpl.
  replace (Sub now (lastAt b)) with (now - lastAt b) by (unfold Sub, int64_min; lia).
  set (t := (tokens b + seconds_Q (now - lastAt b)%Z * rate)%Q).
  destruct (negb (Qle_bool t cap)) eqn:E1; destruct (negb (Qle_bool n _)) eqn:E2; simpl; try done;
    apply Qltb_spec in E2; subst t; lra.
Qed.
End exact_runs.

Definition sample_requests : list (time * Q) := [(0, 7%Q); (Second, 6%Q); (2 * Second, 6%Q)].

Lemma Take_never_over_grants_witness :
  Qle (run_takes "k" 10 2 sample_requests NewMemoryLimiter).1 14.
Proof.
  destruct (Take_never_over_grants "k" 10 2 0 sample_requests) as [H _];
    [lra|lra|unfold sample_requests, Second; simpl; repeat split; try lia; lra|].
  exact H.
Defined.

Lemma Take_granted_after_refill_witness :
  (Take (3 * Second) "k" 10%Q 2%Q 6%Q {[ "k" := mkBucket 0%Q 0 10%Q 2%Q ]}).1.1 = true.
Proof.
  apply (Take_granted_after_refill "k" 10 2 (3 * Second) 6 _ (mkBucket 0%Q 0 10%Q 2%Q));
    [reflexivity|simpl; lra|lra|vm_compute; discriminate|vm_compute; discriminate|vm_compute; discriminate].
Defined.
