(* ===== verification/Outbox.v ===== *)
(** * The transactional outbox: drain loop, expirer, producer

    Models [plane/data/outbox] ([config.go], [consumer.go], [drain.go],
    [expirer.go], [producer.go], [producer_mock.go]) and
    [plane/data/store/domain.go].  The outbox table is the list of its rows;
    the SELECT, UPDATE and DELETE statements of the code are functions on it.
    What the database, the other replicas and the broker do is an argument of
    each cycle ([drain_env], the [KafkaProducer] instance), so the theorems
    hold for every pattern of failures. *)

From S2P Require Import Prelude GoStd Sha256 Json Uuid.

(** ** Domains *)

Definition Domain := string.
Definition DomainIdentity : Domain := "identity".
Definition DomainRepositories : Domain := "repositories".
Definition DomainCollaboration : Domain := "collaboration".
Definition DomainCI : Domain := "ci".
Definition DomainBilling : Domain := "billing".
Definition DomainGit : Domain := "git".

Definition Domain_Valid (d : Domain) : bool :=
  bool_decide (d ∈ [DomainIdentity; DomainRepositories; DomainCollaboration; DomainCI; DomainBilling; DomainGit]).

(** [None] is the panic on an invalid domain. *)
Definition OutboxTable (d : Domain) : option string :=
  if Domain_Valid d then Some (d +:+ "." +:+ d +:+ "_outbox") else None.

(** ** Configuration *)

Definition defaultPollInterval : duration := 1000 * Millisecond.
Definition defaultPublishTimeout : duration := 5000 * Millisecond.
Definition defaultBatchSize : Z := 100.

(** [DB] and [Producer] are only compared with nil here. *)
Record Config := mkConfig {
  cfg_Domain : string;
  cfg_Table : string;
  cfg_Topic : string;
  cfg_DB : bool;
  cfg_Producer : bool;
  PollInterval : duration;
  PublishTimeout : duration;
  BatchSize : Z
}.

Inductive config_error :=
| ErrEnv (name : string)
| ErrEmptyDomain
| ErrEmptyTable
| ErrEmptyTopic
| ErrNilDB
| ErrNilProducer
| ErrZeroPollInterval
| ErrZeroPublishTimeout
| ErrBadBatchSize.

#[export] Instance config_error_eq_dec : EqDecision config_error.
Proof. solve_decision. Defined.

(** [os.Getenv] is a function of the name; [strconv.ParseInt] in base 10 with
    64 bits accepts what [Atoi] accepts. *)
Definition envDurationMS (getenv : string -> string) (name : string) (def : duration) : result config_error duration :=
  let s := getenv name in
  if bool_decide (s = "") then Ok def
  else match Atoi s with
       | Some n => Ok (wrap64 (n * Millisecond))
       | None => Err (ErrEnv name)
       end.

Definition envInt (getenv : string -> string) (name : string) (def : Z) : result config_error Z :=
  let s := getenv name in
  if bool_decide (s = "") then Ok def
  else match Atoi s with Some n => Ok n | None => Err (ErrEnv name) end.

Definition set_PollInterval d c :=
  mkConfig (cfg_Domain c) (cfg_Table c) (cfg_Topic c) (cfg_DB c) (cfg_Producer c) d (PublishTimeout c) (BatchSize c).
Definition set_PublishTimeout d c :=
  mkConfig (cfg_Domain c) (cfg_Table c) (cfg_Topic c) (cfg_DB c) (cfg_Producer c) (PollInterval c) d (BatchSize c).
Definition set_BatchSize n c :=
  mkConfig (cfg_Domain c) (cfg_Table c) (cfg_Topic c) (cfg_DB c) (cfg_Producer c) (PollInterval c) (PublishTimeout c) n.

Definition ApplyEnvDefaults (getenv : string -> string) (c : Config) : result config_error Config :=
  let? c := (if PollInterval c =? 0 then
               let? d := envDurationMS getenv "OUTBOX_POLL_INTERVAL_MS" defaultPollInterval in
               Ok (set_PollInterval d c)
             else Ok c) in
  let? c := (if PublishTimeout c =? 0 then
               let? d := envDurationMS getenv "OUTBOX_PUBLISH_TIMEOUT_MS" defaultPublishTimeout in
               Ok (set_PublishTimeout d c)
             else Ok c) in
  if BatchSize c =? 0 then
    let? n := envInt getenv "OUTBOX_BATCH_SIZE" defaultBatchSize in
    Ok (set_BatchSize n c)
  else Ok c.

Definition NewOutboxConsumer (c : Config) : result config_error Config :=
  if bool_decide (cfg_Domain c = "") then Err ErrEmptyDomain
  else if bool_decide (cfg_Table c = "") then Err ErrEmptyTable
  else if bool_decide (cfg_Topic c = "") then Err ErrEmptyTopic
  else if negb (cfg_DB c) then Err ErrNilDB
  else if negb (cfg_Producer c) then Err ErrNilProducer
  else if PollInterval c =? 0 then Err ErrZeroPollInterval
  else if PublishTimeout c =? 0 then Err ErrZeroPublishTimeout
  else if BatchSize c <=? 0 then Err ErrBadBatchSize
  else Ok c.

(** [time.NewTicker], the first call of [Run], panics on a non-positive interval. *)
Definition ticker_panics (c : Config) : bool := PollInterval c <=? 0.

(** ** Rows, envelopes, producers *)

Record OutboxRow := mkRow {
  row_ID : Z;
  EventID : uuid;
  AggregateType : string;
  AggregateID : uuid;
  EventType : string;
  Payload : string;
  CreatedAt : time
}.

#[export] Instance OutboxRow_eq_dec : EqDecision OutboxRow.
Proof. solve_decision. Defined.

(** A context with a deadline: how many checks of [ctx.Err] pass before it is
    done ([None]: it never is). *)
Definition context := option nat.

(** [KafkaProducer]: [PublishBatch] to a topic, [true] when it returns nil. *)
Class KafkaProducer (P : Type) := {
  PublishBatch : context -> string -> list OutboxRow -> P -> bool * P
}.

(** The contract of the interface: nil means that every event of the batch
    has been delivered; what was delivered stays so.  [producer_ok] are the
    producers that honour it. *)
Class ProducerContract (P : Type) `{KafkaProducer P} := {
  producer_ok : P -> Prop;
  delivered : P -> string -> OutboxRow -> Prop;
  publish_keeps ctx topic batch p : producer_ok p -> producer_ok (PublishBatch ctx topic batch p).2;
  publish_mono ctx topic batch p t r : delivered p t r -> delivered (PublishBatch ctx topic batch p).2 t r;
  publish_all ctx topic batch p r : producer_ok p -> (PublishBatch ctx topic batch p).1 = true ->
    r ∈ batch -> delivered (PublishBatch ctx topic batch p).2 topic r
}.

Record EventEnvelope := mkEnvelope {
  env_EventID : string;
  env_AggregateType : string;
  env_AggregateID : string;
  env_EventType : string;
  env_SchemaVersion : string;
  env_Payload : string;
  env_OccurredAt : time;
  env_PublishedAt : time;
  env_PrincipalType : string;
  env_RateBucket : string
}.

(** The envelope the mock records: [PublishedAt], [PrincipalType] and
    [RateBucket] keep their zero values. *)
Definition envelope (r : OutboxRow) : EventEnvelope :=
  mkEnvelope (uuid_String (EventID r)) (AggregateType r) (uuid_String (AggregateID r)) (EventType r) "v1"
    (Payload r) (CreatedAt r) zero_time "" "".

(** [MockProducer]; [InjectErr] is whether an error is injected. *)
Record MockProducer := mkMock {
  messages : gmap string (list EventEnvelope);
  closed : bool;
  InjectErr : bool;
  PublishAfterN : Z
}.

Definition NewMockProducer : MockProducer := mkMock ∅ false false 0.

Definition appendLocked (topic : string) (r : OutboxRow) (m : MockProducer) : MockProducer :=
  mkMock (<[topic := default [] (messages m !! topic) ++ [envelope r]]> (messages m))
    (closed m) (InjectErr m) (PublishAfterN m).

Definition appendAll (topic : string) (batch : list OutboxRow) (m : MockProducer) : MockProducer :=
  fold_left (fun m r => appendLocked topic r m) batch m.

Definition Mock_PublishBatch (ctx : context) (topic : string) (batch : list OutboxRow) (m : MockProducer) : bool * MockProducer :=
  if 0 <? PublishAfterN m then
    let limit := if Z.of_nat (length batch) <? PublishAfterN m then length batch else Z.to_nat (PublishAfterN m) in
    (negb (InjectErr m), appendAll topic (take limit batch) m)
  else if InjectErr m then (false, m)
  else match ctx with
       | None => (true, appendAll topic batch m)
       | Some n => (bool_decide (length batch <= n)%nat, appendAll topic (take n batch) m)
       end.

Definition Mock_Close (m : MockProducer) : MockProducer :=
  mkMock (messages m) true (InjectErr m) (PublishAfterN m).

Definition Messages (topic : string) (m : MockProducer) : list EventEnvelope := default [] (messages m !! topic).

#[export] Instance mock_producer : KafkaProducer MockProducer := { PublishBatch := Mock_PublishBatch }.

(** ** The drain cycle *)

(** The outbox table: its rows with [processed_at]. *)
Record stored := mkStored { the_row : OutboxRow; processed_at : option time }.
Notation table := (list stored).

Inductive drainResult := resultOK | resultLockMissed | resultEmpty | resultPublishError | resultUpdateError.

Inductive commit_outcome :=
| Committed
| RolledBack  (* commit failed, nothing applied *)
| Uncertain.  (* applied, but the connection was lost before the answer *)

(** One cycle's environment: what the database answers ([None] is an error of
    the advisory-lock query), which rows other transactions have locked, the
    publish deadline and the transaction's [now()]. *)
Record drain_env := mkEnv {
  begin_ok : bool;
  sample_ok : bool;
  lock : option bool;
  locked_rows : list Z;
  select_ok : bool;
  pub_ctx : context;
  update_ok : bool;
  commit : commit_outcome;
  db_now : time
}.

(** [ORDER BY created_at, id]. *)
Definition row_le (r s : OutboxRow) : Prop :=
  CreatedAt r < CreatedAt s \/ (CreatedAt r = CreatedAt s /\ row_ID r <= row_ID s).

#[export] Instance row_le_dec r s : Decision (row_le r s).
Proof. unfold row_le. apply _. Defined.

Definition unprocessed (t : table) : list OutboxRow :=
  the_row <$> filter (fun s => processed_at s = None) t.

(** [SELECT ... WHERE processed_at IS NULL ORDER BY created_at, id LIMIT n FOR
    UPDATE SKIP LOCKED]. *)
Definition select_batch (n : Z) (locked : list Z) (t : table) : list OutboxRow :=
  take (Z.to_nat n) (merge_sort row_le (filter (fun r => row_ID r ∉ locked) (unprocessed t))).

(** [UPDATE ... SET processed_at = now() WHERE id = ANY(ids)], with the number
    of rows it affects. *)
Definition mark_processed (ids : list Z) (now : time) (t : table) : table :=
  map (fun s => if bool_decide (row_ID (the_row s) ∈ ids) then mkStored (the_row s) (Some now) else s) t.

Definition rows_affected (ids : list Z) (t : table) : Z :=
  Z.of_nat (length (filter (fun s => row_ID (the_row s) ∈ ids) t)).

(** The gauges and the counter a cycle sets. *)
Record Metrics := mkMetrics {
  advisoryLockHeld : bool;
  highWaterLag : duration;
  processedTotal : Z
}.

Definition setAdvisoryLockHeld (b : bool) (m : Metrics) := mkMetrics b (highWaterLag m) (processedTotal m).
Definition setHighWaterLag (d : duration) (m : Metrics) := mkMetrics (advisoryLockHeld m) d (processedTotal m).
Definition addProcessed (n : Z) (m : Metrics) := mkMetrics (advisoryLockHeld m) (highWaterLag m) (processedTotal m + n).

(** [sampleHighWaterLag]: [now() - MIN(created_at)] over unprocessed rows. *)
Definition sampleHighWaterLag (now : time) (t : table) (m : Metrics) : Metrics :=
  match unprocessed t with
  | [] => setHighWaterLag 0 m
  | r :: rs => setHighWaterLag (now - foldr Z.min (CreatedAt r) (CreatedAt <$> rs)) m
  end.

Record world (P : Type) := mkWorld { rows : table; producer : P; metrics : Metrics }.
Arguments mkWorld {P}.
Arguments rows {P}.
Arguments producer {P}.
Arguments metrics {P}.

Section drain.
Context {P : Type} `{KafkaProducer P}.

(** [drainBatch]: the result label, the count, and the world after commit or
    rollback. *)
Definition drainBatch (cfg : Config) (e : drain_env) (w : world P) : drainResult * Z * world P :=
  if negb (begin_ok e) then (resultPublishError, 0, w)
  else
    let m := if sample_ok e then sampleHighWaterLag (db_now e) (rows w) (metrics w) else metrics w in
    let rollback r m p := (r, 0, mkWorld (rows w) p m) in
    match lock e with
    | None => rollback resultPublishError m (producer w)
    | Some false => rollback resultLockMissed (setAdvisoryLockHeld false m) (producer w)
    | Some true =>
        let m := setAdvisoryLockHeld true m in
        if negb (select_ok e) then rollback resultPublishError m (producer w)
        else
          let batch := select_batch (BatchSize cfg) (locked_rows e) (rows w) in
          match batch with
          | [] => rollback resultEmpty (setAdvisoryLockHeld false m) (producer w)
          | _ =>
              let '(ok, p) := PublishBatch (pub_ctx e) (cfg_Topic cfg) batch (producer w) in
              if negb ok then rollback resultPublishError m p
              else if negb (update_ok e) then rollback resultUpdateError m p
              else
                let ids := row_ID <$> batch in
                let updated := rows_affected ids (rows w) in
                let t := mark_processed ids (db_now e) (rows w) in
                match commit e with
                | RolledBack => rollback resultUpdateError m p
                | Uncertain => (resultUpdateError, 0, mkWorld t p m)
                | Committed => (resultOK, updated, mkWorld t p (setAdvisoryLockHeld false (addProcessed updated m)))
                end
          end
    end.
End drain.

(** ** The expirer *)

Record Expirer := mkExpirer { exp_domain : Domain; exp_ttl : duration; exp_batchSize : Z }.

(** [None] is the panic on an invalid domain. *)
Definition NewExpirer (d : Domain) (ttl : duration) (batch : Z) : option Expirer :=
  if Domain_Valid d then
    Some (mkExpirer d (if ttl <=? 0 then 24 * Hour else ttl) (if batch <=? 0 then 10000 else batch))
  else None.

Definition is_expired (ttl : duration) (now : time) (s : stored) : bool :=
  match processed_at s with Some p => p <? now - ttl | None => false end.

(** The [victims] CTE and the DELETE, with the number of rows deleted. *)
Definition victims (e : Expirer) (now : time) (t : table) : list Z :=
  take (Z.to_nat (exp_batchSize e))
    (merge_sort Z.le (row_ID ∘ the_row <$> filter (fun s => is_expired (exp_ttl e) now s = true) t)).

Definition expireBatch (e : Expirer) (now : time) (t : table) : Z * table :=
  let ids := victims e now t in
  let t' := filter (fun s => row_ID (the_row s) ∉ ids) t in
  (Z.of_nat (length t) - Z.of_nat (length t'), t').

Inductive expire_outcome :=
| Expired (total : Z)
| ExpireFailed (total : Z)
| ExpireOutOfFuel.

(** [Expire]: the [i]-th batch runs at [now i] and [ok i] tells whether the
    database executed it. *)
Fixpoint Expire_loop (fuel : nat) (i : nat) (e : Expirer) (now : nat -> time) (ok : nat -> bool)
    (total : Z) (t : table) : expire_outcome * table :=
  match fuel with
  | O => (ExpireOutOfFuel, t)
  | S fuel' =>
      if negb (ok i) then (ExpireFailed total, t)
      else
        let '(n, t) := expireBatch e (now i) t in
        if n <? exp_batchSize e then (Expired (total + n), t)
        else Expire_loop fuel' (S i) e now ok (total + n) t
  end.

Definition Expire (e : Expirer) (now : nat -> time) (ok : nat -> bool) (t : table) : expire_outcome * table :=
  Expire_loop (S (length t)) 0 e now ok 0 t.

(** ** Table lemmas *)

#[export] Instance row_le_trans : Transitive row_le.
Proof. intros r s t. unfold row_le. lia. Qed.
#[export] Instance row_le_total : Total row_le.
Proof. intros r s. unfold row_le. lia. Qed.

Definition ids_unique (l : list OutboxRow) : Prop := NoDup (row_ID <$> l).

Lemma ids_unique_eq l r s : ids_unique l -> r ∈ l -> s ∈ l -> row_ID r = row_ID s -> r = s.
Proof.
  intros Hu Hr Hs He. apply list_elem_of_lookup in Hr as [i Hi]. apply list_elem_of_lookup in Hs as [j Hj].
  assert (i = j) as ->.
  { eapply NoDup_lookup; [exact Hu|..]; rewrite list_lookup_fmap; [rewrite Hi|rewrite Hj]; simpl; [done|by rewrite He]. }
  congruence.
Qed.

Lemma ids_unique_sublist l k : l `sublist_of` k -> ids_unique k -> ids_unique l.
Proof. intros Hs Hk. eapply sublist_NoDup; [exact Hk|]. by apply fmap_sublist. Qed.

Lemma the_row_mark ids now t : the_row <$> mark_processed ids now t = the_row <$> t.
Proof.
  unfold mark_processed. rewrite <- list_fmap_compose. apply list_fmap_ext. intros i s _. simpl.
  by case_bool_decide.
Qed.

Lemma unprocessed_mark ids now t :
  unprocessed (mark_processed ids now t) = filter (fun r => row_ID r ∉ ids) (unprocessed t).
Proof.
  unfold unprocessed, mark_processed. induction t as [|s t IH]; [done|]. cbn [map].
  case_bool_decide as Hi; destruct (decide (processed_at s = None)) as [Hn|Hn].
  - rewrite filter_cons_False by done. rewrite (filter_cons_True _ s) by done.
    rewrite fmap_cons, filter_cons_False by tauto. exact IH.
  - rewrite filter_cons_False by done. rewrite (filter_cons_False _ s) by done. exact IH.
  - rewrite !(filter_cons_True _ s) by done. rewrite !fmap_cons, filter_cons_True by done. by f_equal.
  - rewrite !(filter_cons_False _ s) by done. exact IH.
Qed.

Lemma elem_of_unprocessed t r : r ∈ unprocessed t <-> mkStored r None ∈ t.
Proof.
  unfold unprocessed. rewrite list_elem_of_fmap. split.
  - intros ([r' p] & -> & [Hp Hin]%list_elem_of_filter). simpl in *. by subst.
  - intros Hin. exists (mkStored r None). split; [done|]. by apply list_elem_of_filter.
Qed.

Lemma unprocessed_sublist t : unprocessed t `sublist_of` (the_row <$> t).
Proof. unfold unprocessed. apply fmap_sublist, sublist_filter. Qed.

Lemma select_batch_unprocessed n locked t r : r ∈ select_batch n locked t -> mkStored r None ∈ t.
Proof.
  unfold select_batch. intros Hr. apply elem_of_take in Hr as (i & Hi & _).
  apply list_elem_of_lookup_2 in Hi. rewrite merge_sort_Permutation in Hi.
  apply list_elem_of_filter in Hi as [_ Hi]. by apply elem_of_unprocessed.
Qed.

Lemma stored_unique t s s' :
  ids_unique (the_row <$> t) -> s ∈ t -> s' ∈ t -> row_ID (the_row s) = row_ID (the_row s') -> s = s'.
Proof.
  intros Hu Hs Hs' He. apply list_elem_of_lookup in Hs as [i Hi]. apply list_elem_of_lookup in Hs' as [j Hj].
  assert (i = j) as ->; [|congruence].
  eapply NoDup_lookup; [exact Hu|..]; rewrite !list_lookup_fmap; [rewrite Hi|rewrite Hj]; simpl; [done|by rewrite He].
Qed.

Lemma elem_of_victims e now t i :
  i ∈ victims e now t -> exists s, s ∈ t /\ row_ID (the_row s) = i /\ is_expired (exp_ttl e) now s = true.
Proof.
  unfold victims. intros (j & Hj & _)%elem_of_take. apply list_elem_of_lookup_2 in Hj.
  rewrite merge_sort_Permutation in Hj. apply list_elem_of_fmap in Hj as (s & -> & [Hx Hs]%list_elem_of_filter).
  by exists s.
Qed.

(** The expirer never deletes an unprocessed row. *)
Lemma expireBatch_keeps_unprocessed e now t s :
  ids_unique (the_row <$> t) -> s ∈ t -> processed_at s = None -> s ∈ (expireBatch e now t).2.
Proof.
  intros Hu Hs Hp. simpl. apply list_elem_of_filter. split; [|done].
  intros (s' & Hs' & Hid & Hx)%elem_of_victims.
  assert (s = s') as <- by (eapply stored_unique; eauto). unfold is_expired in Hx. by rewrite Hp in Hx.
Qed.

(** ** The system: writers, replicas draining, the expirer *)

Record system (P : Type) := mkSystem { history : list OutboxRow; state : world P }.
Arguments mkSystem {P}.
Arguments history {P}.
Arguments state {P}.

Section system.
Context {P : Type} `{Pr : KafkaProducer P} {Co : ProducerContract P} (cfg : Config).

(** A source transaction inserts a row with a fresh id; any replica runs a
    drain cycle in any environment; the expirer deletes one batch. *)
Inductive step : system P -> system P -> Prop :=
| step_insert h w r :
    row_ID r ∉ row_ID <$> h ->
    step (mkSystem h w) (mkSystem (h ++ [r]) (mkWorld (rows w ++ [mkStored r None]) (producer w) (metrics w)))
| step_drain h w e :
    step (mkSystem h w) (mkSystem h (drainBatch cfg e w).2)
| step_expire h w ex now :
    step (mkSystem h w) (mkSystem h (mkWorld (expireBatch ex now (rows w)).2 (producer w) (metrics w))).

Inductive sys_reachable (p0 : P) (m0 : Metrics) : system P -> Prop :=
| sys_init : sys_reachable p0 m0 (mkSystem [] (mkWorld [] p0 m0))
| sys_step x y : sys_reachable p0 m0 x -> step x y -> sys_reachable p0 m0 y.

Notation sent := (fun w r => delivered (producer w) (cfg_Topic cfg) r).

Record outbox_inv (x : system P) : Prop := {
  inv_ids : ids_unique (history x);
  inv_rows : (the_row <$> rows (state x)) `sublist_of` history x;
  inv_kept r : r ∈ history x -> mkStored r None ∈ rows (state x) \/ sent (state x) r;
  inv_processed s : s ∈ rows (state x) -> processed_at s <> None -> sent (state x) (the_row s);
  inv_producer : producer_ok (producer (state x))
}.

(** What a cycle does to the table and the producer. *)
Lemma drainBatch_effect e w :
  let w' := (drainBatch cfg e w).2 in
  let batch := select_batch (BatchSize cfg) (locked_rows e) (rows w) in
  let pub := PublishBatch (pub_ctx e) (cfg_Topic cfg) batch (producer w) in
  rows w' = rows w /\ (producer w' = producer w \/ producer w' = pub.2) \/
  rows w' = mark_processed (row_ID <$> batch) (db_now e) (rows w) /\ pub.1 = true /\ producer w' = pub.2.
Proof.
  unfold drainBatch. destruct (begin_ok e); simpl; [|by auto].
  destruct (lock e) as [[]|]; simpl; auto. destruct (select_ok e); simpl; [|by auto].
  destruct (select_batch _ _ _) as [|r batch] eqn:Eb; simpl; [by auto|].
  destruct (PublishBatch _ _ _ _) as [ok p] eqn:Ep. simpl. destruct ok; simpl; [|by auto].
  destruct (update_ok e); simpl; [|by auto]. destruct (commit e); simpl; auto.
Qed.

(** An unchanged table and a producer that only gained messages. *)
Lemma inv_more_sent h w w' :
  rows w' = rows w -> producer_ok (producer w') -> (forall r, sent w r -> sent w' r) ->
  outbox_inv (mkSystem h w) -> outbox_inv (mkSystem h w').
Proof.
  intros Hr Hp Hs []. constructor; simpl in *; rewrite ?Hr; auto.
  intros r Hin. destruct (inv_kept0 r Hin); auto.
Qed.

Lemma inv_mark h w batch now p m :
  (forall r, r ∈ batch -> mkStored r None ∈ rows w) ->
  producer_ok p -> (forall r, sent w r -> delivered p (cfg_Topic cfg) r) ->
  (forall r, r ∈ batch -> delivered p (cfg_Topic cfg) r) ->
  outbox_inv (mkSystem h w) ->
  outbox_inv (mkSystem h (mkWorld (mark_processed (row_ID <$> batch) now (rows w)) p m)).
Proof.
  intros Hb Hp Hmono Hsent [Hids Hrows Hkept Hproc _]. simpl in *.
  assert (Hrow : forall s, s ∈ rows w -> row_ID (the_row s) ∈ row_ID <$> batch -> the_row s ∈ batch).
  { intros s Hs (r & Hid & Hr)%list_elem_of_fmap.
    assert (the_row s = r) as ->; [|done].
    apply (ids_unique_eq h); [done|..|done]; eapply sublist_subseteq; try exact Hrows;
      apply list_elem_of_fmap; [by exists s|exists (mkStored r None); auto]. }
  constructor; simpl; auto.
  - by rewrite the_row_mark.
  - intros r Hr. destruct (Hkept r Hr) as [Hin|Hd]; [|auto].
    destruct (decide (row_ID r ∈ row_ID <$> batch)) as [Hi|Hi].
    + right. apply Hsent. by apply (Hrow (mkStored r None)).
    + left. apply list_elem_of_fmap. exists (mkStored r None). simpl. by rewrite bool_decide_false.
  - intros s (s0 & -> & Hs0)%list_elem_of_fmap. case_bool_decide as Hi; simpl; auto.
Qed.

Lemma inv_step x y : outbox_inv x -> step x y -> outbox_inv y.
Proof.
  intros Hinv Hst. destruct Hst as [h w r Hfresh|h w e|h w ex now].
  - destruct Hinv as [Hids Hrows Hkept Hproc Hok]. constructor; simpl in *; auto.
    + unfold ids_unique. rewrite fmap_app. apply NoDup_app. split_and!; [done| |apply NoDup_singleton].
      intros i Hi Hr. apply list_elem_of_singleton in Hr. by subst.
    + rewrite fmap_app. by apply sublist_app.
    + intros q Hq. apply elem_of_app in Hq as [Hq|Hq%list_elem_of_singleton].
      * destruct (Hkept q Hq); [left; apply elem_of_app|right]; auto.
      * subst. left. apply elem_of_app. right. by apply list_elem_of_singleton.
    + intros s Hs Hp. apply elem_of_app in Hs as [Hs|Hs%list_elem_of_singleton]; [auto|by subst].
  - pose proof (inv_producer _ Hinv) as Hok. simpl in Hok.
    destruct (drainBatch_effect e w) as [[Hr [Hp|Hp]]|(Hr & Hpub & Hp)]; cbv zeta in *.
    + eapply inv_more_sent; [done|by rewrite Hp|by rewrite Hp|done].
    + eapply inv_more_sent; [done|rewrite Hp; by apply publish_keeps| |done].
      intros r Hs. rewrite Hp. by apply publish_mono.
    + destruct (drainBatch cfg e w) as [[res n] [t' p' m']]. simpl in *. subst t' p'.
      apply inv_mark; auto.
      * intros r. apply select_batch_unprocessed.
      * by apply publish_keeps.
      * intros r. apply publish_mono.
      * intros r Hin. by apply publish_all.
  - destruct Hinv as [Hids Hrows Hkept Hproc Hok].
    constructor; simpl in *; auto.
    + etransitivity; [|exact Hrows]. apply fmap_sublist, sublist_filter.
    + intros r Hr. destruct (Hkept r Hr) as [Hin|Hd]; [|by right].
      left. apply (expireBatch_keeps_unprocessed ex now); [|done..].
      by eapply ids_unique_sublist.
    + intros s Hs. apply list_elem_of_filter in Hs as [_ Hs]. auto.
Qed.
End system.

(** ** The mock producer honours the contract *)

Lemma appendAll_flags topic batch m :
  InjectErr (appendAll topic batch m) = InjectErr m /\ PublishAfterN (appendAll topic batch m) = PublishAfterN m.
Proof. unfold appendAll. revert m. induction batch as [|r batch IH]; intros m; simpl; [done|]. apply (IH (appendLocked topic r m)). Qed.

Lemma Messages_appendAll topic batch m t :
  Messages t (appendAll topic batch m) =
    Messages t m ++ (if bool_decide (t = topic) then envelope <$> batch else []).
Proof.
  unfold appendAll. revert m. induction batch as [|r batch IH]; intros m; simpl.
  - case_bool_decide; by rewrite app_nil_r.
  - rewrite IH. unfold Messages at 1. simpl. case_bool_decide; subst.
    + rewrite lookup_insert_eq. simpl. by rewrite <- app_assoc.
    + by rewrite lookup_insert_ne.
Qed.

Lemma Mock_PublishBatch_flags ctx topic batch m :
  InjectErr (Mock_PublishBatch ctx topic batch m).2 = InjectErr m /\
  PublishAfterN (Mock_PublishBatch ctx topic batch m).2 = PublishAfterN m.
Proof.
  unfold Mock_PublishBatch. repeat case_match; simpl; try done;
    rewrite (proj1 (appendAll_flags _ _ _)), (proj2 (appendAll_flags _ _ _)); auto.
Qed.

Lemma Mock_PublishBatch_keeps ctx topic batch m t r :
  r ∈ Messages t m -> r ∈ Messages t (Mock_PublishBatch ctx topic batch m).2.
Proof.
  unfold Mock_PublishBatch. intros H. repeat case_match; simpl; try done;
    rewrite Messages_appendAll; apply elem_of_app; by left.
Qed.

#[export] Instance mock_contract : ProducerContract MockProducer.
Proof.
  refine {| producer_ok := fun m => PublishAfterN m <= 0 \/ InjectErr m = true;
            delivered := fun m t r => envelope r ∈ Messages t m |}; simpl.
  - intros ctx topic batch p H. destruct (Mock_PublishBatch_flags ctx topic batch p) as [-> ->]. done.
  - intros. by apply Mock_PublishBatch_keeps.
  - unfold Mock_PublishBatch. intros ctx topic batch p r Hok. destruct (0 <? PublishAfterN p) eqn:En; reflect_bools; simpl.
    + destruct Hok as [?| ->]; [lia|done].
    + destruct (InjectErr p); [done|]. destruct ctx as [n|]; simpl.
      * intros Hn%bool_decide_eq_true Hr. rewrite Messages_appendAll, bool_decide_true by done.
        apply elem_of_app. right. rewrite take_ge by lia. by apply list_elem_of_fmap_2.
      * intros _ Hr. rewrite Messages_appendAll, bool_decide_true by done.
        apply elem_of_app. right. by apply list_elem_of_fmap_2.
Defined.

(** Without an injected error, [PublishAfterN] breaks the contract: the batch
    is cut short and nil is returned. *)
Example PublishAfterN_without_error :
  let m := mkMock ∅ false false 1 in
  let r i := mkRow i i "t" 7 "e" "{}" i in
  let '(ok, m') := Mock_PublishBatch None "topic" [r 1; r 2] m in
  ok = true /\ length (Messages "topic" m') = 1%nat.
Proof. vm_compute. by split. Qed.

(** ** Order of publication *)

Definition healthy (e : drain_env) : Prop :=
  begin_ok e = true /\ lock e = Some true /\ locked_rows e = [] /\ select_ok e = true /\
  pub_ctx e = None /\ update_ok e = true /\ commit e = Committed.

Definition drains {P} `{KafkaProducer P} (cfg : Config) (es : list drain_env) (w : world P) : world P :=
  fold_left (fun w e => (drainBatch cfg e w).2) es w.

Definition sorted_unprocessed (t : table) : list OutboxRow := merge_sort row_le (unprocessed t).

Lemma filter_ext_elem {A} (P Q : A -> Prop) `{forall x, Decision (P x), forall x, Decision (Q x)} (l : list A) :
  (forall x, x ∈ l -> P x <-> Q x) -> filter P l = filter Q l.
Proof.
  induction l as [|x l IH]; intros H1; [done|].
  destruct (decide (P x)) as [HP|HP]; pose proof (H1 x ltac:(set_solver)) as HPQ.
  - rewrite !filter_cons_True by tauto. f_equal. apply IH. set_solver.
  - rewrite !filter_cons_False by tauto. apply IH. set_solver.
Qed.

(** Taking the first [n] rows out leaves the rest in order. *)
Lemma sort_without_first n l :
  ids_unique l ->
  merge_sort row_le (filter (fun r => row_ID r ∉ row_ID <$> take n (merge_sort row_le l)) l)
  = drop n (merge_sort row_le l).
Proof.
  intros Hu. set (s := merge_sort row_le l). assert (Hp : s ≡ₚ l) by apply merge_sort_Permutation.
  assert (Hus : NoDup (row_ID <$> (take n s ++ drop n s))) by (rewrite take_drop; unfold ids_unique in Hu; by rewrite Hp).
  rewrite fmap_app in Hus. apply NoDup_app in Hus as (_ & Hdis & _).
  apply (StronglySorted_unique_strong row_le).
  - intros x y Hx Hy Hxy Hyx. apply (ids_unique_eq l); [done| | |unfold row_le in *; lia].
    + rewrite merge_sort_Permutation in Hx. by apply list_elem_of_filter in Hx as [_ ?].
    + rewrite <- Hp, <- (take_drop n s). apply elem_of_app. by right.
  - apply StronglySorted_merge_sort; apply _.
  - pose proof (StronglySorted_merge_sort row_le l) as Hs. fold s in Hs.
    rewrite <- (take_drop n s) in Hs. by apply StronglySorted_app in Hs as (_ & _ & ?).
  - rewrite merge_sort_Permutation. clearbody s. set (Q := fun r : OutboxRow => _).
    transitivity (filter Q (take n s ++ drop n s)); [by rewrite take_drop, Hp|]. subst Q.
    rewrite filter_app, filter_none, filter_true; [done|..]; apply Forall_forall; intros r Hr.
    + intros Hi. apply (Hdis _ Hi). by apply list_elem_of_fmap_2.
    + intros Hn. apply Hn. by apply list_elem_of_fmap_2.
Qed.

Lemma healthy_select n t : select_batch n [] t = take (Z.to_nat n) (sorted_unprocessed t).
Proof.
  unfold select_batch, sorted_unprocessed. do 2 f_equal. apply filter_true, Forall_forall. set_solver.
Qed.

Lemma healthy_mock_publish topic batch m :
  InjectErr m = false -> PublishAfterN m <= 0 ->
  Mock_PublishBatch None topic batch m = (true, appendAll topic batch m).
Proof. intros Hi Hn. unfold Mock_PublishBatch. rewrite Hi. by destruct (Z.ltb_spec 0 (PublishAfterN m)); [lia|]. Qed.

Lemma healthy_drain cfg e (w : world MockProducer) :
  healthy e -> ids_unique (the_row <$> rows w) -> 0 < BatchSize cfg ->
  InjectErr (producer w) = false -> PublishAfterN (producer w) <= 0 ->
  let b := Z.to_nat (BatchSize cfg) in
  let s := sorted_unprocessed (rows w) in
  let w' := (drainBatch cfg e w).2 in
  the_row <$> rows w' = the_row <$> rows w /\ sorted_unprocessed (rows w') = drop b s /\
  producer w' = appendAll (cfg_Topic cfg) (take b s) (producer w).
Proof.
  intros (H1 & H2 & H3 & H4 & H5 & H6 & H7) Hu Hb Hi Hn b s w'.
  subst w'. unfold drainBatch. rewrite H1, H2, H3, H4, H5, H6, H7, healthy_select. fold b s. cbn [negb].
  destruct (take b s) as [|r0 batch0] eqn:Eb; cbn [snd rows producer].
  - assert (s = []) as Hs.
    { destruct s, b eqn:Hbb; try done. lia. }
    fold s. by rewrite Hs, drop_nil.
  - rewrite <- Eb. cbn [PublishBatch mock_producer]. rewrite healthy_mock_publish by done. cbn [negb snd rows producer].
    split_and!; [apply the_row_mark| |done].
    unfold sorted_unprocessed. rewrite unprocessed_mark. apply sort_without_first.
    eapply ids_unique_sublist; [apply unprocessed_sublist|done].
Qed.

Lemma drains_in_order cfg es (w : world MockProducer) :
  Forall healthy es -> ids_unique (the_row <$> rows w) -> 0 < BatchSize cfg ->
  InjectErr (producer w) = false -> PublishAfterN (producer w) <= 0 ->
  let k := (length es * Z.to_nat (BatchSize cfg))%nat in
  Messages (cfg_Topic cfg) (producer (drains cfg es w)) =
    Messages (cfg_Topic cfg) (producer w) ++ (envelope <$> take k (sorted_unprocessed (rows w))) /\
  sorted_unprocessed (rows (drains cfg es w)) = drop k (sorted_unprocessed (rows w)).
Proof.
  intros Hes. revert w. induction Hes as [|e es He Hes IH]; intros w Hu Hb Hi Hn; simpl.
  - by rewrite app_nil_r.
  - pose proof (healthy_drain cfg e w He Hu Hb Hi Hn) as Hd. cbv zeta in Hd.
    destruct (drainBatch cfg e w) as [[res n] w']. simpl in *. destruct Hd as (Hr & Hs & Hp).
    destruct (IH w') as [IH1 IH2]; [by rewrite Hr|done|by rewrite Hp, (proj1 (appendAll_flags _ _ _))
      |by rewrite Hp, (proj2 (appendAll_flags _ _ _))|].
    rewrite IH1, IH2, Hs, Hp, Messages_appendAll, bool_decide_true by done.
    rewrite drop_drop, <- app_assoc, <- fmap_app. split; [|done].
    f_equal. f_equal. rewrite <- (take_drop (Z.to_nat (BatchSize cfg)) (take (_ + _) _)).
    rewrite take_take, skipn_firstn_comm. f_equal; f_equal; lia.
Qed.

(** ** The expirer's loop *)

Lemma expireBatch_count e now t :
  let '(n, t') := expireBatch e now t in n = Z.of_nat (length t) - Z.of_nat (length t') /\ t' `sublist_of` t.
Proof. split; [done|]. apply sublist_filter. Qed.

Lemma NewExpirer_batch d ttl batch e : NewExpirer d ttl batch = Some e -> 1 <= exp_batchSize e.
Proof.
  unfold NewExpirer. destruct (Domain_Valid d); [|done]. intros [= <-]. simpl.
  destruct (batch <=? 0) eqn:E; reflect_bools; lia.
Qed.

Definition deleted_total (o : expire_outcome) : option Z :=
  match o with Expired n | ExpireFailed n => Some n | ExpireOutOfFuel => None end.

(** Some rows of [t] are gone, none unprocessed, and [n] of them. *)
Definition deletes (n : Z) (t t' : table) : Prop :=
  n = Z.of_nat (length t) - Z.of_nat (length t') /\ t' `sublist_of` t /\
  forall s, s ∈ t -> processed_at s = None -> s ∈ t'.

Lemma expireBatch_deletes e now t :
  ids_unique (the_row <$> t) -> deletes (expireBatch e now t).1 t (expireBatch e now t).2.
Proof.
  intros Hu. split_and!; [done|apply sublist_filter|].
  intros s. by apply expireBatch_keeps_unprocessed.
Qed.

Lemma Expire_loop_spec fuel i e now ok total t :
  1 <= exp_batchSize e -> (length t < fuel)%nat -> ids_unique (the_row <$> t) ->
  exists n, deleted_total (Expire_loop fuel i e now ok total t).1 = Some (total + n) /\
    deletes n t (Expire_loop fuel i e now ok total t).2.
Proof.
  intros Hb. revert i total t. induction fuel as [|fuel IH]; intros i total t Hf Hu; [lia|].
  cbn [Expire_loop]. destruct (ok i); cbn [negb].
  2: { exists 0. simpl. split; [f_equal; lia|]. split_and!; [lia|done|auto]. }
  pose proof (expireBatch_deletes e (now i) t Hu) as (Hn & Hs & Hk).
  destruct (expireBatch e (now i) t) as [n t']. simpl in *.
  destruct (n <? exp_batchSize e) eqn:En; reflect_bools.
  - exists n. split; [done|]. split_and!; auto.
  - destruct (IH (S i) (total + n) t') as (n' & Ht & Hn' & Hs' & Hk'); [lia| |].
    { eapply ids_unique_sublist; [by apply fmap_sublist|done]. }
    exists (n + n'). rewrite Ht. split; [f_equal; lia|]. split_and!; [lia|by etransitivity|auto].
Qed.

(** The rows the victims name are as many as the batch deletes. *)
Lemma length_victims e now t :
  ids_unique (the_row <$> t) -> (expireBatch e now t).1 = Z.of_nat (length (victims e now t)).
Proof.
  intros Hu. unfold expireBatch. cbn [fst]. set (ids := victims e now t).
  assert (Hids : NoDup ids).
  { subst ids. unfold victims. eapply sublist_NoDup; [|apply sublist_take].
    rewrite merge_sort_Permutation. rewrite list_fmap_compose.
    eapply sublist_NoDup; [exact Hu|]. apply fmap_sublist, fmap_sublist, sublist_filter. }
  assert (Hp : row_ID ∘ the_row <$> filter (fun s => row_ID (the_row s) ∈ ids) t ≡ₚ ids).
  { apply NoDup_Permutation; [|done|].
    - rewrite list_fmap_compose. eapply sublist_NoDup; [exact Hu|]. apply fmap_sublist, fmap_sublist, sublist_filter.
    - intros i. rewrite list_elem_of_fmap. split.
      + intros (s & -> & [Hi _]%list_elem_of_filter). done.
      + intros Hi. destruct (elem_of_victims e now t i Hi) as (s & Hs & Hid & _).
        exists s. split; [done|]. apply list_elem_of_filter. by subst. }
  apply Permutation_length in Hp. rewrite length_fmap in Hp. rewrite <- Hp.
  rewrite <- (filter_app_complement (fun s => row_ID (the_row s) ∈ ids) t) at 1.
  rewrite length_app. lia.
Qed.

(** A batch that comes up short has deleted every expired row. *)
Lemma short_batch_last e now t s :
  0 <= exp_batchSize e -> ids_unique (the_row <$> t) -> (expireBatch e now t).1 < exp_batchSize e ->
  s ∈ (expireBatch e now t).2 -> is_expired (exp_ttl e) now s = false.
Proof.
  intros Hb Hu Hlt Hs. rewrite length_victims in Hlt by done. simpl in Hs.
  apply list_elem_of_filter in Hs as [Hn Hin]. destruct (is_expired _ _ s) eqn:Hx; [|done].
  destruct Hn. unfold victims in *. rewrite length_take in Hlt. rewrite take_ge by lia.
  rewrite merge_sort_Permutation. apply list_elem_of_fmap. exists s. split; [done|].
  by apply list_elem_of_filter.
Qed.

Definition fresh_rows (ttl : duration) (now : time) (t : table) : table :=
  filter (fun s => is_expired ttl now s = false) t.

Lemma expireBatch_fresh e now t :
  ids_unique (the_row <$> t) -> fresh_rows (exp_ttl e) now (expireBatch e now t).2 = fresh_rows (exp_ttl e) now t.
Proof.
  intros Hu. unfold fresh_rows, expireBatch. cbn [snd]. rewrite list_filter_filter.
  apply filter_ext_elem. intros s Hs. split; [tauto|]. intros Hx. split; [done|].
  intros (s' & Hs' & Hid & Hx')%elem_of_victims.
  assert (s = s') as <- by (by eapply stored_unique). congruence.
Qed.

Lemma Expire_loop_fixed fuel i e now total t :
  1 <= exp_batchSize e -> (length t < fuel)%nat -> ids_unique (the_row <$> t) ->
  exists n, Expire_loop fuel i e (fun _ => now) (fun _ => true) total t
    = (Expired n, fresh_rows (exp_ttl e) now t).
Proof.
  intros Hb. revert i total t. induction fuel as [|fuel IH]; intros i total t Hf Hu; [lia|].
  cbn [Expire_loop negb].
  pose proof (expireBatch_deletes e now t Hu) as (Hn & Hs & _).
  pose proof (expireBatch_fresh e now t Hu) as Hfr.
  pose proof (short_batch_last e now t) as Hlast.
  destruct (expireBatch e now t) as [n t']. simpl in *.
  destruct (n <? exp_batchSize e) eqn:En; reflect_bools.
  - exists (total + n). f_equal. rewrite <- Hfr. symmetry. apply filter_true, Forall_forall.
    intros s Hin. apply Hlast; auto. lia.
  - rewrite <- Hfr. apply IH; [lia|]. eapply ids_unique_sublist; [by apply fmap_sublist|done].
Qed.

(** ** Properties *)

Section at_least_once.
Context {P : Type} `{Pr : KafkaProducer P} {Co : ProducerContract P}.

(** C4: At-least-once delivery.  Whatever the failures of the database, the
    broker or the commit, however many replicas drain, and whatever the
    expirer deletes: every event ever written to the outbox is still there
    unprocessed or has been delivered to the topic, and a row is marked
    processed only after its event has been delivered. *)
Theorem outbox_at_least_once cfg p0 m0 x :
  producer_ok p0 -> sys_reachable cfg p0 m0 x ->
  (forall r, r ∈ history x ->
     mkStored r None ∈ rows (state x) \/ delivered (producer (state x)) (cfg_Topic cfg) r) /\
  (forall s, s ∈ rows (state x) -> processed_at s <> None ->
     delivered (producer (state x)) (cfg_Topic cfg) (the_row s)).
Proof.
  intros Hok Hr. assert (outbox_inv cfg x) as [_ _ Hk Hp _]; [|by split].
  induction Hr as [|x y _ IH Hst].
  - constructor; simpl; auto; [by constructor|..]; set_solver.
  - by eapply inv_step.
Qed.
End at_least_once.

Definition sample_cfg : Config :=
  mkConfig "identity" "identity.identity_outbox" "gitscale.identity.events" true true Second (5 * Second) 2.
Definition sample_env : drain_env := mkEnv true true (Some true) [] true None true Committed 100.
Definition sample_outbox_row : OutboxRow := mkRow 1 11 "user" 7 "user.created" "{}" 5.
Definition no_metrics : Metrics := mkMetrics false 0 0.

Definition sample_system : system MockProducer :=
  mkSystem [sample_outbox_row]
    (drainBatch sample_cfg sample_env
       (mkWorld [mkStored sample_outbox_row None] NewMockProducer no_metrics)).2.

Lemma sample_reachable : sys_reachable sample_cfg NewMockProducer no_metrics sample_system.
Proof.
  eapply sys_step; [|apply step_drain].
  eapply sys_step; [apply sys_init|]. apply (step_insert sample_cfg [] (mkWorld [] NewMockProducer no_metrics)).
  set_solver.
Qed.

Lemma outbox_at_least_once_witness :
  mkStored sample_outbox_row None ∈ rows (state sample_system) \/
  delivered (producer (state sample_system)) (cfg_Topic sample_cfg) sample_outbox_row.
Proof.
  apply (outbox_at_least_once sample_cfg NewMockProducer no_metrics sample_system).
  - left. simpl. lia.
  - exact sample_reachable.
  - apply list_elem_of_singleton. reflexivity.
Defined.

(** C23: Order and progress.  [k] healthy drain cycles publish exactly the
    first [k * BatchSize] unprocessed events in [(created_at, id)] order, each
    once, and leave exactly the others unprocessed: the backlog is drained in
    [backlog / BatchSize] cycles, oldest first. *)
Theorem drains_publish_in_order cfg es (w : world MockProducer) :
  Forall healthy es -> ids_unique (the_row <$> rows w) -> 0 < BatchSize cfg ->
  InjectErr (producer w) = false -> PublishAfterN (producer w) <= 0 ->
  let k := (length es * Z.to_nat (BatchSize cfg))%nat in
  Messages (cfg_Topic cfg) (producer (drains cfg es w)) =
    Messages (cfg_Topic cfg) (producer w) ++ (envelope <$> take k (sorted_unprocessed (rows w))) /\
  sorted_unprocessed (rows (drains cfg es w)) = drop k (sorted_unprocessed (rows w)).
Proof. apply drains_in_order. Qed.

Definition sample_backlog : world MockProducer :=
  mkWorld [mkStored (mkRow 3 13 "user" 7 "e" "{}" 5) None; mkStored (mkRow 2 12 "user" 7 "e" "{}" 5) None;
           mkStored (mkRow 9 19 "user" 7 "e" "{}" 1) None] NewMockProducer no_metrics.

Lemma drains_publish_in_order_witness :
  (row_ID <$> sorted_unprocessed (rows (drains sample_cfg [sample_env] sample_backlog))) = [3].
Proof.
  rewrite (proj2 (drains_publish_in_order sample_cfg [sample_env] sample_backlog
    ltac:(constructor; [by repeat split|constructor])
    ltac:(by apply (bool_decide_unpack _); vm_compute) ltac:(simpl; lia) eq_refl ltac:(simpl; lia))).
  vm_compute. reflexivity.
Defined.

(** [Expire] always returns, whatever the clock reads and whichever batch
    fails; the count it reports is the number of rows it deleted, and it has
    not deleted any unprocessed row. *)
Theorem Expire_terminates_safely d ttl batch e now ok t :
  NewExpirer d ttl batch = Some e -> ids_unique (the_row <$> t) ->
  exists n, deleted_total (Expire e now ok t).1 = Some n /\ deletes n t (Expire e now ok t).2.
Proof.
  intros He Hu. unfold Expire.
  destruct (Expire_loop_spec (S (length t)) 0 e now ok 0 t) as (n & Hn & Hd); [|lia|done|].
  - by eapply NewExpirer_batch.
  - exists n. by split.
Qed.

Definition sample_table : table :=
  [mkStored sample_outbox_row (Some 0); mkStored (mkRow 2 12 "user" 7 "e" "{}" 5) None].

Lemma Expire_terminates_safely_witness :
  exists n, deleted_total (Expire (mkExpirer "ci" Hour 1) (fun _ => 2 * Hour) (fun _ => true) sample_table).1 = Some n /\
    deletes n sample_table (Expire (mkExpirer "ci" Hour 1) (fun _ => 2 * Hour) (fun _ => true) sample_table).2.
Proof.
  apply (Expire_terminates_safely "ci" Hour 1).
  - vm_compute. reflexivity.
  - by apply (bool_decide_unpack _); vm_compute.
Defined.

(** With the database up, [Expire] at time [now] removes every row
    processed more than the TTL ago, in as many batches as it takes, and
    nothing else. *)
Theorem Expire_complete d ttl batch e now t :
  NewExpirer d ttl batch = Some e -> ids_unique (the_row <$> t) ->
  exists n, Expire e (fun _ => now) (fun _ => true) t = (Expired n, fresh_rows (exp_ttl e) now t).
Proof.
  intros He Hu. unfold Expire. apply Expire_loop_fixed; [|lia|done].
  by eapply NewExpirer_batch.
Qed.

Lemma Expire_complete_witness :
  exists n, Expire (mkExpirer "ci" Hour 1) (fun _ => 2 * Hour) (fun _ => true) sample_table
    = (Expired n, [mkStored (mkRow 2 12 "user" 7 "e" "{}" 5) None]).
Proof.
  apply (Expire_complete "ci" Hour 1 (mkExpirer "ci" Hour 1) (2 * Hour) sample_table).
  - vm_compute. reflexivity.
  - by apply (bool_decide_unpack _); vm_compute.
Defined.

(** A failed publish leaves the lock gauge at 1 although the rollback has
    released the lock. *)
Example lock_gauge_stuck :
  let w := mkWorld [mkStored sample_outbox_row None] (mkMock ∅ false true 0) no_metrics in
  let '(res, _, w') := drainBatch sample_cfg sample_env w in
  res = resultPublishError /\ advisoryLockHeld (metrics w') = true.
Proof. vm_compute. by split. Qed.

(** A negative poll interval from the environment passes the validation and
    makes [Run] panic. *)
Example negative_poll_interval :
  let getenv name := if bool_decide (name = "OUTBOX_POLL_INTERVAL_MS") then "-5" else "" in
  match ApplyEnvDefaults getenv (set_PollInterval 0 sample_cfg) with
  | Ok c => is_ok (NewOutboxConsumer c) = true /\ ticker_panics c = true
  | Err _ => False
  end.
Proof. vm_compute. by split. Qed.
