(* ===== verification/IssueNoise.v ===== *)
(** * Issue noise filtering: rules, scorer, router

    Models [plane/application/issuenoise] ([decide.go], [scorer.go],
    [rule_scorer.go], [router.go], [store_stub.go], [workflow_starter.go],
    [events.go]) and its [rules] package.  Scores are IEEE binary64.  The
    backends of the rules are arguments, as is the Unicode letter table; the
    text of a signal's detail is kept as the values it prints. *)

From Corelib Require Import SpecFloat.
From S2P Require Import Prelude GoStd Floats Sha256 Json Uuid.

(** ** Rules *)

Inductive Category := CategorySpam | CategoryLowQuality | CategoryDuplicate | CategoryOther (n : Z).

(** The values printed into a signal's [Detail]. *)
Inductive Detail :=
| NoDetail
| DetailLinks (links chars : Z)
| DetailLength (n : Z)
| DetailLanguage (asciiLetters : Z) (nonASCIIRatio : float)
| DetailRate (n : Z)
| DetailReputation (score floor : float)
| DetailViolations (n : Z)
| DetailDuplicate (id : uuid) (score : float).

Record Signal := mkSignal { sig_Name : string; sig_Weight : float; sig_Detail : Detail }.

Record Result := mkResult { res_Signal : Signal; res_Category : Category; res_DuplicateOf : option uuid }.

(** [Result{}]. *)
Definition no_result : Result := mkResult (mkSignal "" f0 NoDetail) CategorySpam None.

Record Input := mkInput {
  in_IssueID : uuid;
  in_RepoID : uuid;
  in_ReporterID : uuid;
  in_Title : string;
  in_Body : string
}.

Inductive rule_error := ErrSearch | ErrUnknownCategory | ErrCanceled.

Definition Rule := Input -> result rule_error Result.

Definition body_len (i : Input) : Z := Z.of_nat (String.length (in_Body i)).

(** *** link_density.go *)

Definition LinkDensityThreshold : float := lit 10 100.
Definition LinkDensityWeight : float := lit 30 100.

(** The class of [urlPattern]: any byte but ASCII white space, angle brackets
    and the double quote. *)
Definition url_char (c : ascii) : bool :=
  negb (bool_decide (c ∈ [chr 9; chr 10; chr 12; chr 13; chr 32; "<"%char; ">"%char; chr 34])).

Fixpoint url_run (l : list ascii) : nat :=
  match l with c :: l' => if url_char c then S (url_run l') else 0 | [] => 0 end.

(** Bytes of the match of [urlPattern] at the start of the text: [http], an
    optional [s], [://] and one or more bytes of the class. *)
Definition url_match (l : list ascii) : option nat :=
  match strip_prefix (s2l "http") l with
  | None => None
  | Some l1 =>
      let '(n, l2) := match strip_prefix (s2l "s") l1 with Some l2 => (5%nat, l2) | None => (4%nat, l1) end in
      match strip_prefix (s2l "://") l2 with
      | None => None
      | Some l3 =>
          match url_run l3 with
          | O => None
          | k => Some (n + 3 + k)%nat
          end
      end
  end.

(** [FindAllStringIndex]: the number of non-overlapping matches, left to right. *)
Fixpoint count_urls (fuel : nat) (l : list ascii) : Z :=
  match fuel, l with
  | S fuel', _ :: l' =>
      match url_match l with
      | Some n => 1 + count_urls fuel' (drop n l)
      | None => count_urls fuel' l'
      end
  | _, _ => 0
  end.

Definition LinkDensity : Rule := fun i =>
  if body_len i <? 20 then Ok no_result
  else
    let matches := count_urls (String.length (in_Body i)) (s2l (in_Body i)) in
    if matches =? 0 then Ok no_result
    else
      let density := fdiv (f_of_int matches) (f_of_int (body_len i)) in
      if flt density LinkDensityThreshold then Ok no_result
      else Ok (mkResult (mkSignal "link_density" LinkDensityWeight (DetailLinks matches (body_len i))) CategorySpam None).

(** *** length.go *)

Definition LengthFloor : Z := 30.
Definition LengthCeiling : Z := 50 * 1024.
Definition LengthWeight : float := lit 40 100.

Definition Length : Rule := fun i =>
  let n := body_len i in
  if (LengthFloor <=? n) && (n <=? LengthCeiling) then Ok no_result
  else Ok (mkResult (mkSignal "length" LengthWeight (DetailLength n)) CategoryLowQuality None).

(** *** language.go *)

Definition LanguageNonASCIICeiling : float := lit 6 10.
Definition LanguageMinASCIILetters : Z := 5.
Definition LanguageWeight : float := lit 20 100.

(** The [range] loop over the body: letters below 128, and letters. *)
Fixpoint count_letters (is_letter : Z -> bool) (fuel : nat) (l : list ascii) : Z * Z :=
  match fuel, l with
  | S fuel', _ :: _ =>
      let '(r, w) := DecodeRune l in
      let '(a, t) := count_letters is_letter fuel' (drop w l) in
      if is_letter r then ((if r <? 128 then a + 1 else a), t + 1) else (a, t)
  | _, _ => (0, 0)
  end.

Definition Language (is_letter : Z -> bool) : Rule := fun i =>
  if body_len i =? 0 then Ok no_result
  else
    let '(asciiLetters, totalLetters) := count_letters is_letter (String.length (in_Body i)) (s2l (in_Body i)) in
    if totalLetters =? 0 then Ok no_result
    else
      let nonASCIIRatio := fsub f1 (fdiv (f_of_int asciiLetters) (f_of_int totalLetters)) in
      if flt nonASCIIRatio LanguageNonASCIICeiling || (LanguageMinASCIILetters <=? asciiLetters) then Ok no_result
      else Ok (mkResult (mkSignal "language" LanguageWeight (DetailLanguage asciiLetters nonASCIIRatio))
                 CategoryLowQuality None).

(** *** reporter_rate.go, reputation.go, agentsmd_violations.go, duplicate.go

    A backend is absent (nil) or a function that may fail. *)

Definition ReporterRateThreshold : Z := 20.
Definition ReporterRateSpamWeight : float := lit 50 100.

Definition ReporterRate (c : option (uuid -> option Z)) : Rule := fun i =>
  match c with
  | None => Ok no_result
  | Some count =>
      match count (in_ReporterID i) with
      | None => Ok no_result
      | Some n =>
          if n <? ReporterRateThreshold then Ok no_result
          else Ok (mkResult (mkSignal "reporter_rate" ReporterRateSpamWeight (DetailRate n)) CategorySpam None)
      end
  end.

Definition ReputationLowQualityFloor : float := lit 30 100.
Definition ReputationSpamFloor : float := lit 10 100.
Definition ReputationLowQualityWeight : float := lit 25 100.
Definition ReputationSpamWeight : float := lit 50 100.

Definition Reputation (l : option (uuid -> option float)) : Rule := fun i =>
  match l with
  | None => Ok no_result
  | Some lookup =>
      match lookup (in_ReporterID i) with
      | None => Ok no_result
      | Some score =>
          if flt score ReputationSpamFloor then
            Ok (mkResult (mkSignal "reputation" ReputationSpamWeight (DetailReputation score ReputationSpamFloor))
                  CategorySpam None)
          else if flt score ReputationLowQualityFloor then
            Ok (mkResult (mkSignal "reputation" ReputationLowQualityWeight
                            (DetailReputation score ReputationLowQualityFloor)) CategoryLowQuality None)
          else Ok no_result
      end
  end.

Definition AgentsMDViolationThreshold : Z := 3.
Definition AgentsMDViolationWeight : float := lit 40 100.

Definition AgentsMDViolations (c : option (uuid -> uuid -> option Z)) : Rule := fun i =>
  match c with
  | None => Ok no_result
  | Some count =>
      match count (in_ReporterID i) (in_RepoID i) with
      | None => Ok no_result
      | Some n =>
          if n <? AgentsMDViolationThreshold then Ok no_result
          else Ok (mkResult (mkSignal "agentsmd_violations" AgentsMDViolationWeight (DetailViolations n)) CategorySpam None)
      end
  end.

Record DuplicateCandidate := mkCandidate { cand_IssueID : uuid; cand_Score : float }.
Definition DuplicateMaxK : Z := 3.

Definition duplicate_of (c : DuplicateCandidate) : Result :=
  mkResult (mkSignal "duplicate_vespa" (cand_Score c) (DetailDuplicate (cand_IssueID c) (cand_Score c)))
    CategoryDuplicate (Some (cand_IssueID c)).

Definition Duplicate (s : option (uuid -> string -> Z -> option (list DuplicateCandidate))) : Rule := fun i =>
  match s with
  | None => Ok no_result
  | Some find =>
      if body_len i <? 30 then Ok no_result
      else
        match find (in_RepoID i) (in_Body i) DuplicateMaxK with
        | None => Err ErrSearch
        | Some [] => Ok no_result
        | Some (top :: rest) =>
            if cand_IssueID top =? in_IssueID i then
              match rest with
              | [] => Ok no_result
              | second :: _ => Ok (duplicate_of second)
              end
            else Ok (duplicate_of top)
        end
  end.

(** ** Scorer *)

Record Score := mkScore {
  sc_Spam : float;
  sc_LowQuality : float;
  sc_Duplicate : float;
  sc_DuplicateOf : option uuid;
  sc_Signals : list Signal;
  sc_ScorerVersion : string
}.

Record IssueDraft := mkDraft {
  d_ID : uuid;
  d_RepoID : uuid;
  d_ReporterID : uuid;
  d_Title : string;
  d_Body : string;
  d_CreatedAt : time
}.

Definition clamp01 (x : float) : float :=
  if flt x f0 then f0 else if flt f1 x then f1 else x.

Definition RuleScorerVersion : string := "rule-v1".

Definition NewRuleScorer (is_letter : Z -> bool) repCounter repLookup violationCounter dupSearcher : list Rule :=
  [LinkDensity; Length; Language is_letter; ReporterRate repCounter; Reputation repLookup;
   AgentsMDViolations violationCounter; Duplicate dupSearcher].

(** Adding one rule's result to the score; [None] on an unknown category. *)
Definition add_result (r : Result) (s : Score) : option Score :=
  let w := sig_Weight (res_Signal r) in
  let sigs := sc_Signals s ++ [res_Signal r] in
  match res_Category r with
  | CategorySpam =>
      Some (mkScore (fadd (sc_Spam s) w) (sc_LowQuality s) (sc_Duplicate s) (sc_DuplicateOf s) sigs (sc_ScorerVersion s))
  | CategoryLowQuality =>
      Some (mkScore (sc_Spam s) (fadd (sc_LowQuality s) w) (sc_Duplicate s) (sc_DuplicateOf s) sigs (sc_ScorerVersion s))
  | CategoryDuplicate =>
      Some (mkScore (sc_Spam s) (sc_LowQuality s) (fadd (sc_Duplicate s) w)
              (match res_DuplicateOf r with Some id => Some id | None => sc_DuplicateOf s end) sigs (sc_ScorerVersion s))
  | CategoryOther _ => None
  end.

(** [res.Signal.Weight == 0]: a NaN weight is not zero. *)
Definition is_zero (x : float) : bool := SFeqb x f0.

(** The rule loop; [canceled i] is [ctx.Err() != nil] at the [i]-th rule.  The
    score and the first error are returned together, as in Go. *)
Fixpoint score_loop (canceled : nat -> bool) (i : nat) (rs : list Rule) (inp : Input) (out : Score)
    (firstErr : option rule_error) : result rule_error (Score * option rule_error) :=
  match rs with
  | [] => Ok (out, firstErr)
  | r :: rs' =>
      if canceled i then Err ErrCanceled
      else
        match r inp with
        | Err e =>
            score_loop canceled (S i) rs' inp out (match firstErr with Some e0 => Some e0 | None => Some e end)
        | Ok res =>
            if is_zero (sig_Weight (res_Signal res)) then score_loop canceled (S i) rs' inp out firstErr
            else
              match add_result res out with
              | Some out' => score_loop canceled (S i) rs' inp out' firstErr
              | None =>
                  score_loop canceled (S i) rs' inp out
                    (match firstErr with Some e0 => Some e0 | None => Some ErrUnknownCategory end)
              end
        end
  end.

Definition zero_score (version : string) : Score := mkScore f0 f0 f0 None [] version.

(** [RuleScorer.Score]: the score and the error, if any. *)
Definition RuleScorer_Score (canceled : nat -> bool) (rs : list Rule) (d : IssueDraft) : Score * option rule_error :=
  let inp := mkInput (d_ID d) (d_RepoID d) (d_ReporterID d) (d_Title d) (d_Body d) in
  match score_loop canceled 0 rs inp (zero_score RuleScorerVersion) None with
  | Err e => (zero_score "", Some e)
  | Ok (out, err) =>
      (mkScore (clamp01 (sc_Spam out)) (clamp01 (sc_LowQuality out)) (clamp01 (sc_Duplicate out))
         (sc_DuplicateOf out) (sc_Signals out) (sc_ScorerVersion out), err)
  end.

(** ** Decision *)

Inductive Verdict := VerdictUnknown | VerdictNormal | VerdictLowQuality | VerdictDuplicate | VerdictSpam.

#[export] Instance Verdict_eq_dec : EqDecision Verdict.
Proof. solve_decision. Defined.

Definition Verdict_String (v : Verdict) : string :=
  match v with
  | VerdictNormal => "normal"
  | VerdictLowQuality => "low_quality"
  | VerdictDuplicate => "duplicate"
  | VerdictSpam => "spam"
  | VerdictUnknown => "unknown"
  end.

Definition IsTerminal (v : Verdict) : bool := bool_decide (v = VerdictSpam).
Definition IsHeld (v : Verdict) : bool :=
  bool_decide (v = VerdictLowQuality) || bool_decide (v = VerdictDuplicate).

Record Thresholds := mkThresholds {
  SpamFloor : float;
  LowQualityFloor : float;
  DuplicateFloor : float;
  HoldTTL : duration
}.

Definition DefaultThresholds : Thresholds :=
  mkThresholds (lit 700 1000) (lit 400 1000) (lit 850 1000) (14 * 24 * Hour).

Definition Decide (s : Score) (t : Thresholds) : Verdict :=
  if fge (sc_Spam s) (SpamFloor t) then VerdictSpam
  else if fge (sc_Duplicate s) (DuplicateFloor t) then VerdictDuplicate
  else if fge (sc_LowQuality s) (LowQualityFloor t) then VerdictLowQuality
  else VerdictNormal.

(** ** Store *)

Definition IssueState := string.
Definition IssueStateOpen : IssueState := "open".
Definition IssueStateHeld : IssueState := "held".
Definition IssueStateAutoClosedSpam : IssueState := "auto_closed_spam".
Definition IssueStateClosed : IssueState := "closed".

Record NoiseDecision := mkNoiseDecision {
  nd_DecisionID : uuid;
  nd_IssueID : uuid;
  nd_RepoID : uuid;
  nd_ReporterID : uuid;
  nd_Verdict : Verdict;
  nd_ScorerVersion : string;
  nd_ScoreSpam : float;
  nd_ScoreLQ : float;
  nd_ScoreDup : float;
  nd_DuplicateOf : option uuid;
  nd_Signals : list Signal;
  nd_DecidedAt : time;
  nd_DecidedBy : string
}.

Definition EventTypeRoutingDecided : string := "issue_noise.routing_decided".
Definition EventTypeReleased : string := "issue_noise.released".
Definition EnvelopeVersion : Z := 1.

Record RoutingDecidedPayload := mkRoutingDecided {
  rp_IssueID : uuid;
  rp_RepoID : uuid;
  rp_ReporterID : uuid;
  rp_Verdict : string;
  rp_ScorerVersion : string;
  rp_ScoreSpam : float;
  rp_ScoreLQ : float;
  rp_ScoreDup : float;
  rp_DuplicateOf : option uuid;
  rp_Signals : list Signal;
  rp_DecidedAt : time;
  rp_DecidedBy : string;
  rp_Enforced : bool;
  rp_EnvelopeV : Z
}.

Record ReleasedPayload := mkReleased {
  rl_IssueID : uuid;
  rl_RepoID : uuid;
  rl_MaintainerID : uuid;
  rl_ReleasedAt : time;
  rl_EnvelopeV : Z
}.

Inductive payload := PRouting (p : RoutingDecidedPayload) | PReleased (p : ReleasedPayload).

Record StubOutboxRow := mkOutboxRow { or_EventType : string; or_AggregateID : uuid; or_Payload : payload }.

(** What a transaction has written so far. *)
Record stubTx := mkTx {
  tx_issues : gmap uuid IssueState;
  tx_decisions : list NoiseDecision;
  tx_outbox : list StubOutboxRow
}.

(** [FailOnTx] is whether the injected commit error is set. *)
Record StubStore := mkStore {
  st_issues : gmap uuid IssueState;
  st_decisions : list NoiseDecision;
  st_outbox : list StubOutboxRow;
  FailOnTx : bool
}.

Definition NewStubStore : StubStore := mkStore ∅ [] [] false.

Inductive route_error := ErrThresholds | ErrTx.

Definition SetIssueState (id : uuid) (st : IssueState) (t : stubTx) : result route_error stubTx :=
  Ok (mkTx (<[id := st]> (tx_issues t)) (tx_decisions t) (tx_outbox t)).
Definition AnchorIssue (d : IssueDraft) (st : IssueState) (t : stubTx) : result route_error stubTx :=
  Ok (mkTx (<[d_ID d := st]> (tx_issues t)) (tx_decisions t) (tx_outbox t)).
Definition InsertDecision (d : NoiseDecision) (t : stubTx) : result route_error stubTx :=
  Ok (mkTx (tx_issues t) (tx_decisions t ++ [d]) (tx_outbox t)).
Definition WriteOutbox (eventType : string) (aggregateID : uuid) (p : payload) (t : stubTx) : result route_error stubTx :=
  Ok (mkTx (tx_issues t) (tx_decisions t) (tx_outbox t ++ [mkOutboxRow eventType aggregateID p])).

Definition Transact (fn : stubTx -> result route_error stubTx) (s : StubStore) : StubStore * option route_error :=
  match fn (mkTx ∅ [] []) with
  | Err e => (s, Some e)
  | Ok t =>
      if FailOnTx s then (s, Some ErrTx)
      else (mkStore (tx_issues t ∪ st_issues s) (st_decisions s ++ tx_decisions t) (st_outbox s ++ tx_outbox t)
              (FailOnTx s), None)
  end.

(** ** Workflow starter *)

Record HoldExpiryParams := mkHold { hp_IssueID : uuid; hp_RepoID : uuid; hp_HoldTTL : duration }.

Record RecordingWorkflowStarter := mkStarter {
  Started : list HoldExpiryParams;
  Released : list uuid;
  StartErr : bool;
  SigErr : bool
}.

Definition StartHoldExpiry (p : HoldExpiryParams) (w : RecordingWorkflowStarter) : RecordingWorkflowStarter * bool :=
  if StartErr w then (w, false) else (mkStarter (Started w ++ [p]) (Released w) (StartErr w) (SigErr w), true).

Definition SignalRelease (id : uuid) (w : RecordingWorkflowStarter) : RecordingWorkflowStarter * bool :=
  if SigErr w then (w, false) else (mkStarter (Started w) (Released w ++ [id]) (StartErr w) (SigErr w), true).

(** ** Router *)

Definition stateForVerdict (v : Verdict) (enforce : bool) : IssueState :=
  if negb enforce then IssueStateOpen
  else match v with
       | VerdictSpam => IssueStateAutoClosedSpam
       | VerdictLowQuality | VerdictDuplicate => IssueStateHeld
       | _ => IssueStateOpen
       end.

(** The configured dependencies: thresholds of a repository ([None]: error),
    the scorer, and the dark-launch flag. *)
Record RouterConfig := mkRouterConfig {
  rc_Thresh : uuid -> option Thresholds;
  rc_Scorer : IssueDraft -> Score * option rule_error;
  rc_Enforce : bool
}.

Record router_world := mkRouterWorld {
  rw_store : StubStore;
  rw_workflows : RecordingWorkflowStarter;
  rw_scorerErrors : Z;
  rw_routes : list string
}.

Record RouteResult := mkRouteResult {
  rr_Verdict : Verdict;
  rr_State : IssueState;
  rr_DuplicateOf : option uuid;
  rr_Enforced : bool
}.

Definition routing_decision (decisionID : uuid) (d : IssueDraft) (v : Verdict) (score : Score) (start : time) : NoiseDecision :=
  mkNoiseDecision decisionID (d_ID d) (d_RepoID d) (d_ReporterID d) v (sc_ScorerVersion score)
    (sc_Spam score) (sc_LowQuality score) (sc_Duplicate score) (sc_DuplicateOf score) (sc_Signals score)
    start "auto".

Definition routing_payload (d : IssueDraft) (v : Verdict) (score : Score) (start : time) (enforce : bool) : RoutingDecidedPayload :=
  mkRoutingDecided (d_ID d) (d_RepoID d) (d_ReporterID d) (Verdict_String v) (sc_ScorerVersion score)
    (sc_Spam score) (sc_LowQuality score) (sc_Duplicate score) (sc_DuplicateOf score) (sc_Signals score)
    start "auto" enforce EnvelopeVersion.

Definition Route (cfg : RouterConfig) (decisionID : uuid) (start : time) (d : IssueDraft) (w : router_world) :
    router_world * result route_error RouteResult :=
  match rc_Thresh cfg (d_RepoID d) with
  | None => (w, Err ErrThresholds)
  | Some thresh =>
      let '(score, errs) :=
        match rc_Scorer cfg d with
        | (_, Some _) => (zero_score RuleScorerVersion, rw_scorerErrors w + 1)
        | (score, None) => (score, rw_scorerErrors w)
        end in
      let verdict := Decide score thresh in
      let state := stateForVerdict verdict (rc_Enforce cfg) in
      let '(store, txErr) := Transact (fun tx =>
        let? tx := AnchorIssue d state tx in
        let? tx := InsertDecision (routing_decision decisionID d verdict score start) tx in
        WriteOutbox EventTypeRoutingDecided (d_ID d)
          (PRouting (routing_payload d verdict score start (rc_Enforce cfg))) tx) (rw_store w) in
      match txErr with
      | Some e => (mkRouterWorld store (rw_workflows w) errs (rw_routes w), Err e)
      | None =>
          let wf :=
            if bool_decide (state = IssueStateHeld)
            then (StartHoldExpiry (mkHold (d_ID d) (d_RepoID d) (HoldTTL thresh)) (rw_workflows w)).1
            else rw_workflows w in
          (mkRouterWorld store wf errs (rw_routes w ++ [Verdict_String verdict]),
           Ok (mkRouteResult verdict state (sc_DuplicateOf score) (rc_Enforce cfg)))
      end
  end.

Definition Release (decisionID : uuid) (now : time) (issueID repoID maintainerID : uuid) (w : router_world) :
    router_world * option route_error :=
  let dec := mkNoiseDecision decisionID issueID repoID uuid_Nil VerdictNormal "manual" f0 f0 f0 None [] now
               ("maintainer:" +:+ uuid_String maintainerID) in
  let '(store, txErr) := Transact (fun tx =>
    let? tx := SetIssueState issueID IssueStateOpen tx in
    let? tx := InsertDecision dec tx in
    WriteOutbox EventTypeReleased issueID
      (PReleased (mkReleased issueID repoID maintainerID now EnvelopeVersion)) tx) (rw_store w) in
  match txErr with
  | Some e => (mkRouterWorld store (rw_workflows w) (rw_scorerErrors w) (rw_routes w), Some e)
  | None => (mkRouterWorld store (SignalRelease issueID (rw_workflows w)).1 (rw_scorerErrors w) (rw_routes w), None)
  end.

(** ** Scores *)

Definition in01 (x : float) : Prop := flt x f0 = false /\ flt f1 x = false.

Lemma clamp01_in01 x : in01 (clamp01 x).
Proof.
  unfold clamp01, in01. destruct (flt x f0) eqn:E0; [by vm_compute|].
  destruct (flt f1 x) eqn:E1; [by vm_compute|done].
Qed.

(** A rule that reports a duplicate names the parent. *)
Definition links_parent (r : Rule) : Prop :=
  forall i res, r i = Ok res -> res_Category res = CategoryDuplicate -> is_Some (res_DuplicateOf res).

Lemma registry_links_parent is_letter c l v s : Forall links_parent (NewRuleScorer is_letter c l v s).
Proof.
  unfold NewRuleScorer, links_parent. repeat constructor; intros i res H Hc.
  - unfold LinkDensity in H. repeat case_match; simplify_eq/=.
  - unfold Length in H. repeat case_match; simplify_eq/=.
  - unfold Language in H. repeat case_match; simplify_eq/=.
  - unfold ReporterRate in H. repeat case_match; simplify_eq/=.
  - unfold Reputation in H. repeat case_match; simplify_eq/=.
  - unfold AgentsMDViolations in H. repeat case_match; simplify_eq/=.
  - unfold Duplicate in H. repeat case_match; simplify_eq/=; eauto.
Qed.

Lemma score_loop_links canceled i rs inp out ferr out' err :
  Forall links_parent rs -> (sc_DuplicateOf out = None -> sc_Duplicate out = f0) ->
  score_loop canceled i rs inp out ferr = Ok (out', err) ->
  sc_DuplicateOf out' = None -> sc_Duplicate out' = f0.
Proof.
  intros Hrs. revert i out ferr. induction Hrs as [|r rs Hr _ IH]; intros i out ferr Hout; simpl.
  { by intros [= <- _]. }
  destruct (canceled i); [done|]. destruct (r inp) as [res|e] eqn:Er; [|by apply IH].
  destruct (is_zero _); [by apply IH|].
  destruct (add_result res out) as [out1|] eqn:Ea; [|by apply IH]. apply IH.
  unfold add_result in Ea. destruct (res_Category res) eqn:Ec; simplify_eq/=; try done.
  destruct (Hr inp res Er Ec) as [id ->]. done.
Qed.

(** *** Spam weights *)

(** The signals that count towards spam. *)
Definition is_spam_signal (s : Signal) : bool :=
  bool_decide (sig_Name s = "link_density") || bool_decide (sig_Name s = "reporter_rate")
  || bool_decide (sig_Name s = "agentsmd_violations")
  || (bool_decide (sig_Name s = "reputation") && SFeqb (sig_Weight s) ReputationSpamWeight).

Definition spam_signals (s : Score) : nat := length (filter (fun x => is_spam_signal x = true) (sc_Signals s)).

Lemma Decide_spam s t : Decide s t = VerdictSpam -> fge (sc_Spam s) (SpamFloor t) = true.
Proof. unfold Decide. by repeat case_match. Qed.

(** Whenever the rule contributes to spam it does so with weight [w]. *)
Definition spam_weight (r : Rule) (w : float) : Prop :=
  forall i res, r i = Ok res -> is_zero (sig_Weight (res_Signal res)) = false ->
    (res_Category res = CategorySpam /\ sig_Weight (res_Signal res) = w /\ is_spam_signal (res_Signal res) = true) \/
    (res_Category res <> CategorySpam /\ is_spam_signal (res_Signal res) = false).

Definition registry_weights : list float :=
  [LinkDensityWeight; f0; f0; ReporterRateSpamWeight; ReputationSpamWeight; AgentsMDViolationWeight; f0].

Ltac rule_cases H :=
  repeat (case_match; simplify_eq/=); try (by vm_compute in H);
  first [by left; vm_compute | by right; vm_compute].

Lemma registry_spam_weights is_letter c l v s : Forall2 spam_weight (NewRuleScorer is_letter c l v s) registry_weights.
Proof.
  unfold NewRuleScorer, registry_weights, spam_weight.
  repeat apply Forall2_cons_2; [..|by apply Forall2_nil_2]; intros i res Hr Hz.
  - unfold LinkDensity in Hr. rule_cases Hz.
  - unfold Length in Hr. rule_cases Hz.
  - unfold Language in Hr. rule_cases Hz.
  - unfold ReporterRate in Hr. rule_cases Hz.
  - unfold Reputation in Hr. rule_cases Hz.
  - unfold AgentsMDViolations in Hr. rule_cases Hz.
  - unfold Duplicate in Hr. rule_cases Hz.
Qed.

Lemma score_loop_spam canceled i rs ws inp out ferr out' err :
  Forall2 spam_weight rs ws -> score_loop canceled i rs inp out ferr = Ok (out', err) ->
  exists used, used `sublist_of` ws /\ sc_Spam out' = fold_left fadd used (sc_Spam out) /\
    spam_signals out' = (spam_signals out + length used)%nat.
Proof.
  intros Hrs. revert i out ferr. induction Hrs as [|r w rs ws Hr _ IH]; intros i out ferr; simpl.
  { intros [= <- _]. exists []. split_and!; [done|done|simpl; lia]. }
  assert (Hskip : forall j o f, score_loop canceled j rs inp o f = Ok (out', err) ->
    sc_Spam o = sc_Spam out -> spam_signals o = spam_signals out ->
    exists used, used `sublist_of` w :: ws /\ sc_Spam out' = fold_left fadd used (sc_Spam out) /\
      spam_signals out' = (spam_signals out + length used)%nat).
  { intros j o f H <- <-. destruct (IH _ _ _ H) as (used & Hs & ?). exists used. split; [by constructor|done]. }
  destruct (canceled i); [done|]. destruct (r inp) as [res|e] eqn:Er; [|intros H; by eapply Hskip].
  destruct (is_zero _) eqn:Hz; [intros H; by eapply Hskip|].
  destruct (add_result res out) as [out1|] eqn:Ea; [|intros H; by eapply Hskip].
  intros H. destruct (Hr inp res Er Hz) as [(Hc & Hw & Hsig)|(Hc & Hsig)];
    unfold add_result in Ea.
  - rewrite Hc in Ea. injection Ea as <-. destruct (IH _ _ _ H) as (used & Hs & Hspam & Hcount).
    exists (w :: used). split_and!; [by constructor|by rewrite Hspam; simpl; rewrite Hw|].
    rewrite Hcount. unfold spam_signals. simpl. rewrite filter_app, length_app, filter_cons_True by done. simpl. lia.
  - assert (spam_signals out1 = spam_signals out /\ sc_Spam out1 = sc_Spam out) as [H1 H2]; [|by eapply Hskip].
    destruct (res_Category res); simplify_eq/=; unfold spam_signals; simpl;
      rewrite filter_app, length_app, filter_cons_False by (by rewrite Hsig); simpl; auto with lia.
Qed.

(** ** Router histories *)

Inductive router_op :=
| OpRoute (decisionID : uuid) (start : time) (d : IssueDraft)
| OpRelease (decisionID : uuid) (now : time) (issueID repoID maintainerID : uuid)
| OpFaults (failTx startErr sigErr : bool).

Definition run_router (cfg : RouterConfig) (w : router_world) (o : router_op) : router_world :=
  match o with
  | OpRoute id start d => (Route cfg id start d w).1
  | OpRelease id now issue repo m => (Release id now issue repo m w).1
  | OpFaults f a b =>
      mkRouterWorld
        (mkStore (st_issues (rw_store w)) (st_decisions (rw_store w)) (st_outbox (rw_store w)) f)
        (mkStarter (Started (rw_workflows w)) (Released (rw_workflows w)) a b) (rw_scorerErrors w) (rw_routes w)
  end.

Definition new_world : router_world := mkRouterWorld NewStubStore (mkStarter [] [] false false) 0 [].

(** The state a decision row stands for. *)
Definition decided_state (cfg : RouterConfig) (d : NoiseDecision) : IssueState :=
  if bool_decide (nd_DecidedBy d = "auto") then stateForVerdict (nd_Verdict d) (rc_Enforce cfg) else IssueStateOpen.

(** A decision row and the outbox row written with it. *)
Definition paired (d : NoiseDecision) (o : StubOutboxRow) : Prop :=
  or_AggregateID o = nd_IssueID d /\
  match or_Payload o with
  | PRouting p => or_EventType o = EventTypeRoutingDecided /\ nd_DecidedBy d = "auto" /\
                  rp_IssueID p = nd_IssueID d /\ rp_Verdict p = Verdict_String (nd_Verdict d)
  | PReleased p => or_EventType o = EventTypeReleased /\ nd_DecidedBy d <> "auto" /\ rl_IssueID p = nd_IssueID d
  end.

Definition last_decision (id : uuid) (ds : list NoiseDecision) : option NoiseDecision :=
  last (filter (fun d => nd_IssueID d = id) ds).

Definition store_ok (cfg : RouterConfig) (s : StubStore) : Prop :=
  Forall2 paired (st_decisions s) (st_outbox s) /\
  forall id, st_issues s !! id = decided_state cfg <$> last_decision id (st_decisions s).

Lemma store_ok_write cfg s id st dec o f :
  store_ok cfg s -> nd_IssueID dec = id -> decided_state cfg dec = st -> paired dec o ->
  store_ok cfg (mkStore (<[id := st]> ∅ ∪ st_issues s) (st_decisions s ++ [dec]) (st_outbox s ++ [o]) f).
Proof.
  intros [Hp Hs] Hid Hst Ho. split; simpl; [apply Forall2_app; [done|by constructor]|].
  intros id'. unfold last_decision. rewrite filter_app. destruct (decide (id' = id)) as [->|Hne].
  - rewrite filter_cons_True, filter_nil by done. rewrite last_snoc. simpl.
    rewrite (lookup_union_Some_l _ _ id st); [by rewrite Hst|apply lookup_insert_eq].
  - rewrite filter_cons_False, filter_nil, app_nil_r by congruence.
    rewrite lookup_union_r; [apply Hs|]. by rewrite lookup_insert_ne, lookup_empty.
Qed.

Lemma maintainer_not_auto s : "maintainer:" +:+ s <> "auto".
Proof. by destruct s. Qed.

(** A [Route] in full, once its score is known. *)
Lemma Route_unfold cfg id start d w thresh :
  rc_Thresh cfg (d_RepoID d) = Some thresh ->
  exists score errs,
    (match rc_Scorer cfg d with (_, Some _) => score = zero_score RuleScorerVersion | (s, None) => score = s end) /\
    let v := Decide score thresh in
    let st := stateForVerdict v (rc_Enforce cfg) in
    Route cfg id start d w =
      if FailOnTx (rw_store w) then
        (mkRouterWorld (rw_store w) (rw_workflows w) errs (rw_routes w), Err ErrTx)
      else
        (mkRouterWorld
           (mkStore (<[d_ID d := st]> ∅ ∪ st_issues (rw_store w))
              (st_decisions (rw_store w) ++ [routing_decision id d v score start])
              (st_outbox (rw_store w) ++ [mkOutboxRow EventTypeRoutingDecided (d_ID d)
                 (PRouting (routing_payload d v score start (rc_Enforce cfg)))]) false)
           (if bool_decide (st = IssueStateHeld)
            then (StartHoldExpiry (mkHold (d_ID d) (d_RepoID d) (HoldTTL thresh)) (rw_workflows w)).1
            else rw_workflows w) errs (rw_routes w ++ [Verdict_String v]),
         Ok (mkRouteResult v st (sc_DuplicateOf score) (rc_Enforce cfg))).
Proof.
  intros Ht. unfold Route. rewrite Ht. destruct (rc_Scorer cfg d) as [s [e|]].
  - exists (zero_score RuleScorerVersion), (rw_scorerErrors w + 1). split; [done|]. cbv zeta.
    unfold Transact. cbn [AnchorIssue InsertDecision WriteOutbox tx_issues tx_decisions tx_outbox app].
    by destruct (FailOnTx (rw_store w)).
  - exists s, (rw_scorerErrors w). split; [done|]. cbv zeta.
    unfold Transact. cbn [AnchorIssue InsertDecision WriteOutbox tx_issues tx_decisions tx_outbox app].
    by destruct (FailOnTx (rw_store w)).
Qed.

Lemma store_ok_op cfg w o : store_ok cfg (rw_store w) -> store_ok cfg (rw_store (run_router cfg w o)).
Proof.
  intros Hok. destruct o as [id start d|id now issue repo m|f a b]; simpl.
  - destruct (rc_Thresh cfg (d_RepoID d)) as [thresh|] eqn:Ht; [|unfold Route; by rewrite Ht].
    destruct (Route_unfold cfg id start d w thresh Ht) as (score & errs & _ & ->).
    destruct (FailOnTx (rw_store w)); simpl; [done|].
    apply store_ok_write; [done|done|done|]. by repeat split.
  - unfold Release, Transact. cbn [SetIssueState InsertDecision WriteOutbox tx_issues tx_decisions tx_outbox app].
    destruct (FailOnTx (rw_store w)); simpl; [done|].
    apply store_ok_write; [done|done| |].
    + unfold decided_state. cbn [nd_DecidedBy]. by rewrite bool_decide_false by apply maintainer_not_auto.
    + split; [done|]. simpl. split; [done|]. split; [apply maintainer_not_auto|done].
  - done.
Qed.

(** ** Properties *)

(** The issue table and the audit trail agree.  After any sequence of
    routings, releases and injected failures, every issue is in the state its
    last decision row stands for (the verdict's, or open after a release), and
    every decision row has its outbox event, in the same order: the three
    writes of a transaction happen together or not at all. *)
Theorem issue_state_matches_audit cfg ops :
  let s := rw_store (fold_left (run_router cfg) ops new_world) in
  Forall2 paired (st_decisions s) (st_outbox s) /\
  forall id, st_issues s !! id = decided_state cfg <$> last_decision id (st_decisions s).
Proof.
  cbv zeta. assert (H : forall w, store_ok cfg (rw_store w) ->
    store_ok cfg (rw_store (fold_left (run_router cfg) ops w))).
  { induction ops as [|o ops IH]; intros w Hw; [done|]. simpl. by apply IH, store_ok_op. }
  apply H. split; [constructor|]. intros id. exact (lookup_empty id).
Qed.

(** A score of the registered rules is a triple of probabilities, and a
    positive duplicate score comes with the parent issue. *)
Theorem scores_well_formed canceled is_letter c l v s d score err :
  RuleScorer_Score canceled (NewRuleScorer is_letter c l v s) d = (score, err) ->
  in01 (sc_Spam score) /\ in01 (sc_LowQuality score) /\ in01 (sc_Duplicate score) /\
  (flt f0 (sc_Duplicate score) = true -> is_Some (sc_DuplicateOf score)).
Proof.
  unfold RuleScorer_Score. destruct (score_loop _ _ _ _ _ _) as [[out e]|e] eqn:El; intros [= <- <-]; simpl.
  - split_and!; try apply clamp01_in01. intros Hpos. destruct (sc_DuplicateOf out) eqn:Ed; [done|].
    eapply score_loop_links in El; [|apply registry_links_parent|done|done]. by rewrite El in Hpos.
  - split_and!; by vm_compute.
Qed.

(** No single signal drops an issue: with the registered rules and the
    default thresholds, a spam verdict needs at least two spam signals. *)
Theorem spam_needs_two_signals canceled is_letter c l v s d score :
  RuleScorer_Score canceled (NewRuleScorer is_letter c l v s) d = (score, None) ->
  Decide score DefaultThresholds = VerdictSpam -> (2 <= spam_signals score)%nat.
Proof.
  unfold RuleScorer_Score. destruct (score_loop _ _ _ _ _ _) as [[out e]|e] eqn:El; [|done].
  intros [= <- ->] Hd. apply (score_loop_spam _ _ _ registry_weights) in El as (used & Hsub & Hspam & Hcount);
    [|apply registry_spam_weights].
  unfold spam_signals in *. simpl in *. rewrite Hcount.
  apply Decide_spam in Hd. simpl in Hd. rewrite Hspam in Hd.
  destruct used as [|w [|w2 used]]; simpl; [by vm_compute in Hd| |lia].
  exfalso. assert (Hw : w ∈ registry_weights) by (eapply sublist_subseteq; [exact Hsub|set_solver]).
  unfold registry_weights in Hw. rewrite !elem_of_cons in Hw.
  repeat destruct Hw as [->|Hw]; try (by vm_compute in Hd). set_solver.
Qed.

Lemma floor_positive x : flt f0 x = true -> fge f0 x = false.
Proof. unfold flt, fge, f0. by destruct x as [[]|[]| |[] m e]. Qed.

(** Fail open and dark launch.  When the scorer fails (with positive
    floors) or enforcement is off, a routed issue is admitted as open and no
    hold is started, whatever signals there were. *)
Theorem Route_fails_open cfg id start d w w' res thresh :
  rc_Thresh cfg (d_RepoID d) = Some thresh ->
  Route cfg id start d w = (w', Ok res) ->
  rc_Enforce cfg = false \/
  (is_Some (rc_Scorer cfg d).2 /\ flt f0 (SpamFloor thresh) = true /\
   flt f0 (DuplicateFloor thresh) = true /\ flt f0 (LowQualityFloor thresh) = true) ->
  rr_State res = IssueStateOpen /\ rw_workflows w' = rw_workflows w /\
  st_issues (rw_store w') !! d_ID d = Some IssueStateOpen.
Proof.
  intros Ht HR Hcase. destruct (Route_unfold cfg id start d w thresh Ht) as (score & errs & Hs & HR').
  rewrite HR in HR'. destruct (FailOnTx (rw_store w)); [done|]. injection HR' as -> ->.
  assert (Hst : stateForVerdict (Decide score thresh) (rc_Enforce cfg) = IssueStateOpen).
  { destruct Hcase as [->|([e He] & H1 & H2 & H3)]; [done|].
    destruct (rc_Scorer cfg d) as [s o]. simpl in He. subst o score.
    unfold Decide. cbn [zero_score sc_Spam sc_Duplicate sc_LowQuality].
    rewrite !floor_positive by done. by destruct (rc_Enforce cfg). }
  simpl. rewrite Hst. split_and!; [done|done|].
  apply lookup_union_Some_l, lookup_insert_eq.
Qed.

(** *** Samples *)

Definition sample_draft : IssueDraft :=
  mkDraft 1 2 3 "t" "http://a http://a http://a http://a http://a" 0.
Definition sample_scorer (d : IssueDraft) : Score * option rule_error :=
  RuleScorer_Score (fun _ => false)
    (NewRuleScorer (fun r => (65 <=? r) && (r <=? 122)) (Some (fun _ => Some 25)) None None None) d.
Definition sample_router : RouterConfig := mkRouterConfig (fun _ => Some DefaultThresholds) sample_scorer true.

Example sample_route_spam :
  (fun r => match r with Ok x => (rr_Verdict x, rr_State x) | Err _ => (VerdictUnknown, "") end)
    (Route sample_router 9 0 sample_draft new_world).2 = (VerdictSpam, IssueStateAutoClosedSpam).
Proof. vm_compute. reflexivity. Qed.

Lemma scores_well_formed_witness :
  in01 (sc_Spam (sample_scorer sample_draft).1) /\ flt f0 (sc_Spam (sample_scorer sample_draft).1) = true.
Proof.
  split; [|vm_compute; reflexivity].
  apply (scores_well_formed (fun _ => false) (fun r => (65 <=? r) && (r <=? 122)) (Some (fun _ => Some 25)) None None
           None sample_draft (sample_scorer sample_draft).1 (sample_scorer sample_draft).2).
  vm_compute. reflexivity.
Defined.

Lemma spam_needs_two_signals_witness : (2 <= spam_signals (sample_scorer sample_draft).1)%nat.
Proof.
  apply (spam_needs_two_signals (fun _ => false) (fun r => (65 <=? r) && (r <=? 122)) (Some (fun _ => Some 25)) None None
           None sample_draft); vm_compute; reflexivity.
Defined.

Definition failing_router : RouterConfig :=
  mkRouterConfig (fun _ => Some DefaultThresholds) (fun d => ((sample_scorer d).1, Some ErrSearch)) true.

Lemma Route_fails_open_witness :
  st_issues (rw_store (Route failing_router 9 0 sample_draft new_world).1) !! 1 = Some IssueStateOpen.
Proof.
  apply (Route_fails_open failing_router 9 0 sample_draft new_world
    (Route failing_router 9 0 sample_draft new_world).1
    (mkRouteResult VerdictNormal IssueStateOpen None true) DefaultThresholds).
  - reflexivity.
  - vm_compute. reflexivity.
  - right. split_and!; [by eexists|vm_compute; reflexivity..].
Defined.

(** [Release] does not look at the issue's state: it reopens an issue that was
    closed as spam, or one that was never routed. *)
Example release_reopens_spam :
  let w := (Route sample_router 9 0 sample_draft new_world).1 in
  st_issues (rw_store w) !! 1 = Some IssueStateAutoClosedSpam /\
  st_issues (rw_store (Release 10 5 1 2 77 w).1) !! 1 = Some IssueStateOpen.
Proof. by vm_compute. Qed.

(** With a floor of zero a failing scorer yields a spam verdict, not the normal one. *)
Example fail_open_needs_positive_floor :
  Decide (zero_score RuleScorerVersion) (mkThresholds f0 (lit 4 10) (lit 85 100) Hour) = VerdictSpam.
Proof. vm_compute. reflexivity. Qed.
