(* ===== verification/ArchiveFrames.v ===== *)
(** * The encrypted frame format of archived partitions

    The encrypt loop of [plane/workflow/billing/export_activity.go] and the
    [ChunkedDecoder] of [restore_decoder.go], over AES-256-GCM.  An
    [io.Reader] is the bytes it delivers and the error, if any, that takes the
    place of [io.EOF] behind them. *)

From S2P Require Import Prelude GoStd GoFmt Sha256 AesGcm.

Record stream := mkStream { bytes : list ascii; broken : bool }.

(** [io.ReadFull] of [n] bytes: what could be read and what is left.  A short
    read is [io.EOF], [io.ErrUnexpectedEOF] or the error of the stream. *)
Fixpoint ReadFull (n : Z) (l : list ascii) : list ascii * list ascii :=
  if n <=? 0 then ([], l)
  else match l with
       | [] => ([], [])
       | c :: l' => let '(a, r) := ReadFull (n - 1) l' in (c :: a, r)
       end.

Definition chunkSize : Z := Z.shiftl 4 20.
Definition maxFramePayloadBytes : Z := Z.shiftl 4 20 + 1024.
Definition u64 (z : Z) : Z := z mod 2 ^ 64.

(** "<partition>:<index>". *)
Definition aad (partition : string) (index : Z) : list ascii := s2l (partition +:+ ":" +:+ Itoa index).

(** [4-byte payload length][nonce][ciphertext and tag]. *)
Definition frame (key nonce : list ascii) (partition : string) (index : Z) (chunk : list ascii) : list ascii :=
  let ct := Seal key nonce chunk (aad partition index) in
  be_bytes 4 (Z.of_nat (length nonce + length ct)) ++ nonce ++ ct.

(** ** The encrypt goroutine

    Reads the plaintext in chunks of 4 MiB and writes a frame for each.
    [rand i] is what [rand.Read] delivers for chunk [i].  [fuel] is one more
    than the length of the plaintext, and every chunk consumes at least one
    byte. *)
Section encrypt.
Context (key : list ascii) (partition : string) (rand : Z -> option (list ascii)).

Fixpoint encrypt_loop (fuel : nat) (index : Z) (plain : stream) : stream :=
  match fuel with
  | O => mkStream [] true
  | S fuel' =>
      let '(chunk, rest) := ReadFull chunkSize (bytes plain) in
      let short := Z.of_nat (length chunk) <? chunkSize in
      match chunk with
      | [] => mkStream [] (broken plain)
      | _ =>
          match rand index with
          | None => mkStream [] true
          | Some nonce =>
              let f := frame key nonce partition index chunk in
              if short then mkStream f (broken plain)
              else let out := encrypt_loop fuel' (u64 (index + 1)) (mkStream rest (broken plain)) in
                   mkStream (f ++ bytes out) (broken out)
          end
      end
  end.

Definition encrypt (plain : stream) : stream := encrypt_loop (S (length (bytes plain))) 0 plain.
End encrypt.

(** ** ChunkedDecoder *)

Inductive decode_error := ErrFrameTampered | ErrRead | ErrWrite | ErrKeySize.

#[export] Instance decode_error_eq_dec : EqDecision decode_error.
Proof. solve_decision. Defined.

Section decode.
Context (key : list ascii) (partition : string) (write_fails : Z -> bool).

(** Plaintext written so far is kept on an error. *)
Fixpoint decode_loop (fuel : nat) (index : Z) (r : stream) : list ascii * option decode_error :=
  match fuel with
  | O => ([], Some ErrRead)
  | S fuel' =>
      let '(hd, rest) := ReadFull 4 (bytes r) in
      if (length hd <? 4)%nat then
        match hd, broken r with
        | [], false => ([], None)                          (* io.EOF *)
        | _, false => ([], Some ErrFrameTampered)          (* io.ErrUnexpectedEOF *)
        | _, true => ([], Some ErrRead)
        end
      else
        let payloadLen := be_word hd in
        if payloadLen <? Z.of_nat (NonceSize + Overhead) then ([], Some ErrFrameTampered)
        else if maxFramePayloadBytes <? payloadLen then ([], Some ErrFrameTampered)
        else
          let '(payload, rest) := ReadFull payloadLen rest in
          if Z.of_nat (length payload) <? payloadLen
          then ([], Some (if broken r then ErrRead else ErrFrameTampered))
          else
            match Open key (take NonceSize payload) (drop NonceSize payload) (aad partition index) with
            | None => ([], Some ErrFrameTampered)
            | Some pt =>
                if write_fails index then ([], Some ErrWrite)
                else
                  let '(out, e) := decode_loop fuel' (u64 (index + 1)) (mkStream rest (broken r)) in
                  (pt ++ out, e)
            end
  end.

(** [DecodeStream]; every frame consumes at least the four bytes of its length. *)
Definition DecodeStream (r : stream) : list ascii * option decode_error :=
  if (length key =? 32)%nat then decode_loop (S (length (bytes r))) 0 r
  else ([], Some ErrKeySize).
End decode.

(** ** ReadFull *)

Lemma ReadFull_spec n l : 0 <= n ->
  (ReadFull n l).1 ++ (ReadFull n l).2 = l /\
  Z.of_nat (length (ReadFull n l).1) = Z.min n (Z.of_nat (length l)).
Proof.
  revert n. induction l as [|c l IH]; intros n Hn; cbn [ReadFull].
  - destruct (n <=? 0) eqn:E; reflect_bools; cbn [fst snd app length]; split; auto; lia.
  - destruct (n <=? 0) eqn:E; reflect_bools; [cbn [fst snd app length]; split; auto; lia|].
    specialize (IH (n - 1) ltac:(lia)). destruct (ReadFull (n - 1) l) as [a r].
    cbn [fst snd app length] in *. destruct IH as [<- IH]. split; [done|]. rewrite length_app in *. lia.
Qed.

Lemma ReadFull_app n a r : n = Z.of_nat (length a) -> ReadFull n (a ++ r) = (a, r).
Proof.
  intros ->. induction a as [|c a IH]; [by destruct r|]. cbn [ReadFull app length].
  rewrite (proj2 (Z.leb_gt _ _)) by lia.
  replace (Z.of_nat (S (length a)) - 1) with (Z.of_nat (length a)) by lia. by rewrite IH.
Qed.

Lemma ReadFull_short n l : Z.of_nat (length l) <= n -> ReadFull n l = (l, []).
Proof.
  revert n. induction l as [|c l IH]; intros n H; cbn [ReadFull length] in *.
  - by destruct (n <=? 0).
  - rewrite (proj2 (Z.leb_gt _ _)) by lia. by rewrite IH by lia.
Qed.

Lemma ReadFull_inv n l a r : 0 <= n -> ReadFull n l = (a, r) ->
  l = a ++ r /\ Z.of_nat (length a) = Z.min n (Z.of_nat (length l)).
Proof. intros Hn E. pose proof (ReadFull_spec n l Hn) as H. rewrite E in H. by destruct H. Qed.

(** A short read leaves nothing behind. *)
Lemma ReadFull_rest n l a r : 0 <= n -> ReadFull n l = (a, r) -> Z.of_nat (length a) < n -> r = [].
Proof.
  intros Hn E Hs. apply ReadFull_inv in E as [-> E]; [|done]. rewrite length_app in E.
  destruct r; [done|]. cbn [length] in E. lia.
Qed.

(** ** The frames of a list of chunks *)

Fixpoint frames (key : list ascii) (partition : string) (index : Z)
    (chunks : list (list ascii * list ascii)) : list ascii :=
  match chunks with
  | [] => []
  | (nonce, chunk) :: chunks' => frame key nonce partition index chunk
      ++ frames key partition (u64 (index + 1)) chunks'
  end.

(** A chunk as the encoder makes them, or as the decoder takes them. *)
Definition chunk_ok (max : Z) (c : list ascii * list ascii) : Prop :=
  length c.1 = NonceSize /\ Z.of_nat (length c.2) <= max.
Definition maxChunk : Z := maxFramePayloadBytes - Z.of_nat (NonceSize + Overhead).

Lemma be_word_snoc l c : be_word (l ++ [c]) = be_word l * 256 + code c.
Proof. unfold be_word. by rewrite fold_left_app. Qed.

(** The four bytes of a length give it back. *)
Lemma be_word_be_bytes4 z : 0 <= z < 2 ^ 32 -> be_word (be_bytes 4 z) = z.
Proof.
  intros H. unfold be_word. cbn [be_bytes fold_left].
  rewrite !code_chr by (apply Z.mod_pos_bound; lia).
  rewrite !Z.shiftr_div_pow2 by lia. change (Z.of_nat 3) with 3. change (Z.of_nat 2) with 2.
  change (Z.of_nat 1) with 1. change (Z.of_nat 0) with 0.
  change (2 ^ (8 * 3)) with 16777216. change (2 ^ (8 * 2)) with 65536. change (2 ^ (8 * 1)) with 256.
  change (2 ^ (8 * 0)) with 1. change (2 ^ 32) with 4294967296 in H.
  Z.to_euclidean_division_equations. lia.
Qed.

Lemma byte_of_word q r c m : 0 <= code c < 256 -> 0 <= r < m -> chr (((q * 256 + code c) * m + r) / m mod 256) = c.
Proof.
  intros Hc Hr. rewrite Z.div_add_l, (Z.div_small r), Z.add_0_r by lia.
  rewrite Z.add_comm, Z.mod_add, Z.mod_small by lia. apply code_inj. by apply code_chr.
Qed.

Lemma be_bytes_be_word4 l : length l = 4%nat -> be_bytes 4 (be_word l) = l.
Proof.
  destruct l as [|a [|b [|c [|d [|]]]]]; try done. intros _. unfold be_word. cbn [fold_left be_bytes].
  pose proof (code_range a); pose proof (code_range b); pose proof (code_range c); pose proof (code_range d).
  rewrite !Z.shiftr_div_pow2 by lia. change (8 * Z.of_nat 3) with 24. change (8 * Z.of_nat 2) with 16.
  change (8 * Z.of_nat 1) with 8. change (8 * Z.of_nat 0) with 0.
  set (n := (((0 * 256 + code a) * 256 + code b) * 256 + code c) * 256 + code d).
  assert (Ha : chr (n / 2 ^ 24 mod 256) = a).
  { etransitivity; [|apply (byte_of_word 0 ((code b * 256 + code c) * 256 + code d) a (2 ^ 24)); lia].
    do 3 f_equal; unfold n; lia. }
  assert (Hb : chr (n / 2 ^ 16 mod 256) = b).
  { etransitivity; [|apply (byte_of_word (code a) (code c * 256 + code d) b (2 ^ 16)); lia].
    do 3 f_equal; unfold n; lia. }
  assert (Hc' : chr (n / 2 ^ 8 mod 256) = c).
  { etransitivity; [|apply (byte_of_word (code a * 256 + code b) (code d) c (2 ^ 8)); lia].
    do 3 f_equal; unfold n; lia. }
  assert (Hd : chr (n / 2 ^ 0 mod 256) = d).
  { etransitivity; [|apply (byte_of_word ((code a * 256 + code b) * 256 + code c) 0 d (2 ^ 0)); lia].
    do 3 f_equal; unfold n; lia. }
  by rewrite Ha, Hb, Hc', Hd.
Qed.

Lemma frame_length key nonce partition index chunk : length key = 32%nat ->
  length (frame key nonce partition index chunk) = (4 + length nonce + length chunk + Overhead)%nat.
Proof.
  intros Hk. unfold frame. rewrite !length_app, length_be_bytes, Seal_length by done. lia.
Qed.

(** The decoder on a frame followed by anything. *)
Lemma decode_frame key partition wf fuel index nonce chunk rest br :
  length key = 32%nat -> chunk_ok maxChunk (nonce, chunk) ->
  decode_loop key partition wf (S fuel) index (mkStream (frame key nonce partition index chunk ++ rest) br) =
  if wf index then ([], Some ErrWrite)
  else let '(out, e) := decode_loop key partition wf fuel (u64 (index + 1)) (mkStream rest br) in
       (chunk ++ out, e).
Proof.
  intros Hk [Hn Hc]. cbn [fst snd] in Hn, Hc. unfold frame.
  set (ct := Seal key nonce chunk (aad partition index)).
  assert (Hct : length ct = (length chunk + 16)%nat) by (apply Seal_length, Hk).
  set (L := Z.of_nat (length nonce + length ct)).
  assert (HL : L = Z.of_nat (length chunk) + 28) by (unfold L; rewrite Hn, Hct; unfold NonceSize; lia).
  assert (Hmax : L <= maxFramePayloadBytes) by (unfold maxChunk in Hc; change (Z.of_nat (NonceSize + Overhead)) with 28 in Hc; lia).
  assert (Hmax32 : maxFramePayloadBytes < 2 ^ 32) by reflexivity.
  cbn [decode_loop bytes broken].
  rewrite <- app_assoc, (ReadFull_app 4) by (by rewrite length_be_bytes).
  rewrite length_be_bytes. cbn [Nat.ltb Nat.leb]. rewrite be_word_be_bytes4 by lia.
  change (Z.of_nat (NonceSize + Overhead)) with 28.
  rewrite (proj2 (Z.ltb_ge _ _)), (proj2 (Z.ltb_ge _ _)) by lia.
  rewrite (ReadFull_app L) by (unfold L; by rewrite length_app).
  rewrite (proj2 (Z.ltb_ge _ _)) by (unfold L; rewrite length_app; lia).
  rewrite take_app_length', drop_app_length' by done. unfold ct. by rewrite Open_Seal.
Qed.

Lemma decode_frames key partition fuel index chunks :
  length key = 32%nat -> Forall (chunk_ok maxChunk) chunks -> (length chunks < fuel)%nat ->
  decode_loop key partition (fun _ => false) fuel index (mkStream (frames key partition index chunks) false)
  = (concat chunks.*2, None).
Proof.
  intros Hk Hc. revert index fuel. induction Hc as [|[n c] chunks Hc Hcs IH]; intros index fuel Hf.
  - destruct fuel; [simpl in Hf; lia|]. done.
  - destruct fuel as [|fuel]; [simpl in Hf; lia|]. cbn [frames fmap list_fmap concat snd].
    rewrite decode_frame by done. by rewrite IH by (simpl in Hf; lia).
Qed.

Lemma frames_count key partition index chunks : length key = 32%nat ->
  (length chunks <= length (frames key partition index chunks))%nat.
Proof.
  intros Hk. revert index. induction chunks as [|[n c] chunks IH]; intros index; [done|].
  cbn [frames length]. rewrite length_app, frame_length by done. specialize (IH (u64 (index + 1))). lia.
Qed.

(** What the decoder accepts are frames. *)
Lemma decode_inv key partition wf fuel index r out :
  length key = 32%nat -> decode_loop key partition wf fuel index r = (out, None) ->
  broken r = false /\ exists chunks,
    bytes r = frames key partition index chunks /\ out = concat chunks.*2 /\ Forall (chunk_ok maxChunk) chunks.
Proof.
  intros Hk. revert index r out. induction fuel as [|fuel IH]; intros index [l br] out H; [done|].
  cbn [decode_loop bytes broken] in H. destruct (ReadFull 4 l) as [hd rest] eqn:E1.
  destruct (length hd <? 4)%nat eqn:Eh.
  { destruct hd; [|by destruct br]. destruct br; [done|]. simplify_eq. split; [done|].
    apply ReadFull_inv in E1 as [-> E1]; [|lia]. exists []. split_and!; [|done|constructor].
    destruct rest; [done|]. cbn [length app] in E1. lia. }
  apply Nat.ltb_ge in Eh. apply ReadFull_inv in E1 as [-> E1]; [|lia].
  destruct (be_word hd <? _) eqn:Emin; [done|]. destruct (maxFramePayloadBytes <? _) eqn:Emax; [done|].
  reflect_bools. change (Z.of_nat (NonceSize + Overhead)) with 28 in Emin.
  destruct (ReadFull (be_word hd) rest) as [payload rest'] eqn:E2.
  apply ReadFull_inv in E2 as [-> E2]; [|lia].
  destruct (Z.of_nat (length payload) <? be_word hd) eqn:Es; [by destruct br|]. reflect_bools.
  assert (Hp : Z.of_nat (length payload) = be_word hd) by lia.
  destruct (Open _ _ _ _) as [pt|] eqn:EO; [|done]. destruct (wf index); [done|].
  destruct (decode_loop _ _ _ fuel _ _) as [out' e] eqn:Erec. simplify_eq.
  apply IH in Erec as (Hbr & chunks & Hb & -> & Hok). cbn [broken bytes] in *.
  split; [done|]. exists ((take NonceSize payload, pt) :: chunks).
  apply (Open_inv _ _ _ _ _ Hk) in EO.
  assert (Hd : length (drop NonceSize payload) = (length pt + 16)%nat) by (rewrite EO; by apply Seal_length).
  rewrite length_drop in Hd. unfold NonceSize in *.
  assert (Hh4 : length hd = 4%nat) by (rewrite length_app in E1; lia).
  split_and!; [|done|].
  - cbn [frames]. rewrite <- Hb, !app_assoc. f_equal. unfold frame. rewrite <- EO.
    rewrite <- length_app, take_drop, Hp.
    f_equal. symmetry. by apply be_bytes_be_word4.
  - constructor; [|done]. split; cbn [fst snd].
    + rewrite length_take. unfold NonceSize; lia.
    + unfold maxChunk. change (Z.of_nat (NonceSize + Overhead)) with 28. lia.
Qed.

(** The encoder cuts the plaintext into chunks of at most 4 MiB. *)
Lemma encrypt_frames key partition rand fuel index l :
  (forall i, exists nonce, rand i = Some nonce /\ length nonce = NonceSize) ->
  (length l < fuel)%nat ->
  exists chunks, encrypt_loop key partition rand fuel index (mkStream l false)
      = mkStream (frames key partition index chunks) false /\
    concat chunks.*2 = l /\ Forall (chunk_ok chunkSize) chunks.
Proof.
  intros Hr. assert (Hpos : 0 < chunkSize) by reflexivity. revert index l.
  induction fuel as [|fuel IH]; intros index l Hf; [lia|].
  cbn [encrypt_loop bytes broken]. destruct (ReadFull chunkSize l) as [chunk rest] eqn:E.
  pose proof (ReadFull_rest _ _ _ _ (Z.lt_le_incl _ _ Hpos) E) as Hrest.
  apply ReadFull_inv in E as [-> E]; [|lia].
  destruct chunk as [|c chunk'].
  { destruct rest; [|cbn [length app] in E; lia]. exists []. split_and!; [done|done|constructor]. }
  destruct (Hr index) as (nonce & -> & Hn).
  assert (Hok : chunk_ok chunkSize (nonce, c :: chunk')) by (split; [done|]; cbn [snd]; lia).
  destruct (Z.ltb_spec (Z.of_nat (length (c :: chunk'))) chunkSize) as [Hs|Hs].
  - rewrite Hrest by done. exists [(nonce, c :: chunk')]. split_and!.
    + cbn [frames]. by rewrite app_nil_r.
    + done.
    + by constructor.
  - destruct (IH (u64 (index + 1)) rest) as (chunks & -> & <- & Hcs).
    { rewrite length_app in Hf. cbn [length] in Hf. lia. }
    exists ((nonce, c :: chunk') :: chunks). split_and!; [done|done|by constructor].
Qed.

(** An unbroken output is the frames of an unbroken input, whatever nonces
    the random source delivered. *)
Lemma encrypt_unbroken key partition rand fuel index l br out :
  (forall i nonce, rand i = Some nonce -> length nonce = NonceSize) ->
  encrypt_loop key partition rand fuel index (mkStream l br) = out -> broken out = false ->
  br = false /\ exists chunks, bytes out = frames key partition index chunks /\
    concat chunks.*2 = l /\ Forall (chunk_ok chunkSize) chunks.
Proof.
  intros Hr. assert (Hpos : 0 < chunkSize) by reflexivity. revert index l out.
  induction fuel as [|fuel IH]; intros index l out <- Hb; [done|].
  cbn [encrypt_loop bytes broken] in *. destruct (ReadFull chunkSize l) as [chunk rest] eqn:E.
  pose proof (ReadFull_rest _ _ _ _ (Z.lt_le_incl _ _ Hpos) E) as Hrest.
  apply ReadFull_inv in E as [-> E]; [|lia].
  destruct chunk as [|c chunk'].
  { destruct rest; [|cbn [length app] in E; lia]. split; [done|]. exists []. split_and!; [done|done|constructor]. }
  destruct (rand index) as [nonce|] eqn:Hn; [|done]. apply Hr in Hn.
  assert (Hok : chunk_ok chunkSize (nonce, c :: chunk')) by (split; [done|]; cbn [snd]; lia).
  destruct (Z.ltb_spec (Z.of_nat (length (c :: chunk'))) chunkSize) as [Hs|Hs].
  - rewrite Hrest by done. split; [done|]. exists [(nonce, c :: chunk')]. split_and!; [|done|by constructor].
    cbn [frames]. by rewrite app_nil_r.
  - cbn [bytes broken] in *. destruct (IH (u64 (index + 1)) rest _ eq_refl Hb) as (-> & chunks & -> & <- & Hcs).
    split; [done|]. exists ((nonce, c :: chunk') :: chunks). split_and!; [done|done|by constructor].
Qed.

Lemma chunk_ok_decodable c : chunk_ok chunkSize c -> chunk_ok maxChunk c.
Proof. intros [H1 H2]. split; [done|]. change maxChunk with 4195300. change chunkSize with 4194304 in H2. lia. Qed.

(** Decryption undoes encryption. *)
Lemma DecodeStream_encrypt key partition rand plaintext :
  length key = 32%nat -> (forall i, exists nonce, rand i = Some nonce /\ length nonce = NonceSize) ->
  broken (encrypt key partition rand (mkStream plaintext false)) = false /\
  DecodeStream key partition (fun _ => false) (encrypt key partition rand (mkStream plaintext false))
  = (plaintext, None).
Proof.
  intros Hk Hr. unfold encrypt. cbn [bytes].
  destruct (encrypt_frames key partition rand (S (length plaintext)) 0 plaintext Hr) as (chunks & -> & <- & Hc);
    [lia|].
  split; [done|]. unfold DecodeStream. rewrite Hk. cbn [Nat.eqb bytes].
  apply decode_frames; [done| |].
  - eapply Forall_impl; [exact Hc|apply chunk_ok_decodable].
  - pose proof (frames_count key partition 0 chunks Hk). lia.
Qed.

Lemma DecodeStream_unbroken key partition rand plain out :
  length key = 32%nat -> (forall i nonce, rand i = Some nonce -> length nonce = NonceSize) ->
  encrypt key partition rand plain = out -> broken out = false ->
  broken plain = false /\
  DecodeStream key partition (fun _ => false) (mkStream (bytes out) false) = (bytes plain, None).
Proof.
  intros Hk Hr E Hb. unfold encrypt in E. destruct plain as [l br]. cbn [bytes] in *.
  destruct (encrypt_unbroken _ _ _ _ _ _ _ _ Hr E Hb) as (-> & chunks & -> & <- & Hc).
  split; [done|]. unfold DecodeStream. rewrite Hk. cbn [Nat.eqb bytes].
  apply decode_frames; [done| |].
  - eapply Forall_impl; [exact Hc|apply chunk_ok_decodable].
  - pose proof (frames_count key partition 0 chunks Hk). lia.
Qed.

(** C13: The restore decoder accepts exactly the concatenations of frames
    numbered from zero and sealed for the partition, and then writes their
    plaintexts: each frame is bound to the partition and to its position.  The
    number of frames is not bound, so a stream cut at a frame boundary is
    accepted; the checksum alone speaks against it. *)
Theorem DecodeStream_accepts_iff key partition r out :
  length key = 32%nat ->
  (DecodeStream key partition (fun _ => false) r = (out, None) <->
   broken r = false /\ exists chunks,
     bytes r = frames key partition 0 chunks /\ out = concat chunks.*2 /\ Forall (chunk_ok maxChunk) chunks).
Proof.
  intros Hk. unfold DecodeStream. rewrite Hk. cbn [Nat.eqb]. split; [by apply decode_inv|].
  intros (Hb & chunks & Hc & -> & Hok). destruct r as [l br]. cbn [bytes broken] in *. subst.
  apply decode_frames; [done..|]. pose proof (frames_count key partition 0 chunks Hk). lia.
Qed.

Definition sample_key : list ascii := Sum256 (s2l "key").
Definition sample_nonce : list ascii := replicate NonceSize "n"%char.

Lemma DecodeStream_accepts_iff_witness :
  DecodeStream sample_key "p" (fun _ => false)
    (mkStream (frames sample_key "p" 0 [(sample_nonce, s2l "ab"); (sample_nonce, s2l "c")]) false)
  = (s2l "abc", None).
Proof.
  apply DecodeStream_accepts_iff; [apply Sum256_length|]. split; [reflexivity|].
  exists [(sample_nonce, s2l "ab"); (sample_nonce, s2l "c")].
  split; [reflexivity|]. split; [reflexivity|].
  repeat constructor; vm_compute; congruence.
Defined.
