(* ===== verification/ObjectStore.v ===== *)
(** * Object stores, keys and the Parquet library

    The interfaces of the partition archive: [ObjectStore] of
    [plane/workflow/billing/objectstore.go] with its in-memory stub and the S3
    implementation over an S3 client, and [KeyProvider] of [keyprovider.go]
    with its stub and the Vault implementation. *)

From S2P Require Import Prelude GoStd GoFmt Sha256 Base64 ArchiveFrames.

(** ** ObjectStore *)

Inductive store_error := ErrObjectNotFound | ErrStore.

#[export] Instance store_error_eq_dec : EqDecision store_error.
Proof. solve_decision. Defined.

Class ObjectStore (S : Type) := {
  Upload : string -> stream -> S -> S * result store_error string;
  PutBytes : string -> list ascii -> S -> S * result store_error unit;
  GetBytes : string -> S -> S * result store_error (list ascii);
  Download : string -> S -> S * result store_error stream }.

(** What the archive relies on.  A write that reports an error may have
    happened all the same, but never with a broken stream; reads change no
    object, and a stream that ends without an error is the object. *)
Class ObjectStoreLaws (S : Type) `{ObjectStore S} := {
  objects_of : S -> gmap string (list ascii);
  bucket_of : S -> string;
  Upload_law : forall key r s,
    let '(s', res) := Upload key r s in
    bucket_of s' = bucket_of s /\
    match res with
    | Ok uri => broken r = false /\ objects_of s' = <[key := bytes r]> (objects_of s)
        /\ uri = "s3://" +:+ bucket_of s +:+ "/" +:+ key
    | Err _ => objects_of s' = objects_of s \/
        (broken r = false /\ objects_of s' = <[key := bytes r]> (objects_of s))
    end;
  PutBytes_law : forall key data s,
    let '(s', res) := PutBytes key data s in
    bucket_of s' = bucket_of s /\
    match res with
    | Ok _ => objects_of s' = <[key := data]> (objects_of s)
    | Err _ => objects_of s' = objects_of s \/ objects_of s' = <[key := data]> (objects_of s)
    end;
  GetBytes_law : forall key s,
    let '(s', res) := GetBytes key s in
    bucket_of s' = bucket_of s /\ objects_of s' = objects_of s /\
    match res with
    | Ok data => objects_of s !! key = Some data
    | Err ErrObjectNotFound => objects_of s !! key = None
    | Err ErrStore => True
    end;
  Download_law : forall key s,
    let '(s', res) := Download key s in
    bucket_of s' = bucket_of s /\ objects_of s' = objects_of s /\
    match res with
    | Ok r => exists data, objects_of s !! key = Some data /\ (broken r = false -> bytes r = data)
    | Err ErrObjectNotFound => objects_of s !! key = None
    | Err ErrStore => True
    end }.

(** *** stubObjectStore *)

Record stubObjectStore := mkStub {
  objects : gmap string (list ascii);
  bucket : string;
  uploadFn : option (string -> bool) }.      (* [true]: the injected error *)

Definition newStubObjectStore (bucket : string) : stubObjectStore := mkStub ∅ bucket None.

Definition stub_put (key : string) (data : list ascii) (s : stubObjectStore) : stubObjectStore :=
  mkStub (<[key := data]> (objects s)) (bucket s) (uploadFn s).

Definition stub_Upload (key : string) (r : stream) (s : stubObjectStore)
  : stubObjectStore * result store_error string :=
  if match uploadFn s with Some fn => fn key | None => false end then (s, Err ErrStore)
  else if broken r then (s, Err ErrStore)
  else (stub_put key (bytes r) s, Ok ("s3://" +:+ bucket s +:+ "/" +:+ key)).

Definition stub_PutBytes (key : string) (data : list ascii) (s : stubObjectStore)
  : stubObjectStore * result store_error unit := (stub_put key data s, Ok tt).

Definition stub_GetBytes (key : string) (s : stubObjectStore) : stubObjectStore * result store_error (list ascii) :=
  (s, match objects s !! key with Some data => Ok data | None => Err ErrObjectNotFound end).

Definition stub_Download (key : string) (s : stubObjectStore) : stubObjectStore * result store_error stream :=
  (s, match objects s !! key with Some data => Ok (mkStream data false) | None => Err ErrObjectNotFound end).

#[export] Instance stub_store : ObjectStore stubObjectStore := {
  Upload := stub_Upload; PutBytes := stub_PutBytes; GetBytes := stub_GetBytes; Download := stub_Download }.

#[export, refine] Instance stub_store_laws : ObjectStoreLaws stubObjectStore := {
  objects_of := objects; bucket_of := bucket }.
Proof.
  - intros key r s. simpl. unfold stub_Upload.
    destruct (match uploadFn s with Some _ => _ | None => _ end); [by auto|].
    destruct (broken r) eqn:E; auto.
  - done.
  - intros key s. simpl. by destruct (objects s !! key) eqn:E.
  - intros key s. simpl. destruct (objects s !! key) eqn:E; eauto 10.
Defined.

(** *** S3ObjectStore

    Over the S3 client and its transfer manager, whose operations are
    arguments: the state of the service and what each call answers. *)
Inductive s3_error := NoSuchKey | OtherS3Error.

Class S3Client (C : Type) := {
  UploadObject : string -> string -> option Z -> stream -> C -> C * result s3_error unit;
  PutObject : string -> string -> Z -> list ascii -> C -> C * result s3_error unit;
  GetObject : string -> string -> C -> C * result s3_error stream }.

Record S3ObjectStore (C : Type) := mkS3 { client : C; s3_bucket : string }.
Arguments mkS3 {C}. Arguments client {C}. Arguments s3_bucket {C}.

Section s3.
Context {C : Type} `{S3Client C}.

Definition s3_UploadHint (key : string) (r : stream) (sizeHint : Z) (s : S3ObjectStore C)
  : S3ObjectStore C * result store_error string :=
  let '(c, res) := UploadObject (s3_bucket s) key (if 0 <=? sizeHint then Some sizeHint else None) r (client s) in
  (mkS3 c (s3_bucket s),
   match res with Ok _ => Ok ("s3://" +:+ s3_bucket s +:+ "/" +:+ key) | Err _ => Err ErrStore end).

Definition s3_PutBytes (key : string) (data : list ascii) (s : S3ObjectStore C)
  : S3ObjectStore C * result store_error unit :=
  let '(c, res) := PutObject (s3_bucket s) key (Z.of_nat (length data)) data (client s) in
  (mkS3 c (s3_bucket s), match res with Ok _ => Ok tt | Err _ => Err ErrStore end).

Definition s3_Download (key : string) (s : S3ObjectStore C) : S3ObjectStore C * result store_error stream :=
  let '(c, res) := GetObject (s3_bucket s) key (client s) in
  (mkS3 c (s3_bucket s),
   match res with Ok body => Ok body | Err NoSuchKey => Err ErrObjectNotFound | Err OtherS3Error => Err ErrStore end).

(** [io.ReadAll] of the body. *)
Definition s3_GetBytes (key : string) (s : S3ObjectStore C) : S3ObjectStore C * result store_error (list ascii) :=
  let '(s', res) := s3_Download key s in
  (s', match res with
       | Ok body => if broken body then Err ErrStore else Ok (bytes body)
       | Err e => Err e
       end).

#[export] Instance s3_store : ObjectStore (S3ObjectStore C) := {
  Upload key r := s3_UploadHint key r (-1); PutBytes := s3_PutBytes;
  GetBytes := s3_GetBytes; Download := s3_Download }.

(** The documented behaviour of the service: an object is replaced as a whole
    or not at all, reads see the last write. *)
Context (contents : C -> string -> gmap string (list ascii)).
Hypothesis UploadObject_spec : forall b key hint r c, let '(c', res) := UploadObject b key hint r c in
  (res = Ok tt -> broken r = false /\ contents c' b = <[key := bytes r]> (contents c b)) /\
  (contents c' b = contents c b \/ (broken r = false /\ contents c' b = <[key := bytes r]> (contents c b))).
Hypothesis PutObject_spec : forall b key data c,
  let '(c', res) := PutObject b key (Z.of_nat (length data)) data c in
  (res = Ok tt -> contents c' b = <[key := data]> (contents c b)) /\
  (contents c' b = contents c b \/ contents c' b = <[key := data]> (contents c b)).
Hypothesis GetObject_spec : forall b key c, let '(c', res) := GetObject b key c in
  contents c' b = contents c b /\
  match res with
  | Ok r => exists data, contents c b !! key = Some data /\ (broken r = false -> bytes r = data)
  | Err NoSuchKey => contents c b !! key = None
  | Err OtherS3Error => True
  end.

Definition s3_laws : ObjectStoreLaws (S3ObjectStore C).
Proof.
  refine {| objects_of := fun s => contents (client s) (s3_bucket s); bucket_of := s3_bucket |}.
  - intros key r s. simpl. unfold s3_UploadHint.
    pose proof (UploadObject_spec (s3_bucket s) key None r (client s)) as Hs. cbn [Z.leb Z.compare].
    change (0 <=? -1) with false. cbv iota.
    destruct (UploadObject _ _ _ _ _) as [c' [[]|e]]; simpl; split; try done; [|by apply Hs].
    destruct Hs as [Hs _]. destruct (Hs eq_refl); auto.
  - intros key data s. simpl. unfold s3_PutBytes.
    pose proof (PutObject_spec (s3_bucket s) key data (client s)) as Hs.
    destruct (PutObject _ _ _ _ _) as [c' [[]|e]]; simpl; split; try done; [by apply Hs|apply Hs].
  - intros key s. simpl. unfold s3_GetBytes, s3_Download.
    pose proof (GetObject_spec (s3_bucket s) key (client s)) as Hs.
    destruct (GetObject _ _ _) as [c' [r|[]]]; simpl; destruct Hs as [Hc Hs]; split_and!; try done.
    destruct Hs as (data & Hd & Hb). destruct (broken r); [done|]. by rewrite Hb.
  - intros key s. simpl. unfold s3_Download.
    pose proof (GetObject_spec (s3_bucket s) key (client s)) as Hs.
    destruct (GetObject _ _ _) as [c' [r|[]]]; simpl; destruct Hs as [Hc Hs]; split_and!; done.
Defined.
End s3.

(** ** KeyProvider *)

Record DEK := mkDEK { Bytes : list ascii; KEKHint : string }.

Class KeyProvider (K : Type) := GetDEK : Z -> Z -> K -> result unit DEK.

Definition stubKEKHint : string := "stub-v0".
(** [uint32] of an [int] keeps the low 32 bits, which are the four bytes. *)
Definition stubKeyProvider_GetDEK (year month : Z) : DEK :=
  mkDEK (Sum256 (be_bytes 4 year ++ be_bytes 4 month)) stubKEKHint.
#[export] Instance stubKeyProvider : KeyProvider unit := fun year month _ => Ok (stubKeyProvider_GetDEK year month).

(** *** VaultKeyProvider

    The Vault client is an argument: what a write to a path answers, [None]
    being a response without data, and its ["hmac"] field. *)
Record VaultKeyProvider := mkVault {
  vault_client : option (string -> string -> result unit (option (option string)));
  mountPath : string;
  keyName : string }.

Definition DefaultVaultTransitMount : string := "transit".
Definition DefaultVaultBillingKeyName : string := "platform-billing-master".

Definition NewVaultKeyProvider client (mountPath keyName : string) : VaultKeyProvider :=
  mkVault client
    (if bool_decide (mountPath = "") then DefaultVaultTransitMount else mountPath)
    (if bool_decide (keyName = "") then DefaultVaultBillingKeyName else keyName).

(** "vault:v<N>:<base64>". *)
Definition parseVaultHMAC (s : string) : option (Z * list ascii) :=
  match cut_at ":" (s2l s) with
  | None => None
  | Some (p0, rest) =>
      match cut_at ":" rest with
      | None => None
      | Some (p1, p2) =>
          if negb (bool_decide (l2s p0 = "vault")) || negb (HasPrefix (l2s p1) "v") then None
          else
            v ← Atoi (TrimPrefix (l2s p1) "v");
            raw ← DecodeString StdEncoding (l2s p2);
            Some (v, raw)
      end
  end.

Definition vault_input (year month : Z) : string := fmt_0d 4 year +:+ "-" +:+ fmt_0d 2 month.
Definition vault_path (v : VaultKeyProvider) : string := mountPath v +:+ "/hmac/" +:+ keyName v +:+ "/sha2-256".

#[export] Instance VaultKeyProvider_GetDEK : KeyProvider VaultKeyProvider := fun year month v =>
  match vault_client v with
  | None => Err tt
  | Some write =>
      if (year <? 2026) || (2100 <? year) then Err tt
      else if (month <? 1) || (12 <? month) then Err tt
      else
        match write (vault_path v) (EncodeToString StdEncoding (s2l (vault_input year month))) with
        | Err _ => Err tt
        | Ok None => Err tt
        | Ok (Some hmac) =>
            let hmacStr := default "" hmac in
            if bool_decide (hmacStr = "") then Err tt
            else
              match parseVaultHMAC hmacStr with
              | None => Err tt
              | Some (keyVersion, dekBytes) =>
                  if (length dekBytes =? 32)%nat
                  then Ok (mkDEK dekBytes ("platform-billing-v" +:+ Itoa keyVersion))
                  else Err tt
              end
        end
  end.

(** The keys of both providers are AES-256 keys. *)
Lemma stub_key_length year month : length (Bytes (stubKeyProvider_GetDEK year month)) = 32%nat.
Proof. apply Sum256_length. Qed.

Lemma vault_key_length v year month dek : VaultKeyProvider_GetDEK year month v = Ok dek ->
  length (Bytes dek) = 32%nat.
Proof.
  unfold VaultKeyProvider_GetDEK. intros H. case_split_in H. reflect_bools.
  by match goal with E : (_ =? 32)%nat = true |- _ => apply Nat.eqb_eq in E end.
Qed.

(** The response Vault documents for key version [n] and digest [d]. *)
Definition vault_response (n : Z) (d : list ascii) : string :=
  "vault:v" +:+ Itoa n +:+ ":" +:+ EncodeToString StdEncoding d.

Lemma parseVaultHMAC_response n d : 0 <= n <= int64_max -> parseVaultHMAC (vault_response n d) = Some (n, d).
Proof.
  intros Hn. unfold parseVaultHMAC, vault_response.
  destruct (Itoa_nonneg n ltac:(lia)) as (ds & Hds & Hd & _).
  rewrite !s2l_app. change (s2l "vault:v") with (s2l "vault" ++ ":"%char :: s2l "v").
  rewrite <- app_assoc, <- app_comm_cons, (cut_at_app ":"%char (s2l "vault"))
    by (apply (bool_decide_unpack _); vm_compute; exact I).
  change (s2l ":") with [":"%char]. cbn [app]. rewrite (app_assoc (s2l "v")).
  rewrite (cut_at_app ":"%char (s2l "v" ++ s2l (Itoa n))).
  2: { rewrite not_elem_of_app. split; [by apply (bool_decide_unpack _); vm_compute|].
       rewrite Hds. by apply digits_no_char. }
  rewrite l2s_s2l, bool_decide_true by done. rewrite l2s_app, !l2s_s2l.
  rewrite (proj2 (HasPrefix_spec _ _)) by eauto. cbn [negb orb]. rewrite TrimPrefix_app.
  rewrite Atoi_Itoa by (unfold is_int64, int64_min in *; lia).
  by rewrite (DecodeString_EncodeToString _ StdEncoding_ok).
Qed.

(** A Vault transit key as documented: the digest of a month depends on the
    key version and the month alone, so the key of a month is the same until
    the key is rotated. *)
Lemma VaultKeyProvider_key hmac n m k year month :
  2026 <= year <= 2100 -> 1 <= month <= 12 -> 0 <= n <= int64_max ->
  (forall input, length (hmac n input) = 32%nat) ->
  VaultKeyProvider_GetDEK year month
    (NewVaultKeyProvider (Some (fun _ input => Ok (Some (Some (vault_response n (hmac n input)))))) m k)
  = Ok (mkDEK (hmac n (EncodeToString StdEncoding (s2l (vault_input year month)))) ("platform-billing-v" +:+ Itoa n)).
Proof.
  intros Hy Hm Hn Hlen. unfold VaultKeyProvider_GetDEK. cbn [vault_client NewVaultKeyProvider].
  rewrite !(proj2 (Z.ltb_ge _ _)) by lia. cbn [orb default]. unfold id. rewrite bool_decide_false by done.
  rewrite parseVaultHMAC_response by done. by rewrite Hlen.
Qed.
