(* ===== verification/Archive.v ===== *)
(** * Archive activities: export of a partition and its way back

    The activities of [plane/workflow/billing]: export_activity.go,
    fetch_manifest_activity.go, verify_checksum_activity.go,
    download_decrypt_activity.go, load_quarantine_activity.go, detach and drop,
    manifest_kekhint_resolver.go, over the interfaces [Archiver] and [Restorer]
    of [plane/data/store/billing], the object store, the key provider and the
    scratch directory of a worker. *)

From S2P Require Import Prelude GoStd GoFmt GoTime Sha256 Json JsonDecode Uuid AesGcm ArchiveFrames.
From S2P Require Import Actions Temporal ObjectStore.

(** ** Rows and the Parquet library *)

Record UsageEventRow := mkRow {
  ID : string;
  AccountID : string;
  PrincipalID : string;
  PrincipalType : string;
  Surface : string;
  CostVector : string;
  Value : Z;
  RepoID : option string;
  EventSource : string;
  ExternalEventID : option string;
  Ts : time;
  CreatedAt : time }.

#[export] Instance UsageEventRow_eq_dec : EqDecision UsageEventRow.
Proof. solve_decision. Defined.

Definition row_ok (r : UsageEventRow) : Prop :=
  is_int64 (Value r) /\ is_int64 (Ts r) /\ is_int64 (CreatedAt r).

(** parquet-go: the file of a list of rows, what has left the writer when it
    is abandoned before [Close], and the rows of a file. *)
Class Parquet := {
  parquet_write : list UsageEventRow -> list ascii;
  parquet_partial : list UsageEventRow -> list ascii;
  parquet_read : list ascii -> option (list UsageEventRow) }.
Class ParquetLaws `{Parquet} :=
  parquet_read_write rows : Forall row_ok rows -> parquet_read (parquet_write rows) = Some rows.

(** ** Archiver and Restorer *)

(** A cursor: the rows it yields and whether it ends with an error. *)
Record Cursor := mkCursor { cursor_rows : list UsageEventRow; cursor_err : bool }.

Class Archiver (A : Type) := {
  DetachUsageEventsPartition : Z -> Z -> A -> A * result unit unit;
  DropUsageEventsPartition : Z -> Z -> A -> A * result unit unit;
  ScanPartitionRows : Z -> Z -> A -> A * result unit Cursor }.

(** The partition tables behind an archiver: their rows, if the table is
    there.  Detaching and scanning leave them alone, a drop that reports an
    error may have happened. *)
Class ArchiverLaws (A : Type) `{Archiver A} := {
  partition_rows : A -> Z * Z -> option (list UsageEventRow);
  Detach_law : forall y m a k, partition_rows (DetachUsageEventsPartition y m a).1 k = partition_rows a k;
  Drop_law : forall y m a,
    let '(a', res) := DropUsageEventsPartition y m a in
    (forall k, k <> (y, m) -> partition_rows a' k = partition_rows a k) /\
    match res with
    | Ok _ => partition_rows a' (y, m) = None
    | Err _ => partition_rows a' (y, m) = None \/ partition_rows a' (y, m) = partition_rows a (y, m)
    end;
  Scan_law : forall y m a,
    let '(a', res) := ScanPartitionRows y m a in
    (forall k, partition_rows a' k = partition_rows a k) /\
    match res with
    | Ok c => cursor_err c = false -> partition_rows a (y, m) = Some (cursor_rows c)
    | Err _ => True
    end }.

Class Restorer (R : Type) := {
  EnsureQuarantineTable : Z -> Z -> R -> R * result unit string;
  LoadParquetIntoQuarantine : Z -> Z -> list ascii -> R -> R * result unit Z;
  SealQuarantineTable : Z -> Z -> R -> R * result unit unit;
  DropQuarantineTable : Z -> Z -> R -> R * result unit unit }.

Definition QuarantineTableName (year month : Z) : string :=
  "billing.usage_events_restore_" +:+ fmt_0d 4 year +:+ "_" +:+ fmt_0d 2 month.

(** ** Names and keys *)

Definition partition_id (year month : Z) : string := fmt_0d 4 year +:+ "_" +:+ fmt_0d 2 month.
Definition partitionName (year month : Z) : string := "billing.usage_events_" +:+ partition_id year month.
Definition archived_base (year month : Z) : string :=
  "billing/usage_events/year=" +:+ fmt_0d 4 year +:+ "/month=" +:+ fmt_0d 2 month
  +:+ "/usage_events_" +:+ partition_id year month.
Definition archivedSidecarKey (year month : Z) (suffix : string) : string := archived_base year month +:+ suffix.
Definition archivedParquetKey (year month : Z) : string := archived_base year month +:+ ".parquet".

(** ** The manifest *)

Record archiveManifest := mkManifest {
  SchemaVersion : Z;
  SourcePartition : string;
  RowCount : Z;
  BytesWritten : Z;
  m_KEKHint : string;
  EncFormat : string;
  ArchiveTS : string;
  ChecksumAlg : string }.

Definition encFormatV1 : string := "aes-256-gcm-v1-4mib".

Definition manifest_json (m : archiveManifest) : jval := VObj [
  ("schema_version", VInt (SchemaVersion m)); ("source_partition", VStr (SourcePartition m));
  ("row_count", VInt (RowCount m)); ("bytes_written", VInt (BytesWritten m));
  ("kek_hint", VStr (m_KEKHint m)); ("enc_format", VStr (EncFormat m));
  ("archive_ts", VStr (ArchiveTS m)); ("checksum_alg", VStr (ChecksumAlg m))].

(** [json.Unmarshal(raw, &m)]. *)
Definition manifest_decode (raw : string) : option archiveManifest :=
  v ← Unmarshal raw; ms ← struct_members v;
  sv ← decode_field dec_int 0 "schema_version" ms;
  sp ← decode_field dec_string "" "source_partition" ms;
  rc ← decode_field dec_int 0 "row_count" ms;
  bw ← decode_field dec_int 0 "bytes_written" ms;
  kh ← decode_field dec_string "" "kek_hint" ms;
  ef ← decode_field dec_string "" "enc_format" ms;
  ts ← decode_field dec_string "" "archive_ts" ms;
  ca ← decode_field dec_string "" "checksum_alg" ms;
  Some (mkManifest sv sp rc bw kh ef ts ca).

(** ** The world of a worker

    What one attempt of an activity sees besides it: the clock, the random
    source and the scratch file system. *)
Record env := mkEnv {
  now : time;
  rand_nonce : Z -> option (list ascii);
  create_fails : bool;
  write_fails : Z -> bool;
  close_fails : bool;
  open_fails : bool }.

Record world (A O K R : Type) := mkWorld {
  archiver : A; store : O; keys : K; restorer : R; scratch : gmap string (list ascii) }.
Arguments mkWorld {A O K R}. Arguments archiver {A O K R}. Arguments store {A O K R}.
Arguments keys {A O K R}. Arguments restorer {A O K R}. Arguments scratch {A O K R}.

Section activities.
Context {A O K R : Type} `{Archiver A} `{ObjectStore O} `{KeyProvider K} `{Restorer R} `{Parquet}.
Context (scratchDir : string).
Notation W := (world A O K R).

Definition on_store {X} (what : string) (f : O -> O * result store_error X) : act W X := fun w =>
  let '(o, res) := f (store w) in
  (mkWorld (archiver w) o (keys w) (restorer w) (scratch w),
   match res with Ok x => Ok x | Err _ => Err (Failed what) end).
Definition on_archiver {X} (what : string) (f : A -> A * result unit X) : act W X := fun w =>
  let '(a, res) := f (archiver w) in
  (mkWorld a (store w) (keys w) (restorer w) (scratch w),
   match res with Ok x => Ok x | Err _ => Err (Failed what) end).
Definition on_restorer {X} (what : string) (f : R -> R * result unit X) : act W X := fun w =>
  let '(r, res) := f (restorer w) in
  (mkWorld (archiver w) (store w) (keys w) r (scratch w),
   match res with Ok x => Ok x | Err _ => Err (Failed what) end).
Definition get_dek (what : string) (year month : Z) : act W DEK := fun w =>
  (w, match GetDEK year month (keys w) with Ok d => Ok d | Err _ => Err (Failed what) end).
Definition set_scratch (f : gmap string (list ascii) -> gmap string (list ascii)) : act W unit := fun w =>
  (mkWorld (archiver w) (store w) (keys w) (restorer w) (f (scratch w)), Ok tt).

(** *** Detach and Drop *)
Definition DetachPartition (year month : Z) : act W unit :=
  on_archiver "detach" (DetachUsageEventsPartition year month).
Definition DropPartition (year month : Z) : act W unit :=
  on_archiver "drop" (DropUsageEventsPartition year month).

(** *** Export *)
Record ExportResult := mkExportResult {
  er_LakeURI : string; er_RowCount : Z; er_BytesWritten : Z; er_SHA256Hex : string }.

(** The parquet goroutine. *)
Definition plaintext_stream (c : Cursor) : stream :=
  if cursor_err c then mkStream (parquet_partial (cursor_rows c)) true
  else mkStream (parquet_write (cursor_rows c)) false.

Definition export_manifest (year month : Z) (dek : DEK) (c : Cursor) (cipher : stream) (t : time) : archiveManifest :=
  mkManifest 1 (partitionName year month) (Z.of_nat (length (cursor_rows c)))
    (Z.of_nat (length (bytes cipher))) (KEKHint dek) encFormatV1 (RFC3339 t) "sha256".

Definition hex_sum (l : list ascii) : string := l2s (hex_of_bytes (Sum256 l)).

(** An upload that succeeds has read the stream to its end, so its errors are
    those of the goroutines. *)
Definition Export (e : env) (year month : Z) : act W ExportResult :=
  let! dek := get_dek "export: get dek" year month in
  let! _ := require (length (Bytes dek) =? 32)%nat (Failed "export: new cipher") in
  let! cursor := on_archiver "export: scan rows" (ScanPartitionRows year month) in
  let cipher := encrypt (Bytes dek) (partitionName year month) (rand_nonce e) (plaintext_stream cursor) in
  let! uri := on_store "export: upload" (Upload (archivedParquetKey year month) cipher) in
  let! _ := require (negb (cursor_err cursor)) (Failed "export: parquet write") in
  let! _ := require (negb (broken cipher)) (Failed "export: encrypt") in
  let sha256hex := hex_sum (bytes cipher) in
  let base := TrimSuffix (archivedParquetKey year month) ".parquet" in
  let manifestJSON := Marshal (manifest_json (export_manifest year month dek cursor cipher (now e))) in
  let! _ := on_store "export: manifest" (PutBytes (base +:+ ".manifest.json") (s2l manifestJSON)) in
  let! _ := on_store "export: checksum" (PutBytes (base +:+ ".checksum.sha256") (s2l sha256hex)) in
  ret (mkExportResult uri (Z.of_nat (length (cursor_rows cursor))) (Z.of_nat (length (bytes cipher))) sha256hex).

(** *** FetchManifest *)
Record FetchManifestResult := mkFetched {
  fm_SourcePartition : string; fm_RowCount : Z; fm_BytesWritten : Z; fm_KEKHint : string;
  fm_EncFormat : string; fm_ChecksumAlg : string; fm_ParquetKey : string; fm_ChecksumKey : string }.

Definition FetchManifest (year month : Z) : act W FetchManifestResult := fun w =>
  let '(o, res) := GetBytes (archivedSidecarKey year month ".manifest.json") (store w) in
  let w' := mkWorld (archiver w) o (keys w) (restorer w) (scratch w) in
  match res with
  | Err ErrObjectNotFound => (w', Err (NonRetryable "ErrObjectNotFound"))
  | Err ErrStore => (w', Err (Failed "fetch manifest"))
  | Ok raw =>
      match manifest_decode (l2s raw) with
      | None => (w', Err (Failed "fetch manifest: parse"))
      | Some m =>
          if negb (bool_decide (SourcePartition m = partitionName year month))
          then (w', Err (Failed "fetch manifest: source_partition"))
          else if negb (SchemaVersion m =? 1) then (w', Err (Failed "fetch manifest: schema_version"))
          else (w', Ok (mkFetched (SourcePartition m) (RowCount m) (BytesWritten m) (m_KEKHint m) (EncFormat m)
                  (ChecksumAlg m) (archivedParquetKey year month) (archivedSidecarKey year month ".checksum.sha256")))
      end
  end.

(** *** VerifyChecksum *)
Definition VerifyChecksum (ParquetKey ChecksumKey : string) : act W unit :=
  let! expectedRaw := on_store "verify checksum: fetch sidecar" (GetBytes ChecksumKey) in
  let expected := TrimSpace (l2s expectedRaw) in
  let! body := on_store "verify checksum: download parquet" (Download ParquetKey) in
  let! _ := require (negb (broken body)) (Failed "verify checksum: hash stream") in
  require (bool_decide (hex_sum (bytes body) = expected)) (NonRetryable "ErrChecksumMismatch").

(** *** DownloadAndDecrypt *)

(** [filepath.Join] with a clean directory. *)
Definition plaintext_path (year month : Z) : string :=
  scratchDir +:+ "/usage_events_" +:+ partition_id year month +:+ "_restore.parquet".

Definition decode_failure (e : decode_error) : failure :=
  match e with ErrFrameTampered => NonRetryable "ErrFrameTampered" | _ => Failed "download+decrypt: decode" end.

Definition DownloadAndDecrypt (e : env) (year month : Z) (ParquetKey SourcePartition EncFormat KEKHint' : string)
  : act W string :=
  let! _ := require (bool_decide (EncFormat = encFormatV1)) (NonRetryable "ErrUnsupportedEncFormat") in
  let! dek := get_dek "download+decrypt: get dek" year month in
  let! _ := require (bool_decide (KEKHint dek = KEKHint')) (Failed "download+decrypt: kek_hint mismatch") in
  let! body := on_store "download+decrypt: download" (Download ParquetKey) in
  let path := plaintext_path year month in
  let! _ := require (negb (create_fails e)) (Failed "download+decrypt: open scratch") in
  let '(out, err) := DecodeStream (Bytes dek) SourcePartition (write_fails e) body in
  match err with
  | Some de => let! _ := set_scratch (delete path) in throw (decode_failure de)
  | None =>
      if close_fails e
      then let! _ := set_scratch (delete path) in throw (Failed "download+decrypt: close scratch")
      else let! _ := set_scratch <[path := out]> in ret path
  end.

(** *** LoadIntoQuarantine and DropQuarantine *)
Definition open_scratch (e : env) (path : string) : act W (list ascii) := fun w =>
  (w, if open_fails e then Err (Failed "load quarantine: open scratch")
      else match scratch w !! path with Some d => Ok d | None => Err (Failed "load quarantine: open scratch") end).

Definition LoadIntoQuarantine (e : env) (year month : Z) (PlaintextPath : string) : act W (string * Z) :=
  let! table := on_restorer "load quarantine: ensure" (EnsureQuarantineTable year month) in
  let! f := open_scratch e PlaintextPath in
  let! rows := on_restorer "load quarantine: copy" (LoadParquetIntoQuarantine year month f) in
  let! _ := on_restorer "load quarantine: seal" (SealQuarantineTable year month) in
  let! _ := set_scratch (delete PlaintextPath) in
  ret (table, rows).

Definition DropQuarantine (year month : Z) : act W unit :=
  on_restorer "drop quarantine" (DropQuarantineTable year month).

(** *** ResolveKEKHint *)
Definition kek_hint_decode (raw : string) : option string :=
  v ← Unmarshal raw; ms ← struct_members v; decode_field dec_string "" "kek_hint" ms.

Definition ResolveKEKHint (bucket lakeURI : string) : act W string :=
  let prefix := "s3://" +:+ bucket +:+ "/" in
  let! _ := require (HasPrefix lakeURI prefix) (Failed "manifest resolver: prefix") in
  let parquetKey := TrimPrefix lakeURI prefix in
  let! _ := require (HasSuffix parquetKey ".parquet") (Failed "manifest resolver: suffix") in
  let manifestKey := TrimSuffix parquetKey ".parquet" +:+ ".manifest.json" in
  let! data := on_store "manifest resolver" (GetBytes manifestKey) in
  match kek_hint_decode (l2s data) with
  | None => throw (Failed "manifest resolver: unmarshal")
  | Some hint => let! _ := require (negb (bool_decide (hint = ""))) (Failed "manifest resolver: empty kek_hint") in ret hint
  end.
End activities.

(** ** The manifest is read back *)

Lemma RFC3339_ascii t : is_ascii (RFC3339 t).
Proof. unfold RFC3339. destruct (civil t) as [[y m] d]. ascii. Qed.

Lemma partitionName_ascii year month : is_ascii (partitionName year month).
Proof. unfold partitionName, partition_id. ascii. Qed.

Definition manifest_ok (m : archiveManifest) : Prop :=
  is_int64 (SchemaVersion m) /\ is_int64 (RowCount m) /\ is_int64 (BytesWritten m) /\
  is_ascii (SourcePartition m) /\ is_ascii (m_KEKHint m) /\ is_ascii (EncFormat m) /\
  is_ascii (ArchiveTS m) /\ is_ascii (ChecksumAlg m).

Lemma manifest_Unmarshal m : manifest_ok m -> Unmarshal (Marshal (manifest_json m)) = Some (manifest_json m).
Proof.
  intros (H1 & H2 & H3 & H4 & H5 & H6 & H7 & H8). apply Unmarshal_marshal; [|by vm_compute].
  unfold manifest_json. cbn [encodable fold_right fst snd].
  repeat match goal with |- _ /\ _ => split end; try done; try (by apply is_ascii_true); unfold VInt; cbn; eauto.
Qed.

Lemma manifest_decode_json m : manifest_ok m -> manifest_decode (Marshal (manifest_json m)) = Some m.
Proof.
  intros Hm. unfold manifest_decode. rewrite manifest_Unmarshal by done.
  destruct Hm as (H1 & H2 & H3 & _). cbn [mbind option_bind manifest_json struct_members].
  rewrite !(decode_field_single dec_int 0 _ (VInt _)) by first [reflexivity | done].
  rewrite !(decode_field_single dec_string "" _ (VStr _)) by first [reflexivity | done].
  rewrite !dec_int_VInt by done. by destruct m.
Qed.

Lemma kek_hint_decode_json m : manifest_ok m -> kek_hint_decode (Marshal (manifest_json m)) = Some (m_KEKHint m).
Proof.
  intros Hm. unfold kek_hint_decode. rewrite manifest_Unmarshal by done.
  cbn [mbind option_bind manifest_json struct_members].
  by rewrite (decode_field_single dec_string "" _ (VStr (m_KEKHint m))) by first [reflexivity | done].
Qed.

(** The sidecar keys Export derives are those the restore side reads. *)
Lemma TrimSuffix_parquet year month : TrimSuffix (archivedParquetKey year month) ".parquet" = archived_base year month.
Proof. apply TrimSuffix_app. Qed.

Lemma sidecar_neq year month s t : s <> t -> archivedSidecarKey year month s <> archivedSidecarKey year month t.
Proof.
  intros Hn E. apply Hn. unfold archivedSidecarKey in E. apply s2l_inj.
  apply (f_equal s2l) in E. rewrite !s2l_app in E. by apply app_inv_head in E.
Qed.

(** Hexadecimal text has no space to trim. *)
Lemma hex_digit_visible z : 0 <= z < 16 -> visible (hex_digit z).
Proof.
  intros H. unfold visible, hex_digit. destruct (Z.ltb_spec z 10); rewrite code_chr by lia; lia.
Qed.

Lemma hex_of_bytes_visible l : Forall visible (hex_of_bytes l).
Proof.
  unfold hex_of_bytes. induction l as [|c l IH]; [constructor|]. cbn [mbind list_bind].
  pose proof (code_range c). apply Forall_app. split; [|exact IH].
  repeat constructor; apply hex_digit_visible; (Z.to_euclidean_division_equations; lia).
Qed.

Lemma visible_ends l : Forall visible l -> l <> [] -> ends_visible l.
Proof.
  intros H Hn. destruct l as [|c l]; [done|]. split; [exists c, l; split; [done|by inversion H]|].
  destruct (exists_last Hn) as (l' & d & E). exists d, l'. rewrite E in *.
  apply Forall_app in H as [_ H]. split; [done|by inversion H].
Qed.

Lemma TrimSpace_hex l : TrimSpace (hex_sum l) = hex_sum l.
Proof.
  apply TrimSpace_visible. unfold hex_sum. rewrite s2l_l2s. apply visible_ends; [apply hex_of_bytes_visible|].
  pose proof (Sum256_length l). by destruct (Sum256 l).
Qed.

(** ** An archived partition

    What the three objects of an exported partition say: the manifest names
    the partition, its rows and its key, the checksum is that of the object,
    and the object decrypts to the Parquet file of the rows. *)
Definition archived `{Parquet} (objs : gmap string (list ascii)) (year month : Z) (dek : DEK)
    (rows : list UsageEventRow) : Prop :=
  exists cipher ts,
    objs !! archivedParquetKey year month = Some cipher /\
    objs !! archivedSidecarKey year month ".manifest.json" =
      Some (s2l (Marshal (manifest_json (mkManifest 1 (partitionName year month) (Z.of_nat (length rows))
        (Z.of_nat (length cipher)) (KEKHint dek) encFormatV1 ts "sha256")))) /\
    objs !! archivedSidecarKey year month ".checksum.sha256" = Some (s2l (hex_sum cipher)) /\
    is_ascii ts /\ is_ascii (KEKHint dek) /\ length (Bytes dek) = 32%nat /\
    is_int64 (Z.of_nat (length rows)) /\ is_int64 (Z.of_nat (length cipher)) /\
    DecodeStream (Bytes dek) (partitionName year month) (fun _ => false) (mkStream cipher false)
      = (parquet_write rows, None).

Lemma archived_manifest_ok year month dek rows cipher ts :
  is_ascii ts -> is_ascii (KEKHint dek) -> is_int64 (Z.of_nat (length rows)) -> is_int64 (Z.of_nat (length cipher)) ->
  manifest_ok (mkManifest 1 (partitionName year month) (Z.of_nat (length (rows : list UsageEventRow)))
    (Z.of_nat (length (cipher : list ascii))) (KEKHint dek) encFormatV1 ts "sha256").
Proof.
  intros. unfold manifest_ok. cbn. split_and!; try done; try apply partitionName_ascii; by apply is_ascii_true.
Qed.

(** ** Keys of different months are different *)

Lemma fmt_0d_neg w n : n < 0 -> exists ds,
  s2l (fmt_0d w n) = "-"%char :: ds /\ all_digits ds /\ digits_value ds = - n.
Proof.
  intros Hn. destruct (Itoa_nonneg (- n) ltac:(lia)) as (ds & E & Hd & _ & Hv & _).
  exists (zero_pad (w - 1) ds). unfold fmt_0d. rewrite (proj2 (Z.ltb_lt _ _)) by lia.
  rewrite s2l_l2s, E. unfold zero_pad. split_and!; [done| |by rewrite digits_value_zeros].
  apply Forall_app. split; [by apply Forall_replicate|done].
Qed.

(** A number is read off the front of a text up to the next non-digit. *)
Lemma fmt_tail_inj w n1 n2 c1 c2 r1 r2 :
  is_digit c1 = false -> is_digit c2 = false ->
  s2l (fmt_0d w n1) ++ c1 :: r1 = s2l (fmt_0d w n2) ++ c2 :: r2 -> n1 = n2 /\ c1 :: r1 = c2 :: r2.
Proof.
  intros Hc1 Hc2 E.
  destruct (Z.lt_ge_cases n1 0) as [H1|H1], (Z.lt_ge_cases n2 0) as [H2|H2].
  - destruct (fmt_0d_neg w n1 H1) as (d1 & E1 & Hd1 & V1), (fmt_0d_neg w n2 H2) as (d2 & E2 & Hd2 & V2).
    rewrite E1, E2 in E. injection E as E.
    destruct (digits_app_inj _ _ _ _ _ _ Hd1 Hd2 Hc1 Hc2 E) as [-> ->]. split; [lia|done].
  - destruct (fmt_0d_neg w n1 H1) as (d1 & E1 & _), (fmt_0d_digits w n2 H2) as (d2 & E2 & Hd2 & Hn & _).
    rewrite E1, E2 in E. destruct d2 as [|x d2]; [done|]. injection E as <- _. by inversion Hd2.
  - destruct (fmt_0d_digits w n1 H1) as (d1 & E1 & Hd1 & Hn & _), (fmt_0d_neg w n2 H2) as (d2 & E2 & _).
    rewrite E1, E2 in E. destruct d1 as [|x d1]; [done|]. injection E as -> _. by inversion Hd1.
  - destruct (fmt_0d_digits w n1 H1) as (d1 & E1 & Hd1 & _ & V1), (fmt_0d_digits w n2 H2) as (d2 & E2 & Hd2 & _ & V2).
    rewrite E1, E2 in E. destruct (digits_app_inj _ _ _ _ _ _ Hd1 Hd2 Hc1 Hc2 E) as [-> ->].
    split; [congruence|done].
Qed.

Lemma fmt_end_inj w n1 n2 : fmt_0d w n1 = fmt_0d w n2 -> n1 = n2.
Proof.
  intros E. apply (f_equal (fun s => s2l s ++ ["_"%char])) in E. by apply fmt_tail_inj in E as [-> _].
Qed.

Lemma partition_id_inj y1 m1 y2 m2 : partition_id y1 m1 = partition_id y2 m2 -> y1 = y2 /\ m1 = m2.
Proof.
  intros E. unfold partition_id in E. apply (f_equal s2l) in E. rewrite !s2l_app in E.
  apply fmt_tail_inj in E as [-> E]; [|done..]. injection E as E. apply s2l_inj in E. split; [done|by eapply fmt_end_inj].
Qed.

Lemma archived_key_inj y1 m1 y2 m2 s1 s2 :
  archivedSidecarKey y1 m1 s1 = archivedSidecarKey y2 m2 s2 -> y1 = y2 /\ m1 = m2.
Proof.
  intros E. unfold archivedSidecarKey, archived_base in E. rewrite !sapp_assoc in E.
  apply (f_equal s2l) in E. rewrite !(s2l_app "billing/usage_events/year=") in E.
  apply app_inv_head in E. rewrite !(s2l_app (fmt_0d 4 _)), !(s2l_app "/month=") in E.
  change (s2l "/month=") with ("/"%char :: s2l "month=") in E. cbn [app] in E.
  apply fmt_tail_inj in E as [-> E]; [|done..]. injection E as E.
  rewrite !(s2l_app (fmt_0d 2 _)), !(s2l_app "/usage_events_") in E.
  change (s2l "/usage_events_") with ("/"%char :: s2l "usage_events_") in E. cbn [app] in E.
  by apply fmt_tail_inj in E as [-> _].
Qed.

(** ** What the activities do to the world *)

(** A chunk grows by 32 bytes and has at least one. *)
Lemma encrypt_length key partition rand plain : length key = 32%nat ->
  (forall i nonce, rand i = Some nonce -> length nonce = NonceSize) ->
  (length (bytes (encrypt key partition rand plain)) <= 33 * length (bytes plain))%nat.
Proof.
  intros Hk Hr. unfold encrypt. destruct plain as [l br]. cbn [bytes].
  generalize (S (length l)) as fuel, 0 as index. intros fuel. revert l.
  induction fuel as [|fuel IH]; intros l index; [cbn; lia|]. cbn [encrypt_loop bytes broken].
  destruct (ReadFull chunkSize l) as [chunk rest] eqn:E. apply ReadFull_inv in E as [-> _]; [|done].
  destruct chunk as [|c chunk']; [cbn; lia|]. destruct (rand index) as [nonce|] eqn:Hn; [|cbn; lia].
  apply Hr in Hn. pose proof (frame_length key nonce partition index (c :: chunk') Hk) as Hf.
  unfold Overhead, NonceSize in *. rewrite length_app.
  destruct (Z.of_nat (length (c :: chunk')) <? chunkSize).
  - cbn [bytes]. cbn [length] in *. lia.
  - cbn [bytes broken]. rewrite length_app. specialize (IH rest (u64 (index + 1))). cbn [length] in *. lia.
Qed.

(** Partitions whose export counts stay within [int64]. *)
Definition fits `{Parquet} (rows : list UsageEventRow) : Prop :=
  Forall row_ok rows /\ is_int64 (Z.of_nat (length rows)) /\
  is_int64 (33 * Z.of_nat (length (parquet_write rows))).

Definition env_ok (e : env) : Prop := forall i nonce, rand_nonce e i = Some nonce -> length nonce = NonceSize.

Section effects.
Context {A O K R : Type} `{!Archiver A} `{!ObjectStore O} `{!KeyProvider K} `{!Restorer R} `{!Parquet}.
Context `{!ArchiverLaws A} `{!ObjectStoreLaws O}.
Notation W := (world A O K R).
Implicit Types w : W.

Definition objs w : gmap string (list ascii) := objects_of (store w).
Definition tables w : Z * Z -> option (list UsageEventRow) := partition_rows (archiver w).

Lemma preserves_on_store (P : W -> Prop) {X} what (f : O -> O * result store_error X) :
  (forall w, P w -> P (mkWorld (archiver w) (f (store w)).1 (keys w) (restorer w) (scratch w))) ->
  preserves P (on_store what f).
Proof. intros Hf w Hw. unfold on_store. specialize (Hf w Hw). by destruct (f (store w)). Qed.

Lemma preserves_on_archiver (P : W -> Prop) {X} what (f : A -> A * result unit X) :
  (forall w, P w -> P (mkWorld (f (archiver w)).1 (store w) (keys w) (restorer w) (scratch w))) ->
  preserves P (on_archiver what f).
Proof. intros Hf w Hw. unfold on_archiver. specialize (Hf w Hw). by destruct (f (archiver w)). Qed.

Lemma preserves_get_dek (P : W -> Prop) what y m : preserves P (get_dek what y m).
Proof. intros w Hw. unfold get_dek. by destruct (GetDEK _ _ _). Qed.

(** An object is touched only by a write to its key. *)
Lemma objs_Upload k v key r w :
  objs w !! k = v -> k <> key -> objects_of (Upload key r (store w)).1 !! k = v.
Proof.
  unfold objs. intros <- Hk. pose proof (Upload_law key r (store w)) as Hl.
  destruct (Upload key r (store w)) as [o [uri|e]]; cbn [fst]; destruct Hl as [_ Hl].
  - destruct Hl as (_ & -> & _). by rewrite lookup_insert_ne.
  - destruct Hl as [->|[_ ->]]; [done|]. by rewrite lookup_insert_ne.
Qed.

Lemma objs_PutBytes k v key data w :
  objs w !! k = v -> k <> key -> objects_of (PutBytes key data (store w)).1 !! k = v.
Proof.
  unfold objs. intros <- Hk. pose proof (PutBytes_law key data (store w)) as Hl.
  destruct (PutBytes key data (store w)) as [o [[]|e]]; cbn [fst]; destruct Hl as [_ Hl].
  - rewrite Hl. by rewrite lookup_insert_ne.
  - destruct Hl as [->| ->]; [done|]. by rewrite lookup_insert_ne.
Qed.

Lemma Scan_tables y m (a : A) k : partition_rows (ScanPartitionRows y m a).1 k = partition_rows a k.
Proof. pose proof (Scan_law y m a) as Hl. destruct (ScanPartitionRows y m a). by destruct Hl. Qed.

(** Export changes no table, no key, and no object of another month. *)
Lemma Export_tables e y m k t : preserves (fun w => tables w k = t) (Export e y m).
Proof.
  unfold Export. repeat (apply preserves_bind; [|intros ?]); eauto using preserves_get_dek with gitscale;
    [apply preserves_on_archiver|apply preserves_on_store..]; intros w <-; try done.
  unfold tables. apply Scan_tables.
Qed.

Lemma Export_keys e y m k : preserves (fun w => keys w = k) (Export e y m).
Proof.
  unfold Export. repeat (apply preserves_bind; [|intros ?]); eauto using preserves_get_dek with gitscale;
    [apply preserves_on_archiver|apply preserves_on_store..]; by intros w <-.
Qed.

Lemma Export_objs e y m k v :
  k <> archivedParquetKey y m -> k <> archivedSidecarKey y m ".manifest.json" ->
  k <> archivedSidecarKey y m ".checksum.sha256" ->
  preserves (fun w => objs w !! k = v) (Export e y m).
Proof.
  intros H1 H2 H3. unfold Export. rewrite TrimSuffix_parquet.
  repeat (apply preserves_bind; [|intros ?]); eauto using preserves_get_dek with gitscale;
    [by apply preserves_on_archiver|apply preserves_on_store..]; intros w Hw.
  - by apply objs_Upload.
  - by apply objs_PutBytes.
  - by apply objs_PutBytes.
Qed.

(** Without the table, Export writes nothing: either the scan fails or the
    cursor does, and a broken stream replaces no object. *)
Lemma Export_gone e y m w : tables w (y, m) = None -> env_ok e -> objs (Export e y m w).1 = objs w.
Proof.
  intros Hg He. unfold Export, bind, get_dek. destruct (GetDEK y m (keys w)) as [dek|]; [|done].
  unfold require. destruct (length (Bytes dek) =? 32)%nat eqn:Hk; [|done]. apply Nat.eqb_eq in Hk.
  cbn [ret]. unfold on_archiver. pose proof (Scan_law y m (archiver w)) as Hs.
  destruct (ScanPartitionRows y m (archiver w)) as [a [c|]]; [|done]. destruct Hs as [_ Hs].
  destruct (cursor_err c) eqn:Ec; [|unfold tables in Hg; rewrite Hs in Hg by done; done].
  set (cipher := encrypt _ _ _ _).
  assert (Hb : broken cipher = true).
  { destruct (broken cipher) eqn:E; [done|].
    destruct (DecodeStream_unbroken _ _ _ _ _ Hk He eq_refl E) as [Hp _].
    unfold plaintext_stream in Hp. by rewrite Ec in Hp. }
  unfold on_store at 1. cbn [store]. pose proof (Upload_law (archivedParquetKey y m) cipher (store w)) as Hl.
  destruct (Upload _ cipher _) as [o [uri|]]; destruct Hl as [_ Hl].
  - destruct Hl as [Hl _]. congruence.
  - cbn [fst]. unfold objs. cbn [store]. destruct Hl as [->|[Hl _]]; [done|congruence].
Qed.

Definition key_ascii : Prop := forall y m k dek, GetDEK y m k = Ok dek -> is_ascii (KEKHint dek).

(** An export that succeeds has archived the rows of the table. *)
Lemma Export_archives e y m w w' r :
  Export e y m w = (w', Ok r) -> env_ok e -> key_ascii ->
  (forall rows, tables w (y, m) = Some rows -> fits rows) ->
  exists dek rows, GetDEK y m (keys w) = Ok dek /\ tables w (y, m) = Some rows /\
    archived (objs w') y m dek rows /\ er_RowCount r = Z.of_nat (length rows) /\
    er_LakeURI r = "s3://" +:+ bucket_of (store w) +:+ "/" +:+ archivedParquetKey y m.
Proof.
  intros HE He Hka Hfit. unfold Export in HE. rewrite TrimSuffix_parquet in HE.
  apply bind_ok in HE as (w1 & dek & H1 & HE). unfold get_dek in H1.
  destruct (GetDEK y m (keys w)) as [dek'|] eqn:Hd; simplify_eq.
  apply bind_ok in HE as (w2 & [] & H2 & HE). unfold require in H2.
  destruct (length (Bytes dek) =? 32)%nat eqn:Hk; [|done]. injection H2 as <-. apply Nat.eqb_eq in Hk.
  apply bind_ok in HE as (w3 & c & H3 & HE). unfold on_archiver in H3.
  pose proof (Scan_law y m (archiver w1)) as Hs.
  destruct (ScanPartitionRows y m (archiver w1)) as [a [c'|]]; [|done]. injection H3 as <- <-.
  destruct Hs as [_ Hs]. set (cipher := encrypt _ _ _ _) in HE.
  apply bind_ok in HE as (w4 & uri & H4 & HE). unfold on_store in H4. cbn [store archiver keys] in H4.
  pose proof (Upload_law (archivedParquetKey y m) cipher (store w1)) as Hl.
  destruct (Upload _ cipher _) as [o [uri'|]]; [|done]. injection H4 as <- <-.
  destruct Hl as (Hbk & Hb & Ho1 & Huri).
  apply bind_ok in HE as (w5 & [] & H5 & HE). unfold require in H5.
  destruct (cursor_err c') eqn:Ec; [done|]. injection H5 as <-.
  apply bind_ok in HE as (w6 & [] & H6 & HE). rewrite Hb in H6. injection H6 as <-.
  apply bind_ok in HE as (w7 & [] & H7 & HE). unfold on_store in H7. cbn [store] in H7.
  match type of H7 with context [PutBytes ?k ?d ?o] => pose proof (PutBytes_law k d o) as Hm;
    destruct (PutBytes k d o) as [o2 [[]|]]; [|done] end. injection H7 as <-.
  apply bind_ok in HE as (w8 & [] & H8 & HE). unfold on_store in H8. cbn [store] in H8.
  match type of H8 with context [PutBytes ?k ?d ?o] => pose proof (PutBytes_law k d o) as Hc;
    destruct (PutBytes k d o) as [o3 [[]|]]; [|done] end. injection H8 as <-.
  injection HE as <- <-. destruct Hm as [_ Hm]. destruct Hc as [_ Hc].
  specialize (Hs eq_refl). destruct (Hfit _ Hs) as (Hrows & Hlen & Hsize).
  destruct (DecodeStream_unbroken _ _ _ _ cipher Hk He eq_refl Hb) as [_ Hdec].
  unfold plaintext_stream in Hdec. rewrite Ec in Hdec. cbn [bytes] in Hdec.
  exists dek, (cursor_rows c'). split; [done|]. split; [exact Hs|]. split; [|by rewrite <- Huri].
  exists (bytes cipher), (RFC3339 (now e)). unfold objs. cbn [store]. rewrite Hc, Hm, Ho1.
  change (archived_base y m +:+ ".manifest.json") with (archivedSidecarKey y m ".manifest.json").
  change (archived_base y m +:+ ".checksum.sha256") with (archivedSidecarKey y m ".checksum.sha256").
  change (archivedParquetKey y m) with (archivedSidecarKey y m ".parquet").
  split_and!; try done.
  - rewrite !lookup_insert_ne by (by apply sidecar_neq). by rewrite lookup_insert_eq.
  - rewrite lookup_insert_ne by (by apply sidecar_neq). by rewrite lookup_insert_eq.
  - by rewrite lookup_insert_eq.
  - apply RFC3339_ascii.
  - by eapply Hka.
  - pose proof (encrypt_length (Bytes dek) (partitionName y m) (rand_nonce e) (plaintext_stream c') Hk He) as Hcl.
    fold cipher in Hcl. unfold plaintext_stream in Hcl. rewrite Ec in Hcl. cbn [bytes] in Hcl.
    unfold is_int64 in *. unfold int64_min in *. lia.
Qed.

(** ** The way back

    Each activity of the restore on an archived partition.  What succeeds is
    right whatever the object store does; on a store whose reads succeed, and
    with the key of the export, everything succeeds. *)
Section restore.
Context (y m : Z) (dek : DEK) (rows : list UsageEventRow).

Definition fetched (r : FetchManifestResult) : Prop :=
  exists bytes_written,
  r = mkFetched (partitionName y m) (Z.of_nat (length rows)) bytes_written (KEKHint dek) encFormatV1 "sha256"
        (archivedParquetKey y m) (archivedSidecarKey y m ".checksum.sha256").

Lemma FetchManifest_archived w w' r : archived (objs w) y m dek rows ->
  FetchManifest y m w = (w', Ok r) -> fetched r /\ objs w' = objs w.
Proof.
  intros (cipher & ts & _ & Hm & _ & Hts & Hka & _ & Hn & Hc & _) HF. unfold FetchManifest in HF.
  pose proof (GetBytes_law (archivedSidecarKey y m ".manifest.json") (store w)) as Hg.
  destruct (GetBytes _ (store w)) as [o [raw|[]]]; [|done..]. destruct Hg as (_ & Ho & Hg).
  unfold objs in Hm. rewrite Hg in Hm. apply (inj Some) in Hm. subst raw. rewrite l2s_s2l, manifest_decode_json in HF
    by (by apply archived_manifest_ok).
  cbn [SourcePartition SchemaVersion RowCount BytesWritten m_KEKHint EncFormat ChecksumAlg] in HF.
  rewrite bool_decide_true in HF by done. injection HF as <- <-. split; [|exact Ho]. eexists; reflexivity.
Qed.

Lemma VerifyChecksum_archived w w' t : archived (objs w) y m dek rows ->
  VerifyChecksum (archivedParquetKey y m) (archivedSidecarKey y m ".checksum.sha256") w = (w', Err (NonRetryable t)) ->
  False.
Proof.
  intros (cipher & ts & Hp & _ & Hsum & _) HV. unfold VerifyChecksum, bind, on_store in HV.
  pose proof (GetBytes_law (archivedSidecarKey y m ".checksum.sha256") (store w)) as Hg.
  destruct (GetBytes _ (store w)) as [o [raw|e]]; [|done]. destruct Hg as (_ & Ho & Hg). cbn [store] in HV.
  pose proof (Download_law (archivedParquetKey y m) o) as Hd.
  destruct (Download _ o) as [o' [body|e]]; [|done]. destruct Hd as (_ & _ & data & Hd & Hb).
  unfold require in HV. destruct (broken body); [done|]. cbn [negb ret] in HV.
  rewrite Hb in HV by done. unfold objs in *. rewrite Ho, Hp in Hd. rewrite Hsum in Hg. simplify_eq.
  rewrite l2s_s2l, TrimSpace_hex, bool_decide_true in HV by done. done.
Qed.

Lemma DecodeStream_write_fails key partition wf s out :
  DecodeStream key partition wf s = (out, None) -> DecodeStream key partition (fun _ => false) s = (out, None).
Proof.
  unfold DecodeStream. destruct (length key =? 32)%nat; [|done].
  generalize (S (length (bytes s))) as fuel, 0 as index. intros fuel. revert s out.
  induction fuel as [|fuel IH]; intros s out index HD; [done|]. cbn [decode_loop] in *.
  destruct (ReadFull 4 (bytes s)) as [hd rest]. destruct (length hd <? 4)%nat; [done|].
  destruct (be_word hd <? _); [done|]. destruct (maxFramePayloadBytes <? _); [done|].
  destruct (ReadFull _ rest) as [p r]. destruct (_ <? _); [done|].
  destruct (Open _ _ _ _); [|done]. destruct (wf index); [done|].
  destruct (decode_loop key partition wf fuel _ _) as [o e] eqn:E. simplify_eq.
  by rewrite (IH _ _ _ E).
Qed.

Lemma DecodeStream_no_faults key partition wf s :
  (forall i, wf i = false) -> DecodeStream key partition wf s = DecodeStream key partition (fun _ => false) s.
Proof.
  intros Hwf. unfold DecodeStream. destruct (length key =? 32)%nat; [|done].
  generalize (S (length (bytes s))) as fuel, 0 as index. intros fuel. revert s.
  induction fuel as [|fuel IH]; intros s index; [done|]. cbn [decode_loop].
  destruct (ReadFull 4 (bytes s)) as [hd rest]. destruct (length hd <? 4)%nat; [done|].
  destruct (be_word hd <? _); [done|]. destruct (maxFramePayloadBytes <? _); [done|].
  destruct (ReadFull _ rest) as [p r]. destruct (_ <? _); [done|].
  destruct (Open _ _ _ _); [|done]. by rewrite Hwf, IH.
Qed.

Lemma DownloadAndDecrypt_archived dir e r w w' path : archived (objs w) y m dek rows ->
  GetDEK y m (keys w) = Ok dek -> fetched r ->
  DownloadAndDecrypt dir e y m (fm_ParquetKey r) (fm_SourcePartition r) (fm_EncFormat r) (fm_KEKHint r) w = (w', Ok path) ->
  path = plaintext_path dir y m /\ scratch w' !! path = Some (parquet_write rows).
Proof.
  intros (cipher & ts & Hp & _ & _ & _ & _ & Hk & _ & _ & Hdec) Hd (bw & ->) HD.
  cbn [fm_ParquetKey fm_SourcePartition fm_EncFormat fm_KEKHint] in HD. unfold DownloadAndDecrypt in HD.
  apply bind_ok in HD as (w1 & [] & H1 & HD). rewrite bool_decide_true in H1 by done. injection H1 as <-.
  apply bind_ok in HD as (w2 & dek' & H2 & HD). unfold get_dek in H2. rewrite Hd in H2. injection H2 as <- <-.
  apply bind_ok in HD as (w3 & [] & H3 & HD). rewrite bool_decide_true in H3 by done. injection H3 as <-.
  apply bind_ok in HD as (w4 & body & H4 & HD). unfold on_store in H4.
  pose proof (Download_law (archivedParquetKey y m) (store w)) as Hl.
  destruct (Download _ (store w)) as [o [body'|e']]; [|done]. injection H4 as <- <-.
  destruct Hl as (_ & _ & data & Hl & Hb). unfold objs in Hp. rewrite Hp in Hl. injection Hl as <-.
  apply bind_ok in HD as (w5 & [] & H5 & HD). unfold require in H5. destruct (create_fails e); [done|].
  injection H5 as <-.
  destruct (DecodeStream (Bytes dek) _ (write_fails e) body') as [out [de|]] eqn:ED; [done|].
  destruct (close_fails e); [done|]. injection HD as <- <-. split; [done|]. cbn [scratch].
  rewrite lookup_insert_eq. f_equal. apply DecodeStream_write_fails in ED. pose proof ED as ED'.
  unfold DecodeStream in ED'. rewrite Hk in ED'. cbn [Nat.eqb] in ED'. apply decode_inv in ED' as [Hbr _]; [|done].
  destruct body' as [l br]. cbn [broken bytes] in *. subst br. rewrite (Hb eq_refl) in ED. congruence.
Qed.

(** *** Reliable stores *)
Class ReliableStore : Prop := {
  GetBytes_reliable : forall key (o : O) data, objects_of o !! key = Some data -> GetBytes key o = (o, Ok data);
  Download_reliable : forall key (o : O) data, objects_of o !! key = Some data ->
    Download key o = (o, Ok (mkStream data false)) }.
Context `{!ReliableStore}.

Lemma FetchManifest_succeeds w : archived (objs w) y m dek rows ->
  exists r, FetchManifest y m w = (w, Ok r) /\ fetched r.
Proof.
  intros (cipher & ts & _ & Hm & _ & Hts & Hka & _ & Hn & Hc & _). unfold FetchManifest.
  rewrite (GetBytes_reliable _ _ _ Hm), l2s_s2l, manifest_decode_json by (by apply archived_manifest_ok).
  cbn [SourcePartition SchemaVersion RowCount BytesWritten m_KEKHint EncFormat ChecksumAlg].
  rewrite bool_decide_true by done. destruct w. eexists. split; [reflexivity|]. eexists; reflexivity.
Qed.

Lemma VerifyChecksum_succeeds w : archived (objs w) y m dek rows ->
  VerifyChecksum (archivedParquetKey y m) (archivedSidecarKey y m ".checksum.sha256") w = (w, Ok tt).
Proof.
  intros (cipher & ts & Hp & _ & Hsum & _). unfold VerifyChecksum, bind, on_store.
  rewrite (GetBytes_reliable _ _ _ Hsum). cbn [store]. rewrite (Download_reliable _ _ _ Hp).
  unfold require. cbn [broken bytes negb ret]. rewrite l2s_s2l, TrimSpace_hex, bool_decide_true by done.
  by destruct w.
Qed.

Lemma DownloadAndDecrypt_succeeds dir e r w : archived (objs w) y m dek rows ->
  GetDEK y m (keys w) = Ok dek -> fetched r ->
  create_fails e = false -> (forall i, write_fails e i = false) -> close_fails e = false ->
  DownloadAndDecrypt dir e y m (fm_ParquetKey r) (fm_SourcePartition r) (fm_EncFormat r) (fm_KEKHint r) w =
  (mkWorld (archiver w) (store w) (keys w) (restorer w)
     (<[plaintext_path dir y m := parquet_write rows]> (scratch w)), Ok (plaintext_path dir y m)).
Proof.
  intros (cipher & ts & Hp & _ & _ & _ & _ & Hk & _ & _ & Hdec) Hd (bw & ->) Hcr Hwf Hcl.
  cbn [fm_ParquetKey fm_SourcePartition fm_EncFormat fm_KEKHint].
  unfold DownloadAndDecrypt, bind, require, get_dek, on_store, set_scratch.
  rewrite bool_decide_true by done. cbn [ret]. rewrite Hd. rewrite bool_decide_true by done. cbn [ret].
  rewrite (Download_reliable _ _ _ Hp), Hcr. cbn [negb ret].
  rewrite (DecodeStream_no_faults _ _ _ _ Hwf), Hdec, Hcl. done.
Qed.
End restore.
End effects.
