(* ===== verification/BillingTables.v ===== *)
(** * The billing tables: partitions, archiver and restorer

    [plane/data/store/billing]: archiver_postgres.go, restorer_postgres.go,
    postgres.go and the stubs archiver_stub.go, restorer_stub.go, stub.go.
    The database is the set of tables of schema [billing]; the SQL statements
    act on it as PostgreSQL documents, and any of them may fail. *)

From S2P Require Import Prelude GoStd GoFmt GoTime Sha256 ArchiveFrames Actions Temporal ObjectStore Archive.

(** ** The database *)

Inductive partition_state := Attached | DetachPending | Standalone.
#[export] Instance partition_state_eq_dec : EqDecision partition_state.
Proof. solve_decision. Defined.

Record table := mkTable {
  t_rows : list UsageEventRow;
  t_state : partition_state;
  t_bounds : option (Z * Z);       (* days: FROM, TO *)
  t_sealed : bool }.

(** What becomes of a statement: executed, failed before any effect, cut off
    in the middle (only [DETACH ... CONCURRENTLY] has a middle), or executed
    with its reply lost. *)
Inductive sql_fate := Executed | NotExecuted | Interrupted | ReplyLost.

Record db := mkDb { tables_of : gmap string table; fates : list sql_fate }.

(** One statement: [mid] is its effect when interrupted. *)
Definition statement_mid {X} (mid : gmap string table -> gmap string table)
    (f : gmap string table -> option (gmap string table * X)) (d : db) : db * result unit X :=
  let rest := tail (fates d) in
  let ts := tables_of d in
  match default Executed (head (fates d)) with
  | NotExecuted => (mkDb ts rest, Err tt)
  | Interrupted => (mkDb (mid ts) rest, Err tt)
  | Executed => match f ts with Some (ts', x) => (mkDb ts' rest, Ok x) | None => (mkDb ts rest, Err tt) end
  | ReplyLost => match f ts with Some (ts', _) => (mkDb ts' rest, Err tt) | None => (mkDb ts rest, Err tt) end
  end.
Definition statement {X} : (gmap string table -> option (gmap string table * X)) -> db -> db * result unit X :=
  statement_mid (fun ts => ts).

Definition partition_table (year month : Z) : string := "usage_events_" +:+ partition_id year month.
Definition quarantine_table (year month : Z) : string := "usage_events_restore_" +:+ partition_id year month.

Definition set_state (s : partition_state) (t : table) : table := mkTable (t_rows t) s (t_bounds t) (t_sealed t).

(** ** PostgresArchiver *)

Definition probe_inherits (name : string) (ts : gmap string table) : option (gmap string table * (bool * bool)) :=
  Some (ts, match ts !! name with
            | Some t => (negb (bool_decide (t_state t = Standalone)), bool_decide (t_state t = DetachPending))
            | None => (false, false)
            end).
Definition detach_finalize (name : string) (ts : gmap string table) : option (gmap string table * unit) :=
  match ts !! name with
  | Some t => if decide (t_state t = DetachPending) then Some (<[name := set_state Standalone t]> ts, tt) else None
  | None => None
  end.
Definition detach_concurrently (name : string) (ts : gmap string table) : option (gmap string table * unit) :=
  match ts !! name with
  | Some t => if decide (t_state t = Attached) then Some (<[name := set_state Standalone t]> ts, tt) else None
  | None => None
  end.
(** The first of the two transactions of [CONCURRENTLY]. *)
Definition detach_half (name : string) (ts : gmap string table) : gmap string table :=
  match ts !! name with
  | Some t => if decide (t_state t = Attached) then <[name := set_state DetachPending t]> ts else ts
  | None => ts
  end.

Definition pg_Detach (year month : Z) (d : db) : db * result unit unit :=
  let name := partition_table year month in
  match statement (probe_inherits name) d with
  | (d1, Err e) => (d1, Err e)
  | (d1, Ok (attached, pending)) =>
      if negb attached then (d1, Ok tt)
      else if pending then statement (detach_finalize name) d1
      else statement_mid (detach_half name) (detach_concurrently name) d1
  end.

Definition pg_Drop (year month : Z) (d : db) : db * result unit unit :=
  statement (fun ts => Some (delete (partition_table year month) ts, tt)) d.

(** [ORDER BY ts, id]. *)
Definition row_le (a b : UsageEventRow) : Prop :=
  Ts a < Ts b \/ (Ts a = Ts b /\ String.leb (ID a) (ID b) = true).
#[export] Instance row_le_dec a b : Decision (row_le a b).
Proof. unfold row_le. apply _. Defined.
Definition ordered_rows (rows : list UsageEventRow) : list UsageEventRow := merge_sort row_le rows.

(** A scan that is interrupted ends its cursor with an error, after half of
    the rows. *)
Definition pg_Scan (year month : Z) (d : db) : db * result unit Cursor :=
  let rest := tail (fates d) in
  match tables_of d !! partition_table year month, default Executed (head (fates d)) with
  | Some t, Executed => (mkDb (tables_of d) rest, Ok (mkCursor (ordered_rows (t_rows t)) false))
  | Some t, Interrupted =>
      (mkDb (tables_of d) rest,
       Ok (mkCursor (take (length (t_rows t) / 2) (ordered_rows (t_rows t))) true))
  | _, _ => (mkDb (tables_of d) rest, Err tt)
  end.

#[export] Instance PostgresArchiver : Archiver db := {
  DetachUsageEventsPartition := pg_Detach; DropUsageEventsPartition := pg_Drop; ScanPartitionRows := pg_Scan }.

(** ** PostgresRestorer *)

Section restorer.
Context `{Parquet} (accepts : UsageEventRow -> bool).   (* the columns' types accept the row *)

Definition create_quarantine (name : string) (ts : gmap string table) : option (gmap string table * unit) :=
  match ts !! name with
  | Some _ => Some (ts, tt)
  | None => Some (<[name := mkTable [] Standalone None false]> ts, tt)
  end.
Definition copy_from (name : string) (rows : list UsageEventRow) (ts : gmap string table)
  : option (gmap string table * Z) :=
  match ts !! name with
  | Some t => if forallb accepts rows
              then Some (<[name := mkTable (t_rows t ++ rows) (t_state t) (t_bounds t) (t_sealed t)]> ts,
                         Z.of_nat (length rows))
              else None
  | None => None
  end.
Definition revoke (name : string) (ts : gmap string table) : option (gmap string table * unit) :=
  match ts !! name with
  | Some t => Some (<[name := mkTable (t_rows t) (t_state t) (t_bounds t) true]> ts, tt)
  | None => None
  end.

Definition pg_Ensure (year month : Z) (d : db) : db * result unit string :=
  if (year <? 2026) || (2099 <? year) then (d, Err tt)
  else if (month <? 1) || (12 <? month) then (d, Err tt)
  else
    let '(d', res) := statement (create_quarantine (quarantine_table year month)) d in
    (d', match res with Ok _ => Ok ("billing." +:+ quarantine_table year month) | Err e => Err e end).

Definition pg_Load (year month : Z) (src : list ascii) (d : db) : db * result unit Z :=
  match parquet_read src with
  | None => (d, Err tt)
  | Some rows => statement (copy_from (quarantine_table year month) rows) d
  end.

Definition pg_Seal (year month : Z) (d : db) : db * result unit unit :=
  statement (revoke (quarantine_table year month)) d.
Definition pg_DropQuarantine (year month : Z) (d : db) : db * result unit unit :=
  statement (fun ts => Some (delete (quarantine_table year month) ts, tt)) d.

#[export] Instance PostgresRestorer : Restorer db := {
  EnsureQuarantineTable := pg_Ensure; LoadParquetIntoQuarantine := pg_Load;
  SealQuarantineTable := pg_Seal; DropQuarantineTable := pg_DropQuarantine }.
End restorer.

(** ** PostgresPartitioner *)

(** [startDate] and [endDate] as day numbers. *)
Definition partition_bounds (year month : Z) : Z * Z :=
  let '(nextYear, nextMonth) := next_month year month in
  (days_from_civil year month 1, days_from_civil nextYear nextMonth 1).

Definition create_partition (name : string) (bounds : Z * Z) (ts : gmap string table)
  : option (gmap string table * bool) :=
  match ts !! name with
  | Some _ => Some (ts, false)
  | None => Some (<[name := mkTable [] Attached (Some bounds) false]> ts, true)
  end.

(** The advisory lock makes probe and creation one statement. *)
Definition CreateUsageEventsPartition (year month : Z) (d : db) : db * result unit bool :=
  if (year <? 2026) || (2099 <? year) then (d, Err tt)
  else if (month <? 1) || (12 <? month) then (d, Err tt)
  else statement (create_partition (partition_table year month) (partition_bounds year month)) d.

(** ** Stubs *)

Record StubArchiver := mkStubArchiver {
  detached : gset string;
  dropped : gset string;
  sa_rows : gmap string (list UsageEventRow);
  DetachFn : option (Z -> Z -> bool);        (* [true]: the injected error *)
  DropFn : option (Z -> Z -> bool) }.

Definition partitionKey (year month : Z) : string := partition_id year month.
Definition injected (fn : option (Z -> Z -> bool)) (year month : Z) : bool :=
  match fn with Some f => f year month | None => false end.

Definition NewStubArchiver : StubArchiver := mkStubArchiver ∅ ∅ ∅ None None.
Definition SetRows (year month : Z) (rows : list UsageEventRow) (s : StubArchiver) : StubArchiver :=
  mkStubArchiver (detached s) (dropped s) (<[partitionKey year month := rows]> (sa_rows s)) (DetachFn s) (DropFn s).

#[export] Instance stub_archiver : Archiver StubArchiver := {
  DetachUsageEventsPartition year month s :=
    if injected (DetachFn s) year month then (s, Err tt)
    else (mkStubArchiver ({[partitionKey year month]} ∪ detached s) (dropped s) (sa_rows s) (DetachFn s) (DropFn s), Ok tt);
  DropUsageEventsPartition year month s :=
    if injected (DropFn s) year month then (s, Err tt)
    else (mkStubArchiver (detached s) ({[partitionKey year month]} ∪ dropped s) (sa_rows s) (DetachFn s) (DropFn s), Ok tt);
  ScanPartitionRows year month s :=
    (s, Ok (mkCursor (default [] (sa_rows s !! partitionKey year month)) false)) }.

Record StubPartitioner := mkStubPartitioner { created : gmap string Z; createFn : option (Z -> Z -> bool) }.
Definition stub_CreateUsageEventsPartition (year month : Z) (s : StubPartitioner) : StubPartitioner * result unit bool :=
  if injected (createFn s) year month then (s, Err tt)
  else
    let key := partition_table year month in
    let count := default 0 (created s !! key) in
    (mkStubPartitioner (<[key := wrap64 (count + 1)]> (created s)) (createFn s), Ok (count =? 0)).

Record StubRestorer := mkStubRestorer {
  sr_created : gset string; sr_sealed : gset string; sr_dropped : gset string;
  loadedRows : gmap string Z;
  rowReader : option (Z -> Z -> list ascii -> option Z);
  EnsureFn : option (Z -> Z -> bool);
  LoadFn : option (Z -> Z -> list ascii -> option Z);
  SealFn : option (Z -> Z -> bool);
  rDropFn : option (Z -> Z -> bool) }.

#[export] Instance stub_restorer : Restorer StubRestorer := {
  EnsureQuarantineTable year month s :=
    if injected (EnsureFn s) year month then (s, Err tt)
    else (mkStubRestorer ({[partitionKey year month]} ∪ sr_created s) (sr_sealed s) (sr_dropped s) (loadedRows s)
            (rowReader s) (EnsureFn s) (LoadFn s) (SealFn s) (rDropFn s), Ok (QuarantineTableName year month));
  LoadParquetIntoQuarantine year month r s :=
    match LoadFn s with
    | Some f => (s, match f year month r with Some n => Ok n | None => Err tt end)
    | None =>
        match rowReader s with
        | Some f =>
            match f year month r with
            | Some n => (mkStubRestorer (sr_created s) (sr_sealed s) (sr_dropped s)
                (<[partitionKey year month := n]> (loadedRows s))
                (rowReader s) (EnsureFn s) (LoadFn s) (SealFn s) (rDropFn s), Ok n)
            | None => (s, Err tt)
            end
        | None => (s, Ok 0)
        end
    end;
  SealQuarantineTable year month s :=
    if injected (SealFn s) year month then (s, Err tt)
    else (mkStubRestorer (sr_created s) ({[partitionKey year month]} ∪ sr_sealed s) (sr_dropped s) (loadedRows s)
            (rowReader s) (EnsureFn s) (LoadFn s) (SealFn s) (rDropFn s), Ok tt);
  DropQuarantineTable year month s :=
    if injected (rDropFn s) year month then (s, Err tt)
    else (mkStubRestorer (sr_created s) (sr_sealed s) ({[partitionKey year month]} ∪ sr_dropped s) (loadedRows s)
            (rowReader s) (EnsureFn s) (LoadFn s) (SealFn s) (rDropFn s), Ok tt) }.

(** ** The archiver keeps its contract *)

Lemma partition_table_inj y1 m1 y2 m2 : partition_table y1 m1 = partition_table y2 m2 -> y1 = y2 /\ m1 = m2.
Proof.
  intros E. apply (f_equal s2l) in E. unfold partition_table in E. rewrite !s2l_app in E.
  apply app_inv_head, s2l_inj in E. by apply partition_id_inj.
Qed.

(** Quarantine tables live outside the names of partitions. *)
Lemma quarantine_not_partition y1 m1 y2 m2 : quarantine_table y1 m1 <> partition_table y2 m2.
Proof.
  intros E. apply (f_equal s2l) in E. unfold quarantine_table, partition_table, partition_id in E.
  rewrite !s2l_app in E. change (s2l "usage_events_restore_") with (s2l "usage_events_" ++ s2l "restore_") in E.
  rewrite <- app_assoc in E. apply app_inv_head in E.
  destruct (Z.lt_ge_cases y2 0) as [H|H].
  - destruct (fmt_0d_neg 4 y2 H) as (ds & E2 & _). rewrite E2 in E. discriminate E.
  - destruct (fmt_0d_digits 4 y2 H) as (ds & E2 & Hd & Hn & _). rewrite E2 in E.
    destruct Hd as [|c ds Hc Hd]; [done|]. cbn in E. injection E as <- _. done.
Qed.

Definition rows_of (ts : gmap string table) (name : string) : option (list UsageEventRow) := t_rows <$> ts !! name.

(** A statement whose effects keep a property of the tables keeps it, however
    it ends. *)
Lemma statement_mid_inv {X} (P : gmap string table -> Prop) mid (f : _ -> option (_ * X)) d :
  P (tables_of d) -> P (mid (tables_of d)) ->
  (forall ts' x, f (tables_of d) = Some (ts', x) -> P ts') -> P (tables_of (statement_mid mid f d).1).
Proof.
  intros H1 H2 H3. unfold statement_mid.
  destruct (default Executed (head (fates d))); try done;
    destruct (f (tables_of d)) as [[ts' x]|] eqn:E; cbn [tables_of fst]; eauto.
Qed.

Lemma statement_inv {X} (P : gmap string table -> Prop) (f : _ -> option (_ * X)) d :
  P (tables_of d) -> (forall ts' x, f (tables_of d) = Some (ts', x) -> P ts') -> P (tables_of (statement f d).1).
Proof. intros Hd Hf. unfold statement. by apply (statement_mid_inv P). Qed.

Lemma statement_ok {X} (f : _ -> option (_ * X)) d d' x :
  statement f d = (d', Ok x) -> f (tables_of d) = Some (tables_of d', x).
Proof.
  unfold statement, statement_mid. destruct (default Executed (head (fates d))); try done;
    destruct (f (tables_of d)) as [[ts' x']|] eqn:E; intros; by simplify_eq.
Qed.

Lemma rows_of_set_state ts name s t k :
  ts !! name = Some t -> rows_of (<[name := set_state s t]> ts) k = rows_of ts k.
Proof.
  intros Ht. unfold rows_of. destruct (decide (k = name)) as [->|Hk].
  - by rewrite lookup_insert_eq, Ht.
  - by rewrite lookup_insert_ne.
Qed.

Lemma pg_Detach_rows y m d k : rows_of (tables_of (pg_Detach y m d).1) k = rows_of (tables_of d) k.
Proof.
  unfold pg_Detach. set (name := partition_table y m).
  assert (Hp : rows_of (tables_of (statement (probe_inherits name) d).1) k = rows_of (tables_of d) k).
  { apply (statement_inv (fun ts => rows_of ts k = rows_of (tables_of d) k)); [done|].
    unfold probe_inherits. by intros ts' x [= <- _]. }
  destruct (statement (probe_inherits name) d) as [d1 [[attached pending]|]]; cbn [fst] in *; [|done].
  destruct attached; cbn [negb]; [|done]. destruct pending.
  - apply (statement_inv (fun ts => rows_of ts k = rows_of (tables_of d) k)); [done|]. intros ts' x E.
    unfold detach_finalize in E. destruct (tables_of d1 !! name) as [t|] eqn:Et; [|done].
    destruct (decide _); [|done]. simplify_eq. by rewrite rows_of_set_state.
  - apply (statement_mid_inv (fun ts => rows_of ts k = rows_of (tables_of d) k)); [done|..].
    + unfold detach_half. destruct (tables_of d1 !! name) as [t|] eqn:Et; [|done].
      destruct (decide _); [|done]. by rewrite rows_of_set_state.
    + intros ts' x E. unfold detach_concurrently in E. destruct (tables_of d1 !! name) as [t|] eqn:Et; [|done].
      destruct (decide _); [|done]. simplify_eq. by rewrite rows_of_set_state.
Qed.

Definition pg_partition_rows (d : db) (k : Z * Z) : option (list UsageEventRow) :=
  ordered_rows <$> rows_of (tables_of d) (partition_table k.1 k.2).

#[export, refine] Instance PostgresArchiver_laws : ArchiverLaws db := { partition_rows := pg_partition_rows }.
Proof.
  - intros y m d k. unfold pg_partition_rows. cbn [DetachUsageEventsPartition PostgresArchiver]. by rewrite pg_Detach_rows.
  - intros y m d. cbn [DropUsageEventsPartition PostgresArchiver]. unfold pg_Drop.
    destruct (statement _ d) as [d' res] eqn:E. split.
    + intros [y' m'] Hk. unfold pg_partition_rows. cbn [fst snd]. f_equal.
      pose proof (statement_inv (fun ts => rows_of ts (partition_table y' m') = rows_of (tables_of d) (partition_table y' m'))
        (fun ts => Some (delete (partition_table y m) ts, tt)) d eq_refl) as Hi.
      rewrite E in Hi. apply Hi. intros ts' x [= <- _]. unfold rows_of. rewrite lookup_delete_ne; [done|].
      intros En. apply partition_table_inj in En as [-> ->]. done.
    + pose proof (statement_inv (fun ts => rows_of ts (partition_table y m) = None \/
          rows_of ts (partition_table y m) = rows_of (tables_of d) (partition_table y m))
        (fun ts => Some (delete (partition_table y m) ts, tt)) d (or_intror eq_refl)) as Hi.
      rewrite E in Hi. cbn [fst] in Hi. unfold pg_partition_rows. cbn [fst snd]. destruct res as [[]|].
      * apply statement_ok in E. injection E as <-. unfold rows_of. by rewrite lookup_delete_eq.
      * destruct Hi as [-> | ->]; [|by left|by right]. intros ts' x [= <- _]. left. unfold rows_of. by rewrite lookup_delete_eq.
  - intros y m d. cbn [ScanPartitionRows PostgresArchiver]. unfold pg_Scan, pg_partition_rows, rows_of.
    destruct (tables_of d !! partition_table y m) as [t|] eqn:Et; [|done].
    destruct (default Executed (head (fates d))); cbn [tables_of]; split; try done.
    intros _. cbn [fst snd cursor_rows]. by rewrite Et.
Defined.

(** ** The restorer keeps to the quarantine tables *)

Section restorer_laws.
Context `{Parquet} (accepts : UsageEventRow -> bool).

Lemma restorer_isolated (y m y' m' : Z) (src : list ascii) (d : db) :
  let t := partition_table y' m' in
  tables_of (pg_Ensure y m d).1 !! t = tables_of d !! t /\
  tables_of (pg_Load accepts y m src d).1 !! t = tables_of d !! t /\
  tables_of (pg_Seal y m d).1 !! t = tables_of d !! t /\
  tables_of (pg_DropQuarantine y m d).1 !! t = tables_of d !! t.
Proof.
  intros t. assert (Hne : quarantine_table y m <> t) by apply quarantine_not_partition.
  set (P := fun ts : gmap string table => ts !! t = tables_of d !! t). split_and!.
  - unfold pg_Ensure. destruct (_ || _); [done|]. destruct (_ || _); [done|].
    pose proof (statement_inv P (create_quarantine (quarantine_table y m)) d eq_refl) as Hi.
    destruct (statement _ d) as [d' res]. apply Hi. intros ts' x. unfold create_quarantine, P.
    case_match; intros; simplify_eq; [done|by rewrite lookup_insert_ne].
  - unfold pg_Load. destruct (parquet_read src) as [rows|]; [|done]. apply (statement_inv P); [done|].
    intros ts' x. unfold copy_from, P. repeat case_match; intros; simplify_eq. by rewrite lookup_insert_ne.
  - apply (statement_inv P); [done|]. intros ts' x. unfold revoke, P.
    case_match; intros; simplify_eq. by rewrite lookup_insert_ne.
  - apply (statement_inv P); [done|]. intros ts' x [= <- _]. unfold P. by rewrite lookup_delete_ne.
Qed.

(** One load of a restored file appends its rows to what the quarantine table
    holds, nothing when there is none yet, and seals it. *)
Definition quarantine_held (y m : Z) (ts : gmap string table) : table :=
  default (mkTable [] Standalone None false) (ts !! quarantine_table y m).
Lemma pg_Ensure_succeeds y m ts : 2026 <= y <= 2099 -> 1 <= m <= 12 ->
  pg_Ensure y m (mkDb ts []) = (mkDb (<[quarantine_table y m := quarantine_held y m ts]> ts) [], Ok (QuarantineTableName y m)).
Proof.
  intros Hy Hm. unfold pg_Ensure. rewrite !(proj2 (Z.ltb_ge _ _)) by lia. cbn [orb].
  unfold statement, statement_mid, create_quarantine. cbn [fates tables_of head tail default].
  unfold id, quarantine_held. destruct (ts !! quarantine_table y m) as [t|] eqn:Hq; [|done]. cbn. by rewrite insert_id.
Qed.

Lemma pg_Load_succeeds y m ts rows t : parquet_read (parquet_write rows) = Some rows -> forallb accepts rows = true ->
  ts !! quarantine_table y m = Some t ->
  pg_Load accepts y m (parquet_write rows) (mkDb ts []) =
  (mkDb (<[quarantine_table y m := mkTable (t_rows t ++ rows) (t_state t) (t_bounds t) (t_sealed t)]> ts) [],
   Ok (Z.of_nat (length rows))).
Proof.
  intros Hr Ha Hq. unfold pg_Load. rewrite Hr. unfold statement, statement_mid, copy_from.
  cbn [fates tables_of head tail default]. unfold id. by rewrite Hq, Ha.
Qed.

Lemma pg_Seal_succeeds y m ts t : ts !! quarantine_table y m = Some t ->
  pg_Seal y m (mkDb ts []) =
  (mkDb (<[quarantine_table y m := mkTable (t_rows t) (t_state t) (t_bounds t) true]> ts) [], Ok tt).
Proof.
  intros Hq. unfold pg_Seal, statement, statement_mid, revoke. cbn [fates tables_of head tail default]. unfold id.
  by rewrite Hq.
Qed.
End restorer_laws.

(** ** The partitioner *)

(** The bounds of consecutive months meet, and the first 28 days of a month
    lie within its bounds. *)
Lemma partition_bounds_meet y m :
  (partition_bounds y m).2 = (partition_bounds (next_month y m).1 (next_month y m).2).1.
Proof. unfold partition_bounds. by destruct (next_month y m), (next_month _ _). Qed.

Lemma partition_bounds_month y m d : 1 <= m <= 12 -> 1 <= d <= 28 ->
  (partition_bounds y m).1 <= days_from_civil y m d < (partition_bounds y m).2.
Proof.
  intros Hm Hd. pose proof (next_month_later y m Hm). unfold partition_bounds.
  destruct (next_month y m) as [y' m']. cbn [fst snd] in *. rewrite (days_in_month y m d). lia.
Qed.
