(* ===== verification/AppClient.v ===== *)
(** * The workflow plane's view of the billing service

    [plane/workflow/appclient/billing.go]: the interface [BillingClient] with
    what the archive relies on, and the recording stub. *)

From S2P Require Import Prelude GoStd Floats.

Record PartitionArchivedInput := mkArchivedInput {
  pa_Year : Z; pa_Month : Z; pa_PartitionName : string;
  pa_LakeURI : string; pa_RowCount : Z; pa_BytesWritten : Z }.

Record DEKDestroyedInput := mkDestroyedInput {
  dd_Year : Z; dd_Month : Z; dd_PartitionName : string; dd_KEKHint : string; dd_VaultKeyVersion : Z }.

Record QuotaAccountView := mkQuotaView {
  q_AccountID : uuid; q_OrgID : uuid; q_PlanTier : string;
  q_TokensPerWeekCap : Z; q_ComputeMinutesPerMonthCap : Z; q_StorageGBCap : Z }.

Inductive client_error := ErrQuotaAccountNotFound | ErrCall.

#[export] Instance client_error_eq_dec : EqDecision client_error.
Proof. solve_decision. Defined.

Class BillingClient (B : Type) := {
  RecordPartitionArchived : PartitionArchivedInput -> B -> B * result client_error unit;
  RecordDEKDestroyed : DEKDestroyedInput -> B -> B * result client_error unit }.

(** A call that succeeds has left its record, and records stay. *)
Class BillingClientLaws (B : Type) `{BillingClient B} := {
  archive_recorded : B -> Z -> Z -> string -> Prop;
  destruction_recorded : B -> Z -> Z -> string -> string -> Prop;
  RecordPartitionArchived_law : forall i b,
    (RecordPartitionArchived i b).2 = Ok tt ->
    archive_recorded (RecordPartitionArchived i b).1 (pa_Year i) (pa_Month i) (pa_PartitionName i);
  RecordDEKDestroyed_law : forall i b,
    (RecordDEKDestroyed i b).2 = Ok tt ->
    destruction_recorded (RecordDEKDestroyed i b).1 (dd_Year i) (dd_Month i) (dd_PartitionName i) (dd_KEKHint i);
  archive_recorded_stays : forall y m p b, archive_recorded b y m p ->
    (forall i, archive_recorded (RecordPartitionArchived i b).1 y m p) /\
    (forall i, archive_recorded (RecordDEKDestroyed i b).1 y m p);
  destruction_recorded_stays : forall y m p h b, destruction_recorded b y m p h ->
    (forall i, destruction_recorded (RecordPartitionArchived i b).1 y m p h) /\
    (forall i, destruction_recorded (RecordDEKDestroyed i b).1 y m p h) }.

(** ** StubBillingClient *)

(** [ciCalls] are the recorded CI inputs; the injected functions answer
    [true] for an error. *)
Record CIJobCompletedInput := mkCIJob {
  ci_JobID : uuid; ci_PrincipalID : uuid; ci_PrincipalKind : string; ci_OrgID : uuid; ci_RepoID : uuid;
  ci_Tier : string; ci_VCPUSeconds : float; ci_MemoryMBSeconds : float; ci_EgressKB : Z; ci_ExitCode : Z }.

Record StubBillingClient := mkStubBilling {
  calls : list PartitionArchivedInput;
  dekCalls : list DEKDestroyedInput;
  ciCalls : list CIJobCompletedInput;
  quota : gmap uuid QuotaAccountView;
  fn : option (PartitionArchivedInput -> bool);
  dekFn : option (DEKDestroyedInput -> bool);
  ciFn : option (CIJobCompletedInput -> bool);
  quotaErrFn : option (uuid -> bool) }.

Definition NewStubBillingClient : StubBillingClient := mkStubBilling [] [] [] ∅ None None None None.

Definition fails {X} (f : option (X -> bool)) (x : X) : bool := match f with Some g => g x | None => false end.

Definition stub_RecordPartitionArchived (i : PartitionArchivedInput) (s : StubBillingClient)
  : StubBillingClient * result client_error unit :=
  if fails (fn s) i then (s, Err ErrCall)
  else (mkStubBilling (calls s ++ [i]) (dekCalls s) (ciCalls s) (quota s) (fn s) (dekFn s) (ciFn s) (quotaErrFn s), Ok tt).

Definition stub_RecordDEKDestroyed (i : DEKDestroyedInput) (s : StubBillingClient)
  : StubBillingClient * result client_error unit :=
  if fails (dekFn s) i then (s, Err ErrCall)
  else (mkStubBilling (calls s) (dekCalls s ++ [i]) (ciCalls s) (quota s) (fn s) (dekFn s) (ciFn s) (quotaErrFn s), Ok tt).

Definition stub_RecordCIJobCompleted (i : CIJobCompletedInput) (s : StubBillingClient)
  : StubBillingClient * result client_error unit :=
  if fails (ciFn s) i then (s, Err ErrCall)
  else (mkStubBilling (calls s) (dekCalls s) (ciCalls s ++ [i]) (quota s) (fn s) (dekFn s) (ciFn s) (quotaErrFn s), Ok tt).

Definition stub_SetQuotaFor (orgID : uuid) (q : QuotaAccountView) (s : StubBillingClient) : StubBillingClient :=
  mkStubBilling (calls s) (dekCalls s) (ciCalls s) (<[orgID := q]> (quota s)) (fn s) (dekFn s) (ciFn s) (quotaErrFn s).

Definition stub_GetQuotaAccount (orgID : uuid) (s : StubBillingClient) : result client_error QuotaAccountView :=
  if fails (quotaErrFn s) orgID then Err ErrCall
  else match quota s !! orgID with Some q => Ok q | None => Err ErrQuotaAccountNotFound end.

#[export] Instance stub_client : BillingClient StubBillingClient := {
  RecordPartitionArchived := stub_RecordPartitionArchived;
  RecordDEKDestroyed := stub_RecordDEKDestroyed }.

#[export, refine] Instance stub_client_laws : BillingClientLaws StubBillingClient := {
  archive_recorded s y m p := Exists (fun i => (pa_Year i, pa_Month i, pa_PartitionName i) = (y, m, p)) (calls s);
  destruction_recorded s y m p h :=
    Exists (fun i => (dd_Year i, dd_Month i, dd_PartitionName i, dd_KEKHint i) = (y, m, p, h)) (dekCalls s) }.
Proof.
  all: simpl; unfold stub_RecordPartitionArchived, stub_RecordDEKDestroyed.
  - intros i b. destruct (fails (fn b) i); [done|]. intros _. simpl. apply Exists_app. right. by constructor.
  - intros i b. destruct (fails (dekFn b) i); [done|]. intros _. simpl. apply Exists_app. right. by constructor.
  - intros y m p b Hb. split; intros i.
    + destruct (fails (fn b) i); [done|]. simpl. apply Exists_app. by left.
    + by destruct (fails (dekFn b) i).
  - intros y m p h b Hb. split; intros i.
    + by destruct (fails (fn b) i).
    + destruct (fails (dekFn b) i); [done|]. simpl. apply Exists_app. by left.
Defined.
