(* ===== verification/RowFile.v ===== *)
(** * A file format for rows

    A stand-in for the Parquet library that satisfies [ParquetLaws]: strings
    are their characters, each behind a mark, up to an end mark.  It shows
    that the hypotheses of the archive theorems can be met, and lets the
    workflows run on concrete rows. *)

From S2P Require Import Prelude GoStd GoFmt Archive.

Definition more : ascii := "+".
Definition stop : ascii := ".".

Definition put_text (l : list ascii) : list ascii := (l ≫= fun c => [more; c]) ++ [stop].
Fixpoint get_text (l : list ascii) : option (list ascii * list ascii) :=
  match l with
  | c :: l' =>
      if decide (c = stop) then Some ([], l')
      else match l' with
           | d :: l'' => match get_text l'' with Some (t, r) => Some (d :: t, r) | None => None end
           | [] => None
           end
  | [] => None
  end.

Definition put_str (s : string) : list ascii := put_text (s2l s).
Definition put_int (z : Z) : list ascii := put_str (Itoa z).
Definition put_opt (o : option string) : list ascii :=
  match o with Some s => more :: put_str s | None => [stop] end.
Definition get_str (l : list ascii) : option (string * list ascii) :=
  '(t, r) ← get_text l; Some (l2s t, r).
Definition get_int (l : list ascii) : option (Z * list ascii) :=
  '(t, r) ← get_str l; z ← Atoi t; Some (z, r).
Definition get_opt (l : list ascii) : option (option string * list ascii) :=
  match l with
  | c :: l' => if decide (c = stop) then Some (None, l') else '(s, r) ← get_str l'; Some (Some s, r)
  | [] => None
  end.

Definition put_row (r : UsageEventRow) : list ascii :=
  put_str (ID r) ++ put_str (AccountID r) ++ put_str (PrincipalID r) ++ put_str (PrincipalType r)
  ++ put_str (Surface r) ++ put_str (CostVector r) ++ put_int (Value r) ++ put_opt (RepoID r)
  ++ put_str (EventSource r) ++ put_opt (ExternalEventID r) ++ put_int (Ts r) ++ put_int (CreatedAt r).

Definition get_row (l : list ascii) : option (UsageEventRow * list ascii) :=
  '(id, l) ← get_str l; '(ac, l) ← get_str l; '(pr, l) ← get_str l; '(pt, l) ← get_str l;
  '(su, l) ← get_str l; '(cv, l) ← get_str l; '(va, l) ← get_int l; '(re, l) ← get_opt l;
  '(es, l) ← get_str l; '(ex, l) ← get_opt l; '(ts, l) ← get_int l; '(ca, l) ← get_int l;
  Some (mkRow id ac pr pt su cv va re es ex ts ca, l).

Definition put_rows (rows : list UsageEventRow) : list ascii := (rows ≫= fun r => more :: put_row r) ++ [stop].
Fixpoint get_rows (fuel : nat) (l : list ascii) : option (list UsageEventRow) :=
  match fuel, l with
  | S fuel', c :: l' =>
      if decide (c = stop) then (if decide (l' = []) then Some [] else None)
      else '(r, l'') ← get_row l'; rows ← get_rows fuel' l''; Some (r :: rows)
  | _, _ => None
  end.

#[export] Instance RowFile : Parquet := {
  parquet_write := put_rows;
  parquet_partial rows := rows ≫= fun r => more :: put_row r;
  parquet_read l := get_rows (length l) l }.

Lemma get_put_text t r : get_text (put_text t ++ r) = Some (t, r).
Proof.
  unfold put_text. induction t as [|c t IH]; [done|]. rewrite <- app_assoc in *. cbn [mbind list_bind app get_text] in *.
  rewrite decide_False by done. by rewrite IH.
Qed.
Lemma get_put_str s r : get_str (put_str s ++ r) = Some (s, r).
Proof. unfold get_str, put_str. rewrite get_put_text. cbn. by rewrite l2s_s2l. Qed.
Lemma get_put_int z r : is_int64 z -> get_int (put_int z ++ r) = Some (z, r).
Proof. intros Hz. unfold get_int, put_int. rewrite get_put_str. cbn. by rewrite Atoi_Itoa. Qed.
Lemma get_put_opt o r : get_opt (put_opt o ++ r) = Some (o, r).
Proof.
  destruct o as [s|]; cbn [put_opt app get_opt]; [|by rewrite decide_True].
  rewrite decide_False by done. by rewrite get_put_str.
Qed.
Lemma get_put_row row r : row_ok row -> get_row (put_row row ++ r) = Some (row, r).
Proof.
  intros (H1 & H2 & H3). unfold get_row, put_row. rewrite <- !app_assoc.
  repeat (rewrite get_put_str; cbn [mbind option_bind]).
  rewrite get_put_int by done. cbn [mbind option_bind]. rewrite get_put_opt. cbn [mbind option_bind].
  rewrite get_put_str. cbn [mbind option_bind]. rewrite get_put_opt. cbn [mbind option_bind].
  rewrite get_put_int by done. cbn [mbind option_bind]. rewrite get_put_int by done. by destruct row.
Qed.

Lemma get_put_rows rows fuel : Forall row_ok rows -> (length rows < fuel)%nat ->
  get_rows fuel (put_rows rows) = Some rows.
Proof.
  intros Hr. revert fuel. unfold put_rows. induction Hr as [|row rows Hrow Hrows IH]; intros fuel Hf;
    (destruct fuel as [|fuel]; [cbn in Hf; lia|]).
  - cbn. done.
  - cbn [mbind list_bind]. rewrite <- app_assoc. cbn [app get_rows]. rewrite decide_False by done.
    rewrite get_put_row by done. cbn [mbind option_bind].
    change (rows ≫= (fun r => more :: put_row r)) with (mbind (M := list) (fun r => more :: put_row r) rows).
    rewrite IH by (cbn in Hf; lia). done.
Qed.

Lemma put_rows_length rows : (length rows < length (put_rows rows))%nat.
Proof.
  unfold put_rows. induction rows as [|r rows IH]; [cbn; lia|].
  cbn [mbind list_bind]. rewrite <- app_assoc. cbn [app length]. rewrite length_app.
  change (list_bind _) with (mbind (M := list) (A := UsageEventRow) (B := ascii)) in *. cbn [mbind] in *. lia.
Qed.

#[export] Instance RowFile_laws : ParquetLaws.
Proof. intros rows Hr. cbn [parquet_read parquet_write RowFile]. apply get_put_rows; [done|apply put_rows_length]. Qed.
