(* ===== verification/ArchiveWorkflow.v ===== *)
(** * Archive and restore workflows

    [plane/workflow/billing]: archive_workflow.go, restore_workflow.go,
    archive_router_workflow.go, workflow.go (rollover), activity.go,
    emit_activity.go and glue_register_activity.go, as sequences of activities
    under the retry policy. *)

From S2P Require Import Prelude GoStd GoFmt GoTime Sha256 JsonDecode AesGcm ArchiveFrames Actions Temporal ObjectStore Archive.
From S2P Require Import BillingTables AppClient RowFile.

(** ** Glue *)

Inductive glue_error := AlreadyExistsException | OtherGlueError.

Record CreatePartitionRequest := mkGlueRequest {
  DatabaseName : string; TableName : string; Values : list string; Location : string;
  InputFormat : string; OutputFormat : string; SerializationLibrary : string }.

(** A catalog keeps the partitions it was given: a successful creation and the
    refusal of an existing one both mean it is there. *)
Class GlueClient (G : Type) := CreatePartition : CreatePartitionRequest -> G -> G * result glue_error unit.
Class GlueLaws (G : Type) `{GlueClient G} := {
  in_catalog : G -> string -> string -> list string -> Prop;
  CreatePartition_law : forall i g,
    (CreatePartition i g).2 <> Err OtherGlueError ->
    in_catalog (CreatePartition i g).1 (DatabaseName i) (TableName i) (Values i);
  in_catalog_stays : forall d t v g, in_catalog g d t v -> forall i, in_catalog (CreatePartition i g).1 d t v }.

Definition parquetInputFormat : string := "org.apache.hadoop.hive.ql.io.parquet.MapredParquetInputFormat".
Definition parquetOutputFormat : string := "org.apache.hadoop.hive.ql.io.parquet.MapredParquetOutputFormat".
Definition parquetSerde : string := "org.apache.hadoop.hive.ql.io.parquet.serde.ParquetHiveSerDe".

(** ** The world of the archive *)

Record plane (A O K R B G : Type) := mkPlane { worker : world A O K R; billing : B; glue : G }.
Arguments mkPlane {A O K R B G}. Arguments worker {A O K R B G}.
Arguments billing {A O K R B G}. Arguments glue {A O K R B G}.

Section workflows.
Context {A O K R B G : Type}.
Context `{!Archiver A} `{!ObjectStore O} `{!KeyProvider K} `{!Restorer R} `{!BillingClient B} `{!GlueClient G} `{!Parquet}.
Context (scratchDir database tableName : string).
Notation PW := (plane A O K R B G).

Definition on_worker {X} (f : act (world A O K R) X) : act PW X := fun w =>
  let '(k, res) := f (worker w) in (mkPlane k (billing w) (glue w), res).

Definition EmitArchiveEvent (i : PartitionArchivedInput) : act PW unit := fun w =>
  let '(b, res) := RecordPartitionArchived i (billing w) in
  (mkPlane (worker w) b (glue w), match res with Ok _ => Ok tt | Err _ => Err (Failed "emit") end).

Definition glue_request (year month : Z) (LakeURI : string) : CreatePartitionRequest :=
  mkGlueRequest database tableName [fmt_0d 4 year; fmt_0d 2 month] LakeURI
    parquetInputFormat parquetOutputFormat parquetSerde.

Definition GlueRegister (year month : Z) (LakeURI : string) : act PW unit := fun w =>
  if (year <? 2026) || (2099 <? year) then (w, Err (Failed "glue register: year"))
  else if (month <? 1) || (12 <? month) then (w, Err (Failed "glue register: month"))
  else if bool_decide (LakeURI = "") then (w, Err (Failed "glue register: LakeURI"))
  else
    let '(g, res) := CreatePartition (glue_request year month LakeURI) (glue w) in
    (mkPlane (worker w) (billing w) g,
     match res with
     | Ok _ | Err AlreadyExistsException => Ok tt
     | Err OtherGlueError => Err (Failed "glue.CreatePartition")
     end).

(** ** PartitionArchiveWorkflow

    [env_of s i] is what attempt [i] of step [s] sees, [script s] what becomes
    of the attempts of step [s]. *)
Record ArchiveResult := mkArchiveResult {
  ar_PartitionName : string; ar_LakeURI : string; ar_RowCount : Z; ar_BytesWritten : Z }.

Inductive step := SDetach | SExport | SEmit | SGlue | SDrop
                | SFetch | SVerify | SDecrypt | SLoad | SDropQuarantine.

Section run.
Context (env_of : step -> nat -> env) (script : step -> list delivery).

Definition activity {X} (s : step) (a : env -> act PW X) : act PW X :=
  ExecuteActivity (fun i => a (env_of s i)) (script s).

Definition PartitionArchiveWorkflow (year month : Z) : act PW ArchiveResult :=
  let! _ := require (negb ((year <? 2026) || (2099 <? year))) (Failed "archive: year out of range") in
  let! _ := require (negb ((month <? 1) || (12 <? month))) (Failed "archive: month out of range") in
  let! _ := activity SDetach (fun _ => on_worker (DetachPartition year month)) in
  let! ex := activity SExport (fun e => on_worker (Export e year month)) in
  let! _ := activity SEmit (fun _ => EmitArchiveEvent
    (mkArchivedInput year month (partitionName year month) (er_LakeURI ex) (er_RowCount ex) (er_BytesWritten ex))) in
  let! _ := activity SGlue (fun _ => GlueRegister year month (er_LakeURI ex)) in
  let! _ := activity SDrop (fun _ => on_worker (DropPartition year month)) in
  ret (mkArchiveResult (partitionName year month) (er_LakeURI ex) (er_RowCount ex) (er_BytesWritten ex)).

(** ** RestorePartitionWorkflow *)
Record RestoreResult := mkRestoreResult { rr_QuarantineTable : string; rr_RowsImported : Z; rr_DEKVersionUsed : Z }.

Definition parseKEKVersion (hint : string) : Z :=
  let prefix := "platform-billing-v" in
  if negb (HasPrefix hint prefix) then 0 else default 0 (Atoi (TrimPrefix hint prefix)).

(** The compensation's own error is dropped. *)
Definition compensate {X} (m : act PW X) (comp : act PW unit) : act PW X := fun w =>
  match m w with
  | (w', Ok x) => (w', Ok x)
  | (w', Err e) => ((comp w').1, Err e)
  end.

Definition RestorePartitionWorkflow (year month : Z) : act PW RestoreResult :=
  let! _ := require (negb ((year <? 2026) || (2099 <? year))) (Failed "restore: year out of range") in
  let! _ := require (negb ((month <? 1) || (12 <? month))) (Failed "restore: month out of range") in
  let! manifest := activity SFetch (fun _ => on_worker (FetchManifest year month)) in
  let! _ := require (bool_decide (fm_EncFormat manifest = encFormatV1)) (Failed "restore: unsupported enc_format") in
  let! _ := activity SVerify (fun _ => on_worker (VerifyChecksum (fm_ParquetKey manifest) (fm_ChecksumKey manifest))) in
  let! path := activity SDecrypt (fun e => on_worker
    (DownloadAndDecrypt scratchDir e year month (fm_ParquetKey manifest) (fm_SourcePartition manifest)
       (fm_EncFormat manifest) (fm_KEKHint manifest))) in
  let! (table, rows) := compensate
    (activity SLoad (fun e => on_worker (LoadIntoQuarantine e year month path)))
    (activity SDropQuarantine (fun _ => on_worker (DropQuarantine year month))) in
  ret (mkRestoreResult table rows (parseKEKVersion (fm_KEKHint manifest))).
End run.

(** ** The routers *)

(** (year, month) of [now.AddDate(0, -18, 0)]. *)
Definition archive_target (t : time) : Z * Z := let u := AddDate t 0 (-18) 0 in (Year u, Month u).
Definition archive_workflow_id (t : time) : string :=
  "billing-archive-" +:+ fmt_0d 4 (archive_target t).1 +:+ "-" +:+ fmt_0d 2 (archive_target t).2.
Definition ArchiveRouterWorkflow env_of script (t : time) : act PW ArchiveResult :=
  PartitionArchiveWorkflow env_of script (archive_target t).1 (archive_target t).2.
End workflows.

(** ** PartitionRolloverWorkflow *)

Definition nextMonthFrom (t : time) : Z * Z :=
  let year := Year t in let month := Month t + 1 in
  if 12 <? month then (year + 1, 1) else (year, month).

Definition CreatePartitionActivity (year month : Z) : act db (string * bool) := fun d =>
  let '(d', res) := CreateUsageEventsPartition year month d in
  (d', match res with
       | Ok created => Ok (partitionName year month, created)
       | Err _ => Err (Failed "create partition")
       end).

Definition PartitionRolloverWorkflow (script : list delivery) (RunTime : time) : act db (string * bool) :=
  let '(year, month) := nextMonthFrom RunTime in
  ExecuteActivity (fun _ => CreatePartitionActivity year month) script.

(** ** No archived partition is lost *)

Section safety.
Context {A O K R B G : Type}.
Context `{!Archiver A} `{!ObjectStore O} `{!KeyProvider K} `{!Restorer R} `{!BillingClient B} `{!GlueClient G} `{!Parquet}.
Context `{!ArchiverLaws A} `{!ObjectStoreLaws O} `{!BillingClientLaws B} `{!GlueLaws G}.
Context (scratchDir database tableName : string).
Notation PW := (plane A O K R B G).
Implicit Types w : PW.

Definition p_tables w := tables (worker w).
Definition p_objs w := objs (worker w).

(** Everything a dropped partition leaves behind: its objects, its archive
    record and its catalog entry. *)
Definition stored (y m : Z) (rows : list UsageEventRow) w : Prop :=
  exists k dek, GetDEK y m (k : K) = Ok dek /\ archived (p_objs w) y m dek rows.
Definition announced (y m : Z) w : Prop :=
  archive_recorded (billing w) y m (partitionName y m) /\
  in_catalog (glue w) database tableName [fmt_0d 4 y; fmt_0d 2 m].

(** The rows are in their table, or they are archived and announced. *)
Definition kept (y m : Z) (rows : list UsageEventRow) w : Prop :=
  p_tables w (y, m) = Some rows \/
  (p_tables w (y, m) = None /\ stored y m rows w /\ announced y m w).

Lemma preserves_on_worker (P : PW -> Prop) {X} (f : act (world A O K R) X) :
  (forall w, P w -> P (mkPlane (f (worker w)).1 (billing w) (glue w))) -> preserves P (on_worker f).
Proof. intros Hf w Hw. unfold on_worker. specialize (Hf w Hw). by destruct (f (worker w)). Qed.

Lemma on_worker_ok {X} (f : act (world A O K R) X) w w' x :
  on_worker f w = (w', Ok x) -> exists k, f (worker w) = (k, Ok x) /\ w' = mkPlane k (billing w) (glue w).
Proof. unfold on_worker. destruct (f (worker w)) as [k r]. intros [= <- ->]. eauto. Qed.

(** Emitting and registering leave the worker alone and keep what is
    announced. *)
Lemma announced_Emit y m i : preserves (announced y m) (EmitArchiveEvent (A := A) (O := O) (K := K) (R := R) i).
Proof.
  intros w [Ha Hg]. unfold EmitArchiveEvent.
  destruct (archive_recorded_stays _ _ _ _ Ha) as [Hs _]. specialize (Hs i).
  destruct (RecordPartitionArchived i (billing w)). by split.
Qed.

Lemma announced_Glue y m y' m' uri :
  preserves (announced y m) (GlueRegister (A := A) (O := O) (K := K) (R := R) database tableName y' m' uri).
Proof.
  intros w [Ha Hg]. unfold GlueRegister. do 3 (destruct (_ : bool); [done|]).
  pose proof (in_catalog_stays _ _ _ _ Hg (glue_request database tableName y' m' uri)).
  destruct (CreatePartition _ (glue w)). by split.
Qed.

Lemma worker_Emit (P : world A O K R -> Prop) i : preserves (fun w => P (worker w)) (EmitArchiveEvent i).
Proof. intros w Hw. unfold EmitArchiveEvent. by destruct (RecordPartitionArchived i (billing w)). Qed.

Lemma worker_Glue (P : world A O K R -> Prop) y m uri :
  preserves (fun w => P (worker w)) (GlueRegister database tableName y m uri).
Proof.
  intros w Hw. unfold GlueRegister. do 3 (destruct (_ : bool); [done|]). by destruct (CreatePartition _ (glue w)).
Qed.

Lemma Detach_world (k : world A O K R) y m :
  (forall key, tables (DetachPartition y m k).1 key = tables k key) /\
  objs (DetachPartition y m k).1 = objs k.
Proof.
  unfold DetachPartition, on_archiver, tables, objs.
  pose proof (Detach_law y m (archiver k)). by destruct (DetachUsageEventsPartition y m (archiver k)).
Qed.

Lemma Drop_world (k : world A O K R) y m :
  objs (DropPartition y m k).1 = objs k /\
  (forall key, key <> (y, m) -> tables (DropPartition y m k).1 key = tables k key) /\
  (tables (DropPartition y m k).1 (y, m) = None \/ tables (DropPartition y m k).1 (y, m) = tables k (y, m)).
Proof.
  unfold DropPartition, on_archiver, tables, objs. pose proof (Drop_law y m (archiver k)) as Hl.
  destruct (DropUsageEventsPartition y m (archiver k)) as [a [[]|]]; destruct Hl as [Hl1 Hl2]; cbn [fst archiver store];
    split_and!; auto.
Qed.

(** *** Each activity keeps the partition *)

Context (y0 m0 : Z) (rows0 : list UsageEventRow) (Hfit : fits rows0) (Hka : key_ascii (K := K)).

Lemma kept_of_parts w w' :
  p_tables w' (y0, m0) = p_tables w (y0, m0) -> p_objs w' = p_objs w ->
  (announced y0 m0 w -> announced y0 m0 w') -> kept y0 m0 rows0 w -> kept y0 m0 rows0 w'.
Proof.
  unfold kept, stored. intros -> -> Ha [Hr|(Hr & Hs & Han)]; [by left|right]. auto.
Qed.

Lemma kept_Detach y m : preserves (kept y0 m0 rows0) (on_worker (DetachPartition y m)).
Proof.
  apply preserves_on_worker. intros w Hw. destruct (Detach_world (worker w) y m) as [Ht Ho].
  apply (kept_of_parts w); [apply Ht|apply Ho|done|done].
Qed.

Lemma kept_Emit i : preserves (kept y0 m0 rows0) (EmitArchiveEvent i).
Proof.
  intros w Hw. apply (kept_of_parts w); [..|done].
  - by apply (worker_Emit (fun k => tables k (y0, m0) = p_tables w (y0, m0)) i w).
  - by apply (worker_Emit (fun k => objs k = p_objs w) i w).
  - by apply announced_Emit.
Qed.

Lemma kept_Glue y m uri : preserves (kept y0 m0 rows0) (GlueRegister database tableName y m uri).
Proof.
  intros w Hw. apply (kept_of_parts w); [..|done].
  - by apply (worker_Glue (fun k => tables k (y0, m0) = p_tables w (y0, m0)) y m uri w).
  - by apply (worker_Glue (fun k => objs k = p_objs w) y m uri w).
  - by apply announced_Glue.
Qed.

(** A run for another month touches neither the table nor the objects. *)
Lemma archived_same_objs o1 o2 y m dek rows :
  (forall s, o2 !! archivedSidecarKey y m s = o1 !! archivedSidecarKey y m s) ->
  archived o1 y m dek rows -> archived o2 y m dek rows.
Proof.
  intros Hs (cipher & ts & H1 & H2 & H3 & Hr). exists cipher, ts.
  change (archivedParquetKey y m) with (archivedSidecarKey y m ".parquet") in *. rewrite !Hs. auto.
Qed.

Lemma kept_Export e y m : env_ok e -> preserves (kept y0 m0 rows0) (on_worker (Export e y m)).
Proof.
  intros He. apply preserves_on_worker. intros w Hw.
  pose proof (Export_tables e y m (y0, m0) (p_tables w (y0, m0)) (worker w) eq_refl) as Ht.
  destruct Hw as [Hr|(Hr & (k & dek & Hk & Ha) & Hann)]; [left; by rewrite <- Hr|right].
  split; [by rewrite <- Hr|]. split; [|done]. exists k, dek. split; [done|].
  eapply archived_same_objs; [|exact Ha]. intros s. unfold p_objs. cbn [worker].
  destruct (decide ((y, m) = (y0, m0))) as [[= -> ->]|Hne].
  - by rewrite (Export_gone e y0 m0 (worker w) Hr He).
  - apply (Export_objs e y m); [..|done]; intros E;
      [change (archivedParquetKey y m) with (archivedSidecarKey y m ".parquet") in E|..];
      apply archived_key_inj in E as [-> ->]; done.
Qed.

Lemma kept_Drop_other y m : (y, m) <> (y0, m0) -> preserves (kept y0 m0 rows0) (on_worker (DropPartition y m)).
Proof.
  intros Hne. apply preserves_on_worker. intros w Hw. destruct (Drop_world (worker w) y m) as (Ho & Ht & _).
  apply (kept_of_parts w); [by apply Ht|apply Ho|done|done].
Qed.

(** *** The run of the partition's own month *)

(** After the export: the rows are in the table and in the store. *)
Definition exported w : Prop := p_tables w (y0, m0) = Some rows0 /\ stored y0 m0 rows0 w.

Lemma Export_exported e w w' r : env_ok e -> kept y0 m0 rows0 w ->
  on_worker (Export e y0 m0) w = (w', Ok r) -> exported w'.
Proof.
  intros He Hw HE. apply on_worker_ok in HE as (k & HE & ->).
  destruct Hw as [Hr|(Hr & _)].
  - assert (Hall : forall rows, tables (worker w) (y0, m0) = Some rows -> fits rows).
    { intros rows E. unfold p_tables in Hr. congruence. }
    destruct (Export_archives e y0 m0 (worker w) k r HE He Hka Hall) as (dek & rows & Hd & Ht & Ha & _).
    unfold p_tables in Hr. rewrite Hr in Ht. injection Ht as <-. split.
    + pose proof (Export_tables e y0 m0 (y0, m0) (Some rows0) (worker w) Hr) as Hx. by rewrite HE in Hx.
    + exists (keys (worker w)), dek. done.
  - exfalso. assert (Hall : forall rows, tables (worker w) (y0, m0) = Some rows -> fits rows).
    { intros rows E. unfold p_tables in Hr. congruence. }
    destruct (Export_archives e y0 m0 (worker w) k r HE He Hka Hall) as (dek & rows & _ & Ht & _).
    unfold p_tables in Hr. congruence.
Qed.

Definition recorded w : Prop := exported w /\ archive_recorded (billing w) y0 m0 (partitionName y0 m0).
Definition ready w : Prop := exported w /\ announced y0 m0 w.
(** During the drop the table may or may not be there. *)
Definition dropping w : Prop :=
  (p_tables w (y0, m0) = Some rows0 \/ p_tables w (y0, m0) = None) /\ stored y0 m0 rows0 w /\ announced y0 m0 w.

Lemma exported_worker w w' : worker w' = worker w -> exported w -> exported w'.
Proof. unfold exported, stored, p_tables, p_objs. by intros ->. Qed.

Lemma Emit_worker i w : worker (EmitArchiveEvent i w).1 = worker w.
Proof. by apply (worker_Emit (fun k => k = worker w)). Qed.
Lemma Glue_worker y m uri w : worker (GlueRegister database tableName y m uri w).1 = worker w.
Proof. by apply (worker_Glue (fun k => k = worker w)). Qed.

Lemma exported_Emit i : preserves exported (EmitArchiveEvent i).
Proof. intros w. apply exported_worker, Emit_worker. Qed.

Lemma Emit_recorded uri n b w w' : exported w ->
  EmitArchiveEvent (mkArchivedInput y0 m0 (partitionName y0 m0) uri n b) w = (w', Ok tt) -> recorded w'.
Proof.
  intros Hx E. split.
  - apply (exported_worker w); [|done]. rewrite <- (Emit_worker (mkArchivedInput y0 m0 (partitionName y0 m0) uri n b) w).
    by rewrite E.
  - unfold EmitArchiveEvent in E.
    pose proof (RecordPartitionArchived_law (mkArchivedInput y0 m0 (partitionName y0 m0) uri n b) (billing w)) as Hl.
    destruct (RecordPartitionArchived _ _) as [b' [[]|]]; [|done]. injection E as <-. by apply Hl.
Qed.

Lemma recorded_Glue uri : preserves recorded (GlueRegister database tableName y0 m0 uri).
Proof.
  intros w [Hx Hr]. split; [eapply exported_worker; [apply Glue_worker|done]|].
  unfold GlueRegister. do 3 (destruct (_ : bool); [done|]). by destruct (CreatePartition _ _).
Qed.

Lemma Glue_ready uri w w' : recorded w -> GlueRegister database tableName y0 m0 uri w = (w', Ok tt) -> ready w'.
Proof.
  intros [Hx Hr] E. split.
  - apply (exported_worker w); [|done]. by rewrite <- (Glue_worker y0 m0 uri w), E.
  - unfold GlueRegister in E. do 3 (destruct (_ : bool); [done|]).
    pose proof (CreatePartition_law (glue_request database tableName y0 m0 uri) (glue w)) as Hl.
    destruct (CreatePartition _ (glue w)) as [g [[]|[]]]; [| |done]; injection E as <-; (split; [done|]); by apply Hl.
Qed.

Lemma dropping_Drop : preserves dropping (on_worker (DropPartition y0 m0)).
Proof.
  apply preserves_on_worker. intros w (Ht & Hs & Ha). destruct (Drop_world (worker w) y0 m0) as (Ho & _ & Hd).
  split; [|split; [|done]].
  - unfold p_tables in *. cbn [worker]. destruct Hd as [-> | ->]; auto.
  - unfold stored, p_objs in *. cbn [worker]. by rewrite Ho.
Qed.

Lemma ready_dropping w : ready w -> dropping w.
Proof. intros ((Ht & Hs) & Ha). split_and!; auto. Qed.
Lemma dropping_kept w : dropping w -> kept y0 m0 rows0 w.
Proof. intros ([Ht|Ht] & Hs & Ha); [by left|right]. auto. Qed.
Lemma exported_kept w : exported w -> kept y0 m0 rows0 w.
Proof. intros [Ht _]. by left. Qed.

(** After [bind], the state is kept if it is kept by the first activity and
    by the rest from what the first establishes when it succeeds. *)
Lemma kept_bind (P Q : PW -> Prop) {X Y} (a : env -> act PW X) env_of script s (k : X -> act PW Y) w :
  P w -> (forall i, preserves P (a (env_of s i))) -> (forall w, P w -> kept y0 m0 rows0 w) ->
  (forall i w w' x, P w -> a (env_of s i) w = (w', Ok x) -> Q w') ->
  (forall x w, Q w -> kept y0 m0 rows0 (k x w).1) ->
  kept y0 m0 rows0 (bind (activity env_of script s a) k w).1.
Proof.
  intros Hw Ha HP HQ Hk. unfold bind, activity.
  destruct (ExecuteActivity _ (script s) w) as [w' [x|e]] eqn:E.
  - apply Hk. destruct (ExecuteActivity_ok _ P (script s) w w' x Ha Hw E) as (j & w1 & H1 & H2). eauto.
  - apply HP. pose proof (ExecuteActivity_preserves _ P (script s) Ha w Hw) as Hx. by rewrite E in Hx.
Qed.

Lemma kept_run_same env_of script w :
  (forall s i, env_ok (env_of s i)) -> kept y0 m0 rows0 w ->
  kept y0 m0 rows0 (PartitionArchiveWorkflow database tableName env_of script y0 m0 w).1.
Proof.
  intros He Hw. unfold PartitionArchiveWorkflow. unfold bind at 1, require at 1. destruct (negb _); [cbn [ret]|done].
  unfold bind at 1, require at 1. destruct (negb _); [cbn [ret]|done].
  apply (kept_bind (kept y0 m0 rows0) (kept y0 m0 rows0)); [done|intros; apply kept_Detach|done|..].
  { intros i w1 w2 x H1 E. pose proof (kept_Detach y0 m0 w1 H1) as Hx. by rewrite E in Hx. }
  intros _ w1 H1. apply (kept_bind (kept y0 m0 rows0) exported); [done|by intros; apply kept_Export|done|..].
  { intros i w2 w3 x H2 E. by eapply Export_exported. }
  intros ex w2 H2. apply (kept_bind exported recorded); [done|intros; apply exported_Emit|apply exported_kept|..].
  { intros i w3 w4 [] H3 E. by eapply Emit_recorded. }
  intros _ w3 H3. apply (kept_bind recorded ready); [done|intros; apply recorded_Glue| |..].
  { intros w4 [H4 _]. by apply exported_kept. }
  { intros i w4 w5 [] H4 E. by eapply Glue_ready. }
  intros _ w4 H4. apply (kept_bind dropping dropping); [by apply ready_dropping|intros; apply dropping_Drop|apply dropping_kept|..].
  { intros i w5 w6 x H5 E. pose proof (dropping_Drop w5 H5) as Hx. by rewrite E in Hx. }
  intros _ w5 H5. by apply dropping_kept.
Qed.

Lemma kept_run_other env_of script y m w : (y, m) <> (y0, m0) ->
  (forall s i, env_ok (env_of s i)) -> kept y0 m0 rows0 w ->
  kept y0 m0 rows0 (PartitionArchiveWorkflow database tableName env_of script y m w).1.
Proof.
  intros Hne He. revert w. change (preserves (kept y0 m0 rows0) (PartitionArchiveWorkflow database tableName env_of script y m)).
  unfold PartitionArchiveWorkflow.
  repeat (apply preserves_bind; [|intros ?]); auto with gitscale; apply ExecuteActivity_preserves; intros j.
  - apply kept_Detach.
  - by apply kept_Export.
  - apply kept_Emit.
  - apply kept_Glue.
  - by apply kept_Drop_other.
Qed.
End safety.

(** Runs of the archive workflow, for any months, one after the other. *)
Record archive_run := mkRun { run_env : step -> nat -> env; run_script : step -> list delivery; run_month : Z * Z }.

Section runs.
Context {A O K R B G : Type}.
Context `{!Archiver A} `{!ObjectStore O} `{!KeyProvider K} `{!Restorer R} `{!BillingClient B} `{!GlueClient G} `{!Parquet}.
Context (database tableName : string).

Definition run_archives (rs : list archive_run) (w : plane A O K R B G) : plane A O K R B G :=
  fold_left (fun w r => (PartitionArchiveWorkflow database tableName (run_env r) (run_script r)
    (run_month r).1 (run_month r).2 w).1) rs w.

(** C5: No archive run loses a partition: whatever fails or is retried, in
    whatever months, the rows are in their table, or the table is gone and the
    object store holds the encrypted rows with a matching manifest and
    checksum, the billing service has recorded the archive and the catalog
    has the partition. *)
Theorem archive_never_loses_rows `{!ArchiverLaws A} `{!ObjectStoreLaws O} `{!BillingClientLaws B} `{!GlueLaws G}
    y m rows rs (w : plane A O K R B G) :
  fits rows -> key_ascii (K := K) -> Forall (fun r => forall s i, env_ok (run_env r s i)) rs ->
  p_tables w (y, m) = Some rows -> kept database tableName y m rows (run_archives rs w).
Proof.
  intros Hfit Hka Hrs Hw. assert (Hk : kept database tableName y m rows w) by (by left). clear Hw.
  unfold run_archives. revert w Hk. induction Hrs as [|r rs He Hrs IH]; intros w Hk; [done|]. cbn [fold_left].
  apply IH. destruct (decide (run_month r = (y, m))) as [E|E].
  - rewrite E. by apply kept_run_same.
  - destruct (run_month r) as [y' m']. by apply kept_run_other.
Qed.
End runs.

(** ** Restoring what was archived *)

Definition no_faults (e : env) : Prop :=
  create_fails e = false /\ (forall i, write_fails e i = false) /\ close_fails e = false /\ open_fails e = false.

Section restore.
Context {A O K B G : Type}.
Context `{!Archiver A} `{!ObjectStore O} `{!KeyProvider K} `{!BillingClient B} `{!GlueClient G} `{!Parquet}.
Context `{!ObjectStoreLaws O} `{!ReliableStore (O := O)} `{!ParquetLaws}.
Context (accepts : UsageEventRow -> bool) (scratchDir : string).
#[local] Existing Instance PostgresRestorer.
#[local] Instance pg_restorer : Restorer db := PostgresRestorer accepts.
Notation PW := (plane A O K db B G).
Implicit Types w : PW.

Lemma activity_first {X} env_of s (a : env -> act PW X) w w' x :
  a (env_of s 0%nat) w = (w', Ok x) -> activity env_of (fun _ => []) s a w = (w', Ok x).
Proof. apply (ExecuteActivity_first (fun i => a (env_of s i))). Qed.

Lemma on_worker_Ok {X} (f : act (world A O K db) X) w k x :
  f (worker w) = (k, Ok x) -> on_worker f w = (mkPlane k (billing w) (glue w), Ok x).
Proof. unfold on_worker. by intros ->. Qed.

(** What a load leaves in the quarantine table. *)
Definition after_load (y m : Z) (rows : list UsageEventRow) (ts : gmap string table) : table :=
  let held := quarantine_held y m ts in mkTable (t_rows held ++ rows) (t_state held) (t_bounds held) true.

Lemma LoadIntoQuarantine_succeeds e y m rows (k : world A O K db) ts :
  2026 <= y <= 2099 -> 1 <= m <= 12 -> open_fails e = false -> Forall row_ok rows -> forallb accepts rows = true ->
  restorer k = mkDb ts [] ->
  scratch k !! plaintext_path scratchDir y m = Some (parquet_write rows) ->
  LoadIntoQuarantine e y m (plaintext_path scratchDir y m) k =
  (mkWorld (archiver k) (store k) (keys k)
     (mkDb (<[quarantine_table y m := after_load y m rows ts]> ts) [])
     (delete (plaintext_path scratchDir y m) (scratch k)),
   Ok (QuarantineTableName y m, Z.of_nat (length rows))).
Proof.
  intros Hy Hm Ho Hr Ha Hd Hs. unfold LoadIntoQuarantine, bind, on_restorer, open_scratch, set_scratch.
  rewrite Hd. cbn [EnsureQuarantineTable pg_restorer PostgresRestorer]. rewrite pg_Ensure_succeeds by done.
  cbn [scratch restorer archiver store keys]. rewrite Ho, Hs.
  cbn [LoadParquetIntoQuarantine pg_restorer PostgresRestorer restorer].
  rewrite (pg_Load_succeeds accepts y m _ rows (quarantine_held y m ts))
    by (try apply lookup_insert_eq; try done; by apply parquet_read_write).
  cbn [SealQuarantineTable pg_restorer PostgresRestorer restorer archiver store keys scratch].
  erewrite pg_Seal_succeeds by apply lookup_insert_eq.
  cbn [t_rows t_state t_bounds restorer archiver store keys scratch]. by rewrite !insert_insert_eq.
Qed.


(** What a restore leaves alone. *)
Definition outside (o : gmap string (list ascii)) (a : A) (parts : string -> option table) (k : world A O K db) : Prop :=
  objs k = o /\ archiver k = a /\
  (forall y m, tables_of (restorer k) !! partition_table y m = parts (partition_table y m)).

Section outside.
Context (o : gmap string (list ascii)) (a : A) (parts : string -> option table).
Notation P := (outside o a parts).

Lemma outside_read {X} what (f : O -> O * result store_error X) :
  (forall s, objects_of (f s).1 = objects_of s) -> preserves P (on_store what f).
Proof.
  intros Hf. apply preserves_on_store. intros k (Ho & Ha & Hp). split; [|done].
  unfold objs in *. cbn [store]. by rewrite Hf.
Qed.

Lemma outside_restorer {X} what (f : db -> db * result unit X) :
  (forall d y m, tables_of (f d).1 !! partition_table y m = tables_of d !! partition_table y m) ->
  preserves P (on_restorer what f).
Proof.
  intros Hf k (Ho & Ha & Hp). unfold on_restorer. pose proof (Hf (restorer k)) as Hk.
  destruct (f (restorer k)) as [d res]. cbn [fst] in *. split_and!; try done.
  intros y m. cbn [restorer]. by rewrite Hk.
Qed.

Lemma outside_scratch f : preserves P (set_scratch f).
Proof. by intros k Hk. Qed.
Lemma outside_dek what y m : preserves P (get_dek what y m).
Proof. apply preserves_get_dek. Qed.

Lemma GetBytes_objects key (s : O) : objects_of (GetBytes key s).1 = objects_of s.
Proof. pose proof (GetBytes_law key s) as Hl. destruct (GetBytes key s). by destruct Hl as (_ & Hl & _). Qed.
Lemma Download_objects key (s : O) : objects_of (Download key s).1 = objects_of s.
Proof. pose proof (Download_law key s) as Hl. destruct (Download key s). by destruct Hl as (_ & Hl & _). Qed.

Lemma outside_FetchManifest y m : preserves P (FetchManifest y m).
Proof.
  intros k (Ho & Ha & Hp). unfold FetchManifest.
  pose proof (GetBytes_objects (archivedSidecarKey y m ".manifest.json") (store k)) as Hg.
  destruct (GetBytes _ (store k)) as [s res]. cbn [fst] in Hg.
  assert (Hk : P (mkWorld (archiver k) s (keys k) (restorer k) (scratch k))).
  { split_and!; try done. unfold objs in *. cbn [store]. by rewrite Hg. }
  destruct res as [raw|[]]; [|done..]. destruct (manifest_decode _); [|done].
  destruct (negb _); [done|]. by destruct (negb _).
Qed.

Lemma outside_VerifyChecksum p c : preserves P (VerifyChecksum p c).
Proof.
  unfold VerifyChecksum. repeat (apply preserves_bind; [|intros ?]); auto with gitscale;
    apply outside_read; intros s; [apply GetBytes_objects|apply Download_objects].
Qed.

Lemma outside_DownloadAndDecrypt e y m p sp ef kh : preserves P (DownloadAndDecrypt scratchDir e y m p sp ef kh).
Proof.
  unfold DownloadAndDecrypt. repeat (apply preserves_bind; [|intros ?]); auto using outside_dek with gitscale.
  - apply outside_read, Download_objects.
  - destruct (DecodeStream _ _ _ _) as [out [de|]]; [|destruct (close_fails e)];
      (apply preserves_bind; [apply outside_scratch|intros []; auto with gitscale]).
Qed.

Lemma outside_LoadIntoQuarantine e y m p : preserves P (LoadIntoQuarantine e y m p).
Proof.
  unfold LoadIntoQuarantine. repeat (apply preserves_bind; [|intros ?]); auto using outside_scratch with gitscale.
  - apply outside_restorer. intros d y' m'. apply (restorer_isolated accepts y m y' m' [] d).
  - by intros k Hk.
  - apply outside_restorer. intros d y' m'. apply restorer_isolated.
  - apply outside_restorer. intros d y' m'. apply (restorer_isolated accepts y m y' m' [] d).
Qed.

Lemma outside_DropQuarantine y m : preserves P (DropQuarantine y m).
Proof. apply outside_restorer. intros d y' m'. apply (restorer_isolated accepts y m y' m' [] d). Qed.

Lemma outside_activity {X} env_of script s (f : env -> act (world A O K db) X) :
  (forall e, preserves P (f e)) ->
  preserves (fun w : PW => P (worker w)) (activity env_of script s (fun e => on_worker (f e))).
Proof.
  intros Hf. apply ExecuteActivity_preserves. intros i w Hw. unfold on_worker.
  specialize (Hf (env_of s i) (worker w) Hw). by destruct (f (env_of s i) (worker w)).
Qed.
End outside.

(** Whatever fails, a restore changes no object, no live partition and
    nothing of the archiver: it writes quarantine tables and scratch files. *)
Theorem restore_touches_quarantine_only env_of script y m w :
  let w' := (RestorePartitionWorkflow scratchDir env_of script y m w).1 in
  p_objs w' = p_objs w /\ archiver (worker w') = archiver (worker w) /\
  (forall y' m', tables_of (restorer (worker w')) !! partition_table y' m'
    = tables_of (restorer (worker w)) !! partition_table y' m').
Proof.
  set (P := outside (p_objs w) (archiver (worker w)) (fun t => tables_of (restorer (worker w)) !! t)).
  assert (Hw : P (worker w)) by (by split_and!).
  assert (Hrun : preserves (fun w : PW => P (worker w)) (RestorePartitionWorkflow scratchDir env_of script y m)).
  { unfold RestorePartitionWorkflow. repeat (apply preserves_bind; [|intros ?]); auto with gitscale.
    - apply outside_activity. intros _. apply outside_FetchManifest.
    - apply outside_activity. intros _. apply outside_VerifyChecksum.
    - apply outside_activity. intros e. apply outside_DownloadAndDecrypt.
    - intros w1 Hw1. unfold compensate.
      pose proof (outside_activity _ _ _ env_of script SLoad (fun e => LoadIntoQuarantine e y m a4)
        (fun e => outside_LoadIntoQuarantine _ _ _ e y m a4) w1 Hw1) as Hl.
      destruct (activity env_of script SLoad _ w1) as [w2 [x|err]]; [done|].
      apply (outside_activity _ _ _ env_of script SDropQuarantine (fun _ => DropQuarantine y m)); [|done].
      intros _. apply outside_DropQuarantine.
    - destruct a5. auto with gitscale. }
  exact (Hrun w Hw).
Qed.
End restore.

(** ** A concrete platform *)

(** A catalog in memory. *)
Definition catalog := list (string * string * list string).
#[export] Instance memory_catalog : GlueClient catalog := fun i g =>
  let p := (DatabaseName i, TableName i, Values i) in
  if decide (p ∈ g) then (g, Err AlreadyExistsException) else (p :: g, Ok tt).
#[export, refine] Instance memory_catalog_laws : GlueLaws catalog := {
  in_catalog g d t v := (d, t, v) ∈ g }.
Proof.
  - intros i g. unfold CreatePartition, memory_catalog. destruct (decide _); intros _; cbn [fst]; [done|by left].
  - intros d t v g Hg i. unfold CreatePartition, memory_catalog. destruct (decide _); cbn [fst]; [done|by right].
Defined.

#[export] Instance stub_reliable : ReliableStore (O := stubObjectStore).
Proof.
  split; intros key s data Hd; cbn in Hd |- *; unfold stub_GetBytes, stub_Download; by rewrite Hd.
Qed.

Definition sample_row (id : string) (t : time) : UsageEventRow :=
  mkRow id "acct" "p" "agent" "tokens" "{}" 1000 None "api" (Some "x") t t.
Definition sample_rows : list UsageEventRow := [sample_row "a" 1; sample_row "b" 2].
Definition sample_nonce12 : list ascii := replicate AesGcm.NonceSize "n"%char.
Definition sample_env : env :=
  mkEnv (1767225599 * Second) (fun _ => Some sample_nonce12) false (fun _ => false) false false.
Definition sample_db : db := mkDb (<[partition_table 2026 1 := mkTable sample_rows Attached None false]> ∅) [].
Notation sample_plane := (plane db stubObjectStore unit db StubBillingClient catalog).
#[local] Instance sample_restorer : Restorer db := PostgresRestorer (fun _ => true).
Definition sample_world : sample_plane :=
  mkPlane (mkWorld sample_db (newStubObjectStore "lake") tt (mkDb ∅ []) ∅) NewStubBillingClient [].

(** The stub key provider's hints are ASCII. *)
Lemma stub_key_ascii : key_ascii (K := unit).
Proof. intros y m k dek [= <-]. by apply is_ascii_true. Qed.

Lemma sample_env_ok : env_ok sample_env.
Proof. intros i nonce [= <-]. reflexivity. Qed.

Lemma sample_rows_fit : fits sample_rows.
Proof. unfold fits, row_ok, is_int64. repeat split; try repeat constructor; vm_compute; congruence. Qed.

(** A run that loses its drop, and a second one. *)
Definition sample_runs : list archive_run :=
  [mkRun (fun _ _ => sample_env) (fun s => match s with SExport => [ResultLost; NotRun] | SDrop => replicate 5 NotRun | _ => [] end) (2026, 1);
   mkRun (fun _ _ => sample_env) (fun s => match s with SDrop => [ResultLost] | _ => [] end) (2026, 1)].

Lemma archive_never_loses_rows_witness :
  kept "db" "t" 2026 1 sample_rows (run_archives "db" "t" sample_runs sample_world).
Proof.
  apply archive_never_loses_rows.
  - exact sample_rows_fit.
  - exact stub_key_ascii.
  - repeat constructor; intros; exact sample_env_ok.
  - reflexivity.
Defined.

(** The same runs end with the table dropped and the objects in place. *)
Example sample_runs_drop :
  let w := run_archives "db" "t" sample_runs sample_world in
  (p_tables w (2026, 1), size (p_objs w), length (calls (billing w)), glue w)
  = (None, 3%nat, 2%nat, [("db", "t", ["2026"; "01"])]).
Proof. vm_compute. reflexivity. Qed.

(** *** What a restore starts from *)

Definition sample_dek : DEK := stubKeyProvider_GetDEK 2026 1.
Definition sample_cipher : list ascii := Eval vm_compute in
  bytes (encrypt (Bytes sample_dek) (partitionName 2026 1) (fun _ => Some sample_nonce12)
    (mkStream (parquet_write sample_rows) false)).
Definition sample_archive : gmap string (list ascii) :=
  <[archivedParquetKey 2026 1 := sample_cipher]>
  (<[archivedSidecarKey 2026 1 ".manifest.json" := s2l (Marshal (manifest_json
      (mkManifest 1 (partitionName 2026 1) 2 177 stubKEKHint encFormatV1 "2025-12-31T23:59:59Z" "sha256")))]>
  (<[archivedSidecarKey 2026 1 ".checksum.sha256" := s2l (hex_sum sample_cipher)]> ∅)).
Definition restore_world : sample_plane :=
  mkPlane (mkWorld sample_db (mkStub sample_archive "lake" None) tt (mkDb ∅ []) ∅) NewStubBillingClient [].

Lemma sample_archived : archived sample_archive 2026 1 sample_dek sample_rows.
Proof.
  exists sample_cipher, "2025-12-31T23:59:59Z". split_and!.
  4, 5: by apply is_ascii_true.
  5, 6: vm_compute; split; congruence.
  all: vm_compute; reflexivity.
Qed.


(** A second restore of the month, nothing failing either time, leaves every
    row twice and reports the number of one load. *)
Example second_restore_duplicates :
  let restore := RestorePartitionWorkflow (Restorer0 := PostgresRestorer (fun _ => true)) "/tmp" (fun _ _ => sample_env) (fun _ => []) 2026 1 in
  let '(w, r) := restore (restore restore_world).1 in
  (match r with Ok res => rr_RowsImported res | Err _ => 0 end,
   t_rows <$> tables_of (restorer (worker w)) !! quarantine_table 2026 1) = (2, Some (sample_rows ++ sample_rows)).
Proof. vm_compute. reflexivity. Qed.

(** A load whose seal fails is retried from the start, and [COPY] appends:
    the table ends with every row twice while the result counts them once. *)
Lemma load_retry_duplicates :
  let k := mkWorld sample_db (newStubObjectStore "lake") tt (mkDb ∅ [Executed; Executed; NotExecuted])
             {["/tmp/f" := parquet_write sample_rows]} in
  let '(k', res) := ExecuteActivity (fun _ => LoadIntoQuarantine sample_env 2026 1 "/tmp/f") [] k in
  res = Ok (QuarantineTableName 2026 1, 2) /\
  tables_of (restorer k') !! quarantine_table 2026 1
    = Some (mkTable (sample_rows ++ sample_rows) Standalone None true).
Proof. vm_compute. auto. Qed.

(** ** Routers and rollover *)

(** Fired on one of the first 28 days of a month (the schedule says the
    24th), the router archives the month exactly eighteen months before, and
    the child's id is that of the month. *)
Theorem archive_target_is_18_months_back t : Day t <= 28 ->
  let '(y, m) := archive_target t in 1 <= m <= 12 /\ 12 * y + m = 12 * Year t + Month t - 18.
Proof.
  intros Hd. unfold archive_target, Year, Month. cbv zeta. rewrite (AddDate_months t (-18) Hd). cbn [fst snd].
  unfold Year, Month. pose proof (Z.mod_pos_bound ((civil t).1.2 + -18 - 1) 12 ltac:(lia)).
  pose proof (Z.div_mod ((civil t).1.2 + -18 - 1) 12 ltac:(lia)). lia.
Qed.

Lemma archive_target_is_18_months_back_witness :
  let t := 1792850400 * Second in    (* 2026-10-24T14:00:00Z *)
  let '(y, m) := archive_target t in 1 <= m <= 12 /\ 12 * y + m = 12 * Year t + Month t - 18.
Proof. apply (archive_target_is_18_months_back (1792850400 * Second)). vm_compute. congruence. Defined.

(** On the 31st the month before may be hit instead of the one meant. *)
Example archive_target_end_of_month :
  (RFC3339 (1817035200 * Second), archive_target (1817035200 * Second)) = ("2027-07-31T12:00:00Z", (2026, 1)) /\
  (RFC3339 (1819713600 * Second), archive_target (1819713600 * Second)) = ("2027-08-31T12:00:00Z", (2026, 3)).
Proof. vm_compute. auto. Qed.

Lemma nextMonthFrom_spec t : let '(y, m) := nextMonthFrom t in 1 <= m <= 12 /\ 12 * y + m = 12 * Year t + Month t + 1.
Proof.
  pose proof (civil_days (days_of t)) as Hc. unfold nextMonthFrom, Year, Month, civil.
  destruct (civil_from_days (days_of t)) as [[y m] d]. cbn [fst snd]. destruct Hc as (Hm & _).
  destruct (Z.ltb_spec 12 (m + 1)); lia.
Qed.

(** A rollover that reports success has left a table for the month after
    its run time; when it reports that it created the table, the table is
    attached, empty and takes that month's rows up to the start of the next. *)
Theorem rollover_provides_next_month script t d d' name created :
  PartitionRolloverWorkflow script t d = (d', Ok (name, created)) ->
  exists y m tab, 1 <= m <= 12 /\ 12 * y + m = 12 * Year t + Month t + 1 /\
    name = partitionName y m /\ tables_of d' !! partition_table y m = Some tab /\
    (created = true -> tab = mkTable [] Attached (Some (partition_bounds y m)) false /\
      forall day, 1 <= day <= 28 ->
        (partition_bounds y m).1 <= days_from_civil y m day < (partition_bounds y m).2).
Proof.
  intros HR. unfold PartitionRolloverWorkflow in HR. pose proof (nextMonthFrom_spec t) as Hn.
  destruct (nextMonthFrom t) as [y m]. destruct Hn as [Hm Hym]. exists y, m.
  apply (ExecuteActivity_ok _ (fun _ => True)) in HR as (j & d0 & _ & HR); [|done|done].
  unfold CreatePartitionActivity, CreateUsageEventsPartition in HR.
  destruct (_ || _); [done|]. destruct (_ || _); [done|].
  destruct (statement _ d0) as [d1 [c|]] eqn:E; [|done]. injection HR as <- <- <-.
  apply statement_ok in E. unfold create_partition in E. destruct (tables_of d0 !! _) as [tab|] eqn:Et.
  - injection E as E <-. exists tab. rewrite <- E. split_and!; by (done || lia).
  - injection E as E <-. eexists. rewrite <- E, lookup_insert_eq. split_and!; [lia..|done|done|]. intros _. split; [done|].
    intros day Hday. by apply partition_bounds_month.
Qed.

Lemma rollover_provides_next_month_witness :
  let t := 1764590400 * Second in    (* 2025-12-01T12:00:00Z *)
  let d' := mkDb (<[partition_table 2026 1 := mkTable [] Attached (Some (partition_bounds 2026 1)) false]> ∅) [] in
  exists y m tab, 1 <= m <= 12 /\ 12 * y + m = 12 * Year t + Month t + 1 /\
    "billing.usage_events_2026_01" = partitionName y m /\ tables_of d' !! partition_table y m = Some tab /\
    (true = true -> tab = mkTable [] Attached (Some (partition_bounds y m)) false /\
      forall day, 1 <= day <= 28 ->
        (partition_bounds y m).1 <= days_from_civil y m day < (partition_bounds y m).2).
Proof.
  apply (rollover_provides_next_month [NotRun; ResultLost] (1764590400 * Second) (mkDb ∅ [NotExecuted])).
  vm_compute. reflexivity.
Defined.
