(* ===== verification/DekDestruction.v ===== *)
(** * Destruction of archive keys

    [plane/workflow/billing]: destroy_dek_activity.go,
    check_legal_hold_activity.go, request_operator_approval_activity.go,
    emit_dek_destroyed_activity.go, list_eligible_partitions_activity.go,
    dek_destruction_workflow.go and dek_destruction_router_workflow.go.

    A partition's key is a version of one Vault transit key; destroying it
    trims the key, which deletes that version and all older ones. *)

From S2P Require Import Prelude GoStd GoFmt GoTime Floats Sha256 ObjectStore Actions Temporal AppClient.

(** ** DestroyDEK *)

(** [strings.LastIndex(hint, "-v")]: what follows the last occurrence. *)
Fixpoint after_last (p l : list ascii) : option (list ascii) :=
  match l with
  | [] => match p with [] => Some [] | _ => None end
  | _ :: l' =>
      match after_last p l' with
      | Some r => Some r
      | None => strip_prefix p l
      end
  end.

Definition parseKEKHintVersion (hint : string) : option Z :=
  if bool_decide (hint = "") then None
  else
    match after_last (s2l "-v") (s2l hint) with
    | None => None
    | Some rest =>
        match Atoi (l2s rest) with
        | Some v => if v <? 1 then None else Some v
        | None => None
        end
    end.

(** A field of a Vault response: the dynamic types its SDK delivers. *)
Inductive field := FInt (z : Z) | FInt64 (z : Z) | FFloat (f : float) | FNumber (s : string) | FOther.

(** [int(x)] of a finite float64 in range. *)
Definition float_to_int (f : float) : Z :=
  match f with
  | S754_finite s m e =>
      let a := if 0 <=? e then Zpos m * 2 ^ e else Zpos m / 2 ^ (- e) in if s then - a else a
  | _ => 0
  end.

(** The value [strconv.Atoi] returns besides its error: the nearest end of the
    range for a number out of range, else zero. *)
Definition Atoi_value (s : string) : Z :=
  match Atoi s with
  | Some v => v
  | None =>
      let ds := match s2l s with
                | c :: l => if bool_decide (c = "-"%char) || bool_decide (c = "+"%char) then l else c :: l
                | [] => []
                end in
      if negb (forallb is_digit ds) || bool_decide (ds = []) then 0
      else if HasPrefix s "-" then int64_min else int64_max
  end.

Definition readIntFromSecret (data : gmap string field) (key : string) : Z :=
  match data !! key with
  | Some (FInt x) => x
  | Some (FInt64 x) => x
  | Some (FFloat x) => float_to_int x
  | Some (FNumber s) => Atoi_value s
  | Some FOther | None => 0
  end.

(** [vaultLogicalClient]; a read that finds nothing answers [None]. *)
Class vaultLogicalClient (V : Type) := {
  ReadWithContext : string -> V -> V * result unit (option (gmap string field));
  WriteWithContext : string -> gmap string Z -> V -> V * result unit unit }.

Definition keyPath (mount keyName : string) : string := mount +:+ "/keys/" +:+ keyName.
Definition configPath (mount keyName : string) : string := keyPath mount keyName +:+ "/config".
Definition trimPath (mount keyName : string) : string := keyPath mount keyName +:+ "/trim".

Section destroy.
Context {V : Type} `{!vaultLogicalClient V} (mount keyName : string).

Definition on_vault {X} (what : string) (f : V -> V * result unit X) : act V X := fun v =>
  let '(v', res) := f v in (v', match res with Ok x => Ok x | Err _ => Err (Failed what) end).

Definition DestroyDEK (hint : string) : act V Z :=
  match parseKEKHintVersion hint with
  | None => throw (Failed "destroy dek: kek_hint")
  | Some version =>
      let! secret := on_vault "destroy dek: read" (ReadWithContext (keyPath mount keyName)) in
      match secret with
      | None => ret version
      | Some data =>
          if version <? readIntFromSecret data "min_available_version" then ret version
          else
            let! _ := on_vault "destroy dek: config" (WriteWithContext (configPath mount keyName)
              {["min_decryption_version" := version + 1; "min_encryption_version" := version + 1]}) in
            let! _ := on_vault "destroy dek: trim" (WriteWithContext (trimPath mount keyName)
              {["min_available_version" := version + 1]}) in
            ret version
      end
  end.
End destroy.

(** What Vault documents of the paths of one transit key: which versions are
    available, that reading and configuring change none of them, and that a
    trim deletes exactly the versions below its bound. *)
Class VaultLaws (V : Type) `{vaultLogicalClient V} (mount keyName : string) := {
  available : V -> Z -> Prop;
  Read_law : forall v n, let '(v', res) := ReadWithContext (keyPath mount keyName) v in
    (available v' n <-> available v n) /\
    match res with
    | Ok None => ~ available v n
    | Ok (Some data) => n < readIntFromSecret data "min_available_version" -> ~ available v n
    | Err _ => True
    end;
  Config_law : forall v data n, available (WriteWithContext (configPath mount keyName) data v).1 n <-> available v n;
  Trim_law : forall v k n,
    let '(v', res) := WriteWithContext (trimPath mount keyName) {["min_available_version" := k]} v in
    match res with
    | Ok _ => available v' n <-> available v n /\ k <= n
    | Err _ => (available v' n <-> available v n) \/ (available v' n <-> available v n /\ k <= n)
    end }.

Section destroy_spec.
Context {V : Type} `{!vaultLogicalClient V} (mount keyName : string) `{!VaultLaws V mount keyName}.

Lemma DestroyDEK_keeps hint n N v : parseKEKHintVersion hint = Some N -> N < n ->
  (available (DestroyDEK mount keyName hint v).1 n <-> available v n).
Proof.
  intros Hp Hn. unfold DestroyDEK. rewrite Hp. unfold bind, on_vault.
  pose proof (Read_law v n) as Hr. destruct (ReadWithContext _ v) as [v1 [[data|]|]]; destruct Hr as [Hr _]; [|done..].
  destruct (N <? _); [done|].
  pose proof (Config_law v1 {["min_decryption_version" := N + 1; "min_encryption_version" := N + 1]} n) as Hc.
  destruct (WriteWithContext (configPath _ _) _ v1) as [v2 [[]|]]; cbn [fst] in *; [|by rewrite Hc].
  pose proof (Trim_law v2 (N + 1) n) as Ht.
  destruct (WriteWithContext (trimPath _ _) _ v2) as [v3 [[]|]]; cbn [ret fst] in *.
  - rewrite Ht, Hc, Hr. intuition lia.
  - destruct Ht as [Ht|Ht]; rewrite Ht, Hc, Hr; intuition lia.
Qed.

Lemma DestroyDEK_no_new hint n v : available (DestroyDEK mount keyName hint v).1 n -> available v n.
Proof.
  unfold DestroyDEK. destruct (parseKEKHintVersion hint) as [N|]; [|done]. unfold bind, on_vault.
  pose proof (Read_law v n) as Hr. destruct (ReadWithContext _ v) as [v1 [[data|]|]]; destruct Hr as [Hr _];
    [|by rewrite Hr..].
  destruct (N <? _); [by rewrite Hr|].
  pose proof (Config_law v1 {["min_decryption_version" := N + 1; "min_encryption_version" := N + 1]} n) as Hc.
  destruct (WriteWithContext (configPath _ _) _ v1) as [v2 [[]|]]; cbn [fst] in *; [|by rewrite Hc, Hr].
  pose proof (Trim_law v2 (N + 1) n) as Ht.
  destruct (WriteWithContext (trimPath _ _) _ v2) as [v3 [[]|]]; cbn [ret fst] in *.
  - rewrite Ht, Hc, Hr. tauto.
  - destruct Ht as [Ht|Ht]; rewrite Ht, Hc, Hr; tauto.
Qed.

(** A destruction that reports success leaves no version up to the
    partition's own. *)
Lemma DestroyDEK_ok hint v v' N : DestroyDEK mount keyName hint v = (v', Ok N) ->
  parseKEKHintVersion hint = Some N /\ ~ available v' N.
Proof.
  intros HD. unfold DestroyDEK in HD. destruct (parseKEKHintVersion hint) as [M|] eqn:Hp; [|done].
  unfold bind, on_vault in HD. pose proof (Read_law v M) as Hr.
  destruct (ReadWithContext _ v) as [v1 [[data|]|]]; destruct Hr as [Hr Hn]; [| |done].
  - destruct (Z.ltb_spec M (readIntFromSecret data "min_available_version")) as [Hlt|Hge].
    + injection HD as <- <-. rewrite Hr. split; [done|by apply Hn].
    + destruct (WriteWithContext (configPath _ _) _ v1) as [v2 [[]|]]; [|done].
      pose proof (Trim_law v2 (M + 1) M) as Ht.
      destruct (WriteWithContext (trimPath _ _) _ v2) as [v3 [[]|]]; [|done]. injection HD as <- <-.
      split; [done|]. rewrite Ht. lia.
  - injection HD as <- <-. by rewrite Hr.
Qed.
End destroy_spec.

(** ** The workflow *)

Record EligiblePartition := mkEligible {
  ep_Year : Z; ep_Month : Z; ep_PartitionName : string; ep_LakeURI : string;
  ep_ArchivedAt : time; ep_KEKHint : string }.

(** 7 years and 30 days. *)
Definition DEKDestructionRetentionDays : Z := 365 * 7 + 30.

Inductive skip_reason :=
| missing_kek_hint
| legal_hold_error
| legal_hold (reason : string)
| approval_error
| approval_rejected (reason : string)
| destroy_error
| emit_error.

#[export] Instance skip_reason_eq_dec : EqDecision skip_reason.
Proof. solve_decision. Defined.

Record DEKDestructionResult := mkDEKResult {
  PartitionsScanned : Z; KeysDestroyed : Z; Skipped : list (string * skip_reason) }.

(** Both gates answer a verdict and a reason; each attempt may be answered
    differently. *)
Definition LegalHoldChecker := nat -> string -> result unit (bool * string).
Definition OperatorApprover := nat -> EligiblePartition -> result unit (bool * string).

Definition staticLegalHoldChecker (held : bool) (reason : string) : LegalHoldChecker := fun _ _ => Ok (held, reason).
Definition AutoApproveStub : OperatorApprover := fun _ _ => Ok (true, "").

Inductive dstep := DCheck | DApprove | DDestroy | DEmit.

Section workflow.
Context {V B : Type} `{!vaultLogicalClient V} `{!BillingClient B} (mount keyName : string).
Context (IsHeld : LegalHoldChecker) (RequestApproval : OperatorApprover).
(** What becomes of the attempts of a step for the [n]th partition. *)
Context (script : nat -> dstep -> list delivery).
Notation W := (V * B)%type.

Definition CheckLegalHold (LakeURI : string) (i : nat) : act W (bool * string) := fun w =>
  (w, match IsHeld i LakeURI with Ok r => Ok r | Err _ => Err (Failed "legal hold") end).
Definition RequestOperatorApproval (p : EligiblePartition) (i : nat) : act W (bool * string) := fun w =>
  (w, match RequestApproval i p with Ok r => Ok r | Err _ => Err (Failed "approval") end).
Definition DestroyDEKActivity (hint : string) : act W Z := fun w =>
  let '(v, res) := DestroyDEK mount keyName hint w.1 in ((v, w.2), res).
Definition EmitDEKDestroyed (i : DEKDestroyedInput) : act W unit := fun w =>
  let '(b, res) := RecordDEKDestroyed i w.2 in
  ((w.1, b), match res with Ok _ => Ok tt | Err _ => Err (Failed "emit") end).

Definition partition_tag (p : EligiblePartition) : string :=
  fmt_0d 4 (ep_Year p) +:+ "-" +:+ fmt_0d 2 (ep_Month p) +:+ "-" +:+ ep_PartitionName p.

(** What the body of the loop does with one partition: its skip entry, if
    any, and whether the key counts as destroyed. *)
Definition process_partition (n : nat) (p : EligiblePartition) (w : W) : W * (option skip_reason * bool) :=
  if bool_decide (ep_KEKHint p = "") then (w, (Some missing_kek_hint, false))
  else
    match ExecuteActivity (CheckLegalHold (ep_LakeURI p)) (script n DCheck) w with
    | (w, Err _) => (w, (Some legal_hold_error, false))
    | (w, Ok (held, reason)) =>
        if held : bool then (w, (Some (legal_hold reason), false))
        else
          match ExecuteActivity (RequestOperatorApproval p) (script n DApprove) w with
          | (w, Err _) => (w, (Some approval_error, false))
          | (w, Ok (approved, reason)) =>
              if negb approved then (w, (Some (approval_rejected reason), false))
              else
                match ExecuteActivity (fun _ => DestroyDEKActivity (ep_KEKHint p)) (script n DDestroy) w with
                | (w, Err _) => (w, (Some destroy_error, false))
                | (w, Ok version) =>
                    match ExecuteActivity (fun _ => EmitDEKDestroyed (mkDestroyedInput (ep_Year p) (ep_Month p)
                            (ep_PartitionName p) (ep_KEKHint p) version)) (script n DEmit) w with
                    | (w, Err _) => (w, (Some emit_error, true))
                    | (w, Ok _) => (w, (None, true))
                    end
                end
          end
    end.

Fixpoint destroy_loop (n : nat) (ps : list EligiblePartition) (w : W) : W * (list (string * skip_reason) * Z) :=
  match ps with
  | [] => (w, ([], 0))
  | p :: ps' =>
      let '(w, (skip, destroyed)) := process_partition n p w in
      let '(w, (skips, keys)) := destroy_loop (S n) ps' w in
      (w, (match skip with Some r => (partition_tag p, r) :: skips | None => skips end,
           (if destroyed : bool then 1 else 0) + keys))
  end.

(** [ListEligiblePartitions] answers the rows archived before the cutoff. *)
Definition DEKDestructionWorkflow (ListEligible : time -> result failure (list EligiblePartition)) (Cutoff : time)
  : act W DEKDestructionResult := fun w =>
  if IsZero Cutoff then (w, Err (Failed "dek destruction: cutoff is zero"))
  else
    match ListEligible Cutoff with
    | Err e => (w, Err e)
    | Ok ps =>
        let '(w', (skips, keys)) := destroy_loop 0 ps w in
        (w', Ok (mkDEKResult (Z.of_nat (length ps)) keys skips))
    end.

Definition destruction_cutoff (t : time) : time := AddDate t 0 0 (- DEKDestructionRetentionDays).
Definition DEKDestructionRouterWorkflow ListEligible (t : time) : act W DEKDestructionResult :=
  DEKDestructionWorkflow ListEligible (destruction_cutoff t).
End workflow.

(** ** Hints *)

Lemma after_last_app p a l r : after_last p l = Some r -> after_last p (a ++ l) = Some r.
Proof. intros Hl. induction a as [|c a IH]; [done|]. cbn [app after_last]. by rewrite IH. Qed.

Lemma after_last_absent l : "-"%char ∉ l -> after_last (s2l "-v") l = None.
Proof.
  induction l as [|c l IH]; intros Hn; [done|]. cbn [after_last].
  rewrite IH by (intros Hi; apply Hn; by right). cbn.
  rewrite bool_decide_eq_false_2; [done|]. intros <-. apply Hn. by left.
Qed.

(** The hint of the Vault provider names the version it used. *)
Lemma parseKEKHintVersion_hint n : 1 <= n <= int64_max ->
  parseKEKHintVersion ("platform-billing-v" +:+ Itoa n) = Some n.
Proof.
  intros Hn. unfold parseKEKHintVersion. rewrite bool_decide_false by done.
  destruct (Itoa_nonneg n ltac:(lia)) as (ds & Hds & Hd & Hne & Hv & _).
  rewrite s2l_app, Hds. change (s2l "platform-billing-v") with (s2l "platform-billing" ++ s2l "-v").
  rewrite <- app_assoc.
  assert (Hnd : "-"%char ∉ ds) by (by apply digits_no_char).
  assert (E : after_last (s2l "-v") (s2l "-v" ++ ds) = Some ds).
  { change (s2l "-v" ++ ds) with ("-"%char :: "v"%char :: ds). cbn [after_last].
    rewrite (after_last_absent ds Hnd). reflexivity. }
  rewrite (after_last_app _ _ _ _ E).
  rewrite Atoi_digits by (try done; rewrite Hv; unfold is_int64, int64_min; lia).
  rewrite Hv, (proj2 (Z.ltb_ge _ _)) by lia. done.
Qed.

Example hints : map parseKEKHintVersion ["stub-v0"; ""; "platform-billing-v12"; "a-v1-v3"; "platform-billing-vx"; "v1"]
  = [None; None; Some 12; Some 3; None; None].
Proof. vm_compute. reflexivity. Qed.

(** ** The gates *)

Section gates.
Context {V B : Type} `{!vaultLogicalClient V} `{!BillingClient B} (mount keyName : string).
Context `{!VaultLaws V mount keyName}.
Context (IsHeld : LegalHoldChecker) (RequestApproval : OperatorApprover) (script : nat -> dstep -> list delivery).
Notation W := (V * B)%type.
Notation process := (process_partition mount keyName IsHeld RequestApproval script).
Notation loop := (destroy_loop mount keyName IsHeld RequestApproval script).
Implicit Types w : W.

(** Some attempt found the partition not held, and some attempt had it
    approved. *)
Definition cleared (p : EligiblePartition) : Prop :=
  ep_KEKHint p <> "" /\ (exists i r, IsHeld i (ep_LakeURI p) = Ok (false, r)) /\
  (exists i r, RequestApproval i p = Ok (true, r)).

Lemma CheckLegalHold_run w w' uri s r :
  ExecuteActivity (CheckLegalHold IsHeld uri) s w = (w', r) ->
  w' = w /\ forall x, r = Ok x -> exists i, IsHeld i uri = Ok x.
Proof.
  intros E. pose proof (ExecuteActivity_preserves (CheckLegalHold IsHeld uri) (fun v => v = w) s) as Hp.
  assert (Hs : forall j, preserves (fun v => v = w) (CheckLegalHold (V := V) (B := B) IsHeld uri j)) by (by intros j v ->).
  specialize (Hp Hs w eq_refl). rewrite E in Hp. split; [done|]. intros x ->.
  destruct (ExecuteActivity_ok _ (fun v => v = w) s w w' x Hs eq_refl E) as (j & w0 & -> & Hj).
  unfold CheckLegalHold in Hj. exists j. destruct (IsHeld j uri); [|done]. by injection Hj as _ ->.
Qed.

Lemma RequestApproval_run w w' p s r :
  ExecuteActivity (RequestOperatorApproval RequestApproval p) s w = (w', r) ->
  w' = w /\ forall x, r = Ok x -> exists i, RequestApproval i p = Ok x.
Proof.
  intros E. pose proof (ExecuteActivity_preserves (RequestOperatorApproval RequestApproval p) (fun v => v = w) s) as Hp.
  assert (Hs : forall j, preserves (fun v => v = w) (RequestOperatorApproval (V := V) (B := B) RequestApproval p j)) by (by intros j v ->).
  specialize (Hp Hs w eq_refl). rewrite E in Hp. split; [done|]. intros x ->.
  destruct (ExecuteActivity_ok _ (fun v => v = w) s w w' x Hs eq_refl E) as (j & w0 & -> & Hj).
  unfold RequestOperatorApproval in Hj. exists j. destruct (RequestApproval j p); [|done]. by injection Hj as _ ->.
Qed.

(** An activity on the vault alone, under retries. *)
Lemma vault_activity (P : V -> Prop) hint s : preserves P (DestroyDEK mount keyName hint) ->
  preserves (fun w : W => P w.1) (ExecuteActivity (fun _ => DestroyDEKActivity mount keyName hint) s).
Proof.
  intros Hp. apply ExecuteActivity_preserves. intros _ w Hw. unfold DestroyDEKActivity.
  specialize (Hp w.1 Hw). by destruct (DestroyDEK _ _ _ _).
Qed.

Lemma emit_activity (P : V -> Prop) i s :
  preserves (fun w : W => P w.1) (ExecuteActivity (fun _ => EmitDEKDestroyed i) s).
Proof.
  apply ExecuteActivity_preserves. intros _ w Hw. unfold EmitDEKDestroyed. by destruct (RecordDEKDestroyed _ _).
Qed.

Lemma unavailable_stays n hint : preserves (fun v => ~ available v n) (DestroyDEK mount keyName hint).
Proof. intros v Hv Ha. apply Hv. by eapply DestroyDEK_no_new. Qed.

(** One partition: either no version changes, or the partition was cleared
    and no version after its own changes; a key that counts as destroyed is
    gone, and nothing comes back. *)
Lemma process_spec k p w w' skip d : process k p w = (w', (skip, d)) ->
  ((forall n, available w'.1 n <-> available w.1 n) \/
   (cleared p /\ forall N, parseKEKHintVersion (ep_KEKHint p) = Some N ->
      forall n, N < n -> (available w'.1 n <-> available w.1 n))) /\
  (forall n, available w'.1 n -> available w.1 n) /\
  (d = true -> exists N, parseKEKHintVersion (ep_KEKHint p) = Some N /\ ~ available w'.1 N) /\
  (skip = None <-> d = true /\ skip <> Some emit_error) /\ (skip = Some emit_error -> d = true).
Proof.
  intros E. unfold process_partition in E.
  destruct (bool_decide (ep_KEKHint p = "")) eqn:Eh; [simplify_eq; naive_solver|]. apply bool_decide_eq_false in Eh.
  destruct (ExecuteActivity (CheckLegalHold IsHeld (ep_LakeURI p)) (script k DCheck) w) as [w1 rc] eqn:E1.
  apply CheckLegalHold_run in E1 as [-> Hc].
  destruct rc as [[held reason]|]; [|simplify_eq; naive_solver].
  destruct held; [simplify_eq; naive_solver|]. destruct (Hc _ eq_refl) as [ic Hic].
  destruct (ExecuteActivity (RequestOperatorApproval RequestApproval p) (script k DApprove) w) as [w2 ra] eqn:E2.
  apply RequestApproval_run in E2 as [-> Ha].
  destruct ra as [[approved areason]|]; [|simplify_eq; naive_solver].
  destruct approved; cbn [negb] in E; [|simplify_eq; naive_solver]. destruct (Ha _ eq_refl) as [ia Hia].
  assert (Hcl : cleared p) by (split_and!; eauto).
  set (run := ExecuteActivity (fun _ => DestroyDEKActivity mount keyName (ep_KEKHint p)) (script k DDestroy)) in E.
  assert (Hmono : forall n, available (run w).1.1 n -> available w.1 n).
  { intros n. apply (vault_activity (fun v => available v n -> available w.1 n) (ep_KEKHint p) (script k DDestroy)); [|done].
    intros v Hv Hd. by apply Hv, (DestroyDEK_no_new mount keyName (ep_KEKHint p)). }
  assert (Hkeep : forall N, parseKEKHintVersion (ep_KEKHint p) = Some N ->
      forall n, N < n -> (available (run w).1.1 n <-> available w.1 n)).
  { intros N HN n Hn. apply (vault_activity (fun v => available v n <-> available w.1 n) (ep_KEKHint p) (script k DDestroy)); [|done].
    intros v Hv. by rewrite (DestroyDEK_keeps mount keyName _ n N). }
  assert (Hok : forall w' N, run w = (w', Ok N) -> parseKEKHintVersion (ep_KEKHint p) = Some N /\ ~ available w'.1 N).
  { intros w3 N HN. apply (ExecuteActivity_ok _ (fun _ => True)) in HN as (j & w0 & _ & HN); [|done|done].
    unfold DestroyDEKActivity in HN. destruct (DestroyDEK mount keyName (ep_KEKHint p) w0.1) as [v rv] eqn:Ev.
    simplify_eq. apply (DestroyDEK_ok mount keyName) in Ev. exact Ev. }
  destruct (run w) as [w3 [version|]] eqn:E3; cbn [fst] in *; [|simplify_eq; naive_solver].
  destruct (Hok _ _ eq_refl) as [HN Hgone].
  set (i := mkDestroyedInput _ _ _ _ _) in E.
  assert (Hem : forall P : V -> Prop, P w3.1 -> P (ExecuteActivity (A := unit) (fun _ => EmitDEKDestroyed i) (script k DEmit) w3).1.1)
    by (intros P; apply (emit_activity P i (script k DEmit) w3)).
  destruct (ExecuteActivity _ (script k DEmit) w3) as [w4 re]. cbn [fst] in Hem.
  assert (Hall : ((forall n, available w4.1 n <-> available w.1 n) \/
      (cleared p /\ forall N, parseKEKHintVersion (ep_KEKHint p) = Some N ->
         forall n, N < n -> (available w4.1 n <-> available w.1 n))) /\
    (forall n, available w4.1 n -> available w.1 n) /\
    (exists N, parseKEKHintVersion (ep_KEKHint p) = Some N /\ ~ available w4.1 N)).
  { apply (Hem (fun v => ((forall n, available v n <-> available w.1 n) \/
      (cleared p /\ forall N, parseKEKHintVersion (ep_KEKHint p) = Some N ->
         forall n, N < n -> (available v n <-> available w.1 n))) /\
    (forall n, available v n -> available w.1 n) /\
    (exists N, parseKEKHintVersion (ep_KEKHint p) = Some N /\ ~ available v N))). eauto 10. }
  destruct Hall as (H1 & H2 & H3). destruct re as [[]|]; simplify_eq; (split; [done|]; split; [done|]); naive_solver.
Qed.

(** A partition whose hint names no version changes nothing. *)
Lemma process_unparsed k p w w' r :
  parseKEKHintVersion (ep_KEKHint p) = None -> process k p w = (w', r) -> forall n, available w'.1 n <-> available w.1 n.
Proof.
  intros Hp E n. assert (Hd : preserves (fun v => available v n <-> available w.1 n) (DestroyDEK mount keyName (ep_KEKHint p))).
  { intros v Hv. unfold DestroyDEK. by rewrite Hp. }
  unfold process_partition in E. destruct (bool_decide _); [by simplify_eq|].
  destruct (ExecuteActivity (CheckLegalHold IsHeld (ep_LakeURI p)) _ w) as [w1 rc] eqn:E1.
  apply CheckLegalHold_run in E1 as [-> _]. destruct rc as [[[] reason]|]; [by simplify_eq| |by simplify_eq].
  destruct (ExecuteActivity (RequestOperatorApproval RequestApproval p) _ w) as [w2 ra] eqn:E2.
  apply RequestApproval_run in E2 as [-> _].
  destruct ra as [[[] areason]|]; cbn [negb] in E; [|by simplify_eq|by simplify_eq].
  pose proof (vault_activity _ (ep_KEKHint p) (script k DDestroy) Hd w (iff_refl _)) as Hv.
  destruct (ExecuteActivity _ (script k DDestroy) w) as [w3 [version|]]; cbn [fst] in Hv; [|by simplify_eq].
  set (i := mkDestroyedInput _ _ _ _ _) in E.
  pose proof (emit_activity (fun v => available v n <-> available w.1 n) i (script k DEmit) w3 Hv) as He.
  destruct (ExecuteActivity _ (script k DEmit) w3) as [w4 [[]|]]; by simplify_eq.
Qed.

Lemma loop_spec ps : forall k w w' skips keys, loop k ps w = (w', (skips, keys)) ->
  (forall n, (forall p, p ∈ ps -> cleared p -> forall N, parseKEKHintVersion (ep_KEKHint p) = Some N -> N < n) ->
     (available w'.1 n <-> available w.1 n)) /\
  (forall n, available w'.1 n -> available w.1 n) /\
  keys + Z.of_nat (length skips) = Z.of_nat (length ps) + Z.of_nat (length (filter (fun s => s.2 = emit_error) skips)) /\
  0 <= keys.
Proof.
  induction ps as [|p ps IH]; intros k w w' skips keys E; cbn [destroy_loop] in E.
  { simplify_eq. split_and!; [done|done|done|lia]. }
  destruct (process k p w) as [w1 [skip d]] eqn:E1. destruct (loop (S k) ps w1) as [w2 [skips2 keys2]] eqn:E2.
  simplify_eq. destruct (process_spec _ _ _ _ _ _ E1) as (Hk & Hm & _ & Hd & He).
  destruct (IH _ _ _ _ _ E2) as (IHk & IHm & IHc & IH0). split_and!.
  - intros n Hn. rewrite IHk by (intros q Hq; apply Hn; by right).
    destruct Hk as [Hk|[Hc Hk]]; [apply Hk|]. destruct (parseKEKHintVersion (ep_KEKHint p)) as [N|] eqn:HN.
    + apply (Hk N eq_refl). by apply (Hn p ltac:(left) Hc).
    + by apply (process_unparsed _ _ _ _ _ HN E1).
  - intros n Hn. by apply Hm, IHm.
  - destruct skip as [r|].
    + rewrite filter_cons. destruct (decide _) as [Hr|Hr]; cbn [snd] in Hr.
      * rewrite (He ltac:(congruence)). cbn [length]. lia.
      * destruct d; [destruct Hd as [_ Hd]; discriminate Hd; split; congruence|]. cbn [length]. lia.
    + rewrite (proj1 (proj1 Hd eq_refl)). cbn [length]. lia.
  - destruct d; lia.
Qed.

(** C12: Crypto-shredding respects the gates: a version of the key is still
    there after a run if every listed partition that has that version or a
    later one was held, not approved, or without a usable hint.  (A partition
    does not protect its key by itself: see
    [later_partition_shreds_held_one].) *)
Theorem shredding_needs_clearance ListEligible cutoff w w' r n :
  DEKDestructionWorkflow mount keyName IsHeld RequestApproval script ListEligible cutoff w = (w', Ok r) ->
  (forall ps p N, ListEligible cutoff = Ok ps -> p ∈ ps -> cleared p ->
     parseKEKHintVersion (ep_KEKHint p) = Some N -> N < n) ->
  available w'.1 n <-> available w.1 n.
Proof.
  intros E Hn. unfold DEKDestructionWorkflow in E. destruct (IsZero cutoff); [done|].
  destruct (ListEligible cutoff) as [ps|]; [|done].
  destruct (loop 0 ps w) as [w1 [skips keys]] eqn:El. simplify_eq.
  destruct (loop_spec _ _ _ _ _ _ El) as (Hk & _). apply Hk. intros p Hp Hc N HN. by eapply Hn.
Qed.

(** The result accounts for every partition of the run: each one is
    counted as destroyed or has a skip entry, and only those whose audit event
    could not be written have both; no version of the key comes back. *)
Theorem destruction_accounts_for_all ListEligible cutoff w w' r :
  DEKDestructionWorkflow mount keyName IsHeld RequestApproval script ListEligible cutoff w = (w', Ok r) ->
  KeysDestroyed r + Z.of_nat (length (Skipped r)) =
    PartitionsScanned r + Z.of_nat (length (filter (fun s => s.2 = emit_error) (Skipped r))) /\
  0 <= KeysDestroyed r /\ (forall n, available w'.1 n -> available w.1 n).
Proof.
  intros E. unfold DEKDestructionWorkflow in E. destruct (IsZero cutoff); [done|].
  destruct (ListEligible cutoff) as [ps|]; [|done].
  destruct (loop 0 ps w) as [w1 [skips keys]] eqn:El. simplify_eq. cbn [KeysDestroyed Skipped PartitionsScanned].
  destruct (loop_spec _ _ _ _ _ _ El) as (_ & Hm & Hc & H0). auto.
Qed.
End gates.

(** ** A transit key

    As Vault documents it: versions from the minimum available one to the
    latest, minimum versions that may not pass the latest, and a trim that may
    not pass them. *)
Record transit := mkTransit { latest : Z; min_available : Z; min_decryption : Z; min_encryption : Z }.

Definition t_mount : string := DefaultVaultTransitMount.
Definition t_key : string := DefaultVaultBillingKeyName.

#[export] Instance transit_client : vaultLogicalClient transit := {
  ReadWithContext p v :=
    (v, Ok (if decide (p = keyPath t_mount t_key)
            then Some {["min_available_version" := FInt (min_available v)]} else None));
  WriteWithContext p data v :=
    if decide (p = configPath t_mount t_key) then
      let md := default (min_decryption v) (data !! "min_decryption_version") in
      let me := default (min_encryption v) (data !! "min_encryption_version") in
      if (latest v <? md) || (latest v <? me) then (v, Err tt)
      else (mkTransit (latest v) (min_available v) md me, Ok tt)
    else if decide (p = trimPath t_mount t_key) then
      match data !! "min_available_version" with
      | Some k => if (min_decryption v <? k) || (min_encryption v <? k) || (k <? min_available v) then (v, Err tt)
                  else (mkTransit (latest v) k (min_decryption v) (min_encryption v), Ok tt)
      | None => (v, Err tt)
      end
    else (v, Err tt) }.

Lemma transit_paths : configPath t_mount t_key <> keyPath t_mount t_key /\
  trimPath t_mount t_key <> configPath t_mount t_key.
Proof. split; discriminate. Qed.

#[export, refine] Instance transit_laws : VaultLaws transit t_mount t_key := {
  available v n := min_available v <= n <= latest v }.
Proof.
  - intros v n. unfold ReadWithContext, transit_client. rewrite decide_True by done. split; [done|].
    intros Hn. change (readIntFromSecret _ _) with (min_available v) in Hn. lia.
  - intros v data n. unfold WriteWithContext, transit_client. rewrite decide_True by done.
    by destruct (_ || _).
  - intros v k n. unfold WriteWithContext, transit_client.
    rewrite decide_False by (apply transit_paths). rewrite decide_True by done.
    rewrite lookup_singleton_eq.
    destruct (Z.ltb_spec (min_decryption v) k); cbn [orb]; [by left|].
    destruct (Z.ltb_spec (min_encryption v) k); cbn [orb]; [by left|].
    destruct (Z.ltb_spec k (min_available v)); cbn [orb]; [by left|]. cbn [min_available latest]. lia.
Defined.

(** Three versions; the January partition was sealed with version 1, the
    February one with version 2. *)
Definition sample_transit : transit := mkTransit 3 1 0 0.
Definition january : EligiblePartition :=
  mkEligible 2026 1 "billing.usage_events_2026_01" "s3://lake/jan.parquet" 0 "platform-billing-v1".
Definition february : EligiblePartition :=
  mkEligible 2026 2 "billing.usage_events_2026_02" "s3://lake/feb.parquet" 0 "platform-billing-v2".
Definition hold_on (uri : string) : LegalHoldChecker := fun _ u => Ok (bool_decide (u = uri), "litigation").

Definition sample_run (held : string) : transit * StubBillingClient * result failure DEKDestructionResult :=
  DEKDestructionWorkflow t_mount t_key (hold_on held) AutoApproveStub (fun _ _ => [])
    (fun _ => Ok [january; february]) 1 (sample_transit, NewStubBillingClient).

(** January is under legal hold, is skipped for it, and its key is destroyed
    all the same: February's trim deletes every version up to 2. *)
Lemma later_partition_shreds_held_one :
  let '(w, res) := sample_run "s3://lake/jan.parquet" in
  res = Ok (mkDEKResult 2 1 [("2026-01-billing.usage_events_2026_01", legal_hold "litigation")]) /\
  available sample_transit 1 /\ ~ available w.1 1.
Proof.
  destruct (sample_run _) as [w res] eqn:E. vm_compute in E. injection E as <- <-.
  split; [reflexivity|]. cbn. lia.
Qed.

(** With February held instead, its version survives January's destruction. *)
Lemma shredding_needs_clearance_witness :
  available (sample_run "s3://lake/feb.parquet").1.1 2 <-> available sample_transit 2.
Proof.
  apply (shredding_needs_clearance t_mount t_key (hold_on "s3://lake/feb.parquet") AutoApproveStub (fun _ _ => [])
    (fun _ => Ok [january; february]) 1 (sample_transit, NewStubBillingClient) _
    (mkDEKResult 2 1 [("2026-02-billing.usage_events_2026_02", legal_hold "litigation")])).
  - vm_compute. reflexivity.
  - intros ps p N [= <-] Hp (_ & (i & r & Hh) & _) HN.
    apply list_elem_of_In in Hp. destruct Hp as [<-|[<-|[]]].
    + vm_compute in HN. injection HN as <-. lia.
    + vm_compute in Hh. discriminate Hh.
Defined.

Lemma destruction_accounts_for_all_witness :
  KeysDestroyed (mkDEKResult 2 1 [("2026-02-billing.usage_events_2026_02", legal_hold "litigation")]) + 1 = 2 + 0 /\
  0 <= 1 /\ (forall n, available (sample_run "s3://lake/feb.parquet").1.1 n -> available sample_transit n).
Proof.
  apply (destruction_accounts_for_all t_mount t_key (hold_on "s3://lake/feb.parquet") AutoApproveStub (fun _ _ => [])
    (fun _ => Ok [january; february]) 1 (sample_transit, NewStubBillingClient) _
    (mkDEKResult 2 1 [("2026-02-billing.usage_events_2026_02", legal_hold "litigation")])).
  vm_compute. reflexivity.
Defined.

(** ** Retention *)

(** The cutoff lies exactly 2585 days of 24 hours before the run. *)
Lemma destruction_cutoff_exact t : destruction_cutoff t = t - 2585 * (24 * Hour).
Proof. unfold destruction_cutoff. rewrite AddDate_days. unfold DEKDestructionRetentionDays, seconds_per_day, Hour, Second. lia. Qed.

(** Seven calendar years hold a leap day or two, so a partition archived on
    2026-01-01 is eligible from 2033-01-29 on, two days before seven years and
    30 days have passed. *)
Example retention_short_of_seven_years :
  destruction_cutoff (1990569600 * Second) = 1767225600 * Second /\
  (RFC3339 (1767225600 * Second), RFC3339 (1990569600 * Second)) = ("2026-01-01T00:00:00Z", "2033-01-29T00:00:00Z").
Proof. vm_compute. auto. Qed.
