(* ===== verification/Grpc.v ===== *)
(** * gRPC statuses

    The status codes the services answer with, and a call of a service whose
    errors are turned into one.  Messages are not modelled. *)

From S2P Require Import Prelude Actions.

Inductive code := InvalidArgument | NotFound | Unimplemented | Internal.

#[export] Instance code_eq_dec : EqDecision code.
Proof. solve_decision. Defined.

Definition with_status {E W A} (mapErr : E -> code) (m : action E W A) : action code W A := fun w =>
  match m w with (w', Ok a) => (w', Ok a) | (w', Err e) => (w', Err (mapErr e)) end.

Lemma with_status_ok {E W A} mapErr (m : action E W A) w w' a : with_status mapErr m w = (w', Ok a) <-> m w = (w', Ok a).
Proof. unfold with_status. destruct (m w) as [? [?|?]]; naive_solver. Qed.
Lemma with_status_state {E W A} mapErr (m : action E W A) w : (with_status mapErr m w).1 = (m w).1.
Proof. unfold with_status. by destruct (m w) as [? [?|?]]. Qed.

(** [uuid.Parse] on a field of a request. *)
Definition parse_id {W} (Parse : string -> option uuid) (s : string) : action code W uuid :=
  match Parse s with Some id => ret id | None => throw InvalidArgument end.
