(* ===== verification/MetadataStore.v ===== *)
(** * The metadata store

    [plane/data/store/metadata.go] (the rows and the interfaces) and the
    in-memory implementation of [plane/data/store/stub]: metadata.go and
    billing.go.

    A transaction reads the live store: its callback runs without the lock, so
    every access may see a later committed state.  [seen] is the sequence of
    stores it sees.  Pointers are copied at every boundary of the code and no
    row is changed in place, so rows are values; a nil map is the empty one.
    Where the code ranges over a map, the order is that of [MapRange].  The
    payload of an event is of any type. *)

From S2P Require Import Prelude GoStd GoFmt Sha256 Json Uuid Floats Outbox Actions.

(** ** Errors

    [errors.New], told apart by their text, and the errors a database reports
    under a SQLSTATE. *)
Inductive error := errors_New (msg : string) | PgError (code : string).

Definition SerializationFailure : error := PgError "40001".

#[export] Instance error_eq_dec : EqDecision error.
Proof. solve_decision. Defined.

Definition IsRetryable (e : error) : bool := bool_decide (e = SerializationFailure).

(** ** Rows *)

Record HumanUser := mkHumanUser {
  u_ID : uuid; u_Email : string; u_CredentialHash : string; u_RateBucket : string;
  u_QuotaAccountID : option uuid; u_CreatedAt : time; u_UpdatedAt : time }.

Record AgentIdentity := mkAgent {
  a_ID : uuid; a_DisplayName : string; a_ParentUserID : uuid; a_PermissionScope : list string;
  a_RateBucket : string; a_SessionQuota : option Z; a_TokensPerWeekCap : option Z; a_ReputationScore : float;
  a_QuotaAccountID : option uuid; a_CreatedAt : time; a_UpdatedAt : time }.

Record OrgMembership := mkMembership { om_OrgID : uuid; om_UserID : uuid; om_Role : string }.

Record CloneTokenRow := mkCloneTokenRow {
  ct_ID : uuid; ct_Token : string; ct_PrincipalID : uuid; ct_RepoID : uuid; ct_ExpiresAt : time; ct_CreatedAt : time }.

Record IdentityCacheEntry := mkCacheEntry {
  ce_PrincipalID : uuid; ce_Kind : string; ce_RateBucket : string; ce_QuotaID : option uuid }.

Record Repository := mkRepository {
  r_ID : uuid; r_OrgID : uuid; r_Name : string; r_Slug : string; r_OwnerID : uuid; r_DefaultBranch : string;
  r_Visibility : string; r_ReplicaSetID : string; r_HomeRegion : string; r_CreatedAt : time; r_UpdatedAt : time }.

Record QuotaAccount := mkQuotaAccount {
  qa_ID : uuid; qa_OrgID : uuid; qa_PlanTier : string; qa_TokensPerWeekCap : Z; qa_ComputeMinutesPerMonthCap : Z;
  qa_StorageGBCap : Z; qa_CreatedAt : time; qa_UpdatedAt : time }.

Record PartitionArchive := mkPartitionArchive {
  pa_ID : uuid; pa_Year : Z; pa_Month : Z; pa_PartitionName : string; pa_LakeURI : string; pa_RowCount : Z;
  pa_BytesWritten : Z; pa_ArchivedAt : time }.

Definition set_ReputationScore (x : float) (a : AgentIdentity) : AgentIdentity :=
  mkAgent (a_ID a) (a_DisplayName a) (a_ParentUserID a) (a_PermissionScope a) (a_RateBucket a) (a_SessionQuota a)
    (a_TokensPerWeekCap a) x (a_QuotaAccountID a) (a_CreatedAt a) (a_UpdatedAt a).
Definition set_PermissionScope (l : list string) (a : AgentIdentity) : AgentIdentity :=
  mkAgent (a_ID a) (a_DisplayName a) (a_ParentUserID a) l (a_RateBucket a) (a_SessionQuota a)
    (a_TokensPerWeekCap a) (a_ReputationScore a) (a_QuotaAccountID a) (a_CreatedAt a) (a_UpdatedAt a).

(** ** Iteration over maps *)
Class MapRange := {
  range {A : Type} : gmap uuid A -> list A;
  range_keyed {A : Type} : gmap string A -> list A }.

Class MapRangeLaws (MR : MapRange) : Prop := {
  range_all {A} (m : gmap uuid A) : range m ≡ₚ (map_to_list m).*2;
  range_keyed_all {A} (m : gmap string A) : range_keyed m ≡ₚ (map_to_list m).*2 }.

Definition some_range : MapRange :=
  {| range A m := (map_to_list m).*2; range_keyed A m := (map_to_list m).*2 |}.
#[export] Instance some_range_laws : MapRangeLaws some_range.
Proof. by split. Qed.

Section range.
Context `{MapRangeLaws}.

Lemma elem_of_range {A} (m : gmap uuid A) x : x ∈ range m <-> exists k, m !! k = Some x.
Proof.
  rewrite range_all, list_elem_of_fmap. split.
  - intros ([k y] & -> & Hk). exists k. by apply elem_of_map_to_list in Hk.
  - intros (k & Hk). exists (k, x). split; [done|]. by apply elem_of_map_to_list.
Qed.
Lemma elem_of_range_keyed {A} (m : gmap string A) x : x ∈ range_keyed m <-> exists k, m !! k = Some x.
Proof.
  rewrite range_keyed_all, list_elem_of_fmap. split.
  - intros ([k y] & -> & Hk). exists k. by apply elem_of_map_to_list in Hk.
  - intros (k & Hk). exists (k, x). split; [done|]. by apply elem_of_map_to_list.
Qed.
End range.

(** ** The store and the transaction *)
Section store.
Context {P : Type} {MR : MapRange}.

Record OutboxRecord := mkOutboxRecord {
  or_Domain : Domain; or_AggregateType : string; or_AggregateID : uuid; or_EventType : string;
  or_Payload : P; or_EventID : uuid }.

Record Store := mkStore {
  users : gmap uuid HumanUser;
  agents : gmap uuid AgentIdentity;
  repositories : gmap uuid Repository;
  partitionArchives : gmap string PartitionArchive;
  cloneTokens : gmap uuid CloneTokenRow;
  quotaAccounts : gmap uuid QuotaAccount;
  outbox : list OutboxRecord }.

Definition New : Store := mkStore ∅ ∅ ∅ ∅ ∅ ∅ [].

Definition SeedQuotaAccount (qa : QuotaAccount) (s : Store) : Store :=
  mkStore (users s) (agents s) (repositories s) (partitionArchives s) (cloneTokens s)
    (<[qa_OrgID qa := qa]> (quotaAccounts s)) (outbox s).
Definition CloneTokens (s : Store) : list CloneTokenRow := range (cloneTokens s).
Definition Recorded (s : Store) : list OutboxRecord := outbox s.

Record stubTx := mkTx {
  pendingUsers : gmap uuid HumanUser;
  pendingAgents : gmap uuid AgentIdentity;
  pendingRepositories : gmap uuid Repository;
  pendingPartitionArchives : gmap string PartitionArchive;
  pendingCloneTokens : gmap uuid CloneTokenRow;
  pendingOutbox : list OutboxRecord }.

Definition empty_tx : stubTx := mkTx ∅ ∅ ∅ ∅ ∅ [].

Record txstate := mkTxState { seen : nat -> Store; pending : stubTx }.
Definition txn (A : Type) : Type := action error txstate A.

(** An access to the committed store. *)
Definition peek {A} (f : Store -> A) : txn A := fun t =>
  (mkTxState (fun n => seen t (S n)) (pending t), Ok (f (seen t 0%nat))).
Definition own {A} (f : stubTx -> A) : txn A := fun t => (t, Ok (f (pending t))).
Definition modify (f : stubTx -> stubTx) : txn unit := fun t => (mkTxState (seen t) (f (pending t)), Ok tt).

(** The maps of a row: the transaction's own win, but an archived partition
    that is there already stays. *)
Definition commit (t : stubTx) (s : Store) : Store :=
  mkStore (pendingUsers t ∪ users s) (pendingAgents t ∪ agents s) (pendingRepositories t ∪ repositories s)
    (partitionArchives s ∪ pendingPartitionArchives t) (pendingCloneTokens t ∪ cloneTokens s)
    (quotaAccounts s) (outbox s ++ pendingOutbox t).

(** [view] is what the callback sees of the store, [s] the store when it
    returns. *)
Definition Transact {A} (fn : txn A) (view : nat -> Store) (s : Store) : Store * result error A :=
  match fn (mkTxState view empty_tx) with
  | (t, Ok a) => (commit (pending t) s, Ok a)
  | (_, Err e) => (s, Err e)
  end.

Definition add_event (e : OutboxRecord) (t : stubTx) : stubTx :=
  mkTx (pendingUsers t) (pendingAgents t) (pendingRepositories t) (pendingPartitionArchives t)
    (pendingCloneTokens t) (pendingOutbox t ++ [e]).

(** [eventID] is what [store.NewEventID] answers. *)
Definition WriteOutbox (eventID : uuid) (domain : Domain) (aggregateType : string) (aggregateID : uuid)
    (eventType : string) (payload : P) : txn unit :=
  let! _ := require (Domain_Valid domain) (errors_New "stub: WriteOutbox: invalid domain") in
  modify (add_event (mkOutboxRecord domain aggregateType aggregateID eventType payload eventID)).

(** ** The identity reader *)

Definition GetUserByID (id : uuid) (s : Store) : option HumanUser := users s !! id.
Definition GetUserByEmail (email : string) (s : Store) : option HumanUser :=
  head (filter (fun u => u_Email u = email) (range (users s))).
Definition GetAgentByID (id : uuid) (s : Store) : option AgentIdentity := agents s !! id.
Definition GetAgentsByParentUser (userID : uuid) (s : Store) : list AgentIdentity :=
  filter (fun a => a_ParentUserID a = userID) (range (agents s)).
Definition LookupIdentityForCache (principalID : uuid) (s : Store) : option IdentityCacheEntry :=
  match users s !! principalID with
  | Some u => Some (mkCacheEntry (u_ID u) "human" (u_RateBucket u) (u_QuotaAccountID u))
  | None =>
      match agents s !! principalID with
      | Some a => Some (mkCacheEntry (a_ID a) "agent" (a_RateBucket a) (a_QuotaAccountID a))
      | None => None
      end
  end.

(** ** The identity writer *)

Definition put_user (u : HumanUser) (t : stubTx) : stubTx :=
  mkTx (<[u_ID u := u]> (pendingUsers t)) (pendingAgents t) (pendingRepositories t) (pendingPartitionArchives t)
    (pendingCloneTokens t) (pendingOutbox t).
Definition put_agent (id : uuid) (a : AgentIdentity) (t : stubTx) : stubTx :=
  mkTx (pendingUsers t) (<[id := a]> (pendingAgents t)) (pendingRepositories t) (pendingPartitionArchives t)
    (pendingCloneTokens t) (pendingOutbox t).
Definition put_token (c : CloneTokenRow) (t : stubTx) : stubTx :=
  mkTx (pendingUsers t) (pendingAgents t) (pendingRepositories t) (pendingPartitionArchives t)
    (<[ct_ID c := c]> (pendingCloneTokens t)) (pendingOutbox t).
Definition put_repository (r : Repository) (t : stubTx) : stubTx :=
  mkTx (pendingUsers t) (pendingAgents t) (<[r_ID r := r]> (pendingRepositories t)) (pendingPartitionArchives t)
    (pendingCloneTokens t) (pendingOutbox t).
Definition put_archive (k : string) (pa : PartitionArchive) (t : stubTx) : stubTx :=
  mkTx (pendingUsers t) (pendingAgents t) (pendingRepositories t) (<[k := pa]> (pendingPartitionArchives t))
    (pendingCloneTokens t) (pendingOutbox t).

(** The transaction's own row, or else the committed one. *)
Definition own_or_peek {A} (mine : stubTx -> option A) (theirs : Store -> option A) : txn (option A) :=
  let! m := own mine in
  match m with Some x => ret (Some x) | None => peek theirs end.

Definition tx_GetUserByID (id : uuid) : txn (option HumanUser) :=
  own_or_peek (fun t => pendingUsers t !! id) (GetUserByID id).
Definition tx_GetUserByEmail (email : string) : txn (option HumanUser) :=
  own_or_peek (fun t => head (filter (fun u => u_Email u = email) (range (pendingUsers t)))) (GetUserByEmail email).
Definition tx_GetAgentByID (id : uuid) : txn (option AgentIdentity) :=
  own_or_peek (fun t => pendingAgents t !! id) (GetAgentByID id).
Definition tx_GetAgentsByParentUser (userID : uuid) : txn (list AgentIdentity) := peek (GetAgentsByParentUser userID).
Definition tx_LookupIdentityForCache (id : uuid) : txn (option IdentityCacheEntry) := peek (LookupIdentityForCache id).

Definition InsertHumanUser (u : HumanUser) : txn unit := modify (put_user u).
Definition InsertAgentIdentity (a : AgentIdentity) : txn unit := modify (put_agent (a_ID a) a).

Definition SetAgentReputationScore (agentID : uuid) (score : float) : txn unit :=
  let! mine := own (fun t => pendingAgents t !! agentID) in
  match mine with
  | Some a => modify (put_agent agentID (set_ReputationScore score a))
  | None =>
      let! existing := peek (fun s => agents s !! agentID) in
      match existing with
      | None => throw (errors_New "stub: SetAgentReputationScore: agent not found")
      | Some a => modify (put_agent agentID (set_ReputationScore score a))
      end
  end.

Definition DisableUser (userID : uuid) (reason : string) : txn unit :=
  let! existing := peek (fun s => users s !! userID) in
  match existing with
  | Some _ => ret tt
  | None =>
      let! mine := own (fun t => pendingUsers t !! userID) in
      require (bool_decide (is_Some mine)) (errors_New "stub: DisableUser: user not found")
  end.

Definition RevokeAgent (agentID : uuid) (reason : string) : txn unit :=
  let! existing := peek (fun s => agents s !! agentID) in
  match existing with
  | Some _ => ret tt
  | None =>
      let! mine := own (fun t => pendingAgents t !! agentID) in
      require (bool_decide (is_Some mine)) (errors_New "stub: RevokeAgent: agent not found")
  end.

(** The committed row comes first here. *)
Definition UpdateAgentPermissions (agentID : uuid) (scope : list string) : txn unit :=
  let! existing := peek (fun s => agents s !! agentID) in
  match existing with
  | Some a => modify (put_agent agentID (set_PermissionScope scope a))
  | None =>
      let! mine := own (fun t => pendingAgents t !! agentID) in
      match mine with
      | Some a => modify (put_agent agentID (set_PermissionScope scope a))
      | None => throw (errors_New "stub: UpdateAgentPermissions: agent not found")
      end
  end.

Definition AddOrgMember (m : OrgMembership) : txn unit := ret tt.
Definition RemoveOrgMember (orgID userID : uuid) : txn unit := ret tt.
Definition InsertCloneToken (ct : CloneTokenRow) : txn unit := modify (put_token ct).

(** ** Repositories *)

Definition GetByID (id : uuid) (s : Store) : option Repository := repositories s !! id.
Definition GetBySlug (slug : string) (s : Store) : option Repository :=
  head (filter (fun r => r_Slug r = slug) (range (repositories s))).

(** The order of [sort.Slice]: creation time, then the text of the id.  It is
    not stable, but equal rows come in the order of the range anyway. *)
Definition repo_le (a b : Repository) : Prop :=
  if bool_decide (r_CreatedAt a = r_CreatedAt b) then String.le (uuid_String (r_ID a)) (uuid_String (r_ID b))
  else r_CreatedAt a < r_CreatedAt b.
#[export] Instance repo_le_dec : RelDecision repo_le.
Proof. intros a b. unfold repo_le. destruct (bool_decide _); apply _. Defined.

(** A row the cursor is not past. *)
Definition before_cursor (afterCreatedAt : time) (afterID : uuid) (r : Repository) : Prop :=
  r_CreatedAt r < afterCreatedAt \/
  r_CreatedAt r = afterCreatedAt /\ String.le (uuid_String (r_ID r)) (uuid_String afterID).
#[export] Instance before_cursor_dec t i r : Decision (before_cursor t i r).
Proof. unfold before_cursor. apply _. Defined.

Definition past_cursor (after : option time) (afterID : option uuid) (r : Repository) : Prop :=
  match after, afterID with
  | Some t, Some i => ~ before_cursor t i r
  | _, _ => True
  end.
#[export] Instance past_cursor_dec t i r : Decision (past_cursor t i r).
Proof. unfold past_cursor. destruct t, i; apply _. Defined.

Definition ListByOrg (orgID : uuid) (afterCreatedAt : option time) (afterID : option uuid) (limit : Z) (s : Store)
  : list Repository :=
  if limit <=? 0 then []
  else
    let all := merge_sort repo_le (filter (fun r => r_OrgID r = orgID) (range (repositories s))) in
    take (Z.to_nat limit) (filter (past_cursor afterCreatedAt afterID) all).

Definition tx_GetByID (id : uuid) : txn (option Repository) :=
  own_or_peek (fun t => pendingRepositories t !! id) (GetByID id).
Definition tx_GetBySlug (slug : string) : txn (option Repository) :=
  own_or_peek (fun t => head (filter (fun r => r_Slug r = slug) (range (pendingRepositories t)))) (GetBySlug slug).
Definition tx_ListByOrg (orgID : uuid) (after : option time) (afterID : option uuid) (limit : Z)
  : txn (list Repository) := peek (ListByOrg orgID after afterID limit).
Definition Insert (r : Repository) : txn unit := modify (put_repository r).
Definition UpdatePermissions (repoID : uuid) (permissionHash : string) : txn unit :=
  throw (errors_New "stub: UpdatePermissions not implemented").

(** ** Billing *)

Definition partitionArchiveKey (year month : Z) (partitionName : string) : string :=
  Itoa year +:+ "-" +:+ Itoa month +:+ "-" +:+ partitionName.

Definition GetPartitionArchiveByKey (year month : Z) (partitionName : string) (s : Store) : option PartitionArchive :=
  partitionArchives s !! partitionArchiveKey year month partitionName.

Definition archive_le (a b : PartitionArchive) : Prop :=
  if negb (pa_Year a =? pa_Year b) then pa_Year a < pa_Year b
  else if negb (pa_Month a =? pa_Month b) then pa_Month a < pa_Month b
  else String.le (uuid_String (pa_ID a)) (uuid_String (pa_ID b)).
#[export] Instance archive_le_dec : RelDecision archive_le.
Proof. intros a b. unfold archive_le. repeat destruct (negb _); apply _. Defined.

Definition ListPartitionArchivesArchivedBefore (cutoff : time) (s : Store) : list PartitionArchive :=
  merge_sort archive_le (filter (fun pa => pa_ArchivedAt pa < cutoff) (range_keyed (partitionArchives s))).

Definition GetQuotaAccountByOrg (orgID : uuid) (s : Store) : option QuotaAccount := quotaAccounts s !! orgID.

Definition is_billing_event (eventType : string) (aggregateID : uuid) (ev : OutboxRecord) : bool :=
  bool_decide (or_Domain ev = DomainBilling) && bool_decide (or_EventType ev = eventType)
  && bool_decide (or_AggregateID ev = aggregateID).
Definition HasOutboxEventForAggregate (eventType : string) (aggregateID : uuid) (s : Store) : bool :=
  existsb (is_billing_event eventType aggregateID) (outbox s).

Definition tx_GetPartitionArchiveByKey (year month : Z) (partitionName : string) : txn (option PartitionArchive) :=
  own_or_peek (fun t => pendingPartitionArchives t !! partitionArchiveKey year month partitionName)
    (GetPartitionArchiveByKey year month partitionName).

Definition tx_ListPartitionArchivesArchivedBefore (cutoff : time) : txn (list PartitionArchive) :=
  let! committed := peek (ListPartitionArchivesArchivedBefore cutoff) in
  own (fun t => merge_sort archive_le
    (committed ++ filter (fun pa => pa_ArchivedAt pa < cutoff) (range_keyed (pendingPartitionArchives t)))).

Definition tx_HasOutboxEventForAggregate (eventType : string) (aggregateID : uuid) : txn bool :=
  let! mine := own (fun t => existsb (is_billing_event eventType aggregateID) (pendingOutbox t)) in
  if mine : bool then ret true else peek (HasOutboxEventForAggregate eventType aggregateID).

Definition tx_GetQuotaAccountByOrg (orgID : uuid) : txn (option QuotaAccount) := peek (GetQuotaAccountByOrg orgID).

(** The id of the row, and whether it is new. *)
Definition InsertPartitionArchiveIfAbsent (pa : PartitionArchive) : txn (uuid * bool) :=
  let key := partitionArchiveKey (pa_Year pa) (pa_Month pa) (pa_PartitionName pa) in
  let! mine := own (fun t => pendingPartitionArchives t !! key) in
  match mine with
  | Some existing => ret (pa_ID existing, false)
  | None =>
      let! existing := peek (GetPartitionArchiveByKey (pa_Year pa) (pa_Month pa) (pa_PartitionName pa)) in
      match existing with
      | Some e => ret (pa_ID e, false)
      | None => let! _ := modify (put_archive key pa) in ret (pa_ID pa, true)
      end
  end.
End store.

Arguments OutboxRecord P : clear implicits.
Arguments Store P : clear implicits.
Arguments stubTx P : clear implicits.
Arguments txstate P : clear implicits.
Arguments txn P A : clear implicits.

(** ** Transactions and invariants

    [Inv] is an invariant of the committed store and [Own] one of what a
    transaction has written so far. *)
Section invariants.
Context {P : Type} {MR : MapRange}.
Context (Inv : Store P -> Prop) (Own : stubTx P -> Prop).

Definition good (t : txstate P) : Prop := (forall n, Inv (seen t n)) /\ Own (pending t).

Lemma good_peek {A} (f : Store P -> A) : preserves good (peek f).
Proof. intros t [Hs Hp]. split; [|done]. intros n. apply Hs. Qed.
Lemma good_own {A} (f : stubTx P -> A) : preserves good (own f).
Proof. by intros t H. Qed.
Lemma good_modify f : (forall t, Own t -> Own (f t)) -> preserves good (modify f).
Proof. intros Hf t [Hs Hp]. split; [done|]. by apply Hf. Qed.
Lemma good_own_or_peek {A} (mine : stubTx P -> option A) theirs : preserves good (own_or_peek mine theirs).
Proof. apply preserves_bind; [apply good_own|]. intros [x|]; [apply preserves_ret|apply good_peek]. Qed.

Lemma Transact_preserves {A} (fn : txn P A) view s :
  Own empty_tx -> (forall t s, Own t -> Inv s -> Inv (commit t s)) ->
  preserves good fn -> (forall n, Inv (view n)) -> Inv s -> Inv (Transact fn view s).1.
Proof.
  intros H0 Hc Hf Hv Hs. unfold Transact. specialize (Hf (mkTxState view empty_tx) (conj Hv H0)).
  destruct (fn _) as [t [a|e]]; [|done]. apply Hc; [apply Hf|done].
Qed.
End invariants.

Lemma WriteOutbox_valid {P} i d ag id et (p : P) : Domain_Valid d = true ->
  WriteOutbox i d ag id et p = modify (add_event (mkOutboxRecord d ag id et p i)).
Proof. intros H. unfold WriteOutbox, require. by rewrite H. Qed.

(** ** Rows are filed under their keys *)
Section keyed.
Context {P : Type} {MR : MapRange}.

Definition archive_key (pa : PartitionArchive) : string :=
  partitionArchiveKey (pa_Year pa) (pa_Month pa) (pa_PartitionName pa).

Definition filed {K A} `{Countable K} (key : A -> K) (m : gmap K A) : Prop := map_Forall (fun k x => key x = k) m.

Record keyed (s : Store P) : Prop := {
  keyed_users : filed u_ID (users s);
  keyed_agents : filed a_ID (agents s);
  keyed_repositories : filed r_ID (repositories s);
  keyed_archives : filed archive_key (partitionArchives s);
  keyed_tokens : filed ct_ID (cloneTokens s);
  keyed_quotas : filed qa_OrgID (quotaAccounts s) }.

Record tx_keyed (t : stubTx P) : Prop := {
  tx_keyed_users : filed u_ID (pendingUsers t);
  tx_keyed_agents : filed a_ID (pendingAgents t);
  tx_keyed_repositories : filed r_ID (pendingRepositories t);
  tx_keyed_archives : filed archive_key (pendingPartitionArchives t);
  tx_keyed_tokens : filed ct_ID (pendingCloneTokens t) }.

Notation keeps_keys := (preserves (good keyed tx_keyed)).

Lemma filed_insert {K A} `{Countable K} (key : A -> K) (m : gmap K A) x : filed key m -> filed key (<[key x := x]> m).
Proof. intros Hm. by apply map_Forall_insert_2. Qed.
Lemma filed_union {K A} `{Countable K} (key : A -> K) (m n : gmap K A) : filed key m -> filed key n -> filed key (m ∪ n).
Proof. intros Hm Hn k x [Hx|[_ Hx]]%lookup_union_Some_raw; [by apply Hm|by apply Hn]. Qed.

Lemma keyed_New : keyed New.
Proof. split; apply map_Forall_empty. Qed.
Lemma tx_keyed_empty : tx_keyed empty_tx.
Proof. split; apply map_Forall_empty. Qed.
Lemma keyed_commit t s : tx_keyed t -> keyed s -> keyed (commit t s).
Proof. intros [] []. split; cbn; try done; by apply filed_union. Qed.

Lemma keyed_Seed qa s : keyed s -> keyed (SeedQuotaAccount qa s).
Proof. intros []. split; cbn; try done. by apply filed_insert. Qed.

Lemma keyed_WriteOutbox i d at_ ai et p : keeps_keys (WriteOutbox i d at_ ai et p).
Proof.
  apply preserves_bind; [apply preserves_require|]. intros _. apply good_modify. intros t []. by split.
Qed.
Lemma keyed_InsertHumanUser u : keeps_keys (InsertHumanUser u).
Proof. apply good_modify. intros t []. split; cbn; try done. by apply filed_insert. Qed.
Lemma keyed_InsertAgentIdentity a : keeps_keys (InsertAgentIdentity a).
Proof. apply good_modify. intros t []. split; cbn; try done. by apply filed_insert. Qed.
Lemma keyed_InsertCloneToken c : keeps_keys (InsertCloneToken c).
Proof. apply good_modify. intros t []. split; cbn; try done. by apply filed_insert. Qed.
Lemma keyed_Insert r : keeps_keys (Insert r).
Proof. apply good_modify. intros t []. split; cbn; try done. by apply filed_insert. Qed.

Lemma keyed_put_agent id a : a_ID a = id -> keeps_keys (modify (put_agent id a)).
Proof. intros <-. apply keyed_InsertAgentIdentity. Qed.

Lemma keyed_SetAgentReputationScore id x : keeps_keys (SetAgentReputationScore id x).
Proof.
  intros t [Hs Hp]. unfold SetAgentReputationScore, own, peek, bind.
  destruct (pendingAgents (pending t) !! id) as [a|] eqn:Ea.
  - apply keyed_put_agent; [|by split]. exact (tx_keyed_agents _ Hp _ _ Ea).
  - destruct (agents (seen t 0%nat) !! id) as [a|] eqn:Eb; [|split; [intros n; apply Hs|done]].
    apply keyed_put_agent; [|split; [intros n; apply Hs|done]]. exact (keyed_agents _ (Hs 0%nat) _ _ Eb).
Qed.

Lemma keyed_UpdateAgentPermissions id l : keeps_keys (UpdateAgentPermissions id l).
Proof.
  intros t [Hs Hp]. unfold UpdateAgentPermissions, own, peek, bind.
  destruct (agents (seen t 0%nat) !! id) as [a|] eqn:Eb.
  - apply keyed_put_agent; [|split; [intros n; apply Hs|done]]. exact (keyed_agents _ (Hs 0%nat) _ _ Eb).
  - cbn [pending]. destruct (pendingAgents (pending t) !! id) as [a|] eqn:Ea; [|split; [intros n; apply Hs|done]].
    apply keyed_put_agent; [|split; [intros n; apply Hs|done]]. exact (tx_keyed_agents _ Hp _ _ Ea).
Qed.

Lemma keyed_DisableUser id r : keeps_keys (DisableUser id r).
Proof.
  apply preserves_bind; [apply good_peek|]. intros [u|]; [apply preserves_ret|].
  apply preserves_bind; [apply good_own|]. intros mine. apply preserves_require.
Qed.
Lemma keyed_RevokeAgent id r : keeps_keys (RevokeAgent id r).
Proof.
  apply preserves_bind; [apply good_peek|]. intros [u|]; [apply preserves_ret|].
  apply preserves_bind; [apply good_own|]. intros mine. apply preserves_require.
Qed.

Lemma keyed_InsertPartitionArchiveIfAbsent pa : keeps_keys (InsertPartitionArchiveIfAbsent pa).
Proof.
  apply preserves_bind; [apply good_own|]. intros [e|]; [apply preserves_ret|].
  apply preserves_bind; [apply good_peek|]. intros [e|]; [apply preserves_ret|].
  apply preserves_bind; [|intros _; apply preserves_ret].
  apply good_modify. intros t []. split; cbn; try done. by apply (filed_insert archive_key).
Qed.

Lemma Transact_keyed {A} (fn : txn P A) view s :
  keeps_keys fn -> (forall n, keyed (view n)) -> keyed s -> keyed (Transact fn view s).1.
Proof. apply Transact_preserves; [apply tx_keyed_empty|apply keyed_commit]. Qed.
End keyed.

#[export] Hint Resolve good_peek good_own good_own_or_peek keyed_WriteOutbox keyed_InsertHumanUser
  keyed_InsertAgentIdentity keyed_InsertCloneToken keyed_Insert keyed_SetAgentReputationScore
  keyed_UpdateAgentPermissions keyed_DisableUser keyed_RevokeAgent keyed_InsertPartitionArchiveIfAbsent : gitscale.

(** ** Listings *)

(** Sorting a permutation gives the same list when the order tells the
    elements apart. *)
Lemma sort_unique {A} (R : relation A) `{!RelDecision R, !Transitive R, !Total R} (l1 l2 : list A) :
  l1 ≡ₚ l2 -> (forall a b, a ∈ l1 -> b ∈ l1 -> R a b -> R b a -> a = b) -> merge_sort R l1 = merge_sort R l2.
Proof.
  intros Hp Hanti. apply (StronglySorted_unique_strong R).
  - intros a b Ha Hb. rewrite merge_sort_Permutation in Ha. rewrite merge_sort_Permutation, <- Hp in Hb. auto.
  - apply StronglySorted_merge_sort; apply _.
  - apply StronglySorted_merge_sort; apply _.
  - by rewrite !merge_sort_Permutation.
Qed.

#[export] Instance repo_le_total : Total repo_le.
Proof.
  intros a b. unfold repo_le. destruct (decide (r_CreatedAt a = r_CreatedAt b)) as [E|E].
  - rewrite !bool_decide_true by congruence. apply String.le_total.
  - rewrite !bool_decide_false by congruence. lia.
Qed.
Lemma repo_le_spec a b : repo_le a b <->
  r_CreatedAt a < r_CreatedAt b \/
  r_CreatedAt a = r_CreatedAt b /\ String.le (uuid_String (r_ID a)) (uuid_String (r_ID b)).
Proof. unfold repo_le. case_bool_decide; naive_solver lia. Qed.
#[export] Instance repo_le_trans : Transitive repo_le.
Proof.
  intros a b c. rewrite !repo_le_spec. intros [H1|[H1 H1']] [H2|[H2 H2']]; [left; lia..|].
  right. split; [lia|]. by etrans.
Qed.

#[export] Instance archive_le_total : Total archive_le.
Proof.
  intros a b. unfold archive_le. rewrite (Z.eqb_sym (pa_Year b)), (Z.eqb_sym (pa_Month b)).
  destruct (Z.eqb_spec (pa_Year a) (pa_Year b)); [|cbn; lia].
  destruct (Z.eqb_spec (pa_Month a) (pa_Month b)); [|cbn; lia]. apply String.le_total.
Qed.
Lemma archive_le_spec a b : archive_le a b <->
  pa_Year a < pa_Year b \/ pa_Year a = pa_Year b /\ (pa_Month a < pa_Month b \/
    pa_Month a = pa_Month b /\ String.le (uuid_String (pa_ID a)) (uuid_String (pa_ID b))).
Proof.
  unfold archive_le. destruct (Z.eqb_spec (pa_Year a) (pa_Year b)), (Z.eqb_spec (pa_Month a) (pa_Month b));
    cbn [negb]; naive_solver lia.
Qed.
#[export] Instance archive_le_trans : Transitive archive_le.
Proof.
  intros a b c. rewrite !archive_le_spec.
  intros [H1|[H1 [H1'|[H1' H1'']]]] [H2|[H2 [H2'|[H2' H2'']]]]; try (left; lia); right; (split; [lia|]);
    try (left; lia). right. split; [lia|]. by etrans.
Qed.

Section listing.
Context {P : Type}.

(** The ids of repositories are UUIDs. *)
Definition repo_ids_ok (s : Store P) : Prop := map_Forall (fun k _ => uuid_ok k) (repositories s).

Definition org_repositories `{MapRange} (orgID : uuid) (s : Store P) : list Repository :=
  filter (fun r => r_OrgID r = orgID) (range (repositories s)).
Definition listing `{MapRange} (orgID : uuid) (s : Store P) : list Repository :=
  merge_sort repo_le (org_repositories orgID s).

(** The pages a client sees who asks for [limit] repositories at a time and
    continues after the last one it got. *)
Fixpoint pages `{MapRange} (n : nat) (orgID : uuid) (cursor : option Repository) (limit : Z) (s : Store P)
  : list Repository :=
  match n with
  | O => []
  | S n' =>
      let page := ListByOrg orgID (r_CreatedAt <$> cursor) (r_ID <$> cursor) limit s in
      page ++ match last page with Some r => pages n' orgID (Some r) limit s | None => [] end
  end.

Context (orgID : uuid) (s : Store P) (Hkeyed : keyed s) (Hids : repo_ids_ok s).

Lemma org_repositories_distinct `{MapRangeLaws} a b :
  a ∈ org_repositories orgID s -> b ∈ org_repositories orgID s -> repo_le a b -> repo_le b a -> a = b.
Proof.
  intros [_ Ha]%list_elem_of_filter [_ Hb]%list_elem_of_filter. rewrite !repo_le_spec. intros H1 H2.
  apply elem_of_range in Ha as [k Hk], Hb as [k' Hk'].
  pose proof (keyed_repositories _ Hkeyed _ _ Hk) as <-. pose proof (keyed_repositories _ Hkeyed _ _ Hk') as <-.
  enough (r_ID a = r_ID b) by congruence.
  apply uuid_String_inj; [exact (Hids _ _ Hk)|exact (Hids _ _ Hk')|].
  apply (anti_symm String.le); intuition lia.
Qed.

Lemma org_repositories_NoDup `{MapRangeLaws} : NoDup (org_repositories orgID s).
Proof.
  unfold org_repositories. apply NoDup_filter. rewrite range_all. apply (NoDup_fmap_1 r_ID).
  rewrite <- list_fmap_compose.
  erewrite list_fmap_ext; [apply NoDup_fst_map_to_list|].
  intros i [k r] Hi. apply list_elem_of_lookup_2, elem_of_map_to_list in Hi.
  exact (keyed_repositories _ Hkeyed _ _ Hi).
Qed.

Context `{MapRangeLaws}.

Lemma listing_sorted : StronglySorted repo_le (listing orgID s).
Proof. apply StronglySorted_merge_sort; apply _. Qed.

Lemma listing_elem a : a ∈ listing orgID s -> a ∈ org_repositories orgID s.
Proof. unfold listing. by rewrite merge_sort_Permutation. Qed.

(** After a row of the listing comes what follows it in the listing. *)
Lemma past_cursor_suffix pre r rest : listing orgID s = pre ++ r :: rest ->
  filter (past_cursor (Some (r_CreatedAt r)) (Some (r_ID r))) (listing orgID s) = rest.
Proof.
  intros E. assert (Hb : forall x, past_cursor (Some (r_CreatedAt r)) (Some (r_ID r)) x <-> ~ repo_le x r).
  { intros x. by rewrite repo_le_spec. }
  assert (Hm : forall x, x ∈ pre ++ r :: rest -> x ∈ org_repositories orgID s).
  { intros x Hx. apply listing_elem. by rewrite E. }
  assert (Hnd : NoDup (pre ++ r :: rest)).
  { rewrite <- E. unfold listing. rewrite merge_sort_Permutation. apply org_repositories_NoDup. }
  pose proof listing_sorted as Hs. rewrite E in *. rewrite filter_app, filter_cons, decide_False.
  - rewrite filter_none, filter_true; [done| |]; apply Forall_forall.
    + intros x Hx. apply Hb. intros Hle. assert (r = x) as <-.
      { apply org_repositories_distinct; try (apply Hm; set_solver); [|done].
        apply (StronglySorted_app_1_r repo_le) in Hs. inversion Hs as [|?? _ Hr]. by eapply Forall_forall in Hr. }
      apply NoDup_app in Hnd as (_ & _ & Hnd). apply NoDup_cons in Hnd as [Hnd _]. done.
    + intros x Hx Hp. apply Hb in Hp. apply Hp. eapply StronglySorted_app_1_elem_of; [done..|set_solver].
  - intros Hp. apply Hb in Hp. apply Hp. apply repo_le_spec. by right.
Qed.
Lemma ListByOrg_after pre rest limit : listing orgID s = pre ++ rest ->
  ListByOrg orgID (r_CreatedAt <$> last pre) (r_ID <$> last pre) limit s = take (Z.to_nat limit) rest.
Proof.
  intros E. unfold ListByOrg. fold (org_repositories orgID s). fold (listing orgID s).
  destruct (Z.leb_spec limit 0) as [Hl|_]; [by rewrite Z2Nat.nonpos|].
  f_equal. destruct (last pre) as [r|] eqn:Er.
  - apply last_Some in Er as [pre' ->]. rewrite <- app_assoc in E. by eapply past_cursor_suffix.
  - apply last_None in Er as ->. rewrite E. apply filter_true. by apply Forall_forall.
Qed.

Lemma pages_take n limit pre rest : 0 < limit -> listing orgID s = pre ++ rest ->
  pages n orgID (last pre) limit s = take (n * Z.to_nat limit) rest.
Proof.
  intros Hl. revert pre rest. induction n as [|n IH]; intros pre rest E; [done|]. cbn [pages].
  rewrite (ListByOrg_after pre rest limit E). set (k := Z.to_nat limit) in *. assert (0 < k)%nat by lia.
  rewrite Nat.mul_succ_l, Nat.add_comm, <- take_take_drop. f_equal.
  destruct (last (take k rest)) as [r|] eqn:Er.
  - rewrite <- (IH (pre ++ take k rest) (drop k rest)) by (by rewrite <- app_assoc, take_drop).
    by rewrite last_app, Er.
  - apply last_None in Er. destruct rest; [by rewrite drop_nil, take_nil|]. by destruct k; [lia|].
Qed.
End listing.

(** Following the cursor of the last row visits every repository of the
    organisation exactly once, in the order of creation time and id, for
    every page size and whatever order the maps are iterated in. *)
Theorem pages_visit_all_once {P} `{MapRangeLaws} orgID (s : Store P) n limit :
  keyed s -> repo_ids_ok s -> 0 < limit ->
  (length (org_repositories orgID s) <= n * Z.to_nat limit)%nat ->
  let visited := pages n orgID None limit s in
  (forall r, r ∈ visited <-> repositories s !! r_ID r = Some r /\ r_OrgID r = orgID) /\
  NoDup visited /\ StronglySorted repo_le visited.
Proof.
  intros Hk Hi Hl Hn visited. assert (Hv : visited = listing orgID s).
  { unfold visited. change (@None Repository) with (last (@nil Repository)).
    rewrite (pages_take orgID s Hk Hi n limit [] (listing orgID s) Hl eq_refl).
    apply take_ge. unfold listing. by rewrite merge_sort_Permutation. }
  clearbody visited. subst. split_and!.
  - intros r. unfold listing. rewrite merge_sort_Permutation. unfold org_repositories.
    rewrite list_elem_of_filter, elem_of_range. split.
    + intros [Ho [k Hr]]. split; [|done]. by rewrite (keyed_repositories _ Hk _ _ Hr).
    + intros [Hr Ho]. eauto.
  - unfold listing. rewrite merge_sort_Permutation. by apply org_repositories_NoDup.
  - apply listing_sorted.
Qed.

Definition sample_repository (id org t : Z) : Repository := mkRepository id org "" "" 0 "" "" "" "" t t.
Definition sample_repository_store : Store unit :=
  mkStore ∅ ∅ (list_to_map (map (fun r => (r_ID r, r))
    [sample_repository 3 1 20; sample_repository 1 1 20; sample_repository 2 1 10; sample_repository 4 9 10])) ∅ ∅ ∅ [].

Section pages_sample.
#[local] Existing Instance some_range.
Lemma pages_visit_all_once_witness :
  map r_ID (pages 2 1 None 2 sample_repository_store) = [2; 1; 3] /\
  NoDup (pages 2 1 None 2 sample_repository_store).
Proof.
  split; [vm_compute; reflexivity|].
  assert (Hin : forall k r, repositories sample_repository_store !! k = Some r -> r_ID r = k /\ uuid_ok k).
  { intros k r Hr%elem_of_list_to_map_2. cbn [map] in Hr. rewrite !elem_of_cons, elem_of_nil in Hr.
    unfold uuid_ok. destruct Hr as [[= -> ->]|[[= -> ->]|[[= -> ->]|[[= -> ->]|[]]]]]; split; (reflexivity || (cbn; lia)). }
  refine (proj1 (proj2 (pages_visit_all_once 1 sample_repository_store 2 2 _ _ _ _))).
  - split; try apply map_Forall_empty. intros k r Hr. by apply Hin.
  - intros k r Hr. by apply (Hin k r).
  - reflexivity.
  - vm_compute. repeat constructor.
Defined.
End pages_sample.

(** ** Archived partitions *)

Lemma partitionArchiveKey_inj y m n y' m' n' :
  partitionArchiveKey y m n = partitionArchiveKey y' m' n' -> y = y' /\ m = m' /\ n = n'.
Proof.
  intros E. apply (f_equal s2l) in E. unfold partitionArchiveKey in E. rewrite !s2l_app in E.
  apply Itoa_app_inj in E as [-> E]; [|done..]. injection E as E.
  apply Itoa_app_inj in E as [-> E]; [|done..]. injection E as E. apply s2l_inj in E. auto.
Qed.
