(* ===== verification/Credential.v ===== *)
(** * Credential hashes

    [plane/application/identity/credential.go]: the argon2id text format,
    hashing and verification.  [argon2.IDKey] is a function [IDKey] of the
    password, the salt and the parameters; [None] is its panic on a parameter
    it rejects.  The salt is an argument. *)

From S2P Require Import Prelude GoStd GoFmt Base64.

(** ** [fmt.Sscanf] with [%d] into an unsigned variable

    White space is skipped, but not a line end; then the longest run of
    digits is read, whose value must fit the variable. *)
Definition skip_space (l : list ascii) : list ascii :=
  trim_any (List.filter (fun p => negb (bool_decide (p = [chr 10]))) space_encodings) (length l) l.

Definition scan_uint (bits : Z) (l : list ascii) : option (Z * list ascii) :=
  let '(ds, rest) := span_digits (skip_space l) in
  match ds with
  | [] => None
  | _ => if digits_value ds <? 2 ^ bits then Some (digits_value ds, rest) else None
  end.

(** [Sscanf(s, "m=%d,t=%d,p=%d", &mem, &iter, &par)] filling all three. *)
Definition scan_params (s : string) : option (Z * Z * Z) :=
  l ← strip_prefix (s2l "m=") (s2l s);
  '(mem, l) ← scan_uint 32 l;
  l ← strip_prefix (s2l ",t=") l;
  '(iter, l) ← scan_uint 32 l;
  l ← strip_prefix (s2l ",p=") l;
  '(par, _) ← scan_uint 8 l;
  Some (mem, iter, par).

(** ** The hasher *)

Definition argon2MemoryKB : Z := 64 * 1024.
Definition argon2Iterations : Z := 3.
Definition argon2Parallelism : Z := 2.
Definition argon2SaltLen : Z := 16.
Definition argon2KeyLen : Z := 32.

Record Argon2idHasher := mkHasher {
  memoryKB : Z; iterations : Z; parallelism : Z; saltLen : Z; keyLen : Z }.

Definition NewArgon2idHasher : Argon2idHasher :=
  mkHasher argon2MemoryKB argon2Iterations argon2Parallelism argon2SaltLen argon2KeyLen.
Definition newArgon2idHasherFast : Argon2idHasher := mkHasher (8 * 1024) 1 1 argon2SaltLen argon2KeyLen.

(** The parameters are [uint32]s and a [uint8]. *)
Definition hasher_ok (h : Argon2idHasher) : Prop :=
  0 <= memoryKB h < 2 ^ 32 /\ 0 <= iterations h < 2 ^ 32 /\ 0 <= parallelism h < 2 ^ 8 /\ 0 <= keyLen h < 2 ^ 32.

Section hasher.
Context (IDKey : list ascii -> list ascii -> Z -> Z -> Z -> Z -> option (list ascii)).

(** [rand_read] is the salt [rand.Read] fills in, or its failure. *)
Definition format_params (mem iter par : Z) : string :=
  "m=" +:+ Itoa mem +:+ ",t=" +:+ Itoa iter +:+ ",p=" +:+ Itoa par.
Definition format_hash (mem iter par : Z) (salt key : list ascii) : string :=
  "$argon2id$v=19$" +:+ format_params mem iter par +:+ "$" +:+ EncodeToString RawStdEncoding salt
    +:+ "$" +:+ EncodeToString RawStdEncoding key.

(** [None] is a panic, [Some (Err _)] an error. *)
Definition Hash (h : Argon2idHasher) (plaintext : string) (rand_read : option (list ascii))
  : option (result unit string) :=
  match rand_read with
  | None => Some (Err tt)
  | Some salt =>
      match IDKey (s2l plaintext) salt (iterations h) (memoryKB h) (parallelism h) (keyLen h) with
      | None => None
      | Some key => Some (Ok (format_hash (memoryKB h) (iterations h) (parallelism h) salt key))
      end
  end.

Definition Verify (h : Argon2idHasher) (plaintext hashed : string) : option (bool * bool) :=
  match Split hashed "$" with
  | [_; alg; version; params; salt64; hash64] =>
      if negb (bool_decide (alg = "argon2id")) || negb (bool_decide (version = "v=19")) then Some (false, false)
      else
        match scan_params params with
        | None => Some (false, false)
        | Some (mem, iter, par) =>
            match DecodeString RawStdEncoding salt64, DecodeString RawStdEncoding hash64 with
            | Some salt, Some want =>
                match IDKey (s2l plaintext) salt iter mem par (Z.of_nat (length want) mod 2 ^ 32) with
                | None => None
                | Some got =>
                    if negb (bool_decide (want = got)) then Some (false, false)
                    else Some (true, (mem <? memoryKB h) || (iter <? iterations h) || (par <? parallelism h))
                end
            | _, _ => Some (false, false)
            end
        end
  | _ => Some (false, false)
  end.
End hasher.

(** ** Reading the format back *)

Lemma skip_space_digit c l : is_digit c = true -> skip_space (c :: l) = c :: l.
Proof.
  intros Hc. unfold skip_space. cbn [length trim_any].
  assert (strip_any (List.filter (fun p => negb (bool_decide (p = [chr 10]))) space_encodings) (c :: l) = None) as ->;
    [|done].
  apply strip_any_visible; [vm_compute; reflexivity|]. apply is_digit_code in Hc. unfold visible. lia.
Qed.

Lemma scan_uint_Itoa bits n rest : 0 <= n < 2 ^ bits -> (forall c r, rest = c :: r -> is_digit c = false) ->
  scan_uint bits (s2l (Itoa n) ++ rest) = Some (n, rest).
Proof.
  intros Hn Hr. destruct (Itoa_nonneg n) as (ds & E & Hd & Hne & Hv & _); [lia|]. rewrite E.
  unfold scan_uint. destruct ds as [|d ds]; [done|]. rewrite <- app_comm_cons.
  assert (Hdd : is_digit d = true) by (by inversion Hd).
  rewrite skip_space_digit by done. rewrite app_comm_cons, span_digits_app by done.
  rewrite Hv, (proj2 (Z.ltb_lt _ _)) by lia. done.
Qed.

Lemma scan_params_format mem iter par : 0 <= mem < 2 ^ 32 -> 0 <= iter < 2 ^ 32 -> 0 <= par < 2 ^ 8 ->
  scan_params (format_params mem iter par) = Some (mem, iter, par).
Proof.
  intros Hm Hi Hp. unfold scan_params, format_params. rewrite !s2l_app, strip_prefix_app. cbn [mbind option_bind].
  rewrite scan_uint_Itoa; [|done|by intros c r [= <- _]]. cbn [mbind option_bind].
  rewrite strip_prefix_app. cbn [mbind option_bind].
  rewrite scan_uint_Itoa; [|done|by intros c r [= <- _]]. cbn [mbind option_bind].
  rewrite strip_prefix_app. cbn [mbind option_bind].
  rewrite <- (app_nil_r (s2l (Itoa par))). by rewrite scan_uint_Itoa.
Qed.

Definition no_dollar (s : string) : Prop := "$"%char ∉ s2l s.

Lemma Itoa_no_dollar n : 0 <= n -> "$"%char ∉ s2l (Itoa n).
Proof. intros Hn. destruct (Itoa_nonneg n Hn) as (ds & -> & Hd & _). by apply digits_no_char. Qed.

Lemma format_params_no_dollar mem iter par : 0 <= mem -> 0 <= iter -> 0 <= par -> no_dollar (format_params mem iter par).
Proof.
  intros Hm Hi Hp. unfold no_dollar, format_params. rewrite !s2l_app, !elem_of_app.
  pose proof (Itoa_no_dollar mem Hm). pose proof (Itoa_no_dollar iter Hi). pose proof (Itoa_no_dollar par Hp).
  intros [E|[E|[E|[E|[E|E]]]]]; try done; apply list_elem_of_In in E; cbn in E; intuition discriminate.
Qed.

Lemma base64_no_dollar l : no_dollar (EncodeToString RawStdEncoding l).
Proof.
  unfold no_dollar, EncodeToString. rewrite s2l_l2s. intros E.
  pose proof (encode_alphabet RawStdEncoding l RawStdEncoding_ok eq_refl) as H.
  rewrite Forall_forall in H. specialize (H _ E). vm_compute in H. by destruct H.
Qed.

Lemma Split_format_hash mem iter par salt key : 0 <= mem -> 0 <= iter -> 0 <= par ->
  Split (format_hash mem iter par salt key) "$" =
    [""; "argon2id"; "v=19"; format_params mem iter par; EncodeToString RawStdEncoding salt;
     EncodeToString RawStdEncoding key].
Proof.
  intros Hm Hi Hp. rewrite <- (Split_Join [""; "argon2id"; "v=19"; format_params mem iter par;
    EncodeToString RawStdEncoding salt; EncodeToString RawStdEncoding key] "$"); [done..|].
  assert (Hd : forall s, forallb (fun c => negb (bool_decide (c = "$"%char))) (s2l s) = true -> no_dollar s).
  { intros s H Hin. rewrite forallb_forall in H. apply list_elem_of_In, H in Hin. by rewrite bool_decide_true in Hin. }
  repeat apply Forall_cons_2; try (by apply Hd); [by apply format_params_no_dollar|apply base64_no_dollar..|].
  apply Forall_nil_2.
Qed.

Section verify.
Context (IDKey : list ascii -> list ascii -> Z -> Z -> Z -> Z -> option (list ascii)).
(** [IDKey] derives as many bytes as it is asked for. *)
Context (IDKey_length : forall p s t m par n key, IDKey p s t m par n = Some key -> Z.of_nat (length key) = n).

Definition weaker (h h' : Argon2idHasher) : bool :=
  (memoryKB h <? memoryKB h') || (iterations h <? iterations h') || (parallelism h <? parallelism h').

(** A hash stored by any hasher is read back exactly: verification
    derives a key with the stored salt and parameters, accepts a password
    exactly when that key is the stored one (so always the password that was
    hashed), and asks for a rehash exactly when one of the stored parameters
    is below the verifier's. *)
Theorem Verify_Hash h h' p p' salt hashed :
  hasher_ok h -> Hash IDKey h p (Some salt) = Some (Ok hashed) ->
  exists key, IDKey (s2l p) salt (iterations h) (memoryKB h) (parallelism h) (keyLen h) = Some key /\
    Verify IDKey h' p' hashed =
      match IDKey (s2l p') salt (iterations h) (memoryKB h) (parallelism h) (keyLen h) with
      | None => None
      | Some got => Some (if bool_decide (got = key) then (true, weaker h h') else (false, false))
      end.
Proof.
  intros (Hm & Hi & Hp & Hk). unfold Hash. destruct (IDKey (s2l p) _ _ _ _ _) as [key|] eqn:Ek; [|done].
  intros [= <-]. exists key. split; [done|]. unfold Verify. rewrite Split_format_hash by lia.
  change (negb (bool_decide ("argon2id" = "argon2id")) || negb (bool_decide ("v=19" = "v=19"))) with false. cbv iota.
  rewrite scan_params_format by done.
  rewrite !DecodeString_EncodeToString by apply RawStdEncoding_ok.
  rewrite (IDKey_length _ _ _ _ _ _ _ Ek), Z.mod_small by done.
  destruct (IDKey (s2l p') _ _ _ _ _) as [got|]; [|done].
  destruct (decide (got = key)) as [->|Hne]; [by rewrite !bool_decide_true|by rewrite !bool_decide_false by congruence].
Qed.
End verify.

(** A key derivation with the right lengths. *)
Definition toy_IDKey (p salt : list ascii) (t m par n : Z) : option (list ascii) :=
  if (1 <=? t) && (1 <=? par) && (0 <=? n) then Some (take (Z.to_nat n) (p ++ salt ++ replicate (Z.to_nat n) "0"%char))
  else None.

Lemma toy_IDKey_length p s t m par n key : toy_IDKey p s t m par n = Some key -> Z.of_nat (length key) = n.
Proof.
  unfold toy_IDKey. destruct (_ && _) eqn:E; [|done]. intros [= <-]. reflect_bools.
  rewrite length_take, !length_app, length_replicate. lia.
Qed.

Definition toy_salt : list ascii := replicate 16 "s"%char.
Definition toy_hash : string := Eval vm_compute in
  match Hash toy_IDKey newArgon2idHasherFast "secret" (Some toy_salt) with Some (Ok s) => s | _ => "" end.

Lemma Verify_Hash_witness :
  Verify toy_IDKey NewArgon2idHasher "secret" toy_hash = Some (true, true) /\
  Verify toy_IDKey NewArgon2idHasher "guess" toy_hash = Some (false, false).
Proof.
  assert (Hh : hasher_ok newArgon2idHasherFast) by (cbv; intuition congruence).
  assert (Eh : Hash toy_IDKey newArgon2idHasherFast "secret" (Some toy_salt) = Some (Ok toy_hash)) by (vm_compute; reflexivity).
  split.
  - destruct (Verify_Hash toy_IDKey toy_IDKey_length _ NewArgon2idHasher "secret" "secret" toy_salt toy_hash Hh Eh)
      as (key & Ek & ->). rewrite Ek. rewrite bool_decide_true by done. vm_compute. reflexivity.
  - destruct (Verify_Hash toy_IDKey toy_IDKey_length _ NewArgon2idHasher "secret" "guess" toy_salt toy_hash Hh Eh)
      as (key & Ek & ->). vm_compute in Ek. injection Ek as <-. vm_compute. reflexivity.
Defined.

(** The salt and the derived key have their own fields; a hash is not
    accepted under another algorithm or version. *)
Example Verify_rejects :
  map (Verify toy_IDKey NewArgon2idHasher "secret") ["$noop$1"; "$argon2i$v=19$m=8192,t=1,p=1$c2FsdA$aA";
    "$argon2id$v=19$m=8192,t=1,p=256$c2FsdA$aA"; "$argon2id$v=19$m=8192,t=0,p=1$c2FsdA$aA"]
  = [Some (false, false); Some (false, false); Some (false, false); None].
Proof. vm_compute. reflexivity. Qed.

(** The empty password is hashed like any other; only [CreateUser] turns it
    down. *)
Example Hash_accepts_empty : exists s, Hash toy_IDKey newArgon2idHasherFast "" (Some toy_salt) = Some (Ok s).
Proof. by eexists. Qed.
