(* ===== verification/Identity.v ===== *)
(** * The identity service

    [plane/application/identity]: service.go, stub_service.go,
    postgres_service.go (the same methods over any [store.MetadataStore]),
    retry.go, events.go, clone_token.go and grpc_server.go.

    A call runs its transaction up to three times.  What happens to an attempt
    is its [attempt]: the stores its reads see (other transactions may commit
    in between), whether the database turns it down with a serialization
    failure (never with the in-memory store), the clock and the fresh ids.
    The state of a call is the store at the moment of its commit. *)

From S2P Require Import Prelude GoStd GoFmt Sha256 Json Uuid Floats Base64 Outbox Actions Grpc MetadataStore.

(** ** Errors *)
Definition ErrNotImplemented := errors_New "identity: not implemented in this PR (available in #15-revocation)".
Definition ErrRetryExhausted := errors_New "identity: serializable retry exhausted".
Definition ErrInvalidEmail := errors_New "identity: invalid email".
Definition ErrEmptyDisplayName := errors_New "identity: agent display name is empty".
Definition ErrAgentNotFound := errors_New "identity: agent not found".
Definition ErrUserNotFound := errors_New "identity: user not found".
Definition ErrEmptyRole := errors_New "identity: org membership role is empty".
Definition ErrCredentialEmpty := errors_New "identity: credential plaintext is empty".

(** ** Events *)
Definition EventUserCreated : string := "user.created".
Definition EventAgentCreated : string := "agent.created".
Definition EventAgentReputationUpdated : string := "agent.reputation_updated".
Definition EventUserDisabled : string := "user.disabled".
Definition EventAgentRevoked : string := "agent.revoked".
Definition EventPrincipalPermissionsChanged : string := "principal.permissions_changed".
Definition EventOrgMemberAdded : string := "org.member_added".
Definition EventOrgMemberRemoved : string := "org.member_removed".
Definition EventCloneTokenMinted : string := "identity.clone_token_minted".
Definition envelopeVersion : Z := 1.

Record UserCreatedPayload := mkUserCreated {
  uc_UserID : uuid; uc_Email : string; uc_RateBucket : string; uc_QuotaAccountID : option uuid;
  uc_PrincipalClass : string; uc_CreatedAt : time; uc_EnvelopeVersion : Z }.
Record AgentCreatedPayload := mkAgentCreated {
  ac_AgentID : uuid; ac_ParentUserID : uuid; ac_DisplayName : string; ac_PermissionScope : list string;
  ac_RateBucket : string; ac_SessionQuota : option Z; ac_TokensPerWeekCap : option Z; ac_ReputationScore : float;
  ac_QuotaAccountID : option uuid; ac_PrincipalClass : string; ac_CreatedAt : time; ac_EnvelopeVersion : Z }.
Record AgentReputationUpdatedPayload := mkReputationUpdated {
  ru_AgentID : uuid; ru_OldScore : float; ru_NewScore : float; ru_Delta : float; ru_ComputedAt : time;
  ru_EnvelopeVersion : Z }.
Record UserDisabledPayload := mkUserDisabled {
  ud_UserID : uuid; ud_Reason : string; ud_AffectedPrincipalIDs : list uuid; ud_DisabledAt : time;
  ud_EnvelopeVersion : Z }.
Record AgentRevokedPayload := mkAgentRevoked {
  ar_AgentID : uuid; ar_ParentUserID : uuid; ar_Reason : string; ar_AffectedPrincipalIDs : list uuid;
  ar_RevokedAt : time; ar_EnvelopeVersion : Z }.
Record PrincipalPermissionsChangedPayload := mkPermissionsChanged {
  pc_AgentID : uuid; pc_OldScope : list string; pc_NewScope : list string; pc_AffectedPrincipalIDs : list uuid;
  pc_ChangedAt : time; pc_EnvelopeVersion : Z }.
Record OrgMemberAddedPayload := mkMemberAdded {
  ma_OrgID : uuid; ma_UserID : uuid; ma_Role : string; ma_AffectedPrincipalIDs : list uuid; ma_AddedAt : time;
  ma_EnvelopeVersion : Z }.
Record OrgMemberRemovedPayload := mkMemberRemoved {
  mr_OrgID : uuid; mr_UserID : uuid; mr_AffectedPrincipalIDs : list uuid; mr_RemovedAt : time;
  mr_EnvelopeVersion : Z }.
Record CloneTokenMintedPayload := mkTokenMinted {
  tm_TokenID : uuid; tm_PrincipalID : uuid; tm_RepoID : uuid; tm_ExpiresAt : time; tm_MintedAt : time;
  tm_EnvelopeVersion : Z }.

Inductive identity_payload :=
| UserCreated (p : UserCreatedPayload)
| AgentCreated (p : AgentCreatedPayload)
| AgentReputationUpdated (p : AgentReputationUpdatedPayload)
| UserDisabled (p : UserDisabledPayload)
| AgentRevoked (p : AgentRevokedPayload)
| PrincipalPermissionsChanged (p : PrincipalPermissionsChangedPayload)
| OrgMemberAdded (p : OrgMemberAddedPayload)
| OrgMemberRemoved (p : OrgMemberRemovedPayload)
| CloneTokenMinted (p : CloneTokenMintedPayload).

Definition newUserCreatedPayload (now : time) (u : HumanUser) : UserCreatedPayload :=
  mkUserCreated (u_ID u) (u_Email u) (u_RateBucket u) (u_QuotaAccountID u) "user" now envelopeVersion.
Definition newAgentCreatedPayload (now : time) (a : AgentIdentity) : AgentCreatedPayload :=
  mkAgentCreated (a_ID a) (a_ParentUserID a) (a_DisplayName a) (a_PermissionScope a) (a_RateBucket a)
    (a_SessionQuota a) (a_TokensPerWeekCap a) (a_ReputationScore a) (a_QuotaAccountID a) "agent" now envelopeVersion.
Definition newAgentReputationUpdatedPayload (now : time) (agentID : uuid) (oldScore newScore : float)
  : AgentReputationUpdatedPayload :=
  mkReputationUpdated agentID oldScore newScore (fsub newScore oldScore) now envelopeVersion.
Definition newUserDisabledPayload (userID : uuid) (reason : string) (now : time) : UserDisabledPayload :=
  mkUserDisabled userID reason [userID] now envelopeVersion.
Definition newAgentRevokedPayload (agentID parentUserID : uuid) (reason : string) (now : time) : AgentRevokedPayload :=
  mkAgentRevoked agentID parentUserID reason [agentID] now envelopeVersion.
Definition newPrincipalPermissionsChangedPayload (agentID : uuid) (oldScope newScope : list string) (now : time)
  : PrincipalPermissionsChangedPayload :=
  mkPermissionsChanged agentID oldScope newScope [agentID] now envelopeVersion.
Definition newOrgMemberAddedPayload (orgID userID : uuid) (role : string) (now : time) : OrgMemberAddedPayload :=
  mkMemberAdded orgID userID role [userID; orgID] now envelopeVersion.
Definition newOrgMemberRemovedPayload (orgID userID : uuid) (now : time) : OrgMemberRemovedPayload :=
  mkMemberRemoved orgID userID [userID; orgID] now envelopeVersion.
Definition newCloneTokenMintedPayload (tokenID principalID repoID : uuid) (expiresAt now : time)
  : CloneTokenMintedPayload :=
  mkTokenMinted tokenID principalID repoID expiresAt now envelopeVersion.

(** ** Validation *)

Definition normalizeEmail (s : string) : string := ToLower (TrimSpace s).

Definition looksLikeEmail (s : string) : bool :=
  let s := TrimSpace s in
  if bool_decide (s = "") then false
  else if existsb (fun c => bool_decide (c ∈ [" "; chr 9; chr 10]%char)) (s2l s) then false
  else
    match cut_at "@" (s2l s) with
    | None | Some ([], _) | Some (_, []) => false
    | Some (_, domain) => bool_decide (is_Some (cut_at "." domain))
    end.

Definition clamp01 (x : float) : float := if flt x f0 then f0 else if flt f1 x then f1 else x.

(** ** Retrying *)

Definition retryMaxAttempts : nat := 3.

(** [cancelled i] is the context's error, if it is done before the wait after
    attempt [i] is over. *)
Section retry.
Context {W A : Type} (cancelled : nat -> option error) (fn : nat -> action error W A).

Fixpoint retry_loop (left attempt : nat) : action error W A := fun w =>
  match left with
  | O => (w, Err ErrRetryExhausted)
  | S left' =>
      match fn attempt w with
      | (w', Ok a) => (w', Ok a)
      | (w', Err e) =>
          if negb (IsRetryable e) then (w', Err e)
          else if (attempt =? retryMaxAttempts - 1)%nat then (w', Err ErrRetryExhausted)
          else
            match cancelled attempt with
            | Some ctx_err => (w', Err ctx_err)
            | None => retry_loop left' (S attempt) w'
            end
      end
  end.

Definition WithSerializableRetry : action error W A := retry_loop retryMaxAttempts 0.
End retry.

(** ** The service *)

Definition CloneTokenTTL : duration := 15 * 60 * Second.
Definition cloneTokenSecretBytes : Z := 32.

(** The result of [MintCloneToken]. *)
Record CloneToken := mkCloneToken {
  tok_TokenID : uuid; tok_Token : string; tok_PrincipalID : uuid; tok_RepoID : uuid; tok_ExpiresAt : time }.

(** What the cache is given of a principal. *)
Record CachedIdentity := mkCachedIdentity { ci_Version : Z; ci_PrincipalID : string }.

Section service.
Context {P : Type} {MR : MapRange} (pay : identity_payload -> P).

Record attempt := mkAttempt {
  at_view : nat -> Store P;
  at_conflict : bool;
  at_now : time;
  at_eventID : uuid;
  at_uuid : uuid }.

Context (cancelled : nat -> option error) (atts : nat -> attempt).

Definition run_tx {A} (fn : attempt -> txn P A) : action error (Store P) A :=
  WithSerializableRetry cancelled (fun i s =>
    if at_conflict (atts i) then (s, Err SerializationFailure) else Transact (fn (atts i)) (at_view (atts i)) s).

Definition GetUser (id : uuid) (s : Store P) : option HumanUser := GetUserByID id s.
Definition Service_GetUserByEmail (email : string) (s : Store P) : option HumanUser :=
  GetUserByEmail (normalizeEmail email) s.
Definition GetAgent (id : uuid) (s : Store P) : option AgentIdentity := GetAgentByID id s.
Definition Service_GetAgentsByParentUser (userID : uuid) (s : Store P) : list AgentIdentity :=
  GetAgentsByParentUser userID s.
Definition Service_LookupIdentityForCache (principalID : uuid) (s : Store P) : option CachedIdentity :=
  match LookupIdentityForCache principalID s with
  | None => None
  | Some entry => Some (mkCachedIdentity 1 (uuid_String (ce_PrincipalID entry)))
  end.

Definition write_event (a : attempt) (aggregateType : string) (aggregateID : uuid) (eventType : string)
    (p : identity_payload) : txn P unit :=
  WriteOutbox (at_eventID a) DomainIdentity aggregateType aggregateID eventType (pay p).

(** [newID] is [uuid.New()], [t1] and [t2] two readings of the clock. *)
Definition new_user (newID : uuid) (t1 t2 : time) (email hashed : string) : HumanUser :=
  mkHumanUser newID (normalizeEmail email) hashed "human_default" None t1 t2.

Definition CreateUser (hash : string -> result error string) (newID : uuid) (t1 t2 : time)
    (email plaintextCredential : string) : action error (Store P) HumanUser :=
  let! _ := require (looksLikeEmail email) ErrInvalidEmail in
  let! _ := require (negb (bool_decide (plaintextCredential = ""))) ErrCredentialEmpty in
  let! hashed := (fun s => (s, hash plaintextCredential)) in
  let user := new_user newID t1 t2 email hashed in
  let! _ := run_tx (fun a =>
    let! _ := InsertHumanUser user in
    write_event a "human_user" (u_ID user) EventUserCreated (UserCreated (newUserCreatedPayload (at_now a) user))) in
  ret user.

Definition new_agent (newID : uuid) (t1 t2 : time) (parentUserID : uuid) (displayName : string) (scope : list string)
  : AgentIdentity :=
  mkAgent newID displayName parentUserID scope "agent_standard" None None (lit 1 2) None t1 t2.

Definition CreateAgent (newID : uuid) (t1 t2 : time) (parentUserID : uuid) (displayName : string) (scope : list string)
  : action error (Store P) AgentIdentity :=
  let! _ := require (negb (bool_decide (displayName = ""))) ErrEmptyDisplayName in
  let agent := new_agent newID t1 t2 parentUserID displayName scope in
  let! _ := run_tx (fun a =>
    let! _ := InsertAgentIdentity agent in
    write_event a "agent_identity" (a_ID agent) EventAgentCreated
      (AgentCreated (newAgentCreatedPayload (at_now a) agent))) in
  ret agent.

(** The row of a transaction, or the error for a missing one. *)
Definition must {A} (o : option A) (e : error) : txn P A := match o with Some x => ret x | None => throw e end.

Definition Service_SetAgentReputationScore (agentID : uuid) (score : float) : action error (Store P) unit :=
  let clamped := clamp01 score in
  run_tx (fun a =>
    let! row := tx_GetAgentByID agentID in
    let! existing := must row ErrAgentNotFound in
    let! _ := SetAgentReputationScore agentID clamped in
    write_event a "agent_identity" agentID EventAgentReputationUpdated
      (AgentReputationUpdated (newAgentReputationUpdatedPayload (at_now a) agentID (a_ReputationScore existing) clamped))).

Definition Service_DisableUser (id : uuid) (reason : string) : action error (Store P) unit :=
  run_tx (fun a =>
    let! row := tx_GetUserByID id in
    let! _ := must row ErrUserNotFound in
    let! _ := DisableUser id reason in
    write_event a "human_user" id EventUserDisabled (UserDisabled (newUserDisabledPayload id reason (at_now a)))).

Definition Service_RevokeAgent (id : uuid) (reason : string) : action error (Store P) unit :=
  run_tx (fun a =>
    let! row := tx_GetAgentByID id in
    let! existing := must row ErrAgentNotFound in
    let! _ := RevokeAgent id reason in
    write_event a "agent_identity" id EventAgentRevoked
      (AgentRevoked (newAgentRevokedPayload id (a_ParentUserID existing) reason (at_now a)))).

Definition Service_UpdateAgentPermissions (id : uuid) (scope : list string) : action error (Store P) unit :=
  run_tx (fun a =>
    let! row := tx_GetAgentByID id in
    let! existing := must row ErrAgentNotFound in
    let! _ := UpdateAgentPermissions id scope in
    write_event a "agent_identity" id EventPrincipalPermissionsChanged
      (PrincipalPermissionsChanged
         (newPrincipalPermissionsChangedPayload id (a_PermissionScope existing) scope (at_now a)))).

Definition Service_AddOrgMember (orgID userID : uuid) (role : string) : action error (Store P) unit :=
  let! _ := require (negb (bool_decide (role = ""))) ErrEmptyRole in
  run_tx (fun a =>
    let! row := tx_GetUserByID userID in
    let! _ := must row ErrUserNotFound in
    let! _ := AddOrgMember (mkMembership orgID userID role) in
    write_event a "org_membership" userID EventOrgMemberAdded
      (OrgMemberAdded (newOrgMemberAddedPayload orgID userID role (at_now a)))).

Definition Service_RemoveOrgMember (orgID userID : uuid) : action error (Store P) unit :=
  run_tx (fun a =>
    let! _ := RemoveOrgMember orgID userID in
    write_event a "org_membership" userID EventOrgMemberRemoved
      (OrgMemberRemoved (newOrgMemberRemovedPayload orgID userID (at_now a)))).

(** [entropy] is what [rand.Read] fills in. *)
Definition generateCloneTokenSecret (entropy : option (list ascii)) : result error string :=
  match entropy with
  | None => Err (errors_New "identity: clone-token entropy")
  | Some buf => Ok (EncodeToString RawURLEncoding buf)
  end.

Definition mintCloneTokenInTx (a : attempt) (principalID repoID : uuid) (secret : string) : txn P CloneToken :=
  let tokenID := at_uuid a in
  let expiresAt := Add (at_now a) CloneTokenTTL in
  let! _ := InsertCloneToken (mkCloneTokenRow tokenID secret principalID repoID expiresAt (at_now a)) in
  let! _ := write_event a "clone_token" tokenID EventCloneTokenMinted
    (CloneTokenMinted (newCloneTokenMintedPayload tokenID principalID repoID expiresAt (at_now a))) in
  ret (mkCloneToken tokenID secret principalID repoID expiresAt).

Definition MintCloneToken (entropy : option (list ascii)) (principalID repoID : uuid)
  : action error (Store P) CloneToken :=
  let! secret := (fun s => (s, generateCloneTokenSecret entropy)) in
  run_tx (fun a => mintCloneTokenInTx a principalID repoID secret).
End service.

Arguments attempt P : clear implicits.

(** ** Retried transactions *)

Section retry_lemmas.
Context {W A : Type} (cancelled : nat -> option error) (fn : nat -> action error W A).
Context (Hfail : forall i w w' e, fn i w = (w', Err e) -> w' = w).

Lemma retry_loop_ok left i w w' a : retry_loop cancelled fn left i w = (w', Ok a) ->
  exists j, (i <= j < i + left)%nat /\ fn j w = (w', Ok a).
Proof.
  revert i w. induction left as [|left IH]; intros i w H; [done|]. cbn [retry_loop] in H.
  destruct (fn i w) as [w1 [x|e]] eqn:E; [exists i; split; [lia|congruence]|].
  apply Hfail in E as ->. repeat case_match; try done.
  apply IH in H as (j & Hj & H). exists j. split; [lia|done].
Qed.

Lemma retry_loop_err left i w w' e : retry_loop cancelled fn left i w = (w', Err e) -> w' = w.
Proof.
  revert i w. induction left as [|left IH]; intros i w H; cbn [retry_loop] in H; [congruence|].
  destruct (fn i w) as [w1 [x|e1]] eqn:E; [done|]. apply Hfail in E as ->.
  repeat case_match; try (by simplify_eq). by apply IH in H.
Qed.
End retry_lemmas.

(** The retry loop runs the transaction once more exactly after a
    serialization failure, three times at most: the first attempt that ends
    otherwise gives the result; after three failures, or when the context is
    done in between, the caller gets an error and nothing has changed. *)
Theorem WithSerializableRetry_spec {W A} cancelled (fn : nat -> action error W A) w :
  (forall i w w' e, fn i w = (w', Err e) -> w' = w) ->
  let retryable i := match (fn i w).2 with Err e => IsRetryable e | Ok _ => false end in
  WithSerializableRetry cancelled fn w =
    if negb (retryable 0%nat) then fn 0%nat w
    else match cancelled 0%nat with
         | Some e => (w, Err e)
         | None =>
             if negb (retryable 1%nat) then fn 1%nat w
             else match cancelled 1%nat with
                  | Some e => (w, Err e)
                  | None => if negb (retryable 2%nat) then fn 2%nat w else (w, Err ErrRetryExhausted)
                  end
         end.
Proof.
  intros Hfail retryable. unfold WithSerializableRetry, retryable. cbn [retryMaxAttempts retry_loop Nat.eqb Nat.sub].
  destruct (fn 0%nat w) as [w0 [a0|e0]] eqn:E0; cbn [snd negb]; [done|]. pose proof (Hfail _ _ _ _ E0) as ->.
  destruct (IsRetryable e0); cbn [negb]; [|done]. destruct (cancelled 0%nat); [done|].
  destruct (fn 1%nat w) as [w1 [a1|e1]] eqn:E1; cbn [snd negb]; [done|]. pose proof (Hfail _ _ _ _ E1) as ->.
  destruct (IsRetryable e1); cbn [negb]; [|done]. destruct (cancelled 1%nat); [done|].
  destruct (fn 2%nat w) as [w2 [a2|e2]] eqn:E2; cbn [snd negb]; [done|]. pose proof (Hfail _ _ _ _ E2) as ->.
  by destruct (IsRetryable e2).
Qed.

Lemma WithSerializableRetry_spec_witness :
  let fn := fun (i : nat) (n : nat) => if (i <? 2)%nat then (n, Err SerializationFailure) else (S n, Ok i) in
  WithSerializableRetry (fun _ => None) fn 0%nat = (1%nat, Ok 2%nat).
Proof.
  intros fn. rewrite (WithSerializableRetry_spec (fun _ => None) fn 0%nat); [vm_compute; reflexivity|].
  intros i w w' e. unfold fn. destruct (i <? 2)%nat; congruence.
Defined.

(** ** What each transaction does *)
Section effects.
Context {P : Type} {MR : MapRange} (pay : identity_payload -> P).

Lemma Transact_err {A} (fn : txn P A) view s s' e : Transact fn view s = (s', Err e) -> s' = s.
Proof. unfold Transact. destruct (fn _) as [t [a|e']]; congruence. Qed.

Lemma run_tx_ok {A} cancelled atts (fn : attempt P -> txn P A) s s' x :
  run_tx cancelled atts fn s = (s', Ok x) ->
  exists i, (i < 3)%nat /\ Transact (fn (atts i)) (at_view (atts i)) s = (s', Ok x).
Proof.
  intros H. apply retry_loop_ok in H as (j & Hj & H).
  - destruct (at_conflict (atts j)); [done|]. exists j. split; [unfold retryMaxAttempts in Hj; lia|done].
  - intros i w w' e. destruct (at_conflict _); [congruence|]. apply Transact_err.
Qed.

Lemma run_tx_err {A} cancelled atts (fn : attempt P -> txn P A) s s' e :
  run_tx cancelled atts fn s = (s', Err e) -> s' = s.
Proof.
  apply retry_loop_err. intros i w w' e'. destruct (at_conflict _); [congruence|]. apply Transact_err.
Qed.

Definition identity_event (a : attempt P) (aggregateType : string) (id : uuid) (eventType : string)
    (p : identity_payload) : OutboxRecord P :=
  mkOutboxRecord DomainIdentity aggregateType id eventType (pay p) (at_eventID a).

(** The store with one more event, and with one row put in place. *)
Definition with_event (e : OutboxRecord P) (s : Store P) : Store P :=
  mkStore (users s) (agents s) (repositories s) (partitionArchives s) (cloneTokens s) (quotaAccounts s)
    (outbox s ++ [e]).
Definition with_user (u : HumanUser) (s : Store P) : Store P :=
  mkStore (<[u_ID u := u]> (users s)) (agents s) (repositories s) (partitionArchives s) (cloneTokens s)
    (quotaAccounts s) (outbox s).
Definition with_agent (id : uuid) (a : AgentIdentity) (s : Store P) : Store P :=
  mkStore (users s) (<[id := a]> (agents s)) (repositories s) (partitionArchives s) (cloneTokens s)
    (quotaAccounts s) (outbox s).
Definition with_token (c : CloneTokenRow) (s : Store P) : Store P :=
  mkStore (users s) (agents s) (repositories s) (partitionArchives s) (<[ct_ID c := c]> (cloneTokens s))
    (quotaAccounts s) (outbox s).

Lemma insert_empty_union {A} k (x : A) (m : gmap uuid A) : <[k := x]> ∅ ∪ m = <[k := x]> m.
Proof. by rewrite <- insert_union_l, (left_id_L ∅ (∪)). Qed.

Lemma commit_event e (s : Store P) : commit (add_event e empty_tx) s = with_event e s.
Proof. unfold commit, with_event. cbn. by rewrite !(left_id_L ∅ (∪)), (right_id_L ∅ (∪)). Qed.
Lemma commit_user u e (s : Store P) : commit (add_event e (put_user u empty_tx)) s = with_event e (with_user u s).
Proof. unfold commit, with_event. cbn. by rewrite insert_empty_union, !(left_id_L ∅ (∪)), (right_id_L ∅ (∪)). Qed.
Lemma commit_agent id a e (s : Store P) :
  commit (add_event e (put_agent id a empty_tx)) s = with_event e (with_agent id a s).
Proof. unfold commit, with_event. cbn. by rewrite insert_empty_union, !(left_id_L ∅ (∪)), (right_id_L ∅ (∪)). Qed.
Lemma commit_token c e (s : Store P) : commit (add_event e (put_token c empty_tx)) s = with_event e (with_token c s).
Proof. unfold commit, with_event. cbn. by rewrite insert_empty_union, !(left_id_L ∅ (∪)), (right_id_L ∅ (∪)). Qed.

Context (cancelled : nat -> option error) (atts : nat -> attempt P).

(** Attempt [i] of the three and what it saw first and second. *)
Notation ran i := (i < 3)%nat (only parsing).
Notation saw i n := (at_view (atts i) n) (only parsing).

Lemma CreateUser_ok hash newID t1 t2 email cred s s' u :
  CreateUser pay cancelled atts hash newID t1 t2 email cred s = (s', Ok u) ->
  looksLikeEmail email = true /\ cred <> "" /\ exists hashed i, hash cred = Ok hashed /\ ran i /\
    u = new_user newID t1 t2 email hashed /\
    s' = with_event (identity_event (atts i) "human_user" newID EventUserCreated
           (UserCreated (newUserCreatedPayload (at_now (atts i)) u))) (with_user u s).
Proof.
  unfold CreateUser. intros H. apply bind_ok in H as (s1 & [] & E1 & H). unfold require in E1.
  destruct (looksLikeEmail email); [|done]. injection E1 as <-.
  apply bind_ok in H as (s1 & [] & E2 & H). unfold require in E2.
  case_bool_decide; [done|]. injection E2 as <-.
  apply bind_ok in H as (s1 & hashed & E3 & H). injection E3 as <- E3.
  apply bind_ok in H as (s1 & [] & E4 & H). injection H as <- <-.
  apply run_tx_ok in E4 as (i & Hi & E4). injection E4 as <-.
  split_and!; [done..|]. exists hashed, i. split_and!; [done..|]. by rewrite <- commit_user.
Qed.

Lemma CreateAgent_ok newID t1 t2 parent name scope s s' a :
  CreateAgent pay cancelled atts newID t1 t2 parent name scope s = (s', Ok a) ->
  name <> "" /\ a = new_agent newID t1 t2 parent name scope /\ exists i, ran i /\
    s' = with_event (identity_event (atts i) "agent_identity" newID EventAgentCreated
           (AgentCreated (newAgentCreatedPayload (at_now (atts i)) a))) (with_agent newID a s).
Proof.
  unfold CreateAgent. intros H. apply bind_ok in H as (s1 & [] & E1 & H). unfold require in E1.
  case_bool_decide; [done|]. injection E1 as <-.
  apply bind_ok in H as (s1 & [] & E2 & H). injection H as <- <-.
  apply run_tx_ok in E2 as (i & Hi & E2). injection E2 as <-.
  split_and!; [done..|]. exists i. split; [done|]. by rewrite <- commit_agent.
Qed.

(** Runs a transaction on the stores its attempt saw. *)
Local Ltac run_step E :=
  cbn [pending seen empty_tx pendingAgents pendingUsers] in E; rewrite ?lookup_empty in E;
  cbn [pending seen empty_tx pendingAgents pendingUsers] in E.
Local Ltac run_body E :=
  unfold Transact, tx_GetAgentByID, tx_GetUserByID, own_or_peek, bind, own, must, peek, ret, throw, modify,
    GetAgentByID, GetUserByID in E; run_step E.
Local Ltac run_row E m :=
  let Em := fresh "E" in destruct m eqn:Em; [|by run_step E]; run_step E.

Lemma SetAgentReputationScore_ok id x s s' :
  Service_SetAgentReputationScore pay cancelled atts id x s = (s', Ok tt) ->
  exists i old cur, ran i /\ agents (saw i 0%nat) !! id = Some old /\ agents (saw i 1%nat) !! id = Some cur /\
    s' = with_event (identity_event (atts i) "agent_identity" id EventAgentReputationUpdated
           (AgentReputationUpdated (newAgentReputationUpdatedPayload (at_now (atts i)) id (a_ReputationScore old) (clamp01 x))))
         (with_agent id (set_ReputationScore (clamp01 x) cur) s).
Proof.
  intros H. apply run_tx_ok in H as (i & Hi & E). unfold SetAgentReputationScore in E. run_body E.
  run_row E (agents (saw i 0%nat) !! id). run_row E (agents (saw i 1%nat) !! id). injection E as <-.
  do 3 eexists. split_and!; try done. by rewrite <- commit_agent.
Qed.

Lemma UpdateAgentPermissions_ok id scope s s' :
  Service_UpdateAgentPermissions pay cancelled atts id scope s = (s', Ok tt) ->
  exists i old cur, ran i /\ agents (saw i 0%nat) !! id = Some old /\ agents (saw i 1%nat) !! id = Some cur /\
    s' = with_event (identity_event (atts i) "agent_identity" id EventPrincipalPermissionsChanged
           (PrincipalPermissionsChanged
              (newPrincipalPermissionsChangedPayload id (a_PermissionScope old) scope (at_now (atts i)))))
         (with_agent id (set_PermissionScope scope cur) s).
Proof.
  intros H. apply run_tx_ok in H as (i & Hi & E). unfold UpdateAgentPermissions in E. run_body E.
  run_row E (agents (saw i 0%nat) !! id). run_row E (agents (saw i 1%nat) !! id). injection E as <-.
  do 3 eexists. split_and!; try done. by rewrite <- commit_agent.
Qed.

Lemma DisableUser_ok id reason s s' :
  Service_DisableUser pay cancelled atts id reason s = (s', Ok tt) ->
  exists i, ran i /\ is_Some (users (saw i 0%nat) !! id) /\
    s' = with_event (identity_event (atts i) "human_user" id EventUserDisabled
           (UserDisabled (newUserDisabledPayload id reason (at_now (atts i))))) s.
Proof.
  intros H. apply run_tx_ok in H as (i & Hi & E). unfold DisableUser in E. run_body E.
  run_row E (users (saw i 0%nat) !! id). run_row E (users (saw i 1%nat) !! id). injection E as <-.
  exists i. split_and!; [done..|]. by rewrite <- commit_event.
Qed.

Lemma RevokeAgent_ok id reason s s' :
  Service_RevokeAgent pay cancelled atts id reason s = (s', Ok tt) ->
  exists i old, ran i /\ agents (saw i 0%nat) !! id = Some old /\
    s' = with_event (identity_event (atts i) "agent_identity" id EventAgentRevoked
           (AgentRevoked (newAgentRevokedPayload id (a_ParentUserID old) reason (at_now (atts i))))) s.
Proof.
  intros H. apply run_tx_ok in H as (i & Hi & E). unfold RevokeAgent in E. run_body E.
  run_row E (agents (saw i 0%nat) !! id). run_row E (agents (saw i 1%nat) !! id). injection E as <-.
  do 2 eexists. split_and!; [done..|]. by rewrite <- commit_event.
Qed.

Lemma AddOrgMember_ok org user role s s' :
  Service_AddOrgMember pay cancelled atts org user role s = (s', Ok tt) ->
  role <> "" /\ exists i, ran i /\ is_Some (users (saw i 0%nat) !! user) /\
    s' = with_event (identity_event (atts i) "org_membership" user EventOrgMemberAdded
           (OrgMemberAdded (newOrgMemberAddedPayload org user role (at_now (atts i))))) s.
Proof.
  intros H. apply bind_ok in H as (s1 & [] & E1 & H). unfold require in E1.
  case_bool_decide; [done|]. injection E1 as <-. split; [done|].
  apply run_tx_ok in H as (i & Hi & E). unfold AddOrgMember in E. run_body E.
  run_row E (users (saw i 0%nat) !! user). injection E as <-.
  exists i. split_and!; [done..|]. by rewrite <- commit_event.
Qed.

Lemma RemoveOrgMember_ok org user s s' :
  Service_RemoveOrgMember pay cancelled atts org user s = (s', Ok tt) ->
  exists i, ran i /\ s' = with_event (identity_event (atts i) "org_membership" user EventOrgMemberRemoved
           (OrgMemberRemoved (newOrgMemberRemovedPayload org user (at_now (atts i))))) s.
Proof.
  intros H. apply run_tx_ok in H as (i & Hi & E). injection E as <-. exists i. split; [done|]. by rewrite <- commit_event.
Qed.

Lemma MintCloneToken_ok entropy principal repo s s' t :
  MintCloneToken pay cancelled atts entropy principal repo s = (s', Ok t) ->
  exists buf i, entropy = Some buf /\ ran i /\
    t = mkCloneToken (at_uuid (atts i)) (EncodeToString RawURLEncoding buf) principal repo
          (Add (at_now (atts i)) CloneTokenTTL) /\
    s' = with_event (identity_event (atts i) "clone_token" (tok_TokenID t) EventCloneTokenMinted
           (CloneTokenMinted (newCloneTokenMintedPayload (tok_TokenID t) principal repo (tok_ExpiresAt t) (at_now (atts i)))))
         (with_token (mkCloneTokenRow (tok_TokenID t) (tok_Token t) principal repo (tok_ExpiresAt t) (at_now (atts i))) s).
Proof.
  unfold MintCloneToken. intros H. apply bind_ok in H as (s1 & secret & E1 & H). injection E1 as <- E1.
  destruct entropy as [buf|]; [|done]. injection E1 as <-.
  apply run_tx_ok in H as (i & Hi & E). injection E as <- <-. exists buf, i. split_and!; [done..|]. by rewrite <- commit_token.
Qed.
End effects.

(** ** Calls *)
Section calls.
Context {P : Type} {MR : MapRange} (pay : identity_payload -> P).

Inductive op :=
| OpCreateUser (hash : string -> result error string) (newID : uuid) (t1 t2 : time) (email cred : string)
| OpCreateAgent (newID : uuid) (t1 t2 : time) (parent : uuid) (name : string) (scope : list string)
| OpSetReputation (id : uuid) (score : float)
| OpDisableUser (id : uuid) (reason : string)
| OpRevokeAgent (id : uuid) (reason : string)
| OpUpdatePermissions (id : uuid) (scope : list string)
| OpAddOrgMember (org user : uuid) (role : string)
| OpRemoveOrgMember (org user : uuid)
| OpMintCloneToken (entropy : option (list ascii)) (principal repo : uuid).

Definition void {A} (m : action error (Store P) A) : action error (Store P) unit := let! _ := m in ret tt.

Definition run_op (cancelled : nat -> option error) (atts : nat -> attempt P) (o : op) : action error (Store P) unit :=
  match o with
  | OpCreateUser hash newID t1 t2 email cred => void (CreateUser pay cancelled atts hash newID t1 t2 email cred)
  | OpCreateAgent newID t1 t2 parent name scope => void (CreateAgent pay cancelled atts newID t1 t2 parent name scope)
  | OpSetReputation id score => Service_SetAgentReputationScore pay cancelled atts id score
  | OpDisableUser id reason => Service_DisableUser pay cancelled atts id reason
  | OpRevokeAgent id reason => Service_RevokeAgent pay cancelled atts id reason
  | OpUpdatePermissions id scope => Service_UpdateAgentPermissions pay cancelled atts id scope
  | OpAddOrgMember org user role => Service_AddOrgMember pay cancelled atts org user role
  | OpRemoveOrgMember org user => Service_RemoveOrgMember pay cancelled atts org user
  | OpMintCloneToken entropy principal repo => void (MintCloneToken pay cancelled atts entropy principal repo)
  end.

(** The type an event is published under, and whom it is about. *)
Definition event_type (p : identity_payload) : string :=
  match p with
  | UserCreated _ => EventUserCreated
  | AgentCreated _ => EventAgentCreated
  | AgentReputationUpdated _ => EventAgentReputationUpdated
  | UserDisabled _ => EventUserDisabled
  | AgentRevoked _ => EventAgentRevoked
  | PrincipalPermissionsChanged _ => EventPrincipalPermissionsChanged
  | OrgMemberAdded _ => EventOrgMemberAdded
  | OrgMemberRemoved _ => EventOrgMemberRemoved
  | CloneTokenMinted _ => EventCloneTokenMinted
  end.
Definition subject (p : identity_payload) : uuid :=
  match p with
  | UserCreated p => uc_UserID p
  | AgentCreated p => ac_AgentID p
  | AgentReputationUpdated p => ru_AgentID p
  | UserDisabled p => ud_UserID p
  | AgentRevoked p => ar_AgentID p
  | PrincipalPermissionsChanged p => pc_AgentID p
  | OrgMemberAdded p => ma_UserID p
  | OrgMemberRemoved p => mr_UserID p
  | CloneTokenMinted p => tm_TokenID p
  end.

(** ** What a call is to do

    The event of an operation: the kind and id of the aggregate it is filed
    under, its type and its payload, at [now], for the token id [tokenID] and
    the agent [old] that the transaction read first. *)
Definition op_event (o : op) (now : time) (tokenID : uuid) (old : option AgentIdentity)
  : option (string * uuid * string * identity_payload) :=
  match o with
  | OpCreateUser _ newID _ _ email _ =>
      Some ("human_user", newID, "user.created", UserCreated (mkUserCreated newID (normalizeEmail email) "human_default" None "user" now 1))
  | OpCreateAgent newID _ _ parent name scope =>
      Some ("agent_identity", newID, "agent.created",
            AgentCreated (mkAgentCreated newID parent name scope "agent_standard" None None (lit 1 2) None "agent" now 1))
  | OpSetReputation id score =>
      a ← old;
      Some ("agent_identity", id, "agent.reputation_updated",
            AgentReputationUpdated (mkReputationUpdated id (a_ReputationScore a) (clamp01 score) (fsub (clamp01 score) (a_ReputationScore a)) now 1))
  | OpDisableUser id reason => Some ("human_user", id, "user.disabled", UserDisabled (mkUserDisabled id reason [id] now 1))
  | OpRevokeAgent id reason =>
      a ← old; Some ("agent_identity", id, "agent.revoked", AgentRevoked (mkAgentRevoked id (a_ParentUserID a) reason [id] now 1))
  | OpUpdatePermissions id scope =>
      a ← old;
      Some ("agent_identity", id, "principal.permissions_changed",
            PrincipalPermissionsChanged (mkPermissionsChanged id (a_PermissionScope a) scope [id] now 1))
  | OpAddOrgMember org user role =>
      Some ("org_membership", user, "org.member_added", OrgMemberAdded (mkMemberAdded org user role [user; org] now 1))
  | OpRemoveOrgMember org user =>
      Some ("org_membership", user, "org.member_removed", OrgMemberRemoved (mkMemberRemoved org user [user; org] now 1))
  | OpMintCloneToken _ principal repo =>
      Some ("clone_token", tokenID, "identity.clone_token_minted",
            CloneTokenMinted (mkTokenMinted tokenID principal repo (Add now CloneTokenTTL) now 1))
  end.
Definition op_agent (o : op) : uuid :=
  match o with OpSetReputation id _ | OpRevokeAgent id _ | OpUpdatePermissions id _ => id | _ => 0 end.

(** The rows of an operation that succeeded in attempt [a]: [s1] is [s] with
    them.  The in-memory store has no column for a user who is disabled or an
    agent who is revoked, and no memberships. *)
Definition op_rows (o : op) (a : attempt P) (s s1 : Store P) : Prop :=
  match o with
  | OpCreateUser hash newID t1 t2 email cred =>
      looksLikeEmail email = true /\ cred <> "" /\
      exists hashed, hash cred = Ok hashed /\ s1 = with_user (mkHumanUser newID (normalizeEmail email) hashed "human_default" None t1 t2) s
  | OpCreateAgent newID t1 t2 parent name scope =>
      name <> "" /\ s1 = with_agent newID (mkAgent newID name parent scope "agent_standard" None None (lit 1 2) None t1 t2) s
  | OpSetReputation id score =>
      exists cur, agents (at_view a 1%nat) !! id = Some cur /\ s1 = with_agent id (set_ReputationScore (clamp01 score) cur) s
  | OpUpdatePermissions id scope =>
      exists cur, agents (at_view a 1%nat) !! id = Some cur /\ s1 = with_agent id (set_PermissionScope scope cur) s
  | OpDisableUser id _ => is_Some (users (at_view a 0%nat) !! id) /\ s1 = s
  | OpRevokeAgent id _ => is_Some (agents (at_view a 0%nat) !! id) /\ s1 = s
  | OpAddOrgMember _ user role => role <> "" /\ is_Some (users (at_view a 0%nat) !! user) /\ s1 = s
  | OpRemoveOrgMember _ _ => s1 = s
  | OpMintCloneToken entropy principal repo =>
      exists buf, entropy = Some buf /\
        s1 = with_token (mkCloneTokenRow (at_uuid a) (EncodeToString RawURLEncoding buf) principal repo (Add (at_now a) CloneTokenTTL) (at_now a)) s
  end.

(** [s'] is [s] with the rows of the operation and its one event. *)
Definition op_done (o : op) (a : attempt P) (s s' : Store P) : Prop :=
  exists ty id et p s1, op_event o (at_now a) (at_uuid a) (agents (at_view a 0%nat) !! op_agent o) = Some (ty, id, et, p) /\
    op_rows o a s s1 /\ s' = with_event (mkOutboxRecord DomainIdentity ty id et (pay p) (at_eventID a)) s1.

Lemma void_ok {A} (m : action error (Store P) A) s s' u : void m s = (s', Ok u) -> exists a, m s = (s', Ok a).
Proof. intros H. apply bind_ok in H as (s1 & a & E & H). injection H as <-. eauto. Qed.

(** An error leaves the store as it was. *)
Definition rolls_back {A} (m : action error (Store P) A) : Prop := forall w w' e, m w = (w', Err e) -> w' = w.

Lemma rolls_back_run_tx {A} cancelled atts (fn : attempt P -> txn P A) : rolls_back (run_tx cancelled atts fn).
Proof. intros w w' e. apply run_tx_err. Qed.
Lemma rolls_back_pure {A B} (r : result error A) (k : A -> action error (Store P) B) :
  (forall a, rolls_back (k a)) -> rolls_back (bind (fun s => (s, r)) k).
Proof. intros Hk w w' e. unfold bind. destruct r; [apply Hk|congruence]. Qed.
Lemma rolls_back_require {B} b err (k : unit -> action error (Store P) B) :
  rolls_back (k tt) -> rolls_back (bind (require b err) k).
Proof. intros Hk w w' e. unfold bind, require. destruct b; [apply Hk|]. unfold throw. congruence. Qed.
Lemma rolls_back_ret {A B} (m : action error (Store P) A) (f : A -> B) :
  rolls_back m -> rolls_back (bind m (fun a => ret (f a))).
Proof. intros Hm w w' e. unfold bind. destruct (m w) as [w1 [a|e1]] eqn:E; [done|]. intros [= <- _]. by eapply Hm. Qed.

Lemma run_op_rolls_back cancelled atts o : rolls_back (run_op cancelled atts o).
Proof.
  destruct o; cbn [run_op]; try apply rolls_back_run_tx.
  - apply (rolls_back_ret _ (fun _ => tt)), rolls_back_require, rolls_back_require, rolls_back_pure. intros hashed.
    apply rolls_back_ret, rolls_back_run_tx.
  - apply (rolls_back_ret _ (fun _ => tt)), rolls_back_require, rolls_back_ret, rolls_back_run_tx.
  - apply rolls_back_require, rolls_back_run_tx.
  - apply (rolls_back_ret _ (fun _ => tt)), rolls_back_pure. intros secret. apply rolls_back_run_tx.
Qed.
End calls.

Section calls_done.
Context {P : Type} {MR : MapRange} (pay : identity_payload -> P) (cancelled : nat -> option error) (atts : nat -> attempt P).

Lemma run_op_done o s s' : run_op pay cancelled atts o s = (s', Ok tt) -> exists i, (i < 3)%nat /\ op_done pay o (atts i) s s'.
Proof.
  intros H. destruct o; cbn [run_op] in H; try (apply void_ok in H as [x H]); unfold op_done; cbn [op_event op_rows op_agent].
  - apply CreateUser_ok in H as (He & Hc & hashed & i & Hh & Hi & -> & ->). exists i. split; [done|]. do 5 eexists.
    split; [reflexivity|]. split; [by eauto|done].
  - apply CreateAgent_ok in H as (Hn & -> & i & Hi & ->). exists i. split; [done|]. do 5 eexists. split; [reflexivity|]. by split.
  - apply SetAgentReputationScore_ok in H as (i & old & cur & Hi & E0 & E1 & ->). exists i. split; [done|]. do 5 eexists.
    rewrite E0. split; [reflexivity|]. split; [by eauto|done].
  - apply DisableUser_ok in H as (i & Hi & Hu & ->). exists i. split; [done|]. do 5 eexists. split; [reflexivity|]. by split.
  - apply RevokeAgent_ok in H as (i & old & Hi & E0 & ->). exists i. split; [done|]. do 5 eexists.
    rewrite E0. split; [reflexivity|]. by split; [split|].
  - apply UpdateAgentPermissions_ok in H as (i & old & cur & Hi & E0 & E1 & ->). exists i. split; [done|]. do 5 eexists.
    rewrite E0. split; [reflexivity|]. split; [by eauto|done].
  - apply AddOrgMember_ok in H as (Hr & i & Hi & Hu & ->). exists i. split; [done|]. do 5 eexists. split; [reflexivity|]. by split.
  - apply RemoveOrgMember_ok in H as (i & Hi & ->). exists i. split; [done|]. do 5 eexists. by split.
  - apply MintCloneToken_ok in H as (buf & i & He & Hi & -> & ->). exists i. split; [done|]. do 5 eexists. split; [reflexivity|]. split; [by eauto|done].
Qed.
End calls_done.

(** C10: A change and its event are one.  On the in-memory store a call that
    fails leaves it untouched, and a call that succeeds does what one of its
    three attempts was to do, on top of whatever other transactions have
    committed: it writes the rows of the operation ([op_rows]: the new user,
    agent or token, the new score or scope, with the arguments of the call) and
    adds exactly one event, the operation's own ([op_event]: its aggregate, its
    type and its payload), and changes nothing else. *)
Theorem one_event_per_change {P} {MR : MapRange} (pay : identity_payload -> P) cancelled atts o s s' r :
  run_op pay cancelled atts o s = (s', r) ->
  match r with
  | Ok _ => exists i ty id et p s1, (i < 3)%nat /\
      op_event o (at_now (atts i)) (at_uuid (atts i)) (agents (at_view (atts i) 0%nat) !! op_agent o) = Some (ty, id, et, p) /\
      op_rows o (atts i) s s1 /\
      s' = with_event (mkOutboxRecord DomainIdentity ty id et (pay p) (at_eventID (atts i))) s1
  | Err _ => s' = s
  end.
Proof.
  destruct r as [[]|e]; [|apply run_op_rolls_back]. intros (i & Hi & ty & id & et & p & s1 & H)%run_op_done.
  by exists i, ty, id, et, p, s1.
Qed.

(** ** The event log tells the state

    What a consumer of the identity events knows after reading them in
    order.  It insists that an event speaks about principals it has been told
    of, and that old scores, scopes and parents are the ones it knows. *)
#[export] Instance float_eq_dec : EqDecision float.
Proof. unfold float. solve_decision. Defined.

Record profile := mkProfile { pr_Parent : uuid; pr_Name : string; pr_Scope : list string; pr_Score : float }.
Record told := mkTold {
  told_users : gmap uuid (string * string);
  told_agents : gmap uuid profile;
  told_tokens : gmap uuid (uuid * uuid * time) }.

Definition hear (t : told) (p : identity_payload) : option told :=
  match p with
  | UserCreated p => Some (mkTold (<[uc_UserID p := (uc_Email p, uc_RateBucket p)]> (told_users t)) (told_agents t) (told_tokens t))
  | AgentCreated p =>
      Some (mkTold (told_users t) (<[ac_AgentID p := mkProfile (ac_ParentUserID p) (ac_DisplayName p)
        (ac_PermissionScope p) (ac_ReputationScore p)]> (told_agents t)) (told_tokens t))
  | AgentReputationUpdated p =>
      a ← told_agents t !! ru_AgentID p;
      if bool_decide (pr_Score a = ru_OldScore p)
      then Some (mkTold (told_users t)
        (<[ru_AgentID p := mkProfile (pr_Parent a) (pr_Name a) (pr_Scope a) (ru_NewScore p)]> (told_agents t)) (told_tokens t))
      else None
  | PrincipalPermissionsChanged p =>
      a ← told_agents t !! pc_AgentID p;
      if bool_decide (pr_Scope a = pc_OldScope p)
      then Some (mkTold (told_users t)
        (<[pc_AgentID p := mkProfile (pr_Parent a) (pr_Name a) (pc_NewScope p) (pr_Score a)]> (told_agents t)) (told_tokens t))
      else None
  | UserDisabled p => _ ← told_users t !! ud_UserID p; Some t
  | AgentRevoked p =>
      a ← told_agents t !! ar_AgentID p;
      if bool_decide (pr_Parent a = ar_ParentUserID p) then Some t else None
  | OrgMemberAdded p => _ ← told_users t !! ma_UserID p; Some t
  | OrgMemberRemoved p => Some t
  | CloneTokenMinted p =>
      Some (mkTold (told_users t) (told_agents t)
        (<[tm_TokenID p := (tm_PrincipalID p, tm_RepoID p, tm_ExpiresAt p)]> (told_tokens t)))
  end.

Fixpoint replay (t : told) (l : list identity_payload) : option told :=
  match l with
  | [] => Some t
  | p :: l' => t' ← hear t p; replay t' l'
  end.

Lemma replay_snoc t l p : replay t (l ++ [p]) = (t' ← replay t l; hear t' p).
Proof.
  revert t. induction l as [|q l IH]; intros t; cbn [app replay].
  - change (Some t ≫= (fun t' => hear t' p)) with (hear t p). by destruct (hear t p).
  - destruct (hear t q) as [t'|]; [apply IH|done].
Qed.

Section told.
Context {MR : MapRange}.
Notation S' := (Store identity_payload).

Definition told_of (s : S') : told :=
  mkTold ((fun u => (u_Email u, u_RateBucket u)) <$> users s)
    ((fun a => mkProfile (a_ParentUserID a) (a_DisplayName a) (a_PermissionScope a) (a_ReputationScore a)) <$> agents s)
    ((fun c => (ct_PrincipalID c, ct_RepoID c, ct_ExpiresAt c)) <$> cloneTokens s).

Definition log (s : S') : list identity_payload := or_Payload <$> outbox s.

(** Calls one after the other: each sees the store it commits to. *)
Inductive serial : S' -> Prop :=
| serial_New : serial New
| serial_call s cancelled atts o : serial s -> (forall i n, at_view (atts i) n = s) ->
    serial (run_op (fun p => p) cancelled atts o s).1.

Lemma log_event a ag id et p (s : S') : log (with_event (identity_event (fun p => p) a ag id et p) s) = log s ++ [p].
Proof. unfold log. cbn. by rewrite fmap_app. Qed.

Lemma told_of_event e (s : S') : told_of (with_event e s) = told_of s.
Proof. done. Qed.

Lemma told_agent id a (s : S') : agents s !! id = Some a ->
  told_agents (told_of s) !! id =
    Some (mkProfile (a_ParentUserID a) (a_DisplayName a) (a_PermissionScope a) (a_ReputationScore a)).
Proof. intros H. cbn. by rewrite lookup_fmap, H. Qed.
Lemma told_user id u (s : S') : users s !! id = Some u -> told_users (told_of s) !! id = Some (u_Email u, u_RateBucket u).
Proof. intros H. cbn. by rewrite lookup_fmap, H. Qed.
End told.

(** C9: As long as calls do not overlap, the outbox tells the whole state: a
    consumer that reads the identity events from the start, in order, never
    meets one that contradicts what it has been told, and ends up knowing
    exactly the users, agents (with their scopes and scores) and clone tokens
    of the store. *)
Theorem events_tell_state {MR : MapRange} s : serial s -> replay (mkTold ∅ ∅ ∅) (log s) = Some (told_of s).
Proof.
  induction 1 as [|s cancelled atts o Hs IH Hv]; [unfold told_of; cbn; by rewrite !fmap_empty|].
  destruct (run_op _ cancelled atts o s) as [s' r] eqn:E. cbn [fst]. destruct r as [[]|e].
  2:{ by apply run_op_rolls_back in E as ->. }
  assert (Hsnoc : forall a ag id et p s1, log s1 = log s -> hear (told_of s) p = Some (told_of s1) ->
    let s2 := with_event (identity_event (fun p => p) a ag id et p) s1 in
    replay (mkTold ∅ ∅ ∅) (log s2) = Some (told_of s2)).
  { intros a ag id et p s1 Hl Hh s2. unfold s2. rewrite log_event, Hl, replay_snoc, IH. exact Hh. }
  destruct o; cbn [run_op] in E; try (apply void_ok in E as [x E]).
  - apply CreateUser_ok in E as (_ & _ & hashed & i & _ & _ & -> & ->).
    apply Hsnoc; [done|]. unfold told_of. cbn. by rewrite fmap_insert.
  - apply CreateAgent_ok in E as (_ & -> & i & _ & ->).
    apply Hsnoc; [done|]. unfold told_of. cbn. by rewrite fmap_insert.
  - apply SetAgentReputationScore_ok in E as (i & old & cur & _ & E0 & E1 & ->). rewrite Hv in E0, E1. simplify_eq.
    apply Hsnoc; [done|]. unfold hear. cbn [ru_AgentID newAgentReputationUpdatedPayload].
    rewrite (told_agent _ _ _ E0). cbn. rewrite bool_decide_true by done. unfold told_of. cbn. by rewrite fmap_insert.
  - apply DisableUser_ok in E as (i & _ & [u Hu] & ->). rewrite Hv in Hu.
    apply Hsnoc; [done|]. unfold hear. cbn [ud_UserID newUserDisabledPayload]. by rewrite (told_user _ _ _ Hu).
  - apply RevokeAgent_ok in E as (i & old & _ & E0 & ->). rewrite Hv in E0.
    apply Hsnoc; [done|]. unfold hear. cbn [ar_AgentID newAgentRevokedPayload].
    rewrite (told_agent _ _ _ E0). cbn. by rewrite bool_decide_true.
  - apply UpdateAgentPermissions_ok in E as (i & old & cur & _ & E0 & E1 & ->). rewrite Hv in E0, E1. simplify_eq.
    apply Hsnoc; [done|]. unfold hear. cbn [pc_AgentID newPrincipalPermissionsChangedPayload].
    rewrite (told_agent _ _ _ E0). cbn. rewrite bool_decide_true by done. unfold told_of. cbn. by rewrite fmap_insert.
  - apply AddOrgMember_ok in E as (_ & i & _ & [u Hu] & ->). rewrite Hv in Hu.
    apply Hsnoc; [done|]. unfold hear. cbn [ma_UserID newOrgMemberAddedPayload]. by rewrite (told_user _ _ _ Hu).
  - apply RemoveOrgMember_ok in E as (i & _ & ->). by apply Hsnoc.
  - apply MintCloneToken_ok in E as (buf & i & _ & _ & -> & ->).
    apply Hsnoc; [done|]. unfold told_of. cbn. by rewrite fmap_insert.
Qed.

(** ** Outcomes *)

(** What a call answers in a store nobody else is changing. *)
Definition outcome {P} (o : op) (s : Store P) : result error unit :=
  match o with
  | OpCreateUser hash _ _ _ email cred =>
      if negb (looksLikeEmail email) then Err ErrInvalidEmail
      else if bool_decide (cred = "") then Err ErrCredentialEmpty
      else match hash cred with Ok _ => Ok tt | Err e => Err e end
  | OpCreateAgent _ _ _ _ name _ => if bool_decide (name = "") then Err ErrEmptyDisplayName else Ok tt
  | OpSetReputation id _ | OpRevokeAgent id _ | OpUpdatePermissions id _ =>
      match agents s !! id with Some _ => Ok tt | None => Err ErrAgentNotFound end
  | OpDisableUser id _ => match users s !! id with Some _ => Ok tt | None => Err ErrUserNotFound end
  | OpAddOrgMember _ user role =>
      if bool_decide (role = "") then Err ErrEmptyRole
      else match users s !! user with Some _ => Ok tt | None => Err ErrUserNotFound end
  | OpRemoveOrgMember _ _ => Ok tt
  | OpMintCloneToken entropy _ _ =>
      match entropy with Some _ => Ok tt | None => Err (errors_New "identity: clone-token entropy") end
  end.

Section outcomes.
Context {P : Type} {MR : MapRange} (pay : identity_payload -> P) (cancelled : nat -> option error) (atts : nat -> attempt P).
Context (s : Store P) (Hfree : at_conflict (atts 0%nat) = false) (Hview : forall n, at_view (atts 0%nat) n = s).

Lemma run_tx_first {A} (fn : attempt P -> txn P A) r :
  (Transact (fn (atts 0%nat)) (at_view (atts 0%nat)) s).2 = r ->
  match r with Err e => IsRetryable e = false | Ok _ => True end ->
  (run_tx cancelled atts fn s).2 = r.
Proof.
  intros Hr Hn. unfold run_tx, WithSerializableRetry. cbn [retryMaxAttempts retry_loop]. rewrite Hfree.
  destruct (Transact _ _ _) as [s' [x|e]]; cbn [snd] in Hr; subst; [done|]. by rewrite Hn.
Qed.

Lemma must_spec {A} (o : option A) e (t : txstate P) : must o e t = (t, match o with Some x => Ok x | None => Err e end).
Proof. by destruct o. Qed.

Lemma bind_second {A B} (m : action error (Store P) A) (k : A -> action error (Store P) B) a r :
  (m s).2 = Ok a -> (forall s', (k a s').2 = r) -> (bind m k s).2 = r.
Proof. unfold bind. destruct (m s) as [s' x]. cbn. intros -> Hk. apply Hk. Qed.

Lemma CreateUser_outcome hash newID t1 t2 email cred :
  (run_op pay cancelled atts (OpCreateUser hash newID t1 t2 email cred) s).2 = outcome (OpCreateUser hash newID t1 t2 email cred) s.
Proof.
  cbn [run_op outcome]. unfold void, CreateUser. destruct (looksLikeEmail email); [|done]. cbn [negb].
  destruct (bool_decide (cred = "")) eqn:Ec; [done|].
  destruct (hash cred) as [hashed|e] eqn:Eh; [|done].
  eapply bind_second; [|done].
  rewrite (bind_Ok _ _ s s tt), (bind_Ok _ _ s s tt), (bind_Ok _ _ s s hashed); try done.
  eapply bind_second; [by apply run_tx_first|done].
Qed.

Lemma CreateAgent_outcome newID t1 t2 parent name scope :
  (run_op pay cancelled atts (OpCreateAgent newID t1 t2 parent name scope) s).2 =
    outcome (P := P) (OpCreateAgent newID t1 t2 parent name scope) s.
Proof.
  cbn [run_op outcome]. unfold void, CreateAgent.
  destruct (bool_decide (name = "")) eqn:En; [done|].
  eapply bind_second; [|done]. rewrite (bind_Ok _ _ s s tt) by done.
  eapply bind_second; [by apply run_tx_first|done].
Qed.
End outcomes.

(** With one view for all its reads a body is decided by one row, [m]. *)
Local Ltac step :=
  cbn [pending seen empty_tx pendingAgents pendingUsers]; rewrite ?lookup_empty;
  repeat match goal with H : forall n, at_view _ n = _ |- _ => rewrite !H end;
  cbn [pending seen empty_tx pendingAgents pendingUsers].
Local Ltac decided_by m :=
  apply run_tx_first; [done| |by destruct m];
  unfold Transact, tx_GetAgentByID, tx_GetUserByID, SetAgentReputationScore, UpdateAgentPermissions, DisableUser,
    RevokeAgent, AddOrgMember, own_or_peek, bind, own, must, peek, ret, throw, modify, GetAgentByID, GetUserByID;
  step; destruct m eqn:?E; do 3 (step; rewrite ?E); reflexivity.

(** Alone in the store, every call answers as documented: validation
    errors first, then a missing user or agent, otherwise success; removing a
    membership never fails. *)
Theorem run_op_outcome {P} {MR : MapRange} (pay : identity_payload -> P) cancelled atts o s :
  at_conflict (atts 0%nat) = false -> (forall n, at_view (atts 0%nat) n = s) ->
  (run_op pay cancelled atts o s).2 = outcome o s.
Proof.
  intros Hfree Hview. destruct o; [by apply CreateUser_outcome|by apply CreateAgent_outcome|..]; cbn [run_op outcome].
  - decided_by (agents s !! id).
  - decided_by (users s !! id).
  - decided_by (agents s !! id).
  - decided_by (agents s !! id).
  - unfold Service_AddOrgMember.
    destruct (bool_decide (role = "")) eqn:Er; [done|].
    rewrite (bind_Ok _ _ s s tt) by done. decided_by (users s !! user).
  - by apply run_tx_first.
  - unfold void, MintCloneToken. destruct entropy as [buf|]; [|done].
    eapply bind_second; [|done]. rewrite (bind_Ok _ _ s s (EncodeToString RawURLEncoding buf)) by done.
    by apply run_tx_first.
Qed.

(** ** Overlapping calls *)

Definition not_nan (x : float) : Prop := x <> S754_nan.
Definition unit_score (x : float) : Prop := fge x f0 = true /\ fge f1 x = true.

Lemma clamp01_unit x : not_nan x -> unit_score (clamp01 x).
Proof.
  intros Hx. unfold clamp01, unit_score. destruct (flt x f0) eqn:E0; [by vm_compute|].
  destruct (flt f1 x) eqn:E1; [by vm_compute|].
  assert (F1 : f1 = S754_finite false 4503599627370496 (-52)) by (vm_compute; reflexivity).
  unfold flt, fge, SFltb, SFleb, f0 in *. rewrite F1 in *. clear F1. revert E1. generalize 4503599627370496%positive.
  intros k E1. destruct x as [[]|[]| |[] m e]; cbn [SFcompare] in *; try discriminate; try (split; reflexivity).
  - by destruct Hx.
  - split; [done|]. rewrite Z.compare_antisym. destruct (-52 ?= e)%Z; cbn [CompOpp] in *; try done.
    pose proof (Pos.compare_cont_antisym k m Eq) as Ha. cbn [CompOpp] in Ha. rewrite <- Ha.
    by destruct (Pos.compare_cont Eq k m).
Qed.

(** A score that is not a number goes through: every comparison with it is
    false. *)
Example clamp01_nan : clamp01 S754_nan = S754_nan.
Proof. reflexivity. Qed.

Section overlapping.
Context {P : Type} {MR : MapRange} (pay : identity_payload -> P).

(** Whether scores that are not numbers may be submitted. *)
Context (nan : bool).
Definition proper (o : op) : Prop := match o with OpSetReputation _ x => nan = false -> not_nan x | _ => True end.

(** Any number of calls at a time: what a call reads may come from any stores
    that have existed, and it commits to the current one. *)
Inductive reachable : Store P -> Prop :=
| reachable_New : reachable New
| reachable_call s cancelled atts o : reachable s -> (forall i n, reachable (at_view (atts i) n)) -> proper o ->
    reachable (run_op pay cancelled atts o s).1.

Definition user_ok (u : HumanUser) : Prop :=
  exists raw, looksLikeEmail raw = true /\ u_Email u = normalizeEmail raw.
Definition score_ok (x : float) : Prop := unit_score x \/ nan = true /\ x = S754_nan.
Definition agent_ok (a : AgentIdentity) : Prop := a_DisplayName a <> "" /\ score_ok (a_ReputationScore a).
Definition token_ok (c : CloneTokenRow) : Prop :=
  ct_ExpiresAt c = Add (ct_CreatedAt c) CloneTokenTTL /\ exists buf, ct_Token c = EncodeToString RawURLEncoding buf.

Record sound (s : Store P) : Prop := {
  sound_keyed : keyed s;
  sound_users : map_Forall (fun _ u => user_ok u) (users s);
  sound_agents : map_Forall (fun _ a => agent_ok a) (agents s);
  sound_tokens : map_Forall (fun _ c => token_ok c) (cloneTokens s) }.

Lemma sound_event e s : sound s -> sound (with_event e s).
Proof. intros [[] ? ? ?]. by split. Qed.
Lemma sound_user u s : user_ok u -> sound s -> sound (with_user u s).
Proof.
  intros Hu [[] ? ? ?]. split; [split|..]; cbn; try done; [by apply filed_insert|by apply map_Forall_insert_2].
Qed.
Lemma sound_agent id a s : a_ID a = id -> agent_ok a -> sound s -> sound (with_agent id a s).
Proof.
  intros <- Ha [[] ? ? ?]. split; [split|..]; cbn; try done; [by apply filed_insert|by apply map_Forall_insert_2].
Qed.
Lemma sound_token c s : token_ok c -> sound s -> sound (with_token c s).
Proof.
  intros Hc [[] ? ? ?]. split; [split|..]; cbn; try done; [by apply filed_insert|by apply map_Forall_insert_2].
Qed.

Lemma half_ok : score_ok (lit 1 2).
Proof. left. by vm_compute. Qed.
Lemma clamp01_ok x : (nan = false -> not_nan x) -> score_ok (clamp01 x).
Proof.
  intros Hx. destruct (decide (x = S754_nan)) as [->|Hne]; [|left; by apply clamp01_unit].
  destruct nan eqn:E; [right; by split|]. by destruct (Hx eq_refl).
Qed.
End overlapping.

(** C14: However calls on the in-memory store overlap, every row is filed under
    its id, every stored email is the normal form of something that looks like
    an email, every agent has a name, every clone token expires fifteen minutes
    after it was made, and every score is between 0 and 1 or, only if calls may
    submit a score that is not a number ([nan]), not a number itself. *)
Theorem identity_rows_sound {P} {MR : MapRange} (pay : identity_payload -> P) nan s : reachable pay nan s -> sound nan s.
Proof.
  induction 1 as [|s cancelled atts o Hs IH Hv IHv Ho]; [split; [apply keyed_New|apply map_Forall_empty..]|].
  destruct (run_op _ cancelled atts o s) as [s' r] eqn:E. cbn [fst]. destruct r as [[]|e].
  2:{ by apply run_op_rolls_back in E as ->. }
  destruct o; cbn [run_op] in E; try (apply void_ok in E as [x E]).
  - apply CreateUser_ok in E as (He & _ & hashed & i & _ & _ & -> & ->).
    apply sound_event, sound_user; [|done]. by exists email.
  - apply CreateAgent_ok in E as (Hn & -> & i & _ & ->).
    apply sound_event, sound_agent; [done| |done]. split; [done|apply half_ok].
  - apply SetAgentReputationScore_ok in E as (i & old & cur & _ & _ & E1 & ->).
    destruct (sound_agents _ _ (IHv i 1%nat) _ _ E1) as [Hn _].
    apply sound_event, sound_agent; [exact (keyed_agents _ (sound_keyed _ _ (IHv i 1%nat)) _ _ E1)| |done].
    split; [done|]. by apply clamp01_ok.
  - apply DisableUser_ok in E as (i & _ & _ & ->). by apply sound_event.
  - apply RevokeAgent_ok in E as (i & old & _ & _ & ->). by apply sound_event.
  - apply UpdateAgentPermissions_ok in E as (i & old & cur & _ & _ & E1 & ->).
    destruct (sound_agents _ _ (IHv i 1%nat) _ _ E1) as [Hn Hu].
    apply sound_event, sound_agent; [exact (keyed_agents _ (sound_keyed _ _ (IHv i 1%nat)) _ _ E1)|by split|done].
  - apply AddOrgMember_ok in E as (_ & i & _ & _ & ->). by apply sound_event.
  - apply RemoveOrgMember_ok in E as (i & _ & ->). by apply sound_event.
  - apply MintCloneToken_ok in E as (buf & i & _ & _ & -> & ->).
    apply sound_event, sound_token; [|done]. split; [done|by exists buf].
Qed.

(** ** Secrets *)

Section related.
Context {W A B : Type} (cancelled : nat -> option error) (Q : W -> W -> Prop) (w : W).

(** Two actions go the same way; after an error both leave [w]. *)
Definition related (x : W * result error A) (y : W * result error B) : Prop :=
  match x, y with
  | (w1, Ok _), (w2, Ok _) => Q w1 w2
  | (w1, Err e1), (w2, Err e2) => w1 = w /\ w2 = w /\ e1 = e2
  | _, _ => False
  end.

Lemma retry_loop_related (f : nat -> action error W A) (g : nat -> action error W B) left i :
  (forall j, related (f j w) (g j w)) -> related (retry_loop cancelled f left i w) (retry_loop cancelled g left i w).
Proof.
  intros Hfg. revert i. induction left as [|left IH]; intros i; cbn [retry_loop related]; [done|].
  specialize (Hfg i). destruct (f i w) as [w1 [a|e1]], (g i w) as [w2 [b|e2]]; cbn in Hfg; try done.
  destruct Hfg as (-> & -> & ->). destruct (IsRetryable e2); cbn; [|done].
  destruct (i =? _)%nat; cbn; [done|]. destruct (cancelled i); cbn; [done|]. apply IH.
Qed.
End related.

Section secrets.
Context {P : Type} {MR : MapRange} (pay : identity_payload -> P) (cancelled : nat -> option error) (atts : nat -> attempt P).

Notation same_outbox := (fun s1 s2 : Store P => outbox s1 = outbox s2).

Lemma run_tx_related {A B} (f : attempt P -> txn P A) (g : attempt P -> txn P B) s :
  (forall i, related same_outbox s (Transact (f (atts i)) (at_view (atts i)) s) (Transact (g (atts i)) (at_view (atts i)) s)) ->
  related same_outbox s (run_tx cancelled atts f s) (run_tx cancelled atts g s).
Proof.
  intros Hfg. unfold run_tx, WithSerializableRetry. apply retry_loop_related. intros i.
  destruct (at_conflict (atts i)); [done|apply Hfg].
Qed.

Lemma related_outbox {A B} s (x : Store P * result error A) (y : Store P * result error B) :
  related same_outbox s x y -> outbox x.1 = outbox y.1 /\ is_ok x.2 = is_ok y.2.
Proof. destruct x as [s1 [a|e1]], y as [s2 [b|e2]]; cbn; try done. by intros (-> & -> & _). Qed.

Lemma related_bind {A B A' B'} s (m : action error (Store P) A) (n : action error (Store P) B) (f : A -> A') (g : B -> B') :
  related same_outbox s (m s) (n s) ->
  related same_outbox s (bind m (fun a => ret (f a)) s) (bind n (fun b => ret (g b)) s).
Proof. unfold bind. destruct (m s) as [s1 [a|e1]], (n s) as [s2 [b|e2]]; done. Qed.
End secrets.

(** Secrets stay out of the outbox: what is published does not depend on
    the token a mint draws, nor on the password of a new user or on how it is
    hashed. *)
Theorem events_hide_secrets {P} {MR : MapRange} (pay : identity_payload -> P) cancelled atts s :
  (forall buf1 buf2 principal repo,
     outbox (MintCloneToken pay cancelled atts (Some buf1) principal repo s).1 =
     outbox (MintCloneToken pay cancelled atts (Some buf2) principal repo s).1) /\
  (forall hash1 hash2 newID t1 t2 email cred1 cred2,
     cred1 <> "" -> cred2 <> "" -> is_ok (hash1 cred1) -> is_ok (hash2 cred2) ->
     outbox (CreateUser pay cancelled atts hash1 newID t1 t2 email cred1 s).1 =
     outbox (CreateUser pay cancelled atts hash2 newID t1 t2 email cred2 s).1).
Proof.
  split.
  - intros buf1 buf2 principal repo. unfold MintCloneToken.
    rewrite (bind_Ok _ _ s s (EncodeToString RawURLEncoding buf1)) by done.
    rewrite (bind_Ok _ _ s s (EncodeToString RawURLEncoding buf2)) by done.
    eapply related_outbox, run_tx_related. done.
  - intros hash1 hash2 newID t1 t2 email cred1 cred2 H1 H2 Hh1 Hh2. unfold CreateUser.
    destruct (looksLikeEmail email); [|done]. rewrite !(bind_Ok (require true _) _ s s tt) by done.
    rewrite !bool_decide_false by done. rewrite !(bind_Ok (require (negb false) _) _ s s tt) by done.
    destruct (hash1 cred1) as [h1|] eqn:E1, (hash2 cred2) as [h2|] eqn:E2; try done.
    rewrite (bind_Ok _ _ s s h1), (bind_Ok _ _ s s h2) by done.
    eapply related_outbox, related_bind, run_tx_related. done.
Qed.

(** ** Finding users by email *)

(** A new user is found under any spelling of the email that has the same
    normal form, unless somebody else already has it. *)
Theorem created_user_found {P} `{MapRangeLaws} (pay : identity_payload -> P) cancelled atts hash newID t1 t2 email cred s s' u email' :
  CreateUser pay cancelled atts hash newID t1 t2 email cred s = (s', Ok u) ->
  normalizeEmail email' = normalizeEmail email ->
  (forall k v, users s !! k = Some v -> u_Email v <> normalizeEmail email) ->
  Service_GetUserByEmail email' s' = Some u.
Proof.
  intros Hc He Hu. apply CreateUser_ok in Hc as (_ & _ & hashed & i & _ & _ & -> & ->).
  unfold Service_GetUserByEmail, GetUserByEmail. rewrite He. cbn [with_event with_user users new_user u_ID].
  set (u := new_user newID t1 t2 email hashed).
  destruct (filter _ (range _)) as [|v l] eqn:E; cbn.
  - apply (filter_nil_not_elem_of _ _ u) in E; [|done]. exfalso. apply E, elem_of_range. exists newID.
    apply lookup_insert_eq.
  - assert (Hv : v ∈ v :: l) by left. rewrite <- E in Hv. apply list_elem_of_filter in Hv as [Hve [k Hk]%elem_of_range].
    destruct (decide (k = newID)) as [->|Hne]; [by rewrite lookup_insert_eq in Hk|].
    rewrite lookup_insert_ne in Hk by done. by apply Hu in Hk.
Qed.

(** ** The gRPC surface

    [uuid.Parse] is the argument [Parse]; the conversions leave the flags
    [disabled] and [revoked] of the messages unset. *)
Definition mapErr (e : error) : code :=
  if bool_decide (e ∈ [ErrInvalidEmail; ErrEmptyDisplayName; ErrEmptyRole]) then InvalidArgument
  else if bool_decide (e ∈ [ErrUserNotFound; ErrAgentNotFound]) then NotFound
  else if bool_decide (e = ErrNotImplemented) then Unimplemented
  else Internal.

Record UserMessage := mkUserMessage { hm_Id : string; hm_Email : string; hm_RateBucket : string; hm_QuotaAccountId : string;
  hm_Disabled : bool }.
Record AgentMessage := mkAgentMessage {
  am_Id : string; am_DisplayName : string; am_ParentUserId : string; am_PermissionScope : list string;
  am_RateBucket : string; am_ReputationScore : float; am_QuotaAccountId : string; am_Revoked : bool }.

Definition quota_text (q : option uuid) : string := match q with Some id => uuid_String id | None => "" end.
Definition userToProto (u : HumanUser) : UserMessage :=
  mkUserMessage (uuid_String (u_ID u)) (u_Email u) (u_RateBucket u) (quota_text (u_QuotaAccountID u)) false.
Definition agentToProto (a : AgentIdentity) : AgentMessage :=
  mkAgentMessage (uuid_String (a_ID a)) (a_DisplayName a) (uuid_String (a_ParentUserID a)) (a_PermissionScope a)
    (a_RateBucket a) (a_ReputationScore a) (quota_text (a_QuotaAccountID a)) false.

(** [Service], as the server calls it: what a call draws and what befalls it is
    the instance's. *)
Class IdentityService (S : Type) := {
  svc_GetUser : uuid -> action error S (option HumanUser);
  svc_GetAgent : uuid -> action error S (option AgentIdentity);
  svc_CreateUser : string -> string -> action error S HumanUser;
  svc_CreateAgent : uuid -> string -> list string -> action error S AgentIdentity;
  svc_DisableUser : uuid -> string -> action error S unit;
  svc_RevokeAgent : uuid -> string -> action error S unit;
  svc_UpdateAgentPermissions : uuid -> list string -> action error S unit;
  svc_AddOrgMember : uuid -> uuid -> string -> action error S unit;
  svc_RemoveOrgMember : uuid -> uuid -> action error S unit }.

(** The service of this file; PgIdentity.v has the other. *)
Definition memory_service {P} {MR : MapRange} (pay : identity_payload -> P) (cancelled : nat -> option error) (atts : nat -> attempt P)
    (hash : string -> result error string) (newID : uuid) (t1 t2 : time) : IdentityService (Store P) := {|
  svc_GetUser id := fun s => (s, Ok (GetUser id s));
  svc_GetAgent id := fun s => (s, Ok (GetAgent id s));
  svc_CreateUser := CreateUser pay cancelled atts hash newID t1 t2;
  svc_CreateAgent := CreateAgent pay cancelled atts newID t1 t2;
  svc_DisableUser := Service_DisableUser pay cancelled atts;
  svc_RevokeAgent := Service_RevokeAgent pay cancelled atts;
  svc_UpdateAgentPermissions := Service_UpdateAgentPermissions pay cancelled atts;
  svc_AddOrgMember := Service_AddOrgMember pay cancelled atts;
  svc_RemoveOrgMember := Service_RemoveOrgMember pay cancelled atts |}.

Section grpc.
Context {S : Type} `{!IdentityService S} (Parse : string -> option uuid).

Notation call_svc m := (with_status mapErr m).
Notation parse_id s := (parse_id Parse s).

(** A missing user is an answer, not an error. *)
Definition grpc_GetUser (Id : string) : action code S (option UserMessage) :=
  let! id := parse_id Id in let! u := call_svc (svc_GetUser id) in ret (userToProto <$> u).
Definition grpc_GetAgent (Id : string) : action code S (option AgentMessage) :=
  let! id := parse_id Id in let! a := call_svc (svc_GetAgent id) in ret (agentToProto <$> a).
Definition grpc_CreateUser (email cred : string) : action code S UserMessage :=
  let! u := call_svc (svc_CreateUser email cred) in ret (userToProto u).
Definition grpc_CreateAgent (ParentUserId DisplayName : string) (scope : list string) : action code S AgentMessage :=
  let! parent := parse_id ParentUserId in
  let! a := call_svc (svc_CreateAgent parent DisplayName scope) in ret (agentToProto a).
Definition grpc_DisableUser (UserId reason : string) : action code S unit :=
  let! id := parse_id UserId in call_svc (svc_DisableUser id reason).
Definition grpc_RevokeAgent (AgentId reason : string) : action code S unit :=
  let! id := parse_id AgentId in call_svc (svc_RevokeAgent id reason).
Definition grpc_UpdateAgentPermissions (AgentId : string) (scope : list string) : action code S unit :=
  let! id := parse_id AgentId in call_svc (svc_UpdateAgentPermissions id scope).
Definition grpc_AddOrgMember (OrgId UserId role : string) : action code S unit :=
  let! orgID := parse_id OrgId in
  let! userID := parse_id UserId in call_svc (svc_AddOrgMember orgID userID role).
Definition grpc_RemoveOrgMember (OrgId UserId : string) : action code S unit :=
  let! orgID := parse_id OrgId in
  let! userID := parse_id UserId in call_svc (svc_RemoveOrgMember orgID userID).
End grpc.

(** An empty password is the client's mistake, exhausted retries are a matter
    of time; both are reported as internal errors. *)
Example mapErr_internal : map mapErr [ErrCredentialEmpty; ErrRetryExhausted] = [Internal; Internal].
Proof. reflexivity. Qed.

(** ** Concrete runs *)

Definition alone {P} (s : Store P) (now : time) (event id : uuid) : nat -> attempt P :=
  fun _ => mkAttempt (fun _ => s) false now event id.
Definition never : nat -> option error := fun _ => None.

Section samples.
#[local] Existing Instance some_range.
Notation pay := (fun p : identity_payload => p).

Definition do_op (o : op) (n : Z) (s : Store identity_payload) : Store identity_payload :=
  (run_op pay never (alone s n (100 + n) (200 + n)) o s).1.

Definition sample_ops : list (op * Z) :=
  [(OpCreateUser (fun c => Ok ("hash of " +:+ c)) 1 0 0 " Ann@Example.COM" "pw", 1);
   (OpCreateAgent 2 0 0 1 "bot" ["repo:read"], 2); (OpSetReputation 2 (lit 9 10), 3);
   (OpUpdatePermissions 2 ["repo:write"], 4); (OpMintCloneToken (Some (replicate 32 "x"%char)) 2 7, 5);
   (OpDisableUser 9 "spam", 6); (OpRevokeAgent 2 "misuse", 7); (OpAddOrgMember 5 1 "admin", 8)].
Definition sample_store : Store identity_payload := fold_left (fun s on => do_op on.1 on.2 s) sample_ops New.

Lemma serial_do s o n : serial s -> serial (do_op o n s).
Proof. intros Hs. by apply serial_call. Qed.
Lemma sample_serial : serial sample_store.
Proof.
  unfold sample_store. assert (H : forall l s, serial s -> serial (fold_left (fun s on => do_op on.1 on.2 s) l s)).
  { intros l. induction l as [|on l IH]; intros s Hs; [done|]. by apply IH, serial_do. }
  apply H, serial_New.
Qed.

Lemma events_tell_state_witness :
  length (log sample_store) = 7%nat /\ replay (mkTold ∅ ∅ ∅) (log sample_store) = Some (told_of sample_store).
Proof. split; [vm_compute; reflexivity|]. apply (events_tell_state sample_store). exact sample_serial. Defined.

Lemma one_event_per_change_witness :
  let atts := alone sample_store 9 109 209 in let o := OpRevokeAgent 2 "again" in
  exists i ty id et p s1, (i < 3)%nat /\
    op_event o (at_now (atts i)) (at_uuid (atts i)) (agents (at_view (atts i) 0%nat) !! op_agent o) = Some (ty, id, et, p) /\
    op_rows o (atts i) sample_store s1 /\
    do_op o 9 sample_store = with_event (mkOutboxRecord DomainIdentity ty id et p (at_eventID (atts i))) s1.
Proof.
  exact (one_event_per_change pay never (alone sample_store 9 109 209) (OpRevokeAgent 2 "again") sample_store
    (do_op (OpRevokeAgent 2 "again") 9 sample_store) (Ok tt) ltac:(vm_compute; reflexivity)).
Defined.

Lemma run_op_outcome_witness :
  (run_op pay never (alone sample_store 9 109 209) (OpSetReputation 3 f0) sample_store).2 = Err ErrAgentNotFound.
Proof. rewrite (run_op_outcome pay never (alone sample_store 9 109 209)); [vm_compute|..]; reflexivity. Defined.

Lemma reachable_do nan s o n : proper nan o -> reachable pay nan s -> reachable pay nan (do_op o n s).
Proof. intros Ho Hs. by apply reachable_call. Qed.
Lemma identity_sample_reachable : reachable pay false sample_store.
Proof.
  unfold sample_store.
  assert (H : forall l s, Forall (fun on => proper false on.1) l -> reachable pay false s ->
    reachable pay false (fold_left (fun s on => do_op on.1 on.2 s) l s)).
  { intros l. induction l as [|on l IH]; intros s Hl Hs; [done|]. inversion Hl. by apply IH; [|apply reachable_do]. }
  apply H; [|apply reachable_New]. repeat constructor. intros _. vm_compute. discriminate.
Qed.

Lemma identity_rows_sound_witness : sound false sample_store /\ size (agents sample_store) = 1%nat.
Proof. split; [|vm_compute; reflexivity]. apply (identity_rows_sound pay false). exact identity_sample_reachable. Defined.

Lemma events_hide_secrets_witness :
  let hash := fun c => if bool_decide (c = "") then Err ErrCredentialEmpty else Ok ("hash of " +:+ c) in
  let create := fun cred => CreateUser pay never (alone New 1 101 201) hash 1 0 0 "ann@example.com" cred New in
  outbox (create "pw").1 = outbox (create "guess").1 /\ length (outbox (create "pw").1) = 1%nat.
Proof.
  intros hash create. split; [|vm_compute; reflexivity].
  refine (proj2 (events_hide_secrets pay never (alone New 1 101 201) New) hash hash 1 0 0 _ "pw" "guess" _ _ _ _);
    first [discriminate | vm_compute; exact I].
Defined.

Lemma created_user_found_witness :
  option_map u_ID (Service_GetUserByEmail "ANN@example.com " (do_op (OpCreateUser (fun _ => Ok "h") 1 0 0 "ann@Example.com" "pw") 1 New))
  = Some 1.
Proof.
  erewrite (created_user_found pay never (alone New 1 101 201) (fun _ => Ok "h") 1 0 0 "ann@Example.com" "pw" New);
    [|vm_compute; reflexivity|vm_compute; reflexivity|intros k v Hv; vm_compute in Hv; discriminate Hv].
  vm_compute. reflexivity.
Defined.

(** Two calls that overlap: the permissions of an agent are changed from what
    was read before its score was set.  Both succeed and both publish their
    event, but the score of the first is gone: transactions of the in-memory
    store are not serializable. *)
Lemma overlapping_calls_lose_update :
  exists s, reachable pay false s /\ replay (mkTold ∅ ∅ ∅) (log s) <> Some (told_of s).
Proof.
  set (s0 := do_op (OpCreateAgent 2 0 0 1 "bot" []) 1 New).
  set (s1 := do_op (OpSetReputation 2 (lit 9 10)) 2 s0).
  exists (run_op pay never (alone s0 3 103 203) (OpUpdatePermissions 2 ["repo:write"]) s1).1. split.
  - apply reachable_call; [|intros i n; cbn|done].
    + apply reachable_do; [intros _; vm_compute; discriminate|]. by apply reachable_do, reachable_New.
    + by apply reachable_do, reachable_New.
  - vm_compute. discriminate.
Qed.

(** Nothing looks for the user whose membership is removed. *)
Example remove_unknown_member :
  (run_op pay never (alone New 1 101 201) (OpRemoveOrgMember 5 6) New).2 = Ok tt.
Proof. reflexivity. Qed.

(** The in-memory store accepts one email twice. *)
Example email_taken_twice :
  let s := do_op (OpCreateUser (fun _ => Ok "h") 2 0 0 "ann@example.com" "pw") 2
    (do_op (OpCreateUser (fun _ => Ok "h") 1 0 0 "ann@example.com" "pw") 1 New) in
  size (users s) = 2%nat /\ length (outbox s) = 2%nat.
Proof. vm_compute. auto. Qed.
End samples.
