(* ===== verification/BillingService.v ===== *)
(** * The application billing service

    [plane/application/billing]: service.go, models.go, events.go,
    ci_models.go, postgres_service.go (over any [store.MetadataStore]),
    stub_service.go and grpc_server.go.  [uuid.NewSHA1] is the argument
    [NewSHA1] of a namespace and bytes; fresh ids and clock readings are
    arguments of the calls that make them. *)

From S2P Require Import Prelude GoStd GoFmt Sha256 Json Uuid Floats Outbox Actions MetadataStore.

#[local] Arguments uuid_String : simpl never.
#[local] Arguments partitionArchiveKey : simpl never.

(** ** Errors *)
Definition ErrInvalidYear := errors_New "billing: year out of range (2026..2100)".
Definition ErrInvalidMonth := errors_New "billing: month out of range (1..12)".
Definition ErrEmptyPartitionName := errors_New "billing: partition_name is empty".
Definition ErrEmptyLakeURI := errors_New "billing: lake_uri is empty".
Definition ErrNegativeCount := errors_New "billing: row_count or bytes_written is negative".
Definition ErrEmptyKEKHint := errors_New "billing: kek_hint is empty".
Definition ErrInvalidKeyVersion := errors_New "billing: vault_key_version must be > 0".
Definition ErrEmptyOrgID := errors_New "billing: org_id is empty".
Definition ErrQuotaAccountNotFound := errors_New "billing: quota account not found for org".
Definition ErrEmptyJobID := errors_New "billing: job_id is empty".
Definition ErrEmptyPrincipalID := errors_New "billing: principal_id is empty".
Definition ErrInvalidPrincipalKind := errors_New "billing: principal_kind must be human|agent|service".
Definition ErrInvalidTier := errors_New "billing: tier must be hot|cold".
Definition ErrNegativeMetric := errors_New "billing: vcpu_seconds / memory_mb_seconds / egress_kb must be >= 0".

(** ** Inputs, outputs, payloads *)
Record RecordPartitionArchivedInput := mkRecordArchived {
  rpa_Year : Z; rpa_Month : Z; rpa_PartitionName : string; rpa_LakeURI : string; rpa_RowCount : Z; rpa_BytesWritten : Z }.
Record RecordDEKDestroyedInput := mkRecordDestroyed {
  rdd_Year : Z; rdd_Month : Z; rdd_PartitionName : string; rdd_KEKHint : string; rdd_VaultKeyVersion : Z }.
Record RecordCIJobCompletedInput := mkRecordCI {
  rci_JobID : uuid; rci_PrincipalID : uuid; rci_PrincipalKind : string; rci_OrgID : uuid; rci_RepoID : uuid;
  rci_Tier : string; rci_VCPUSeconds : float; rci_MemoryMBSeconds : float; rci_EgressKB : Z; rci_ExitCode : Z }.
(** The three outputs: the text of an id, and whether it is new. *)
Record Recorded_output := mkRecorded { out_ID : string; out_Created : bool }.
Record GetQuotaAccountOutput := mkQuotaOutput {
  qo_AccountID : uuid; qo_OrgID : uuid; qo_PlanTier : string; qo_TokensPerWeekCap : Z;
  qo_ComputeMinutesPerMonthCap : Z; qo_StorageGBCap : Z }.

Definition EventTypePartitionArchived : string := "billing.partition_archived".
Definition EventTypePartitionDEKDestroyed : string := "billing.partition_dek_destroyed".
Definition EventTypeCIJobCompleted : string := "ci.job_completed".
Definition envelopeVersion : Z := 1.

Record PartitionArchivedPayload := mkArchivedPayload {
  pap_ArchiveID : uuid; pap_Year : Z; pap_Month : Z; pap_PartitionName : string; pap_LakeURI : string;
  pap_RowCount : Z; pap_BytesWritten : Z; pap_ArchivedAt : time; pap_EnvelopeVersion : Z }.
Record PartitionDEKDestroyedPayload := mkDestroyedPayload {
  pdp_Year : Z; pdp_Month : Z; pdp_PartitionName : string; pdp_KEKHint : string; pdp_VaultKeyVersion : Z;
  pdp_DestroyedAt : time; pdp_EnvelopeVersion : Z }.
Record CIJobCompletedPayload := mkCIPayload {
  cip_EventID : uuid; cip_JobID : uuid; cip_PrincipalID : uuid; cip_PrincipalKind : string; cip_OrgID : uuid;
  cip_RepoID : uuid; cip_Tier : string; cip_VCPUSeconds : float; cip_MemoryMBSeconds : float; cip_EgressKB : Z;
  cip_ExitCode : Z; cip_OccurredAt : time; cip_EnvelopeVersion : Z }.

Inductive billing_payload :=
| PartitionArchivedEvent (p : PartitionArchivedPayload)
| PartitionDEKDestroyedEvent (p : PartitionDEKDestroyedPayload)
| CIJobCompletedEvent (p : CIJobCompletedPayload).

Definition newPartitionArchivedPayload (pa : PartitionArchive) : PartitionArchivedPayload :=
  mkArchivedPayload (pa_ID pa) (pa_Year pa) (pa_Month pa) (pa_PartitionName pa) (pa_LakeURI pa) (pa_RowCount pa)
    (pa_BytesWritten pa) (pa_ArchivedAt pa) envelopeVersion.
Definition newPartitionDEKDestroyedPayload (i : RecordDEKDestroyedInput) (destroyedAt : time)
  : PartitionDEKDestroyedPayload :=
  mkDestroyedPayload (rdd_Year i) (rdd_Month i) (rdd_PartitionName i) (rdd_KEKHint i) (rdd_VaultKeyVersion i)
    destroyedAt envelopeVersion.
Definition newCIJobCompletedPayload (i : RecordCIJobCompletedInput) (eventID : uuid) (occurredAt : time)
  : CIJobCompletedPayload :=
  mkCIPayload eventID (rci_JobID i) (rci_PrincipalID i) (rci_PrincipalKind i) (rci_OrgID i) (rci_RepoID i) (rci_Tier i)
    (rci_VCPUSeconds i) (rci_MemoryMBSeconds i) (rci_EgressKB i) (rci_ExitCode i) occurredAt envelopeVersion.

(** ** Validation *)

Definition validate_key (year month : Z) (partitionName : string) : option error :=
  if (year <? 2026) || (2100 <? year) then Some ErrInvalidYear
  else if (month <? 1) || (12 <? month) then Some ErrInvalidMonth
  else if bool_decide (partitionName = "") then Some ErrEmptyPartitionName
  else None.

Definition validateInput (i : RecordPartitionArchivedInput) : option error :=
  match validate_key (rpa_Year i) (rpa_Month i) (rpa_PartitionName i) with
  | Some e => Some e
  | None =>
      if bool_decide (rpa_LakeURI i = "") then Some ErrEmptyLakeURI
      else if (rpa_RowCount i <? 0) || (rpa_BytesWritten i <? 0) then Some ErrNegativeCount
      else None
  end.

Definition validateDEKDestroyedInput (i : RecordDEKDestroyedInput) : option error :=
  match validate_key (rdd_Year i) (rdd_Month i) (rdd_PartitionName i) with
  | Some e => Some e
  | None =>
      if bool_decide (rdd_KEKHint i = "") then Some ErrEmptyKEKHint
      else if rdd_VaultKeyVersion i <? 1 then Some ErrInvalidKeyVersion
      else None
  end.

Definition validateCIJobInput (i : RecordCIJobCompletedInput) : option error :=
  if rci_JobID i =? uuid_Nil then Some ErrEmptyJobID
  else if rci_PrincipalID i =? uuid_Nil then Some ErrEmptyPrincipalID
  else if rci_OrgID i =? uuid_Nil then Some ErrEmptyOrgID
  else if negb (bool_decide (rci_PrincipalKind i ∈ ["human"; "agent"; "service"])) then Some ErrInvalidPrincipalKind
  else if negb (bool_decide (rci_Tier i ∈ ["hot"; "cold"])) then Some ErrInvalidTier
  else if flt (rci_VCPUSeconds i) f0 || flt (rci_MemoryMBSeconds i) f0 || (rci_EgressKB i <? 0) then Some ErrNegativeMetric
  else None.

Definition check {W} (e : option error) : action error W unit := match e with Some e => throw e | None => ret tt end.

(** ** Derived ids *)
Section ids.
Context (NewSHA1 : uuid -> list ascii -> uuid).

Definition dekDestroyedNamespace : uuid := 0x0e1d2c3b4a5968778695a4b3c2d1e0f9.
Definition ciJobCompletedNamespace : uuid := 0x3f4e5d6c7b8a49988b7c6d5e4f3a2b1c.

Definition dek_natural (year month : Z) (partitionName kekHint : string) : string :=
  fmt_0d 4 year +:+ "-" +:+ fmt_0d 2 month +:+ "|" +:+ partitionName +:+ "|" +:+ kekHint.
Definition dekDestroyedAggregateID (i : RecordDEKDestroyedInput) : uuid :=
  NewSHA1 dekDestroyedNamespace (s2l (dek_natural (rdd_Year i) (rdd_Month i) (rdd_PartitionName i) (rdd_KEKHint i))).
Definition ciJobCompletedAggregateID (jobID : uuid) : uuid := NewSHA1 ciJobCompletedNamespace (be_bytes 16 jobID).

(** ** PostgresService *)
Section postgres.
Context {P : Type} {MR : MapRange} (pay : billing_payload -> P).

(** What a call meets: the stores its transaction sees, whether the database
    turns the transaction down, and the ids and times it draws. *)
Record env := mkEnv {
  en_view : nat -> Store P;
  en_conflict : bool;
  en_now : time;
  en_eventID : uuid;
  en_uuid : uuid }.

Definition transact {A} (e : env) (fn : txn P A) : action error (Store P) A := fun s =>
  if en_conflict e then (s, Err SerializationFailure) else Transact fn (en_view e) s.

Definition candidate (e : env) (i : RecordPartitionArchivedInput) : PartitionArchive :=
  mkPartitionArchive (en_uuid e) (rpa_Year i) (rpa_Month i) (rpa_PartitionName i) (rpa_LakeURI i) (rpa_RowCount i)
    (rpa_BytesWritten i) (en_now e).
Definition set_pa_ID (id : uuid) (pa : PartitionArchive) : PartitionArchive :=
  mkPartitionArchive id (pa_Year pa) (pa_Month pa) (pa_PartitionName pa) (pa_LakeURI pa) (pa_RowCount pa)
    (pa_BytesWritten pa) (pa_ArchivedAt pa).

Definition RecordPartitionArchived (e : env) (i : RecordPartitionArchivedInput) : action error (Store P) Recorded_output :=
  let! _ := check (validateInput i) in
  let! (archiveID, created) := transact e (
    let! (id, ok) := InsertPartitionArchiveIfAbsent (candidate e i) in
    if negb ok then ret (id, false)
    else
      let! _ := WriteOutbox (en_eventID e) DomainBilling "partition_archive" id EventTypePartitionArchived
        (pay (PartitionArchivedEvent (newPartitionArchivedPayload (set_pa_ID id (candidate e i))))) in
      ret (id, true)) in
  ret (mkRecorded (uuid_String archiveID) created).

(** Writes the event unless one of this type is there for the aggregate. *)
Definition write_once (e : env) (aggregateType : string) (aggregateID : uuid) (eventType : string) (p : billing_payload)
  : action error (Store P) Recorded_output :=
  let! created := transact e (
    let! exists_ := tx_HasOutboxEventForAggregate eventType aggregateID in
    if exists_ : bool then ret false
    else
      let! _ := WriteOutbox (en_eventID e) DomainBilling aggregateType aggregateID eventType (pay p) in
      ret true) in
  ret (mkRecorded (uuid_String aggregateID) created).

Definition RecordDEKDestroyed (e : env) (i : RecordDEKDestroyedInput) : action error (Store P) Recorded_output :=
  let! _ := check (validateDEKDestroyedInput i) in
  write_once e "partition_dek" (dekDestroyedAggregateID i) EventTypePartitionDEKDestroyed
    (PartitionDEKDestroyedEvent (newPartitionDEKDestroyedPayload i (en_now e))).

Definition RecordCIJobCompleted (e : env) (i : RecordCIJobCompletedInput) : action error (Store P) Recorded_output :=
  let! _ := check (validateCIJobInput i) in
  write_once e "ci_job" (ciJobCompletedAggregateID (rci_JobID i)) EventTypeCIJobCompleted
    (CIJobCompletedEvent (newCIJobCompletedPayload i (ciJobCompletedAggregateID (rci_JobID i)) (en_now e))).

Definition quota_output (qa : QuotaAccount) : GetQuotaAccountOutput :=
  mkQuotaOutput (qa_ID qa) (qa_OrgID qa) (qa_PlanTier qa) (qa_TokensPerWeekCap qa) (qa_ComputeMinutesPerMonthCap qa)
    (qa_StorageGBCap qa).
Definition GetQuotaAccount (orgID : uuid) (s : Store P) : result error GetQuotaAccountOutput :=
  if orgID =? uuid_Nil then Err ErrEmptyOrgID
  else match GetQuotaAccountByOrg orgID s with None => Err ErrQuotaAccountNotFound | Some qa => Ok (quota_output qa) end.
End postgres.

(** ** StubService *)

Record StubService := mkStub {
  rows : gmap string PartitionArchive;
  dekEvents : gset uuid;
  ciJobs : gset uuid;
  quotas : gmap uuid GetQuotaAccountOutput }.

Definition NewStubService : StubService := mkStub ∅ ∅ ∅ ∅.
Definition SeedQuota (orgID : uuid) (q : GetQuotaAccountOutput) (s : StubService) : StubService :=
  mkStub (rows s) (dekEvents s) (ciJobs s) (<[orgID := q]> (quotas s)).

Definition stub_GetQuotaAccount (orgID : uuid) (s : StubService) : result error GetQuotaAccountOutput :=
  if orgID =? uuid_Nil then Err ErrEmptyOrgID
  else match quotas s !! orgID with None => Err ErrQuotaAccountNotFound | Some q => Ok q end.

Definition stub_RecordCIJobCompleted (i : RecordCIJobCompletedInput) : action error StubService Recorded_output :=
  let! _ := check (validateCIJobInput i) in
  fun s =>
    let id := ciJobCompletedAggregateID (rci_JobID i) in
    if decide (id ∈ ciJobs s) then (s, Ok (mkRecorded (uuid_String id) false))
    else (mkStub (rows s) (dekEvents s) ({[id]} ∪ ciJobs s) (quotas s), Ok (mkRecorded (uuid_String id) true)).

Definition stub_RecordPartitionArchived (newID : uuid) (now : time) (i : RecordPartitionArchivedInput)
  : action error StubService Recorded_output :=
  let! _ := check (validateInput i) in
  fun s =>
    let key := Itoa (rpa_Year i) +:+ "-" +:+ Itoa (rpa_Month i) +:+ "-" +:+ rpa_PartitionName i in
    match rows s !! key with
    | Some existing => (s, Ok (mkRecorded (uuid_String (pa_ID existing)) false))
    | None =>
        let pa := mkPartitionArchive newID (rpa_Year i) (rpa_Month i) (rpa_PartitionName i) (rpa_LakeURI i)
                    (rpa_RowCount i) (rpa_BytesWritten i) now in
        (mkStub (<[key := pa]> (rows s)) (dekEvents s) (ciJobs s) (quotas s),
         Ok (mkRecorded (uuid_String newID) true))
    end.

Definition stub_RecordDEKDestroyed (i : RecordDEKDestroyedInput) : action error StubService Recorded_output :=
  let! _ := check (validateDEKDestroyedInput i) in
  fun s =>
    let id := dekDestroyedAggregateID i in
    if decide (id ∈ dekEvents s) then (s, Ok (mkRecorded (uuid_String id) false))
    else (mkStub (rows s) ({[id]} ∪ dekEvents s) (ciJobs s) (quotas s), Ok (mkRecorded (uuid_String id) true)).
End ids.

Arguments env P : clear implicits.

(** ** Calls *)
Section calls.
Context (NewSHA1 : uuid -> list ascii -> uuid) {P : Type} {MR : MapRange} (pay : billing_payload -> P).

Inductive call :=
| CallArchived (i : RecordPartitionArchivedInput)
| CallDestroyed (i : RecordDEKDestroyedInput)
| CallJob (i : RecordCIJobCompletedInput).

Definition run_call (e : env P) (c : call) : action error (Store P) Recorded_output :=
  match c with
  | CallArchived i => RecordPartitionArchived pay e i
  | CallDestroyed i => RecordDEKDestroyed NewSHA1 pay e i
  | CallJob i => RecordCIJobCompleted NewSHA1 pay e i
  end.

Definition run_stub (newID : uuid) (now : time) (c : call) : action error StubService Recorded_output :=
  match c with
  | CallArchived i => stub_RecordPartitionArchived newID now i
  | CallDestroyed i => stub_RecordDEKDestroyed NewSHA1 i
  | CallJob i => stub_RecordCIJobCompleted NewSHA1 i
  end.

(** The two calls that only publish: validation, then [write_once]. *)
Lemma run_destroyed e i s : run_call e (CallDestroyed i) s =
  match validateDEKDestroyedInput i with
  | Some er => (s, Err er)
  | None => write_once pay e "partition_dek" (dekDestroyedAggregateID NewSHA1 i) EventTypePartitionDEKDestroyed
              (PartitionDEKDestroyedEvent (newPartitionDEKDestroyedPayload i (en_now e))) s
  end.
Proof. cbn [run_call]. unfold RecordDEKDestroyed. by destruct (validateDEKDestroyedInput i). Qed.
Lemma run_job e i s : run_call e (CallJob i) s =
  match validateCIJobInput i with
  | Some er => (s, Err er)
  | None => write_once pay e "ci_job" (ciJobCompletedAggregateID NewSHA1 (rci_JobID i)) EventTypeCIJobCompleted
              (CIJobCompletedEvent (newCIJobCompletedPayload i (ciJobCompletedAggregateID NewSHA1 (rci_JobID i)) (en_now e))) s
  end.
Proof. cbn [run_call]. unfold RecordCIJobCompleted. by destruct (validateCIJobInput i). Qed.

(** A call that nobody disturbs. *)
Definition alone (e : env P) (s : Store P) : Prop := en_conflict e = false /\ forall n, en_view e n = s.

(** ** What a call does, alone *)

Definition input_key (i : RecordPartitionArchivedInput) : string :=
  partitionArchiveKey (rpa_Year i) (rpa_Month i) (rpa_PartitionName i).
Definition with_archive (k : string) (pa : PartitionArchive) (s : Store P) : Store P :=
  mkStore (users s) (agents s) (repositories s) (<[k := pa]> (partitionArchives s)) (cloneTokens s) (quotaAccounts s) (outbox s).
Definition with_event (ev : OutboxRecord P) (s : Store P) : Store P :=
  mkStore (users s) (agents s) (repositories s) (partitionArchives s) (cloneTokens s) (quotaAccounts s) (outbox s ++ [ev]).
Definition archived_event (e : env P) (i : RecordPartitionArchivedInput) : OutboxRecord P :=
  mkOutboxRecord DomainBilling "partition_archive" (en_uuid e) EventTypePartitionArchived
    (pay (PartitionArchivedEvent (newPartitionArchivedPayload (candidate e i)))) (en_eventID e).

Lemma RecordPartitionArchived_alone e i s : alone e s ->
  RecordPartitionArchived pay e i s =
    match validateInput i with
    | Some er => (s, Err er)
    | None =>
        match partitionArchives s !! input_key i with
        | Some existing => (s, Ok (mkRecorded (uuid_String (pa_ID existing)) false))
        | None => (with_event (archived_event e i) (with_archive (input_key i) (candidate e i) s),
                   Ok (mkRecorded (uuid_String (en_uuid e)) true))
        end
    end.
Proof.
  intros [Hc Hv]. unfold RecordPartitionArchived. destruct (validateInput i) as [er|]; [done|].
  unfold check, transact, Transact, InsertPartitionArchiveIfAbsent, own, peek, bind, ret, modify,
    GetPartitionArchiveByKey.
  rewrite Hc. cbn [pending seen empty_tx pendingPartitionArchives candidate pa_Year pa_Month pa_PartitionName].
  rewrite lookup_empty. cbn [pending seen]. rewrite Hv. fold (input_key i).
  destruct (partitionArchives s !! input_key i) as [existing|] eqn:Ek; cbn;
    [|rewrite WriteOutbox_valid by reflexivity]; unfold commit, with_event, with_archive; cbn.
  - rewrite !(left_id_L ∅ (∪)), (right_id_L ∅ (∪)), app_nil_r. by destruct s.
  - rewrite !(left_id_L ∅ (∪)). rewrite <- insert_union_r, (right_id_L ∅ (∪)) by done. done.
Qed.

Definition once_event (e : env P) (at_ : string) (id : uuid) (et : string) (p : billing_payload) : OutboxRecord P :=
  mkOutboxRecord DomainBilling at_ id et (pay p) (en_eventID e).

Lemma write_once_alone e at_ id et p s : alone e s ->
  write_once pay e at_ id et p s =
    if HasOutboxEventForAggregate et id s then (s, Ok (mkRecorded (uuid_String id) false))
    else (with_event (once_event e at_ id et p) s, Ok (mkRecorded (uuid_String id) true)).
Proof.
  intros [Hc Hv].
  unfold write_once, transact, Transact, tx_HasOutboxEventForAggregate, own, peek, bind, ret.
  rewrite Hc.
  cbn [pending seen empty_tx pendingOutbox existsb]. rewrite Hv.
  destruct (HasOutboxEventForAggregate et id s); cbn; [|rewrite WriteOutbox_valid by reflexivity];
    unfold commit, with_event; cbn; rewrite !(left_id_L ∅ (∪)), (right_id_L ∅ (∪)), ?app_nil_r; by destruct s.
Qed.

Lemma has_event_app et id ev (s : Store P) :
  HasOutboxEventForAggregate et id (with_event ev s) = HasOutboxEventForAggregate et id s || is_billing_event et id ev.
Proof. unfold HasOutboxEventForAggregate. cbn. rewrite existsb_app. cbn. by rewrite orb_false_r. Qed.

(** ** The stub is the service without its outbox *)
Record simulates (s : Store P) (t : StubService) : Prop := {
  sim_rows : rows t = partitionArchives s;
  sim_dek : forall id, id ∈ dekEvents t <-> HasOutboxEventForAggregate EventTypePartitionDEKDestroyed id s = true;
  sim_ci : forall id, id ∈ ciJobs t <-> HasOutboxEventForAggregate EventTypeCIJobCompleted id s = true;
  sim_quotas : quotas t = quota_output <$> quotaAccounts s }.

Lemma simulates_event_other et at_ id p e s t :
  et <> EventTypePartitionDEKDestroyed -> et <> EventTypeCIJobCompleted -> simulates s t ->
  simulates (with_event (once_event e at_ id et p) s) t.
Proof.
  intros H1 H2 []. split; try done; intros id'; rewrite has_event_app.
  all: unfold is_billing_event; cbn; rewrite (bool_decide_false (et = _)) by done; cbn; by rewrite orb_false_r.
Qed.

Lemma is_billing_event_once et et' id id' at_ p e :
  is_billing_event et' id' (once_event e at_ id et p) = bool_decide (et = et') && bool_decide (id = id').
Proof. done. Qed.

Lemma simulates_event et at_ id p e s t : simulates s t ->
  simulates (with_event (once_event e at_ id et p) s)
    (mkStub (rows t) (if bool_decide (et = EventTypePartitionDEKDestroyed) then {[id]} ∪ dekEvents t else dekEvents t)
       (if bool_decide (et = EventTypeCIJobCompleted) then {[id]} ∪ ciJobs t else ciJobs t) (quotas t)).
Proof.
  intros [H1 H2 H3 H4]. split; cbn [rows dekEvents ciJobs quotas]; try done; intros id';
    rewrite has_event_app, is_billing_event_once, orb_true_iff; [rewrite <- H2|rewrite <- H3];
    case_bool_decide; rewrite ?elem_of_union, ?elem_of_singleton; cbn; rewrite ?bool_decide_eq_true;
    intuition congruence.
Qed.

Lemma call_simulated e c s t : alone e s -> simulates s t ->
  (run_call e c s).2 = (run_stub (en_uuid e) (en_now e) c t).2 /\
  simulates (run_call e c s).1 (run_stub (en_uuid e) (en_now e) c t).1.
Proof.
  intros He Hs. pose proof Hs as [Hr Hd Hci Hq]. destruct c as [i|i|i]; [cbn [run_call run_stub]|cbn [run_stub]..].
  - rewrite RecordPartitionArchived_alone by done. unfold stub_RecordPartitionArchived, check.
    destruct (validateInput i); [done|]. unfold bind, ret. rewrite Hr. fold (partitionArchiveKey (rpa_Year i) (rpa_Month i) (rpa_PartitionName i)).
    fold (input_key i). destruct (partitionArchives s !! input_key i); [done|]. cbn. split; [done|].
    apply (simulates_event_other EventTypePartitionArchived "partition_archive" (en_uuid e)); [done..|].
    by split.
  - rewrite run_destroyed. unfold stub_RecordDEKDestroyed, check. destruct (validateDEKDestroyedInput i); [done|].
    unfold bind, ret. rewrite write_once_alone by done. specialize (Hd (dekDestroyedAggregateID NewSHA1 i)).
    destruct (HasOutboxEventForAggregate _ _ _), (decide _); cbn [fst snd]; try (by intuition discriminate).
    split; [done|]. by apply simulates_event.
  - rewrite run_job. unfold stub_RecordCIJobCompleted, check. destruct (validateCIJobInput i); [done|].
    unfold bind, ret. rewrite write_once_alone by done. specialize (Hci (ciJobCompletedAggregateID NewSHA1 (rci_JobID i))).
    destruct (HasOutboxEventForAggregate _ _ _), (decide _); cbn [fst snd]; try (by intuition discriminate).
    split; [done|]. by apply simulates_event.
Qed.

(** Archived partitions and billing events stay. *)
Definition keeps (s s' : Store P) : Prop :=
  (forall k pa, partitionArchives s !! k = Some pa -> partitionArchives s' !! k = Some pa) /\
  (forall et id, HasOutboxEventForAggregate et id s = true -> HasOutboxEventForAggregate et id s' = true).

Lemma keeps_event ev s : keeps s (with_event ev s).
Proof. split; [done|]. intros et id H. by rewrite has_event_app, H. Qed.

Lemma call_keeps e c s : alone e s -> keeps s (run_call e c s).1.
Proof.
  intros He. assert (Hsame : keeps s s) by done. destruct c as [i|i|i]; [cbn [run_call]|..].
  - rewrite RecordPartitionArchived_alone by done. destruct (validateInput i); [done|].
    destruct (partitionArchives s !! input_key i) eqn:Ek; [done|]. cbn [fst].
    destruct (keeps_event (archived_event e i) (with_archive (input_key i) (candidate e i) s)) as [Hk Hev].
    split; [|exact Hev]. intros k pa H. apply Hk. cbn. by rewrite lookup_insert_ne by congruence.
  - rewrite run_destroyed. destruct (validateDEKDestroyedInput i); [done|]. rewrite write_once_alone by done. destruct (HasOutboxEventForAggregate _ _ _); [done|apply keeps_event].
  - rewrite run_job. destruct (validateCIJobInput i); [done|]. rewrite write_once_alone by done. destruct (HasOutboxEventForAggregate _ _ _); [done|apply keeps_event].
Qed.

(** A call that succeeds has left its record. *)
Lemma RecordPartitionArchived_records e i s s' out : alone e s ->
  RecordPartitionArchived pay e i s = (s', Ok out) -> is_Some (partitionArchives s' !! input_key i).
Proof.
  intros He. rewrite RecordPartitionArchived_alone by done. destruct (validateInput i); [done|].
  destruct (partitionArchives s !! input_key i) eqn:Ek; intros [= <- _]; [by rewrite Ek|]. cbn. by rewrite lookup_insert_eq.
Qed.
Lemma write_once_records e at_ id et p s s' out : alone e s ->
  write_once pay e at_ id et p s = (s', Ok out) -> HasOutboxEventForAggregate et id s' = true.
Proof.
  intros He. rewrite write_once_alone by done. destruct (HasOutboxEventForAggregate et id s) eqn:E; intros [= <- _]; [done|].
  rewrite has_event_app, is_billing_event_once, !bool_decide_true by done. apply orb_true_r.
Qed.

(** A transaction the database turns down changes nothing. *)
Lemma run_call_conflict e c s : en_conflict e = true -> exists er, run_call e c s = (s, Err er).
Proof.
  intros He. assert (Hw : forall at_ id et p, write_once pay e at_ id et p s = (s, Err SerializationFailure)).
  { intros at_ id et p. unfold write_once, transact, bind. by rewrite He. }
  destruct c as [i|i|i].
  - cbn [run_call]. unfold RecordPartitionArchived, check. destruct (validateInput i) as [er|]; [by exists er|].
    exists SerializationFailure. unfold bind, transact, ret. by rewrite He.
  - rewrite run_destroyed. destruct (validateDEKDestroyedInput i) as [er|]; [by exists er|eauto].
  - rewrite run_job. destruct (validateCIJobInput i) as [er|]; [by exists er|eauto].
Qed.
End calls.

(** ** Observational equivalence *)
Section equivalence.
Context (NewSHA1 : uuid -> list ascii -> uuid) {P : Type} {MR : MapRange} (pay : billing_payload -> P).

(** A client's requests, each with the id and time it would draw, and the
    provisioning of a quota account. *)
Inductive request :=
| ReqCall (newID : uuid) (now : time) (eventID : uuid) (c : call)
| ReqQuota (orgID : uuid)
| ReqSeed (qa : QuotaAccount).
Inductive answer :=
| AnsRecorded (r : result error Recorded_output)
| AnsQuota (r : result error GetQuotaAccountOutput)
| AnsSeeded.

Definition serve (r : request) (s : Store P) : Store P * answer :=
  match r with
  | ReqCall newID now eventID c =>
      let '(s', a) := run_call NewSHA1 pay (mkEnv (fun _ => s) false now eventID newID) c s in (s', AnsRecorded a)
  | ReqQuota orgID => (s, AnsQuota (GetQuotaAccount orgID s))
  | ReqSeed qa => (SeedQuotaAccount qa s, AnsSeeded)
  end.
Definition serve_stub (r : request) (t : StubService) : StubService * answer :=
  match r with
  | ReqCall newID now _ c => let '(t', a) := run_stub NewSHA1 newID now c t in (t', AnsRecorded a)
  | ReqQuota orgID => (t, AnsQuota (stub_GetQuotaAccount orgID t))
  | ReqSeed qa => (SeedQuota (qa_OrgID qa) (quota_output qa) t, AnsSeeded)
  end.

Fixpoint answers {S} (step : request -> S -> S * answer) (rs : list request) (s : S) : list answer :=
  match rs with
  | [] => []
  | r :: rs' => let '(s', a) := step r s in a :: answers step rs' s'
  end.

Lemma serve_simulated r s t : simulates s t ->
  (serve r s).2 = (serve_stub r t).2 /\ simulates (serve r s).1 (serve_stub r t).1.
Proof.
  intros Hs. destruct r as [newID now eventID c|orgID|qa]; cbn [serve serve_stub].
  - pose proof (call_simulated NewSHA1 pay (mkEnv (fun _ => s) false now eventID newID) c s t) as H.
    cbn [en_uuid en_now] in H. destruct (run_call _ _ _ _ _), (run_stub _ _ _ _ _). cbn in H |- *.
    destruct H as [-> ?]; [done..|]. done.
  - cbn. split; [|done]. unfold GetQuotaAccount, stub_GetQuotaAccount, GetQuotaAccountByOrg.
    rewrite (sim_quotas _ _ Hs), lookup_fmap. by destruct (_ =? _), (quotaAccounts s !! orgID).
  - cbn. split; [done|]. destruct Hs as [? ? ? Hq]. split; cbn; try done. by rewrite Hq, fmap_insert.
Qed.
End equivalence.

(** The in-memory billing service answers every sequence of requests like
    the service over the metadata store, when nothing disturbs the latter:
    same results, ids and created flags, same validation errors, same
    quotas. *)
Theorem stub_answers_like_service NewSHA1 {P} {MR : MapRange} (pay : billing_payload -> P) rs :
  answers (serve NewSHA1 pay) rs New = answers (serve_stub NewSHA1) rs NewStubService.
Proof.
  assert (H0 : simulates (P := P) New NewStubService).
  { split; cbn; [done| | |by rewrite fmap_empty]; intros id; rewrite elem_of_empty; split; done. }
  revert H0. generalize (@New P) NewStubService. induction rs as [|r rs IH]; intros s t Hs; [done|]. cbn [answers].
  pose proof (serve_simulated NewSHA1 pay r s t Hs) as [Ha Hs'].
  destruct (serve _ _ r s) as [s' a], (serve_stub _ r t) as [t' b]. cbn in Ha, Hs'. subst. f_equal. by apply IH.
Qed.

(** ** One event for each fact *)
Section once.
Context (NewSHA1 : uuid -> list ascii -> uuid) {MR : MapRange}.
Notation S' := (Store billing_payload).
Notation run := (run_call NewSHA1 (fun p => p)).

(** [s'] is what calls that do not overlap make of [s]. *)
Inductive later (s : S') : S' -> Prop :=
| later_same : later s s
| later_call e c s1 : later s s1 -> alone e s1 -> later s (run e c s1).1
| later_seed qa s1 : later s s1 -> later s (SeedQuotaAccount qa s1).

Definition archived_log (s : S') : list PartitionArchivedPayload :=
  omap (fun ev => match or_Payload ev with PartitionArchivedEvent p => Some p | _ => None end) (outbox s).
Definition aggregates (et : string) (s : S') : list uuid :=
  or_AggregateID <$> filter (fun ev => or_Domain ev = DomainBilling /\ or_EventType ev = et) (outbox s).

Lemma has_event_aggregates et id (s : S') : HasOutboxEventForAggregate et id s = true <-> id ∈ aggregates et s.
Proof.
  unfold HasOutboxEventForAggregate, aggregates. rewrite existsb_elem_of, list_elem_of_fmap. split.
  - intros (ev & Hev & H). unfold is_billing_event in H. reflect_bools. exists ev. split; [done|].
    by apply list_elem_of_filter.
  - intros (ev & -> & [[Hd Ht] Hev]%list_elem_of_filter). exists ev. split; [done|].
    unfold is_billing_event. by rewrite !bool_decide_true.
Qed.

Lemma aggregates_event et ev (s : S') : aggregates et (with_event ev s) =
  aggregates et s ++ (if decide (or_Domain ev = DomainBilling /\ or_EventType ev = et) then [or_AggregateID ev] else []).
Proof.
  unfold aggregates. cbn. rewrite filter_app, fmap_app, filter_cons, filter_nil. by destruct (decide _).
Qed.

Record exact (s : S') : Prop := {
  exact_archived : archived_log s ≡ₚ newPartitionArchivedPayload <$> (map_to_list (partitionArchives s)).*2;
  exact_dek : NoDup (aggregates EventTypePartitionDEKDestroyed s);
  exact_ci : NoDup (aggregates EventTypeCIJobCompleted s) }.

Lemma exact_once e et at_ id p s : (forall q, p <> PartitionArchivedEvent q) ->
  HasOutboxEventForAggregate et id s = false -> exact s -> exact (with_event (once_event (fun p => p) e at_ id et p) s).
Proof.
  intros Hp Hno [Ha Hd Hc].
  assert (Hnd : forall et', NoDup (aggregates et' s) -> NoDup (aggregates et' (with_event (once_event (fun p => p) e at_ id et p) s))).
  { intros et' H. rewrite aggregates_event. cbn. destruct (decide _) as [[_ ->]|]; [|by rewrite app_nil_r].
    apply NoDup_app. split; [done|]. split; [|apply NoDup_singleton]. intros x Hx ->%list_elem_of_singleton.
    apply has_event_aggregates in Hx. congruence. }
  split; [|by apply Hnd..]. unfold archived_log. cbn. rewrite omap_app. cbn. destruct p; try (by rewrite app_nil_r).
  by destruct (Hp p).
Qed.

Lemma exact_call e c s : alone e s -> exact s -> exact (run e c s).1.
Proof.
  intros He Hs. destruct c as [i|i|i]; [cbn [run_call]|..].
  - rewrite RecordPartitionArchived_alone by done. destruct (validateInput i); [done|].
    destruct (partitionArchives s !! input_key i) eqn:Ek; [done|]. destruct Hs as [Ha Hd Hc]. cbn [fst].
    split; [|by rewrite aggregates_event, decide_False, app_nil_r by (intros [_ H]; discriminate H)..].
    unfold archived_log. cbn. rewrite omap_app. cbn. rewrite map_to_list_insert by done. cbn. rewrite <- Ha.
    symmetry. apply Permutation_cons_append.
  - rewrite run_destroyed. destruct (validateDEKDestroyedInput i); [done|]. rewrite write_once_alone by done. destruct (HasOutboxEventForAggregate _ _ _) eqn:E; [done|]. by apply exact_once.
  - rewrite run_job. destruct (validateCIJobInput i); [done|]. rewrite write_once_alone by done. destruct (HasOutboxEventForAggregate _ _ _) eqn:E; [done|]. by apply exact_once.
Qed.

(** What was recorded stays. *)
Lemma later_keeps s s' : later s s' -> keeps s s'.
Proof.
  induction 1 as [|e c s1 Hl [IHk IHe] He|qa s1 Hl [IHk IHe]]; [done| |done].
  destruct (call_keeps NewSHA1 (fun p => p) e c s1 He) as [Hk Hev]. split; auto.
Qed.
End once.

(** C15: As long as calls do not overlap, the outbox holds exactly one
    partition_archived event for every archived partition, with the contents
    of its row, and at most one event for every destroyed key and every
    finished job. *)
Theorem billing_events_exact NewSHA1 {MR : MapRange} s : later NewSHA1 New s ->
  archived_log s ≡ₚ newPartitionArchivedPayload <$> (map_to_list (partitionArchives s)).*2 /\
  NoDup (aggregates EventTypePartitionDEKDestroyed s) /\ NoDup (aggregates EventTypeCIJobCompleted s).
Proof.
  intros H. assert (Hx : exact s); [|by destruct Hx].
  induction H as [|e c s1 _ IH He|qa s1 _ [? ? ?]]; [split; [by cbn; rewrite map_to_list_empty|constructor..]| |by split].
  by apply exact_call.
Qed.

(** Repeating a call that succeeded, at any later time, changes nothing and
    gives the same id, marked as not created. *)
Theorem repeated_call_is_noop NewSHA1 {MR : MapRange} e e' c s s1 s2 out :
  alone e s -> run_call NewSHA1 (fun p => p) e c s = (s1, Ok out) -> later NewSHA1 s1 s2 -> alone e' s2 ->
  run_call NewSHA1 (fun p => p) e' c s2 = (s2, Ok (mkRecorded (out_ID out) false)).
Proof.
  intros He Hc Hl He'. apply later_keeps in Hl as [Hk Hev]. destruct c as [i|i|i]; [cbn [run_call] in *|..].
  - rewrite RecordPartitionArchived_alone in * by done. destruct (validateInput i); [done|].
    destruct (partitionArchives s !! input_key i) as [pa|] eqn:Ek; simplify_eq.
    + by rewrite (Hk _ _ Ek).
    + rewrite (Hk (input_key i) (candidate e i)); [done|]. apply lookup_insert_eq.
  - rewrite run_destroyed in *. destruct (validateDEKDestroyedInput i); [done|]. rewrite write_once_alone in * by done. rewrite Hev; [by case_match; simplify_eq|].
    case_match eqn:E; simplify_eq; [done|]. rewrite has_event_app, is_billing_event_once, !bool_decide_true by done.
    by rewrite orb_true_r.
  - rewrite run_job in *. destruct (validateCIJobInput i); [done|]. rewrite write_once_alone in * by done. rewrite Hev; [by case_match; simplify_eq|].
    case_match eqn:E; simplify_eq; [done|]. rewrite has_event_app, is_billing_event_once, !bool_decide_true by done.
    by rewrite orb_true_r.
Qed.

(** ** Concrete runs *)
Section samples.
#[local] Existing Instance some_range.

(** A digest of a namespace and bytes; SHA-256 serves. *)
Definition sample_NewSHA1 (ns : uuid) (data : list ascii) : uuid :=
  fold_left (fun n c => n * 256 + code c) (take 16 (Sum256 (be_bytes 16 ns ++ data))) 0.
Notation pay := (fun p : billing_payload => p).
Notation run := (run_call sample_NewSHA1 pay).

Definition quiet (s : Store billing_payload) (n : Z) : env billing_payload :=
  mkEnv (fun _ => s) false (1000 + n) (100 + n) n.
Lemma quiet_alone s n : alone (quiet s n) s.
Proof. by split. Qed.

Definition january : RecordPartitionArchivedInput :=
  mkRecordArchived 2026 1 "billing.usage_events_2026_01" "s3://lake/jan.parquet" 10 2048.
Definition january_key : RecordDEKDestroyedInput :=
  mkRecordDestroyed 2026 1 "billing.usage_events_2026_01" "platform-billing-v1" 1.

Definition sample_calls : list call := [CallArchived january; CallDestroyed january_key; CallArchived january; CallDestroyed january_key].
Definition sample_store : Store billing_payload :=
  fold_left (fun s c => (run (quiet s (Z.of_nat (length (outbox s)) + 1)) c s).1) sample_calls New.

Lemma sample_later : later sample_NewSHA1 New sample_store.
Proof.
  unfold sample_store. assert (H : forall cs s, later sample_NewSHA1 New s -> later sample_NewSHA1 New
    (fold_left (fun s c => (run (quiet s (Z.of_nat (length (outbox s)) + 1)) c s).1) cs s)).
  { intros cs. induction cs as [|c cs IH]; intros s Hs; [done|]. cbn [fold_left]. apply IH.
    apply later_call; [done|apply quiet_alone]. }
  apply H, later_same.
Qed.

Lemma billing_events_exact_witness :
  length (outbox sample_store) = 2%nat /\
  archived_log sample_store ≡ₚ newPartitionArchivedPayload <$> (map_to_list (partitionArchives sample_store)).*2.
Proof. split; [vm_compute; reflexivity|]. apply (billing_events_exact sample_NewSHA1). exact sample_later. Defined.

Lemma repeated_call_is_noop_witness :
  let s1 := (run (quiet New 1) (CallArchived january) New).1 in
  run (quiet s1 2) (CallArchived january) s1 = (s1, Ok (mkRecorded (uuid_String 1) false)).
Proof.
  intros s1.
  exact (repeated_call_is_noop sample_NewSHA1 (quiet New 1) (quiet s1 2) (CallArchived january) New s1 s1
    (mkRecorded (uuid_String 1) true) (quiet_alone New 1) ltac:(vm_compute; reflexivity) (later_same _ s1) (quiet_alone s1 2)).
Defined.

(** Two overlapping calls for one partition, the second of which reads before
    the first commits: on the in-memory store both report that they created
    the archive, and both publish it, one under an id that is in no row. *)
Lemma overlapping_archives_publish_twice :
  let s1 := (run (quiet New 1) (CallArchived january) New).1 in
  let '(s2, r) := run (quiet New 2) (CallArchived january) s1 in
  r = Ok (mkRecorded (uuid_String 2) true) /\ map pap_ArchiveID (archived_log s2) = [1; 2] /\
  map pa_ID (map_to_list (partitionArchives s2)).*2 = [1].
Proof. vm_compute. auto. Qed.

(** The natural key of a destroyed key is not told apart where its texts
    contain the separator: the second event is taken for a repetition. *)
Lemma dek_key_ambiguous :
  dek_natural 2026 1 "a|b" "c" = dek_natural 2026 1 "a" "b|c" /\
  let s1 := (run (quiet New 1) (CallDestroyed (mkRecordDestroyed 2026 1 "a|b" "c" 1)) New).1 in
  option_map out_Created (match (run (quiet s1 2) (CallDestroyed (mkRecordDestroyed 2026 1 "a" "b|c" 1)) s1).2 with
    Ok o => Some o | Err _ => None end) = Some false.
Proof. vm_compute. auto. Qed.

(** A metric that is not a number is not negative. *)
Example nan_metric_accepted :
  validateCIJobInput (mkRecordCI 1 2 "agent" 3 4 "hot" S754_nan f0 0 0) = None.
Proof. reflexivity. Qed.
End samples.
