(* ===== verification/BillingRpc.v ===== *)
(** * The billing service behind gRPC

    [plane/application/billing/grpc_server.go] and the workflow plane's client
    [plane/workflow/appclient/billing_grpc.go], joined by a connection that
    may lose a call or its answer.  The client keeps what [BillingClientLaws]
    promises, so the archive and destruction workflows run against the service
    and its metadata store.  The messages carry 32-bit years, months, versions
    and exit codes. *)

From S2P Require Import Prelude GoStd GoFmt Sha256 Uuid Floats Outbox Actions Grpc MetadataStore BillingService.
From S2P Require AppClient.

#[local] Arguments uuid_String : simpl never.
#[local] Arguments partitionArchiveKey : simpl never.

(** [int32(x)]. *)
Definition int32 (z : Z) : Z := (z + 2 ^ 31) mod 2 ^ 32 - 2 ^ 31.

Lemma int32_id z : - 2 ^ 31 <= z < 2 ^ 31 -> int32 z = z.
Proof. intros H. unfold int32. rewrite Z.mod_small by lia. lia. Qed.

(** ** The server *)

Definition mapErr (e : error) : code :=
  if bool_decide (e = ErrQuotaAccountNotFound) then NotFound
  else if bool_decide (e ∈ [ErrInvalidYear; ErrInvalidMonth; ErrEmptyPartitionName; ErrEmptyLakeURI; ErrNegativeCount;
    ErrEmptyKEKHint; ErrInvalidKeyVersion; ErrEmptyOrgID; ErrEmptyJobID; ErrEmptyPrincipalID; ErrInvalidPrincipalKind;
    ErrInvalidTier; ErrNegativeMetric]) then InvalidArgument
  else Internal.

Record CIJobMessage := mkCIMessage {
  cm_JobId : string; cm_PrincipalId : string; cm_PrincipalKind : string; cm_OrgId : string; cm_RepoId : string;
  cm_Tier : string; cm_VcpuSeconds : float; cm_MemoryMbSeconds : float; cm_EgressKb : Z; cm_ExitCode : Z }.
Record QuotaMessage := mkQuotaMessage {
  qm_AccountId : string; qm_OrgId : string; qm_PlanTier : string; qm_TokensPerWeekCap : Z;
  qm_ComputeMinutesPerMonthCap : Z; qm_StorageGbCap : Z }.

Section rpc.
Context (NewSHA1 : uuid -> list ascii -> uuid) (Parse : string -> option uuid).
Context {P : Type} {MR : MapRange} (pay : billing_payload -> P).

Definition GRPC_RecordPartitionArchived (e : env P) (req : RecordPartitionArchivedInput)
  : action code (Store P) Recorded_output := with_status mapErr (RecordPartitionArchived pay e req).
Definition GRPC_RecordDEKDestroyed (e : env P) (req : RecordDEKDestroyedInput)
  : action code (Store P) Recorded_output := with_status mapErr (RecordDEKDestroyed NewSHA1 pay e req).
Definition GRPC_GetQuotaAccount (OrgId : string) : action code (Store P) QuotaMessage :=
  let! orgID := parse_id Parse OrgId in
  let! out := with_status mapErr (fun s => (s, GetQuotaAccount orgID s)) in
  ret (mkQuotaMessage (uuid_String (qo_AccountID out)) (uuid_String (qo_OrgID out)) (qo_PlanTier out)
    (qo_TokensPerWeekCap out) (qo_ComputeMinutesPerMonthCap out) (qo_StorageGBCap out)).
Definition GRPC_RecordCIJobCompleted (e : env P) (req : CIJobMessage) : action code (Store P) Recorded_output :=
  let! jobID := parse_id Parse (cm_JobId req) in
  let! principalID := parse_id Parse (cm_PrincipalId req) in
  let! orgID := parse_id Parse (cm_OrgId req) in
  let! repoID := parse_id Parse (cm_RepoId req) in
  with_status mapErr (RecordCIJobCompleted NewSHA1 pay e (mkRecordCI jobID principalID (cm_PrincipalKind req) orgID repoID
    (cm_Tier req) (cm_VcpuSeconds req) (cm_MemoryMbSeconds req) (cm_EgressKb req) (cm_ExitCode req))).

(** ** The connection and the client *)

(** What becomes of a call, with the clock and the ids its transaction draws:
    lost on the way, turned down by the database, executed, or executed with
    the answer lost. *)
Inductive delivery := Lost | Run (conflict : bool) (now : time) (eventID newID : uuid) (reply_lost : bool).

Record connection := mkConnection { srv : Store P; deliveries : nat -> delivery }.

(** [None] is an error of the connection. *)
Definition rpc {A} (h : env P -> action code (Store P) A) : connection -> connection * result (option code) A := fun c =>
  let next s := mkConnection s (fun n => deliveries c (S n)) in
  match deliveries c 0%nat with
  | Lost => (next (srv c), Err None)
  | Run conflict now eventID newID reply_lost =>
      let '(s', r) := h (mkEnv (fun _ => srv c) conflict now eventID newID) (srv c) in
      (next s', if reply_lost : bool then Err None else match r with Ok a => Ok a | Err e => Err (Some e) end)
  end.

(** The client's error is the call's. *)
Definition client_result {A} (r : result (option code) A) : result AppClient.client_error unit :=
  match r with Ok _ => Ok tt | Err _ => Err AppClient.ErrCall end.

Definition archived_request (i : AppClient.PartitionArchivedInput) : RecordPartitionArchivedInput :=
  mkRecordArchived (int32 (AppClient.pa_Year i)) (int32 (AppClient.pa_Month i)) (AppClient.pa_PartitionName i)
    (AppClient.pa_LakeURI i) (AppClient.pa_RowCount i) (AppClient.pa_BytesWritten i).
Definition grpc_RecordPartitionArchived (i : AppClient.PartitionArchivedInput) (c : connection)
  : connection * result AppClient.client_error unit :=
  let '(c', r) := rpc (fun e => GRPC_RecordPartitionArchived e (archived_request i)) c in (c', client_result r).

Definition destroyed_request (i : AppClient.DEKDestroyedInput) : RecordDEKDestroyedInput :=
  mkRecordDestroyed (int32 (AppClient.dd_Year i)) (int32 (AppClient.dd_Month i)) (AppClient.dd_PartitionName i)
    (AppClient.dd_KEKHint i) (int32 (AppClient.dd_VaultKeyVersion i)).
Definition grpc_RecordDEKDestroyed (i : AppClient.DEKDestroyedInput) (c : connection)
  : connection * result AppClient.client_error unit :=
  let '(c', r) := rpc (fun e => GRPC_RecordDEKDestroyed e (destroyed_request i)) c in (c', client_result r).

Definition grpc_GetQuotaAccount (orgID : uuid) (c : connection)
  : connection * result AppClient.client_error AppClient.QuotaAccountView :=
  let '(c', r) := rpc (fun _ => GRPC_GetQuotaAccount (uuid_String orgID)) c in
  (c', match r with
       | Err (Some NotFound) => Err AppClient.ErrQuotaAccountNotFound
       | Err _ => Err AppClient.ErrCall
       | Ok resp =>
           match Parse (qm_AccountId resp), Parse (qm_OrgId resp) with
           | Some accountID, Some respOrgID =>
               Ok (AppClient.mkQuotaView accountID respOrgID (qm_PlanTier resp) (qm_TokensPerWeekCap resp)
                     (qm_ComputeMinutesPerMonthCap resp) (qm_StorageGbCap resp))
           | _, _ => Err AppClient.ErrCall
           end
       end).

Definition ci_request (i : AppClient.CIJobCompletedInput) : CIJobMessage :=
  mkCIMessage (uuid_String (AppClient.ci_JobID i)) (uuid_String (AppClient.ci_PrincipalID i))
    (AppClient.ci_PrincipalKind i) (uuid_String (AppClient.ci_OrgID i)) (uuid_String (AppClient.ci_RepoID i))
    (AppClient.ci_Tier i) (AppClient.ci_VCPUSeconds i) (AppClient.ci_MemoryMBSeconds i) (AppClient.ci_EgressKB i)
    (int32 (AppClient.ci_ExitCode i)).
Definition grpc_RecordCIJobCompleted (i : AppClient.CIJobCompletedInput) (c : connection)
  : connection * result AppClient.client_error unit :=
  let '(c', r) := rpc (fun e => GRPC_RecordCIJobCompleted e (ci_request i)) c in (c', client_result r).

#[export] Instance grpc_billing_client : AppClient.BillingClient connection := {
  AppClient.RecordPartitionArchived := grpc_RecordPartitionArchived;
  AppClient.RecordDEKDestroyed := grpc_RecordDEKDestroyed }.

End rpc.

Arguments connection P : clear implicits.

(** ** The client's laws *)
Section laws.
Context (NewSHA1 : uuid -> list ascii -> uuid) {P : Type} {MR : MapRange} (pay : billing_payload -> P).

Notation run := (run_call NewSHA1 pay).

(** The server's store after a call, with the service call it makes. *)
Lemma rpc_call c0 (h : env P -> action code (Store P) Recorded_output) (k : connection P) :
  (forall e, h e = with_status mapErr (run e c0)) ->
  keeps (srv k) (srv (rpc h k).1) /\
  forall r, (rpc h k).2 = Ok r -> exists e, alone e (srv k) /\ run e c0 (srv k) = (srv (rpc h k).1, Ok r).
Proof.
  intros Hh. unfold rpc. destruct (deliveries k 0%nat) as [|conflict now eventID newID lost]; [done|].
  set (e := mkEnv (fun _ => srv k) conflict now eventID newID). rewrite Hh.
  pose proof (with_status_state mapErr (run e c0) (srv k)) as Hs.
  assert (Hk : keeps (srv k) (run e c0 (srv k)).1).
  { destruct conflict; [|by apply call_keeps]. by destruct (run_call_conflict NewSHA1 pay e c0 (srv k)) as [er ->]. }
  destruct (with_status mapErr (run e c0) (srv k)) as [s' r] eqn:E. cbn [fst snd srv] in *. subst s'. split; [done|].
  intros r' Hr. destruct lost; [done|]. destruct r as [a|er]; [|done]. injection Hr as ->.
  apply with_status_ok in E. exists e. split; [|done]. destruct conflict; [|by split].
  destruct (run_call_conflict NewSHA1 pay e c0 (srv k) eq_refl) as [er Her]. rewrite Her in E. done.
Qed.

#[export] Instance grpc_client : AppClient.BillingClient (connection P) := grpc_billing_client NewSHA1 pay.

#[export, refine] Instance grpc_client_laws : AppClient.BillingClientLaws (connection P) := {
  AppClient.archive_recorded k y m p :=
    is_Some (partitionArchives (srv k) !! partitionArchiveKey (int32 y) (int32 m) p);
  AppClient.destruction_recorded k y m p h :=
    HasOutboxEventForAggregate EventTypePartitionDEKDestroyed
      (NewSHA1 dekDestroyedNamespace (s2l (dek_natural (int32 y) (int32 m) p h))) (srv k) = true }.
Proof.
  all: cbn [AppClient.RecordPartitionArchived AppClient.RecordDEKDestroyed grpc_client grpc_billing_client].
  all: unfold grpc_RecordPartitionArchived, grpc_RecordDEKDestroyed.
  - intros i k. destruct (rpc_call (CallArchived (archived_request i)) _ k ltac:(done)) as [_ H].
    destruct (rpc _ k) as [k' [r|er]]; [|done]. intros _. destruct (H r eq_refl) as (e & He & Hr).
    exact (RecordPartitionArchived_records _ _ _ _ _ _ He Hr).
  - intros i k. destruct (rpc_call (CallDestroyed (destroyed_request i)) _ k ltac:(done)) as [_ H].
    destruct (rpc _ k) as [k' [r|er]]; [|done]. intros _. destruct (H r eq_refl) as (e & He & Hr). cbn [fst].
    rewrite run_destroyed in Hr. destruct (validateDEKDestroyedInput _); [done|].
    exact (write_once_records _ _ _ _ _ _ _ _ _ He Hr).
  - intros y m p k [pa Hp]. split; intros i.
    + destruct (rpc_call (CallArchived (archived_request i)) _ k ltac:(done)) as [[Hk _] _].
      destruct (rpc _ k) as [k' r]. exists pa. by apply Hk.
    + destruct (rpc_call (CallDestroyed (destroyed_request i)) _ k ltac:(done)) as [[Hk _] _].
      destruct (rpc _ k) as [k' r]. exists pa. by apply Hk.
  - intros y m p h k Hp. split; intros i.
    + destruct (rpc_call (CallArchived (archived_request i)) _ k ltac:(done)) as [[_ Hk] _].
      destruct (rpc _ k) as [k' r]. by apply Hk.
    + destruct (rpc_call (CallDestroyed (destroyed_request i)) _ k ltac:(done)) as [[_ Hk] _].
      destruct (rpc _ k) as [k' r]. by apply Hk.
Defined.
End laws.
