(* ===== verification/EligiblePartitions.v ===== *)
(** * Partitions whose key may be destroyed

    [plane/workflow/billing/list_eligible_partitions_activity.go] over the
    metadata store, with the hint resolver of [Archive]
    (manifest_kekhint_resolver.go): what feeds the destruction workflow of
    [DekDestruction]. *)

From S2P Require Import Prelude GoStd GoFmt Sha256 Json Uuid JsonDecode ObjectStore Actions Temporal Archive.
From S2P Require Import DekDestruction MetadataStore.

(** A partition archive whose hint cannot be resolved is listed without one. *)
Definition eligible (resolve : string -> result failure string) (pa : PartitionArchive) : EligiblePartition :=
  mkEligible (pa_Year pa) (pa_Month pa) (pa_PartitionName pa) (pa_LakeURI pa) (pa_ArchivedAt pa)
    (match resolve (pa_LakeURI pa) with Ok hint => hint | Err _ => "" end).

Definition ListEligiblePartitions {P} {MR : MapRange} (resolve : string -> result failure string) (s : Store P)
    (Cutoff : time) : result failure (list EligiblePartition) :=
  if IsZero Cutoff then Err (Failed "billing.ListEligiblePartitions: cutoff is zero")
  else Ok (eligible resolve <$> ListPartitionArchivesArchivedBefore Cutoff s).

Definition ym_le (p q : EligiblePartition) : Prop :=
  ep_Year p < ep_Year q \/ ep_Year p = ep_Year q /\ ep_Month p <= ep_Month q.

(** The destruction workflow is given exactly the partitions archived
    before the cutoff, each once, in ascending order of year and month. *)
Theorem eligible_partitions_exact {P} `{MapRangeLaws} resolve (s : Store P) cutoff ps :
  keyed s -> ListEligiblePartitions resolve s cutoff = Ok ps ->
  (forall p, p ∈ ps <-> exists k pa, partitionArchives s !! k = Some pa /\ pa_ArchivedAt pa < cutoff /\ p = eligible resolve pa) /\
  NoDup ((fun p => (ep_Year p, ep_Month p, ep_PartitionName p)) <$> ps) /\ StronglySorted ym_le ps.
Proof.
  intros Hk. unfold ListEligiblePartitions. destruct (IsZero cutoff); [done|]. intros [= <-].
  set (l := ListPartitionArchivesArchivedBefore cutoff s).
  assert (Hp : l ≡ₚ filter (fun pa => pa_ArchivedAt pa < cutoff) (range_keyed (partitionArchives s)))
    by apply merge_sort_Permutation.
  split_and!.
  - intros p. rewrite list_elem_of_fmap. split.
    + intros (pa & -> & Hpa). rewrite Hp in Hpa. apply list_elem_of_filter in Hpa as [Ht [k Hpa]%elem_of_range_keyed]. eauto.
    + intros (k & pa & Hpa & Ht & ->). exists pa. split; [done|]. rewrite Hp. apply list_elem_of_filter.
      split; [done|]. apply elem_of_range_keyed. eauto.
  - rewrite <- list_fmap_compose. rewrite Hp. unfold compose. cbn [eligible ep_Year ep_Month ep_PartitionName].
    apply (NoDup_fmap_1 (fun k => partitionArchiveKey k.1.1 k.1.2 k.2)). rewrite <- list_fmap_compose.
    assert (Hnd : NoDup (archive_key <$> range_keyed (partitionArchives s))).
    { rewrite range_keyed_all, <- list_fmap_compose. erewrite list_fmap_ext; [apply NoDup_fst_map_to_list|].
      intros i [k pa] Hi. apply list_elem_of_lookup_2, elem_of_map_to_list in Hi. exact (keyed_archives _ Hk _ _ Hi). }
    clear Hp. revert Hnd. induction (range_keyed (partitionArchives s)) as [|pa m IH]; [done|].
    rewrite filter_cons. intros [Hn Hnd]%NoDup_cons. destruct (decide _); [|by apply IH].
    apply NoDup_cons. split; [|by apply IH]. intros Hin. apply Hn.
    apply list_elem_of_fmap in Hin as (x & E & Hx). apply list_elem_of_filter in Hx as [_ Hx].
    apply list_elem_of_fmap. by exists x.
  - assert (Hs : StronglySorted archive_le l) by (apply StronglySorted_merge_sort; apply _).
    clear Hp. induction Hs as [|pa m _ IH Hf]; [constructor|]. cbn. constructor; [done|].
    apply Forall_fmap. eapply Forall_impl; [exact Hf|]. intros q Hq%archive_le_spec. cbn. unfold ym_le. cbn. lia.
Qed.

(** ** The hint of an archived partition *)
Section resolve.
Context {A O K R : Type} `{!Archiver A} `{!ObjectStore O} `{!KeyProvider K} `{!Restorer R} `{!Parquet}.
Context `{!ObjectStoreLaws O, !ReliableStore (O := O)}.

Definition lake_uri (bucket : string) (y m : Z) : string := "s3://" +:+ bucket +:+ "/" +:+ archivedParquetKey y m.

(** The resolver reads from the manifest of an archived partition the key
    hint its export recorded. *)
Lemma ResolveKEKHint_archived bucket y m dek rows (w : world A O K R) :
  archived (objs w) y m dek rows -> KEKHint dek <> "" ->
  (ResolveKEKHint bucket (lake_uri bucket y m) w).2 = Ok (KEKHint dek).
Proof.
  intros (cipher & ts & _ & Hm & _ & Hts & Hka & _ & Hn & Hc & _) Hh. unfold ResolveKEKHint, lake_uri.
  set (prefix := "s3://" +:+ bucket +:+ "/").
  assert (E : "s3://" +:+ bucket +:+ "/" +:+ archivedParquetKey y m = prefix +:+ archivedParquetKey y m).
  { unfold prefix. by rewrite !sapp_assoc. }
  rewrite E. unfold bind, require.
  rewrite (proj2 (HasPrefix_spec _ _)) by eauto. cbn [ret]. rewrite TrimPrefix_app.
  rewrite (proj2 (HasSuffix_spec _ _)) by (by eexists). cbn [ret].
  change (TrimSuffix (archivedParquetKey y m) ".parquet" +:+ ".manifest.json")
    with (TrimSuffix (archived_base y m +:+ ".parquet") ".parquet" +:+ ".manifest.json").
  rewrite TrimSuffix_app. fold (archivedSidecarKey y m ".manifest.json").
  unfold on_store. rewrite (GetBytes_reliable _ _ _ Hm), l2s_s2l.
  rewrite kek_hint_decode_json by (by apply archived_manifest_ok). cbn [m_KEKHint].
  by rewrite bool_decide_false.
Qed.
End resolve.

(** ** A concrete listing *)
Definition sample_archive (id y m : Z) (t : time) : PartitionArchive :=
  mkPartitionArchive id y m (partitionName y m) (lake_uri "lake" y m) 1 1 t.
Definition sample_listing_store : Store unit :=
  mkStore ∅ ∅ ∅ (list_to_map (map (fun pa => (archive_key pa, pa))
    [sample_archive 3 2027 1 10; sample_archive 1 2026 12 20; sample_archive 2 2026 2 90])) ∅ ∅ [].

Lemma eligible_partitions_exact_witness :
  let resolve := fun uri => if HasSuffix uri "2026_12.parquet" then Err (Failed "no manifest") else Ok "platform-billing-v1" in
  map (fun p => (ep_Year p, ep_Month p, ep_KEKHint p))
    (match ListEligiblePartitions (MR := some_range) resolve sample_listing_store 50 with Ok ps => ps | Err _ => [] end)
    = [(2026, 12, ""); (2027, 1, "platform-billing-v1")] /\
  StronglySorted ym_le
    (match ListEligiblePartitions (MR := some_range) resolve sample_listing_store 50 with Ok ps => ps | Err _ => [] end).
Proof.
  intros resolve. split; [vm_compute; reflexivity|].
  assert (Hk : keyed sample_listing_store).
  { split; try apply map_Forall_empty. intros k pa Hin%elem_of_list_to_map_2.
    cbn [map] in Hin. rewrite !elem_of_cons, elem_of_nil in Hin. naive_solver. }
  destruct (ListEligiblePartitions (MR := some_range) resolve sample_listing_store 50) as [ps|] eqn:E; [|by constructor].
  exact (proj2 (proj2 (eligible_partitions_exact (MR := some_range) resolve sample_listing_store 50 ps Hk E))).
Defined.
