(* ===== verification/ReadThrough.v ===== *)
(** * Read-through caches

    [plane/data/cache]: keys.go, identity.go and repo_location.go, and the
    locators of [plane/git/locator] above them.

    A lookup talks to the cache and to the source of truth while other
    requests and the invalidator work on the same cache, so it is modelled as
    the tree of its calls ([prog]); every call is one atomic step.
    [singleflight.Group.Do] and the loader below it are the call [Load]. *)

From S2P Require Import Prelude GoStd Sha256 Json JsonDecode Uuid CacheStore MetadataStore.

#[local] Arguments uuid_String : simpl never.
#[local] Arguments Marshal : simpl never.
#[local] Arguments Unmarshal : simpl never.

(** ** Calls *)

(** What [CacheStore.Get] answers: a value, [ErrNotFound], another error. *)
Inductive get_reply := Found (b : string) | NotFound | Unavailable.

(** [V] is what the loader finds, [R] the result of the program.  A reply to a
    write says whether it reported an error. *)
Inductive prog (V R : Type) :=
| Return (r : R)
| CallGet (key : string) (k : get_reply -> prog V R)
| CallSet (key value : string) (ttl : duration) (k : bool -> prog V R)
| CallDelete (key : string) (k : bool -> prog V R)
| Load (key : string) (id : uuid) (k : result unit (option V) -> prog V R).
Arguments Return {V R} r.
Arguments CallGet {V R} key k.
Arguments CallSet {V R} key value ttl k.
Arguments CallDelete {V R} key k.
Arguments Load {V R} key id k.

Fixpoint map_result {V A B} (f : A -> B) (p : prog V A) : prog V B :=
  match p with
  | Return r => Return (f r)
  | CallGet key k => CallGet key (fun x => map_result f (k x))
  | CallSet key v ttl k => CallSet key v ttl (fun x => map_result f (k x))
  | CallDelete key k => CallDelete key (fun x => map_result f (k x))
  | Load key id k => Load key id (fun x => map_result f (k x))
  end.

(** The three ways a lookup fails. *)
Inductive lookup_error := ErrNotFound | ErrCache | ErrLoad.

#[export] Instance lookup_error_eq_dec : EqDecision lookup_error.
Proof. solve_decision. Defined.

(** ** The lookup

    [GetIdentity] and [GetRepoLocation] have one text: [decode] distinguishes
    entries, the miss sentinel and values it cannot read, [stamp] sets the
    version. *)
Section lookup.
Context {V : Type} (decode : string -> option (option V)) (encode : V -> string) (stamp : V -> V).
Context (missBytes : string) (TTL NotFoundTTL : duration).

Definition store_loaded (key : string) (r : result unit (option V)) : prog V (result lookup_error V) :=
  match r with
  | Err _ => Return (Err ErrLoad)
  | Ok None => CallSet key missBytes NotFoundTTL (fun _ => Return (Err ErrNotFound))
  | Ok (Some entry) => CallSet key (encode (stamp entry)) TTL (fun _ => Return (Ok (stamp entry)))
  end.

Definition get_or_load (key : string) (id : uuid) : prog V (result lookup_error V) :=
  CallGet key (fun r =>
    match r with
    | Found b =>
        match decode b with
        | Some (Some entry) => Return (Ok entry)
        | Some None => Return (Err ErrNotFound)
        | None => Load key id (store_loaded key)
        end
    | NotFound => Load key id (store_loaded key)
    | Unavailable => Return (Err ErrCache)
    end).
End lookup.

(** ** Keys *)

Definition IdentityKey (id : uuid) : string := "identity:" +:+ uuid_String id.
Definition RepoLocationKey (id : uuid) : string := "repo:loc:" +:+ uuid_String id.
Definition IdentityTTL : duration := 60 * Second.
Definition IdentityNotFoundTTL : duration := 30 * Second.
Definition RepoLocationTTL : duration := 600 * Second.
Definition RepoLocationNotFoundTTL : duration := 30 * Second.

(** The JSON text [{"v":1,"_miss":true}]. *)
Definition miss_json : jval := VObj [("v", VInt 1); ("_miss", VBool true)].
Definition identityMissBytes : string := Marshal miss_json.
Definition repoLocationMissBytes : string := Marshal miss_json.

(** The header both entries start with, and the body only of an entry of this
    version that is not the sentinel. *)
Definition decode_versioned {V} (version : Z) (body : list (string * jval) -> option V) (b : string) : option (option V) :=
  raw ← Unmarshal b; ms ← struct_members raw;
  v ← decode_field dec_int 0 "v" ms;
  miss ← decode_field dec_bool false "_miss" ms;
  if negb (v =? version) then None
  else if miss : bool then Some None
  else Some <$> body ms.

(** ** Identities *)

(** A nil slice is [None]. *)
Record IdentityCacheEntry := mkIdentityEntry {
  ie_Version : Z; ie_PrincipalID : string; ie_OrgID : string; ie_Roles : option (list string) }.

Definition identityVersion : Z := 1.

Definition identity_json (e : IdentityCacheEntry) : jval :=
  VObj [("v", VInt (ie_Version e)); ("principal_id", VStr (ie_PrincipalID e)); ("org_id", VStr (ie_OrgID e));
    ("roles", match ie_Roles e with None => VNull | Some l => VArr (map VStr l) end)].
Definition set_identity_version (e : IdentityCacheEntry) : IdentityCacheEntry :=
  mkIdentityEntry identityVersion (ie_PrincipalID e) (ie_OrgID e) (ie_Roles e).

Definition identity_body (ms : list (string * jval)) : option IdentityCacheEntry :=
  v ← decode_field dec_int 0 "v" ms;
  p ← decode_field dec_string "" "principal_id" ms;
  o ← decode_field dec_string "" "org_id" ms;
  r ← decode_field (fun x => Some <$> dec_strings x) None "roles" ms;
  Some (mkIdentityEntry v p o r).
Definition decodeIdentity (b : string) : option (option IdentityCacheEntry) :=
  decode_versioned identityVersion identity_body b.

Definition GetIdentity (principalID : uuid) : prog IdentityCacheEntry (result lookup_error IdentityCacheEntry) :=
  get_or_load decodeIdentity (fun e => Marshal (identity_json e)) set_identity_version
    identityMissBytes IdentityTTL IdentityNotFoundTTL (IdentityKey principalID) principalID.

(** These two answer whether they succeeded. *)
Definition SetIdentity (principalID : uuid) (entry : IdentityCacheEntry) : prog IdentityCacheEntry bool :=
  CallSet (IdentityKey principalID) (Marshal (identity_json (set_identity_version entry))) IdentityTTL Return.
Definition InvalidateIdentity (principalID : uuid) : prog IdentityCacheEntry bool :=
  CallDelete (IdentityKey principalID) Return.

(** ** Repository locations *)

Record RepoLocation := mkRepoLocation {
  rl_Version : Z; rl_ReplicaSetID : string; rl_HomeRegion : string; rl_ACLFingerprint : string }.

Definition repoLocationVersion : Z := 1.

Definition repo_location_json (l : RepoLocation) : jval :=
  VObj [("v", VInt (rl_Version l)); ("replica_set_id", VStr (rl_ReplicaSetID l)); ("home_region", VStr (rl_HomeRegion l));
    ("acl_fingerprint", VStr (rl_ACLFingerprint l))].
Definition set_location_version (l : RepoLocation) : RepoLocation :=
  mkRepoLocation repoLocationVersion (rl_ReplicaSetID l) (rl_HomeRegion l) (rl_ACLFingerprint l).

Definition repo_location_body (ms : list (string * jval)) : option RepoLocation :=
  v ← decode_field dec_int 0 "v" ms;
  r ← decode_field dec_string "" "replica_set_id" ms;
  h ← decode_field dec_string "" "home_region" ms;
  a ← decode_field dec_string "" "acl_fingerprint" ms;
  Some (mkRepoLocation v r h a).
Definition decodeRepoLocation (b : string) : option (option RepoLocation) :=
  decode_versioned repoLocationVersion repo_location_body b.

Definition GetRepoLocation (repoID : uuid) : prog RepoLocation (result lookup_error RepoLocation) :=
  get_or_load decodeRepoLocation (fun l => Marshal (repo_location_json l)) set_location_version
    repoLocationMissBytes RepoLocationTTL RepoLocationNotFoundTTL (RepoLocationKey repoID) repoID.
Definition SetRepoLocation (repoID : uuid) (loc : RepoLocation) : prog RepoLocation bool :=
  CallSet (RepoLocationKey repoID) (Marshal (repo_location_json (set_location_version loc))) RepoLocationTTL Return.

(** ** Locators *)

Record FileServerAddr := mkAddr { ReplicaSetID : string; HomeRegion : string; Addr : string }.

Inductive locator_error := ErrRepoNotFound | ErrInvalidRepoID | ErrResolve.

#[export] Instance locator_error_eq_dec : EqDecision locator_error.
Proof. solve_decision. Defined.

Section locators.
Context (Parse : string -> option uuid).

(** The metadata store reads without errors in memory; [up] says whether the
    database answers. *)
Definition MetadataLocator_Resolve {P} (up : bool) (s : Store P) (repoID : string) : result locator_error FileServerAddr :=
  match Parse repoID with
  | None => Err ErrInvalidRepoID
  | Some id =>
      if negb up then Err ErrResolve
      else match GetByID id s with
           | None => Err ErrRepoNotFound
           | Some repo => Ok (mkAddr (r_ReplicaSetID repo) (r_HomeRegion repo) (r_ReplicaSetID repo +:+ ":8075"))
           end
  end.

(** The loader [CacheLocator] hands to [GetRepoLocation]. *)
Definition location_loader (next : string -> result locator_error FileServerAddr) (id : uuid)
  : result unit (option RepoLocation) :=
  match next (uuid_String id) with
  | Ok addr => Ok (Some (mkRepoLocation 0 (ReplicaSetID addr) (HomeRegion addr) ""))
  | Err ErrRepoNotFound => Ok None
  | Err _ => Err tt
  end.

Definition located (r : result lookup_error RepoLocation) : result locator_error FileServerAddr :=
  match r with
  | Ok loc => Ok (mkAddr (rl_ReplicaSetID loc) (rl_HomeRegion loc) (rl_ReplicaSetID loc +:+ ":8075"))
  | Err ErrNotFound => Err ErrRepoNotFound
  | Err _ => Err ErrResolve
  end.

Definition CacheLocator_Resolve (repoID : string) : prog RepoLocation (result locator_error FileServerAddr) :=
  match Parse repoID with
  | None => Return (Err ErrInvalidRepoID)
  | Some id => map_result located (GetRepoLocation id)
  end.
End locators.

(** ** Concurrent lookups

    Requests, invalidations and other users share one cache.  [truth t id] is
    what the source of truth holds at time [t].  A load answers what was true
    at some time before (it may join one that began earlier); a request writes
    its load back at most [d] later.  [good] restricts the times loads may
    read at. *)
Section system.
Context {S : Type} `{CacheLaws S}.
Context {V : Type} (decode : string -> option (option V)) (encode : V -> string) (stamp : V -> V).
Context (missBytes : string) (TTL NotFoundTTL : duration) (key : uuid -> string).
Context (truth : time -> uuid -> option V) (d : duration).

Notation lookup_prog := (prog V (result lookup_error V)).
Notation load_back id := (store_loaded encode stamp missBytes TTL NotFoundTTL (key id)).

Definition lookup (id : uuid) : lookup_prog :=
  get_or_load decode encode stamp missBytes TTL NotFoundTTL (key id) id.

(** A request, with the time its loaded value was true. *)
Record thread := mkThread { th_id : uuid; th_read : option time; th_prog : lookup_prog }.
Record answer := mkAnswer { an_id : uuid; an_result : result lookup_error V; an_time : time }.
Record system := mkSystem {
  sy_cache : S; sy_now : time; sy_threads : gmap nat thread; sy_answers : list answer }.

(** The request [n] goes on; a finished one answers at once. *)
Definition resume (n : nat) (id : uuid) (rd : option time) (p : lookup_prog) (c : S) (y : system) : system :=
  match p with
  | Return r => mkSystem c (sy_now y) (delete n (sy_threads y)) (mkAnswer id r (sy_now y) :: sy_answers y)
  | _ => mkSystem c (sy_now y) (<[n := mkThread id rd p]> (sy_threads y)) (sy_answers y)
  end.
Definition with_cache (c : S) (y : system) : system := mkSystem c (sy_now y) (sy_threads y) (sy_answers y).

Definition reply (r : result cache_error string) : get_reply :=
  match r with Ok b => Found b | Err _ => NotFound end.

Inductive step (good : uuid -> time -> Prop) (y : system) : system -> Prop :=
| step_tick t : sy_now y <= t -> step good y (mkSystem (sy_cache y) t (sy_threads y) (sy_answers y))
| step_start n id : sy_threads y !! n = None -> uuid_ok id ->
    step good y (resume n id None (lookup id) (sy_cache y) y)
| step_get n id rd key' k : sy_threads y !! n = Some (mkThread id rd (CallGet key' k)) ->
    step good y (resume n id rd (k (reply (Get (sy_now y) key' (sy_cache y)).1)) (Get (sy_now y) key' (sy_cache y)).2 y)
| step_get_fails n id rd key' k : sy_threads y !! n = Some (mkThread id rd (CallGet key' k)) ->
    step good y (resume n id rd (k Unavailable) (sy_cache y) y)
| step_load n id rd key' i k t : sy_threads y !! n = Some (mkThread id rd (Load key' i k)) ->
    t <= sy_now y -> good i t -> step good y (resume n id (Some t) (k (Ok (truth t i))) (sy_cache y) y)
| step_load_fails n id rd key' i k : sy_threads y !! n = Some (mkThread id rd (Load key' i k)) ->
    step good y (resume n id rd (k (Err tt)) (sy_cache y) y)
| step_set n id t key' v ttl k reported : sy_threads y !! n = Some (mkThread id (Some t) (CallSet key' v ttl k)) ->
    sy_now y <= t + d ->
    step good y (resume n id (Some t) (k reported) (Set_ (sy_now y) key' v ttl (sy_cache y)) y)
| step_set_fails n id t key' v ttl k : sy_threads y !! n = Some (mkThread id (Some t) (CallSet key' v ttl k)) ->
    sy_now y <= t + d -> step good y (resume n id (Some t) (k false) (sy_cache y) y)
| step_abandon n : step good y (mkSystem (sy_cache y) (sy_now y) (delete n (sy_threads y)) (sy_answers y))
| step_delete key' : step good y (with_cache (Delete (sy_now y) key' (sy_cache y)) y)
| step_other key' v ttl : (forall id, uuid_ok id -> key' <> key id) ->
    step good y (with_cache (Set_ (sy_now y) key' v ttl (sy_cache y)) y).

(** *** The invariant *)

(** What may be found under the key of [id], if it is still there at [limit]. *)
Definition backed (good : uuid -> time -> Prop) (id : uuid) (b : string) (now limit : time) : Prop :=
  exists t, t <= now /\ good id t /\
    match truth t id with
    | Some v => b = encode (stamp v) /\ limit <= t + d + TTL
    | None => b = missBytes /\ limit <= t + d + NotFoundTTL
    end.

(** The answer was true, no longer ago than [d] and the time to live. *)
Definition recent (good : uuid -> time -> Prop) (a : answer) : Prop :=
  match an_result a with
  | Ok v => exists t u, t <= an_time a <= t + d + TTL /\ good (an_id a) t /\ truth t (an_id a) = Some u /\ v = stamp u
  | Err ErrNotFound => exists t, t <= an_time a <= t + d + NotFoundTTL /\ good (an_id a) t /\ truth t (an_id a) = None
  | Err _ => True
  end.

Definition thread_ok (good : uuid -> time -> Prop) (now : time) (th : thread) : Prop :=
  uuid_ok (th_id th) /\
  (th_prog th = lookup (th_id th) \/
   th_prog th = Load (key (th_id th)) (th_id th) (load_back (th_id th)) \/
   exists t, th_read th = Some t /\ t <= now /\ good (th_id th) t /\
     th_prog th = load_back (th_id th) (Ok (truth t (th_id th)))).

Record inv (good : uuid -> time -> Prop) (y : system) : Prop := {
  inv_cache id b now' : uuid_ok id -> sy_now y <= now' -> live now' (sy_cache y) (key id) = Some b ->
    backed good id b (sy_now y) now';
  inv_threads : map_Forall (fun _ => thread_ok good (sy_now y)) (sy_threads y);
  inv_answers : Forall (recent good) (sy_answers y) }.

Context (key_inj : forall i j, uuid_ok i -> uuid_ok j -> key i = key j -> i = j).
Context (decode_encode : forall t id v, truth t id = Some v -> decode (encode (stamp v)) = Some (Some (stamp v))).
Context (decode_miss : decode missBytes = Some None).
Context (TTL_nonneg : 0 <= TTL) (NotFoundTTL_nonneg : 0 <= NotFoundTTL).

Definition cache_backed (good : uuid -> time -> Prop) (c : S) (now : time) : Prop :=
  forall id b now', uuid_ok id -> now <= now' -> live now' c (key id) = Some b -> backed good id b now now'.

Lemma backed_later good id b now now1 limit : now <= now1 -> backed good id b now limit -> backed good id b now1 limit.
Proof. intros Hn (t & Ht & Hb). exists t. split; [lia|done]. Qed.
Lemma thread_ok_later good now now1 th : now <= now1 -> thread_ok good now th -> thread_ok good now1 th.
Proof.
  intros Hn [Hi Ht]. split; [done|]. destruct Ht as [?|[?|(t & H1 & H2 & H3 & H4)]]; [by left|by right; left|].
  right; right. exists t. split_and!; try done; lia.
Qed.

(** Going on keeps the invariant if what the request does next is in order. *)
Lemma inv_resume good n id rd p c y : inv good y -> cache_backed good c (sy_now y) ->
  match p with
  | Return r => recent good (mkAnswer id r (sy_now y))
  | _ => thread_ok good (sy_now y) (mkThread id rd p)
  end -> inv good (resume n id rd p c y).
Proof.
  intros [_ Ht Ha] Hc Hp.
  destruct p; (split; [exact Hc| |]); cbn [resume sy_threads sy_answers sy_now];
    try done; try (by apply map_Forall_insert_2); [by apply map_Forall_delete|by constructor].
Qed.

Lemma cache_backed_set good c now id t v ttl b : cache_backed good c now -> uuid_ok id -> t <= now <= t + d -> good id t ->
  match truth t id with
  | Some u => b = encode (stamp u) /\ ttl = TTL
  | None => b = missBytes /\ ttl = NotFoundTTL
  end -> v = b -> cache_backed good (Set_ now (key id) v ttl c) now.
Proof.
  intros Hc Hi Ht Hg Hb -> id' b' now' Hi' Hn. rewrite Set_spec by done.
  destruct (bool_decide (key id' = key id)) eqn:E; [|by apply Hc].
  apply bool_decide_eq_true, key_inj in E as ->; [|done..].
  destruct (After now' (Add now ttl)) eqn:Ea; [done|]. intros [= <-].
  unfold After, Add in Ea. apply Z.ltb_ge in Ea. exists t. split; [lia|]. split; [done|].
  destruct (truth t id); destruct Hb as [-> ->]; split; (done || lia).
Qed.

(** What the next call of a request can be. *)
Lemma thread_ok_get good now id rd key' k : thread_ok good now (mkThread id rd (CallGet key' k)) ->
  uuid_ok id /\ CallGet key' k = lookup id.
Proof. intros [Hi [E|[E|(t & _ & _ & _ & E)]]]; [done|done|]. cbn in E. by destruct (truth t id). Qed.
Lemma thread_ok_load good now id rd key' i k : thread_ok good now (mkThread id rd (Load key' i k)) ->
  uuid_ok id /\ i = id /\ k = load_back id.
Proof. intros [Hi [E|[E|(t & _ & _ & _ & E)]]]; [done|by injection E|]. cbn in E. by destruct (truth t id). Qed.

(** A write puts back what was read, and the answer that follows is recent. *)
Lemma thread_ok_set good now id t key' v ttl k : thread_ok good now (mkThread id (Some t) (CallSet key' v ttl k)) ->
  now <= t + d ->
  uuid_ok id /\ (exists r, k = (fun _ => Return r) /\ recent good (mkAnswer id r now)) /\
  forall c, cache_backed good c now -> cache_backed good (Set_ now key' v ttl c) now.
Proof.
  intros [Hi [E|[E|(t' & [= <-] & Hn & Hg & E)]]] Hd; [done..|]. cbn in *.
  destruct (truth t id) as [u|] eqn:Eu; injection E as -> -> -> ->; (split_and!; [done| |]).
  - eexists. split; [done|]. exists t, u. cbn. split_and!; try done; lia.
  - intros c Hc. eapply (cache_backed_set good c now id t); [done|done|lia|done|by rewrite Eu|done].
  - eexists. split; [done|]. exists t. cbn. split_and!; try done; lia.
  - intros c Hc. eapply (cache_backed_set good c now id t); [done|done|lia|done|by rewrite Eu|done].
Qed.

Lemma inv_get good n id rd key' k y : inv good y -> thread_ok good (sy_now y) (mkThread id rd (CallGet key' k)) ->
  inv good (resume n id rd (k (reply (Get (sy_now y) key' (sy_cache y)).1)) (Get (sy_now y) key' (sy_cache y)).2 y).
Proof.
  intros Hy [Hi E]%thread_ok_get. pose proof (inv_cache _ _ Hy) as Hc. injection E as -> ->. apply inv_resume; [done| |].
  - intros i b now' Hi' Hn. rewrite Get_frame by done. by apply Hc.
  - rewrite Get_spec. destruct (live (sy_now y) (sy_cache y) (key id)) as [b|] eqn:El; cbn [reply];
      [|split; [done|]; by right; left].
    apply Hc in El as (t & Ht1 & Hg & Hb); [|done|lia].
    destruct (truth t id) as [v|] eqn:Ev; destruct Hb as [-> Hb].
    + rewrite (decode_encode _ _ _ Ev). cbn. exists t, v. split_and!; try done; lia.
    + rewrite decode_miss. cbn. exists t. split_and!; try done; lia.
Qed.

Lemma step_inv good y y' : step good y y' -> inv good y -> inv good y'.
Proof.
  intros Hs Hy. pose proof Hy as [Hc Ht Ha].
  destruct Hs as [t Hn|n id Hf Hi|n id rd key' k E|n id rd key' k E|n id rd key' i k t E Hn Hg|n id rd key' i k E
    |n id t key' v ttl k rep E Hd|n id t key' v ttl k E Hd|n|key'|key' v ttl Hk]; try apply Ht in E.
  - split; cbn; [|eapply map_Forall_impl; [exact Ht|]; intros; by eapply thread_ok_later|done].
    intros id b now' Hi Hn' Hl. eapply backed_later; [exact Hn|]. apply Hc; [done|lia|done].
  - apply inv_resume; [done|exact Hc|]. split; [done|]. by left.
  - by apply inv_get.
  - apply thread_ok_get in E as [Hi E]. injection E as -> ->. by apply inv_resume.
  - apply thread_ok_load in E as (Hi & -> & ->). apply inv_resume; [done|exact Hc|].
    assert (Hk : thread_ok good (sy_now y) (mkThread id (Some t) (load_back id (Ok (truth t id)))))
      by (split; [done|]; right; right; by exists t).
    by destruct (truth t id).
  - apply thread_ok_load in E as (Hi & -> & ->). by apply inv_resume.
  - apply thread_ok_set in E as (_ & (r & -> & Hr) & Hset); [|done]. apply inv_resume; [done| |done]. by apply Hset.
  - apply thread_ok_set in E as (_ & (r & -> & Hr) & _); [|done]. by apply inv_resume.
  - split; cbn; [done|by apply map_Forall_delete|done].
  - split; cbn; [|done|done]. intros id b now' Hi Hn. rewrite Delete_spec by done.
    destruct (bool_decide _); [done|]. by apply Hc.
  - split; cbn; [|done|done]. intros id b now' Hi Hn. rewrite Set_spec by done.
    rewrite bool_decide_false; [by apply Hc|]. intros E. by apply (Hk id Hi).
Qed.

Lemma inv_steps good y y' : rtc (step good) y y' -> inv good y -> inv good y'.
Proof. induction 1; [done|]. eauto using step_inv. Qed.

(** Nobody waits and no value is cached. *)
Definition fresh_start (y : system) : Prop :=
  sy_threads y = ∅ /\ sy_answers y = [] /\
  forall id now', uuid_ok id -> sy_now y <= now' -> live now' (sy_cache y) (key id) = None.

Lemma inv_start good y : fresh_start y -> inv good y.
Proof.
  intros (Ht & Ha & Hc). split; [|by rewrite Ht; apply map_Forall_empty|by rewrite Ha; constructor].
  intros id b now' Hi Hn Hl. rewrite Hc in Hl by done. done.
Qed.

(** The key of [id] is deleted; only the answers from then on count. *)
Definition invalidated (id : uuid) (y : system) : system :=
  mkSystem (Delete (sy_now y) (key id) (sy_cache y)) (sy_now y) (sy_threads y) [].

Lemma inv_invalidated id t0 y : inv (fun _ _ => True) y -> uuid_ok id ->
  (forall n th t, sy_threads y !! n = Some th -> th_id th = id -> th_read th = Some t -> t0 <= t) ->
  inv (fun i t => i = id -> t0 <= t) (invalidated id y).
Proof.
  intros [Hc Ht _] Hid Hold. split; cbn; [| |constructor].
  - intros i b now' Hi Hn. rewrite Delete_spec by done. destruct (bool_decide (key i = key id)) eqn:E; [done|].
    intros Hl. destruct (Hc i b now' Hi Hn Hl) as (t & H1 & _ & H2). exists t. split_and!; [done| |done].
    intros ->. by rewrite bool_decide_true in E.
  - intros n th Hn. destruct (Ht n th Hn) as [Hi Hp]. split; [done|].
    destruct Hp as [?|[?|(t & H1 & H2 & _ & H3)]]; [by left|by right; left|right; right].
    exists t. split_and!; try done. intros <-. by eapply Hold.
Qed.
End system.

(** ** What the cache holds is read back *)

Definition identity_ok (e : IdentityCacheEntry) : Prop :=
  is_ascii (ie_PrincipalID e) /\ is_ascii (ie_OrgID e) /\ Forall is_ascii (default [] (ie_Roles e)).
Definition location_ok (l : RepoLocation) : Prop :=
  is_ascii (rl_ReplicaSetID l) /\ is_ascii (rl_HomeRegion l) /\ is_ascii (rl_ACLFingerprint l).

Lemma decode_miss_json {V} (body : list (string * jval) -> option V) : decode_versioned 1 body (Marshal miss_json) = Some None.
Proof.
  unfold decode_versioned. rewrite Unmarshal_marshal; [done| |by vm_compute].
  unfold miss_json, VInt. cbn [encodable fold_right fst snd]. split_and!; eauto; by repeat constructor.
Qed.

Lemma identity_Unmarshal e : identity_ok e -> Unmarshal (Marshal (identity_json e)) = Some (identity_json e).
Proof.
  intros (H1 & H2 & H3). apply Unmarshal_marshal.
  - unfold identity_json. cbn [encodable fold_right fst snd]. split_and!; try done; try (by repeat constructor).
    + unfold VInt. cbn. eauto.
    + destruct (ie_Roles e) as [l|]; [by apply encodable_strings|done].
  - unfold identity_json. destruct (ie_Roles e) as [l|]; [|by vm_compute].
    cbn [nesting fold_right fst snd VInt]. rewrite nesting_strings. by vm_compute.
Qed.

Lemma decode_identity_json e : identity_ok e ->
  decodeIdentity (Marshal (identity_json (set_identity_version e))) = Some (Some (set_identity_version e)).
Proof.
  destruct e as [v p o r]. intros He. unfold decodeIdentity, decode_versioned.
  rewrite identity_Unmarshal by (by destruct He as (? & ? & ?)).
  cbn [mbind option_bind identity_json struct_members set_identity_version ie_Version ie_PrincipalID ie_OrgID ie_Roles].
  rewrite !(decode_field_single dec_int 0 "v" (VInt identityVersion)) by first [reflexivity | done].
  rewrite dec_int_VInt by (vm_compute; split; discriminate). cbn [mbind option_bind].
  change (decode_field dec_bool false "_miss" _) with (Some false). cbn [mbind option_bind].
  change (negb (identityVersion =? identityVersion)) with false. cbv iota. unfold identity_body.
  rewrite !(decode_field_single dec_int 0 "v" (VInt identityVersion)) by first [reflexivity | done].
  rewrite dec_int_VInt by (vm_compute; split; discriminate). cbn [mbind option_bind].
  rewrite !(decode_field_single dec_string "" _ (VStr _)) by first [reflexivity | done]. cbn [mbind option_bind dec_string].
  destruct r as [l|]; [|done].
  rewrite (decode_field_single _ None "roles" (VArr (map VStr l))) by first [reflexivity | done].
  by rewrite dec_strings_map.
Qed.

Lemma location_Unmarshal l : location_ok l -> Unmarshal (Marshal (repo_location_json l)) = Some (repo_location_json l).
Proof.
  intros (H1 & H2 & H3). apply Unmarshal_marshal; [|by vm_compute]. unfold repo_location_json.
  cbn [encodable fold_right fst snd]. split_and!; try done; try (by repeat constructor). unfold VInt. cbn. eauto.
Qed.

Lemma decode_location_json l : location_ok l ->
  decodeRepoLocation (Marshal (repo_location_json (set_location_version l))) = Some (Some (set_location_version l)).
Proof.
  intros Hl. unfold decodeRepoLocation, decode_versioned.
  rewrite location_Unmarshal by (by destruct Hl as (? & ? & ?)).
  cbn [mbind option_bind repo_location_json struct_members set_location_version
    rl_Version rl_ReplicaSetID rl_HomeRegion rl_ACLFingerprint].
  rewrite !(decode_field_single dec_int 0 "v" (VInt repoLocationVersion)) by first [reflexivity | done].
  rewrite dec_int_VInt by (vm_compute; split; discriminate). cbn [mbind option_bind].
  change (decode_field dec_bool false "_miss" _) with (Some false). cbn [mbind option_bind].
  change (negb (repoLocationVersion =? repoLocationVersion)) with false. cbv iota. unfold repo_location_body.
  rewrite !(decode_field_single dec_int 0 "v" (VInt repoLocationVersion)) by first [reflexivity | done].
  rewrite dec_int_VInt by (vm_compute; split; discriminate). cbn [mbind option_bind].
  by rewrite !(decode_field_single dec_string "" _ (VStr _)) by first [reflexivity | done].
Qed.

Lemma IdentityKey_inj i j : uuid_ok i -> uuid_ok j -> IdentityKey i = IdentityKey j -> i = j.
Proof. intros Hi Hj E. apply uuid_String_inj; [done..|]. by apply (inj (String.append "identity:")). Qed.
Lemma RepoLocationKey_inj i j : uuid_ok i -> uuid_ok j -> RepoLocationKey i = RepoLocationKey j -> i = j.
Proof. intros Hi Hj E. apply uuid_String_inj; [done..|]. by apply (inj (String.append "repo:loc:")). Qed.

(** ** Identities are not stale for long *)
Section identities.
Context {S : Type} `{CacheLaws S} (truth : time -> uuid -> option IdentityCacheEntry) (d : duration).

(** The lookups of the system are those of [GetIdentity]. *)
Definition identity_step : (uuid -> time -> Prop) -> relation (system (S := S) (V := IdentityCacheEntry)) :=
  step decodeIdentity (fun e => Marshal (identity_json e)) set_identity_version identityMissBytes
    IdentityTTL IdentityNotFoundTTL IdentityKey truth d.
Definition any_read : uuid -> time -> Prop := fun _ _ => True.

Context (truth_ok : forall t id e, truth t id = Some e -> identity_ok e).

Lemma identity_inv good y y' : rtc (identity_step good) y y' ->
  inv decodeIdentity (fun e => Marshal (identity_json e)) set_identity_version identityMissBytes IdentityTTL IdentityNotFoundTTL
    IdentityKey truth d good y ->
  inv decodeIdentity (fun e => Marshal (identity_json e)) set_identity_version identityMissBytes IdentityTTL IdentityNotFoundTTL
    IdentityKey truth d good y'.
Proof.
  apply inv_steps; [exact IdentityKey_inj| |apply decode_miss_json|done..].
  intros t id v Hv. by apply decode_identity_json, (truth_ok t id).
Qed.
End identities.

(** The system runs [GetIdentity]. *)
Lemma GetIdentity_lookup id :
  GetIdentity id = lookup decodeIdentity (fun e => Marshal (identity_json e)) set_identity_version identityMissBytes
    IdentityTTL IdentityNotFoundTTL IdentityKey id.
Proof. reflexivity. Qed.

(** C22: However lookups, invalidations, evictions and failures interleave, an
    identity served at some time was true at most a minute, and the time [d] a
    request takes between its load and its write, before; a "not found" at
    most half a minute and [d]. *)
Theorem identity_staleness_bounded {S} `{CacheLaws S} truth d (y0 y : system) :
  (forall t id e, truth t id = Some e -> identity_ok e) ->
  fresh_start IdentityKey y0 -> rtc (identity_step truth d any_read) y0 y ->
  forall a, a ∈ sy_answers y ->
    match an_result a with
    | Ok e => exists t u, t <= an_time a <= t + d + IdentityTTL /\ truth t (an_id a) = Some u /\ e = set_identity_version u
    | Err ErrNotFound => exists t, t <= an_time a <= t + d + IdentityNotFoundTTL /\ truth t (an_id a) = None
    | Err _ => True
    end.
Proof.
  intros Hok Hf Hs a Ha. apply (identity_inv truth d Hok) in Hs; [|by apply inv_start].
  apply inv_answers in Hs. rewrite Forall_forall in Hs. apply Hs in Ha. unfold recent in Ha.
  destruct (an_result a) as [e|[]]; [|destruct Ha as (t & ? & _ & ?); by exists t|done|done].
  destruct Ha as (t & u & ? & _ & ? & ?). by exists t, u.
Qed.

(** Once the truth about a principal has settled and its key is deleted
    with no load from before under way, every answer about it from then on is
    the settled one, or an error. *)
Theorem invalidation_takes_effect {S} `{CacheLaws S} truth d (y0 y y' : system) id v t0 :
  (forall t i e, truth t i = Some e -> identity_ok e) -> uuid_ok id ->
  fresh_start IdentityKey y0 -> rtc (identity_step truth d any_read) y0 y ->
  (forall t, t0 <= t -> truth t id = v) ->
  (forall n th t, sy_threads y !! n = Some th -> th_id th = id -> th_read th = Some t -> t0 <= t) ->
  rtc (identity_step truth d (fun i t => i = id -> t0 <= t)) (invalidated IdentityKey id y) y' ->
  forall a, a ∈ sy_answers y' -> an_id a = id ->
    an_result a = match v with Some e => Ok (set_identity_version e) | None => Err ErrNotFound end \/
    an_result a = Err ErrCache \/ an_result a = Err ErrLoad.
Proof.
  intros Hok Hi Hf Hs Ht Hold Hs' a Ha <-.
  apply (identity_inv truth d Hok) in Hs; [|by apply inv_start].
  apply (identity_inv truth d Hok) in Hs'; [|by apply inv_invalidated].
  apply inv_answers in Hs'. rewrite Forall_forall in Hs'. apply Hs' in Ha. unfold recent in Ha.
  destruct (an_result a) as [e|[]]; [left|left|by right; left|by right; right].
  - destruct Ha as (t & u & _ & Hg & E & ->). rewrite <- (Ht t (Hg eq_refl)), E. done.
  - destruct Ha as (t & _ & Hg & E). rewrite <- (Ht t (Hg eq_refl)), E. done.
Qed.

(** ** One lookup at a time *)
Section alone.
Context {S V : Type} `{CacheLaws S}.

(** The clock, whether the cache answers, and what the loader answers. *)
Record surroundings := mkSurroundings { ev_now : time; ev_up : bool; ev_load : uuid -> result unit (option V) }.

Fixpoint exec {R} (e : surroundings) (p : prog V R) (c : S) : R * S :=
  match p with
  | Return r => (r, c)
  | CallGet key k =>
      if ev_up e then exec e (k (reply (Get (ev_now e) key c).1)) (Get (ev_now e) key c).2 else exec e (k Unavailable) c
  | CallSet key v ttl k => if ev_up e then exec e (k true) (Set_ (ev_now e) key v ttl c) else exec e (k false) c
  | CallDelete key k => if ev_up e then exec e (k true) (Delete (ev_now e) key c) else exec e (k false) c
  | Load key id k => exec e (k (ev_load e id)) c
  end.

Lemma exec_map_result {A B} (f : A -> B) e (p : prog V A) c :
  exec e (map_result f p) c = (f (exec e p c).1, (exec e p c).2).
Proof. revert c. induction p; intros c; cbn; try destruct (ev_up e); eauto. Qed.

Context (decode : string -> option (option V)) (encode : V -> string) (stamp : V -> V).
Context (missBytes : string) (TTL NotFoundTTL : duration) (key : string) (id : uuid).
Context (decode_miss : decode missBytes = Some None).

Notation get := (get_or_load decode encode stamp missBytes TTL NotFoundTTL key id).

(** A miss loads, and writes what it loaded. *)
Lemma exec_miss now load c v : live now c key = None ->
  (forall x, v = Some x -> decode (encode (stamp x)) = Some (Some (stamp x))) -> load id = Ok v ->
  let r := match v with Some x => Ok (stamp x) | None => Err ErrNotFound end in
  let ttl := match v with Some _ => TTL | None => NotFoundTTL end in
  (exec (mkSurroundings now true load) get c).1 = r /\
  forall now' load', now <= now' <= now + ttl ->
    (exec (mkSurroundings now' true load') get (exec (mkSurroundings now true load) get c).2).1 = r.
Proof.
  intros Hl Hd Hv. unfold get_or_load. cbn [exec ev_up ev_now]. rewrite Get_spec, Hl. cbn [reply exec ev_load].
  rewrite Hv. destruct v as [x|]; cbn [store_loaded exec ev_up ev_now fst snd]; (split; [done|]);
    intros now' load' Hn; rewrite Get_spec, Set_spec, bool_decide_true by (done || lia);
    (assert (After now' (Add now _) = false) as -> by (apply Z.ltb_ge; unfold Add; lia)); cbn [reply].
  - by rewrite Hd.
  - by rewrite decode_miss.
Qed.
End alone.

Arguments surroundings V : clear implicits.

Definition rows_ascii {P} (s : Store P) : Prop :=
  map_Forall (fun _ r => is_ascii (r_ReplicaSetID r) /\ is_ascii (r_HomeRegion r)) (repositories s).

(** On a cold cache the cached locator answers what the metadata locator
    answers, errors included; and it keeps giving that answer for as long as
    the entry lives, ten minutes for a location and half a minute for an
    unknown repository, even with the database gone. *)
Theorem CacheLocator_answers_like_metadata {S P} `{CacheLaws S} Parse repoID id (s : Store P) (c : S) now :
  (forall i, uuid_ok i -> Parse (uuid_String i) = Some i) -> Parse repoID = Some id -> uuid_ok id ->
  rows_ascii s -> live now c (RepoLocationKey id) = None ->
  let next := MetadataLocator_Resolve Parse true s in
  let '(r, c') := exec (mkSurroundings now true (location_loader next)) (CacheLocator_Resolve Parse repoID) c in
  r = next repoID /\
  forall now' load', now <= now' <= now + (if is_ok r then RepoLocationTTL else RepoLocationNotFoundTTL) ->
    (exec (mkSurroundings now' true load') (CacheLocator_Resolve Parse repoID) c').1 = r.
Proof.
  intros HP Hp Hid Hrows Hl next. unfold CacheLocator_Resolve. rewrite Hp, exec_map_result.
  set (v := match GetByID id s with
            | Some repo => Some (mkRepoLocation 0 (r_ReplicaSetID repo) (r_HomeRegion repo) "") | None => None end).
  assert (Hv : location_loader next id = Ok v).
  { unfold location_loader, next, MetadataLocator_Resolve. rewrite HP by done. unfold v. by destruct (GetByID id s). }
  assert (Hn : next repoID = located (match v with Some x => Ok (set_location_version x) | None => Err ErrNotFound end)).
  { unfold next, MetadataLocator_Resolve. rewrite Hp. unfold v. by destruct (GetByID id s). }
  assert (Hd : forall x, v = Some x ->
    decodeRepoLocation (Marshal (repo_location_json (set_location_version x))) = Some (Some (set_location_version x))).
  { intros x Hx. apply decode_location_json. unfold v in Hx. destruct (GetByID id s) as [repo|] eqn:Er; [|done].
    injection Hx as <-. destruct (Hrows _ _ Er). split_and!; try done. by constructor. }
  destruct (exec_miss decodeRepoLocation (fun l => Marshal (repo_location_json l)) set_location_version
    repoLocationMissBytes RepoLocationTTL RepoLocationNotFoundTTL (RepoLocationKey id) id (decode_miss_json _)
    now (location_loader next) c v Hl Hd Hv) as [H1 H2].
  fold (GetRepoLocation id) in H1, H2. split; [by rewrite H1|]. intros now' load' Hn'.
  rewrite exec_map_result. cbn [fst]. rewrite (H2 now' load'), H1; [done|].
  rewrite H1 in Hn'. by destruct v.
Qed.

(** ** Concrete schedules *)
Section schedules.
Context (truth : time -> uuid -> option IdentityCacheEntry) (d : duration) (ok : uuid -> time -> bool).

(** Let time pass, begin a lookup, let request [n] make its next call (a load
    reads at [t]), delete a key. *)
Inductive move := Tick (t : time) | Start (n : nat) (id : uuid) | Call (n : nat) (t : time) | Drop (key : string).

Notation sys := (system (S := MemoryStore) (V := IdentityCacheEntry)).

Definition do_call (n : nat) (t : time) (th : thread) (y : sys) : option sys :=
  let id := th_id th in let rd := th_read th in let c := sy_cache y in let now := sy_now y in
  match th_prog th with
  | CallGet key k => Some (resume n id rd (k (reply (Get now key c).1)) (Get now key c).2 y)
  | Load key i k => if (t <=? now) && ok i t then Some (resume n id (Some t) (k (Ok (truth t i))) c y) else None
  | CallSet key v ttl k =>
      match rd with
      | Some t => if now <=? t + d then Some (resume n id (Some t) (k true) (Set_ now key v ttl c) y) else None
      | None => None
      end
  | _ => None
  end.

Definition do_move (m : move) (y : sys) : option sys :=
  match m with
  | Tick t => if sy_now y <=? t then Some (mkSystem (sy_cache y) t (sy_threads y) (sy_answers y)) else None
  | Start n id =>
      if bool_decide (sy_threads y !! n = None) && (0 <=? id) && (id <? 2 ^ 128) then
        Some (resume n id None (GetIdentity id) (sy_cache y) y)
      else None
  | Call n t => match sy_threads y !! n with Some th => do_call n t th y | None => None end
  | Drop key => Some (with_cache (Delete (sy_now y) key (sy_cache y)) y)
  end.

Fixpoint do_moves (ms : list move) (y : sys) : option sys :=
  match ms with [] => Some y | m :: ms' => match do_move m y with Some y' => do_moves ms' y' | None => None end end.

Context (good : uuid -> time -> Prop) (good_ok : forall i t, ok i t = true -> good i t).

Lemma do_call_step n t th y y' : sy_threads y !! n = Some th -> do_call n t th y = Some y' ->
  identity_step truth d good y y'.
Proof.
  intros Hth H. destruct th as [id rd p]. unfold do_call in H. cbn [th_id th_read th_prog] in H.
  destruct p as [r|key k|key v ttl k|key k|key i k]; try done.
  - injection H as <-. exact (step_get _ _ _ _ _ _ _ _ _ good y n id rd key k Hth).
  - destruct rd as [t'|]; [|done]. destruct (_ <=? _) eqn:E; [|done]. injection H as <-.
    apply Z.leb_le in E. exact (step_set _ _ _ _ _ _ _ _ _ good y n id t' key v ttl k true Hth E).
  - destruct (_ && _) eqn:E; [|done]. injection H as <-. apply andb_true_iff in E as [E1%Z.leb_le E2].
    eapply step_load; [exact Hth|done|by apply good_ok].
Qed.

Lemma do_move_step m y y' : do_move m y = Some y' -> identity_step truth d good y y'.
Proof.
  destruct m as [t|n id|n t|key]; cbn; intros H.
  - destruct (_ <=? _) eqn:E; [|done]. injection H as <-. apply step_tick. lia.
  - destruct (_ && _) eqn:E; [|done]. injection H as <-. reflect_bools. apply step_start; [done|]. unfold uuid_ok. lia.
  - destruct (sy_threads y !! n) as [th|] eqn:E; [|done]. by eapply do_call_step.
  - injection H as <-. exact (step_delete _ _ _ _ _ _ _ _ _ good y key).
Qed.

Lemma do_moves_steps ms y y' : do_moves ms y = Some y' -> rtc (identity_step truth d good) y y'.
Proof.
  revert y. induction ms as [|m ms IH]; intros y H; cbn in H; [by injection H as <-|].
  destruct (do_move m y) as [y1|] eqn:E; [|done]. eapply rtc_l; [by eapply do_move_step|]. by apply IH.
Qed.
End schedules.

Definition cold : system (S := MemoryStore) (V := IdentityCacheEntry) := mkSystem NewMemoryStore 0 ∅ [].
Definition ann : IdentityCacheEntry := mkIdentityEntry 0 "ann" "acme" (Some ["admin"]).
(** Ann's account is closed at time 10. *)
Definition closed_at_10 (t : time) (id : uuid) : option IdentityCacheEntry :=
  if (id =? 7) && (t <? 10 * Second) then Some ann else None.
Definition everything : uuid -> time -> bool := fun _ _ => true.

Lemma cold_fresh key : fresh_start key cold.
Proof. split_and!; try done. Qed.
Lemma closed_at_10_ok t i e : closed_at_10 t i = Some e -> identity_ok e.
Proof. unfold closed_at_10. destruct (_ && _); [|done]. intros [= <-]. split_and!; repeat constructor. Qed.

Definition run_from (ok : uuid -> time -> bool) (y : system) (ms : list move) : system :=
  default y (do_moves closed_at_10 Second ok ms y).

Lemma run_from_steps ok good y ms : (forall i t, ok i t = true -> good i t) ->
  is_Some (do_moves closed_at_10 Second ok ms y) -> rtc (identity_step closed_at_10 Second good) y (run_from ok y ms).
Proof. intros Hg [y' E]. unfold run_from. rewrite E. by eapply do_moves_steps. Qed.

(** One lookup before the account is closed, one served from the cache 59
    seconds after. *)
Definition served_late : system := run_from everything cold
  [Start 0 7; Call 0 0; Tick (9 * Second); Call 0 (9 * Second); Call 0 0; Tick (69 * Second); Start 1 7; Call 1 0].

Lemma identity_staleness_bounded_witness :
  map (fun a => (an_time a, is_ok (an_result a))) (sy_answers served_late) = [(69 * Second, true); (9 * Second, true)] /\
  exists t u, t <= 69 * Second <= t + Second + IdentityTTL /\ closed_at_10 t 7 = Some u.
Proof.
  assert (E : exists a l, sy_answers served_late = a :: l /\ an_id a = 7 /\ an_time a = 69 * Second /\ is_ok (an_result a) = true)
    by (vm_compute; eauto 10).
  split; [vm_compute; reflexivity|]. destruct E as (a & l & E & Ei & Et & Er).
  assert (Hs : rtc (identity_step closed_at_10 Second any_read) cold served_late)
    by (apply run_from_steps; [done|vm_compute; eauto]).
  pose proof (identity_staleness_bounded closed_at_10 Second cold served_late closed_at_10_ok (cold_fresh _) Hs a) as H.
  rewrite E, Ei, Et in H. specialize (H ltac:(left)). destruct (an_result a) as [e|]; [|done].
  destruct H as (t & u & H1 & H2 & _). by exists t, u.
Defined.

(** The account is closed, the key is deleted, and the next lookup knows. *)
Definition before_closing : system := run_from everything cold
  [Start 0 7; Call 0 0; Call 0 0; Call 0 0; Tick (10 * Second)].
Definition after_closing : system :=
  run_from (fun _ t => 10 * Second <=? t) (invalidated IdentityKey 7 before_closing) [Start 1 7; Call 1 0; Call 1 (10 * Second); Call 1 0].

Lemma invalidation_takes_effect_witness :
  length (sy_answers after_closing) = 1%nat /\
  Forall (fun a => an_id a = 7 -> an_result a = Err ErrNotFound \/ an_result a = Err ErrCache \/ an_result a = Err ErrLoad)
    (sy_answers after_closing).
Proof.
  split; [vm_compute; reflexivity|]. apply Forall_forall.
  apply (invalidation_takes_effect closed_at_10 Second cold before_closing after_closing 7 None (10 * Second)).
  - exact closed_at_10_ok.
  - unfold uuid_ok. lia.
  - apply cold_fresh.
  - apply run_from_steps; [done|vm_compute; eauto].
  - intros t Ht. unfold closed_at_10. destruct (Z.ltb_spec t (10 * Second)); [lia|by rewrite andb_false_r].
  - intros n th t Hn. assert (E : sy_threads before_closing = ∅) by (vm_compute; reflexivity). by rewrite E in Hn.
  - apply run_from_steps; [|vm_compute; eauto]. intros i t Ht _. by apply Z.leb_le.
Defined.

(** A lookup that loads before the account is closed and writes after the key
    was deleted undoes the invalidation: the closed account is served from the
    cache for another minute. *)
Lemma invalidation_race :
  exists y, rtc (identity_step closed_at_10 Second any_read) cold y /\
    exists a l, sy_answers y = a :: l /\ an_time a = 70 * Second /\ is_ok (an_result a) = true.
Proof.
  exists (run_from everything cold
    [Start 0 7; Call 0 0; Tick (10 * Second - 1); Call 0 (10 * Second - 1); Tick (10 * Second); Drop (IdentityKey 7); Call 0 0;
     Tick (70 * Second); Start 1 7; Call 1 0]).
  split; [apply run_from_steps; [done|vm_compute; eauto]|vm_compute; eauto 10].
Qed.

Definition sample_location_store : Store unit := mkStore ∅ ∅
  {[ 5 := mkRepository 5 1 "" "" 0 "" "" "rs-1" "us-west-2" 0 0 ]} ∅ ∅ ∅ [].

Lemma CacheLocator_answers_like_metadata_witness :
  let id := "00000000-0000-0000-0000-000000000005" in
  let '(r, c) := exec (mkSurroundings 0 true
      (location_loader (MetadataLocator_Resolve canonical_Parse true sample_location_store)))
    (CacheLocator_Resolve canonical_Parse id) NewMemoryStore in
  r = Ok (mkAddr "rs-1" "us-west-2" "rs-1:8075") /\
  (exec (mkSurroundings (599 * Second) true (fun _ => Err tt)) (CacheLocator_Resolve canonical_Parse id) c).1 = r.
Proof.
  cbv zeta.
  pose proof (CacheLocator_answers_like_metadata canonical_Parse "00000000-0000-0000-0000-000000000005" 5
    sample_location_store NewMemoryStore 0 canonical_Parse_String ltac:(vm_compute; reflexivity)
    ltac:(unfold uuid_ok; lia) ltac:(intros i r Hr; cbn [repositories sample_location_store] in Hr; apply lookup_singleton_Some in Hr as [<- <-]; split; repeat constructor)
    ltac:(reflexivity)) as H.
  cbv zeta in H. destruct (exec _ _ NewMemoryStore) as [r c] eqn:E. destruct H as [-> H].
  split; [vm_compute; reflexivity|]. apply H. vm_compute. split; discriminate.
Defined.
