(* ===== verification/Invalidator.v ===== *)
(** * The identity cache invalidator

    [plane/application/identity-cache-invalidator] (dedupe.go, handlers.go,
    consumer.go, metrics.go) between the Kafka topic of identity events and
    the cache of [ReadThrough], with the wire format of
    [plane/data/kafka/envelope.go] and the producer that writes it
    ([plane/data/outbox/producer_kafka.go]).  The Kafka reader is a class;
    [uuid.Parse] is an argument. *)

From S2P Require Import Prelude GoStd GoFmt GoTime Sha256 Json JsonDecode TimeText Uuid Outbox Actions CacheStore MetadataStore Identity ReadThrough.

#[local] Arguments uuid_String : simpl never.
#[local] Arguments Marshal : simpl never.
#[local] Arguments Unmarshal : simpl never.

(** ** The wire format *)

(** A [json.RawMessage] is written as the value its text denotes; a nil one is
    null. *)
Definition raw_value (raw : string) : option jval := if bool_decide (raw = "") then Some VNull else Unmarshal raw.

(** [EventEnvelope.MarshalJSON]. *)
Definition envelope_json (e : EventEnvelope) : option jval :=
  payload ← raw_value (env_Payload e);
  occurred ← marshal_time (env_OccurredAt e);
  published ← marshal_time (env_PublishedAt e);
  Some (VObj [("event_id", VStr (env_EventID e)); ("aggregate_type", VStr (env_AggregateType e));
    ("aggregate_id", VStr (env_AggregateID e)); ("event_type", VStr (env_EventType e));
    ("schema_version", VStr (env_SchemaVersion e)); ("payload", payload); ("occurred_at", occurred);
    ("published_at", published); ("principal_type", VStr (env_PrincipalType e)); ("rate_bucket", VStr (env_RateBucket e))]).

(** What a consumer reads; a payload that is not there is [None]. *)
Record wire := mkWire {
  w_EventID : string; w_AggregateType : string; w_AggregateID : string; w_EventType : string;
  w_SchemaVersion : string; w_Payload : option jval; w_OccurredAt : time; w_PublishedAt : time;
  w_PrincipalType : string; w_RateBucket : string }.

(** The raw value of a member: null is kept as such. *)
Definition raw_field (field : string) (ms : list (string * jval)) : option jval := last (field_values field ms).

Definition UnmarshalEnvelope (data : string) : option wire :=
  raw ← Unmarshal data; ms ← struct_members raw;
  id ← decode_field dec_string "" "event_id" ms;
  at_ ← decode_field dec_string "" "aggregate_type" ms;
  ai ← decode_field dec_string "" "aggregate_id" ms;
  et ← decode_field dec_string "" "event_type" ms;
  sv ← decode_field dec_string "" "schema_version" ms;
  oc ← decode_field dec_time zero_time "occurred_at" ms;
  pu ← decode_field dec_time zero_time "published_at" ms;
  pt ← decode_field dec_string "" "principal_type" ms;
  rb ← decode_field dec_string "" "rate_bucket" ms;
  Some (mkWire id at_ ai et sv (raw_field "payload" ms) oc pu pt rb).

(** ** The producer *)
Section kafka_producer.
Context {B : Type} (WriteMessages : string -> list (list ascii * string) -> B -> bool * B).

(** Key and value of a message; [None] when the envelope cannot be encoded. *)
Definition kafka_envelope (now : time) (row : OutboxRow) : EventEnvelope :=
  mkEnvelope (uuid_String (EventID row)) (AggregateType row) (uuid_String (AggregateID row)) (EventType row) "v1"
    (Payload row) (CreatedAt row) now "" "".
Definition kafka_message (now : time) (row : OutboxRow) : option (list ascii * string) :=
  v ← envelope_json (kafka_envelope now row); Some (be_bytes 16 (AggregateID row), Marshal v).

Definition kafkaWriter_PublishBatch (now : time) (topic : string) (batch : list OutboxRow) (b : B) : bool * B :=
  match mapM (kafka_message now) batch with
  | None => (false, b)
  | Some msgs => WriteMessages topic msgs b
  end.
End kafka_producer.

(** ** The payloads that revoke

    Those of events.go that name affected principals. *)
Definition VUuids (l : list uuid) : jval := VArr (map (fun u => VStr (uuid_String u)) l).
Definition VStrings (l : list string) : jval := VArr (map VStr l).

Definition revocation_json (p : identity_payload) : option jval :=
  match p with
  | UserDisabled p => Some (VObj [("user_id", VStr (uuid_String (ud_UserID p))); ("reason", VStr (ud_Reason p));
      ("affected_principal_ids", VUuids (ud_AffectedPrincipalIDs p)); ("disabled_at", VTime (ud_DisabledAt p));
      ("_envelope_version", VInt (ud_EnvelopeVersion p))])
  | AgentRevoked p => Some (VObj [("agent_id", VStr (uuid_String (ar_AgentID p)));
      ("parent_user_id", VStr (uuid_String (ar_ParentUserID p))); ("reason", VStr (ar_Reason p));
      ("affected_principal_ids", VUuids (ar_AffectedPrincipalIDs p)); ("revoked_at", VTime (ar_RevokedAt p));
      ("_envelope_version", VInt (ar_EnvelopeVersion p))])
  | PrincipalPermissionsChanged p => Some (VObj [("agent_id", VStr (uuid_String (pc_AgentID p)));
      ("old_scope", VStrings (pc_OldScope p)); ("new_scope", VStrings (pc_NewScope p));
      ("affected_principal_ids", VUuids (pc_AffectedPrincipalIDs p)); ("changed_at", VTime (pc_ChangedAt p));
      ("_envelope_version", VInt (pc_EnvelopeVersion p))])
  | OrgMemberRemoved p => Some (VObj [("org_id", VStr (uuid_String (mr_OrgID p)));
      ("user_id", VStr (uuid_String (mr_UserID p))); ("affected_principal_ids", VUuids (mr_AffectedPrincipalIDs p));
      ("removed_at", VTime (mr_RemovedAt p)); ("_envelope_version", VInt (mr_EnvelopeVersion p))])
  | _ => None
  end.

(** ** Metrics *)

Definition ResultOK : string := "ok".
Definition ResultAlreadyProcessed : string := "already_processed".
Definition ResultUnknownEventType : string := "unknown_event_type".
Definition ResultHandlerError : string := "handler_error".
Definition ResultCacheError : string := "cache_error".
Definition ResultEnvelopeDecode : string := "envelope_decode_failed".

Record Metrics := mkMetrics {
  invalidations : gmap (string * string) Z; dlq : gmap (string * string) Z; consumerLagSec : Z; oldestEventSec : Z }.
Definition NewMetrics : Metrics := mkMetrics ∅ ∅ 0 0.

(** A counter is a [uint64]. *)
Definition bump (k : string * string) (m : gmap (string * string) Z) : gmap (string * string) Z :=
  <[k := (default 0 (m !! k) + 1) mod 2 ^ 64]> m.
Definition IncInvalidation (eventType result : string) (m : Metrics) : Metrics :=
  mkMetrics (bump (eventType, result) (invalidations m)) (dlq m) (consumerLagSec m) (oldestEventSec m).
Definition IncDLQ (eventType reason : string) (m : Metrics) : Metrics :=
  mkMetrics (invalidations m) (bump (eventType, reason) (dlq m)) (consumerLagSec m) (oldestEventSec m).
Definition SetConsumerLagSeconds (v : Z) (m : Metrics) : Metrics := mkMetrics (invalidations m) (dlq m) v (oldestEventSec m).
Definition SetOldestEventSeconds (v : Z) (m : Metrics) : Metrics := mkMetrics (invalidations m) (dlq m) (consumerLagSec m) v.
Definition InvalidationCount (eventType result : string) (m : Metrics) : Z :=
  default 0 (invalidations m !! (eventType, result)).

(** ** Handlers *)
Section handlers.
Context (Parse : string -> option uuid).

(** Null in an array leaves the zero UUID. *)
Definition dec_uuid (v : jval) : option uuid :=
  match v with VStr s => Parse s | VNull => Some uuid_Nil | _ => None end.
Definition dec_uuids (v : jval) : option (list uuid) := match v with VArr l => mapM dec_uuid l | _ => None end.

(** [affectedPrincipalsHandler.Affected]; a missing payload is no JSON text. *)
Definition Affected (env : wire) : option (list uuid) :=
  payload ← w_Payload env; ms ← struct_members payload;
  decode_field dec_uuids [] "affected_principal_ids" ms.

Definition EventUserDeleted : string := "user.deleted".
Definition EventAgentDeleted : string := "agent.deleted".

Definition EventHandler : Type := wire -> option (list uuid).
Definition DefaultHandlers : gmap string EventHandler := list_to_map (map (fun et => (et, Affected))
  [EventUserDisabled; EventAgentRevoked; EventPrincipalPermissionsChanged; EventOrgMemberRemoved;
   EventUserDeleted; EventAgentDeleted]).
End handlers.

(** ** Deduplication *)

Definition DedupeTTL : duration := 24 * Hour.
Definition dedupeKey (eventID : string) : string := "identity:invalidator:dedupe:" +:+ eventID.

(** The answer [Err tt] is "try again". *)
Record world (S : Type) := mkWorld { w_cache : S; w_metrics : Metrics; w_calls : nat -> cache_call }.
Arguments mkWorld {S}. Arguments w_cache {S}. Arguments w_metrics {S}. Arguments w_calls {S}.

Record RawMessage := mkMessage { Topic : string; Partition : Z; Offset : Z; Key : string; Value : string }.

Section consumer.
Context {S : Type} `{CacheStore S} (handlers : gmap string EventHandler).

Notation W := (world S).

Definition cache_get (key : string) : action unit W (option string) := fun w =>
  let call := w_calls w 0%nat in
  let w' c := mkWorld c (w_metrics w) (fun n => w_calls w (Datatypes.S n)) in
  match c_outcome call with
  | Works => let '(r, c) := Get (c_now call) key (w_cache w) in
             (w' c, Ok (match r with Ok v => Some v | Err _ => None end))
  | Fails _ => (w' (w_cache w), Err tt)
  end.
Definition cache_write (f : time -> S -> S) : action unit W unit := fun w =>
  let call := w_calls w 0%nat in
  let w' c := mkWorld c (w_metrics w) (fun n => w_calls w (Datatypes.S n)) in
  match c_outcome call with
  | Works => (w' (f (c_now call) (w_cache w)), Ok tt)
  | Fails executed => (w' (if executed : bool then f (c_now call) (w_cache w) else w_cache w), Err tt)
  end.
Definition cache_delete (key : string) : action unit W unit := cache_write (fun now => Delete now key).

(** [cacheDeduper]. *)
Definition Seen (eventID : string) : action unit W bool :=
  let! v := cache_get (dedupeKey eventID) in ret (bool_decide (is_Some v)).
Definition Mark (eventID : string) : action unit W unit :=
  cache_write (fun now => Set_ now (dedupeKey eventID) "1" DedupeTTL).

Definition count (f : Metrics -> Metrics) : action unit W unit := fun w =>
  (mkWorld (w_cache w) (f (w_metrics w)) (w_calls w), Ok tt).
(** A cache error is counted and the message tried again. *)
Definition counting {A} (eventType : string) (m : action unit W A) : action unit W A := fun w =>
  match m w with
  | (w', Ok a) => (w', Ok a)
  | (w', Err _) => (mkWorld (w_cache w') (IncInvalidation eventType ResultCacheError (w_metrics w')) (w_calls w'), Err tt)
  end.

Fixpoint delete_all (eventType : string) (affected : list uuid) : action unit W unit :=
  match affected with
  | [] => ret tt
  | pid :: rest =>
      let! _ := counting eventType (cache_delete (IdentityKey pid)) in delete_all eventType rest
  end.

Definition processOnce (msg : RawMessage) : action unit W unit :=
  match UnmarshalEnvelope (Value msg) with
  | None => count (fun m => IncInvalidation "" ResultEnvelopeDecode (IncDLQ "" ResultEnvelopeDecode m))
  | Some env =>
      let et := w_EventType env in
      let! seen := counting et (Seen (w_EventID env)) in
      if seen : bool then count (IncInvalidation et ResultAlreadyProcessed)
      else
        match handlers !! et with
        | None => count (IncInvalidation et ResultUnknownEventType)
        | Some handler =>
            match handler env with
            | None => count (IncInvalidation et ResultHandlerError)
            | Some affected =>
                let! _ := delete_all et affected in
                let! _ := counting et (Mark (w_EventID env)) in
                count (IncInvalidation et ResultOK)
            end
        end
  end.
End consumer.

(** ** The loop *)

Inductive fetch_error := ContextDone | FetchFailed.

Class MessageReader (R : Type) := {
  FetchMessage : R -> R * result fetch_error RawMessage;
  CommitMessages : RawMessage -> R -> R * bool;
  Close : R -> R }.

Inductive run_end := RunCancelled | RunFetchFailed | RunCommitFailed.

Section run.
Context {R S : Type} `{MessageReader R} `{CacheStore S} (handlers : gmap string EventHandler).

(** [None]: still running after [fuel] messages. *)
Fixpoint Run_loop (fuel : nat) (r : R) (w : world S) : R * world S * option run_end :=
  match fuel with
  | O => (r, w, None)
  | Datatypes.S fuel' =>
      match FetchMessage r with
      | (r, Err ContextDone) => (Close r, w, Some RunCancelled)
      | (r, Err FetchFailed) => (Close r, w, Some RunFetchFailed)
      | (r, Ok msg) =>
          match processOnce handlers msg w with
          | (w, Err _) => Run_loop fuel' r w
          | (w, Ok _) =>
              match CommitMessages msg r with
              | (r, false) => (Close r, w, Some RunCommitFailed)
              | (r, true) => Run_loop fuel' r w
              end
          end
      end
  end.
End run.

(** ** What one message does *)

Lemma uuid_String_head u : exists z rest, 0 <= z < 16 /\ s2l (uuid_String u) = hex_digit z :: rest.
Proof.
  unfold uuid_String. cbv zeta. rewrite s2l_l2s. cbn [be_bytes]. rewrite hex_of_bytes_cons.
  pose proof (code_digits (chr (Z.shiftr u (8 * Z.of_nat 15) mod 256))) as [H _]. eexists _, _. split; [exact H|].
  cbn [take app]. reflexivity.
Qed.

Lemma dedupeKey_not_identity id u : dedupeKey id <> IdentityKey u.
Proof.
  intros E. unfold dedupeKey, IdentityKey in E. apply (f_equal s2l) in E. rewrite !s2l_app in E.
  destruct (uuid_String_head u) as (z & rest & Hz & Hu). rewrite Hu in E. injection E as E _.
  apply (f_equal code) in E. change (code "i") with 105 in E. unfold hex_digit in E.
  destruct (Z.ltb_spec z 10); rewrite code_chr in E; lia.
Qed.
Lemma dedupeKey_inj i j : dedupeKey i = dedupeKey j -> i = j.
Proof. apply (inj (String.append "identity:invalidator:dedupe:")). Qed.

Section effects.
Context {S : Type} `{CacheLaws S} (handlers : gmap string EventHandler).
Notation W := (world S).

(** The clock of the cache does not go back. *)
Definition mono (w : W) : Prop := forall n, c_now (w_calls w n) <= c_now (w_calls w (Datatypes.S n)).
Definition now (w : W) : time := c_now (w_calls w 0%nat).
(** A key that is not there, from the next call on. *)
Definition dead (key : string) (w : W) : Prop := forall t, now w <= t -> live t (w_cache w) key = None.
Definition marked (id : string) (w : W) : Prop := exists t, now w <= t /\ is_Some (live t (w_cache w) (dedupeKey id)).

(** The identities in [D] are gone from the cache, and only events in [M] are
    marked as processed. *)
Definition holds (D : uuid -> Prop) (M : string -> Prop) (w : W) : Prop :=
  mono w /\ (forall p, D p -> dead (IdentityKey p) w) /\ (forall id, marked id w -> M id).

Lemma holds_metrics D M w w1 : holds D M w1 -> w_cache w = w_cache w1 -> w_calls w = w_calls w1 -> holds D M w.
Proof. unfold holds, mono, dead, marked, now. by intros H1 -> ->. Qed.

(** The next call has been made and left the cache [c]. *)
Definition after_call (c : S) (w : W) : W := mkWorld c (w_metrics w) (fun n => w_calls w (Datatypes.S n)).

Lemma holds_after D M (D' : uuid -> Prop) (M' : string -> Prop) c w : holds D M w ->
  (forall p, D' p -> dead (IdentityKey p) w -> forall t, now w <= t -> live t c (IdentityKey p) = None) ->
  (forall p, D' p -> D p \/ forall t, now w <= t -> live t c (IdentityKey p) = None) ->
  (forall id t, now w <= t -> is_Some (live t c (dedupeKey id)) -> M' id) ->
  holds D' M' (after_call c w).
Proof.
  intros (Hm & Hd & _) H1 H2 H3. unfold holds, dead, marked, now in *. cbn.
  pose proof (Hm 0%nat) as Hc0. split_and!.
  - intros n. apply (Hm (Datatypes.S n)).
  - intros p Hp t Ht. destruct (H2 p Hp) as [HD|HD]; [|apply HD; lia]. eapply H1; [done|by apply Hd|lia].
  - intros id (t & Ht & Hl). apply (H3 id t); [lia|done].
Qed.

Lemma holds_same D M c w : holds D M w -> (forall t k, now w <= t -> live t c k = live t (w_cache w) k) ->
  holds D M (after_call c w).
Proof.
  intros Hw Hc. eapply holds_after; [exact Hw| |by left|].
  - intros p _ Hd t Ht. rewrite Hc by done. by apply Hd.
  - intros id t Ht. rewrite Hc by done. intros Hl. destruct Hw as (_ & _ & HM). apply HM. by exists t.
Qed.

Lemma holds_deleted D M pid w : holds D M w ->
  holds (fun p => D p \/ p = pid) M (after_call (Delete (now w) (IdentityKey pid) (w_cache w)) w).
Proof.
  intros Hw. pose proof Hw as (_ & Hd & HM). eapply holds_after; [exact Hw| | |].
  - intros p _ Hp t Ht. rewrite Delete_spec by done. destruct (bool_decide _); [done|]. by apply Hp.
  - intros p [Hp| ->]; [by left|right]. intros t Ht. rewrite Delete_spec by done. by rewrite bool_decide_true.
  - intros id t Ht. rewrite Delete_spec by done. rewrite bool_decide_false by apply dedupeKey_not_identity.
    intros Hl. apply HM. by exists t.
Qed.

Lemma holds_marked D M id w : holds D M w ->
  holds D (fun i => M i \/ i = id) (after_call (Set_ (now w) (dedupeKey id) "1" DedupeTTL (w_cache w)) w).
Proof.
  intros Hw. pose proof Hw as (_ & Hd & HM). eapply holds_after; [exact Hw| |by left|].
  - intros p _ Hp t Ht. rewrite Set_spec by done. rewrite bool_decide_false by (by intros E; eapply dedupeKey_not_identity).
    by apply Hp.
  - intros i t Ht. rewrite Set_spec by done. destruct (bool_decide _) eqn:E.
    + intros _. right. by apply bool_decide_eq_true, dedupeKey_inj in E.
    + intros Hl. left. apply HM. by exists t.
Qed.

Lemma holds_weaken (D D' : uuid -> Prop) (M M' : string -> Prop) w : holds D M w -> (forall p, D' p -> D p) -> (forall i, M i -> M' i) -> holds D' M' w.
Proof. intros (H1 & H2 & H3) HD HM. split_and!; eauto. Qed.

(** The calls, with the error counter. *)
Lemma Seen_spec D M et id w w' r : holds D M w -> counting et (Seen id) w = (w', r) ->
  holds D M w' /\ (r = Ok true -> M id).
Proof.
  intros Hw. unfold counting, Seen, bind, cache_get. destruct (c_outcome _) as [|b].
  - fold (now w). rewrite (surjective_pairing (Get (now w) (dedupeKey id) (w_cache w))). cbn [ret]. rewrite Get_spec.
    intros [= <- <-]. split; [apply holds_same; [done|]; intros t k; apply Get_frame|].
    intros [= Ht]. apply bool_decide_eq_true in Ht. destruct Hw as (_ & _ & HM). apply HM.
    exists (now w). split; [done|]. by destruct (live _ _ _); [|destruct Ht].
  - intros [= <- <-]. split; [|done]. eapply holds_metrics; [by apply (holds_same D M (w_cache w))|done|done].
Qed.

Lemma delete_spec D M et pid w w' r : holds D M w -> counting et (cache_delete (IdentityKey pid)) w = (w', r) ->
  holds D M w' /\ (r = Ok tt -> holds (fun p => D p \/ p = pid) M w').
Proof.
  intros Hw. unfold counting, cache_delete, cache_write. destruct (c_outcome _) as [|b].
  - intros [= <- <-]. split; [|intros _; by apply holds_deleted].
    eapply holds_weaken; [by apply holds_deleted|by left|done].
  - intros [= <- <-]. split; [|done]. eapply holds_metrics; [|done|done]. destruct b.
    + eapply holds_weaken; [by apply (holds_deleted D M pid)|by left|done].
    + by apply (holds_same D M (w_cache w)).
Qed.

Lemma Mark_spec D M et id w w' r : holds D M w -> counting et (Mark id) w = (w', r) ->
  holds D (fun i => M i \/ i = id) w'.
Proof.
  intros Hw. unfold counting, Mark, cache_write. destruct (c_outcome _) as [|[]]; intros [= <- <-].
  - by apply holds_marked.
  - eapply holds_metrics; [by apply (holds_marked D M id)|done|done].
  - eapply holds_metrics; [|done|done]. eapply holds_weaken; [by apply (holds_same D M (w_cache w))|done|by left].
Qed.

Lemma delete_all_spec D M et ps w w' r : holds D M w -> delete_all et ps w = (w', r) ->
  holds D M w' /\ (r = Ok tt -> holds (fun p => D p \/ p ∈ ps) M w').
Proof.
  revert D w. induction ps as [|p ps IH]; intros D w Hw; cbn [delete_all].
  - intros [= <- <-]. split; [done|]. intros _. eapply holds_weaken; [done| |done].
    intros p [?|Hp]; [done|by apply elem_of_nil in Hp].
  - unfold bind. destruct (counting et _ w) as [w1 r1] eqn:E. destruct (delete_spec _ _ _ _ _ _ _ Hw E) as [H1 H2].
    destruct r1 as [[]|e]; [|by intros [= <- <-]]. intros E'. specialize (H2 eq_refl).
    destruct (IH _ _ H2 E') as [H3 H4]. split; [eapply holds_weaken; [done|by left|done]|].
    intros Hr. eapply holds_weaken; [by apply H4| |done]. intros q Hq. rewrite elem_of_cons in Hq. tauto.
Qed.

(** The event id and the principals of a message that revokes. *)
Definition revokes (msg : RawMessage) : option (string * list uuid) :=
  env ← UnmarshalEnvelope (Value msg);
  handler ← handlers !! w_EventType env;
  affected ← handler env;
  Some (w_EventID env, affected).

(** Whatever fails, a message leaves revoked identities out of the cache; it
    is marked only after all of its own are gone, and it succeeds only marked
    or nothing to do. *)
Lemma processOnce_spec D M msg w w' r : holds D M w -> processOnce handlers msg w = (w', r) ->
  match revokes msg with
  | None => holds D M w'
  | Some (id, ps) => holds D M w' /\ (r = Ok tt -> M id) \/ holds (fun p => D p \/ p ∈ ps) (fun i => M i \/ i = id) w'
  end.
Proof.
  intros Hw. unfold processOnce, revokes. destruct (UnmarshalEnvelope (Value msg)) as [env|]; cbn [mbind option_bind];
    [|intros [= <- <-]; by eapply holds_metrics].
  unfold bind at 1. destruct (counting _ (Seen _) w) as [w1 r1] eqn:E1.
  destruct (Seen_spec _ _ _ _ _ _ _ Hw E1) as [H1 Hseen].
  destruct r1 as [[]|[]].
  - intros [= <- <-]. destruct (handlers !! _) as [h|]; cbn; [|done]. destruct (h env) as [ps|]; cbn; [|done].
    left. split; [done|]. auto.
  - destruct (handlers !! _) as [h|]; cbn [mbind option_bind]; [|intros [= <- <-]; by eapply holds_metrics].
    destruct (h env) as [ps|]; cbn [mbind option_bind]; [|intros [= <- <-]; by eapply holds_metrics].
    unfold bind. destruct (delete_all _ ps w1) as [w2 r2] eqn:E2. destruct (delete_all_spec _ _ _ _ _ _ _ H1 E2) as [H2 H3].
    destruct r2 as [[]|[]]; [|intros [= <- <-]; by left]. specialize (H3 eq_refl).
    destruct (counting _ (Mark _) w2) as [w3 r3] eqn:E3. pose proof (Mark_spec _ _ _ _ _ _ _ H3 E3) as H4.
    destruct r3 as [[]|[]]; intros [= <- <-]; right; [by eapply holds_metrics|done].
  - intros [= <- <-]. destruct (handlers !! _) as [h|]; cbn; [|done]. destruct (h env) as [ps|]; cbn; [|done]. by left.
Qed.
End effects.

(** ** kafka-go's reader of one partition

    What becomes of the next call to the broker. *)
Inductive broker := Answers | Interrupted | Down.

Record log_reader := mkReader {
  rd_log : list RawMessage; rd_position : nat; rd_committed : nat; rd_calls : nat -> broker }.

Definition moved (position committed : nat) (r : log_reader) : log_reader :=
  mkReader (rd_log r) position committed (fun n => rd_calls r (S n)).

(** The next message, whether the last one was committed or not; past the end
    the call waits until the context is done. *)
Definition fetch_next (r : log_reader) : log_reader * result fetch_error RawMessage :=
  match rd_calls r 0%nat with
  | Interrupted => (moved (rd_position r) (rd_committed r) r, Err ContextDone)
  | Down => (moved (rd_position r) (rd_committed r) r, Err FetchFailed)
  | Answers =>
      match rd_log r !! rd_position r with
      | Some msg => (moved (S (rd_position r)) (rd_committed r) r, Ok msg)
      | None => (moved (rd_position r) (rd_committed r) r, Err ContextDone)
      end
  end.
(** A commit covers everything below its offset. *)
Definition commit_offset (msg : RawMessage) (r : log_reader) : log_reader * bool :=
  match rd_calls r 0%nat with
  | Answers => (moved (rd_position r) (S (Z.to_nat (Offset msg))) r, true)
  | _ => (moved (rd_position r) (rd_committed r) r, false)
  end.

Definition kafka_reader : MessageReader log_reader := {|
  FetchMessage := fetch_next; CommitMessages := commit_offset; Close r := r |}.

(** A reader that keeps the calls it has answered with a message and those it
    was asked to commit, the newest first. *)
Inductive reader_call := Fetched (msg : RawMessage) | CommitAsked (msg : RawMessage).
#[export] Instance RawMessage_eq_dec : EqDecision RawMessage.
Proof. solve_decision. Defined.
#[export] Instance reader_call_eq_dec : EqDecision reader_call.
Proof. solve_decision. Defined.
Definition recording {R} (M : MessageReader R) : MessageReader (R * list reader_call) := {|
  FetchMessage rc := let '(r, res) := FetchMessage rc.1 in (r, match res with Ok msg => Fetched msg :: rc.2 | Err _ => rc.2 end, res);
  CommitMessages msg rc := let '(r, ok) := CommitMessages msg rc.1 in (r, CommitAsked msg :: rc.2, ok);
  Close rc := (Close rc.1, rc.2) |}.
(** The messages after which the loop went on without asking for a commit. *)
Fixpoint passed_over (l : list reader_call) : list RawMessage :=
  match l with
  | [] => []
  | CommitAsked _ :: l' => match l' with Fetched _ :: l'' => passed_over l'' | _ => passed_over l' end
  | Fetched msg :: l' => msg :: passed_over l'
  end.

Definition log_ok (l : list RawMessage) : Prop := forall i msg, l !! i = Some msg -> Offset msg = Z.of_nat i.

Section loop.
Context {S : Type} `{CacheLaws S} (handlers : gmap string EventHandler) (log : list RawMessage).
Notation W := (world S).

(** The identities that the messages of [done] revoke are gone; marks tell the
    truth. *)
Definition handled (done : RawMessage -> Prop) (w : W) : Prop :=
  exists D M, holds D M w /\
    (forall msg id ps p, msg ∈ log -> revokes handlers msg = Some (id, ps) -> M id -> p ∈ ps -> D p) /\
    (forall msg id ps p, done msg -> revokes handlers msg = Some (id, ps) -> p ∈ ps -> D p).

(** An event id stands for one event. *)
Definition ids_unique : Prop := forall m1 m2 id ps1 ps2, m1 ∈ log -> m2 ∈ log ->
  revokes handlers m1 = Some (id, ps1) -> revokes handlers m2 = Some (id, ps2) -> ps1 = ps2.

Lemma handled_step (done : RawMessage -> Prop) msg w w' r : ids_unique -> handled done w -> msg ∈ log ->
  processOnce handlers msg w = (w', r) -> handled (fun m => done m \/ r = Ok tt /\ m = msg) w'.
Proof.
  intros Hu (D & M & Hw & HM & Hn) Hin E. pose proof (processOnce_spec handlers D M msg w w' r Hw E) as Hs.
  destruct (revokes handlers msg) as [[id ps]|] eqn:Er.
  - destruct Hs as [[H1 H2]|H1].
    + exists D, M. split_and!; [done..|]. intros m id' ps' p [Hd|[Hr ->]] Hrev Hp; [by eapply Hn|].
      rewrite Er in Hrev. injection Hrev as <- <-. eapply HM; [exact Hin|exact Er|by apply H2|done].
    + eexists _, _. split; [exact H1|]. split.
      * intros m id' ps' p Hm Hr [Hi| ->] Hp; [left; by eapply HM|right]. by rewrite (Hu _ _ _ _ _ Hin Hm Er Hr).
      * intros m id' ps' p [Hd|[_ ->]] Hrev Hp; [left; by eapply Hn|right]. rewrite Er in Hrev. by injection Hrev as <- <-.
  - exists D, M. split_and!; [done..|]. intros m id' ps' p [Hd|[_ ->]] Hrev Hp; [by eapply Hn|congruence].
Qed.

Lemma processOnce_works msg (w : W) : (forall n, c_outcome (w_calls w n) = Works) ->
  (processOnce handlers msg w).2 = Ok tt /\ forall n, c_outcome (w_calls (processOnce handlers msg w).1 n) = Works.
Proof.
  intros Hw. unfold processOnce. destruct (UnmarshalEnvelope _) as [env|]; [|done].
  assert (Hwrite : forall f (u : W) et, (forall n, c_outcome (w_calls u n) = Works) ->
    (counting et (cache_write f) u).2 = Ok tt /\ forall n, c_outcome (w_calls (counting et (cache_write f) u).1 n) = Works).
  { intros f u et Hu. unfold counting, cache_write. rewrite Hu. split; [done|]. intros n. cbn. apply Hu. }
  assert (Hdel : forall ps (u : W) et, (forall n, c_outcome (w_calls u n) = Works) ->
    (delete_all et ps u).2 = Ok tt /\ forall n, c_outcome (w_calls (delete_all et ps u).1 n) = Works).
  { intros ps. induction ps as [|p ps IH]; intros u et Hu; [done|]. cbn [delete_all]. unfold bind.
    destruct (Hwrite (fun now => Delete now (IdentityKey p)) u et Hu) as [E1 E2]. unfold cache_delete.
    destruct (counting et _ u) as [u1 [[]|]]; [|done]. by apply IH. }
  assert (Hseen : exists b u, counting (w_EventType env) (Seen (w_EventID env)) w = (u, Ok b) /\
    forall n, c_outcome (w_calls u n) = Works).
  { unfold counting, Seen, bind, cache_get. rewrite Hw. destruct (Get _ _ _) as [g c]. eexists _, _. split; [done|].
    intros n. apply Hw. }
  destruct Hseen as (b & u & E & Hu). rewrite !(bind_Ok _ _ _ _ _ E). destruct b; [done|].
  destruct (handlers !! _) as [h|]; [|done]. destruct (h env) as [ps|]; [|done]. unfold bind.
  destruct (Hdel ps u (w_EventType env) Hu) as [E1 E2]. destruct (delete_all _ ps u) as [u1 [[]|]]; [|done].
  destruct (Hwrite (fun now => Set_ now (dedupeKey (w_EventID env)) "1" DedupeTTL) u1 (w_EventType env) E2) as [E3 E4].
  unfold Mark. by destruct (counting _ _ u1) as [u2 [[]|]].
Qed.
End loop.

Lemma fetch_next_ok r r' msg : fetch_next r = (r', Ok msg) ->
  rd_log r !! rd_position r = Some msg /\ rd_log r' = rd_log r /\ rd_position r' = S (rd_position r) /\ rd_committed r' = rd_committed r.
Proof. unfold fetch_next. intros E. case_split_in E. done. Qed.
Lemma fetch_next_err r r' e : fetch_next r = (r', Err e) ->
  rd_log r' = rd_log r /\ rd_position r' = rd_position r /\ rd_committed r' = rd_committed r.
Proof. unfold fetch_next. intros E. case_split_in E; done. Qed.
Lemma commit_offset_spec msg r r' b : commit_offset msg r = (r', b) ->
  rd_log r' = rd_log r /\ rd_position r' = rd_position r /\
  rd_committed r' = if b then S (Z.to_nat (Offset msg)) else rd_committed r.
Proof. unfold commit_offset. intros E. case_split_in E; done. Qed.

(** ** Runs of the consumer

    A process that ends, or is killed after [fuel] messages, is started again
    and reads from the committed offset on. *)
Definition restarted (calls : nat -> broker) (r : log_reader) : log_reader := mkReader (rd_log r) (rd_committed r) (rd_committed r) calls.
Definition Run_again {S} `{CacheStore S} (handlers : gmap string EventHandler) (runs : list (nat * (nat -> broker)))
    (r : log_reader * list reader_call) (w : world S) : log_reader * list reader_call * world S :=
  fold_left (fun rw x => (Run_loop (H := recording kafka_reader) handlers x.1 (restarted x.2 rw.1.1, rw.1.2) rw.2).1) runs (r, w).

Section runs.
Context {S : Type} `{CacheLaws S} (handlers : gmap string EventHandler) (log : list RawMessage).
Context (Hlog : log_ok log) (Hunique : ids_unique handlers log).
Notation W := (world S).

(** Everything below the position was committed or passed over; what was
    committed is out of the cache; nothing is passed over while the cache
    works. *)
Definition consumed (works : Prop) (rc : log_reader * list reader_call) (w : W) : Prop :=
  let '(r, calls) := rc in
  rd_log r = log /\ (rd_committed r <= rd_position r)%nat /\
  (forall i msg, (i < rd_position r)%nat -> log !! i = Some msg -> CommitAsked msg ∈ calls \/ msg ∈ passed_over calls) /\
  handled handlers log (fun msg => CommitAsked msg ∈ calls) w /\
  (works -> (forall n, c_outcome (w_calls w n) = Works) /\ passed_over calls = []).

Lemma handled_weaken (d d' : RawMessage -> Prop) (w : W) : handled handlers log d w -> (forall m, d' m -> d m) -> handled handlers log d' w.
Proof. intros (D & M & H1 & H2 & H3) Hd. exists D, M. split_and!; [done..|]. intros m id ps p Hm. apply H3. by apply Hd. Qed.

Lemma consumed_failed works r r' calls w w' msg : consumed works (r, calls) w -> fetch_next r = (r', Ok msg) ->
  processOnce handlers msg w = (w', Err tt) -> consumed works (r', Fetched msg :: calls) w'.
Proof.
  intros (Hr & Hle & Hpos & Hh & Hok) (Hmsg & H1 & H2 & H3)%fetch_next_ok Ep. rewrite Hr in Hmsg.
  assert (Hin : msg ∈ log) by (by eapply list_elem_of_lookup_2). unfold consumed. rewrite H1, H2, H3. split_and!; [done|lia| | |].
  - intros i m Hi Hm. cbn [passed_over]. destruct (decide (i = rd_position r)) as [->|]; [right; rewrite Hmsg in Hm; injection Hm as ->; left|].
    destruct (Hpos i m) as [?|?]; [lia|done|left; by right|right; by right].
  - eapply handled_weaken; [by eapply handled_step|]. intros m [[=]|?]%elem_of_cons. by left.
  - intros Hw. destruct (Hok Hw) as [Hc _]. pose proof (processOnce_works handlers msg w Hc) as [E _]. by rewrite Ep in E.
Qed.

Lemma consumed_committed works r r1 r' calls w w' msg b : consumed works (r, calls) w -> fetch_next r = (r1, Ok msg) ->
  processOnce handlers msg w = (w', Ok tt) -> commit_offset msg r1 = (r', b) ->
  consumed works (r', CommitAsked msg :: Fetched msg :: calls) w'.
Proof.
  intros (Hr & Hle & Hpos & Hh & Hok) (Hmsg & H1 & H2 & H3)%fetch_next_ok Ep (E1 & E2 & E3)%commit_offset_spec. rewrite Hr in Hmsg.
  assert (Hin : msg ∈ log) by (by eapply list_elem_of_lookup_2). unfold consumed. rewrite E1, E2, H1, H2. split_and!; [done| | | |].
  - rewrite E3, H3. destruct b; [|lia]. rewrite (Hlog _ _ Hmsg). lia.
  - intros i m Hi Hm. cbn [passed_over]. destruct (decide (i = rd_position r)) as [->|]; [left; rewrite Hmsg in Hm; injection Hm as ->; left|].
    destruct (Hpos i m) as [?|?]; [lia|done|left; by do 2 right|by right].
  - eapply handled_weaken; [by eapply handled_step|]. intros m [[= ->]|[[=]|?]%elem_of_cons]%elem_of_cons; [by right|by left].
  - intros Hw. destruct (Hok Hw) as [Hc Hp]. pose proof (processOnce_works handlers msg w Hc) as [_ Hc']. rewrite Ep in Hc'. done.
Qed.

Lemma Run_loop_consumed works fuel rc (w : W) : consumed works rc w ->
  let '(rc', w', _) := Run_loop (H := recording kafka_reader) handlers fuel rc w in consumed works rc' w'.
Proof.
  revert rc w. induction fuel as [|fuel IH]; intros [r calls] w Hc; cbn [Run_loop]; [done|].
  cbn [FetchMessage CommitMessages Close recording kafka_reader fst snd].
  destruct (fetch_next r) as [r1 [msg|er]] eqn:Ef.
  - destruct (processOnce handlers msg w) as [w1 [[]|[]]] eqn:Ep; [|apply IH; by eapply consumed_failed].
    cbn [fst snd]. destruct (commit_offset msg r1) as [r2 b] eqn:Ec. pose proof (consumed_committed works r r1 r2 calls w w1 msg b Hc Ef Ep Ec) as H2.
    destruct b; [by apply IH|exact H2].
  - apply fetch_next_err in Ef as (H1 & H2 & H3). destruct Hc as (? & ? & ? & ? & ?).
    assert (consumed works (r1, calls) w) by (unfold consumed; rewrite H1, H2, H3; by split_and!). by destruct er.
Qed.

Lemma Run_again_consumed works runs rc (w : W) : consumed works rc w ->
  let '(rc', w') := Run_again handlers runs rc w in consumed works rc' w'.
Proof.
  unfold Run_again. revert rc w. induction runs as [|[fuel calls] runs IH]; intros [r l] w Hc; [done|]. cbn [fold_left fst snd].
  assert (Hr : consumed works (restarted calls r, l) w).
  { destruct Hc as (? & ? & Hpos & ? & ?). unfold consumed, restarted. cbn. split_and!; [done..| |done|done]. intros i m Hi. apply Hpos. lia. }
  apply (Run_loop_consumed works fuel) in Hr. destruct (Run_loop _ _ _ _) as [[rc' w'] e]. cbn [fst]. by apply IH.
Qed.
End runs.

(** C21: However often the consumer is restarted, and whatever calls to the
    broker and to the cache fail: for every message below the committed
    offset, every principal it revokes is out of the cache, unless the loop
    passed the message over and never came to commit it; and it passes none
    over as long as the cache works.  An event id stands for one event, none is
    marked at first, and the cache's clock does not go back.  (That one cache error is enough to lose a revocation for good is
    the example [failed_message_skipped]: the reader goes on to the next
    message, whose commit covers it.) *)
Theorem committed_messages_invalidated {S} `{CacheLaws S} handlers runs log calls (w : world S) :
  log_ok log -> ids_unique handlers log -> mono w ->
  (forall msg id ps, msg ∈ log -> revokes handlers msg = Some (id, ps) -> ~ marked id w) ->
  let '(r', calls', w') := Run_again handlers runs (mkReader log 0 0 calls, []) w in
  (forall i msg id ps p, (i < rd_committed r')%nat -> log !! i = Some msg ->
    revokes handlers msg = Some (id, ps) -> p ∈ ps -> dead (IdentityKey p) w' \/ msg ∈ passed_over calls' /\ CommitAsked msg ∉ calls') /\
  ((forall n, c_outcome (w_calls w n) = Works) -> passed_over calls' = []).
Proof.
  intros Hlog Hu Hm Hfresh.
  pose proof (Run_again_consumed handlers log Hlog Hu (forall n, c_outcome (w_calls w n) = Works) runs (mkReader log 0 0 calls, []) w) as Hgo.
  destruct (Run_again _ runs _ w) as [[r' calls'] w']. destruct Hgo as (_ & Hle & Hpos & (D & M & (_ & HD & _) & _ & Hn) & Hok).
  - unfold consumed. cbn. split_and!; [done..|lia| |done]. exists (fun _ => False), (fun id => marked id w). split_and!; [by split_and!| |].
    + intros msg id ps p Hin Hr Hmk _. exact (Hfresh msg id ps Hin Hr Hmk).
    + intros msg id ps p Hc. by apply elem_of_nil in Hc.
  - split; [|intros Hw; by apply Hok]. intros i msg id ps p Hi Hl Hr Hp. destruct (decide (CommitAsked msg ∈ calls')) as [Hc|Hc].
    + left. apply HD. by eapply Hn.
    + right. split; [|done]. destruct (Hpos i msg); [lia|done..].
Qed.

(** ** What the producer writes, the consumer reads *)

Definition envelope_ok (e : EventEnvelope) : Prop :=
  Forall is_ascii [env_EventID e; env_AggregateType e; env_AggregateID e; env_EventType e; env_SchemaVersion e;
    env_PrincipalType e; env_RateBucket e] /\ year_ok (env_OccurredAt e) /\ year_ok (env_PublishedAt e).

(** The wire format loses nothing. *)
Lemma envelope_roundtrip e j : envelope_ok e -> raw_value (env_Payload e) = Some j ->
  encodable j -> Z.of_nat (nesting j) < max_nesting ->
  exists v, envelope_json e = Some v /\
    UnmarshalEnvelope (Marshal v) = Some (mkWire (env_EventID e) (env_AggregateType e) (env_AggregateID e) (env_EventType e)
      (env_SchemaVersion e) (Some j) (env_OccurredAt e) (env_PublishedAt e) (env_PrincipalType e) (env_RateBucket e)).
Proof.
  intros (Ha & Ho & Hp) Hj He Hn. unfold envelope_json. rewrite Hj, !marshal_time_ok by done.
  eexists. split; [reflexivity|]. rewrite !Forall_cons in Ha. destruct Ha as (?&?&?&?&?&?&?&_).
  unfold UnmarshalEnvelope. rewrite Unmarshal_marshal.
  - cbn [mbind option_bind struct_members].
    rewrite !(decode_field_single dec_string "" _ (VStr _)) by first [reflexivity | done].
    rewrite !(decode_field_single dec_time zero_time _ (VTime _)) by first [reflexivity | done].
    rewrite !dec_time_VTime by done. reflexivity.
  - cbn [encodable fold_right fst snd VTime]. split_and!; try done; auto with gitscale; by apply is_ascii_true.
  - cbn [nesting fold_right fst snd VTime]. lia.
Qed.

(** ** A revocation *)

Definition affected_ids (p : identity_payload) : list uuid :=
  match p with
  | UserDisabled p => ud_AffectedPrincipalIDs p
  | AgentRevoked p => ar_AffectedPrincipalIDs p
  | PrincipalPermissionsChanged p => pc_AffectedPrincipalIDs p
  | OrgMemberAdded p => ma_AffectedPrincipalIDs p
  | OrgMemberRemoved p => mr_AffectedPrincipalIDs p
  | _ => []
  end.
(** The texts of a revocation. *)
Definition payload_texts (p : identity_payload) : list string :=
  match p with
  | UserDisabled p => [ud_Reason p]
  | AgentRevoked p => [ar_Reason p]
  | PrincipalPermissionsChanged p => pc_OldScope p ++ pc_NewScope p
  | _ => []
  end.

Lemma encodable_uuids l : encodable (VUuids l).
Proof. induction l as [|u l IH]; [done|]. split; [apply uuid_String_ascii|exact IH]. Qed.
Lemma nesting_uuids l : nesting (VUuids l) = 1%nat.
Proof. cbn. f_equal. induction l as [|u l IH]; [done|]. cbn. by rewrite IH. Qed.

Lemma revocation_encodable p j : revocation_json p = Some j -> Forall is_ascii (payload_texts p) ->
  encodable j /\ nesting j = 2%nat.
Proof.
  intros Hj Ht. pose proof encodable_uuids as Hu. pose proof nesting_uuids as Hn.
  destruct p as [| | |p|p|p| |p|]; try done; injection Hj as <-; cbn [payload_texts] in Ht;
    rewrite ?Forall_app, ?Forall_singleton in Ht; try (destruct Ht as [Ho%encodable_strings Hw%encodable_strings]);
    (split; [cbn [encodable fold_right fst snd VTime VInt]; split_and!; try done; eauto with gitscale; by apply is_ascii_true
            |cbn [nesting fold_right fst snd VTime VInt VStrings]; rewrite ?Hn, ?nesting_strings; reflexivity]).
Qed.

Section frame.
Context {S : Type} `{CacheLaws S} (handlers : gmap string EventHandler).
Notation W := (world S).

(** Keys outside [ks] are as they were. *)
Definition keeps (ks : string -> Prop) (w w' : W) : Prop := mono w ->
  now w <= now w' /\ mono w' /\
  forall t k, now w' <= t -> ~ ks k -> live t (w_cache w') k = live t (w_cache w) k.

Lemma keeps_same ks w w' : w_calls w' = w_calls w -> w_cache w' = w_cache w -> keeps ks w w'.
Proof. unfold keeps, now, mono. intros -> -> Hm. split_and!; [lia|done|done]. Qed.
Lemma keeps_trans ks w1 w2 w3 : keeps ks w1 w2 -> keeps ks w2 w3 -> keeps ks w1 w3.
Proof.
  intros H1 H2 Hm. destruct (H1 Hm) as (A1 & A2 & A3). destruct (H2 A2) as (B1 & B2 & B3).
  split_and!; [lia|done|]. intros t k Ht Hk. rewrite B3 by done. apply A3; [lia|done].
Qed.
Lemma keeps_after (ks : string -> Prop) c w w' : w_calls w' = w_calls (after_call c w) -> w_cache w' = c ->
  (forall t k, now w <= t -> ~ ks k -> live t c k = live t (w_cache w) k) -> keeps ks w w'.
Proof.
  intros E Ec Hc Hm. unfold now, mono in *. rewrite E, Ec. cbn. pose proof (Hm 0%nat). split_and!; [lia| |].
  - intros n. apply (Hm (Datatypes.S n)).
  - intros t k Ht. apply Hc. lia.
Qed.

(** An action that touches nothing outside [ks]. *)
Definition framed {A} (ks : string -> Prop) (m : action unit W A) : Prop := forall w, keeps ks w (m w).1.

Lemma framed_ret {A} ks (a : A) : framed ks (ret a : action unit W A).
Proof. intros w. by apply keeps_same. Qed.
Lemma framed_count ks f : framed ks (count f : action unit W unit).
Proof. intros w. by apply keeps_same. Qed.
Lemma framed_bind {A B} ks (m : action unit W A) (k : A -> action unit W B) :
  framed ks m -> (forall a, framed ks (k a)) -> framed ks (bind m k).
Proof.
  intros Hm Hk w. unfold bind. specialize (Hm w). destruct (m w) as [w1 [a|e]]; [|exact Hm].
  eapply keeps_trans; [exact Hm|apply Hk].
Qed.
Lemma framed_counting {A} ks et (m : action unit W A) : framed ks m -> framed ks (counting et m).
Proof.
  intros Hm w. unfold counting. specialize (Hm w). destruct (m w) as [w1 [a|e]]; [exact Hm|].
  eapply keeps_trans; [exact Hm|]. by apply keeps_same.
Qed.
Lemma framed_Seen ks id : framed ks (Seen id : action unit W bool).
Proof.
  apply framed_bind; [|intros; apply framed_ret]. intros w. unfold cache_get. destruct (c_outcome _).
  - rewrite (surjective_pairing (Get _ _ _)). eapply keeps_after; [done..|]. intros t k Ht _. by apply Get_frame.
  - by eapply keeps_after.
Qed.
Lemma framed_write (ks : string -> Prop) f :
  (forall now t k c, now <= t -> ~ ks k -> live t (f now c) k = live t c k) -> framed ks (cache_write f : action unit W unit).
Proof.
  intros Hf w. unfold cache_write. destruct (c_outcome _) as [|[]]; (eapply keeps_after; [done..|]); try done;
    intros t k Ht Hk; by apply Hf.
Qed.
Lemma framed_delete_all (ks : string -> Prop) et ps : (forall q, q ∈ ps -> ks (IdentityKey q)) -> framed ks (delete_all et ps : action unit W unit).
Proof.
  induction ps as [|q ps IH]; intros Hks; [apply framed_ret|]. cbn [delete_all].
  apply framed_bind; [apply framed_counting, framed_write|intros; apply IH; intros; apply Hks; by right].
  intros n t k c Hn Hk. rewrite Delete_spec by done. rewrite bool_decide_false; [done|]. intros ->. apply Hk, Hks. by left.
Qed.

(** Whatever fails, a message touches its own mark and the identities it
    revokes, nothing else. *)
Lemma processOnce_frame msg : framed (fun k => exists id ps, revokes handlers msg = Some (id, ps) /\
  (k = dedupeKey id \/ exists q, q ∈ ps /\ k = IdentityKey q)) (processOnce handlers msg : action unit W unit).
Proof.
  unfold processOnce, revokes. destruct (UnmarshalEnvelope _) as [env|]; [|apply framed_count]. cbn [mbind option_bind].
  apply framed_bind; [apply framed_counting, framed_Seen|]. intros [|]; [apply framed_count|].
  destruct (handlers !! _) as [h|]; [|apply framed_count]. cbn [mbind option_bind].
  destruct (h env) as [ps|]; [|apply framed_count]. cbn [mbind option_bind].
  apply framed_bind; [apply framed_delete_all|intros _; apply framed_bind; [|intros; apply framed_count]].
  - intros q Hq. eauto 8.
  - apply framed_counting, framed_write. intros n t k c Hn Hk. rewrite Set_spec by done.
    rewrite bool_decide_false; [done|]. intros ->. apply Hk. eauto 6.
Qed.
End frame.

Section reaching.
Context {S : Type} `{CacheLaws S} (Parse : string -> option uuid).
Context (Parse_String : forall u, uuid_ok u -> Parse (uuid_String u) = Some u).
Notation W := (world S).

Lemma dec_uuids_map l : Forall uuid_ok l -> dec_uuids Parse (VUuids l) = Some l.
Proof.
  cbn. induction 1 as [|u l Hu _ IH]; [done|]. cbn. rewrite Parse_String by done. cbn. by rewrite IH.
Qed.

(** The consumer's handlers find the principals the payload names. *)
Lemma handler_of_revocation p j env : revocation_json p = Some j -> Forall uuid_ok (affected_ids p) ->
  w_EventType env = event_type p -> w_Payload env = Some j ->
  exists handler, DefaultHandlers Parse !! w_EventType env = Some handler /\ handler env = Some (affected_ids p).
Proof.
  intros Hj Hu Het Hp. exists (Affected Parse). rewrite Het. split; [by destruct p|].
  unfold Affected. rewrite Hp. pose proof (dec_uuids_map _ Hu) as Hd.
  destruct p as [| | |p|p|p| |p|]; try done; injection Hj as <-; cbn [mbind option_bind struct_members affected_ids] in *;
    (rewrite (decode_field_single (dec_uuids Parse) [] _ (VUuids _)) by first [reflexivity | done]); exact Hd.
Qed.

(** A message as the producer writes it is read as the revocation it was
    written for. *)
Lemma kafka_message_revokes p j now row : revocation_json p = Some j ->
  Forall is_ascii (payload_texts p) -> Forall uuid_ok (affected_ids p) ->
  raw_value (Payload row) = Some j -> EventType row = event_type p -> is_ascii (AggregateType row) ->
  year_ok (CreatedAt row) -> year_ok now ->
  exists key value, kafka_message now row = Some (key, value) /\
    forall msg, Value msg = value ->
      revokes (DefaultHandlers Parse) msg = Some (uuid_String (EventID row), affected_ids p).
Proof.
  intros Hj Hta Hu Hraw Het Hat Hc Hn. destruct (revocation_encodable p j Hj Hta) as [He Hd].
  destruct (envelope_roundtrip (kafka_envelope now row) j) as (v & Hv & Hw); [|done|done|rewrite Hd; done|].
  - split; [|done]. cbn. rewrite Het, !Forall_cons. split_and!; auto with gitscale; try (by apply is_ascii_true).
    by destruct p; apply is_ascii_true.
  - exists (be_bytes 16 (AggregateID row)), (Marshal v). unfold kafka_message. rewrite Hv. split; [done|].
    intros msg Hmsg. unfold revokes. rewrite Hmsg, Hw. cbn [mbind option_bind kafka_envelope env_EventID env_EventType env_Payload].
    match goal with |- context [DefaultHandlers Parse !! w_EventType ?e] =>
      destruct (handler_of_revocation p j e Hj Hu Het eq_refl) as (h & Hh & Ha) end.
    rewrite Hh. cbn [mbind option_bind]. by rewrite Ha.
Qed.
End reaching.

(** From the event to the cache.  The message the producer writes for a
    revocation is handled, if it is new and the cache works, and then every
    principal the event names is out of the cache and no other identity was
    touched. *)
Theorem revocation_reaches_cache {S} `{CacheLaws S} Parse p j row published (w : world S) :
  (forall u, uuid_ok u -> Parse (uuid_String u) = Some u) ->
  revocation_json p = Some j -> Forall is_ascii (payload_texts p) -> Forall uuid_ok (affected_ids p) ->
  raw_value (Payload row) = Some j -> EventType row = event_type p -> is_ascii (AggregateType row) ->
  year_ok (CreatedAt row) -> year_ok published ->
  mono w -> (forall n, c_outcome (w_calls w n) = Works) -> ~ marked (uuid_String (EventID row)) w ->
  exists key value, kafka_message published row = Some (key, value) /\
    forall msg, Value msg = value ->
      let '(w', r) := processOnce (DefaultHandlers Parse) msg w in
      r = Ok tt /\
      (forall q, q ∈ affected_ids p -> dead (IdentityKey q) w') /\
      (forall q t, uuid_ok q -> q ∉ affected_ids p -> now w' <= t ->
        live t (w_cache w') (IdentityKey q) = live t (w_cache w) (IdentityKey q)).
Proof.
  intros HP Hj Hta Hu Hraw Het Hat Hc Hp Hm Hworks Hnew.
  destruct (kafka_message_revokes Parse HP p j published row) as (key & value & Hk & Hr); [done..|].
  exists key, value. split; [done|]. intros msg Hmsg. specialize (Hr msg Hmsg).
  pose proof (processOnce_works (DefaultHandlers Parse) msg w Hworks) as [Hok _].
  pose proof (processOnce_frame (DefaultHandlers Parse) msg w Hm) as (_ & _ & Hf).
  destruct (processOnce _ msg w) as [w' r] eqn:E. cbn [fst snd] in *. subst r. split; [done|]. split.
  - intros q Hq. apply (processOnce_spec _ (fun _ => False) (fun id => marked id w)) in E; [|by split_and!].
    rewrite Hr in E. destruct E as [[_ Hx]|(_ & HD & _)]; [by destruct Hnew; apply Hx|]. apply HD. by right.
  - intros q t Hq Hnin Ht. apply Hf; [done|]. intros (id & ps & Hr' & Hor). rewrite Hr in Hr'. injection Hr' as <- <-.
    destruct Hor as [Hd|(q' & Hq' & Heq)]; [by eapply dedupeKey_not_identity|].
    apply IdentityKey_inj in Heq as ->; [done|done|]. rewrite Forall_forall in Hu. by apply Hu.
Qed.

(** ** Samples *)

Definition sample_row (event : uuid) (p : identity_payload) : OutboxRow :=
  mkRow 1 event "principal" (subject p) (event_type p) (from_option Marshal "" (revocation_json p)) 0.
Definition sample_message (offset : Z) (event : uuid) (p : identity_payload) : RawMessage :=
  mkMessage "gitscale.identity.events" 0 offset "" (from_option snd "" (kafka_message Second (sample_row event p))).
Definition agent_7_revoked : identity_payload := AgentRevoked (newAgentRevokedPayload 7 3 "abuse" 0).
Definition user_9_disabled : identity_payload := UserDisabled (newUserDisabledPayload 9 "left" 0).
Definition sample_log : list RawMessage := [sample_message 0 100 agent_7_revoked; sample_message 1 101 user_9_disabled].

(** Identities 7, 8 and 9 are cached; the call [failing] does not get
    through. *)
Definition cached_identities : MemoryStore :=
  fold_left (fun c id => Set_ 0 (IdentityKey id) "entry" IdentityTTL c) [7; 8; 9] NewMemoryStore.
Definition sample_world (failing : option nat) : world MemoryStore :=
  mkWorld cached_identities NewMetrics
    (fun n => mkCacheCall (Z.of_nat n) (if bool_decide (failing = Some n) then Fails false else Works)).

Lemma sample_world_mono n : mono (sample_world n).
Proof. intros m. cbn. lia. Qed.
(** Nothing but the three identities is in that cache. *)
Lemma sample_world_unmarked n id : ~ marked id (sample_world n).
Proof.
  intros (t & Ht & Hl). cbn in Ht. cbn [sample_world w_cache] in Hl. unfold cached_identities in Hl. cbn [fold_left] in Hl.
  rewrite !Set_spec in Hl by done. rewrite !bool_decide_false in Hl by apply dedupeKey_not_identity.
  by destruct Hl as [x [=]].
Qed.

Lemma sample_log_ok : log_ok sample_log.
Proof. intros [|[|i]] msg [= <-]; reflexivity. Qed.
Lemma sample_log_unique : ids_unique (DefaultHandlers canonical_Parse) sample_log.
Proof.
  assert (E0 : revokes (DefaultHandlers canonical_Parse) (sample_message 0 100 agent_7_revoked) = Some (uuid_String 100, [7])) by (vm_compute; reflexivity).
  assert (E1 : revokes (DefaultHandlers canonical_Parse) (sample_message 1 101 user_9_disabled) = Some (uuid_String 101, [9])) by (vm_compute; reflexivity).
  assert (Hne : uuid_String 100 <> uuid_String 101) by (vm_compute; congruence).
  intros m1 m2 id ps1 ps2 H1 H2 R1 R2. unfold sample_log in H1, H2. rewrite elem_of_cons, list_elem_of_singleton in H1, H2.
  destruct H1 as [-> | ->], H2 as [-> | ->]; congruence.
Qed.

(** The deletion of agent 7 fails once, and the process dies before it has
    read on: the next one reads the message again. *)
Lemma committed_messages_invalidated_witness :
  let '(r, calls, w) := Run_again (DefaultHandlers canonical_Parse) [(1%nat, fun _ => Answers); (10%nat, fun _ => Answers)]
    (mkReader sample_log 0 0 (fun _ => Answers), []) (sample_world (Some 1%nat)) in
  rd_committed r = 2%nat /\ passed_over calls = [sample_message 0 100 agent_7_revoked] /\
  dead (IdentityKey 7) w /\ dead (IdentityKey 9) w.
Proof.
  pose proof (committed_messages_invalidated (DefaultHandlers canonical_Parse) [(1%nat, fun _ => Answers); (10%nat, fun _ => Answers)]
    sample_log (fun _ => Answers) (sample_world (Some 1%nat))
    sample_log_ok sample_log_unique (sample_world_mono (Some 1%nat)) (fun _ id _ _ _ => sample_world_unmarked (Some 1%nat) id)) as H.
  assert (E : let '(r, calls, _) := Run_again (DefaultHandlers canonical_Parse) [(1%nat, fun _ => Answers); (10%nat, fun _ => Answers)]
    (mkReader sample_log 0 0 (fun _ => Answers), []) (sample_world (Some 1%nat)) in
    rd_committed r = 2%nat /\ passed_over calls = [sample_message 0 100 agent_7_revoked] /\
    bool_decide (CommitAsked (sample_message 0 100 agent_7_revoked) ∈ calls) = true /\
    bool_decide (CommitAsked (sample_message 1 101 user_9_disabled) ∈ calls) = true) by (vm_compute; by split_and!).
  destruct (Run_again _ _ _ _) as [[r calls] w]. destruct E as (E1 & E2 & E3%bool_decide_eq_true & E4%bool_decide_eq_true).
  destruct H as [H _]. rewrite E1 in H. split_and!; [done..| |].
  - destruct (H 0%nat (sample_message 0 100 agent_7_revoked) (uuid_String 100) [7] 7) as [?|[_ ?]]; [lia|reflexivity|vm_compute; reflexivity|left|done..].
  - destruct (H 1%nat (sample_message 1 101 user_9_disabled) (uuid_String 101) [9] 9) as [?|[_ ?]]; [lia|reflexivity|vm_compute; reflexivity|left|done..].
Defined.

(** kafka-go's reader goes on to the second message, whose commit covers the
    first: the revoked agent stays in the cache. *)
Lemma failed_message_skipped :
  let '(r, w, _) := Run_loop (H := kafka_reader) (DefaultHandlers canonical_Parse) 10
    (mkReader sample_log 0 0 (fun _ => Answers)) (sample_world (Some 1%nat)) in
  rd_committed r = 2%nat /\ live (now w) (w_cache w) (IdentityKey 7) = Some "entry".
Proof. vm_compute. by split. Qed.


Lemma revocation_reaches_cache_witness :
  let '(w, r) := processOnce (DefaultHandlers canonical_Parse) (sample_message 0 100 agent_7_revoked) (sample_world None) in
  r = Ok tt /\ dead (IdentityKey 7) w /\ live (now w) (w_cache w) (IdentityKey 8) = Some "entry".
Proof.
  assert (Hp : Forall uuid_ok (affected_ids agent_7_revoked)) by (repeat constructor; unfold uuid_ok; lia).
  destruct (revocation_reaches_cache canonical_Parse agent_7_revoked (from_option id VNull (revocation_json agent_7_revoked))
    (sample_row 100 agent_7_revoked) Second (sample_world None) canonical_Parse_String eq_refl
    ltac:(by repeat constructor) Hp ltac:(vm_compute; reflexivity) eq_refl ltac:(by apply is_ascii_true)
    ltac:(vm_compute; by split) ltac:(vm_compute; by split) (sample_world_mono None) (fun _ => eq_refl)
    (sample_world_unmarked None _)) as (key & value & Ek & H).
  specialize (H (sample_message 0 100 agent_7_revoked) ltac:(unfold sample_message; rewrite Ek; reflexivity)).
  assert (E8 : live (now (processOnce (DefaultHandlers canonical_Parse) (sample_message 0 100 agent_7_revoked) (sample_world None)).1)
    (w_cache (sample_world None)) (IdentityKey 8) = Some "entry") by (vm_compute; reflexivity).
  destruct (processOnce _ _ _) as [w r]. destruct H as (Hr & Hd & Hf). split_and!; [done|apply Hd; left|].
  rewrite Hf; [exact E8|unfold uuid_ok; lia| |done]. cbn. by rewrite list_elem_of_singleton.
Defined.
