(* ===== verification/Repositories.v ===== *)
(** * The repositories service

    [plane/application/repositories]: service.go and events.go, over the
    metadata store of [MetadataStore]: validation, creation with its event, and
    paging through an organisation while others create repositories. *)

From S2P Require Import Prelude GoStd Sha256 Uuid Outbox Actions MetadataStore.

(** ** Errors, events and input *)

Definition ErrInvalidSlug := errors_New "repositories: invalid slug".
Definition ErrEmptyName := errors_New "repositories: name is empty".
Definition ErrInvalidVisibility := errors_New "repositories: invalid visibility".
Definition ErrSlugAlreadyExists := errors_New "repositories: slug already exists in org".
Definition ErrRepositoryNotFound := errors_New "repositories: repository not found".

Definition EventRepositoryCreated : string := "repositories.repository_created".
Definition envelopeVersion : Z := 1.

Record RepositoryCreatedPayload := mkRepositoryCreated {
  rc_RepositoryID : uuid; rc_OrgID : uuid; rc_OwnerID : uuid; rc_Slug : string; rc_Name : string;
  rc_DefaultBranch : string; rc_Visibility : string; rc_CreatedAt : time; rc_EnvelopeVersion : Z }.
Definition newRepositoryCreatedPayload (r : Repository) : RepositoryCreatedPayload :=
  mkRepositoryCreated (r_ID r) (r_OrgID r) (r_OwnerID r) (r_Slug r) (r_Name r) (r_DefaultBranch r) (r_Visibility r)
    (r_CreatedAt r) envelopeVersion.

Record CreateInput := mkCreateInput {
  cr_OrgID : uuid; cr_OwnerID : uuid; cr_Slug : string; cr_Name : string; cr_DefaultBranch : string;
  cr_Visibility : string }.

Record Cursor := mkCursor { AfterCreatedAt : time; AfterID : uuid }.
Definition Cursor_IsZero (c : Cursor) : bool := (AfterID c =? uuid_Nil) && IsZero (AfterCreatedAt c).
(** [Cursor{}]. *)
Definition zero_cursor : Cursor := mkCursor zero_time uuid_Nil.

(** ** Validation *)

(** [[a-z0-9]]. *)
Definition is_lower_alnum (c : ascii) : bool :=
  is_digit c || ((97 <=? code c) && (code c <=? 122)).
(** The expression [^[a-z0-9][a-z0-9._-]*$]. *)
Definition slugPattern_MatchString (s : string) : bool :=
  match s2l s with
  | [] => false
  | c :: rest => is_lower_alnum c && forallb (fun c => is_lower_alnum c || bool_decide (c ∈ ["."; "_"; "-"]%char)) rest
  end.

Definition validVisibility (v : string) : bool := bool_decide (v ∈ ["public"; "private"; "internal"]).

(** ** The service *)
Section service.
Context {P : Type} {MR : MapRange} (pay : RepositoryCreatedPayload -> P).

(** What a call meets: the stores its transaction sees, whether the database
    turns the transaction down, and the ids and time it draws. *)
Record call := mkCall {
  cl_view : nat -> Store P; cl_conflict : bool; cl_now : time; cl_uuid : uuid; cl_eventID : uuid }.

Definition GetRepository (id : uuid) (s : Store P) : option Repository := GetByID id s.

Definition new_repository (c : call) (i : CreateInput) : Repository :=
  mkRepository (cl_uuid c) (cr_OrgID i) (cr_Name i) (cr_Slug i) (cr_OwnerID i)
    (if bool_decide (cr_DefaultBranch i = "") then "main" else cr_DefaultBranch i)
    (if bool_decide (cr_Visibility i = "") then "private" else cr_Visibility i) "" "" (cl_now c) (cl_now c).

Definition CreateRepository (c : call) (i : CreateInput) : action error (Store P) Repository :=
  let! _ := require (negb (bool_decide (cr_Slug i = "")) && slugPattern_MatchString (cr_Slug i)
                     && (Z.of_nat (String.length (cr_Slug i)) <=? 100)) ErrInvalidSlug in
  let! _ := require (negb (bool_decide (cr_Name i = ""))) ErrEmptyName in
  let repo := new_repository c i in
  let! _ := require (validVisibility (r_Visibility repo)) ErrInvalidVisibility in
  let! _ := (fun s =>
    if cl_conflict c then (s, Err SerializationFailure)
    else Transact (
      let! _ := Insert repo in
      WriteOutbox (cl_eventID c) DomainRepositories "repository" (r_ID repo) EventRepositoryCreated
        (pay (newRepositoryCreatedPayload repo))) (cl_view c) s) in
  ret repo.

(** The limit that is asked of the store. *)
Definition clamp_limit (limit : Z) : Z :=
  let limit := if limit <=? 0 then 20 else limit in if 100 <? limit then 100 else limit.

Definition Service_ListByOrg (orgID : uuid) (after : Cursor) (limit : Z) (s : Store P)
  : list Repository * option Cursor :=
  let limit := clamp_limit limit in
  let rows :=
    if Cursor_IsZero after then ListByOrg orgID None None limit s
    else ListByOrg orgID (Some (AfterCreatedAt after)) (Some (AfterID after)) limit s in
  if Z.of_nat (length rows) <? limit then (rows, None)
  else
    match last rows with
    | Some r => (rows, Some (mkCursor (r_CreatedAt r) (r_ID r)))
    | None => (rows, None)
    end.
End service.

Arguments call P : clear implicits.

(** ** Creation *)

Definition slug_ok (s : string) : bool := slugPattern_MatchString s && (Z.of_nat (String.length s) <=? 100).
Definition repository_ok (r : Repository) : Prop :=
  slug_ok (r_Slug r) = true /\ r_Name r <> "" /\ r_DefaultBranch r <> "" /\ r_Visibility r ∈ ["public"; "private"; "internal"].

Section creation.
Context {P : Type} {MR : MapRange} (pay : RepositoryCreatedPayload -> P).

Definition with_repository (c : call P) (r : Repository) (s : Store P) : Store P :=
  mkStore (users s) (agents s) (<[r_ID r := r]> (repositories s)) (partitionArchives s) (cloneTokens s) (quotaAccounts s)
    (outbox s ++ [mkOutboxRecord DomainRepositories "repository" (r_ID r) EventRepositoryCreated
      (pay (newRepositoryCreatedPayload r)) (cl_eventID c)]).

(** What is wrong with a request, in the order it is looked at. *)
Definition input_error (i : CreateInput) : option error :=
  if negb (slug_ok (cr_Slug i)) then Some ErrInvalidSlug
  else if bool_decide (cr_Name i = "") then Some ErrEmptyName
  else if bool_decide (cr_Visibility i ∈ [""; "public"; "private"; "internal"]) then None
  else Some ErrInvalidVisibility.

Lemma slug_ok_test s :
  negb (bool_decide (s = "")) && slugPattern_MatchString s && (Z.of_nat (String.length s) <=? 100) = slug_ok s.
Proof. by destruct (bool_decide_reflect (s = "")) as [->|_]. Qed.

Lemma visibility_test v :
  validVisibility (if bool_decide (v = "") then "private" else v) = bool_decide (v ∈ [""; "public"; "private"; "internal"]).
Proof.
  unfold validVisibility. destruct (bool_decide_reflect (v = "")) as [->|Hv]; [done|].
  apply bool_decide_ext. rewrite (elem_of_cons _ v ""). tauto.
Qed.

(** Every branch of a creation: the first thing wrong with the request, a
    serialization failure, or the repository filed with its one event. *)
Lemma CreateRepository_spec c i (s : Store P) : CreateRepository pay c i s =
  match input_error i with
  | Some e => (s, Err e)
  | None => if cl_conflict c then (s, Err SerializationFailure)
            else (with_repository c (new_repository c i) s, Ok (new_repository c i))
  end.
Proof.
  unfold CreateRepository, input_error. rewrite slug_ok_test. cbn [new_repository r_Visibility]. rewrite visibility_test.
  unfold bind, require. destruct (slug_ok _); cbn [negb]; [|done]. cbn [ret].
  destruct (bool_decide (cr_Name i = "")); cbn [negb]; [done|]. cbn [ret].
  destruct (bool_decide (cr_Visibility i ∈ _)); [|done]. cbn [ret].
  destruct (cl_conflict c); [done|]. unfold ret, with_repository. f_equal. cbn. unfold commit. cbn.
  by rewrite !(left_id_L ∅ (∪)), (right_id_L ∅ (∪)), <- insert_union_l, (left_id_L ∅ (∪)).
Qed.

Lemma new_repository_ok c i : input_error i = None -> repository_ok (new_repository (P := P) c i).
Proof.
  unfold input_error, repository_ok. cbn. destruct (slug_ok _); cbn [negb]; [|done].
  destruct (bool_decide_reflect (cr_Name i = "")); [done|].
  destruct (bool_decide_reflect (cr_Visibility i ∈ [""; "public"; "private"; "internal"])) as [Hv|]; [|done]. intros _. split_and!; [done..| |].
  - by destruct (bool_decide_reflect (cr_DefaultBranch i = "")).
  - destruct (bool_decide_reflect (cr_Visibility i = "")) as [E|E]; [set_solver|].
    by rewrite (elem_of_cons _ _ "") in Hv; destruct Hv.
Qed.
End creation.

(** ** Paging

    A client that follows the cursors it is given; the [n]th page is read from
    the store [views n]. *)
Section paging.
Context {P : Type} `{MapRangeLaws} (orgID : uuid).

Fixpoint visit (fuel : nat) (views : nat -> Store P) (cursor : Cursor) (limit : Z) : option (list Repository) :=
  match fuel with
  | O => None
  | S fuel' =>
      let '(rows, next) := Service_ListByOrg orgID cursor limit (views 0%nat) in
      match next with
      | None => Some rows
      | Some c => rest ← visit fuel' (fun n => views (S n)) c limit; Some (rows ++ rest)
      end
  end.

(** A row a page after [c] can hold. *)
Definition beyond (c : Cursor) (r : Repository) : Prop :=
  Cursor_IsZero c = true \/ ~ before_cursor (AfterCreatedAt c) (AfterID c) r.
#[export] Instance beyond_dec c r : Decision (beyond c r).
Proof. unfold beyond. apply _. Defined.

Definition cursor_at (r : Repository) : Cursor := mkCursor (r_CreatedAt r) (r_ID r).

(** Ids are UUIDs other than the nil one, which [uuid.New] does not draw. *)
Definition proper_ids (s : Store P) : Prop := map_Forall (fun k _ => uuid_ok k /\ k <> uuid_Nil) (repositories s).
Definition well_kept (s : Store P) : Prop := keyed s /\ proper_ids s.

Lemma well_kept_ids s : well_kept s -> repo_ids_ok s.
Proof. intros [_ Hi] k r Hr. by apply (Hi k r). Qed.

Lemma listing_spec s r : well_kept s -> r ∈ listing orgID s <-> repositories s !! r_ID r = Some r /\ r_OrgID r = orgID.
Proof.
  intros [Hk _]. unfold listing. rewrite merge_sort_Permutation. unfold org_repositories.
  rewrite list_elem_of_filter, elem_of_range. split.
  - intros [Ho [k Hr]]. split; [|done]. by rewrite (keyed_repositories _ Hk _ _ Hr).
  - intros [Hr Ho]. eauto.
Qed.

Lemma listing_NoDup s : well_kept s -> NoDup (listing orgID s).
Proof. intros [Hk _]. unfold listing. rewrite merge_sort_Permutation. by apply org_repositories_NoDup. Qed.

Lemma cursor_at_beyond s r x : well_kept s -> r ∈ listing orgID s -> beyond (cursor_at r) x <-> ~ repo_le x r.
Proof.
  intros Hs Hr. unfold beyond. rewrite repo_le_spec. cbn [cursor_at AfterCreatedAt AfterID].
  assert (Cursor_IsZero (cursor_at r) = false) as ->.
  { apply (listing_spec s r Hs) in Hr as [Hr _]. destruct Hs as [_ Hi]. apply Hi in Hr as [_ Hr].
    unfold Cursor_IsZero, cursor_at. cbn. by rewrite (proj2 (Z.eqb_neq _ _) Hr). }
  unfold before_cursor. split; [by intros [?|?]|by right].
Qed.

(** The page is the first [limit] rows beyond the cursor. *)
Lemma page_spec c limit (s : Store P) : exists rows next, Service_ListByOrg orgID c limit s = (rows, next) /\
  let k := Z.to_nat (clamp_limit limit) in
  let found := filter (beyond c) (listing orgID s) in
  rows = take k found /\
  next = if (length rows <? k)%nat then None else cursor_at <$> last rows.
Proof.
  assert (Hk : 0 < clamp_limit limit) by (unfold clamp_limit; repeat case_match; reflect_bools; lia).
  unfold Service_ListByOrg. set (rows := if Cursor_IsZero c then _ else _).
  assert (Hrows : rows = take (Z.to_nat (clamp_limit limit)) (filter (beyond c) (listing orgID s))).
  { subst rows. unfold ListByOrg. rewrite (proj2 (Z.leb_gt _ _) Hk). fold (org_repositories orgID s). fold (listing orgID s).
    destruct (Cursor_IsZero c) eqn:Ez; f_equal; apply list_filter_iff; intros r; unfold beyond; rewrite Ez; naive_solver. }
  clearbody rows. assert (Hlt : (Z.of_nat (length rows) <? clamp_limit limit) = (length rows <? Z.to_nat (clamp_limit limit))%nat).
  { destruct (Z.ltb_spec (Z.of_nat (length rows)) (clamp_limit limit)),
      (Nat.ltb_spec (length rows) (Z.to_nat (clamp_limit limit))); lia || done. }
  rewrite Hlt. exists rows. cbv zeta. rewrite <- Hrows. destruct (_ <? _)%nat; [by eexists|].
  destruct (last rows); by eexists.
Qed.

Lemma filter_sublist_lt {A} (Q R : A -> Prop) `{forall x, Decision (Q x), forall x, Decision (R x)} x l :
  (forall y, Q y -> R y) -> x ∈ l -> R x -> ~ Q x -> (length (filter Q l) < length (filter R l))%nat.
Proof.
  intros Hi Hx HR HQ. assert (Hle : forall l, (length (filter Q l) <= length (filter R l))%nat).
  { clear -Hi. induction l as [|y l IH]; [done|]. rewrite !filter_cons.
    destruct (decide (Q y)), (decide (R y)); cbn; try lia. by destruct n; auto. }
  induction l as [|y l IH]; [by apply elem_of_nil in Hx|]. rewrite !filter_cons. apply elem_of_cons in Hx as [<-|Hx].
  - rewrite (decide_False (P := Q _)), (decide_True (P := R _)) by done. cbn. specialize (Hle l). lia.
  - specialize (IH Hx). destruct (decide (Q y)), (decide (R y)); cbn; try lia. by destruct n; auto.
Qed.

Lemma StronglySorted_filter {A} (R : relation A) (Q : A -> Prop) `{forall x, Decision (Q x)} l :
  StronglySorted R l -> StronglySorted R (filter Q l).
Proof.
  induction 1 as [|x l Hl IH Hx]; [constructor|]. rewrite filter_cons. case_decide; [|done]. constructor; [done|].
  apply Forall_forall. intros y [_ Hy]%list_elem_of_filter. by eapply Forall_forall in Hx.
Qed.

(** What comes after a row beyond the cursor is beyond the cursor. *)
Lemma beyond_later c x y : beyond c x -> repo_le x y -> beyond c y.
Proof.
  unfold beyond, before_cursor. rewrite repo_le_spec. intros [Hz|Hx] Hxy; [by left|right]. intros Hy. apply Hx.
  destruct Hxy as [Hxy|[Hxy Hs]], Hy as [Hy|[Hy Hs']]; try (left; lia). right. split; [lia|by etrans].
Qed.

Lemma listing_grows (views : nat -> Store P) n r : (forall n, well_kept (views n)) ->
  (forall n, repositories (views n) ⊆ repositories (views (S n))) ->
  r ∈ listing orgID (views 0%nat) -> r ∈ listing orgID (views n).
Proof.
  intros Hk Hg Hr. induction n as [|n IH]; [done|]. apply listing_spec in IH as [IH Ho]; [|done].
  apply listing_spec; [done|]. split; [|done]. by eapply lookup_weaken.
Qed.

(** A full page ends in a row that splits what is beyond the cursor. *)
Lemma full_page s k c rows : well_kept s -> (0 < k)%nat -> rows = take k (filter (beyond c) (listing orgID s)) ->
  (k <= length rows)%nat ->
  exists x, last rows = Some x /\ x ∈ listing orgID s /\ beyond c x /\ (forall y, y ∈ rows -> repo_le y x) /\
    (forall y, y ∈ listing orgID s -> beyond c y -> y ∈ rows \/ ~ repo_le y x).
Proof.
  intros Hk Hpos Hrows Hfull. set (found := filter (beyond c) (listing orgID s)) in *.
  assert (Hsort : StronglySorted repo_le found) by apply StronglySorted_filter, listing_sorted.
  assert (Hd : NoDup found) by (apply NoDup_filter; by apply listing_NoDup).
  assert (Hin : forall r, r ∈ found <-> beyond c r /\ r ∈ listing orgID s) by (intros r; apply list_elem_of_filter).
  destruct (last rows) as [x|] eqn:Ex; [|apply last_None in Ex; subst; rewrite Ex in Hfull; cbn in Hfull; lia].
  exists x. apply last_Some in Ex as [l El].
  assert (Hf : found = l ++ x :: drop k found) by (rewrite <- (take_drop k found) at 1; rewrite <- Hrows, El; by rewrite <- app_assoc).
  assert (Hx : beyond c x /\ x ∈ listing orgID s) by (apply Hin; rewrite Hf; set_solver). destruct Hx as [Hbx Hx].
  split_and!; [done..| |].
  - intros y Hy. rewrite El in Hy. apply elem_of_app in Hy as [Hy|Hy%list_elem_of_singleton]; [|subst y; apply repo_le_spec; by right].
    rewrite Hf in Hsort. eapply StronglySorted_app_1_elem_of; [exact Hsort|done|by left].
  - intros y Hy Hb. assert (Hyf : y ∈ found) by by apply Hin. rewrite Hf, elem_of_app, elem_of_cons in Hyf.
    destruct Hyf as [Hyl|[-> |Hyd]]; [left; rewrite El; set_solver..|]. right. intros Hle.
    assert (y = x) as ->.
    { pose proof Hk as [Hkey _]. apply (org_repositories_distinct orgID s Hkey (well_kept_ids _ Hk)); [by apply listing_elem..|done|].
      rewrite Hf in Hsort. apply StronglySorted_app_1_r in Hsort. inversion Hsort as [|?? _ Hr]. by eapply Forall_forall in Hr. }
    rewrite Hf in Hd. apply NoDup_app in Hd as (_ & _ & Hd). by apply NoDup_cons in Hd as [Hd _].
Qed.

(** What the pages after a cursor hold, if repositories are only ever added. *)
Lemma visit_beyond limit fuel views c : (forall n, well_kept (views n)) ->
  (forall n, repositories (views n) ⊆ repositories (views (S n))) ->
  (forall n, (length (filter (beyond c) (listing orgID (views n))) < fuel)%nat) ->
  exists rows, visit fuel views c limit = Some rows /\
    StronglySorted repo_le rows /\ NoDup rows /\ Forall (beyond c) rows /\
    (forall r, r ∈ listing orgID (views 0%nat) -> beyond c r -> r ∈ rows) /\
    (forall r, r ∈ rows -> exists n, r ∈ listing orgID (views n)).
Proof.
  revert views c. induction fuel as [|fuel IH]; intros views c Hk Hg Hn; [by specialize (Hn 0%nat); lia|].
  cbn [visit]. destruct (page_spec c limit (views 0%nat)) as (rows & next & -> & Hrows & Hnext).
  assert (Hpos : (0 < Z.to_nat (clamp_limit limit))%nat) by (unfold clamp_limit; repeat case_match; reflect_bools; lia).
  set (k := Z.to_nat (clamp_limit limit)) in *.
  assert (Hin : forall r, r ∈ rows -> beyond c r /\ r ∈ listing orgID (views 0%nat)).
  { intros r Hr. rewrite <- list_elem_of_filter. rewrite Hrows in Hr. eapply elem_of_submseteq; [exact Hr|].
    apply sublist_submseteq, sublist_take. }
  assert (Hsort : StronglySorted repo_le rows).
  { apply (StronglySorted_app_1_l _ _ (drop k (filter (beyond c) (listing orgID (views 0%nat))))).
    rewrite Hrows, take_drop. apply StronglySorted_filter, listing_sorted. }
  assert (Hd : NoDup rows).
  { eapply sublist_NoDup; [|rewrite Hrows; apply sublist_take]. apply NoDup_filter. by apply listing_NoDup. }
  destruct (Nat.ltb_spec (length rows) k) as [Hshort|Hfull]; subst next.
  - exists rows. split_and!; try done.
    + apply Forall_forall. intros r Hr. by apply Hin.
    + intros r Hr Hb. rewrite Hrows, take_ge; [by apply list_elem_of_filter|]. rewrite Hrows, length_take in Hshort. lia.
    + intros r Hr. exists 0%nat. by apply Hin.
  - destruct (full_page _ k c rows (Hk 0%nat) Hpos Hrows Hfull) as (x & -> & Hx & Hbx & Hle & Hall). cbn [fmap option_fmap option_map].
    assert (Hlater : forall y, ~ repo_le y x -> repo_le x y) by (intros y Hy; by destruct (total repo_le y x)).
    destruct (IH (fun n => views (S n)) (cursor_at x)) as (rest & -> & Hs & Hnd & Hb & Hc & Hf); [done|done| |].
    { intros n. apply Nat.succ_lt_mono. eapply Nat.le_lt_trans; [|exact (Hn (S n))].
      apply (filter_sublist_lt _ _ x); [| |done|].
      - intros y Hy%(cursor_at_beyond _ _ _ (Hk 0%nat) Hx). eapply beyond_later; [exact Hbx|]. by apply Hlater.
      - apply (listing_grows views (S n)); done.
      - intros Hy%(cursor_at_beyond _ _ _ (Hk 0%nat) Hx). apply Hy, repo_le_spec. by right. }
    assert (Hrest : forall y, y ∈ rest -> ~ repo_le y x).
    { intros y Hy. rewrite Forall_forall in Hb. by apply (cursor_at_beyond _ _ _ (Hk 0%nat) Hx), Hb. }
    exists (rows ++ rest). split; [done|]. split_and!.
    + apply StronglySorted_app. split_and!; [|done..]. intros a b Ha Hb'. etrans; [by apply Hle|]. by apply Hlater, Hrest.
    + apply NoDup_app. split_and!; [done| |done]. intros a Ha Ha'. by apply (Hrest a Ha'), Hle.
    + apply Forall_forall. intros r [Hr|Hr]%elem_of_app; [by apply Hin|].
      eapply beyond_later; [exact Hbx|]. by apply Hlater, Hrest.
    + intros r Hr Hbr. apply elem_of_app. destruct (Hall r Hr Hbr) as [?|Hnle]; [by left|right].
      apply Hc; [by apply (listing_grows views 1)|]. by apply (cursor_at_beyond _ _ _ (Hk 0%nat) Hx).
    + intros r [Hr|Hr]%elem_of_app; [exists 0%nat; by apply Hin|]. destruct (Hf r Hr) as [n Hr']. by exists (S n).
Qed.
End paging.

(** A client that follows the cursors to the end, while others create
    repositories, gets there after at most one page more than there are
    repositories, whatever page size it asks for; it has seen no repository
    twice, all in the order of creation, and every one that was there when it
    began. *)
Theorem paging_visits_all {P} `{MapRangeLaws} orgID (views : nat -> Store P) limit n :
  (forall i, well_kept (views i)) -> (forall i, repositories (views i) ⊆ repositories (views (S i))) ->
  (forall i, (length (org_repositories orgID (views i)) <= n)%nat) ->
  exists visited, visit orgID (S n) views zero_cursor limit = Some visited /\
    NoDup visited /\ StronglySorted repo_le visited /\
    (forall r, repositories (views 0%nat) !! r_ID r = Some r -> r_OrgID r = orgID -> r ∈ visited) /\
    (forall r, r ∈ visited -> exists i, repositories (views i) !! r_ID r = Some r /\ r_OrgID r = orgID).
Proof.
  intros Hk Hg Hn. destruct (visit_beyond orgID limit (S n) views zero_cursor Hk Hg) as (rows & Hv & Hs & Hd & _ & Hc & Hf).
  - intros i. apply Nat.lt_succ_r. etrans; [apply length_filter|]. unfold listing. by rewrite merge_sort_Permutation.
  - exists rows. split_and!; [done..| |].
    + intros r Hr Ho. apply Hc; [by apply listing_spec|]. by left.
    + intros r Hr. destruct (Hf r Hr) as [i Hi]. exists i. by apply listing_spec.
Qed.

(** ** Every repository and its event *)
Section announced.
Context {P : Type} {MR : MapRange} (pay : RepositoryCreatedPayload -> P).

(** Creations with ids not in use, and anything that leaves repositories and
    their events alone. *)
Inductive reachable : Store P -> Prop :=
| reachable_New : reachable New
| reachable_Create s c i : reachable s -> repositories s !! cl_uuid c = None -> uuid_ok (cl_uuid c) -> cl_uuid c <> uuid_Nil ->
    reachable (CreateRepository pay c i s).1
| reachable_other s s' l : reachable s -> repositories s' = repositories s -> outbox s' = outbox s ++ l ->
    Forall (fun e => or_Domain e <> DomainRepositories) l -> reachable s'.

Definition announcement (e : OutboxRecord P) : uuid * string * P := (or_AggregateID e, or_EventType e, or_Payload e).
Definition repository_events (s : Store P) : list (uuid * string * P) :=
  announcement <$> filter (fun e => or_Domain e = DomainRepositories) (outbox s).
Definition expected_events (s : Store P) : list (uuid * string * P) :=
  (fun kr => (kr.1, EventRepositoryCreated, pay (newRepositoryCreatedPayload kr.2))) <$> map_to_list (repositories s).
End announced.

(** However creations and other calls follow each other, every repository
    is filed under a UUID of its own, has a valid slug, name, branch and
    visibility, and the repository events in the outbox are exactly the one
    creation event of each repository, with its data. *)
Theorem repositories_announced {P} {MR : MapRange} (pay : RepositoryCreatedPayload -> P) s : reachable pay s ->
  filed r_ID (repositories s) /\ proper_ids s /\ map_Forall (fun _ r => repository_ok r) (repositories s) /\
  repository_events s ≡ₚ expected_events pay s.
Proof.
  induction 1 as [|s c i _ (Hf & Hp & Ho & He) Hnew Hid Hnil|s s' l _ (Hf & Hp & Ho & He) Hr Hl Hno].
  - split_and!; try apply map_Forall_empty. unfold expected_events. cbn. by rewrite map_to_list_empty.
  - rewrite CreateRepository_spec. destruct (input_error i) eqn:Ei; [done|]. destruct (cl_conflict c); [done|].
    cbn [fst]. split_and!; [| | |].
    + by apply map_Forall_insert_2.
    + apply map_Forall_insert_2; [by split|done].
    + apply map_Forall_insert_2; [by apply new_repository_ok|done].
    + unfold repository_events, expected_events in *. cbn. rewrite filter_app, fmap_app, map_to_list_insert by done.
      cbn. rewrite He. by rewrite Permutation_app_comm.
  - split_and!; unfold filed, proper_ids in *; try by rewrite Hr.
    unfold repository_events, expected_events in *. rewrite Hl, Hr, filter_app, (filter_none _ l), app_nil_r by done. exact He.
Qed.

(** ** Samples *)

Definition sample_input (slug : string) : CreateInput := mkCreateInput 1 7 slug "Compiler" "" "".
Definition sample_call (id : uuid) (now : time) : call RepositoryCreatedPayload := mkCall (fun _ => New) false now id (100 + id).
Definition created (n : Z) (s : Store RepositoryCreatedPayload) : Store RepositoryCreatedPayload :=
  (CreateRepository (fun p => p) (sample_call n (20 - n)) (sample_input "compiler") s).1.
Definition three_repositories : Store RepositoryCreatedPayload := created 3 (created 2 (created 1 New)).
(** A fourth is created after the first page. *)
Definition growing (n : nat) : Store RepositoryCreatedPayload := match n with O => three_repositories | S _ => created 4 three_repositories end.

Section sample.
#[local] Existing Instance some_range.

Lemma repositories_sample : reachable (fun p => p) (created 4 three_repositories).
Proof. repeat (apply reachable_Create; [|vm_compute; reflexivity|unfold uuid_ok; cbn; lia|done]). apply reachable_New. Qed.

Lemma repositories_announced_witness :
  size (repositories (created 4 three_repositories)) = 4%nat /\
  filed r_ID (repositories (created 4 three_repositories)) /\
  repository_events (created 4 three_repositories) ≡ₚ expected_events (fun p => p) (created 4 three_repositories).
Proof.
  split; [vm_compute; reflexivity|].
  destruct (repositories_announced (fun p => p) (created 4 three_repositories) repositories_sample) as (Hf & _ & _ & He). by split.
Defined.

Lemma paging_visits_all_witness :
  exists visited, visit 1 5 growing zero_cursor 2 = Some visited /\ map r_ID visited = [3; 2; 1] /\
    (forall r, repositories three_repositories !! r_ID r = Some r -> r_OrgID r = 1 -> r ∈ visited).
Proof.
  assert (Hk : forall i, well_kept (growing i)).
  { assert (Hr : forall s : Store RepositoryCreatedPayload, reachable (fun p => p) s -> users s = ∅ -> agents s = ∅ -> partitionArchives s = ∅ ->
      cloneTokens s = ∅ -> quotaAccounts s = ∅ -> well_kept s).
    { intros s Hs E1 E2 E3 E4 E5. destruct (repositories_announced _ s Hs) as (Hf & Hp & _). split; [|done].
      split; [rewrite E1|rewrite E2|done|rewrite E3|rewrite E4|rewrite E5]; apply map_Forall_empty. }
    pose proof repositories_sample as H4. intros [|i]; apply Hr; try reflexivity; [|exact H4].
    repeat (apply reachable_Create; [|vm_compute; reflexivity|unfold uuid_ok; cbn; lia|done]). apply reachable_New. }
  assert (Hg : forall i, repositories (growing i) ⊆ repositories (growing (S i))).
  { intros [|i]; [|done]. unfold growing, created at 1. rewrite CreateRepository_spec. apply insert_subseteq. vm_compute. reflexivity. }
  assert (Hn : forall i : nat, (length (org_repositories 1%Z (growing i)) <= 4)%nat) by (intros [|i]; vm_compute; lia).
  destruct (paging_visits_all 1 growing 2 4 Hk Hg Hn) as (v & Hv & _ & _ & Hc & _).
  exists v. split; [exact Hv|]. split; [|exact Hc].
  assert (E : visit 1 5 growing zero_cursor 2 = Some v) by exact Hv.
  assert (E' : (map r_ID <$> visit 1 5 growing zero_cursor 2) = Some [3; 2; 1]) by (vm_compute; reflexivity).
  rewrite E in E'. by injection E'.
Defined.
End sample.

(** [ErrSlugAlreadyExists] is never reported: nothing stands in the way of
    three repositories of one slug in one organisation. *)
Lemma slug_taken_three_times :
  map (fun kr => (kr.1, r_OrgID kr.2, r_Slug kr.2)) (map_to_list (repositories three_repositories)) ≡ₚ
  [(1, 1, "compiler"); (2, 1, "compiler"); (3, 1, "compiler")].
Proof. vm_compute. solve_Permutation. Qed.
