(* ===== verification/RestApi.v ===== *)
(** * The REST API

    [plane/application/restapi]: the principals and their resolver, the error
    mapping, the middleware (request id, authentication, rate limit), cursors,
    the identity and repository handlers and the router, over [Identity],
    [Repositories] and [RateLimiter].

    A request has its path split into decoded segments; [http.ServeMux] is
    [route].  A response body is the value handed to the JSON encoder.
    [uuid.Parse] is an argument. *)

From S2P Require Import Prelude GoStd GoFmt Sha256 Json JsonDecode TimeText Base64 Uuid RateLimiter Floats Outbox Actions.
From S2P Require Import MetadataStore Identity Repositories.

#[local] Arguments uuid_String : simpl never.
#[local] Arguments Marshal : simpl never.
#[local] Arguments Unmarshal : simpl never.
#[local] Arguments Decode : simpl never.

(** ** Principals *)

Inductive PrincipalKind := PrincipalUnknown | PrincipalHuman | PrincipalAgent.
#[export] Instance PrincipalKind_eq_dec : EqDecision PrincipalKind.
Proof. solve_decision. Defined.

Inductive Principal := HumanPrincipal (UserID : uuid) | AgentPrincipal (AgentID ParentUserID : uuid).
#[export] Instance Principal_eq_dec : EqDecision Principal.
Proof. solve_decision. Defined.

Definition Principal_Kind (p : Principal) : PrincipalKind :=
  match p with HumanPrincipal _ => PrincipalHuman | AgentPrincipal _ _ => PrincipalAgent end.
Definition Principal_ID (p : Principal) : uuid :=
  match p with HumanPrincipal id => id | AgentPrincipal id _ => id end.

(** ** Errors *)

Definition ErrInvalidToken := errors_New "restapi: invalid bearer token".
Definition DeadlineExceeded := errors_New "context deadline exceeded".

Definition ErrorCode := string.
Definition CodeUnauthenticated : ErrorCode := "unauthenticated".
Definition CodeForbidden : ErrorCode := "forbidden".
Definition CodeNotFound : ErrorCode := "not_found".
Definition CodeValidationFailed : ErrorCode := "validation_failed".
Definition CodeConflict : ErrorCode := "conflict".
Definition CodeRateLimited : ErrorCode := "rate_limited".
Definition CodeInternal : ErrorCode := "internal".

Definition Error (e : error) : string := match e with errors_New msg => msg | PgError code => code end.
Definition isUniqueViolation (e : error) : bool := bool_decide (e = PgError "23505").

Definition mapErr (e : error) : Z * ErrorCode * string :=
  if bool_decide (e ∈ [ErrInvalidEmail; ErrEmptyDisplayName; ErrEmptyRole; ErrInvalidSlug; ErrEmptyName; ErrInvalidVisibility])
  then (400, CodeValidationFailed, Error e)
  else if bool_decide (e ∈ [ErrUserNotFound; ErrAgentNotFound; ErrRepositoryNotFound]) then (404, CodeNotFound, Error e)
  else if bool_decide (e = ErrSlugAlreadyExists) then (409, CodeConflict, Error e)
  else if bool_decide (e = ErrNotImplemented) then (501, CodeInternal, "not implemented")
  else if bool_decide (e = DeadlineExceeded) then (504, CodeInternal, "deadline exceeded")
  else if isUniqueViolation e then (409, CodeConflict, "resource already exists")
  else (500, CodeInternal, "internal error").

(** ** Requests and responses *)

Record request := mkRequest {
  rq_method : string; rq_path : list string; rq_header : string -> string; rq_query : string -> string; rq_body : string;
  rq_internal : bool }.

Record errorBody := mkErrorBody { eb_Code : ErrorCode; eb_Message : string; eb_RequestID : string }.
Record userResponse := mkUserResponse { ur_ID : string; ur_Email : string; ur_RateBucket : string; ur_CreatedAt : time }.
Record agentResponse := mkAgentResponse {
  gr_ID : string; gr_DisplayName : string; gr_ParentUserID : string; gr_PermissionScope : list string; gr_RateBucket : string;
  gr_ReputationScore : float; gr_CreatedAt : time }.
Record repositoryResponse := mkRepositoryResponse {
  rr_ID : string; rr_OrgID : string; rr_OwnerID : string; rr_Slug : string; rr_Name : string; rr_DefaultBranch : string;
  rr_Visibility : string; rr_CreatedAt : time }.
Record listResponse := mkListResponse { lr_Items : list repositoryResponse; lr_NextCursor : string }.

Inductive body :=
| NoBody
| TextBody (s : string)
| ErrorBody (e : errorBody)
| UserBody (u : userResponse)
| AgentBody (a : agentResponse)
| RepositoryBody (r : repositoryResponse)
| ListBody (l : listResponse).

Record response := mkResponse { rs_status : Z; rs_headers : list (string * string); rs_body : body }.

Definition toUserResponse (u : HumanUser) : userResponse :=
  mkUserResponse (uuid_String (u_ID u)) (u_Email u) (u_RateBucket u) (u_CreatedAt u).
Definition toAgentResponse (a : AgentIdentity) : agentResponse :=
  mkAgentResponse (uuid_String (a_ID a)) (a_DisplayName a) (uuid_String (a_ParentUserID a)) (a_PermissionScope a)
    (a_RateBucket a) (a_ReputationScore a) (a_CreatedAt a).
Definition toRepositoryResponse (r : Repository) : repositoryResponse :=
  mkRepositoryResponse (uuid_String (r_ID r)) (uuid_String (r_OrgID r)) (uuid_String (r_OwnerID r)) (r_Slug r) (r_Name r)
    (r_DefaultBranch r) (r_Visibility r) (r_CreatedAt r).

Definition json_content : string * string := ("Content-Type", "application/json; charset=utf-8").
Definition writeError (requestID : string) (status : Z) (code : ErrorCode) (msg : string) : response :=
  mkResponse status [json_content] (ErrorBody (mkErrorBody code msg requestID)).
Definition writeJSON (status : Z) (headers : list (string * string)) (b : body) : response :=
  mkResponse status (headers ++ [json_content]) b.

(** ** Cursors *)

Definition errInvalidCursor := errors_New "restapi: invalid cursor".

Definition cursor_json (c : Cursor) : option jval :=
  t ← marshal_time (AfterCreatedAt c); Some (VObj [("after_created_at", t); ("after_id", VStr (uuid_String (AfterID c)))]).

Definition EncodeCursor (c : Cursor) : string :=
  if Cursor_IsZero c then ""
  else match cursor_json c with
       | None => ""
       | Some j => EncodeToString RawURLEncoding (s2l (Marshal j))
       end.

Section cursors.
Context (Parse : string -> option uuid).

Definition dec_uuid_text (v : jval) : option uuid := match v with VStr s => Parse s | _ => None end.

Definition DecodeCursor (s : string) : result error Cursor :=
  if bool_decide (s = "") then Ok zero_cursor
  else match DecodeString RawURLEncoding s with
       | None => Err errInvalidCursor
       | Some raw =>
           match (j ← Unmarshal (l2s raw); ms ← struct_members j;
                  t ← decode_field dec_time zero_time "after_created_at" ms;
                  i ← decode_field dec_uuid_text uuid_Nil "after_id" ms;
                  Some (mkCursor t i)) with
           | None => Err errInvalidCursor
           | Some c => Ok c
           end
       end.
End cursors.

(** ** Authentication *)
Section authentication.
Context (Parse : string -> option uuid) {P : Type}.

(** [IdentityResolver.Resolve]; its two reads may see different states of the
    store. *)
Definition IdentityResolver_Resolve (reads : nat -> Store P) (bearer : string) : result error Principal :=
  match Parse bearer with
  | None => Err ErrInvalidToken
  | Some id =>
      match LookupIdentityForCache id (reads 0%nat) with
      | None => Err ErrInvalidToken
      | Some entry =>
          if bool_decide (ce_Kind entry = "human") then Ok (HumanPrincipal (ce_PrincipalID entry))
          else if bool_decide (ce_Kind entry = "agent") then
            match GetAgentByID id (reads 1%nat) with
            | None => Err ErrInvalidToken
            | Some agent => Ok (AgentPrincipal (a_ID agent) (a_ParentUserID agent))
            end
          else Err (errors_New ("restapi: unknown principal kind " +:+ ce_Kind entry))
      end
  end.

(** The principal of a request, or the message of the refusal. *)
Definition authenticate (reads : nat -> Store P) (r : request) : result string Principal :=
  let h := rq_header r "Authorization" in
  if bool_decide (h = "") then Err "missing Authorization header"
  else if negb (HasPrefix h "Bearer ") then Err "expected 'Bearer <token>'"
  else
    let token := TrimSpace (TrimPrefix h "Bearer ") in
    if bool_decide (token = "") then Err "empty bearer token"
    else match IdentityResolver_Resolve reads token with
         | Err _ => Err "invalid bearer token"
         | Ok p => Ok p
         end.

Definition looksLikeUUID (s : string) : bool := bool_decide (is_Some (Parse s)).

(** The id of the request; [fresh] is [uuid.NewString()]. *)
Definition requestID (fresh : string) (r : request) : string :=
  let id := rq_header r "X-Request-Id" in
  if bool_decide (id = "") || negb (looksLikeUUID id) then fresh else id.
End authentication.

(** ** Rate limiting *)

Record RateConfig := mkRateConfig {
  AgentCapacity : float; AgentRefillPerSec : float; HumanCapacity : float; HumanRefillPerSec : float }.

Definition rateLimitSurface : string := "rest_api".
Definition TokenBucketKey (principal surface : string) : string := "rl:bucket:" +:+ principal +:+ ":" +:+ surface.

Definition bucketParams (cfg : RateConfig) (kind : PrincipalKind) : float * float :=
  match kind with
  | PrincipalAgent => (AgentCapacity cfg, AgentRefillPerSec cfg)
  | PrincipalHuman => (HumanCapacity cfg, HumanRefillPerSec cfg)
  | PrincipalUnknown => (f0, f0)
  end.

Definition retryAfter (int_of_wide : spec_float -> Z) (refillPerSec : float) : string :=
  if SFleb refillPerSec f0 then "1"
  else
    let q := fdiv f1 refillPerSec in
    let secs := int_of_float64 int_of_wide q (float_ceil q) in
    Itoa (if secs <? 1 then 1 else secs).

(** What the limiter says to a request: let it through, refuse it, or nothing
    because its backend failed. *)
Inductive draw := Granted | Refused | LimiterDown.

Definition draw_token (cfg : RateConfig) (surface : string) (up : bool) (now : time) (p : Principal) (m : MemoryLimiter float)
  : draw * MemoryLimiter float :=
  let '(capacity, refill) := bucketParams cfg (Principal_Kind p) in
  if SFleb capacity f0 || flt refill f0 then (Granted, m)
  else if negb up then (LimiterDown, m)
  else
    let '(granted, _, m) := Take now (TokenBucketKey (uuid_String (Principal_ID p)) surface) capacity refill f1 m in
    (if granted : bool then Granted else Refused, m).

(** ** What a request meets

    Reads outside transactions see [sv_reads]: the first two are the
    resolver's, the third the handler's own.  The rest are the surroundings of
    the one transaction it can run, the clock and the ids drawn. *)
Section handlers.
Context (Parse : string -> option uuid) {P : Type} {MR : MapRange}.
Context (ipay : identity_payload -> P) (rpay : RepositoryCreatedPayload -> P).

Record served := mkServed {
  sv_now : time; sv_freshID : string; sv_limiter_up : bool; sv_reads : nat -> Store P;
  sv_cancelled : nat -> option error; sv_attempts : nat -> attempt P;
  sv_hash : string -> result error string; sv_uuid : uuid; sv_t1 : time; sv_t2 : time; sv_call : call P }.

(** A handler gives its response or breaks off with one. *)
Definition handler := action response (Store P) response.

Section request.
Context (e : served) (r : request) (rid : string) (p : option Principal).

Definition fail {A} (status : Z) (code : ErrorCode) (msg : string) : action response (Store P) A :=
  throw (writeError rid status code msg).
Definition check (ok : bool) (status : Z) (code : ErrorCode) (msg : string) : action response (Store P) unit :=
  if ok then ret tt else fail status code msg.
Definition given {A} (o : option A) (status : Z) (code : ErrorCode) (msg : string) : action response (Store P) A :=
  match o with Some a => ret a | None => fail status code msg end.
(** A call to a service, with its error mapped. *)
Definition served_by {A} (m : action error (Store P) A) : action response (Store P) A := fun s =>
  match m s with
  | (s', Ok a) => (s', Ok a)
  | (s', Err err) => let '(status, code, msg) := mapErr err in (s', Err (writeError rid status code msg))
  end.

Definition members : option (list (string * jval)) := j ← Decode (rq_body r); struct_members j.
Definition is_human (q : Principal) : bool := bool_decide (Principal_Kind q = PrincipalHuman).

(** *** Users and agents *)

Definition createUser_body : option (string * string) :=
  ms ← members; email ← decode_field dec_string "" "email" ms; cred ← decode_field dec_string "" "credential" ms;
  Some (email, cred).
Definition createUser : handler :=
  let! _ := check (match p with Some (AgentPrincipal _ _) => false | _ => true end) 403 CodeForbidden
              "agents may not create users" in
  let! (email, cred) := given createUser_body 400 CodeValidationFailed "invalid JSON body" in
  let! u := served_by (CreateUser ipay (sv_cancelled e) (sv_attempts e) (sv_hash e) (sv_uuid e) (sv_t1 e) (sv_t2 e) email cred) in
  ret (writeJSON 201 [("Location", "/v1/users/" +:+ uuid_String (u_ID u))] (UserBody (toUserResponse u))).

Definition getUser (idText : string) : handler :=
  let! id := given (Parse idText) 400 CodeValidationFailed "id is not a UUID" in
  let! u := given (GetUser id (sv_reads e 2%nat)) 404 CodeNotFound "user not found" in
  ret (writeJSON 200 [] (UserBody (toUserResponse u))).

Definition createAgent_body : option (string * string * list string) :=
  ms ← members; parent ← decode_field dec_string "" "parent_user_id" ms;
  name ← decode_field dec_string "" "display_name" ms; scope ← decode_into strings_into [] "permission_scope" ms;
  Some (parent, name, scope).
Definition createAgent : handler :=
  let! (parentText, name, scope) := given createAgent_body 400 CodeValidationFailed "invalid JSON body" in
  let! parent := given (Parse parentText) 400 CodeValidationFailed "parent_user_id is not a UUID" in
  let! q := given p 401 CodeUnauthenticated "missing principal" in
  let! _ := check (is_human q && (Principal_ID q =? parent)) 403 CodeForbidden
              "principal may not create agents under another user" in
  let! a := served_by (CreateAgent ipay (sv_cancelled e) (sv_attempts e) (sv_uuid e) (sv_t1 e) (sv_t2 e) parent name scope) in
  ret (writeJSON 201 [("Location", "/v1/agents/" +:+ uuid_String (a_ID a))] (AgentBody (toAgentResponse a))).

Definition getAgent (idText : string) : handler :=
  let! id := given (Parse idText) 400 CodeValidationFailed "id is not a UUID" in
  let! a := given (GetAgent id (sv_reads e 2%nat)) 404 CodeNotFound "agent not found" in
  ret (writeJSON 200 [] (AgentBody (toAgentResponse a))).

(** The reason of a body that need not be one: the last text given for it. *)
Definition revoke_reason : string :=
  match members with
  | Some ms => fold_left (fun acc v => match v with VStr s => s | _ => acc end) (field_values "reason" ms) ""
  | None => ""
  end.
Definition revokeAgent (idText : string) : handler :=
  let! id := given (Parse idText) 400 CodeValidationFailed "id is not a UUID" in
  let! q := given p 401 CodeUnauthenticated "missing principal" in
  let! target := given (GetAgent id (sv_reads e 2%nat)) 404 CodeNotFound "agent not found" in
  let! _ := match q with
            | HumanPrincipal uid => check (uid =? a_ParentUserID target) 403 CodeForbidden "human may only revoke agents they own"
            | AgentPrincipal aid _ => check (aid =? a_ID target) 403 CodeForbidden "agent may only revoke itself"
            end in
  let! _ := served_by (Service_RevokeAgent ipay (sv_cancelled e) (sv_attempts e) id revoke_reason) in
  ret (mkResponse 204 [] NoBody).

Definition updatePerms_body : option (list string) := ms ← members; decode_into strings_into [] "permission_scope" ms.
Definition updatePerms (idText : string) : handler :=
  let! id := given (Parse idText) 400 CodeValidationFailed "id is not a UUID" in
  let! scope := given updatePerms_body 400 CodeValidationFailed "invalid JSON body" in
  let! q := given p 401 CodeUnauthenticated "missing principal" in
  let! target := given (GetAgent id (sv_reads e 2%nat)) 404 CodeNotFound "agent not found" in
  let! _ := check (is_human q && (Principal_ID q =? a_ParentUserID target)) 403 CodeForbidden
              "only the parent user may update agent permissions" in
  let! _ := served_by (Service_UpdateAgentPermissions ipay (sv_cancelled e) (sv_attempts e) id scope) in
  ret (mkResponse 204 [] NoBody).

(** *** Repositories *)

Definition createRepo_body : option (string * string * string * string * string) :=
  ms ← members; org ← decode_field dec_string "" "org_id" ms; slug ← decode_field dec_string "" "slug" ms;
  name ← decode_field dec_string "" "name" ms; branch ← decode_field dec_string "" "default_branch" ms;
  visibility ← decode_field dec_string "" "visibility" ms;
  Some (org, slug, name, branch, visibility).
Definition createRepo : handler :=
  let! q := given p 401 CodeUnauthenticated "missing principal" in
  let! _ := check (is_human q) 403 CodeForbidden "only humans may create repositories via REST" in
  let! (orgText, slug, name, branch, visibility) := given createRepo_body 400 CodeValidationFailed "invalid JSON body" in
  let! orgID := given (Parse orgText) 400 CodeValidationFailed "org_id is not a UUID" in
  let! repo := served_by (CreateRepository rpay (sv_call e) (mkCreateInput orgID (Principal_ID q) slug name branch visibility)) in
  ret (writeJSON 201 [("Location", "/v1/repos/" +:+ uuid_String (r_ID repo))] (RepositoryBody (toRepositoryResponse repo))).

Definition getRepo (idText : string) : handler :=
  let! id := given (Parse idText) 400 CodeValidationFailed "id is not a UUID" in
  let! repo := given (GetRepository id (sv_reads e 2%nat)) 404 CodeNotFound "repository not found" in
  ret (writeJSON 200 [] (RepositoryBody (toRepositoryResponse repo))).

Definition deleteRepo (idText : string) : handler :=
  let! _ := given (Parse idText) 400 CodeValidationFailed "id is not a UUID" in
  fail 501 CodeInternal "repository deletion not implemented".

Definition query_limit : option Z :=
  let v := rq_query r "limit" in
  if bool_decide (v = "") then Some 20
  else match Atoi v with Some n => if n <=? 0 then None else Some n | None => None end.
Definition listOrgRepos (orgText : string) : handler :=
  let! orgID := given (Parse orgText) 400 CodeValidationFailed "org is not a UUID" in
  let! cursor := given (match DecodeCursor Parse (rq_query r "cursor") with Ok c => Some c | Err _ => None end)
                   400 CodeValidationFailed "invalid cursor" in
  let! limit := given query_limit 400 CodeValidationFailed "limit must be a positive integer" in
  let '(rows, next) := Service_ListByOrg orgID cursor limit (sv_reads e 2%nat) in
  ret (writeJSON 200 [] (ListBody (mkListResponse (map toRepositoryResponse rows) (from_option EncodeCursor "" next)))).
End request.

(** ** The router *)

Inductive segment := Lit (s : string) | Wild.
Inductive endpoint :=
| EpCreateUser | EpGetUser | EpCreateAgent | EpGetAgent | EpRevokeAgent | EpUpdatePerms
| EpCreateRepo | EpGetRepo | EpDeleteRepo | EpListOrgRepos | EpHealthz.

Definition routes : list (string * list segment * endpoint) :=
  [("POST", [Lit "v1"; Lit "users"], EpCreateUser); ("GET", [Lit "v1"; Lit "users"; Wild], EpGetUser);
   ("POST", [Lit "v1"; Lit "agents"], EpCreateAgent); ("GET", [Lit "v1"; Lit "agents"; Wild], EpGetAgent);
   ("DELETE", [Lit "v1"; Lit "agents"; Wild], EpRevokeAgent);
   ("PATCH", [Lit "v1"; Lit "agents"; Wild; Lit "permissions"], EpUpdatePerms);
   ("POST", [Lit "v1"; Lit "repos"], EpCreateRepo); ("GET", [Lit "v1"; Lit "repos"; Wild], EpGetRepo);
   ("DELETE", [Lit "v1"; Lit "repos"; Wild], EpDeleteRepo);
   ("GET", [Lit "v1"; Lit "orgs"; Wild; Lit "repos"], EpListOrgRepos); ("GET", [Lit "healthz"], EpHealthz)].

(** The wildcards' values, if the path matches; a wildcard is not empty. *)
Fixpoint match_path (pat : list segment) (path : list string) : option (list string) :=
  match pat, path with
  | [], [] => Some []
  | Lit s :: pat', x :: path' => if bool_decide (x = s) then match_path pat' path' else None
  | Wild :: pat', x :: path' =>
      if bool_decide (x = "") then None else vs ← match_path pat' path'; Some (x :: vs)
  | _, _ => None
  end.

(** A pattern for [GET] serves [HEAD] too. *)
Definition method_matches (pattern method : string) : bool :=
  bool_decide (method = pattern) || bool_decide (pattern = "GET" /\ method = "HEAD").

Inductive routing (Ep : Type) := RouteTo (ep : Ep) (wild : list string) | MethodNotAllowed | NoRoute.
#[global] Arguments RouteTo {Ep}.
#[global] Arguments MethodNotAllowed {Ep}.
#[global] Arguments NoRoute {Ep}.
Definition route {Ep} (table : list (string * list segment * Ep)) (method : string) (path : list string) : routing Ep :=
  match list_find (fun x => method_matches x.1.1 method = true /\ is_Some (match_path x.1.2 path)) table with
  | Some (_, (_, pat, ep)) => RouteTo ep (default [] (match_path pat path))
  | None =>
      if existsb (fun x => bool_decide (is_Some (match_path x.1.2 path))) table then MethodNotAllowed else NoRoute
  end.

Definition handle (e : served) (r : request) (rid : string) (p : option Principal) (ep : endpoint) (wild : list string) : handler :=
  let arg := default "" (head wild) in
  match ep with
  | EpCreateUser => createUser e r rid p
  | EpGetUser => getUser e rid arg
  | EpCreateAgent => createAgent e r rid p
  | EpGetAgent => getAgent e rid arg
  | EpRevokeAgent => revokeAgent e r rid p arg
  | EpUpdatePerms => updatePerms e r rid p arg
  | EpCreateRepo => createRepo e r rid p
  | EpGetRepo => getRepo e rid arg
  | EpDeleteRepo => deleteRepo rid arg
  | EpListOrgRepos => listOrgRepos e r rid arg
  | EpHealthz => ret (mkResponse 200 [] (TextBody "ok"))
  end.

Definition mux (e : served) (r : request) (rid : string) (p : option Principal) (s : Store P) : Store P * response :=
  match route routes (rq_method r) (rq_path r) with
  | RouteTo ep wild =>
      match handle e r rid p ep wild s with
      | (s', Ok resp) | (s', Err resp) => (s', resp)
      end
  | MethodNotAllowed => (s, mkResponse 405 [] (TextBody "Method Not Allowed"))
  | NoRoute => (s, mkResponse 404 [] (TextBody "404 page not found"))
  end.

(** ** The middleware *)

Record api := mkApi { api_store : Store P; api_limiter : MemoryLimiter float }.

Definition with_header (h : string * string) (resp : response) : response :=
  mkResponse (rs_status resp) (h :: rs_headers resp) (rs_body resp).

Context (int_of_wide : spec_float -> Z) (cfg : RateConfig).

Definition rateLimited (e : served) (r : request) (rid : string) (p : option Principal) (a : api) : api * response :=
  let next m := let '(s', resp) := mux e r rid p (api_store a) in (mkApi s' m, resp) in
  if bool_decide (rq_path r = ["healthz"]) || rq_internal r then next (api_limiter a)
  else
    match p with
    | None => (a, writeError rid 401 CodeUnauthenticated "missing principal")
    | Some q =>
        match draw_token cfg rateLimitSurface (sv_limiter_up e) (sv_now e) q (api_limiter a) with
        | (Granted, m) => next m
        | (LimiterDown, m) => (mkApi (api_store a) m, writeError rid 500 CodeInternal "rate-limit backend error")
        | (Refused, m) =>
            (mkApi (api_store a) m,
             with_header ("Retry-After", retryAfter int_of_wide (bucketParams cfg (Principal_Kind q)).2)
               (writeError rid 429 CodeRateLimited "rate limit exceeded"))
        end
    end.

Definition authenticated (e : served) (r : request) (rid : string) (a : api) : api * response :=
  if bool_decide (rq_path r = ["healthz"]) then rateLimited e r rid None a
  else
    match authenticate Parse (sv_reads e) r with
    | Err msg => (a, writeError rid 401 CodeUnauthenticated msg)
    | Ok p => rateLimited e r rid (Some p) a
    end.

(** [NewRouter]'s handler. *)
Definition ServeHTTP (e : served) (r : request) (a : api) : api * response :=
  let rid := requestID Parse (sv_freshID e) r in
  let '(a', resp) := authenticated e r rid a in (a', with_header ("X-Request-Id", rid) resp).
End handlers.

Arguments served P : clear implicits.
Arguments api P : clear implicits.

(** ** Who may do what *)
Section authority.
Context (Parse : string -> option uuid) {P : Type} {MR : MapRange}.
Context (ipay : identity_payload -> P) (rpay : RepositoryCreatedPayload -> P).

(** What a request can do to the store. *)
Inductive rest_op := IdentityOp (o : op) | RepositoryOp (i : CreateInput).

Definition run_rest_op (e : served P) (o : rest_op) : action error (Store P) unit :=
  match o with
  | IdentityOp o => run_op ipay (sv_cancelled e) (sv_attempts e) o
  | RepositoryOp i => void (CreateRepository rpay (sv_call e) i)
  end.

(** What the handlers check of the principal: humans create humans; a human
    creates agents under itself and repositories it owns; an agent is revoked by
    its parent or itself, and only its parent changes its permissions.  Of the
    organisation of a repository nothing is checked. *)
Definition permitted (s : Store P) (q : Principal) (o : rest_op) : Prop :=
  match o with
  | IdentityOp (OpCreateUser _ _ _ _ _ _) => Principal_Kind q = PrincipalHuman
  | IdentityOp (OpCreateAgent _ _ _ parent _ _) => q = HumanPrincipal parent
  | IdentityOp (OpRevokeAgent id _) => exists a, agents s !! id = Some a /\
      (q = HumanPrincipal (a_ParentUserID a) \/ exists parent, q = AgentPrincipal (a_ID a) parent)
  | IdentityOp (OpUpdatePermissions id _) => exists a, agents s !! id = Some a /\ q = HumanPrincipal (a_ParentUserID a)
  | RepositoryOp i => q = HumanPrincipal (cr_OwnerID i)
  | _ => False
  end.

(** The operation that a request asks for, by its method, its path and what its
    body says. *)
Definition asked (r : request) (o : rest_op) : Prop :=
  match o with
  | IdentityOp (OpCreateUser _ _ _ _ email cred) =>
      rq_method r = "POST" /\ rq_path r = ["v1"; "users"] /\ createUser_body r = Some (email, cred)
  | IdentityOp (OpCreateAgent _ _ _ parent name scope) =>
      rq_method r = "POST" /\ rq_path r = ["v1"; "agents"] /\ exists text, createAgent_body r = Some (text, name, scope) /\ Parse text = Some parent
  | IdentityOp (OpRevokeAgent id reason) =>
      rq_method r = "DELETE" /\ (exists text, rq_path r = ["v1"; "agents"; text] /\ Parse text = Some id) /\ reason = revoke_reason r
  | IdentityOp (OpUpdatePermissions id scope) =>
      rq_method r = "PATCH" /\ (exists text, rq_path r = ["v1"; "agents"; text; "permissions"] /\ Parse text = Some id) /\
      updatePerms_body r = Some scope
  | RepositoryOp i =>
      rq_method r = "POST" /\ rq_path r = ["v1"; "repos"] /\
      exists text, createRepo_body r = Some (text, cr_Slug i, cr_Name i, cr_DefaultBranch i, cr_Visibility i) /\ Parse text = Some (cr_OrgID i)
  | _ => False
  end.

(** A handler either only answers, or does the one thing asked for, which is
    permitted, and says so. *)
Definition lawful (e : served P) (r : request) (q : Principal) (s : Store P) (x : Store P * result response response) : Prop :=
  match x with
  | (s', Err resp) => s' = s /\ 400 <= rs_status resp
  | (s', Ok resp) =>
      s' = s /\ rs_status resp = 200 \/
      exists o, asked r o /\ permitted (sv_reads e 2%nat) q o /\ run_rest_op e o s = (s', Ok tt) /\ rs_status resp ∈ [201; 204]
  end.

Context (e : served P) (r : request) (rid : string) (q : Principal) (s : Store P).

Lemma lawful_check ok status code msg k : 400 <= status -> (ok = true -> lawful e r q s (k tt s)) ->
  lawful e r q s (bind (check rid ok status code msg) k s).
Proof. intros Hst Hk. unfold check, bind. destruct ok; [by apply Hk|]. by split. Qed.
Lemma lawful_given {A} (o : option A) status code msg k : 400 <= status -> (forall a, o = Some a -> lawful e r q s (k a s)) ->
  lawful e r q s (bind (given rid o status code msg) k s).
Proof. intros Hst Hk. unfold given, bind. destruct o; [by apply Hk|]. by split. Qed.
Lemma lawful_ok b headers : lawful e r q s (ret (writeJSON 200 headers b) s).
Proof. by left. Qed.

Lemma mapErr_status err : 400 <= (mapErr err).1.1.
Proof. unfold mapErr. repeat (case_bool_decide; [cbn; lia|]). destruct (isUniqueViolation err); cbn; lia. Qed.

(** A call to a service, and the answer that reports it. *)
Lemma lawful_served {A} o (m : action error (Store P) A) (answer : A -> response) :
  asked r o -> permitted (sv_reads e 2%nat) q o -> rolls_back m -> (forall s', (exists a, m s = (s', Ok a)) -> run_rest_op e o s = (s', Ok tt)) ->
  (forall a, rs_status (answer a) ∈ [201; 204]) ->
  lawful e r q s (bind (served_by rid m) (fun a => ret (answer a)) s).
Proof.
  intros Hasked Hp Hr Ho Ha. unfold served_by, bind. destruct (m s) as [s' [a|err]] eqn:E.
  - right. exists o. split_and!; [done|done|apply Ho; eauto|apply Ha].
  - pose proof (mapErr_status err) as Hst. destruct (mapErr err) as [[st c] msg]. split; [by eapply Hr|done].
Qed.

Lemma void_run {A} (m : action error (Store P) A) s' : (exists a, m s = (s', Ok a)) -> void m s = (s', Ok tt).
Proof. intros [a E]. unfold void. by rewrite (bind_Ok _ _ _ _ _ E). Qed.

Lemma rolls_back_CreateRepository i c : rolls_back (CreateRepository rpay c i).
Proof. intros w w' err. rewrite CreateRepository_spec. repeat case_match; congruence. Qed.

Lemma rolls_back_void {A} (m : action error (Store P) A) : rolls_back (void m) -> rolls_back m.
Proof.
  intros Hm w w' err E. apply (Hm w w' err). unfold void, bind. by rewrite E.
Qed.

Lemma is_human_ID uid : is_human q && (Principal_ID q =? uid) = true -> q = HumanPrincipal uid.
Proof. destruct q as [id|id parent]; unfold is_human; cbn; [|done]. intros E%Z.eqb_eq. by subst. Qed.

End authority.

(** The path that a pattern has with these values. *)
Fixpoint fill (pat : list segment) (vs : list string) : option (list string) :=
  match pat, vs with
  | [], [] => Some []
  | Lit s :: pat', _ => cons s <$> fill pat' vs
  | Wild :: pat', v :: vs' => cons v <$> fill pat' vs'
  | _, _ => None
  end.
Lemma match_path_fill pat : forall path vs, match_path pat path = Some vs -> fill pat vs = Some path.
Proof.
  induction pat as [|[s|] pat IH]; intros [|x path] vs H; try done; cbn [match_path] in H.
  - by injection H as <-.
  - case_bool_decide; [subst|done]. apply IH in H. cbn [fill]. by rewrite H.
  - case_bool_decide; [done|]. destruct (match_path pat path) as [vs'|] eqn:E; [|done]. injection H as <-. apply IH in E. cbn [fill]. by rewrite E.
Qed.
Lemma method_exact pattern method : method_matches pattern method = true -> pattern <> "GET" -> method = pattern.
Proof. unfold method_matches. intros [H%bool_decide_eq_true|[H _]%bool_decide_eq_true]%orb_true_iff Hne; done. Qed.

(** What the method and the path are of a request that reaches an endpoint. *)
Lemma route_asks method path ep wild : route routes method path = RouteTo ep wild ->
  match ep with
  | EpCreateUser => method = "POST" /\ path = ["v1"; "users"]
  | EpCreateAgent => method = "POST" /\ path = ["v1"; "agents"]
  | EpRevokeAgent => method = "DELETE" /\ exists text, path = ["v1"; "agents"; text] /\ wild = [text]
  | EpUpdatePerms => method = "PATCH" /\ exists text, path = ["v1"; "agents"; text; "permissions"] /\ wild = [text]
  | EpCreateRepo => method = "POST" /\ path = ["v1"; "repos"]
  | _ => True
  end.
Proof.
  unfold route. destruct (list_find _ _) as [[i [[m pat] ep']]|] eqn:El; [|by destruct (existsb _ _)]. intros [= -> <-].
  apply list_find_Some in El as (Hi & [Hm [vs Hv]] & _). cbn [fst snd] in Hm, Hv. rewrite Hv. cbn [default]. apply match_path_fill in Hv.
  pose proof (method_exact m method Hm) as Hx. apply list_elem_of_lookup_2 in Hi. unfold routes in Hi.
  repeat (apply elem_of_cons in Hi as [[= -> -> ->]|Hi];
    [try done; cbn in Hv; repeat (destruct vs as [|? vs]; try done); injection Hv as <-; (split; [by apply Hx|]); by try eexists|]).
  by apply elem_of_nil in Hi.
Qed.

Lemma handle_lawful (Parse : string -> option uuid) {P} {MR : MapRange} (ipay : identity_payload -> P)
    (rpay : RepositoryCreatedPayload -> P) (e : served P) r rid q s ep wild :
  route routes (rq_method r) (rq_path r) = RouteTo ep wild ->
  lawful Parse ipay rpay e r q s (handle Parse ipay rpay e r rid (Some q) ep wild s).
Proof.
  intros Hroute%route_asks. destruct ep; cbn [handle]; cbn in Hroute.
  - unfold createUser. apply lawful_check; [done|]. intros Hq. apply lawful_given; [done|]. intros [email cred] Hb.
    eapply (lawful_served Parse ipay rpay e r rid q s (IdentityOp (OpCreateUser (sv_hash e) (sv_uuid e) (sv_t1 e) (sv_t2 e) email cred))).
    + by destruct Hroute.
    + by destruct q.
    + apply rolls_back_void. by apply (run_op_rolls_back ipay _ _ (OpCreateUser _ _ _ _ _ _)).
    + intros s'. apply void_run.
    + intros a. left.
  - unfold getUser. apply lawful_given; [done|]. intros id _. apply lawful_given; [done|]. intros u _. apply lawful_ok.
  - unfold createAgent. apply lawful_given; [done|]. intros [[parentText name] scope] Hb.
    apply lawful_given; [done|]. intros parent Hparent. apply lawful_given; [done|]. intros q' [= <-].
    apply lawful_check; [done|]. intros Hq%is_human_ID.
    eapply (lawful_served Parse ipay rpay e r rid q s (IdentityOp (OpCreateAgent (sv_uuid e) (sv_t1 e) (sv_t2 e) parent name scope))).
    + destruct Hroute. split_and!; [done|done|by exists parentText].
    + done.
    + apply rolls_back_void. by apply (run_op_rolls_back ipay _ _ (OpCreateAgent _ _ _ _ _ _)).
    + intros s'. apply void_run.
    + intros a. left.
  - unfold getAgent. apply lawful_given; [done|]. intros id _. apply lawful_given; [done|]. intros a _. apply lawful_ok.
  - destruct Hroute as (Hm & text & Hpath & ->). unfold revokeAgent. apply lawful_given; [done|]. cbn [head default]. intros id Hid0. apply lawful_given; [done|]. intros q' [= <-].
    apply lawful_given; [done|]. intros a Ha. set (k := fun _ : unit => bind _ _).
    assert (Hk : permitted (sv_reads e 2%nat) q (IdentityOp (OpRevokeAgent id (revoke_reason r))) -> lawful Parse ipay rpay e r q s (k tt s)).
    { intros Hp. eapply (lawful_served Parse ipay rpay e r rid q s (IdentityOp (OpRevokeAgent id (revoke_reason r)))); [by split_and!; [|exists text|]|done| | |intros; by right; left].
      - intros w w' err. apply (run_op_rolls_back ipay _ _ (OpRevokeAgent id _)).
      - intros s' [[] E]. exact E. }
    destruct q as [uid|aid parent] eqn:Eq; (apply lawful_check; [done|]); intros Hid%Z.eqb_eq; apply Hk; exists a;
      (split; [exact Ha|]); [left|right; exists parent]; by subst.
  - destruct Hroute as (Hm & text & Hpath & ->). unfold updatePerms. apply lawful_given; [done|]. cbn [head default]. intros id Hid0. apply lawful_given; [done|]. intros scope Hb.
    apply lawful_given; [done|]. intros q' [= <-]. apply lawful_given; [done|]. intros a Ha.
    apply lawful_check; [done|]. intros Hq%is_human_ID.
    eapply (lawful_served Parse ipay rpay e r rid q s (IdentityOp (OpUpdatePermissions id scope))); [by split_and!; [|exists text|]|by exists a| | |intros; by right; left].
    + intros w w' err. apply (run_op_rolls_back ipay _ _ (OpUpdatePermissions id scope)).
    + intros s' [[] E]. exact E.
  - unfold createRepo. apply lawful_given; [done|]. intros q' [= <-]. apply lawful_check; [done|]. intros Hq.
    apply lawful_given; [done|]. intros [[[[orgText slug] name] branch] visibility] Hb.
    apply lawful_given; [done|]. intros orgID Horg.
    eapply (lawful_served Parse ipay rpay e r rid q s (RepositoryOp (mkCreateInput orgID (Principal_ID q) slug name branch visibility))).
    + destruct Hroute. split_and!; [done|done|by exists orgText].
    + cbn. by destruct q.
    + apply rolls_back_CreateRepository.
    + intros s'. apply void_run.
    + intros a. left.
  - unfold getRepo. apply lawful_given; [done|]. intros id _. apply lawful_given; [done|]. intros a _. apply lawful_ok.
  - unfold deleteRepo. apply lawful_given; [done|]. intros id _. by split.
  - unfold listOrgRepos. apply lawful_given; [done|]. intros id _. apply lawful_given; [done|]. intros c _.
    apply lawful_given; [done|]. intros limit _. destruct (Service_ListByOrg _ _ _ _). apply lawful_ok.
  - by left.
Qed.

Lemma route_healthz method : match route routes method ["healthz"] with RouteTo ep _ => ep = EpHealthz | _ => True end.
Proof.
  unfold route. destruct (list_find _ _) as [[i [[m pat] ep]]|] eqn:El; [|by destruct (existsb _ _)].
  apply list_find_Some in El as (Hi & [_ [vs Hm]] & _). apply list_elem_of_lookup_2 in Hi. unfold routes in Hi.
  repeat (apply elem_of_cons in Hi as [[= -> -> ->]|Hi]; [first [done | discriminate Hm]|]). by apply elem_of_nil in Hi.
Qed.

Section api_theorems.
Context (Parse : string -> option uuid) {P : Type} {MR : MapRange}.
Context (ipay : identity_payload -> P) (rpay : RepositoryCreatedPayload -> P).
Context (int_of_wide : spec_float -> Z) (cfg : RateConfig).

Lemma mux_lawful (e : served P) r rid q s s' resp : mux Parse ipay rpay e r rid (Some q) s = (s', resp) ->
  s' = s /\ (rs_status resp = 200 \/ 400 <= rs_status resp) \/
  exists o, asked Parse r o /\ permitted (sv_reads e 2%nat) q o /\ run_rest_op ipay rpay e o s = (s', Ok tt) /\ rs_status resp ∈ [201; 204].
Proof.
  unfold mux. destruct (route _ _) as [ep wild| |] eqn:Er; [|intros [= <- <-]; left; cbn; split; [done|right; lia]..].
  pose proof (handle_lawful Parse ipay rpay e r rid q s ep wild Er) as Hl. unfold lawful in Hl.
  destruct (handle _ _ _ _ _ _ _ _ _ s) as [s1 [resp1|resp1]]; intros [= <- <-]; [|left; tauto].
  destruct Hl as [[-> ->]|Hl]; [left; tauto|by right].
Qed.

Lemma mux_healthz (e : served P) r rid s : rq_path r = ["healthz"] ->
  exists resp, mux Parse ipay rpay e r rid None s = (s, resp) /\ (rs_status resp = 200 \/ 400 <= rs_status resp).
Proof.
  intros Hp. unfold mux. rewrite Hp. pose proof (route_healthz (rq_method r)) as Hr.
  destruct (route _ _) as [ep wild| |]; [subst ep; eexists; split; [done|by left]| |]; (eexists; split; [done|right; cbn; lia]).
Qed.

(** The middleware either answers itself or passes the request on. *)
Lemma ServeHTTP_cases (e : served P) r a a' resp : ServeHTTP Parse ipay rpay int_of_wide cfg e r a = (a', resp) ->
  let rid := requestID Parse (sv_freshID e) r in
  exists resp', resp = with_header ("X-Request-Id", rid) resp' /\
  ((rq_path r = ["healthz"] /\ a' = a /\ (rs_status resp' = 200 \/ 400 <= rs_status resp')) \/
   (exists msg, authenticate Parse (sv_reads e) r = Err msg /\ a' = a /\ resp' = writeError rid 401 CodeUnauthenticated msg) \/
   exists q, authenticate Parse (sv_reads e) r = Ok q /\
   ((rq_internal r = true /\ api_limiter a' = api_limiter a \/
     rq_internal r = false /\ draw_token cfg rateLimitSurface (sv_limiter_up e) (sv_now e) q (api_limiter a) = (Granted, api_limiter a')) /\
     mux Parse ipay rpay e r rid (Some q) (api_store a) = (api_store a', resp') \/
    rq_internal r = false /\ (exists d, d <> Granted /\
      draw_token cfg rateLimitSurface (sv_limiter_up e) (sv_now e) q (api_limiter a) = (d, api_limiter a')) /\
      api_store a' = api_store a /\ 400 <= rs_status resp')).
Proof.
  unfold ServeHTTP, authenticated. set (rid := requestID _ _ _). intros H.
  destruct (bool_decide_reflect (rq_path r = ["healthz"])) as [Hp|Hp].
  - unfold rateLimited in H. rewrite bool_decide_true in H by done. cbn [orb] in H.
    destruct (mux_healthz e r rid (api_store a) Hp) as (resp' & E & Hst). rewrite E in H. injection H as <- <-.
    eexists. split; [done|]. left. split_and!; [done|by destruct a|done].
  - destruct (authenticate _ _ _) as [q|msg]; [|injection H as <- <-; eexists; split; [done|]; right; left; eauto].
    unfold rateLimited in H. rewrite bool_decide_false in H by done. cbn [orb] in H.
    destruct (rq_internal r).
    + destruct (mux _ _ _ _ _ _ _ _) as [s' resp'] eqn:E. injection H as <- <-. eexists. split; [done|]. right; right.
      exists q. split; [done|]. left. split; [by left|done].
    + destruct (draw_token _ _ _ _ _ _) as [[] m] eqn:Ed.
      * destruct (mux _ _ _ _ _ _ _ _) as [s' resp'] eqn:E. injection H as <- <-. eexists. split; [done|]. right; right.
        exists q. split; [done|]. left. split; [by right|done].
      * injection H as <- <-. eexists. split; [done|]. right; right. exists q. split; [done|]. right. cbn. split_and!; [done|by eexists; split; [|exact Ed]|done|lia].
      * injection H as <- <-. eexists. split; [done|]. right; right. exists q. split; [done|]. right. cbn. split_and!; [done|by eexists; split; [|exact Ed]|done|lia].
Qed.
End api_theorems.

(** C18: Whatever is sent to the REST API, it changes the store only by one
    operation, the one that the request's method, path and body ask for
    ([asked]), of an authenticated principal that passes the handler's check
    ([permitted]: of the organisation of a new repository nothing is checked),
    and says so with 201 or 204; every other answer, errors included, leaves the
    store as it was. *)
Theorem rest_changes_are_authorised {P} {MR : MapRange} Parse (ipay : identity_payload -> P) rpay int_of_wide cfg e r a a' resp :
  ServeHTTP Parse ipay rpay int_of_wide cfg e r a = (a', resp) ->
  api_store a' = api_store a /\ (rs_status resp = 200 \/ 400 <= rs_status resp) \/
  exists q o, authenticate Parse (sv_reads e) r = Ok q /\ asked Parse r o /\ permitted (sv_reads e 2%nat) q o /\
    run_rest_op ipay rpay e o (api_store a) = (api_store a', Ok tt) /\ rs_status resp ∈ [201; 204].
Proof.
  intros H. apply ServeHTTP_cases in H as (resp' & -> & [(_ & -> & Hs)|[(msg & _ & -> & ->)|(q & Hq & [[_ Hm]|(_ & _ & -> & Hs)])]]).
  - by left.
  - left. split; [done|]. right. cbn. lia.
  - apply mux_lawful in Hm as [?|(o & Ho)]; [by left|]. right. by exists q, o.
  - left. split; [done|by right].
Qed.

Lemma bucket_key_inj u v surface : uuid_ok u -> uuid_ok v ->
  TokenBucketKey (uuid_String u) surface = TokenBucketKey (uuid_String v) surface -> u = v.
Proof.
  unfold TokenBucketKey. intros Hu Hv E. apply uuid_String_inj; [done..|].
  apply (inj (String.append "rl:bucket:")) in E.
  apply (f_equal s2l) in E. rewrite !s2l_app in E. apply app_inj_2 in E as [E _]; [|done].
  apply (f_equal l2s) in E. by rewrite !l2s_s2l in E.
Qed.

Lemma draw_token_frame cfg surface up now q (m : MemoryLimiter float) key :
  key <> TokenBucketKey (uuid_String (Principal_ID q)) surface -> (draw_token cfg surface up now q m).2 !! key = m !! key.
Proof.
  intros Hk. unfold draw_token. destruct (bucketParams _ _) as [cap refill]. destruct (_ || _); [done|].
  destruct up; [|done]. cbn [negb]. unfold Take. destruct (take_bucket _ _ _ _ _) as [g b]. cbn [snd].
  by rewrite lookup_insert_ne by done.
Qed.

(** Only the principal a request is authenticated as pays for it: a request
    without a valid token costs nothing, an authenticated one touches no bucket
    but its own principal's for the REST surface, and one that changes the
    store from outside has drawn its token. *)
Theorem rest_requests_are_metered {P} {MR : MapRange} Parse (ipay : identity_payload -> P) rpay int_of_wide cfg e r a a' resp :
  ServeHTTP Parse ipay rpay int_of_wide cfg e r a = (a', resp) ->
  match authenticate Parse (sv_reads e) r with
  | Err _ => a' = a
  | Ok q =>
      (forall key, key <> TokenBucketKey (uuid_String (Principal_ID q)) rateLimitSurface ->
         api_limiter a' !! key = api_limiter a !! key) /\
      (rq_internal r = true -> api_limiter a' = api_limiter a) /\
      (rq_internal r = false -> api_store a' <> api_store a ->
         draw_token cfg rateLimitSurface (sv_limiter_up e) (sv_now e) q (api_limiter a) = (Granted, api_limiter a'))
  end.
Proof.
  intros H. apply ServeHTTP_cases in H as (resp' & _ & [(_ & -> & _)|[(msg & -> & -> & _)|(q & -> & H)]]);
    [by destruct (authenticate _ _ _)|done|].
  destruct H as [[[[Hi ->]|[Hi Hd]] _]|(Hi & (d & _ & Hd) & -> & _)]; rewrite Hi.
  - done.
  - split_and!; [|done|done]. intros key Hk. pose proof (draw_token_frame cfg rateLimitSurface (sv_limiter_up e) (sv_now e) q (api_limiter a) key Hk) as Hf.
    by rewrite Hd in Hf.
  - split_and!; [|done|done]. intros key Hk. pose proof (draw_token_frame cfg rateLimitSurface (sv_limiter_up e) (sv_now e) q (api_limiter a) key Hk) as Hf.
    by rewrite Hd in Hf.
Qed.

(** ** Cursors survive the URL *)

Definition cursor_object (c : Cursor) : jval :=
  VObj [("after_created_at", VTime (AfterCreatedAt c)); ("after_id", VStr (uuid_String (AfterID c)))].

Lemma EncodeCursor_text c : Cursor_IsZero c = false -> year_ok (AfterCreatedAt c) ->
  EncodeCursor c = EncodeToString RawURLEncoding (s2l (Marshal (cursor_object c))).
Proof. intros Hz Hy. unfold EncodeCursor, cursor_json. rewrite Hz, marshal_time_ok by done. reflexivity. Qed.

Lemma EncodeToString_nonempty enc l : l <> [] -> EncodeToString enc l <> "".
Proof.
  intros Hl E. apply (f_equal s2l) in E. unfold EncodeToString in E. rewrite s2l_l2s in E.
  by destruct l as [|a [|b [|c l]]].
Qed.

Lemma cursor_object_Unmarshal c : Unmarshal (Marshal (cursor_object c)) = Some (cursor_object c).
Proof.
  apply Unmarshal_marshal.
  - unfold cursor_object. cbn [encodable fold_right fst snd VTime]. split_and!; auto with gitscale; by apply is_ascii_true.
  - unfold cursor_object. cbn [nesting fold_right fst snd VTime]. unfold max_nesting. lia.
Qed.

Lemma cursor_object_nonempty c : s2l (Marshal (cursor_object c)) <> [].
Proof. unfold Marshal. rewrite s2l_l2s. unfold cursor_object. cbn [marshal]. discriminate. Qed.

Lemma DecodeCursor_EncodeCursor Parse c : (forall u, uuid_ok u -> Parse (uuid_String u) = Some u) ->
  Cursor_IsZero c = false -> year_ok (AfterCreatedAt c) -> uuid_ok (AfterID c) ->
  EncodeCursor c <> "" /\ DecodeCursor Parse (EncodeCursor c) = Ok c.
Proof.
  intros HP Hz Hy Hi. rewrite (EncodeCursor_text c Hz Hy).
  pose proof (EncodeToString_nonempty RawURLEncoding _ (cursor_object_nonempty c)) as Hne. split; [done|].
  unfold DecodeCursor. rewrite bool_decide_false by done.
  rewrite (DecodeString_EncodeToString _ RawURLEncoding_ok), l2s_s2l, cursor_object_Unmarshal.
  unfold cursor_object. cbn [mbind option_bind struct_members].
  rewrite (decode_field_single dec_time zero_time _ (VTime (AfterCreatedAt c))) by first [reflexivity | done].
  rewrite dec_time_VTime by done. cbn [mbind option_bind].
  rewrite (decode_field_single (dec_uuid_text Parse) uuid_Nil _ (VStr (uuid_String (AfterID c)))) by first [reflexivity | done].
  cbn [dec_uuid_text]. rewrite HP by done. cbn [mbind option_bind]. by destruct c.
Qed.

(** ** Paging over HTTP *)
Section http_paging.
Context (Parse : string -> option uuid) {P : Type} {MR : MapRange} {ML : MapRangeLaws MR}.
Context (ipay : identity_payload -> P) (rpay : RepositoryCreatedPayload -> P).

(** [GET /v1/orgs/{org}/repos] with a cursor and a limit. *)
Definition list_request (org cursor limit : string) : request :=
  mkRequest "GET" ["v1"; "orgs"; org; "repos"] (fun _ => "")
    (fun name => if bool_decide (name = "cursor") then cursor else if bool_decide (name = "limit") then limit else "") "" false.

(** A client that asks for the next page until there is none; [es n] is what
    its [n]th request meets. *)
Fixpoint http_pages (fuel : nat) (es : nat -> served P) (q : Principal) (org cursor limit : string)
  : option (list repositoryResponse) :=
  match fuel with
  | O => None
  | S fuel' =>
      let '(_, resp) := mux Parse ipay rpay (es 0%nat) (list_request org cursor limit) "" (Some q) (sv_reads (es 0%nat) 2%nat) in
      match rs_body resp with
      | ListBody l =>
          if bool_decide (lr_NextCursor l = "") then Some (lr_Items l)
          else rest ← http_pages fuel' (fun n => es (S n)) q org (lr_NextCursor l) limit; Some (lr_Items l ++ rest)
      | _ => None
      end
  end.

Context (Parse_String : forall u, uuid_ok u -> Parse (uuid_String u) = Some u).
Context (orgID : uuid) (orgID_ok : uuid_ok orgID).

Definition times_ok (s : Store P) : Prop := map_Forall (fun _ r => year_ok (r_CreatedAt r)) (repositories s).

Lemma list_request_body (e : served P) q cursor limit text n :
  Parse (uuid_String orgID) = Some orgID -> uuid_String orgID <> "" ->
  DecodeCursor Parse text = Ok cursor -> query_limit (list_request (uuid_String orgID) text limit) = Some n ->
  rs_body (mux Parse ipay rpay e (list_request (uuid_String orgID) text limit) "" (Some q) (sv_reads e 2%nat)).2 =
    let '(rows, next) := Service_ListByOrg orgID cursor n (sv_reads e 2%nat) in
    ListBody (mkListResponse (map toRepositoryResponse rows) (from_option EncodeCursor "" next)).
Proof.
  intros HP Hne Hc Hl. unfold mux. cbn [rq_method rq_path list_request].
  assert (Hr : route routes "GET" ["v1"; "orgs"; uuid_String orgID; "repos"] = RouteTo EpListOrgRepos [uuid_String orgID]).
  { unfold route. cbn. by rewrite (bool_decide_false _ Hne). }
  rewrite Hr. cbn [handle head default]. unfold listOrgRepos, bind, given. cbn [from_option id]. rewrite HP. cbn [ret].
  change (rq_query (list_request (uuid_String orgID) text limit) "cursor") with text. rewrite Hc. cbn [ret].
  rewrite Hl. cbn [ret]. by destruct (Service_ListByOrg _ _ _ _).
Qed.

Lemma uuid_String_nonempty u : uuid_String u <> "".
Proof.
  intros E. apply (f_equal s2l), (f_equal (@length ascii)) in E. unfold uuid_String in E. cbv zeta in E. rewrite s2l_l2s in E.
  rewrite !length_app in E. cbn in E. lia.
Qed.

Lemma http_pages_visit fuel (es : nat -> served P) q limit n cursor text rows :
  (forall i, well_kept (sv_reads (es i) 2%nat)) -> (forall i, times_ok (sv_reads (es i) 2%nat)) ->
  (forall text, query_limit (list_request (uuid_String orgID) text limit) = Some n) ->
  DecodeCursor Parse text = Ok cursor ->
  visit orgID fuel (fun i => sv_reads (es i) 2%nat) cursor n = Some rows ->
  http_pages fuel es q (uuid_String orgID) text limit = Some (map toRepositoryResponse rows).
Proof.
  revert es cursor text rows. induction fuel as [|fuel IH]; intros es cursor text rows Hk Ht Hl Hc Hv; [done|].
  cbn [visit] in Hv. cbn [http_pages].
  pose proof (list_request_body (es 0%nat) q cursor limit text n (Parse_String _ orgID_ok) (uuid_String_nonempty _) Hc (Hl text)) as Hb.
  destruct (mux _ _ _ _ _ _ _ _) as [s' resp]. cbn [snd] in Hb. rewrite Hb.
  destruct (page_spec orgID cursor n (sv_reads (es 0%nat) 2%nat)) as (page & next & E & Hpage & Hnext). rewrite E in Hv |- *.
  cbn [lr_NextCursor lr_Items]. destruct next as [c|]; cbn [from_option].
  - assert (Hr : exists r, c = cursor_at r /\ r ∈ listing orgID (sv_reads (es 0%nat) 2%nat)).
    { case_match; [done|]. destruct (last page) as [r|] eqn:El; [|done]. injection Hnext as ->. exists r. split; [done|].
      apply last_Some in El as [l El]. assert (Hin : r ∈ page) by (rewrite El; set_solver). rewrite Hpage in Hin.
      eapply elem_of_submseteq in Hin; [|apply sublist_submseteq, sublist_take]. by apply list_elem_of_filter in Hin as [_ Hin]. }
    destruct Hr as (r & -> & Hr). apply (listing_spec orgID _ r (Hk 0%nat)) in Hr as [Hr _].
    destruct (Hk 0%nat) as [_ Hids]. pose proof (Hids _ _ Hr) as [Hid Hnil].
    destruct (DecodeCursor_EncodeCursor Parse (cursor_at r) Parse_String) as [Hne Hd].
    { unfold Cursor_IsZero, cursor_at. cbn. by rewrite (proj2 (Z.eqb_neq _ _) Hnil). }
    { exact (Ht 0%nat _ _ Hr). }
    { exact Hid. }
    rewrite bool_decide_false by done.
    destruct (visit _ _ _ _ _) as [rest|] eqn:Ev; [|done]. injection Hv as <-.
    rewrite (IH (fun i => es (S i)) (cursor_at r) _ rest) by done. cbn [mbind option_bind]. by rewrite map_app.
  - rewrite bool_decide_true by done. by injection Hv as <-.
Qed.
End http_paging.

(** C19: A client that lists an organisation over HTTP and follows
    [next_cursor] gets every repository that was there when it began, none
    twice, in the order of creation, while others create more; cursors survive
    their trip through the URL. *)
Theorem http_paging_visits_all {P} {MR : MapRange} {ML : MapRangeLaws MR} Parse (ipay : identity_payload -> P) rpay orgID
    (es : nat -> served P) q n limit :
  (forall u, uuid_ok u -> Parse (uuid_String u) = Some u) -> uuid_ok orgID ->
  let views i := sv_reads (es i) 2%nat in
  (forall i, well_kept (views i)) -> (forall i, times_ok (views i)) ->
  (forall i, repositories (views i) ⊆ repositories (views (S i))) ->
  (forall i, (length (org_repositories orgID (views i)) <= n)%nat) -> 0 < limit -> is_int64 limit ->
  exists visited,
    http_pages Parse ipay rpay (S n) es q (uuid_String orgID) "" (Itoa limit) = Some (map toRepositoryResponse visited) /\
    NoDup visited /\ StronglySorted repo_le visited /\
    (forall r, repositories (views 0%nat) !! r_ID r = Some r -> r_OrgID r = orgID -> r ∈ visited).
Proof.
  intros HP Ho views Hk Ht Hg Hn Hl Hi.
  destruct (paging_visits_all orgID views limit n Hk Hg Hn) as (visited & Hv & Hd & Hs & Hc & _).
  exists visited. split_and!; [|done..]. eapply http_pages_visit; [done..| | |exact Hv]; [|done].
  intros text. unfold query_limit. change (rq_query _ "limit") with (Itoa limit).
  pose proof (Atoi_Itoa limit Hi) as Ha. rewrite bool_decide_false by (intros E; by rewrite E in Ha).
  by rewrite Ha, (proj2 (Z.leb_gt _ _) Hl).
Qed.

(** ** Revocation does not reach authentication

    Neither a revocation nor a disabled account changes what a token resolves
    to: the principal goes on being authenticated. *)
Lemma revoked_agent_authenticates {P} {MR : MapRange} Parse (ipay : identity_payload -> P) cancelled atts id reason s s' bearer :
  Service_RevokeAgent ipay cancelled atts id reason s = (s', Ok tt) ->
  IdentityResolver_Resolve Parse (fun _ => s') bearer = IdentityResolver_Resolve Parse (fun _ => s) bearer.
Proof. intros H. apply RevokeAgent_ok in H as (i & old & _ & _ & ->). reflexivity. Qed.
Lemma disabled_user_authenticates {P} {MR : MapRange} Parse (ipay : identity_payload -> P) cancelled atts id reason s s' bearer :
  Service_DisableUser ipay cancelled atts id reason s = (s', Ok tt) ->
  IdentityResolver_Resolve Parse (fun _ => s') bearer = IdentityResolver_Resolve Parse (fun _ => s) bearer.
Proof. intros H. apply DisableUser_ok in H as (i & _ & _ & ->). reflexivity. Qed.

(** An empty credential, a mistake of the client, is answered with 500. *)
Lemma empty_credential_internal : mapErr ErrCredentialEmpty = (500, CodeInternal, "internal error").
Proof. vm_compute. reflexivity. Qed.

(** ** Samples *)

(** User 7 with agent 9, and a request that changes the agent's scope. *)
Definition sample_api : api (identity_payload + RepositoryCreatedPayload) := mkApi
  (mkStore {[7 := mkHumanUser 7 "ann@example.org" "" "human_default" None 0 0]}
     {[9 := mkAgent 9 "bot" 7 ["read"] "agent_standard" None None f1 None 0 0]} ∅ ∅ ∅ ∅ []) ∅.
Definition sample_served (a : api (identity_payload + RepositoryCreatedPayload)) : served (identity_payload + RepositoryCreatedPayload) :=
  mkServed Second "fresh" true (fun _ => api_store a) (fun _ => None)
    (fun _ => mkAttempt (fun _ => api_store a) false Second 50 51) (fun c => Ok c) 52 Second Second
    (mkCall (fun _ => api_store a) false Second 53 54).
Definition sample_config : RateConfig := mkRateConfig f1 f1 f1 f1.
Definition scope_request (bearer : string) : request :=
  mkRequest "PATCH" ["v1"; "agents"; uuid_String 9; "permissions"]
    (fun h => if bool_decide (h = "Authorization") then "Bearer " +:+ bearer else "") (fun _ => "")
    (json_text "{'permission_scope': ['read', 'write']} trailing") false.

Section rest_sample.
#[local] Existing Instance some_range.

Definition serve_sample (r : request) (a : api (identity_payload + RepositoryCreatedPayload)) :=
  ServeHTTP canonical_Parse inl inr (fun _ => 0) sample_config (sample_served a) r a.

(** The parent may, once a second; the agent itself may not. *)
Example scope_requests :
  let '(a, resp) := serve_sample (scope_request (uuid_String 7)) sample_api in
  rs_status resp = 204 /\ a_PermissionScope <$> (agents (api_store a) !! 9) = Some ["read"; "write"] /\
  rs_status (serve_sample (scope_request (uuid_String 7)) a).2 = 429 /\
  rs_status (serve_sample (scope_request (uuid_String 9)) a).2 = 403 /\
  rs_status (serve_sample (scope_request "nobody") a).2 = 401.
Proof. vm_compute. auto. Qed.

Lemma rest_changes_are_authorised_witness :
  let '(a, resp) := serve_sample (scope_request (uuid_String 7)) sample_api in
  api_store a = api_store sample_api /\ (rs_status resp = 200 \/ 400 <= rs_status resp) \/
  exists q o, authenticate canonical_Parse (fun _ => api_store sample_api) (scope_request (uuid_String 7)) = Ok q /\
    asked canonical_Parse (scope_request (uuid_String 7)) o /\ permitted (api_store sample_api) q o /\ run_rest_op inl inr (sample_served sample_api) o (api_store sample_api) = (api_store a, Ok tt) /\
    rs_status resp ∈ [201; 204].
Proof.
  destruct (serve_sample (scope_request (uuid_String 7)) sample_api) as [a resp] eqn:E.
  exact (rest_changes_are_authorised canonical_Parse inl inr (fun _ => 0) sample_config _ _ _ _ _ E).
Defined.

Lemma rest_requests_are_metered_witness :
  let '(a, resp) := serve_sample (scope_request (uuid_String 7)) sample_api in
  draw_token sample_config rateLimitSurface true Second (HumanPrincipal 7) ∅ = (Granted, api_limiter a).
Proof.
  destruct (serve_sample (scope_request (uuid_String 7)) sample_api) as [a resp] eqn:E.
  pose proof (rest_requests_are_metered canonical_Parse inl inr (fun _ => 0) sample_config _ _ _ _ _ E) as H.
  change (sv_reads (sample_served sample_api)) with (fun _ : nat => api_store sample_api) in H.
  assert (Ha : authenticate canonical_Parse (fun _ => api_store sample_api) (scope_request (uuid_String 7)) = Ok (HumanPrincipal 7))
    by (vm_compute; reflexivity).
  rewrite Ha in H. apply H; [reflexivity|]. intros Ea.
  assert (Es : a_PermissionScope <$> (agents (api_store (serve_sample (scope_request (uuid_String 7)) sample_api).1) !! 9) = Some ["read"; "write"])
    by (vm_compute; reflexivity).
  rewrite E in Es. cbn [fst] in Es. rewrite Ea in Es. vm_compute in Es. discriminate.
Defined.

(** Two pages of the three repositories of organisation 1. *)
Definition listed : Store (identity_payload + RepositoryCreatedPayload) :=
  mkStore ∅ ∅ (list_to_map (map (fun r => (r_ID r, r)) [sample_repository 3 1 20; sample_repository 1 1 20; sample_repository 2 1 10])) ∅ ∅ ∅ [].
Definition listed_served : served (identity_payload + RepositoryCreatedPayload) := sample_served (mkApi listed ∅).

Lemma http_paging_visits_all_witness :
  exists visited, http_pages canonical_Parse inl inr 4 (fun _ => listed_served) (HumanPrincipal 7) (uuid_String 1) "" (Itoa 2) =
    Some (map toRepositoryResponse visited) /\ map rr_ID (map toRepositoryResponse visited) = map uuid_String [2; 1; 3].
Proof.
  assert (Hall : forall (Q : uuid -> Repository -> Prop), Q 3 (sample_repository 3 1 20) -> Q 1 (sample_repository 1 1 20) ->
    Q 2 (sample_repository 2 1 10) -> map_Forall Q (repositories listed)).
  { intros Q H3 H1 H2. cbn [repositories listed map list_to_map foldr fst snd r_ID sample_repository uncurry].
    repeat apply map_Forall_insert_2; try done. }
  assert (Hk : well_kept listed).
  { split; [split; cbn [users agents partitionArchives cloneTokens quotaAccounts listed]; try apply map_Forall_empty; by apply Hall|].
    apply Hall; (split; [unfold uuid_ok; cbn; lia|done]). }
  assert (Ht : times_ok listed) by (apply Hall; by vm_compute).
  assert (Hn : (length (org_repositories 1%Z listed) <= 3)%nat) by (vm_compute; lia).
  destruct (http_paging_visits_all canonical_Parse inl inr 1 (fun _ => listed_served) (HumanPrincipal 7) 3 2
    canonical_Parse_String ltac:(unfold uuid_ok; lia) (fun _ => Hk) (fun _ => Ht) (fun _ => reflexivity _)
    (fun _ => Hn) ltac:(lia) ltac:(unfold is_int64; vm_compute; split; discriminate)) as (v & Hv & _).
  exists v. split; [exact Hv|].
  assert (E : (map rr_ID <$> http_pages canonical_Parse inl inr 4 (fun _ => listed_served) (HumanPrincipal 7) (uuid_String 1) "" (Itoa 2)) =
    Some (map uuid_String [2; 1; 3])) by (vm_compute; reflexivity).
  rewrite Hv in E. by injection E.
Defined.
End rest_sample.
