(* ===== verification/Hmac.v ===== *)
(** * Package crypto/hmac

    HMAC with SHA-256 (FIPS 198-1) on byte strings, executable.  Nothing is
    assumed of it: [hmac_eq] says that two keyed messages with one code are
    equal, or names the hashed strings that collide. *)

From S2P Require Import Prelude GoStd Sha256.

Definition block_size : nat := 64.

(** The key, hashed when it is longer than a block, and filled with zeros. *)
Definition block_key (key : list ascii) : list ascii :=
  let k := if (block_size <? length key)%nat then Sum256 key else key in
  k ++ replicate (block_size - length k) (chr 0).

Definition xor_with (z : Z) (l : list ascii) : list ascii := map (fun c => chr (Z.lxor (code c) z)) l.

Definition inner_message (key m : list ascii) : list ascii := xor_with 0x36 (block_key key) ++ m.
Definition outer_message (key m : list ascii) : list ascii := xor_with 0x5c (block_key key) ++ Sum256 (inner_message key m).

(** [mac := hmac.New(sha256.New, key); mac.Write(m); mac.Sum(nil)]. *)
Definition hmac_sha256 (key m : list ascii) : digest := Sum256 (outer_message key m).

Lemma hmac_length key m : length (hmac_sha256 key m) = 32%nat.
Proof. apply Sum256_length. Qed.

(** Test case 2 of RFC 4231, and test case 6, whose key is longer than a block. *)
Example hmac_jefe :
  be_word (hmac_sha256 (s2l "Jefe") (s2l "what do ya want for nothing?")) =
  0x5bdcc146bf60754e6a042426089575c75a003f089d2739839dec58b964ec3843.
Proof. vm_compute. reflexivity. Qed.
Example hmac_long_key :
  be_word (hmac_sha256 (replicate 131 (chr 0xaa)) (s2l "Test Using Larger Than Block-Size Key - Hash Key First")) =
  0x60e431591ee0b67f0d8a26aacbf5b77f8e0bc6213728c5140546040f0ee37f54.
Proof. vm_compute. reflexivity. Qed.

(** What is hashed for a message. *)
Definition hmac_messages (key m : list ascii) : list (list ascii) := [inner_message key m; outer_message key m].

Lemma hmac_eq key m1 m2 : hmac_sha256 key m1 = hmac_sha256 key m2 ->
  m1 = m2 \/ collide (hmac_messages key m1) (hmac_messages key m2).
Proof.
  intros H. destruct (Sum256_eq _ _ H) as [Ho|Hc].
  - assert (Hs : Sum256 (inner_message key m1) = Sum256 (inner_message key m2)) by exact (app_inv_head _ _ _ Ho).
    destruct (Sum256_eq _ _ Hs) as [Hi|Hc]; [left; exact (app_inv_head _ _ _ Hi)|].
    right. revert Hc. apply collide_mono; intros x Hx%list_elem_of_singleton; subst x; left.
  - right. revert Hc. apply collide_mono; intros x Hx%list_elem_of_singleton; subst x; right; left.
Qed.
