(* ===== verification/McpSession.v ===== *)
(** * MCP sessions

    [plane/application/mcp/session.go]: signed session tokens.  A token is
    [<payload>.<signature>] in unpadded base64url, the payload the principal,
    the protocol version and the expiry in seconds, the signature its
    HMAC-SHA-256.  [uuid.Parse] is an argument. *)

From S2P Require Import Prelude GoStd GoFmt GoTime Sha256 Json JsonDecode Base64 Uuid Hmac.

#[local] Arguments hmac_sha256 : simpl never.
#[local] Arguments uuid_String : simpl never.

Definition MinSessionHMACSecretBytes : nat := 32.

Record Session := mkSession { ss_PrincipalID : uuid; ss_ProtocolVersion : string; ss_ExpiresAt : time }.

(** [time.Time.Unix] and [time.Unix], which adds the seconds from year 1 to
    1970 in [int64]. *)
Definition unixToInternal : Z := 62135596800.
Definition Time_Unix (t : time) : Z := t / Second.
Definition time_Unix (sec : Z) : time := (wrap64 (sec + unixToInternal) - unixToInternal) * Second.

Inductive session_error :=
| SecretTooShort | MalformedToken | BadPayloadEncoding | BadSignatureEncoding | SignatureMismatch
| MalformedPayload | BadPrincipal | BadExpiry | SessionExpired.

Definition session_payload (s : Session) : list ascii :=
  s2l (uuid_String (ss_PrincipalID s) +:+ "|" +:+ ss_ProtocolVersion s +:+ "|" +:+ Itoa (Time_Unix (ss_ExpiresAt s))).

Definition MintSession (secret : list ascii) (s : Session) : result session_error string :=
  if (length secret <? MinSessionHMACSecretBytes)%nat then Err SecretTooShort
  else
    let payload := session_payload s in
    let sig := hmac_sha256 secret payload in
    Ok (EncodeToString RawURLEncoding payload +:+ "." +:+ EncodeToString RawURLEncoding sig).

(** What precedes and follows the last [c]. *)
Definition cut_last (c : ascii) (s : string) : option (string * string) :=
  '(b, a) ← cut_at c (reverse (s2l s)); Some (l2s (reverse a), l2s (reverse b)).

Section verify.
Context (Parse : string -> option uuid).

(** The checks after the signature's. *)
Definition read_payload (now : time) (payload : list ascii) : result session_error Session :=
  match Split (l2s payload) "|" with
  | [p; v; e] =>
      match Parse p with
      | None => Err BadPrincipal
      | Some pid =>
          match Atoi e with
          | None => Err BadExpiry
          | Some exp =>
              let expiresAt := time_Unix exp in
              if negb (now <? expiresAt) then Err SessionExpired else Ok (mkSession pid v expiresAt)
          end
      end
  | _ => Err MalformedPayload
  end.

Definition VerifySession (secret : list ascii) (now : time) (token : string) : result session_error Session :=
  if (length secret <? MinSessionHMACSecretBytes)%nat then Err SecretTooShort
  else
    match cut_last "." token with
    | None => Err MalformedToken
    | Some (payloadB64, sigB64) =>
        if bool_decide (payloadB64 = "" \/ sigB64 = "") then Err MalformedToken
        else
          match DecodeString RawURLEncoding payloadB64 with
          | None => Err BadPayloadEncoding
          | Some payload =>
              match DecodeString RawURLEncoding sigB64 with
              | None => Err BadSignatureEncoding
              | Some gotSig =>
                  if bool_decide (gotSig <> hmac_sha256 secret payload) then Err SignatureMismatch
                  else read_payload now payload
              end
          end
    end.
End verify.

(** ** The parts of a token *)

Lemma cut_at_Some c l a b : cut_at c l = Some (a, b) -> l = a ++ c :: b.
Proof.
  revert a b. induction l as [|x l IH]; intros a b H; [done|]. cbn in H. case_bool_decide as E.
  - injection H as <- <-. by subst.
  - destruct (cut_at c l) as [[a' b']|]; [|done]. injection H as <- <-. cbn. f_equal. by apply IH.
Qed.

Lemma cut_last_app c a b : c ∉ s2l b -> cut_last c (a +:+ l2s [c] +:+ b) = Some (a, b).
Proof.
  intros H. unfold cut_last. rewrite !s2l_app, s2l_l2s, app_assoc, !reverse_app.
  change (reverse [c] ++ reverse (s2l a)) with (c :: reverse (s2l a)).
  rewrite cut_at_app by by rewrite elem_of_reverse. cbn. by rewrite !reverse_involutive, !l2s_s2l.
Qed.

Lemma alphabet_free c enc l : alphabet_ok enc = true -> padded enc = false -> char_digit enc c = None ->
  c ∉ s2l (EncodeToString enc l).
Proof.
  intros Ho Hp Hc Hin. unfold EncodeToString in Hin. rewrite s2l_l2s in Hin.
  pose proof (encode_alphabet enc l Ho Hp) as Ha. rewrite List.Forall_forall in Ha.
  apply list_elem_of_In, Ha in Hin. rewrite Hc in Hin. by destruct Hin.
Qed.

Lemma encoded_nonempty enc l : l <> [] -> EncodeToString enc l <> "".
Proof. destruct l as [|a [|b [|c l]]]; done. Qed.

(** The payload and the signature a token carries. *)
Definition token_parts (token : string) : option (list ascii * list ascii) :=
  '(p, s) ← cut_last "." token;
  if bool_decide (p = "" \/ s = "") then None
  else payload ← DecodeString RawURLEncoding p; sig ← DecodeString RawURLEncoding s; Some (payload, sig).

Definition signed_token (payload sig : list ascii) : string :=
  EncodeToString RawURLEncoding payload +:+ "." +:+ EncodeToString RawURLEncoding sig.

Lemma token_parts_signed payload sig : payload <> [] -> sig <> [] ->
  token_parts (signed_token payload sig) = Some (payload, sig).
Proof.
  intros Hp Hs. unfold token_parts, signed_token.
  rewrite (cut_last_app "."%char) by (apply alphabet_free; reflexivity). cbn [mbind option_bind].
  rewrite bool_decide_false by (intros [H|H]; by apply encoded_nonempty in H).
  by rewrite !DecodeString_EncodeToString by reflexivity.
Qed.

Section verify_theorems.
Context (Parse : string -> option uuid).

Lemma VerifySession_signed secret now payload : (MinSessionHMACSecretBytes <= length secret)%nat -> payload <> [] ->
  VerifySession Parse secret now (signed_token payload (hmac_sha256 secret payload)) = read_payload Parse now payload.
Proof.
  intros Hl Hp. assert (Hs : hmac_sha256 secret payload <> []).
  { intros E. apply (f_equal length) in E. by rewrite hmac_length in E. }
  pose proof (token_parts_signed payload _ Hp Hs) as Ht. unfold token_parts in Ht.
  unfold VerifySession. rewrite (proj2 (Nat.ltb_ge _ _)) by done.
  destruct (cut_last _ _) as [[p q]|]; [|done]. cbn [mbind option_bind] in Ht. case_bool_decide; [done|].
  destruct (DecodeString _ p); [|done]. cbn [mbind option_bind] in Ht. destruct (DecodeString _ q); [|done].
  injection Ht as -> ->. by rewrite bool_decide_false by auto.
Qed.

Lemma verified_parts secret now token s : VerifySession Parse secret now token = Ok s ->
  exists payload, token_parts token = Some (payload, hmac_sha256 secret payload) /\ read_payload Parse now payload = Ok s.
Proof.
  unfold VerifySession, token_parts. destruct (_ <? _)%nat; [done|].
  destruct (cut_last _ _) as [[p q]|]; [|done]. cbn [mbind option_bind]. case_bool_decide; [done|].
  destruct (DecodeString _ p) as [payload|]; [|done]. cbn [mbind option_bind].
  destruct (DecodeString _ q) as [sig|]; [|done]. cbn [mbind option_bind].
  case_bool_decide as E; [done|]. subst sig. by exists payload.
Qed.

(** *** Reading back what was signed *)

Definition bar : ascii := "|".

Lemma uuid_String_no_bar u : bar ∉ s2l (uuid_String u).
Proof.
  assert (Hh : forall n, bar ∉ hex_of_bytes n).
  { intros l. unfold hex_of_bytes. rewrite list_elem_of_bind. intros (c & H & _).
    assert (Hd : forall z, 0 <= z < 16 -> bar <> hex_digit z).
    { intros z Hz E. apply (f_equal code) in E. unfold hex_digit in E. change (code bar) with 124 in E.
      destruct (Z.ltb_spec z 10); rewrite code_chr in E; lia. }
    pose proof (code_digits c) as [H1 H2]. rewrite !elem_of_cons, elem_of_nil in H.
    destruct H as [H|[H|[]]]; by apply Hd in H. }
  pose proof (Hh (be_bytes 16 u)) as Hu. unfold uuid_String. cbv zeta. rewrite s2l_l2s, !elem_of_app.
  assert (Hd : bar ∉ s2l "-") by (apply (bool_decide_unpack _); vm_compute; exact I).
  intros [H|[H|[H|[H|[H|[H|[H|[H|H]]]]]]]]; try (by apply Hd); apply Hu.
  all: repeat first [apply elem_of_take in H as (? & H & _); eapply list_elem_of_lookup_2 in H
                    |apply subseteq_drop in H]; exact H.
Qed.

Lemma Itoa_no_bar z : bar ∉ s2l (Itoa z).
Proof.
  destruct (Z.lt_ge_cases z 0) as [Hz|Hz].
  - rewrite Itoa_neg by done. destruct (Itoa_nonneg (- z)) as (ds & -> & Hd & _); [lia|].
    rewrite not_elem_of_cons. split; [done|]. by apply digits_no_char.
  - destruct (Itoa_nonneg z Hz) as (ds & -> & Hd & _). by apply digits_no_char.
Qed.

(** What a session becomes on its way: its expiry in whole seconds. *)
Definition carried (s : Session) : Session :=
  mkSession (ss_PrincipalID s) (ss_ProtocolVersion s) (Time_Unix (ss_ExpiresAt s) * Second).
Definition portable (s : Session) : Prop :=
  uuid_ok (ss_PrincipalID s) /\ bar ∉ s2l (ss_ProtocolVersion s) /\
  is_int64 (Time_Unix (ss_ExpiresAt s)) /\ is_int64 (Time_Unix (ss_ExpiresAt s) + unixToInternal).

Lemma session_payload_split s : bar ∉ s2l (ss_ProtocolVersion s) ->
  Split (l2s (session_payload s)) bar = [uuid_String (ss_PrincipalID s); ss_ProtocolVersion s; Itoa (Time_Unix (ss_ExpiresAt s))].
Proof.
  intros Hv. unfold session_payload. rewrite l2s_s2l.
  apply (Split_Join [uuid_String (ss_PrincipalID s); ss_ProtocolVersion s; Itoa (Time_Unix (ss_ExpiresAt s))] bar); [done|].
  repeat constructor; [apply uuid_String_no_bar|done|apply Itoa_no_bar].
Qed.

Lemma session_payload_nonempty s : session_payload s <> [].
Proof.
  intros H. apply (f_equal length) in H. unfold session_payload in H.
  rewrite s2l_app, length_app in H. change (s2l ("|" +:+ ?x)) with (bar :: s2l x) in H. cbn in H. lia.
Qed.

Lemma read_minted now s : (forall u, uuid_ok u -> Parse (uuid_String u) = Some u) -> portable s ->
  read_payload Parse now (session_payload s) =
    if now <? ss_ExpiresAt (carried s) then Ok (carried s) else Err SessionExpired.
Proof.
  intros HP (Hu & Hv & Hi & Ho). unfold read_payload. fold bar. rewrite session_payload_split by done.
  rewrite HP by done. rewrite Atoi_Itoa by done. unfold time_Unix. rewrite wrap64_id by done.
  replace (Time_Unix (ss_ExpiresAt s) + unixToInternal - unixToInternal) with (Time_Unix (ss_ExpiresAt s)) by lia.
  change (ss_ExpiresAt (carried s)) with (Time_Unix (ss_ExpiresAt s) * Second). by destruct (now <? _).
Qed.

Lemma MintSession_signed secret s tok : MintSession secret s = Ok tok ->
  (MinSessionHMACSecretBytes <= length secret)%nat /\ tok = signed_token (session_payload s) (hmac_sha256 secret (session_payload s)).
Proof.
  unfold MintSession. destruct (Nat.ltb_spec (length secret) MinSessionHMACSecretBytes); [done|].
  intros [= <-]. by split.
Qed.
End verify_theorems.

(** A minted token carries its session until it expires, and then no
    longer: verified with the same secret it gives back the principal, the
    version and the expiry, cut to seconds. *)
Theorem session_roundtrip Parse secret s tok now :
  (forall u, uuid_ok u -> Parse (uuid_String u) = Some u) -> portable s -> MintSession secret s = Ok tok ->
  VerifySession Parse secret now tok =
    if now <? ss_ExpiresAt (carried s) then Ok (carried s) else Err SessionExpired.
Proof.
  intros HP Hs [Hl ->]%MintSession_signed. rewrite VerifySession_signed by (done || apply session_payload_nonempty).
  by apply read_minted.
Qed.

(** A token that was not minted is not accepted under a minted one's
    signature: whatever else verifies with it says the same principal, version
    and expiry, or hashing the two payloads produced a SHA-256 collision. *)
Theorem session_tampering_detected Parse secret s tok sig payload' tok' now s' :
  (forall u, uuid_ok u -> Parse (uuid_String u) = Some u) -> portable s -> MintSession secret s = Ok tok ->
  token_parts tok = Some (session_payload s, sig) ->
  VerifySession Parse secret now tok' = Ok s' -> token_parts tok' = Some (payload', sig) ->
  s' = carried s /\ now < ss_ExpiresAt s' \/ collide (hmac_messages secret (session_payload s)) (hmac_messages secret payload').
Proof.
  intros HP Hs [Hl ->]%MintSession_signed Ht Hv Ht'.
  rewrite token_parts_signed in Ht; [|apply session_payload_nonempty|intros E; apply (f_equal length) in E; by rewrite hmac_length in E].
  apply (inj Some), pair_eq in Ht as [_ <-]. apply verified_parts in Hv as (payload & Hp & Hr). rewrite Hp in Ht'. apply (inj Some), pair_eq in Ht' as [-> Hh].
  destruct (hmac_eq _ _ _ (eq_sym Hh)) as [<-|Hc]; [left|by right].
  rewrite read_minted in Hr by done. destruct (Z.ltb_spec now (ss_ExpiresAt (carried s))); [|done].
  by injection Hr as <-.
Qed.

(** *** A sample *)
Definition sample_secret : list ascii := s2l "0123456789abcdef0123456789abcdef".
Definition sample_session : Session := mkSession 7 "2025-06-18" (1800 * Second + 5).

Lemma sample_portable : portable sample_session.
Proof.
  split; [unfold uuid_ok; cbn; lia|]. split; [apply (bool_decide_unpack _); vm_compute; exact I|].
  unfold is_int64. vm_compute. repeat split; discriminate.
Qed.

Definition sample_text : string :=
  "MDAwMDAwMDAtMDAwMC0wMDAwLTAwMDAtMDAwMDAwMDAwMDA3fDIwMjUtMDYtMTh8MTgwMA.zbGug4pOzZIBCFRYufh2hY5tZH1dCWFjUtzJG2Z7FxE".
Lemma sample_token : MintSession sample_secret sample_session = Ok sample_text.
Proof. vm_compute. reflexivity. Qed.

Lemma session_roundtrip_witness :
  VerifySession canonical_Parse sample_secret (1799 * Second) sample_text = Ok (mkSession 7 "2025-06-18" (1800 * Second)) /\
  VerifySession canonical_Parse sample_secret (1800 * Second) sample_text = Err SessionExpired.
Proof.
  pose proof (session_roundtrip canonical_Parse sample_secret sample_session sample_text) as H.
  split; (rewrite H; [vm_compute; reflexivity|apply canonical_Parse_String|apply sample_portable|apply sample_token]).
Defined.

Lemma session_tampering_detected_witness :
  VerifySession canonical_Parse sample_secret 0 (sample_text +:+ l2s [chr 10]) = Ok (carried sample_session) /\
  (carried sample_session = carried sample_session /\ 0 < 1800 * Second \/
  collide (hmac_messages sample_secret (session_payload sample_session)) (hmac_messages sample_secret (session_payload sample_session))).
Proof.
  split; [vm_compute; reflexivity|].
  apply (session_tampering_detected canonical_Parse sample_secret sample_session sample_text
    (hmac_sha256 sample_secret (session_payload sample_session)) (session_payload sample_session)
    (sample_text +:+ l2s [chr 10]) 0 (carried sample_session) canonical_Parse_String sample_portable sample_token);
    vm_compute; reflexivity.
Defined.

(** A version with the separator in it is signed, and never verifies. *)
Example version_with_separator :
  let s := mkSession 7 "draft|2" (1800 * Second) in
  match MintSession sample_secret s with
  | Ok tok => VerifySession canonical_Parse sample_secret 0 tok = Err MalformedPayload
  | Err _ => False
  end.
Proof. vm_compute. reflexivity. Qed.

(** An expiry beyond the range of [time.Time] wraps into the past. *)
Example far_expiry_wraps : time_Unix (int64_max - 5) < 0.
Proof. vm_compute. reflexivity. Qed.
