(* ===== verification/CiRunClient.v ===== *)
(** * The CI run client of the MCP server

    [plane/application/mcp/cirunclient]: the class [CIClient] is the interface
    [Client]; the production client over Temporal, whose [ExecuteWorkflow] is
    an argument, the stub and the client of deployments without Temporal are
    its instances. *)

From S2P Require Import Prelude GoStd GoFmt JsonDecode Uuid MetadataStore.

Definition CIRunWorkflowName : string := "CIRunWorkflow".

Record CIRunInput := mkCIRunInput { run_RepoID : uuid; run_Ref : string; run_PrincipalID : uuid }.
Record RunHandle := mkRunHandle { rh_WorkflowID : string; rh_RunID : string }.

Definition ErrNotConfigured := errors_New "cirunclient: temporal client not configured".

(** [Client], on the state a client keeps. *)
Class CIClient (C : Type) := StartCIRun : CIRunInput -> C -> C * result error RunHandle.

(** The test double records what it was asked last. *)
Record StubClient := mkStubClient { st_Handle : RunHandle; st_Err : option error; st_Last : CIRunInput; st_Called : bool }.
#[export] Instance StubClient_CIClient : CIClient StubClient := fun i c =>
  (mkStubClient (st_Handle c) (st_Err c) i true, match st_Err c with Some e => Err e | None => Ok (st_Handle c) end).

Inductive NilClient := mkNilClient.
#[export] Instance NilClient_CIClient : CIClient NilClient := fun _ c => (c, Err ErrNotConfigured).

(** [StartWorkflowOptions]. *)
Record start_options := mkStartOptions { so_ID : string; so_TaskQueue : string }.

Section temporal.
(** The Temporal client and the clock in nanoseconds. *)
Context {T : Type} (ExecuteWorkflow : start_options -> string -> CIRunInput -> T -> T * result error (string * string)).
Context (nanos : T -> Z).

Record TemporalClient := mkTemporalClient { tc_client : T; tc_taskQueue : string }.

Definition NewTemporalClient (c : option T) (taskQueue : string) : result error TemporalClient :=
  match c with
  | None => Err (errors_New "cirunclient: nil temporal client")
  | Some c => if bool_decide (taskQueue = "") then Err (errors_New "cirunclient: empty task queue") else Ok (mkTemporalClient c taskQueue)
  end.

Definition ci_workflow_id (repo : uuid) (now : Z) : string := "ci-run/" +:+ uuid_String repo +:+ "/" +:+ Itoa now.

Definition TemporalClient_StartCIRun (i : CIRunInput) (c : TemporalClient) : TemporalClient * result error RunHandle :=
  let wfID := ci_workflow_id (run_RepoID i) (nanos (tc_client c)) in
  let '(t, r) := ExecuteWorkflow (mkStartOptions wfID (tc_taskQueue c)) CIRunWorkflowName i (tc_client c) in
  (mkTemporalClient t (tc_taskQueue c),
   match r with Ok (id, run) => Ok (mkRunHandle id run) | Err e => Err e end).
End temporal.
Arguments TemporalClient : clear implicits.

(** Runs of different repositories, or started at different nanoseconds, have
    different workflow ids. *)
Lemma ci_workflow_id_inj r1 n1 r2 n2 : uuid_ok r1 -> uuid_ok r2 ->
  ci_workflow_id r1 n1 = ci_workflow_id r2 n2 -> r1 = r2 /\ n1 = n2.
Proof.
  intros H1 H2 H. apply (f_equal s2l) in H. unfold ci_workflow_id in H. rewrite !s2l_app in H.
  apply app_inv_head in H. apply app_inj_1 in H as [Hr H]; [|by rewrite !uuid_String_length].
  split; [by apply uuid_String_inj, s2l_inj|]. apply app_inv_head in H. by apply s2l_inj, (inj pretty) in H.
Qed.
