(* ===== verification/Mcp.v ===== *)
(** * The MCP server

    [plane/application/mcp]: registry.go, errors.go, tools.go, server.go,
    config.go and deps.go.  JSON-RPC requests for the seven tools, behind the
    authentication of [RestApi] and a rate limit of their own, over
    [Identity], [Repositories], [AgentsMd], [AgentsHook] and [CiRunClient].

    A [json.RawMessage] is the JSON value in it, or none when it is empty.
    Error messages and the texts that describe the tools are left out; the
    codes are kept. *)

From S2P Require Import Prelude GoStd GoFmt GoTime Floats Json JsonDecode Uuid RateLimiter Actions MetadataStore Identity.
From S2P Require Import Repositories AgentsMd AgentsHook CiRunClient McpSession RestApi.

#[local] Arguments uuid_String : simpl never.
#[local] Arguments Unmarshal : simpl never.
#[local] Arguments Decode : simpl never.
#[local] Arguments MintSession : simpl never.

(** ** errors.go *)

Definition Code := Z.
Definition CodeMethodNotFound : Code := -32601.
Definition CodeInvalidParams : Code := -32602.
Definition CodeInternal : Code := -32603.
Definition CodeUnauthenticated : Code := -32001.
Definition CodeForbidden : Code := -32002.
Definition CodeNotFound : Code := -32003.
Definition CodeNotImplemented : Code := -32004.
Definition CodeConflict : Code := -32005.
Definition CodeRateLimited : Code := -32006.

(** The errors of tools: the package's own sentinels, one that wraps
    [repositories.ErrInvalidSlug] for a bad argument, one of the services, and
    others that no sentinel is compared with. *)
Inductive tool_error :=
| ToolNotImplemented | ToolForbidden | BadArgument | ServiceError (e : error) | OtherError.

Definition mapErr (err : tool_error) : Code :=
  match err with
  | ToolNotImplemented => CodeNotImplemented
  | ToolForbidden => CodeForbidden
  | BadArgument => CodeInvalidParams
  | OtherError => CodeInternal
  | ServiceError e =>
      if bool_decide (e ∈ [ErrInvalidEmail; ErrEmptyDisplayName; ErrEmptyRole]) then CodeInvalidParams
      else if bool_decide (e ∈ [ErrUserNotFound; ErrAgentNotFound]) then CodeNotFound
      else if bool_decide (e = Identity.ErrNotImplemented) then CodeNotImplemented
      else if bool_decide (e ∈ [ErrInvalidSlug; ErrEmptyName; ErrInvalidVisibility]) then CodeInvalidParams
      else if bool_decide (e = ErrRepositoryNotFound) then CodeNotFound
      else if bool_decide (e = ErrSlugAlreadyExists) then CodeConflict
      else if bool_decide (e = ErrInvalidToken) then CodeUnauthenticated
      else CodeInternal
  end.

(** ** registry.go *)

Inductive registry_error := EmptyToolName | NilHandler | ErrToolAlreadyRegistered.

Section registry.
Context {H : Type}.

Record Tool := mkTool { t_Name : string; t_Handler : option H }.
Local Notation Registry := (gmap string Tool).
Definition NewRegistry : Registry := ∅.

Definition Register (t : Tool) (r : Registry) : result registry_error Registry :=
  if bool_decide (t_Name t = "") then Err EmptyToolName
  else match t_Handler t with
       | None => Err NilHandler
       | Some _ =>
           match r !! t_Name t with
           | Some _ => Err ErrToolAlreadyRegistered
           | None => Ok (<[t_Name t := t]> r)
           end
       end.
(** A failure is a panic. *)
Definition MustRegister (t : Tool) (r : Registry) : option Registry := match Register t r with Ok r => Some r | Err _ => None end.
Definition Registry_Get (name : string) (r : Registry) : option Tool := r !! name.

Definition tool_le (s t : Tool) : Prop := String.le (t_Name s) (t_Name t).
#[export] Instance tool_le_dec s t : Decision (tool_le s t).
Proof. unfold tool_le. apply _. Defined.
Definition Manifest (r : Registry) : list Tool := merge_sort tool_le (map_to_list r).*2.
Definition Names (r : Registry) : list string := merge_sort String.le (map_to_list r).*1.
End registry.
Arguments Tool : clear implicits.
Notation Registry H := (gmap string (Tool H)).

(** ** tools.go *)

Definition ToolGitClone : string := "git_clone".
Definition ToolPRCreate : string := "pr_create".
Definition ToolCITrigger : string := "ci_trigger".
Definition ToolQuotaStatus : string := "quota_status".
Definition ToolAgentsMDGet : string := "agents_md_get".
Definition ToolAgentsMDValidate : string := "agents_md_validate".
Definition ToolAgentsMDEvaluate : string := "agents_md_evaluate".
Definition AllToolNames : list string :=
  [ToolAgentsMDEvaluate; ToolAgentsMDGet; ToolAgentsMDValidate; ToolCITrigger; ToolGitClone; ToolPRCreate; ToolQuotaStatus].

Definition SurfaceMCP : string := "mcp".

Record GitCloneResult := mkGitCloneResult { gc_CloneURL : string; gc_Token : string; gc_ExpiresAt : string }.
Record CITriggerResult := mkCITriggerResult { ct_WorkflowID : string; ct_RunID : string }.
Record QuotaStatusResult := mkQuotaStatusResult {
  qs_Capacity : float; qs_Remaining : float; qs_RefillPerSec : float; qs_Surface : string }.
Record AgentsMDDiagnostic := mkMDDiagnostic { md_Code : string; md_Severity : string; md_Line : Z }.
Record AgentsMDViolation := mkMDViolation { mv_Predicate : string; mv_RefName : string; mv_Reason : Reason }.
Record AgentsMDPredicate := mkMDPredicate { mp_Name : string; mp_BranchGlob : string; mp_PathGlob : string; mp_MaxBytes : Z }.
Record AgentsMDGetResult := mkMDGetResult { mg_SchemaVersion : string; mg_Empty : bool; mg_Never : list AgentsMDPredicate }.

Inductive tool_result :=
| CloneAnswer (r : GitCloneResult)
| CIAnswer (r : CITriggerResult)
| QuotaAnswer (r : QuotaStatusResult)
| ValidateAnswer (diagnostics : list AgentsMDDiagnostic)
| EvaluateAnswer (violations : list AgentsMDViolation)
| GetAnswer (r : AgentsMDGetResult).

Definition severity_text (s : Severity) : string := match s with SeverityError => "error" | SeverityWarning => "warning" end.
Definition md_predicate (p : NeverPredicate) : AgentsMDPredicate :=
  mkMDPredicate (np_Name p) (sel_BranchGlob (np_Selector p)) (sel_PathGlob (np_Selector p)) (sel_MaxBytes (np_Selector p)).

(** The arguments of [agents_md_evaluate], and the resolver made of them. *)
Record agentsMDEvaluateParams := mkEvaluateParams {
  ae_RepoID : string; ae_Updates : list RefUpdate; ae_ChangedPaths : list string; ae_FileSizes : gmap string Z;
  ae_AgentsMDContent : string; ae_IsFastForward : gmap string bool }.

Definition inMemoryFileResolver {E} (i : agentsMDEvaluateParams) : FileResolver E :=
  mkFileResolver (fun _ _ => Ok (ae_ChangedPaths i)) (fun _ p => Ok (default 0 (ae_FileSizes i !! p)))
    (fun old new => Ok (default true (ae_IsFastForward i !! (old +:+ ":" +:+ new)))).

Definition update_into (u : RefUpdate) (v : jval) : option RefUpdate :=
  ms ← struct_members v; name ← decode_field dec_string (ru_RefName u) "ref_name" ms;
  old ← decode_field dec_string (ru_OldOID u) "old_oid" ms; new ← decode_field dec_string (ru_NewOID u) "new_oid" ms;
  Some (mkRefUpdate name old new).
Definition evaluate_params (ms : list (string * jval)) : option agentsMDEvaluateParams :=
  repo ← decode_field dec_string "" "repo_id" ms; updates ← decode_into (dec_slice update_into (mkRefUpdate "" "" "")) [] "updates" ms;
  paths ← decode_into strings_into [] "changed_paths" ms; sizes ← decode_into (dec_map dec_int 0) ∅ "file_sizes" ms;
  content ← decode_field dec_string "" "agents_md_content" ms; ff ← decode_into (dec_map dec_bool false) ∅ "is_fast_forward" ms;
  Some (mkEvaluateParams repo updates paths sizes content ff).
Definition repo_id_param (ms : list (string * jval)) : option string := decode_field dec_string "" "repo_id" ms.
Definition ci_params (ms : list (string * jval)) : option (string * string) :=
  repo ← decode_field dec_string "" "repo_id" ms; ref ← decode_field dec_string "" "ref" ms; Some (repo, ref).

(** What a server is made of besides its stores: which services are wired,
    the blob reader, the organisation's policy source, the URL builder. *)
Record Deps (E : Type) := mkDeps {
  dp_Identity : bool; dp_Repositories : bool; dp_BlobReader : option (@BlobReader E); dp_OrgPolicy : option (@RepoMetadata E);
  dp_CIRunClient : bool; dp_Resolver : bool; dp_Limiter : bool;
  dp_CloneURLBuilder : option (Repository -> string -> result error string) }.
Arguments mkDeps {E}.
Arguments dp_Identity {E}.
Arguments dp_Repositories {E}.
Arguments dp_BlobReader {E}.
Arguments dp_OrgPolicy {E}.
Arguments dp_CIRunClient {E}.
Arguments dp_Resolver {E}.
Arguments dp_Limiter {E}.
Arguments dp_CloneURLBuilder {E}.

(** The surroundings of one request, as in [RestApi.served]. *)
Record mserved (P : Type) := mkMserved {
  ms_now : time; ms_freshID : string; ms_limiter_up : bool; ms_reads : nat -> Store P;
  ms_cancelled : nat -> option error; ms_attempts : nat -> attempt P; ms_entropy : option (list ascii) }.
Arguments mkMserved {P}.
Arguments ms_now {P}.
Arguments ms_freshID {P}.
Arguments ms_limiter_up {P}.
Arguments ms_reads {P}.
Arguments ms_cancelled {P}.
Arguments ms_attempts {P}.
Arguments ms_entropy {P}.

Record mcp (P C : Type) := mkMcp { mcp_store : Store P; mcp_limiter : MemoryLimiter float; mcp_ci : C }.
Arguments mkMcp {P C}.
Arguments mcp_store {P C}.
Arguments mcp_limiter {P C}.
Arguments mcp_ci {P C}.

Section tools.
Context (Parse : string -> option uuid) {E : Type} (yaml_unmarshal : string -> option frontMatter).
Context {P : Type} {MR : MapRange} (ipay : identity_payload -> P) {C : Type} `{!CIClient C}.
Context (d : Deps E).

(** [ToolHandler]; the context of a call is what the request meets. *)
Definition tool := mserved P -> Principal -> option jval -> action tool_error (mcp P C) tool_result.

Definition on_store {A} (m : action error (Store P) A) : action tool_error (mcp P C) A := fun w =>
  let '(s, r) := m (mcp_store w) in
  (mkMcp s (mcp_limiter w) (mcp_ci w), match r with Ok a => Ok a | Err err => Err (ServiceError err) end).
Definition need {A} (o : option A) (err : tool_error) : action tool_error (mcp P C) A :=
  match o with Some a => ret a | None => throw err end.
Definition lift {X A} (r : result X A) : action tool_error (mcp P C) A :=
  match r with Ok a => ret a | Err _ => throw OtherError end.
(** [json.Unmarshal(raw, &in)]. *)
Definition arguments {A} (raw : option jval) (dec : list (string * jval) -> option A) : action tool_error (mcp P C) A :=
  need (j ← raw; ms ← struct_members j; dec ms) BadArgument.

Definition default_clone_url (repo : Repository) : string := "https://gitscale.local/repos/" +:+ uuid_String (r_ID repo) +:+ ".git".

Definition gitCloneHandler : tool := fun e p raw =>
  let! _ := require (dp_Identity d && dp_Repositories d) ToolNotImplemented in
  let! idText := arguments raw repo_id_param in
  let! repoID := need (Parse idText) BadArgument in
  let! repo := need (GetRepository repoID (ms_reads e 2%nat)) (ServiceError ErrRepositoryNotFound) in
  let! ct := on_store (MintCloneToken ipay (ms_cancelled e) (ms_attempts e) (ms_entropy e) (Principal_ID p) repoID) in
  let! url := match dp_CloneURLBuilder d with
              | Some build => lift (build repo (tok_Token ct))
              | None => ret (default_clone_url repo)
              end in
  ret (CloneAnswer (mkGitCloneResult url (tok_Token ct) (RFC3339 (tok_ExpiresAt ct)))).

Definition prCreateHandler : tool := fun _ _ _ => throw ToolNotImplemented.

Definition start_ci (i : CIRunInput) : action tool_error (mcp P C) RunHandle := fun w =>
  let '(c, r) := StartCIRun i (mcp_ci w) in
  (mkMcp (mcp_store w) (mcp_limiter w) c,
   match r with
   | Ok h => Ok h
   | Err err => Err (if bool_decide (err = ErrNotConfigured) then ToolNotImplemented else ServiceError err)
   end).

Definition ciTriggerHandler : tool := fun e p raw =>
  let! _ := require (dp_CIRunClient d) ToolNotImplemented in
  let! (idText, ref) := arguments raw ci_params in
  let! repoID := need (Parse idText) BadArgument in
  let! _ := require (negb (bool_decide (ref = ""))) BadArgument in
  let! h := start_ci (mkCIRunInput repoID ref (Principal_ID p)) in
  ret (CIAnswer (mkCITriggerResult (rh_WorkflowID h) (rh_RunID h))).

Definition quotaStatusHandler : tool := fun e p _ w =>
  let st := Inspect (TokenBucketKey (uuid_String (Principal_ID p)) SurfaceMCP) (mcp_limiter w) in
  (w, if ms_limiter_up e then Ok (QuotaAnswer (mkQuotaStatusResult (Capacity st) (Remaining st) (RefillPerSec st) SurfaceMCP))
      else Err OtherError).

(** [agentsmd.Lint]. *)
Definition Lint (data : string) : list Diagnostic := (AgentsMd.Parse yaml_unmarshal data).2.

Definition agentsMDValidateHandler : tool := fun _ _ raw =>
  let! content := arguments raw (decode_field dec_string "" "content") in
  ret (ValidateAnswer (map (fun g => mkMDDiagnostic (dg_Code g) (severity_text (dg_Severity g)) (dg_Line g)) (Lint content))).

(** The document evaluated: the one given, or the repository's; none is empty. *)
Definition evaluate_content (i : agentsMDEvaluateParams) : string :=
  if negb (bool_decide (ae_AgentsMDContent i = "")) then ae_AgentsMDContent i
  else match dp_BlobReader d with
       | Some blobs =>
           if bool_decide (ae_RepoID i = "") then ""
           else match br_ReadBlob blobs (ae_RepoID i) "HEAD" "AGENTS.md" with Ok data => data | Err _ => "" end
       | None => ""
       end.
Definition agentsMDEvaluateHandler : tool := fun _ _ raw =>
  let! i := arguments raw evaluate_params in
  let policy := (AgentsMd.Parse yaml_unmarshal (evaluate_content i)).1 in
  let! violations := lift (Evaluate (E := E) (Some policy)
    (mkEvaluationInput (ae_RepoID i) "" (ae_Updates i) (Some (inMemoryFileResolver i)))) in
  ret (EvaluateAnswer (map (fun v => mkMDViolation (np_Name (vi_Predicate v)) (vi_RefName v) (vi_Reason v)) violations)).

Definition agentsMDGetHandler : tool := fun e _ raw =>
  match dp_BlobReader d with
  | Some blobs =>
      let! _ := require (dp_Repositories d) ToolNotImplemented in
      let! idText := arguments raw repo_id_param in
      let! repoID := need (Parse idText) BadArgument in
      let! _ := need (GetRepository repoID (ms_reads e 2%nat)) (ServiceError ErrRepositoryNotFound) in
      let! orgBytes := match dp_OrgPolicy d with
                       | Some meta => lift (ResolveOrgPolicyBytes meta blobs (uuid_String repoID))
                       | None => ret ""
                       end in
      let! repoBytes := match br_ReadBlob blobs (uuid_String repoID) "HEAD" "AGENTS.md" with
                        | Ok data => ret data
                        | Err ErrBlobNotFound => ret ""
                        | Err (EBlobInfra _) => throw OtherError
                        end in
      let merged := Merge (Some (AgentsMd.Parse yaml_unmarshal orgBytes).1) (Some (AgentsMd.Parse yaml_unmarshal repoBytes).1) in
      ret (GetAnswer (mkMDGetResult (ap_SchemaVersion merged) (ap_Empty merged) (map md_predicate (ap_Never merged))))
  | None => throw ToolNotImplemented
  end.

(** [RegisterDefaults] on an empty registry; [None] is its panic. *)
Definition RegisterDefaults (r : Registry tool) : option (Registry tool) :=
  r ← MustRegister (mkTool ToolGitClone (Some gitCloneHandler)) r;
  r ← MustRegister (mkTool ToolPRCreate (Some prCreateHandler)) r;
  r ← MustRegister (mkTool ToolCITrigger (Some ciTriggerHandler)) r;
  r ← MustRegister (mkTool ToolQuotaStatus (Some quotaStatusHandler)) r;
  r ← MustRegister (mkTool ToolAgentsMDGet (Some agentsMDGetHandler)) r;
  r ← MustRegister (mkTool ToolAgentsMDValidate (Some agentsMDValidateHandler)) r;
  MustRegister (mkTool ToolAgentsMDEvaluate (Some agentsMDEvaluateHandler)) r.

(** ** server.go *)

Definition DeferredDefaultProtocolVersion : string := "2025-06-18".
Definition SessionTTL : duration := 30 * 60 * Second.

Record Config := mkConfig {
  cf_ProtocolVersion : string; cf_RateConfig : RateConfig; cf_ServerName : string; cf_ServerVersion : string;
  cf_SessionHMACSecret : list ascii }.

Record Server := mkServer { srv_cfg : Config; srv_registry : Registry tool }.

(** [None] is a panic. *)
Definition NewServer (cfg : Config) : option (result error Server) :=
  if bool_decide (cf_ProtocolVersion cfg = "") then Some (Err (errors_New "mcp: Config.ProtocolVersion is required"))
  else if (length (cf_SessionHMACSecret cfg) <? MinSessionHMACSecretBytes)%nat
  then Some (Err (errors_New "mcp: Config.SessionHMACSecret must be at least 32 bytes"))
  else if negb (dp_Resolver d) then Some (Err (errors_New "mcp: Deps.Resolver is required"))
  else if negb (dp_Limiter d) then Some (Err (errors_New "mcp: Deps.Limiter is required"))
  else reg ← RegisterDefaults NewRegistry; Some (Ok (mkServer cfg reg)).
End tools.

Record jsonRPCRequest := mkRPCRequest { jr_JSONRPC : string; jr_ID : option jval; jr_Method : string; jr_Params : option jval }.

Definition decodeRequest (body : string) : option jsonRPCRequest :=
  j ← Decode body; ms ← struct_members j;
  v ← decode_field dec_string "" "jsonrpc" ms; method ← decode_field dec_string "" "method" ms;
  Some (mkRPCRequest (if bool_decide (v = "") then "2.0" else v) (raw_field "id" ms) method (raw_field "params" ms)).

(** [ToolsCallParams]. *)
Definition decode_call (params : option jval) : option (string * option jval) :=
  j ← params; ms ← struct_members j; name ← decode_field dec_string "" "name" ms; Some (name, raw_field "arguments" ms).

Definition httpStatusForCode (c : Code) : Z :=
  if c =? CodeUnauthenticated then 401
  else if c =? CodeForbidden then 403
  else if c =? CodeNotFound then 404
  else if c =? CodeNotImplemented then 501
  else if c =? CodeConflict then 409
  else if c =? CodeRateLimited then 429
  else if (c =? CodeInvalidParams) || (c =? CodeMethodNotFound) then 400
  else 500.

Record InitializeResult := mkInitializeResult {
  ir_ProtocolVersion : string; ir_ServerName : string; ir_ServerVersion : string; ir_SessionID : string; ir_ExpiresAt : string;
  ir_Deferred : bool }.

(** The result of a request; the manifest is the tools' names. *)
Inductive rpc_result := Initialized (r : InitializeResult) | ToolsList (names : list string) | ToolDone (r : tool_result).
(** A JSON-RPC envelope, or a plain body of the middleware and the mux. *)
Inductive mcp_body :=
| HttpBody (b : body)
| RpcResult (id : option jval) (r : rpc_result)
| RpcError (id : option jval) (code : Code) (requestID : string).
Record mcp_response := mkMcpResponse { mr_status : Z; mr_headers : list (string * string); mr_body : mcp_body }.

Definition writeResult (id : option jval) (r : rpc_result) : mcp_response := mkMcpResponse 200 [json_content] (RpcResult id r).
Definition writeRPCError (id : option jval) (code : Code) (requestID : string) : mcp_response :=
  mkMcpResponse (httpStatusForCode code) [json_content] (RpcError id code requestID).
Definition http_answer (r : response) : mcp_response := mkMcpResponse (rs_status r) (rs_headers r) (HttpBody (rs_body r)).

Inductive mcp_endpoint := EpInitialize | EpToolsList | EpToolsCall | EpMcpHealthz.
Definition mcp_routes : list (string * list segment * mcp_endpoint) :=
  [("POST", [Lit "mcp"; Lit "v1"; Lit "initialize"], EpInitialize);
   ("POST", [Lit "mcp"; Lit "v1"; Lit "tools"; Lit "list"], EpToolsList);
   ("POST", [Lit "mcp"; Lit "v1"; Lit "tools"; Lit "call"], EpToolsCall);
   ("GET", [Lit "healthz"], EpMcpHealthz)].

Section server.
Context (Parse : string -> option uuid) {P : Type} {C : Type}.
Context (srv : @Server P C) (e : mserved P) (r : request) (rid : string).

Definition handleInitialize (p : option Principal) : mcp_response :=
  let cfg := srv_cfg srv in
  match decodeRequest (rq_body r) with
  | None => writeRPCError None CodeInvalidParams rid
  | Some req =>
      match p with
      | None => writeRPCError (jr_ID req) CodeUnauthenticated rid
      | Some q =>
          let expiresAt := Add (ms_now e) SessionTTL in
          match MintSession (cf_SessionHMACSecret cfg) (mkSession (Principal_ID q) (cf_ProtocolVersion cfg) expiresAt) with
          | Err _ => writeRPCError (jr_ID req) CodeInternal rid
          | Ok tok =>
              writeResult (jr_ID req) (Initialized (mkInitializeResult (cf_ProtocolVersion cfg) (cf_ServerName cfg) (cf_ServerVersion cfg)
                tok (RFC3339 expiresAt) (bool_decide (cf_ProtocolVersion cfg = DeferredDefaultProtocolVersion))))
          end
      end
  end.

Definition handleToolsList (p : option Principal) : mcp_response :=
  match decodeRequest (rq_body r) with
  | None => writeRPCError None CodeInvalidParams rid
  | Some req =>
      match p with
      | None => writeRPCError (jr_ID req) CodeUnauthenticated rid
      | Some _ => writeResult (jr_ID req) (ToolsList (map t_Name (Manifest (srv_registry srv))))
      end
  end.

Definition handleToolsCall (p : option Principal) (w : mcp P C) : mcp P C * mcp_response :=
  match decodeRequest (rq_body r) with
  | None => (w, writeRPCError None CodeInvalidParams rid)
  | Some req =>
      match p with
      | None => (w, writeRPCError (jr_ID req) CodeUnauthenticated rid)
      | Some q =>
          match decode_call (jr_Params req) with
          | None => (w, writeRPCError (jr_ID req) CodeInvalidParams rid)
          | Some (name, args) =>
              match t ← Registry_Get name (srv_registry srv); t_Handler t with
              | None => (w, writeRPCError (jr_ID req) CodeMethodNotFound rid)
              | Some handler =>
                  match handler e q args w with
                  | (w', Err err) => (w', writeRPCError (jr_ID req) (mapErr err) rid)
                  | (w', Ok res) => (w', writeResult (jr_ID req) (ToolDone res))
                  end
              end
          end
      end
  end.

Definition mcp_mux (p : option Principal) (w : mcp P C) : mcp P C * mcp_response :=
  match route mcp_routes (rq_method r) (rq_path r) with
  | RouteTo EpInitialize _ => (w, handleInitialize p)
  | RouteTo EpToolsList _ => (w, handleToolsList p)
  | RouteTo EpToolsCall _ => handleToolsCall p w
  | RouteTo EpMcpHealthz _ => (w, http_answer (mkResponse 200 [] (TextBody "ok")))
  | MethodNotAllowed => (w, http_answer (mkResponse 405 [] (TextBody "Method Not Allowed")))
  | NoRoute => (w, http_answer (mkResponse 404 [] (TextBody "404 page not found")))
  end.

(** [mcpRateLimit]; [bucketParamsForKind] is [bucketParams]. *)
Definition mcpRateLimit (p : option Principal) (w : mcp P C) : mcp P C * mcp_response :=
  if bool_decide (rq_path r = ["healthz"]) then mcp_mux p w
  else
    match p with
    | None => (w, writeRPCError None CodeUnauthenticated rid)
    | Some q =>
        let '(granted, m) := draw_token (cf_RateConfig (srv_cfg srv)) SurfaceMCP (ms_limiter_up e) (ms_now e) q (mcp_limiter w) in
        let w' := mkMcp (mcp_store w) m (mcp_ci w) in
        match granted with
        | Granted => mcp_mux p w'
        | LimiterDown => (w', writeRPCError None CodeInternal rid)
        | Refused => (w', writeRPCError None CodeRateLimited rid)
        end
    end.

Definition mcp_authenticated (w : mcp P C) : mcp P C * mcp_response :=
  if bool_decide (rq_path r = ["healthz"]) then mcpRateLimit None w
  else
    match authenticate Parse (ms_reads e) r with
    | Err msg => (w, http_answer (writeError rid 401 RestApi.CodeUnauthenticated msg))
    | Ok p => mcpRateLimit (Some p) w
    end.
End server.

(** [Server.Handler]. *)
Definition ServeMCP (Parse : string -> option uuid) {P C} (srv : @Server P C) (e : mserved P) (r : request) (w : mcp P C)
  : mcp P C * mcp_response :=
  let rid := requestID Parse (ms_freshID e) r in
  let '(w', resp) := mcp_authenticated Parse srv e r rid w in
  (w', mkMcpResponse (mr_status resp) (("X-Request-Id", rid) :: mr_headers resp) (mr_body resp)).

(** ** The registry *)

Section registry_theorems.
Context {H : Type}.

Definition filed_tools (r : gmap string (Tool H)) : Prop := map_Forall (fun name t => t_Name t = name /\ name <> "" /\ is_Some (t_Handler t)) r.

Lemma filed_tools_empty : filed_tools NewRegistry.
Proof. apply map_Forall_empty. Qed.

Lemma Register_ok (t : Tool H) (r r' : Registry H) : Register t r = Ok r' ->
  t_Name t <> "" /\ is_Some (t_Handler t) /\ r !! t_Name t = None /\ r' = <[t_Name t := t]> r.
Proof.
  unfold Register. case_bool_decide; [done|]. destruct (t_Handler t); [|done]. destruct (r !! t_Name t) eqn:E; [done|].
  intros [= <-]. eauto.
Qed.

Lemma Register_filed (t : Tool H) (r r' : Registry H) : Register t r = Ok r' -> filed_tools r -> filed_tools r'.
Proof. intros (Hn & Hh & _ & ->)%Register_ok Hr. by apply map_Forall_insert_2. Qed.

Lemma MustRegister_filed (t : Tool H) (r r' : Registry H) : MustRegister t r = Some r' -> filed_tools r -> filed_tools r'.
Proof. unfold MustRegister. destruct (Register t r) eqn:E; [|done]. intros [= <-]. by eapply Register_filed. Qed.

#[local] Instance tool_le_trans : Transitive (@tool_le H).
Proof. intros s t u. unfold tool_le. apply transitivity. Qed.
#[local] Instance tool_le_total : Total (@tool_le H).
Proof. intros s t. unfold tool_le. apply total, _. Qed.

(** Registering a list of tools under fresh names. *)
Fixpoint register_all (l : list (string * H)) (r : Registry H) : option (Registry H) :=
  match l with
  | [] => Some r
  | (name, h) :: l' => r ← MustRegister (mkTool name (Some h)) r; register_all l' r
  end.

Lemma register_all_spec l (r : Registry H) : NoDup l.*1 -> Forall (fun x => x.1 <> "") l -> Forall (fun x => r !! x.1 = None) l ->
  exists r', register_all l r = Some r' /\
    forall name t, r' !! name = Some t <-> r !! name = Some t \/ exists h, t = mkTool name (Some h) /\ (name, h) ∈ l.
Proof.
  revert r. induction l as [|[n h] l IH]; intros r Hd Hn Hr; cbn [register_all].
  - exists r. split; [done|]. intros name t. split; [by left|]. intros [?|(? & _ & Hh)]; [done|]. by apply elem_of_nil in Hh.
  - apply NoDup_cons in Hd as [Hnd Hd]. apply Forall_cons in Hn as [Hne Hn], Hr as [Hrn Hr]. cbn in Hnd, Hne, Hrn.
    unfold MustRegister, Register. cbn [t_Name t_Handler]. rewrite bool_decide_false, Hrn by done. cbn [mbind option_bind].
    destruct (IH (<[n := mkTool n (Some h)]> r)) as (r' & -> & Hl); [done|done| |].
    + apply Forall_forall. intros [m g] Hm. cbn. rewrite lookup_insert_ne; [by apply (proj1 (Forall_forall _ _) Hr (m, g))|].
      intros ->. apply Hnd, list_elem_of_fmap. by exists (m, g).
    + exists r'. split; [done|]. intros name t. rewrite Hl. setoid_rewrite elem_of_cons.
      destruct (decide (n = name)) as [<-|Hne'].
      * rewrite lookup_insert_eq. split; [naive_solver|]. intros [Ht|(g & -> & [[= ->]|Hg])]; [congruence|by left|right; by eexists].
      * rewrite lookup_insert_ne by done. naive_solver.
Qed.

(** The manifest lists every tool once, by name. *)
Lemma Manifest_sorted (r : Registry H) : StronglySorted tool_le (Manifest r) /\ Manifest r ≡ₚ (map_to_list r).*2.
Proof. split; [apply (StronglySorted_merge_sort _)|apply merge_sort_Permutation]. Qed.

Lemma StronglySorted_names (l : list (Tool H)) : StronglySorted tool_le l -> StronglySorted String.le (map t_Name l).
Proof. induction 1 as [|t l _ IH Hl]; cbn; constructor; [done|]. by rewrite Forall_map. Qed.

Lemma Manifest_names (r : Registry H) : filed_tools r -> map t_Name (Manifest r) = Names r.
Proof.
  intros Hr. apply (StronglySorted_unique String.le).
  - apply StronglySorted_names, Manifest_sorted.
  - apply (StronglySorted_merge_sort _).
  - unfold Names. rewrite merge_sort_Permutation. rewrite (Permutation_map t_Name (proj2 (Manifest_sorted r))).
    assert (E : map t_Name (map_to_list r).*2 = (map_to_list r).*1); [|by rewrite E].
    rewrite <- list_fmap_compose. apply list_fmap_ext. intros i [k t] Hi%list_elem_of_lookup_2%elem_of_map_to_list.
    by apply Hr in Hi as [? _].
Qed.
End registry_theorems.

(** ** What a tool does *)
Section effects.
Context (Parse : string -> option uuid) {E : Type} (yaml_unmarshal : string -> option frontMatter).
Context {P : Type} {MR : MapRange} (ipay : identity_payload -> P) {C : Type} `{!CIClient C}.
Context (d : Deps E).

Notation default_tools := (RegisterDefaults Parse yaml_unmarshal ipay d).

(** Nothing, or a clone token minted for the caller, or a CI run started in
    the caller's name. *)
Inductive acts (e : mserved P) (q : Principal) (w : mcp P C) : mcp P C * result tool_error tool_result -> Prop :=
| acts_nothing x : acts e q w (w, x)
| acts_mint repoID repo s ct x :
    GetRepository repoID (ms_reads e 2%nat) = Some repo ->
    MintCloneToken ipay (ms_cancelled e) (ms_attempts e) (ms_entropy e) (Principal_ID q) repoID (mcp_store w) = (s, Ok ct) ->
    x = Err OtherError \/ (exists url, x = Ok (CloneAnswer (mkGitCloneResult url (tok_Token ct) (RFC3339 (tok_ExpiresAt ct))))) ->
    acts e q w (mkMcp s (mcp_limiter w) (mcp_ci w), x)
| acts_run repoID ref c h x :
    ref <> "" -> StartCIRun (mkCIRunInput repoID ref (Principal_ID q)) (mcp_ci w) = (c, h) ->
    acts e q w (mkMcp (mcp_store w) (mcp_limiter w) c, x).

Definition acting (h : tool) : Prop := forall e q raw w, acts e q w (h e q raw w).

Lemma acts_need {A} e q w (o : option A) err k : (forall a, o = Some a -> acts e q w (k a w)) -> acts e q w (bind (need o err) k w).
Proof. intros Hk. unfold need, bind. destruct o; [by apply Hk|apply acts_nothing]. Qed.
Lemma acts_require e q w b err k : (b = true -> acts e q w (k tt w)) -> acts e q w (bind (require b err) k w).
Proof. intros Hk. unfold require, bind. destruct b; [by apply Hk|apply acts_nothing]. Qed.
Lemma acts_lift {X A} e q w (r : result X A) k : (forall a, r = Ok a -> acts e q w (k a w)) -> acts e q w (bind (lift r) k w).
Proof. intros Hk. unfold lift, bind. destruct r; [by apply Hk|apply acts_nothing]. Qed.

Lemma MintCloneToken_rolls_back cancelled atts entropy principal repo s s' err :
  MintCloneToken ipay cancelled atts entropy principal repo s = (s', Err err) -> s' = s.
Proof.
  intros Em. apply (rolls_back_void (MintCloneToken ipay cancelled atts entropy principal repo)) in Em; [done|].
  apply (run_op_rolls_back ipay cancelled atts (OpMintCloneToken entropy principal repo)).
Qed.

Lemma gitClone_acts : acting (gitCloneHandler Parse ipay d).
Proof.
  intros e q raw w. unfold gitCloneHandler, arguments. apply acts_require. intros _.
  apply acts_need. intros idText _. apply acts_need. intros repoID _. apply acts_need. intros repo Hr.
  unfold bind at 1, on_store. destruct (MintCloneToken _ _ _ _ _ _ _) as [s [ct|err]] eqn:Em.
  - assert (Hx : forall x, x = Err OtherError \/ (exists url, x = Ok (CloneAnswer (mkGitCloneResult url (tok_Token ct) (RFC3339 (tok_ExpiresAt ct))))) ->
      acts e q w (mkMcp s (mcp_limiter w) (mcp_ci w), x)) by (intros x Hx; by eapply acts_mint).
    unfold bind, lift. destruct (dp_CloneURLBuilder d) as [build|]; [destruct (build repo (tok_Token ct))|]; apply Hx; eauto.
  - apply MintCloneToken_rolls_back in Em as ->. destruct w. apply acts_nothing.
Qed.

Lemma ciTrigger_acts : acting (ciTriggerHandler Parse d).
Proof.
  intros e q raw w. unfold ciTriggerHandler, arguments. apply acts_require. intros _.
  apply acts_need. intros [idText ref] _. apply acts_need. intros repoID _. apply acts_require. intros Hr. reflect_bools.
  unfold bind, start_ci. destruct (StartCIRun _ _) as [c h] eqn:Es.
  destruct h as [h|err]; by eapply acts_run.
Qed.

Lemma agentsMDGet_acts : acting (agentsMDGetHandler Parse yaml_unmarshal d).
Proof.
  intros e q raw w. unfold agentsMDGetHandler, arguments. destruct (dp_BlobReader d) as [blobs|]; [|apply acts_nothing].
  apply acts_require. intros _. do 3 (apply acts_need; intros ? _).
  set (k := fun orgBytes => bind _ _). assert (Hk : forall o, acts e q w (k o w)).
  { intros o. unfold k. destruct (br_ReadBlob _ _ _ _) as [data|[|err]]; apply acts_nothing. }
  destruct (dp_OrgPolicy d) as [meta|]; [|apply Hk]. apply acts_lift. intros o _. apply Hk.
Qed.

(** The tools a server has by default, under their names. *)
Definition tool_table : list (string * tool) :=
  [(ToolGitClone, gitCloneHandler Parse ipay d); (ToolPRCreate, prCreateHandler);
   (ToolCITrigger, ciTriggerHandler Parse d); (ToolQuotaStatus, quotaStatusHandler);
   (ToolAgentsMDGet, agentsMDGetHandler Parse yaml_unmarshal d);
   (ToolAgentsMDValidate, agentsMDValidateHandler yaml_unmarshal);
   (ToolAgentsMDEvaluate, agentsMDEvaluateHandler yaml_unmarshal d)].

Lemma RegisterDefaults_all r : default_tools r = register_all tool_table r.
Proof.
  unfold RegisterDefaults, tool_table. cbn [register_all]. do 6 (destruct (MustRegister _ _); [cbn [mbind option_bind]|done]).
  by destruct (MustRegister _ _).
Qed.

Lemma RegisterDefaults_table : exists reg, default_tools NewRegistry = Some reg /\
  forall name t, reg !! name = Some t <-> exists h, t = mkTool name (Some h) /\ (name, h) ∈ tool_table.
Proof.
  rewrite RegisterDefaults_all. destruct (register_all_spec tool_table NewRegistry) as (reg & Hreg & Hl).
  - apply (bool_decide_unpack _). vm_compute. exact I.
  - repeat constructor; done.
  - apply Forall_true. intros x. apply lookup_empty.
  - exists reg. split; [done|]. intros name t. rewrite Hl. unfold NewRegistry. rewrite lookup_empty. naive_solver.
Qed.

Lemma tool_table_acts name h : (name, h) ∈ tool_table -> acting h.
Proof.
  intros Hin. unfold tool_table in Hin.
  repeat (apply elem_of_cons in Hin as [[= -> ->]|Hin]); [..|by apply elem_of_nil in Hin].
  - apply gitClone_acts.
  - intros e q raw w. apply acts_nothing.
  - apply ciTrigger_acts.
  - intros e q raw w. apply acts_nothing.
  - apply agentsMDGet_acts.
  - intros e q raw w. unfold agentsMDValidateHandler, arguments. apply acts_need. intros c _. apply acts_nothing.
  - intros e q raw w. unfold agentsMDEvaluateHandler, arguments. apply acts_need. intros i _. apply acts_lift. intros vs _. apply acts_nothing.
Qed.

(** The server that [NewServer] makes. *)
Definition default_server (cfg : Config) (srv : Server) : Prop := NewServer Parse yaml_unmarshal ipay d cfg = Some (Ok srv).

Lemma default_server_tools cfg srv : default_server cfg srv -> srv_cfg srv = cfg /\
  forall name t, srv_registry srv !! name = Some t <-> exists h, t = mkTool name (Some h) /\ (name, h) ∈ tool_table.
Proof.
  unfold default_server, NewServer. destruct RegisterDefaults_table as (reg & -> & Hl). cbn [mbind option_bind].
  repeat (case_match; [done|]). by intros [= <-].
Qed.

(** [NewServer] does not panic, and succeeds when what it checks is there. *)
Lemma NewServer_spec cfg : exists r, NewServer Parse yaml_unmarshal ipay d cfg = Some r /\
  ((exists srv, r = Ok srv) <-> cf_ProtocolVersion cfg <> "" /\ (MinSessionHMACSecretBytes <= length (cf_SessionHMACSecret cfg))%nat /\
     dp_Resolver d = true /\ dp_Limiter d = true).
Proof.
  unfold NewServer. destruct RegisterDefaults_table as (reg & -> & _). cbn [mbind option_bind].
  case_bool_decide; [eexists; split; [done|]; split; [by intros []|tauto]|].
  destruct (Nat.ltb_spec (length (cf_SessionHMACSecret cfg)) MinSessionHMACSecretBytes);
    [eexists; split; [done|]; split; [by intros []|lia]|].
  destruct (dp_Resolver d); [|eexists; split; [done|]; split; [by intros []|naive_solver]].
  destruct (dp_Limiter d); [|eexists; split; [done|]; split; [by intros []|naive_solver]].
  eexists. split; [done|]. split; [done|]. intros _. by eexists.
Qed.

Lemma handleToolsCall_acts cfg srv e r rid q w w' resp : default_server cfg srv ->
  handleToolsCall srv e r rid (Some q) w = (w', resp) ->
  exists x, acts e q w (w', x) /\ (w' <> w -> exists id,
    resp = match x with Ok res => writeResult id (ToolDone res) | Err err => writeRPCError id (mapErr err) rid end).
Proof.
  intros [_ Hs]%default_server_tools H. unfold handleToolsCall in H.
  destruct (decodeRequest _) as [req|]; [|injection H as <- <-; exists (Err OtherError); split; [apply acts_nothing|done]].
  destruct (decode_call _) as [[name args]|]; [|injection H as <- <-; exists (Err OtherError); split; [apply acts_nothing|done]].
  unfold Registry_Get in H. destruct (srv_registry srv !! name) as [t|] eqn:Et;
    [|injection H as <- <-; exists (Err OtherError); split; [apply acts_nothing|done]].
  apply Hs in Et as (h & -> & Hin%tool_table_acts). cbn in H. pose proof (Hin e q args w) as Ha.
  destruct (h e q args w) as [w1 x]. exists x. destruct x; injection H as <- <-; (split; [done|]); intros _; by eexists.
Qed.
End effects.

(** ** What a request does *)
Section serving.
Context (Parse : string -> option uuid) {E : Type} (yaml_unmarshal : string -> option frontMatter).
Context {P : Type} {MR : MapRange} (ipay : identity_payload -> P) {C : Type} `{!CIClient C}.
Context (d : Deps E) (cfg : Config) (srv : @Server P C).
Context (Hsrv : default_server Parse yaml_unmarshal ipay d cfg srv).

Lemma mcp_mux_acts e r rid q w w' resp : mcp_mux srv e r rid (Some q) w = (w', resp) ->
  exists x, acts ipay e q w (w', x) /\ (w' <> w -> exists id,
    resp = match x with Ok res => writeResult id (ToolDone res) | Err err => writeRPCError id (mapErr err) rid end).
Proof.
  unfold mcp_mux. destruct (route _ _ _) as [[] wild| |]; intros H; try (by eapply handleToolsCall_acts);
    (injection H as <- <-; exists (Err OtherError); split; [apply acts_nothing|done]).
Qed.

Lemma route_mcp_healthz method : match route mcp_routes method ["healthz"] with RouteTo ep _ => ep = EpMcpHealthz | _ => True end.
Proof.
  unfold route. destruct (list_find _ _) as [[i [[m pat] ep]]|] eqn:El; [|by destruct (existsb _ _)].
  apply list_find_Some in El as (Hi & [_ [vs Hm]] & _). apply list_elem_of_lookup_2 in Hi. unfold mcp_routes in Hi.
  repeat (apply elem_of_cons in Hi as [[= -> -> ->]|Hi]; [first [done | discriminate Hm]|]). by apply elem_of_nil in Hi.
Qed.

(** The middleware either answers itself, the store untouched, or has drawn a
    token of the caller and passes the request on. *)
Lemma mcp_authenticated_cases e r rid w w' resp : mcp_authenticated Parse srv e r rid w = (w', resp) ->
  (w' = w /\ (exists b, mr_body resp = HttpBody b) /\
   (rq_path r = ["healthz"] \/ exists msg, authenticate Parse (ms_reads e) r = Err msg)) \/
  exists q m g, authenticate Parse (ms_reads e) r = Ok q /\
    draw_token (cf_RateConfig cfg) SurfaceMCP (ms_limiter_up e) (ms_now e) q (mcp_limiter w) = (g, m) /\
    let w1 := mkMcp (mcp_store w) m (mcp_ci w) in
    (g = Granted /\ mcp_mux srv e r rid (Some q) w1 = (w', resp) \/ g <> Granted /\ w' = w1 /\ exists c, mr_body resp = RpcError None c rid).
Proof.
  destruct (default_server_tools _ _ _ _ _ _ Hsrv) as [Hc _].
  unfold mcp_authenticated. destruct (bool_decide_reflect (rq_path r = ["healthz"])) as [Hp|Hp].
  - unfold mcpRateLimit, mcp_mux. rewrite bool_decide_true by done. rewrite Hp. pose proof (route_mcp_healthz (rq_method r)) as Hr.
    intros H. left. destruct (route _ _ _) as [ep wild| |]; [subst ep|..]; injection H as <- <-; (split_and!; [done|by eexists|by left]).
  - destruct (authenticate _ _ _) as [q|msg].
    + intros H. right. unfold mcpRateLimit in H. rewrite bool_decide_false, Hc in H by done.
      destruct (draw_token _ _ _ _ _ _) as [g m] eqn:Ed. exists q, m, g. split; [done|]. split; [done|].
      destruct g; [by left|right..]; injection H as <- <-; (split_and!; [done|done|by eexists]).
    + intros [= <- <-]. left. split_and!; [done|by eexists|]. right. by exists msg.
Qed.
End serving.

(** C20: Whatever is sent to the MCP server, it acts for the authenticated
    caller and for nobody else: the store changes only by a clone token of a
    repository that exists, minted for the caller, and a CI run is started
    only in the caller's name; a token that was minted is in the answer,
    unless the URL builder failed, and every other request leaves store and
    CI client as they were. *)
Theorem mcp_acts_for_its_caller {P E C} {MR : MapRange} `{!CIClient C} Parse yaml_unmarshal (ipay : identity_payload -> P) (d : Deps E)
    cfg srv e r w w' resp :
  NewServer (C := C) Parse yaml_unmarshal ipay d cfg = Some (Ok srv) -> ServeMCP Parse srv e r w = (w', resp) ->
  mcp_store w' = mcp_store w /\ mcp_ci w' = mcp_ci w \/
  exists q, authenticate Parse (ms_reads e) r = Ok q /\
  ((exists repoID repo ct, GetRepository repoID (ms_reads e 2%nat) = Some repo /\
      MintCloneToken ipay (ms_cancelled e) (ms_attempts e) (ms_entropy e) (Principal_ID q) repoID (mcp_store w) = (mcp_store w', Ok ct) /\
      mcp_ci w' = mcp_ci w /\
      (mr_status resp = 500 \/ exists id url, mr_body resp =
         RpcResult id (ToolDone (CloneAnswer (mkGitCloneResult url (tok_Token ct) (RFC3339 (tok_ExpiresAt ct))))))) \/
   (exists repoID ref h, ref <> "" /\ StartCIRun (mkCIRunInput repoID ref (Principal_ID q)) (mcp_ci w) = (mcp_ci w', h) /\
      mcp_store w' = mcp_store w)).
Proof.
  intros Hsrv H. unfold ServeMCP in H. destruct (mcp_authenticated _ _ _ _ _ _) as [w1 resp1] eqn:Ea. injection H as <- <-.
  apply (mcp_authenticated_cases _ _ _ _ _ _ Hsrv) in Ea as [(-> & _)|(q & m & g & Hq & _ & [[_ Hm]|(_ & -> & _)])]; [by left| |by left].
  apply (mcp_mux_acts _ _ _ _ _ _ Hsrv) in Hm as (x & Ha & Hr).
  inversion Ha as [x' Hw|repoID repo s ct x' Hg Hmint Hx Hw|repoID ref c h x' Href Hrun Hw]; subst; [by left| |].
  - right. exists q. split; [done|]. left. exists repoID, repo, ct. cbn in Hmint |- *. split_and!; [done..|].
    destruct (MintCloneToken_ok ipay _ _ _ _ _ _ _ _ Hmint) as (buf & i & _ & _ & _ & Es).
    destruct Hr as [id ->].
    { intros [= Ew]. apply (f_equal (fun s => length (outbox s))) in Ew. rewrite Es in Ew.
      cbn in Ew. rewrite length_app in Ew. cbn in Ew. lia. }
    destruct Hx as [->|[url ->]]; [by left|right; by exists id, url].
  - right. exists q. split; [done|]. right. exists repoID, ref, h. by cbn in Hrun |- *.
Qed.

(** ** The two surfaces' meters *)

Lemma surface_keys_differ u v : TokenBucketKey (uuid_String u) SurfaceMCP <> TokenBucketKey (uuid_String v) rateLimitSurface.
Proof.
  intros Ek. apply (f_equal (fun s => length (s2l s))) in Ek. unfold TokenBucketKey in Ek.
  rewrite !s2l_app, !length_app, !uuid_String_length in Ek. discriminate.
Qed.

(** An MCP request is paid by its caller, from the bucket of the MCP
    surface alone: unauthenticated it costs nothing, one that changes anything
    has drawn its token first, and the buckets of every other principal and
    those of the REST surface, the caller's included, are left as they were. *)
Theorem mcp_requests_are_metered {P E C} {MR : MapRange} `{!CIClient C} Parse yaml_unmarshal (ipay : identity_payload -> P) (d : Deps E)
    cfg srv e r w w' resp :
  NewServer (C := C) Parse yaml_unmarshal ipay d cfg = Some (Ok srv) -> ServeMCP Parse srv e r w = (w', resp) ->
  match authenticate Parse (ms_reads e) r with
  | Err _ => w' = w
  | Ok q =>
      (forall key, key <> TokenBucketKey (uuid_String (Principal_ID q)) SurfaceMCP -> mcp_limiter w' !! key = mcp_limiter w !! key) /\
      (forall u, mcp_limiter w' !! TokenBucketKey (uuid_String u) rateLimitSurface = mcp_limiter w !! TokenBucketKey (uuid_String u) rateLimitSurface) /\
      (mcp_store w' <> mcp_store w \/ mcp_ci w' <> mcp_ci w ->
       draw_token (cf_RateConfig cfg) SurfaceMCP (ms_limiter_up e) (ms_now e) q (mcp_limiter w) = (Granted, mcp_limiter w'))
  end.
Proof.
  intros Hsrv H. unfold ServeMCP in H. destruct (mcp_authenticated _ _ _ _ _ _) as [w1 resp1] eqn:Ea. injection H as <- <-.
  apply (mcp_authenticated_cases _ _ _ _ _ _ Hsrv) in Ea as [(-> & _ & Hh)|(q & m & g & -> & Hd & Hg)].
  { destruct (authenticate _ _ _); [|done]. split_and!; [done..|]. by intros [[]|[]]. }
  assert (Hw : mcp_limiter w1 = m /\ (g <> Granted -> mcp_store w1 = mcp_store w /\ mcp_ci w1 = mcp_ci w)).
  { destruct Hg as [[-> Hm]|(Hn & -> & _)]; [split; [|done]|done].
    apply (mcp_mux_acts _ _ _ _ _ _ Hsrv) in Hm as (x & Ha & _). by inversion Ha. }
  destruct Hw as [-> Hw].
  assert (Hf : forall key, key <> TokenBucketKey (uuid_String (Principal_ID q)) SurfaceMCP -> m !! key = mcp_limiter w !! key).
  { intros key Hk. pose proof (draw_token_frame (cf_RateConfig cfg) SurfaceMCP (ms_limiter_up e) (ms_now e) q (mcp_limiter w) key Hk) as Hf.
    by rewrite Hd in Hf. }
  split_and!; [done|intros u; apply Hf; apply not_eq_sym, surface_keys_differ|].
  intros Hc. rewrite Hd. destruct Hg as [[-> _]|(Hn & _)]; [done|]. destruct (Hw Hn). by destruct Hc.
Qed.

(** *** [quota_status] *)

(** What [quota_status] reports is the bucket the request itself was charged to. *)
Lemma quota_status_reports {P C} (e : mserved P) q raw (w : mcp P C) :
  ms_limiter_up e = true ->
  quotaStatusHandler e q raw w = (w, Ok (QuotaAnswer (
    match mcp_limiter w !! TokenBucketKey (uuid_String (Principal_ID q)) SurfaceMCP with
    | Some b => mkQuotaStatusResult (capacity b) (tokens b) (refill b) SurfaceMCP
    | None => mkQuotaStatusResult f0 f0 f0 SurfaceMCP
    end))).
Proof. intros Hu. unfold quotaStatusHandler, Inspect. rewrite Hu. by destruct (_ !! _). Qed.

(** ** The policy that is shown is the one that is enforced *)

#[local] Instance md_predicate_inj : Inj (=) (=) md_predicate.
Proof. intros [n [b p m]] [n' [b' p' m']] [= -> -> -> ->]. done. Qed.

(** What [agents_md_get] shows is what the pre-receive hook enforces: a
    push that brings no AGENTS.md of its own is accepted exactly when no rule
    of the answer matches any of its updates. *)
Theorem shown_policy_is_enforced {P C} E Parse yaml_unmarshal (d : Deps E) (blobs : BlobReader E) meta (e : mserved P) q raw (w w' : mcp P C) g
    repo updates data :
  dp_BlobReader d = Some blobs -> dp_OrgPolicy d = Some meta ->
  agentsMDGetHandler Parse yaml_unmarshal d e q raw w = (w', Ok (GetAnswer g)) ->
  (j ← raw; ms ← struct_members j; t ← repo_id_param ms; u ← Parse t; Some (uuid_String u)) = Some (rr_RepoID repo) ->
  readRepoPolicy blobs repo updates = Ok data ->
  data = match br_ReadBlob blobs (rr_RepoID repo) "HEAD" "AGENTS.md" with Ok x => x | Err _ => "" end ->
  (PreReceive yaml_unmarshal blobs (ResolveOrgPolicyBytes meta blobs) repo updates = Ok tt <->
   forall p u, md_predicate p ∈ mg_Never g -> u ∈ updates ->
     matchPredicate p u (Some (resolverAdapter blobs (rr_RepoID repo))) = Ok None).
Proof.
  intros Hb Ho H Hid Hr Hdata. unfold agentsMDGetHandler, arguments, need in H. rewrite Hb, Ho in H.
  apply bind_ok in H as (w1 & _ & _ & H). apply bind_ok in H as (w2 & idText & Ht & H).
  apply bind_ok in H as (w3 & repoID & Hp & H). apply bind_ok in H as (w4 & _ & _ & H).
  apply bind_ok in H as (w5 & ob & Hob & H). apply bind_ok in H as (w6 & rb & Hrb & H). injection H as _ <-. cbn [mg_Never].
  destruct raw as [j|]; [|done]. cbn in Ht, Hid. destruct (struct_members j) as [ms|]; [|done]. cbn in Ht, Hid.
  destruct (repo_id_param ms) as [t|]; [|done]. injection Ht as _ ->. cbn in Hid.
  destruct (Parse idText) as [u|]; [|done]. injection Hp as _ <-. injection Hid as Hid. rewrite Hid in Hob, Hrb.
  destruct (ResolveOrgPolicyBytes meta blobs (rr_RepoID repo)) as [ob'|] eqn:Eo; [|done]. injection Hob as _ ->.
  assert (data = rb) as ->.
  { rewrite Hdata. by destruct (br_ReadBlob _ _ _ _) as [x|[|err]]; [injection Hrb|injection Hrb|]. }
  rewrite (PreReceive_cases _ _ _ _ _ rb ob Hr Eo). setoid_rewrite <- merged_in_force. split.
  - intros Hm p' u' Hin Hu. apply list_elem_of_fmap in Hin as (p & Hp%(inj md_predicate) & Hin). subst. by apply Hm.
  - intros Hm p' u' Hin Hu. apply Hm; [|done]. apply list_elem_of_fmap. by exists p'.
Qed.

(** The dry run evaluates whatever it is given: it never fails. *)
Lemma dry_run_answers {P C E} yaml_unmarshal (d : Deps E) (e : mserved P) q raw (w : mcp P C) i :
  (j ← raw; ms ← struct_members j; evaluate_params ms) = Some i ->
  exists vs, agentsMDEvaluateHandler yaml_unmarshal d e q raw w = (w, Ok (EvaluateAnswer vs)).
Proof.
  intros Hi. unfold agentsMDEvaluateHandler, arguments, need. rewrite Hi. unfold bind at 1. cbn [ret].
  assert (Hm : forall (p : NeverPredicate) u, exists m, matchPredicate (E := E) p u (Some (inMemoryFileResolver i)) = Ok m).
  { intros p u. unfold matchPredicate. cbn [fr_Changed fr_Size fr_IsFastForward inMemoryFileResolver].
    assert (Ho : forall oid limit paths, exists m, first_oversize (E := E) (inMemoryFileResolver i) oid limit paths = Ok m).
    { intros oid limit paths. induction paths as [|x paths [m IH]]; cbn; [by eexists|]. rewrite IH. case_match; by eexists. }
    repeat (case_match; try done; try by eexists). }
  unfold bind, lift, Evaluate. destruct (_ || _); [by eexists|].
  destruct (eval_preds_total (E := E) (ap_Never (AgentsMd.Parse yaml_unmarshal (evaluate_content d i)).1)
    (Some (inMemoryFileResolver i)) (ae_Updates i)) as [vs Hvs]; [auto|]. cbn [ev_Files ev_Updates]. rewrite Hvs. by eexists.
Qed.

(** ** Sessions *)

Lemma mcp_mux_initialized {P C} (srv : @Server P C) e r rid q w w' resp id ir :
  mcp_mux srv e r rid (Some q) w = (w', resp) -> mr_body resp = RpcResult id (Initialized ir) ->
  exists tok, MintSession (cf_SessionHMACSecret (srv_cfg srv))
    (mkSession (Principal_ID q) (cf_ProtocolVersion (srv_cfg srv)) (Add (ms_now e) SessionTTL)) = Ok tok /\ ir_SessionID ir = tok.
Proof.
  intros H Hb. unfold mcp_mux in H. destruct (route _ _ _) as [[] wild| |]; try by (injection H as _ <-; discriminate).
  - injection H as _ <-. unfold handleInitialize in Hb. destruct (decodeRequest _) as [req|]; [|discriminate].
    destruct (MintSession _ _) as [tok|]; [|discriminate]. cbn in Hb. injection Hb as _ <-. by exists tok.
  - injection H as _ <-. unfold handleToolsList in Hb. destruct (decodeRequest _); discriminate.
  - unfold handleToolsCall in H. destruct (decodeRequest _) as [req|]; [|injection H as _ <-; discriminate].
    destruct (decode_call _) as [[name args]|]; [|injection H as _ <-; discriminate].
    destruct (t ← _; _) as [h|]; [|injection H as _ <-; discriminate].
    destruct (h e q args w) as [w1 []]; injection H as _ <-; discriminate.
Qed.

(** The session [initialize] hands out is the caller's: it verifies with
    the server's secret as the authenticated principal, for the configured
    protocol version, until half an hour later (in whole seconds), and not
    after. *)
Theorem initialize_session_verifies {P E C} {MR : MapRange} `{!CIClient C} Parse yaml_unmarshal (ipay : identity_payload -> P) (d : Deps E)
    cfg srv e r w w' resp id ir :
  (forall u, uuid_ok u -> Parse (uuid_String u) = Some u) ->
  NewServer (C := C) Parse yaml_unmarshal ipay d cfg = Some (Ok srv) -> ServeMCP Parse srv e r w = (w', resp) ->
  mr_body resp = RpcResult id (Initialized ir) -> bar ∉ s2l (cf_ProtocolVersion cfg) ->
  0 <= ms_now e -> ms_now e + SessionTTL < 2 ^ 62 * Second ->
  exists q, authenticate Parse (ms_reads e) r = Ok q /\ (uuid_ok (Principal_ID q) -> forall now,
    VerifySession Parse (cf_SessionHMACSecret cfg) now (ir_SessionID ir) =
      if now <? (ms_now e + SessionTTL) / Second * Second
      then Ok (mkSession (Principal_ID q) (cf_ProtocolVersion cfg) ((ms_now e + SessionTTL) / Second * Second))
      else Err SessionExpired).
Proof.
  intros HP Hsrv H Hb Hv Hn1 Hn2. unfold ServeMCP in H. set (rid := requestID _ _ _) in H.
  destruct (mcp_authenticated _ _ _ _ _ _) as [w1 resp1] eqn:Ea. injection H as <- <-. cbn [mr_body] in Hb.
  apply (mcp_authenticated_cases _ _ _ _ _ _ Hsrv) in Ea as [(_ & [b Eb] & _)|(q & m & g & Hq & _ & [[_ Hm]|(_ & _ & c & Ec)])]; [congruence| |congruence].
  exists q. split; [done|]. intros Hu now. destruct (mcp_mux_initialized _ _ _ _ _ _ _ _ _ _ Hm Hb) as (tok & Ht & ->).
  destruct (default_server_tools _ _ _ _ _ _ Hsrv) as [Hc _]. rewrite Hc in Ht.
  set (s := mkSession _ _ _) in Ht. apply (session_roundtrip Parse _ s tok now HP); [|done].
  unfold portable, s, Time_Unix, Add. cbn [ss_PrincipalID ss_ProtocolVersion ss_ExpiresAt].
  assert (H0 : 0 <= (ms_now e + SessionTTL) / Second) by (apply Z.div_pos; unfold SessionTTL, Second in *; lia).
  assert (H1 : (ms_now e + SessionTTL) / Second < 2 ^ 62) by (apply Z.div_lt_upper_bound; unfold Second in *; lia).
  unfold is_int64, unixToInternal, int64_min, int64_max. split_and!; [done|done|lia..].
Qed.

(** ** A sample server *)
Section mcp_sample.
#[local] Existing Instance some_range.

Definition sample_mcp_store : Store (identity_payload + RepositoryCreatedPayload) :=
  let s := api_store sample_api in
  mkStore (users s) (agents s) (<[3 := sample_repository 3 1 20]> ∅) ∅ ∅ ∅ [].
Definition sample_reader : BlobReader unit :=
  mkBlobReader (fun repo rev path => if bool_decide (repo = uuid_String 3) then Err ErrBlobNotFound else Ok sample_org)
    (fun _ _ _ => Ok []) (fun _ _ _ => Ok 0) (fun _ _ _ => Ok true).
Definition sample_meta : @RepoMetadata unit :=
  mkRepoMetadata (fun _ => Ok ("acme", "compiler")) (fun _ _ => Ok "policies").
Definition sample_deps : Deps unit := mkDeps true true (Some sample_reader) (Some sample_meta) true true true None.
Definition sample_mcp_config : Config := mkConfig "2025-06-18" sample_config "gitscale-mcp" "0.1.0" sample_secret.
Definition sample_mcp : mcp (identity_payload + RepositoryCreatedPayload) StubClient :=
  mkMcp sample_mcp_store ∅ (mkStubClient (mkRunHandle "wf" "run") None (mkCIRunInput 0 "" 0) false).
Definition sample_mserved : mserved (identity_payload + RepositoryCreatedPayload) :=
  mkMserved Second (uuid_String 99) true (fun _ => sample_mcp_store) (fun _ => None)
    (sv_attempts (sample_served sample_api)) (Some (replicate 32 "x"%char)).

Notation sample_new_server := (NewServer (C := StubClient) canonical_Parse sample_yaml
  (inl : identity_payload -> identity_payload + RepositoryCreatedPayload) sample_deps sample_mcp_config).
Definition sample_mcp_server : option (@Server (identity_payload + RepositoryCreatedPayload) StubClient) :=
  match sample_new_server with
  | Some (Ok srv) => Some srv
  | _ => None
  end.
Definition post (path : list string) (bearer body : string) : request :=
  mkRequest "POST" path (fun h => if bool_decide (h = "Authorization") then "Bearer " +:+ bearer else "") (fun _ => "") body false.
Definition call_text (name : string) (args : list (string * jval)) : string :=
  Marshal (VObj [("jsonrpc", VStr "2.0"); ("id", VInt 1); ("params", VObj [("name", VStr name); ("arguments", VObj args)])]).
Definition call_request (name : string) (args : list (string * jval)) : request :=
  post ["mcp"; "v1"; "tools"; "call"] (uuid_String 9) (call_text name args).
Definition serve_mcp (r : request) (w : mcp (identity_payload + RepositoryCreatedPayload) StubClient) :=
  (fun srv => ServeMCP canonical_Parse srv sample_mserved r w) <$> sample_mcp_server.

Definition clone_request : request := call_request ToolGitClone [("repo_id", VStr (uuid_String 3))].

Example sample_tools :
  (fun x => mr_body x.2) <$> serve_mcp (post ["mcp"; "v1"; "tools"; "list"] (uuid_String 9) "{}") sample_mcp =
    Some (RpcResult None (ToolsList AllToolNames)) /\
  (fun x => (mr_status x.2, mr_body x.2)) <$> serve_mcp (call_request ToolPRCreate []) sample_mcp =
    Some (501, RpcError (Some (VNum "1")) CodeNotImplemented (uuid_String 99)) /\
  (fun x => st_Last (mcp_ci x.1)) <$> serve_mcp (call_request ToolCITrigger [("repo_id", VStr (uuid_String 3)); ("ref", VStr "main")]) sample_mcp =
    Some (mkCIRunInput 3 "main" 9).
Proof. vm_compute. auto. Qed.

Lemma sample_server_made : exists srv, sample_new_server = Some (Ok srv).
Proof.
  destruct (NewServer_spec (C := StubClient) canonical_Parse sample_yaml
    (inl : identity_payload -> identity_payload + RepositoryCreatedPayload) sample_deps sample_mcp_config) as (r & E & [_ Hr]).
  destruct Hr as [srv ->]; [|by exists srv]. split_and!; [done|cbn; unfold MinSessionHMACSecretBytes; lia|done|done].
Qed.

(** Agent 9 clones repository 3. *)
Lemma mcp_acts_for_its_caller_witness :
  exists srv, sample_new_server = Some (Ok srv) /\
      let '(w, resp) := ServeMCP canonical_Parse srv sample_mserved clone_request sample_mcp in
      mcp_store w = mcp_store sample_mcp /\ mcp_ci w = mcp_ci sample_mcp \/
      exists q, authenticate canonical_Parse (ms_reads sample_mserved) clone_request = Ok q /\
      ((exists repoID repo ct, GetRepository repoID (ms_reads sample_mserved 2%nat) = Some repo /\
          MintCloneToken (inl : identity_payload -> identity_payload + RepositoryCreatedPayload) (ms_cancelled sample_mserved)
            (ms_attempts sample_mserved) (ms_entropy sample_mserved) (Principal_ID q) repoID (mcp_store sample_mcp) = (mcp_store w, Ok ct) /\
          mcp_ci w = mcp_ci sample_mcp /\
          (mr_status resp = 500 \/ exists id url, mr_body resp =
             RpcResult id (ToolDone (CloneAnswer (mkGitCloneResult url (tok_Token ct) (RFC3339 (tok_ExpiresAt ct))))))) \/
       (exists repoID ref h, ref <> "" /\ StartCIRun (mkCIRunInput repoID ref (Principal_ID q)) (mcp_ci sample_mcp) = (mcp_ci w, h) /\
          mcp_store w = mcp_store sample_mcp)).
Proof.
  destruct sample_server_made as [srv Es]. exists srv. split; [exact Es|].
  destruct (ServeMCP canonical_Parse srv sample_mserved clone_request sample_mcp) as [w resp] eqn:Eq.
  exact (mcp_acts_for_its_caller canonical_Parse sample_yaml _ sample_deps sample_mcp_config srv _ _ _ _ _ Es Eq).
Defined.

Example sample_clone :
  (fun x => (mr_status x.2, mr_body x.2, ct_PrincipalID <$> cloneTokens (mcp_store x.1) !! 51)) <$> serve_mcp clone_request sample_mcp =
  Some (200, RpcResult (Some (VNum "1")) (ToolDone (CloneAnswer (mkGitCloneResult "https://gitscale.local/repos/00000000-0000-0000-0000-000000000003.git"
    "eHh4eHh4eHh4eHh4eHh4eHh4eHh4eHh4eHh4eHh4eHg" "1970-01-01T00:15:01Z"))), Some 9).
Proof. vm_compute. reflexivity. Qed.

Lemma mcp_requests_are_metered_witness :
  exists srv, sample_new_server = Some (Ok srv) /\
  let '(w, resp) := ServeMCP canonical_Parse srv sample_mserved clone_request sample_mcp in
  (mcp_store w <> mcp_store sample_mcp \/ mcp_ci w <> mcp_ci sample_mcp ->
   draw_token sample_config SurfaceMCP true Second (AgentPrincipal 9 7) ∅ = (Granted, mcp_limiter w)) /\
  mcp_limiter w !! TokenBucketKey (uuid_String 9) rateLimitSurface = None.
Proof.
  destruct sample_server_made as [srv Es]. exists srv. split; [exact Es|].
  destruct (ServeMCP canonical_Parse srv sample_mserved clone_request sample_mcp) as [w resp] eqn:Eq.
  pose proof (mcp_requests_are_metered canonical_Parse sample_yaml _ sample_deps sample_mcp_config srv _ _ _ _ _ Es Eq) as H.
  assert (Ea : authenticate canonical_Parse (ms_reads sample_mserved) clone_request = Ok (AgentPrincipal 9 7)) by (vm_compute; reflexivity).
  rewrite Ea in H. destruct H as (_ & Hr & Hc). split; [exact Hc|]. rewrite Hr. reflexivity.
Defined.

(** Repository 3 has no AGENTS.md; the organisation forbids pushes to [release/*]. *)
Definition get_arguments : option jval := Some (VObj [("repo_id", VStr (uuid_String 3))]).
Lemma shown_policy_is_enforced_witness :
  exists g, (agentsMDGetHandler canonical_Parse sample_yaml sample_deps sample_mserved (AgentPrincipal 9 7) get_arguments sample_mcp).2 =
    Ok (GetAnswer g) /\ length (mg_Never g) = 1%nat /\
  (PreReceive sample_yaml sample_reader (ResolveOrgPolicyBytes sample_meta sample_reader) (mkRepoRef (uuid_String 3) "a") [sample_update] = Ok tt <->
   forall p u, md_predicate p ∈ mg_Never g -> u ∈ [sample_update] ->
     matchPredicate p u (Some (resolverAdapter sample_reader (uuid_String 3))) = Ok None).
Proof.
  destruct (agentsMDGetHandler canonical_Parse sample_yaml sample_deps sample_mserved (AgentPrincipal 9 7) get_arguments sample_mcp) as [w x] eqn:Eh.
  assert (Ex : x = Ok (GetAnswer (mkMDGetResult SchemaVersionV1 false [mkMDPredicate PredicatePushToBranch "release/*" "" 0]))).
  { apply (f_equal snd) in Eh. cbn [snd] in Eh. rewrite <- Eh. vm_compute. reflexivity. }
  subst x. eexists. split; [reflexivity|]. split; [reflexivity|].
  apply (shown_policy_is_enforced unit canonical_Parse sample_yaml sample_deps sample_reader sample_meta _ _ _ _ _ _
    (mkRepoRef (uuid_String 3) "a") [sample_update] "" eq_refl eq_refl Eh); vm_compute; reflexivity.
Defined.

Definition initialize_request : request := post ["mcp"; "v1"; "initialize"] (uuid_String 9) "{}".
Lemma initialize_session_verifies_witness :
  exists srv ir, sample_new_server = Some (Ok srv) /\
    mr_body (ServeMCP canonical_Parse srv sample_mserved initialize_request sample_mcp).2 = RpcResult None (Initialized ir) /\
    VerifySession canonical_Parse sample_secret (1800 * Second) (ir_SessionID ir) = Ok (mkSession 9 "2025-06-18" (1801 * Second)) /\
    VerifySession canonical_Parse sample_secret (1801 * Second) (ir_SessionID ir) = Err SessionExpired.
Proof.
  destruct sample_server_made as [srv Es]. exists srv.
  destruct (ServeMCP canonical_Parse srv sample_mserved initialize_request sample_mcp) as [w resp] eqn:Eq.
  assert (Eb : exists ir, mr_body resp = RpcResult None (Initialized ir)).
  { assert (Em : (fun x => mr_body x.2) <$> serve_mcp initialize_request sample_mcp = Some (mr_body resp)).
    { unfold serve_mcp, sample_mcp_server. rewrite Es. cbn [fmap option_fmap option_map]. by rewrite Eq. }
    match type of Em with ?l = _ => let v := eval vm_compute in l in assert (Ev : l = v) by (vm_compute; reflexivity) end.
    rewrite Em in Ev. injection Ev as ->. by eexists. }
  destruct Eb as [ir Eb]. exists ir. split; [exact Es|]. split; [exact Eb|].
  destruct (initialize_session_verifies canonical_Parse sample_yaml _ sample_deps sample_mcp_config srv _ _ _ _ _ _ ir
    canonical_Parse_String Es Eq Eb) as (q & Hq & Hv); [apply (bool_decide_unpack _); vm_compute; exact I|vm_compute; discriminate|vm_compute; reflexivity|].
  assert (Ea : authenticate canonical_Parse (ms_reads sample_mserved) initialize_request = Ok (AgentPrincipal 9 7)) by (vm_compute; reflexivity).
  rewrite Ea in Hq. injection Hq as <-. split; (etrans; [apply Hv; vm_compute; split; congruence|vm_compute; reflexivity]).
Defined.

(** The dry run leaves out the organisation's policy: it reports no violation
    for a push that the hook rejects. *)
Definition dry_run_arguments : list (string * jval) :=
  [("repo_id", VStr (uuid_String 3));
   ("updates", VArr [VObj [("ref_name", VStr "refs/heads/release/v1"); ("old_oid", VStr "a1"); ("new_oid", VStr "b2")]])].
Example dry_run_ignores_organisation :
  (agentsMDEvaluateHandler sample_yaml sample_deps sample_mserved (AgentPrincipal 9 7) (Some (VObj dry_run_arguments)) sample_mcp).2 =
    Ok (EvaluateAnswer []) /\
  PreReceive sample_yaml sample_reader (ResolveOrgPolicyBytes sample_meta sample_reader) (mkRepoRef (uuid_String 3) "a") [sample_update] =
    Err (ENeverViolation [mkViolation (mkNever PredicatePushToBranch (branch_selector "release/*")) "refs/heads/release/v1"
      (ReasonPush "release/v1" "release/*")]).
Proof. vm_compute. auto. Qed.
End mcp_sample.
