(* ===== verification/CiJob.v ===== *)
(** * CI jobs

    [plane/workflow/runner] (microvm.go, quota.go and the five activities),
    [plane/workflow/ci] (types.go, workflow.go) and the in-memory provisioner
    [runnertest.Fake]: a job is admitted against its quota, run on a microVM
    of its own, torn down and charged.

    Activities run under [Temporal.attempts]; what is lost, and where the
    workflow is cancelled, is the [schedule].  The provisioner is the class
    [MicroVMProvisioner], the billing service the class [CIBillingClient]. *)

From S2P Require Import Prelude GoStd Floats Actions Temporal AppClient Uuid.

#[local] Arguments uuid_String : simpl never.

(** ** microvm.go *)

Record ResourceShape := mkShape {
  rs_VCPU : Z; rs_MemoryMB : Z; rs_EgressKB : Z; rs_WallClockSeconds : Z; rs_EgressAllowlist : list string }.
Definition DefaultResourceShape : ResourceShape :=
  mkShape 2 2048 (512 * 1024) 1800 ["github.com:443"; "git-proxy.gitscale.dev:443"].

Record MicroVMHandle := mkHandle { vm_ID : string; vm_VsockCID : Z; vm_IPv4 : string; vm_KernelImage : string; vm_RootfsSnapshot : string }.
Record JobResult := mkJobResult {
  jr_ExitCode : Z; jr_DurationMS : Z; jr_BytesIngressed : Z; jr_BytesEgressed : Z; jr_PeakMemoryKB : Z; jr_LogsObjectURI : string }.
Record BootInput := mkBootInput { bi_JobID : uuid; bi_PrincipalID : uuid; bi_OrgID : uuid; bi_Resource : ResourceShape }.
Record LeaseInput := mkLeaseInput { li_JobID : uuid; li_PrincipalID : uuid; li_OrgID : uuid; li_Resource : ResourceShape }.
Record RunInput := mkRunInput { ri_VMID : string; ri_Command : list string; ri_Env : gmap string string; ri_EnvKeys : list string }.
Record UsageInput := mkUsageInput {
  ui_JobID : uuid; ui_PrincipalID : uuid; ui_PrincipalKind : string; ui_OrgID : uuid; ui_RepoID : uuid; ui_Tier : string;
  ui_Result : JobResult }.

Inductive vm_error :=
| ErrQuotaInsufficient | ErrInvalidShape | ErrAlreadyTorndown | ErrNotFound | ErrVMLost | ErrVM (what : string).
#[export] Instance vm_error_eq_dec : EqDecision vm_error.
Proof. solve_decision. Defined.

Class MicroVMProvisioner (V : Type) := {
  BootCold : BootInput -> V -> V * result vm_error MicroVMHandle;
  LeaseHot : LeaseInput -> V -> V * result vm_error MicroVMHandle;
  Run : RunInput -> V -> V * result vm_error JobResult;
  Teardown : string -> V -> V * result vm_error unit }.

(** The two further calls of [appclient.BillingClient]. *)
Class CIBillingClient (B : Type) := {
  GetQuotaAccount : uuid -> B -> B * result client_error QuotaAccountView;
  RecordCIJobCompleted : CIJobCompletedInput -> B -> B * result client_error unit }.

(** ** quota.go *)

Definition maxJobShareOfMonthlyCap : Z := 5.
Definition validateAgainstQuota (shape : ResourceShape) (computeMinutesPerMonthCap : Z) : option vm_error :=
  if computeMinutesPerMonthCap <=? 0 then Some ErrQuotaInsufficient
  else if (rs_VCPU shape <=? 0) || (rs_MemoryMB shape <=? 0) || (rs_WallClockSeconds shape <=? 0) then Some ErrInvalidShape
  else
    let perJobCeilingVCPUSeconds := Z.quot (wrap64 (computeMinutesPerMonthCap * 60)) maxJobShareOfMonthlyCap in
    let requestedVCPUSeconds := wrap64 (rs_VCPU shape * rs_WallClockSeconds shape) in
    if perJobCeilingVCPUSeconds <? requestedVCPUSeconds then Some ErrQuotaInsufficient else None.

(** ** The activities *)

Definition QuotaInsufficient : failure := NonRetryable "QuotaInsufficient".
Definition InvalidShape : failure := NonRetryable "InvalidShape".

Section activities.
Context {V B : Type} `{!MicroVMProvisioner V} `{!CIBillingClient B}.

Record world := mkWorld { w_vms : V; w_billing : B }.

Definition on_vms {A} (m : V -> V * result vm_error A) (f : vm_error -> failure) : act world A := fun w =>
  let '(v, r) := m (w_vms w) in
  (mkWorld v (w_billing w), match r with Ok a => Ok a | Err e => Err (f e) end).
Definition on_billing {A} (m : B -> B * result client_error A) (f : client_error -> failure) : act world A := fun w =>
  let '(b, r) := m (w_billing w) in
  (mkWorld (w_vms w) b, match r with Ok a => Ok a | Err e => Err (f e) end).

Definition quota_failure (e : client_error) : failure :=
  match e with ErrQuotaAccountNotFound => QuotaInsufficient | ErrCall => Failed "GetQuotaAccount" end.
Definition boot_failure (e : vm_error) : failure :=
  match e with ErrQuotaInsufficient => QuotaInsufficient | ErrInvalidShape => InvalidShape | _ => Failed "provisioner" end.

(** The admission both boot activities begin with. *)
Definition admit_boot (orgID : uuid) (shape : ResourceShape) : act world unit :=
  let! q := on_billing (GetQuotaAccount orgID) quota_failure in
  match validateAgainstQuota shape (q_ComputeMinutesPerMonthCap q) with
  | Some e => throw (if bool_decide (e = ErrQuotaInsufficient) then QuotaInsufficient else InvalidShape)
  | None => ret tt
  end.

Definition BootColdVMActivity (i : BootInput) : act world MicroVMHandle :=
  let! _ := admit_boot (bi_OrgID i) (bi_Resource i) in on_vms (BootCold i) boot_failure.
Definition LeaseHotVMActivity (i : LeaseInput) : act world MicroVMHandle :=
  let! _ := admit_boot (li_OrgID i) (li_Resource i) in on_vms (LeaseHot i) boot_failure.
Definition RunJobActivity (i : RunInput) : act world JobResult := on_vms (Run i) (fun _ => Failed "runner.RunJob").

Definition TeardownVMActivity (vmID : string) : act world unit :=
  if bool_decide (vmID = "") then ret tt
  else fun w =>
    let '(v, r) := Teardown vmID (w_vms w) in
    (mkWorld v (w_billing w),
     match r with
     | Ok _ | Err ErrAlreadyTorndown | Err ErrNotFound => Ok tt
     | Err _ => Err (Failed "runner.TeardownVM")
     end).

(** The charge of a job, in binary64. *)
Definition charge (i : UsageInput) : CIJobCompletedInput :=
  let r := ui_Result i in
  let durationSec := fdiv (f_of_int (jr_DurationMS r)) (f_of_int 1000) in
  mkCIJob (ui_JobID i) (ui_PrincipalID i) (ui_PrincipalKind i) (ui_OrgID i) (ui_RepoID i) (ui_Tier i)
    durationSec (SFmul 53 1024 (fdiv (f_of_int (jr_PeakMemoryKB r)) (f_of_int 1024)) durationSec) (Z.quot (jr_BytesEgressed r) 1024) (jr_ExitCode r).
Definition EmitUsageEventActivity (i : UsageInput) : act world unit :=
  on_billing (RecordCIJobCompleted (charge i)) (fun _ => Failed "RecordCIJobCompleted").
End activities.
Arguments world : clear implicits.

(** ** types.go *)

Definition PrincipalKind := Z.
Definition PrincipalUnknown : PrincipalKind := 0.
Definition PrincipalHuman : PrincipalKind := 1.
Definition PrincipalAgent : PrincipalKind := 2.
Definition PrincipalService : PrincipalKind := 3.
Definition PrincipalKind_String (k : PrincipalKind) : string :=
  if k =? PrincipalHuman then "human" else if k =? PrincipalAgent then "agent"
  else if k =? PrincipalService then "service" else "unknown".
Definition PrincipalKind_IsValid (k : PrincipalKind) : bool := (k =? PrincipalHuman) || (k =? PrincipalAgent) || (k =? PrincipalService).

Inductive Tier := TierUnknown | TierHot | TierCold.
Definition Tier_String (t : Tier) : string := match t with TierHot => "hot" | TierCold => "cold" | TierUnknown => "unknown" end.

Record CIJobInput := mkCIJobInput {
  cj_JobID : uuid; cj_PrincipalID : uuid; cj_PrincipalKind : PrincipalKind; cj_OrgID : uuid; cj_RepoID : uuid;
  cj_Annotations : gmap string string; cj_Command : list string; cj_Env : gmap string string; cj_Resource : ResourceShape }.
Record CIJobOutput := mkCIJobOutput { co_Tier : Tier; co_VMID : string; co_ExitCode : Z; co_Result : JobResult }.

Definition AnnotationRequireHotPool : string := "require-hot-pool".
Definition assignTier (kind : PrincipalKind) (ann : gmap string string) : Tier :=
  if bool_decide (default "" (ann !! AnnotationRequireHotPool) = "true") then TierHot
  else if kind =? PrincipalAgent then TierCold else TierHot.
Definition sortedKeys (m : gmap string string) : list string := merge_sort String.le (map_to_list m).*1.

(** ** workflow.go *)

Record ActivityOptions := mkOptions {
  StartToCloseTimeout : duration; ao_InitialInterval : duration; ao_BackoffCoefficient : float; ao_MaximumAttempts : nat;
  ao_NonRetryable : list string }.

Definition bootOptionsFor (t : Tier) : ActivityOptions :=
  match t with
  | TierHot => mkOptions (5 * Second) (Second / 5) (fdiv (f_of_int 3) (f_of_int 2)) 5 ["QuotaInsufficient"; "InvalidShape"]
  | _ => mkOptions (60 * Second) Second (f_of_int 2) 3 ["QuotaInsufficient"; "InvalidShape"]
  end.
Definition runOptions (wallClockSeconds : Z) : ActivityOptions :=
  let s := if wallClockSeconds <=? 0 then rs_WallClockSeconds DefaultResourceShape else wallClockSeconds in
  mkOptions (wrap64 (wrap64 (s + 60) * Second)) 0 f0 1 [].
Definition teardownOptions : ActivityOptions := mkOptions (30 * Second) Second (f_of_int 2) 5 [].
Definition emitOptions : ActivityOptions := mkOptions (10 * Second) Second (f_of_int 2) 10 [].

(** How an activity on the workflow's own context ends: by itself, or because
    the workflow is cancelled after some attempts. *)
Inductive wait := Settled (script : list delivery) | Cancelled (script : list delivery) (started : nat).
Definition CanceledError : failure := Failed "canceled".

Definition job_usage (i : CIJobInput) (tier : Tier) (result : JobResult) : UsageInput :=
  mkUsageInput (cj_JobID i) (cj_PrincipalID i) (PrincipalKind_String (cj_PrincipalKind i)) (cj_OrgID i) (cj_RepoID i)
    (Tier_String tier) result.

(** What happens to the activities of a run; [sc_late] says that the workflow
    is cancelled after the job's own activity has ended. *)
Record schedule := mkSchedule {
  sc_boot : wait; sc_run : wait; sc_teardown : list delivery; sc_late : bool; sc_emit : list delivery }.

Definition zero_result : JobResult := mkJobResult 0 0 0 0 0 "".
Definition with_exit (code : Z) (r : JobResult) : JobResult :=
  mkJobResult code (jr_DurationMS r) (jr_BytesIngressed r) (jr_BytesEgressed r) (jr_PeakMemoryKB r) (jr_LogsObjectURI r).

Section workflow.
Context {V B : Type} `{!MicroVMProvisioner V} `{!CIBillingClient B}.
Notation world := (world V B).

Definition detached {A} (o : ActivityOptions) (a : act world A) (script : list delivery) : act world A :=
  attempts (fun _ => a) (ao_MaximumAttempts o) 0 script.
Definition await {A} (o : ActivityOptions) (a : act world A) (wt : wait) : act world A :=
  match wt with
  | Settled script => detached o a script
  | Cancelled script n => fun w => ((attempts (fun _ => a) (Nat.min n (ao_MaximumAttempts o)) 0 script w).1, Err CanceledError)
  end.

Definition boot (sc : schedule) (i : CIJobInput) (t : Tier) : act world MicroVMHandle :=
  match t with
  | TierCold => await (bootOptionsFor t)
      (BootColdVMActivity (mkBootInput (cj_JobID i) (cj_PrincipalID i) (cj_OrgID i) (cj_Resource i))) (sc_boot sc)
  | TierHot => await (bootOptionsFor t)
      (LeaseHotVMActivity (mkLeaseInput (cj_JobID i) (cj_PrincipalID i) (cj_OrgID i) (cj_Resource i))) (sc_boot sc)
  | TierUnknown => throw (NonRetryable "InvalidTier")
  end.

(** The result of the run phase as the workflow goes on with it. *)
Definition run_result (r : result failure JobResult) : JobResult :=
  match r with
  | Ok res => res
  | Err _ => if jr_ExitCode zero_result =? 0 then with_exit (-1) zero_result else zero_result
  end.
Definition canceled (sc : schedule) : bool := match sc_run sc with Cancelled _ _ => true | Settled _ => sc_late sc end.

Definition CIJobWorkflow (sc : schedule) (i : CIJobInput) (w : world) : world * (CIJobOutput * option failure) :=
  if negb (PrincipalKind_IsValid (cj_PrincipalKind i))
  then (w, (mkCIJobOutput TierUnknown "" 0 zero_result, Some (NonRetryable "InvalidInput")))
  else
    let tier := assignTier (cj_PrincipalKind i) (cj_Annotations i) in
    match boot sc i tier w with
    | (w, Err e) => (w, (mkCIJobOutput tier "" 0 zero_result, Some e))
    | (w, Ok handle) =>
        let '(w, run) := await (runOptions (rs_WallClockSeconds (cj_Resource i)))
          (RunJobActivity (mkRunInput (vm_ID handle) (cj_Command i) (cj_Env i) (sortedKeys (cj_Env i)))) (sc_run sc) w in
        let result := run_result run in
        let '(w, _) := detached teardownOptions (TeardownVMActivity (vm_ID handle)) (sc_teardown sc) w in
        let result := if canceled sc then with_exit (-2) result else result in
        let '(w, emitted) := detached emitOptions (EmitUsageEventActivity (job_usage i tier result)) (sc_emit sc) w in
        (w, (mkCIJobOutput tier (vm_ID handle) (jr_ExitCode result) result,
             match run, emitted with
             | Err e, _ => Some e
             | Ok _, Err e => Some e
             | Ok _, Ok _ => None
             end))
    end.
End workflow.

(** ** runnertest.Fake *)

Record Fake := mkFake {
  f_bootCold : option (BootInput -> result vm_error MicroVMHandle); f_leaseHot : option (LeaseInput -> result vm_error MicroVMHandle);
  f_run : option (RunInput -> result vm_error JobResult); f_teardown : option (string -> result vm_error unit);
  f_bootCalls : list BootInput; f_leaseCalls : list LeaseInput; f_runCalls : list RunInput; f_teardownCalls : list string;
  f_liveVMs : gmap string bool }.
Definition NewFake : Fake := mkFake None None None None [] [] [] [] ∅.

Definition fake_BootCold (i : BootInput) (f : Fake) : Fake * result vm_error MicroVMHandle :=
  let r := match f_bootCold f with
           | Some g => g i
           | None => Ok (mkHandle ("vm-cold-" +:+ uuid_String (bi_JobID i)) 3 "10.0.0.2" "vmlinuz-cold" "rootfs-cold.snap")
           end in
  (mkFake (f_bootCold f) (f_leaseHot f) (f_run f) (f_teardown f) (f_bootCalls f ++ [i]) (f_leaseCalls f) (f_runCalls f) (f_teardownCalls f)
     (match r with Ok h => <[vm_ID h := true]> (f_liveVMs f) | Err _ => f_liveVMs f end), r).
Definition fake_LeaseHot (i : LeaseInput) (f : Fake) : Fake * result vm_error MicroVMHandle :=
  let r := match f_leaseHot f with
           | Some g => g i
           | None => Ok (mkHandle ("vm-hot-" +:+ uuid_String (li_JobID i)) 4 "10.0.0.3" "vmlinuz-hot" "rootfs-hot.snap")
           end in
  (mkFake (f_bootCold f) (f_leaseHot f) (f_run f) (f_teardown f) (f_bootCalls f) (f_leaseCalls f ++ [i]) (f_runCalls f) (f_teardownCalls f)
     (match r with Ok h => <[vm_ID h := true]> (f_liveVMs f) | Err _ => f_liveVMs f end), r).
Definition fake_Run (i : RunInput) (f : Fake) : Fake * result vm_error JobResult :=
  (mkFake (f_bootCold f) (f_leaseHot f) (f_run f) (f_teardown f) (f_bootCalls f) (f_leaseCalls f) (f_runCalls f ++ [i]) (f_teardownCalls f)
     (f_liveVMs f),
   match f_run f with Some g => g i | None => Ok (mkJobResult 0 123 1024 2048 65536 ("s3://test-logs/" +:+ ri_VMID i)) end).
Definition fake_Teardown (vmID : string) (f : Fake) : Fake * result vm_error unit :=
  let recorded live := mkFake (f_bootCold f) (f_leaseHot f) (f_run f) (f_teardown f) (f_bootCalls f) (f_leaseCalls f) (f_runCalls f)
                         (f_teardownCalls f ++ [vmID]) live in
  match f_teardown f with
  | Some g => (recorded (match g vmID with Ok _ => delete vmID (f_liveVMs f) | Err _ => f_liveVMs f end), g vmID)
  | None =>
      match f_liveVMs f !! vmID with
      | None => (recorded (f_liveVMs f), Err ErrNotFound)
      | Some false => (recorded (f_liveVMs f), Err ErrAlreadyTorndown)
      | Some true => (recorded (<[vmID := false]> (f_liveVMs f)), Ok tt)
      end
  end.
#[export] Instance fake_provisioner : MicroVMProvisioner Fake := {
  BootCold := fake_BootCold; LeaseHot := fake_LeaseHot; Run := fake_Run; Teardown := fake_Teardown }.

#[export] Instance stub_ci_client : CIBillingClient StubBillingClient := {
  GetQuotaAccount := fun org s => (s, stub_GetQuotaAccount org s);
  RecordCIJobCompleted := stub_RecordCIJobCompleted }.

(** ** The contracts of the two classes *)

(** Which microVMs are up.  A VM is up when its boot said so; running a job
    brings none up; a teardown that succeeds, or finds the VM gone, leaves it
    down.  [vm_inv] is what the implementation keeps of its state. *)
Class ProvisionerLaws (V : Type) `{MicroVMProvisioner V} := {
  live : V -> string -> Prop;
  vm_inv : V -> Prop;
  BootCold_law : forall i v, vm_inv v -> vm_inv (BootCold i v).1 /\
    forall id, live (BootCold i v).1 id ->
      live v id \/ exists h, (BootCold i v).2 = Ok h /\ id = vm_ID h /\ vm_ID h <> "";
  LeaseHot_law : forall i v, vm_inv v -> vm_inv (LeaseHot i v).1 /\
    forall id, live (LeaseHot i v).1 id ->
      live v id \/ exists h, (LeaseHot i v).2 = Ok h /\ id = vm_ID h /\ vm_ID h <> "";
  Run_law : forall i v, vm_inv v -> vm_inv (Run i v).1 /\ forall id, live (Run i v).1 id -> live v id;
  Teardown_law : forall vmID v, vm_inv v -> vm_inv (Teardown vmID v).1 /\
    (forall id, live (Teardown vmID v).1 id -> live v id) /\
    ((Teardown vmID v).2 ∈ [Ok tt; Err ErrAlreadyTorndown; Err ErrNotFound] -> ~ live (Teardown vmID v).1 vmID) }.

(** A recorded job stays recorded. *)
Class CIBillingLaws (B : Type) `{CIBillingClient B} := {
  job_recorded : B -> uuid -> Prop;
  Record_law : forall i b, uuid_ok (ci_JobID i) -> (RecordCIJobCompleted i b).2 = Ok tt -> job_recorded (RecordCIJobCompleted i b).1 (ci_JobID i);
  recorded_stays : forall b job, job_recorded b job ->
    (forall org, job_recorded (GetQuotaAccount org b).1 job) /\ (forall i, job_recorded (RecordCIJobCompleted i b).1 job) }.

Definition fake_unscripted (f : Fake) : Prop := f_bootCold f = None /\ f_leaseHot f = None /\ f_teardown f = None.

#[export, refine] Instance fake_laws : ProvisionerLaws Fake := {
  live f id := f_liveVMs f !! id = Some true; vm_inv := fake_unscripted }.
Proof.
  all: cbn [BootCold LeaseHot Run Teardown fake_provisioner]; intros i v (Hb & Hl & Ht).
  - unfold fake_BootCold. rewrite Hb. cbn. split; [done|]. intros id Hid. destruct (decide (id = "vm-cold-" +:+ uuid_String (bi_JobID i))) as [->|Hn].
    + right. by eexists.
    + left. by rewrite lookup_insert_ne in Hid by done.
  - unfold fake_LeaseHot. rewrite Hl. cbn. split; [done|]. intros id Hid. destruct (decide (id = "vm-hot-" +:+ uuid_String (li_JobID i))) as [->|Hn].
    + right. by eexists.
    + left. by rewrite lookup_insert_ne in Hid by done.
  - by split.
  - unfold fake_Teardown. rewrite Ht. destruct (f_liveVMs v !! i) as [[]|] eqn:E; cbn.
    + split; [done|]. split; [|by rewrite lookup_insert_eq]. intros id Hid. destruct (decide (id = i)) as [->|Hn]; [done|].
      by rewrite lookup_insert_ne in Hid by done.
    + split_and!; [done..|]. by rewrite E.
    + split_and!; [done..|]. by rewrite E.
Defined.

#[export, refine] Instance stub_ci_laws : CIBillingLaws StubBillingClient := {
  job_recorded s job := Exists (fun i => ci_JobID i = job) (ciCalls s) }.
Proof.
  all: cbn [GetQuotaAccount RecordCIJobCompleted stub_ci_client]; unfold stub_RecordCIJobCompleted.
  - intros i b _. destruct (fails (ciFn b) i); [done|]. intros _. apply Exists_app. right. by constructor.
  - intros b job Hj. split; [done|]. intros i. destruct (fails (ciFn b) i); [done|]. apply Exists_app. by left.
Defined.

(** ** Phases *)
Section phases.
Context {V B : Type} `{!MicroVMProvisioner V} `{!CIBillingClient B}.
Notation world := (world V B).

Lemma detached_preserves {A} (Q : world -> Prop) o (a : act world A) script : preserves Q a -> preserves Q (detached o a script).
Proof. intros Ha. by apply attempts_preserves. Qed.
Lemma await_preserves {A} (Q : world -> Prop) o (a : act world A) wt : preserves Q a -> preserves Q (await o a wt).
Proof.
  intros Ha w Hw. destruct wt as [script|script n]; cbn [await]; [exact (detached_preserves Q o a script Ha w Hw)|].
  exact (attempts_preserves (fun _ => a) Q (Nat.min n (ao_MaximumAttempts o)) 0 script (fun _ => Ha) w Hw).
Qed.

Lemma on_billing_vms {A} (m : B -> B * result client_error A) f (w : world) : w_vms (on_billing m f w).1 = w_vms w.
Proof. unfold on_billing. by destruct (m _). Qed.
Lemma on_vms_billing {A} (m : V -> V * result vm_error A) f (w : world) : w_billing (on_vms m f w).1 = w_billing w.
Proof. unfold on_vms. by destruct (m _). Qed.
Lemma admit_vms org shape (w : world) : w_vms (admit_boot org shape w).1 = w_vms w.
Proof.
  unfold admit_boot, bind. pose proof (on_billing_vms (GetQuotaAccount org) quota_failure w) as H.
  destruct (on_billing _ _ w) as [w1 [q|e]]; [|done]. by destruct (validateAgainstQuota _ _).
Qed.

(** The phases of a run, from an input the workflow accepts. *)
Lemma CIJobWorkflow_phases sc i (w : world) w' out err : CIJobWorkflow sc i w = (w', (out, err)) ->
  w' = w /\ err = Some (NonRetryable "InvalidInput") /\ co_VMID out = "" \/
  exists w1 r, boot sc i (assignTier (cj_PrincipalKind i) (cj_Annotations i)) w = (w1, r) /\
  match r with
  | Err e => w' = w1 /\ err = Some e /\ co_VMID out = ""
  | Ok h => exists w2 run w3 torn emitted result,
      await (runOptions (rs_WallClockSeconds (cj_Resource i)))
        (RunJobActivity (mkRunInput (vm_ID h) (cj_Command i) (cj_Env i) (sortedKeys (cj_Env i)))) (sc_run sc) w1 = (w2, run) /\
      detached teardownOptions (TeardownVMActivity (vm_ID h)) (sc_teardown sc) w2 = (w3, torn) /\
      result = (if canceled sc then with_exit (-2) (run_result run) else run_result run) /\
      detached emitOptions (EmitUsageEventActivity (job_usage i (assignTier (cj_PrincipalKind i) (cj_Annotations i)) result)) (sc_emit sc) w3 = (w', emitted) /\
      out = mkCIJobOutput (assignTier (cj_PrincipalKind i) (cj_Annotations i)) (vm_ID h) (jr_ExitCode result) result /\
      err = match run, emitted with Err e, _ => Some e | Ok _, Err e => Some e | Ok _, Ok _ => None end
  end.
Proof.
  unfold CIJobWorkflow. destruct (negb _); [intros [= <- <- <-]; by left|]. intros H. right.
  destruct (boot _ _ _ _) as [w1 [h|e]]; [|injection H as <- <- <-; by exists w1, (Err e)].
  exists w1, (Ok h). split; [done|]. destruct (await _ _ _ w1) as [w2 run] eqn:E1. destruct (detached teardownOptions _ _ _) as [w3 torn] eqn:E2.
  destruct (detached emitOptions _ _ _) as [w4 emitted] eqn:E3. injection H as <- <- <-.
  exists w2, run, w3, torn, emitted, (if canceled sc then with_exit (-2) (run_result run) else run_result run).
  split; [reflexivity|]. split; [exact E2|]. split; [reflexivity|]. split; [exact E3|]. by split.
Qed.

Lemma boot_preserves (Q : world -> Prop) sc i t :
  preserves Q (BootColdVMActivity (mkBootInput (cj_JobID i) (cj_PrincipalID i) (cj_OrgID i) (cj_Resource i))) ->
  preserves Q (LeaseHotVMActivity (mkLeaseInput (cj_JobID i) (cj_PrincipalID i) (cj_OrgID i) (cj_Resource i))) ->
  preserves Q (boot sc i t).
Proof. intros Hc Hh. destruct t; cbn [boot]; [apply preserves_throw|by apply await_preserves..]. Qed.
Definition billing_in (I : B -> Prop) (w : world) : Prop := I (w_billing w).

Lemma on_vms_in {A} I (m : V -> V * result vm_error A) f : preserves (billing_in I) (on_vms m f).
Proof. intros w Hw. unfold billing_in. by rewrite on_vms_billing. Qed.
Lemma boot_in I sc i t : (forall b, I b -> forall org, I (GetQuotaAccount org b).1) -> preserves (billing_in I) (boot sc i t).
Proof.
  intros HI. apply boot_preserves; (apply preserves_bind; [|intros _; apply on_vms_in]);
    (apply preserves_bind; [|intros q w Hw; by destruct (validateAgainstQuota _ _)]); intros w Hw; unfold on_billing, billing_in in *;
    pose proof (HI _ Hw (cj_OrgID i)); cbn in *; by destruct (GetQuotaAccount _ _).
Qed.
Lemma teardown_in I id : preserves (billing_in I) (TeardownVMActivity id).
Proof. intros w Hw. unfold TeardownVMActivity. case_bool_decide; [done|]. unfold billing_in in *. by destruct (Teardown _ _). Qed.


Lemma run_teardown_in I sc i h (w1 w2 w3 : world) run torn :
  await (runOptions (rs_WallClockSeconds (cj_Resource i)))
    (RunJobActivity (mkRunInput (vm_ID h) (cj_Command i) (cj_Env i) (sortedKeys (cj_Env i)))) (sc_run sc) w1 = (w2, run) ->
  detached teardownOptions (TeardownVMActivity (vm_ID h)) (sc_teardown sc) w2 = (w3, torn) ->
  billing_in I w1 -> billing_in I w3.
Proof.
  intros E1 E2 H1.
  pose proof (await_preserves _ (runOptions (rs_WallClockSeconds (cj_Resource i))) _ (sc_run sc) (on_vms_in I
    (Run (mkRunInput (vm_ID h) (cj_Command i) (cj_Env i) (sortedKeys (cj_Env i)))) (fun _ => Failed "runner.RunJob")) w1 H1) as H2.
  unfold RunJobActivity in E1. rewrite E1 in H2.
  pose proof (detached_preserves _ teardownOptions _ (sc_teardown sc) (teardown_in I (vm_ID h)) w2 H2) as H3. by rewrite E2 in H3.
Qed.

(** What the calls of the workflow keep of the billing service is kept. *)
Lemma workflow_billing (I : B -> Prop) sc i (w w' : world) out err :
  (forall b, I b -> forall org, I (GetQuotaAccount org b).1) ->
  (forall b, I b -> I (RecordCIJobCompleted (charge (job_usage i (co_Tier out) (co_Result out))) b).1) ->
  CIJobWorkflow sc i w = (w', (out, err)) -> I (w_billing w) -> I (w_billing w').
Proof.
  intros Hq Hr H HI. apply CIJobWorkflow_phases in H as [(-> & _)|(w1 & r & Eb & H)]; [done|].
  pose proof (boot_in I sc i (assignTier (cj_PrincipalKind i) (cj_Annotations i)) Hq w HI) as H1. rewrite Eb in H1.
  destruct r as [h|e]; [|by destruct H as (-> & _)].
  destruct H as (w2 & run & w3 & torn & emitted & result & E1 & E2 & _ & E3 & -> & _). cbn [co_Tier co_Result] in Hr.
  pose proof (run_teardown_in I sc i h w1 w2 w3 run torn E1 E2 H1) as H3.
  assert (He : preserves (billing_in I) (EmitUsageEventActivity (job_usage i (assignTier (cj_PrincipalKind i) (cj_Annotations i)) result))).
  { intros w0 Hw0. specialize (Hr _ Hw0). unfold EmitUsageEventActivity, on_billing, billing_in. by destruct (RecordCIJobCompleted _ _). }
  pose proof (detached_preserves _ emitOptions _ (sc_emit sc) He w3 H3) as H4. by rewrite E3 in H4.
Qed.
End phases.

(** ** A job's command is run at most once *)

(** A provisioner that records what it is asked to run. *)
Record logged (V : Type) := mkLogged { lg_vms : V; lg_runs : list RunInput }.
Arguments mkLogged {V}.
Arguments lg_vms {V}.
Arguments lg_runs {V}.
#[export] Instance logged_provisioner {V} `{MicroVMProvisioner V} : MicroVMProvisioner (logged V) := {
  BootCold i v := let '(u, r) := BootCold i (lg_vms v) in (mkLogged u (lg_runs v), r);
  LeaseHot i v := let '(u, r) := LeaseHot i (lg_vms v) in (mkLogged u (lg_runs v), r);
  Run i v := let '(u, r) := Run i (lg_vms v) in (mkLogged u (lg_runs v ++ [i]), r);
  Teardown id v := let '(u, r) := Teardown id (lg_vms v) in (mkLogged u (lg_runs v), r) }.

Section once.
Context {V B : Type} `{!MicroVMProvisioner V} `{!CIBillingClient B}.
Notation world := (world (logged V) B).

Definition runs_are (l : list RunInput) (w : world) : Prop := lg_runs (w_vms w) = l.

Lemma admit_runs l org shape : preserves (runs_are l) (admit_boot (V := logged V) org shape).
Proof. intros w Hw. unfold runs_are. by rewrite admit_vms. Qed.
Lemma on_vms_runs {A} l (m : logged V -> logged V * result vm_error A) f :
  (forall v, lg_runs (m v).1 = lg_runs v) -> preserves (runs_are l) (on_vms (B := B) m f).
Proof. intros Hm w Hw. unfold on_vms, runs_are in *. specialize (Hm (w_vms w)). destruct (m _). cbn in *. congruence. Qed.
Lemma boot_runs l sc i t : preserves (runs_are l) (boot sc i t).
Proof.
  apply boot_preserves; (apply preserves_bind; [apply admit_runs|]); intros _; apply on_vms_runs; intros v; cbn;
    [destruct (BootCold _ _)|destruct (LeaseHot _ _)]; done.
Qed.
Lemma teardown_runs l id : preserves (runs_are l) (TeardownVMActivity (B := B) id).
Proof.
  intros w Hw. unfold TeardownVMActivity. case_bool_decide; [done|]. unfold runs_are in *. cbn. destruct (Teardown _ _). done.
Qed.
Lemma emit_runs l i : preserves (runs_are l) (EmitUsageEventActivity (V := logged V) i).
Proof. intros w Hw. unfold runs_are, EmitUsageEventActivity. by rewrite on_billing_vms. Qed.

Lemma run_runs r (w : world) : runs_are (lg_runs (w_vms w) ++ [r]) (RunJobActivity r w).1.
Proof. unfold RunJobActivity, on_vms, runs_are. cbn. by destruct (Run _ _). Qed.

(** One attempt, so the command is run once or not at all. *)
Lemma await_run wall r wt (w : world) : exists l, (l = [] \/ l = [r]) /\
  runs_are (lg_runs (w_vms w) ++ l) (await (runOptions wall) (RunJobActivity r) wt w).1.
Proof.
  assert (Hone : forall n script, (n <= 1)%nat -> exists l, (l = [] \/ l = [r]) /\
    runs_are (lg_runs (w_vms w) ++ l) (attempts (fun _ => RunJobActivity (B := B) r) n 0 script w).1).
  { intros n script Hn. pose proof (run_runs r w) as Hr.
    destruct n as [|[|n]]; [exists []; split; [by left|]; unfold runs_are; cbn; by rewrite app_nil_r| |lia].
    cbn [attempts]. destruct (default _ _).
    - exists [r]. split; [by right|]. by destruct (RunJobActivity r w) as [w1 [a|[t|e]]].
    - exists []. split; [by left|]. unfold runs_are. cbn. by rewrite app_nil_r.
    - exists [r]. split; [by right|done]. }
  destruct wt as [script|script n]; cbn [await detached].
  - by apply Hone.
  - destruct (Hone (Nat.min n 1) script) as (l & Hl & Hr); [lia|]. exists l. split; [done|]. exact Hr.
Qed.
End once.

(** Whatever is lost, retried or cancelled, the job's command is run at
    most once, on the VM that was booted for it, and an input of an unknown
    principal kind runs nothing. *)
Theorem command_runs_at_most_once {V B} `{!MicroVMProvisioner V} `{!CIBillingClient B} sc i (w w' : world (logged V) B) out err :
  CIJobWorkflow sc i w = (w', (out, err)) ->
  exists l, lg_runs (w_vms w') = lg_runs (w_vms w) ++ l /\
    (l = [] \/ PrincipalKind_IsValid (cj_PrincipalKind i) = true /\
               l = [mkRunInput (co_VMID out) (cj_Command i) (cj_Env i) (sortedKeys (cj_Env i))]).
Proof.
  intros H. assert (Hv : PrincipalKind_IsValid (cj_PrincipalKind i) = false -> w' = w).
  { intros Hv. unfold CIJobWorkflow in H. rewrite Hv in H. by injection H. }
  destruct (PrincipalKind_IsValid _); [|exists []; rewrite Hv, app_nil_r by done; split; [done|by left]]. clear Hv.
  apply CIJobWorkflow_phases in H as [[-> _]|(w1 & r & Eb & H)]; [exists []; rewrite app_nil_r; split; [done|by left]|].
  assert (Hb : lg_runs (w_vms w1) = lg_runs (w_vms w)).
  { pose proof (boot_runs (lg_runs (w_vms w)) sc i (assignTier (cj_PrincipalKind i) (cj_Annotations i)) w eq_refl) as Hb. by rewrite Eb in Hb. }
  destruct r as [h|e]; [|destruct H as (-> & _); exists []; rewrite app_nil_r; split; [done|by left]].
  destruct H as (w2 & run & w3 & torn & emitted & result & E1 & E2 & _ & E3 & -> & _).
  destruct (await_run (rs_WallClockSeconds (cj_Resource i)) (mkRunInput (vm_ID h) (cj_Command i) (cj_Env i) (sortedKeys (cj_Env i)))
    (sc_run sc) w1) as (l & Hl & Hr). rewrite E1 in Hr. unfold runs_are in Hr. cbn [fst] in Hr.
  exists l. split.
  - pose proof (detached_preserves _ teardownOptions _ (sc_teardown sc) (teardown_runs (lg_runs (w_vms w2)) (vm_ID h)) w2 eq_refl) as H3.
    rewrite E2 in H3.
    pose proof (detached_preserves _ emitOptions _ (sc_emit sc) (emit_runs (lg_runs (w_vms w2)) (job_usage i (assignTier (cj_PrincipalKind i) (cj_Annotations i)) result)) w3 H3) as H4.
    rewrite E3 in H4. unfold runs_are in H4. cbn [fst] in H4. by rewrite H4, Hr, Hb.
  - destruct Hl as [->| ->]; [by left|by right].
Qed.

(** ** Quotas *)

(** Without overflow a job is admitted exactly when it asks for at most a
    fifth of the month's minutes. *)
Lemma validateAgainstQuota_spec shape cap :
  0 < rs_VCPU shape -> 0 < rs_MemoryMB shape -> 0 < rs_WallClockSeconds shape ->
  rs_VCPU shape * rs_WallClockSeconds shape <= int64_max -> 0 < cap -> cap * 60 <= int64_max ->
  validateAgainstQuota shape cap =
    if rs_VCPU shape * rs_WallClockSeconds shape <=? 12 * cap then None else Some ErrQuotaInsufficient.
Proof.
  intros Hv Hm Hw Ho Hc Hco. unfold validateAgainstQuota, maxJobShareOfMonthlyCap.
  rewrite (proj2 (Z.leb_gt cap 0)), (proj2 (Z.leb_gt (rs_VCPU shape) 0)), (proj2 (Z.leb_gt (rs_MemoryMB shape) 0)),
    (proj2 (Z.leb_gt (rs_WallClockSeconds shape) 0)) by done. cbn [orb].
  assert (Hmin : int64_min <= 0) by done.
  rewrite !wrap64_id by (unfold is_int64; nia). replace (cap * 60) with ((12 * cap) * 5) by lia. rewrite Z.quot_mul by done.
  destruct (Z.ltb_spec (12 * cap) (rs_VCPU shape * rs_WallClockSeconds shape)),
    (Z.leb_spec (rs_VCPU shape * rs_WallClockSeconds shape) (12 * cap)); lia || done.
Qed.

(** The product wraps: a job of 2^63 seconds is admitted under any quota. *)
Lemma giant_job_admitted : validateAgainstQuota (mkShape (2 ^ 32) 1 0 (2 ^ 31) []) 1 = None.
Proof. vm_compute. reflexivity. Qed.

Section admission.
Context {V B : Type} `{!MicroVMProvisioner V} `{!CIBillingClient B}.
Notation world := (world V B).

(** No answer the billing service gives from the states of [I] on admits the
    job. *)
Definition denied (I : B -> Prop) (org : uuid) (shape : ResourceShape) : Prop := forall b, I b ->
  I (GetQuotaAccount org b).1 /\
  forall q, (GetQuotaAccount org b).2 = Ok q -> validateAgainstQuota shape (q_ComputeMinutesPerMonthCap q) <> None.
Definition refused (I : B -> Prop) (v : V) (w : world) : Prop := w_vms w = v /\ I (w_billing w).

(** An activity that begins with an admission that is denied. *)
Lemma denied_activity {A} I org shape v (k : unit -> act world A) (w : world) : denied I org shape -> refused I v w ->
  (exists e, (bind (admit_boot org shape) k w).2 = Err e) /\ refused I v (bind (admit_boot org shape) k w).1.
Proof.
  intros Hd [Hv HI]. destruct (Hd _ HI) as [HI' Hq]. unfold refused, admit_boot, bind, on_billing.
  destruct (GetQuotaAccount org (w_billing w)) as [b [q|e]]; [|split; [by eexists|done]]. cbn in *.
  specialize (Hq q eq_refl). destruct (validateAgainstQuota _ _); [|done]. split; [by eexists|done].
Qed.

Lemma attempts_fail {A} (Q : world -> Prop) (a : act world A) left i script w :
  (forall w, Q w -> (exists e, (a w).2 = Err e) /\ Q (a w).1) -> Q w -> exists e, (attempts (fun _ => a) left i script w).2 = Err e.
Proof.
  intros Ha. revert i script w. induction left as [|left IH]; intros i script w Hw; cbn [attempts]; [by eexists|].
  destruct (Ha w Hw) as [[e He] Hq]. destruct (default _ _); [|by apply IH..]. destruct (a w) as [w1 [x|[t|f]]]; [done|by eexists|].
  destruct (left =? 0)%nat; [by eexists|by apply IH].
Qed.

Lemma await_denied {A} I o org shape v (k : unit -> act world A) wt (w : world) : denied I org shape -> refused I v w ->
  (exists e, (await o (bind (admit_boot org shape) k) wt w).2 = Err e) /\ refused I v (await o (bind (admit_boot org shape) k) wt w).1.
Proof.
  intros Hd Hr. split.
  - destruct wt; [|by eexists]. apply (attempts_fail (refused I v)); [|done]. intros w0 Hw0. by apply denied_activity.
  - apply await_preserves; [|done]. intros w0 Hw0. by apply (denied_activity _ _ _ _ k w0 Hd).
Qed.

Lemma boot_denied I sc i t (w : world) : denied I (cj_OrgID i) (cj_Resource i) -> I (w_billing w) ->
  (exists e, (boot sc i t w).2 = Err e) /\ w_vms (boot sc i t w).1 = w_vms w.
Proof.
  intros Hd HI. destruct t; [by split; [eexists|]|..];
    [destruct (await_denied I (bootOptionsFor TierHot) _ _ (w_vms w) (fun _ => on_vms (LeaseHot (mkLeaseInput (cj_JobID i) (cj_PrincipalID i)
       (cj_OrgID i) (cj_Resource i))) boot_failure) (sc_boot sc) w Hd (conj eq_refl HI)) as [He [Hv _]]
    |destruct (await_denied I (bootOptionsFor TierCold) _ _ (w_vms w) (fun _ => on_vms (BootCold (mkBootInput (cj_JobID i) (cj_PrincipalID i)
       (cj_OrgID i) (cj_Resource i))) boot_failure) (sc_boot sc) w Hd (conj eq_refl HI)) as [He [Hv _]]]; by split.
Qed.
End admission.

(** A job that asks for more than a fifth of its organisation's monthly
    minutes gets no VM, whatever fails: if every account the billing service
    reports has no entitlement or too small a one (numbers that do not
    overflow), the provisioner is never asked and the workflow fails. *)
Theorem oversized_job_boots_nothing {V B} `{!MicroVMProvisioner V} `{!CIBillingClient B} sc i (w w' : world V B) out err (I : B -> Prop) :
  let shape := cj_Resource i in
  0 < rs_VCPU shape -> 0 < rs_MemoryMB shape -> 0 < rs_WallClockSeconds shape ->
  rs_VCPU shape * rs_WallClockSeconds shape <= int64_max ->
  I (w_billing w) ->
  (forall b, I b -> I (GetQuotaAccount (cj_OrgID i) b).1 /\
     forall q, (GetQuotaAccount (cj_OrgID i) b).2 = Ok q -> let cap := q_ComputeMinutesPerMonthCap q in
     cap <= 0 \/ cap * 60 <= int64_max /\ 12 * cap < rs_VCPU shape * rs_WallClockSeconds shape) ->
  CIJobWorkflow sc i w = (w', (out, err)) -> w_vms w' = w_vms w /\ is_Some err.
Proof.
  intros shape Hv Hm Hw Ho HI Hq H.
  assert (Hd : denied I (cj_OrgID i) shape).
  { intros b Hb. destruct (Hq b Hb) as [Hb' Hc]. split; [done|]. intros q Hok.
    specialize (Hc q Hok). cbn zeta in Hc. destruct (Z.le_gt_cases (q_ComputeMinutesPerMonthCap q) 0) as [H0|H0].
    - unfold validateAgainstQuota. by rewrite (proj2 (Z.leb_le _ _) H0).
    - destruct Hc as [|[Hc Hlt]]; [lia|]. rewrite validateAgainstQuota_spec by done. by rewrite (proj2 (Z.leb_gt _ _) Hlt). }
  apply CIJobWorkflow_phases in H as [(-> & -> & _)|(w1 & r & Eb & H)]; [by split|].
  destruct (boot_denied I sc i (assignTier (cj_PrincipalKind i) (cj_Annotations i)) w Hd HI) as [[e He] Hw1]. rewrite Eb in He, Hw1.
  cbn in He, Hw1. subst r. destruct H as (-> & -> & _). by split.
Qed.

(** ** No VM is left behind *)
Section teardown.
Context {V B : Type} `{!MicroVMProvisioner V} `{!ProvisionerLaws V} `{!CIBillingClient B}.
Notation world := (world V B).

(** An activity that boots VMs says which. *)
Definition boots (a : act world MicroVMHandle) : Prop := forall w, vm_inv (w_vms w) ->
  vm_inv (w_vms (a w).1) /\ forall id, live (w_vms (a w).1) id ->
    live (w_vms w) id \/ exists h, (a w).2 = Ok h /\ id = vm_ID h /\ vm_ID h <> "".

Lemma boots_activity org shape (m : V -> V * result vm_error MicroVMHandle) :
  (forall v, vm_inv v -> vm_inv (m v).1 /\ forall id, live (m v).1 id -> live v id \/ exists h, (m v).2 = Ok h /\ id = vm_ID h /\ vm_ID h <> "") ->
  boots (bind (admit_boot org shape) (fun _ => on_vms m boot_failure)).
Proof.
  intros Hm w Hw. pose proof (admit_vms org shape w) as Ha. unfold bind. destruct (admit_boot org shape w) as [w1 [[]|e]]; cbn [fst] in Ha.
  - unfold on_vms. rewrite Ha. destruct (Hm (w_vms w) Hw) as [Hi Hl]. destruct (m (w_vms w)) as [v [h|e]]; cbn in *.
    + split; [done|]. intros id Hid. destruct (Hl id Hid) as [?|(h' & [= <-] & ?)]; [by left|right; by exists h].
    + split; [done|]. intros id Hid. destruct (Hl id Hid) as [?|(h' & ? & _)]; [by left|done].
  - cbn [fst]. rewrite Ha. split; [done|]. by left.
Qed.

(** No answer is lost: what is booted in the end is what was answered. *)
Lemma attempts_boot (a : act world MicroVMHandle) left i script : boots a -> ResultLost ∉ script -> boots (attempts (fun _ => a) left i script).
Proof.
  intros Ha. revert i script. induction left as [|left IH]; intros i script Hs w Hw; cbn [attempts]; [split; [done|by left]|].
  assert (Ht : ResultLost ∉ tail script) by (destruct script; [done|]; rewrite elem_of_cons in Hs; tauto).
  destruct script as [|[] script]; cbn [head default tail] in *; try by apply IH.
  3:{ exfalso. apply Hs. left. }
  all: destruct (Ha w Hw) as [Hi Hl]; destruct (a w) as [w1 [h|[t|e]]]; cbn in Hi, Hl; [done|split; [done|]|].
  all: assert (Hl' : forall id, live (w_vms w1) id -> live (w_vms w) id) by (intros id Hid; destruct (Hl id Hid) as [|(? & ? & _)]; done).
  1,3: intros id Hid; left; by apply Hl'.
  all: destruct (left =? 0)%nat; [split; [done|]; intros id Hid; left; by apply Hl'|].
  all: destruct (IH (S i) _ Ht w1 Hi) as [Hi' Hl2]; split; [done|]; intros id Hid; destruct (Hl2 id Hid) as [?|?]; [left; by apply Hl'|by right].
Qed.

(** Nothing new is up. *)
Definition no_more (old : string -> Prop) (w : world) : Prop := vm_inv (w_vms w) /\ forall id, live (w_vms w) id -> old id.

Lemma teardown_no_more old id : preserves (no_more old) (TeardownVMActivity id).
Proof.
  intros w [Hi Ho]. unfold TeardownVMActivity. case_bool_decide; [by split|]. destruct (Teardown_law id (w_vms w) Hi) as (Hi' & Hl & _).
  destruct (Teardown id (w_vms w)). split; [done|]. intros id' Hid. by apply Ho, Hl.
Qed.
Lemma run_no_more old r : preserves (no_more old) (RunJobActivity r).
Proof.
  intros w [Hi Ho]. unfold RunJobActivity, on_vms. destruct (Run_law r (w_vms w) Hi) as [Hi' Hl].
  destruct (Run r (w_vms w)). split; [done|]. intros id Hid. by apply Ho, Hl.
Qed.
Lemma emit_no_more old u : preserves (no_more old) (EmitUsageEventActivity u).
Proof. intros w Hw. unfold no_more, EmitUsageEventActivity in *. by rewrite on_billing_vms. Qed.

Definition gone_answers : list (result vm_error unit) := [Ok tt; Err ErrAlreadyTorndown; Err ErrNotFound].
Definition responsive : Prop := forall v id, vm_inv v -> (Teardown id v).2 ∈ gone_answers.

Lemma teardown_once old id (w : world) : responsive -> no_more (fun x => old x \/ x = id) w -> id <> "" ->
  no_more (fun x => old x /\ x <> id \/ old x) (TeardownVMActivity id w).1 /\
  ~ live (w_vms (TeardownVMActivity id w).1) id /\ (TeardownVMActivity id w).2 = Ok tt.
Proof.
  intros Hr [Hi Ho] Hid. unfold TeardownVMActivity. rewrite bool_decide_false by done.
  specialize (Hr (w_vms w) id Hi). destruct (Teardown_law id (w_vms w) Hi) as (Hi' & Hl & Hg). specialize (Hg Hr).
  destruct (Teardown id (w_vms w)) as [v r]. cbn in *. split_and!; [split; [done|]| done |].
  - intros x Hx. right. destruct (Ho x (Hl x Hx)) as [?| ->]; done.
  - unfold gone_answers in Hr. rewrite !elem_of_cons, elem_of_nil in Hr. destruct Hr as [->|[->|[->|[]]]]; done.
Qed.

(** An attempt that gets through tears the VM down. *)
Lemma teardown_phase old id left i script (w : world) : responsive -> id <> "" ->
  (exists k, (k < left)%nat /\ default Delivered (script !! k) <> NotRun) ->
  no_more (fun x => old x \/ x = id) w ->
  no_more old (attempts (fun _ => TeardownVMActivity id) left i script w).1.
Proof.
  intros Hr Hid. revert i script w. induction left as [|left IH]; intros i script w (k & Hk & Hd) Hw; [lia|]. cbn [attempts].
  destruct (teardown_once old id w Hr Hw Hid) as ([Hi Ho] & Hg & Ht).
  assert (Hdone : no_more old (TeardownVMActivity id w).1).
  { split; [done|]. intros x Hx. by destruct (Ho x Hx) as [[]|]. }
  assert (Hrest : head script = Some NotRun -> exists k, (k < left)%nat /\ default Delivered (tail script !! k) <> NotRun).
  { intros Hh. destruct script as [|s script]; [done|]. injection Hh as ->. destruct k as [|k]; [done|]. exists k. split; [lia|done]. }
  destruct script as [|[] script]; cbn [head default tail] in *.
  - destruct (TeardownVMActivity id w) as [w1 r]. cbn in Ht, Hdone. by rewrite Ht.
  - destruct (TeardownVMActivity id w) as [w1 r]. cbn in Ht, Hdone. by rewrite Ht.
  - apply IH; [by apply Hrest|done].
  - apply (attempts_preserves _ (no_more old)); [|done]. intros _. apply teardown_no_more.
Qed.
End teardown.

(** C25: No job leaves a VM behind: if no boot's answer is lost, the
    provisioner answers teardowns, and one of the five attempts reaches it,
    every VM that is up after the workflow was up before, also when the run
    fails or the workflow is cancelled while it runs. *)
Theorem no_vm_left {V B} `{!MicroVMProvisioner V} `{!ProvisionerLaws V} `{!CIBillingClient B} sc i (w w' : world V B) out err script :
  vm_inv (w_vms w) -> responsive (V := V) -> sc_boot sc = Settled script -> ResultLost ∉ script ->
  (exists k, (k < 5)%nat /\ default Delivered (sc_teardown sc !! k) <> NotRun) ->
  CIJobWorkflow sc i w = (w', (out, err)) ->
  forall id, live (w_vms w') id -> live (w_vms w) id.
Proof.
  intros Hi Hr Hb Hs Ht H. apply CIJobWorkflow_phases in H as [[-> _]|(w1 & r & Eb & H)]; [done|].
  assert (Hboot : boots (boot (B := B) sc i (assignTier (cj_PrincipalKind i) (cj_Annotations i)))).
  { destruct (assignTier _ _); cbn [boot]; rewrite ?Hb; cbn [await detached].
    - intros w0 Hw0. split; [done|by left].
    - apply attempts_boot; [|done]. apply boots_activity. apply LeaseHot_law.
    - apply attempts_boot; [|done]. apply boots_activity. apply BootCold_law. }
  destruct (Hboot w Hi) as [Hi1 Hl1]. rewrite Eb in Hi1, Hl1. cbn in Hi1, Hl1.
  destruct r as [h|e].
  2:{ destruct H as (-> & _). intros id Hid. by destruct (Hl1 id Hid) as [|(? & ? & _)]. }
  destruct H as (w2 & run & w3 & torn & emitted & result & E1 & E2 & _ & E3 & _).
  assert (H1 : no_more (fun x => live (w_vms w) x \/ x = vm_ID h /\ vm_ID h <> "") w1).
  { split; [done|]. intros id Hid. destruct (Hl1 id Hid) as [|(h' & [= <-] & ?)]; [by left|by right]. }
  pose proof (await_preserves _ (runOptions (rs_WallClockSeconds (cj_Resource i))) _ (sc_run sc) (run_no_more _
    (mkRunInput (vm_ID h) (cj_Command i) (cj_Env i) (sortedKeys (cj_Env i)))) w1 H1) as H2. rewrite E1 in H2. cbn [fst] in H2.
  assert (H3 : no_more (live (w_vms w)) w3).
  { destruct (decide (vm_ID h = "")) as [Hn|Hn].
    - assert (H2' : no_more (live (w_vms w)) w2).
      { destruct H2 as [? Ho]. split; [done|]. intros id Hid. by destruct (Ho id Hid) as [|[_ []]]. }
      pose proof (detached_preserves _ teardownOptions _ (sc_teardown sc) (teardown_no_more _ (vm_ID h)) w2 H2') as H3. by rewrite E2 in H3.
    - assert (H2' : no_more (fun x => live (w_vms w) x \/ x = vm_ID h) w2).
      { destruct H2 as [? Ho]. split; [done|]. intros id Hid. destruct (Ho id Hid) as [|[-> _]]; [by left|by right]. }
      pose proof (teardown_phase _ _ 5 0 (sc_teardown sc) w2 Hr Hn Ht H2') as H3. unfold detached in E2. cbn [ao_MaximumAttempts teardownOptions] in E2.
      by rewrite E2 in H3. }
  pose proof (detached_preserves _ emitOptions _ (sc_emit sc) (emit_no_more (live (w_vms w)) (job_usage i (assignTier (cj_PrincipalKind i) (cj_Annotations i)) result)) w3 H3) as H4. rewrite E3 in H4. apply H4.
Qed.

(** ** Every booted job is charged *)
Section charged.
Context {V B : Type} `{!MicroVMProvisioner V} `{!CIBillingClient B} `{!CIBillingLaws B}.
Notation world := (world V B).

Lemma emit_keeps u job : preserves (fun w : world => job_recorded (w_billing w) job) (EmitUsageEventActivity u).
Proof.
  intros w Hw. unfold EmitUsageEventActivity, on_billing. pose proof (proj2 (recorded_stays _ _ Hw) (charge u)) as H.
  by destruct (RecordCIJobCompleted _ _).
Qed.
Lemma emit_ok u (w w' : world) : uuid_ok (ui_JobID u) -> EmitUsageEventActivity u w = (w', Ok tt) -> job_recorded (w_billing w') (ui_JobID u).
Proof.
  intros Hu. unfold EmitUsageEventActivity, on_billing. pose proof (Record_law (charge u) (w_billing w) Hu) as H.
  destruct (RecordCIJobCompleted _ _) as [b [[]|e]]; [intros [= <-]; by apply H|done].
Qed.

(** From the states of [I] on, the billing service accepts what it is told. *)
Definition accepting (I : B -> Prop) : Prop := forall b, I b ->
  (forall org, I (GetQuotaAccount org b).1) /\
  (forall u, (RecordCIJobCompleted u b).2 = Ok tt /\ I (RecordCIJobCompleted u b).1).
Lemma emission_ok u left script (w w' : world) : uuid_ok (ui_JobID u) ->
  attempts (fun _ => EmitUsageEventActivity u) left 0 script w = (w', Ok tt) -> job_recorded (w_billing w') (ui_JobID u).
Proof.
  intros Hu H. destruct (attempts_ok (fun _ => EmitUsageEventActivity u) (fun _ => True) _ _ _ _ _ _ (fun _ _ _ => Logic.I) Logic.I H)
    as (j & w0 & _ & Ho). by apply (emit_ok u w0).
Qed.

(** A job that finished without an error is recorded. *)
Lemma finished_is_recorded sc i (w w' : world) out : uuid_ok (cj_JobID i) -> CIJobWorkflow sc i w = (w', (out, None)) ->
  job_recorded (w_billing w') (cj_JobID i).
Proof.
  intros Hu H. apply CIJobWorkflow_phases in H as [(_ & ? & _)|(w1 & [h|e] & _ & H)]; [done| |by destruct H as (_ & ? & _)].
  destruct H as (w2 & run & w3 & torn & emitted & result & _ & _ & _ & E3 & _ & He).
  assert (emitted = Ok tt) as -> by (destruct run, emitted as [[]|]; done).
  exact (emission_ok (job_usage i _ result) 10 (sc_emit sc) w3 w' Hu E3).
Qed.

Lemma emission_phase I u left i script (w : world) : accepting I -> billing_in I w -> uuid_ok (ui_JobID u) ->
  (exists k, (k < left)%nat /\ default Delivered (script !! k) <> NotRun) ->
  job_recorded (w_billing (attempts (fun _ => EmitUsageEventActivity u) left i script w).1) (ui_JobID u).
Proof.
  intros Ha HI Hu. revert i script w HI. induction left as [|left IH]; intros i script w HI (k & Hk & Hd); [lia|]. cbn [attempts].
  assert (He : exists w1, EmitUsageEventActivity u w = (w1, Ok tt)).
  { unfold EmitUsageEventActivity, on_billing. destruct (proj2 (Ha (w_billing w) HI) (charge u)) as [Hr _].
    destruct (RecordCIJobCompleted _ _) as [b r]. cbn in Hr. subst r. by eexists. }
  destruct He as [w1 He]. pose proof (emit_ok u w w1 Hu He) as Hr.
  destruct script as [|[] script]; cbn [head default tail].
  1,2: by rewrite He.
  - apply IH; [done|]. destruct k as [|k]; [done|]. exists k. split; [lia|done].
  - rewrite He. cbn [fst]. by apply (attempts_preserves _ (fun w => job_recorded (w_billing w) (ui_JobID u))); [intros _; apply emit_keeps|].
Qed.
End charged.

(** A job that finished without an error is recorded with the billing
    service; and a job that got a VM is recorded even when its run failed or
    was cancelled, once the billing service accepts and one of the ten
    attempts reaches it. *)
Theorem booted_job_is_recorded {V B} `{!MicroVMProvisioner V} `{!CIBillingClient B} `{!CIBillingLaws B}
    sc i (w w' : world V B) out err I :
  uuid_ok (cj_JobID i) -> CIJobWorkflow sc i w = (w', (out, err)) ->
  err = None \/ co_VMID out <> "" /\ accepting I /\ I (w_billing w) /\ (exists k, (k < 10)%nat /\ default Delivered (sc_emit sc !! k) <> NotRun) ->
  job_recorded (w_billing w') (cj_JobID i).
Proof.
  intros Hu H Hcase. destruct err as [er|]; [|by eapply finished_is_recorded]. destruct Hcase as [|(Hid & Ha & HI & Hk)]; [done|].
  apply CIJobWorkflow_phases in H as [(_ & _ & ?)|(w1 & [h|e] & Eb & H)]; [done| |by destruct H as (_ & _ & ?)].
  destruct H as (w2 & run & w3 & torn & emitted & result & E1 & E2 & _ & E3 & _ & _).
  pose proof (boot_in I sc i (assignTier (cj_PrincipalKind i) (cj_Annotations i)) (fun b Hb => proj1 (Ha b Hb)) w HI) as H1. rewrite Eb in H1.
  pose proof (run_teardown_in I sc i h w1 w2 w3 run torn E1 E2 H1) as H3.
  pose proof (emission_phase I (job_usage i (assignTier (cj_PrincipalKind i) (cj_Annotations i)) result) 10 0 (sc_emit sc) w3 Ha H3 Hu Hk) as Hr.
  unfold detached in E3. cbn [ao_MaximumAttempts emitOptions] in E3. by rewrite E3 in Hr.
Qed.

(** The exit code that is charged: the command's own, -1 when the run gave no
    answer, -2 when the workflow was cancelled. *)
Lemma exit_codes {V B} `{!MicroVMProvisioner V} `{!CIBillingClient B} sc i (w w' : world V B) out err :
  CIJobWorkflow sc i w = (w', (out, err)) -> co_VMID out <> "" ->
  exists (w1 w2 : world V B) run, await (runOptions (rs_WallClockSeconds (cj_Resource i)))
    (RunJobActivity (mkRunInput (co_VMID out) (cj_Command i) (cj_Env i) (sortedKeys (cj_Env i)))) (sc_run sc) w1 = (w2, run) /\
    co_ExitCode out = (if canceled sc then -2 else match run with Ok res => jr_ExitCode res | Err _ => -1 end) /\
    (forall e, run = Err e -> err = Some e).
Proof.
  intros H Hid. apply CIJobWorkflow_phases in H as [(_ & _ & ?)|(w1 & [h|e] & _ & H)]; [done| |by destruct H as (_ & _ & ?)].
  destruct H as (w2 & run & w3 & torn & emitted & result & E1 & _ & -> & _ & -> & ->). exists w1, w2, run.
  split; [exact E1|]. split; [by destruct (canceled sc), run|]. by intros e ->.
Qed.

(** ** Runs of a sample job *)

Definition sample_job (kind : PrincipalKind) : CIJobInput :=
  mkCIJobInput 7 8 kind 9 10 ∅ ["make"; "test"] ∅ DefaultResourceShape.
Definition sample_world : world Fake StubBillingClient :=
  mkWorld NewFake (stub_SetQuotaFor 9 (mkQuotaView 1 9 "pro" 1000 5000 10) NewStubBillingClient).
Definition smooth : schedule := mkSchedule (Settled []) (Settled []) [] false [].
Definition lossy : schedule := mkSchedule (Settled [NotRun]) (Settled [ResultLost]) [NotRun; ResultLost] false [ResultLost].
Definition run_sample (sc : schedule) (kind : PrincipalKind) := CIJobWorkflow sc (sample_job kind) sample_world.

Definition summary (r : world Fake StubBillingClient * (CIJobOutput * option failure)) :=
  (map_to_list (f_liveVMs (w_vms r.1)), length (ciCalls (w_billing r.1)), co_ExitCode r.2.1, r.2.2).

Example smooth_run : summary (run_sample smooth PrincipalAgent) =
  ([("vm-cold-00000000-0000-0000-0000-000000000007", false)], 1%nat, 0, None).
Proof. vm_compute. reflexivity. Qed.
Example hot_run : summary (run_sample smooth PrincipalHuman) =
  ([("vm-hot-00000000-0000-0000-0000-000000000007", false)], 1%nat, 0, None).
Proof. vm_compute. reflexivity. Qed.

(** A run whose answer is lost is charged as zero seconds. *)
Lemma lost_run_is_free : let '(w, (out, err)) := run_sample lossy PrincipalAgent in
  err = Some Timeout /\ co_ExitCode out = -1 /\ f_runCalls (w_vms w) <> [] /\ f_liveVMs (w_vms w) !! co_VMID out = Some false /\
  Forall (fun c => ci_VCPUSeconds c = f0 /\ ci_MemoryMBSeconds c = f0) (ciCalls (w_billing w)).
Proof. vm_compute. split_and!; try done. repeat constructor. Qed.

(** A boot that is cancelled once it has started leaves its VM up. *)
Lemma cancelled_boot_leaks : let '(w, (out, err)) := run_sample (mkSchedule (Cancelled [] 1) (Settled []) [] true []) PrincipalAgent in
  err = Some CanceledError /\ map_to_list (f_liveVMs (w_vms w)) = [("vm-cold-00000000-0000-0000-0000-000000000007", true)] /\
  f_teardownCalls (w_vms w) = [].
Proof. vm_compute. by split_and!. Qed.

(** A job that failed and could not be charged reports the run's failure only. *)
Lemma lost_charge_is_silent : let '(w, (out, err)) := run_sample (mkSchedule (Settled []) (Settled [NotRun]) [] false (replicate 10 NotRun)) PrincipalAgent in
  err = Some Timeout /\ ciCalls (w_billing w) = [].
Proof. vm_compute. by split. Qed.

(** ** Witnesses *)

Lemma parts {X Y Z} (r : X * (Y * Z)) : r = (r.1, (r.2.1, r.2.2)).
Proof. by destruct r as [? []]. Qed.

Lemma command_runs_at_most_once_witness :
  let w := mkWorld (mkLogged NewFake []) (w_billing sample_world) in
  let r := CIJobWorkflow lossy (sample_job PrincipalAgent) w in
  exists l, lg_runs (w_vms r.1) = lg_runs (w_vms w) ++ l /\
    (l = [] \/ PrincipalKind_IsValid PrincipalAgent = true /\ l = [mkRunInput (co_VMID r.2.1) ["make"; "test"] ∅ (sortedKeys ∅)]).
Proof. intros w r. exact (command_runs_at_most_once lossy (sample_job PrincipalAgent) w r.1 r.2.1 r.2.2 (parts r)). Defined.

Lemma stub_accepting : accepting (fun s : StubBillingClient => ciFn s = None).
Proof. intros b Hb. split; [done|]. intros u. cbn. unfold stub_RecordCIJobCompleted. by rewrite Hb. Qed.

Lemma booted_job_is_recorded_witness : job_recorded (w_billing (run_sample lossy PrincipalAgent).1) 7.
Proof.
  apply (booted_job_is_recorded lossy (sample_job PrincipalAgent) sample_world _ (run_sample lossy PrincipalAgent).2.1
    (run_sample lossy PrincipalAgent).2.2 (fun s => ciFn s = None)); [by vm_compute|apply parts|].
  right. split; [by vm_compute|]. split; [exact stub_accepting|]. split; [done|]. exists 0%nat. split; [lia|done].
Defined.

Definition huge_job : CIJobInput := mkCIJobInput 7 8 PrincipalAgent 9 10 ∅ ["make"] ∅ (mkShape 64 1024 0 36000 []).
Lemma oversized_job_boots_nothing_witness :
  w_vms (CIJobWorkflow smooth huge_job sample_world).1 = w_vms sample_world /\ is_Some (CIJobWorkflow smooth huge_job sample_world).2.2.
Proof.
  apply (oversized_job_boots_nothing smooth huge_job sample_world _ (CIJobWorkflow smooth huge_job sample_world).2.1 _
    (fun b => b = w_billing sample_world)); [done..| |].
  - intros b ->. split; [done|]. intros q [= <-]. right. by vm_compute.
  - apply parts.
Defined.

Lemma no_vm_left_witness : f_teardownCalls (w_vms (run_sample lossy PrincipalAgent).1) <> [] /\
  forall id, live (w_vms (run_sample lossy PrincipalAgent).1) id -> live (w_vms sample_world) id.
Proof.
  split; [by vm_compute|].
  apply (no_vm_left lossy (sample_job PrincipalAgent) sample_world _ (run_sample lossy PrincipalAgent).2.1
    (run_sample lossy PrincipalAgent).2.2 [NotRun]).
  - by split_and!.
  - intros v id (_ & _ & Ht). cbn. unfold fake_Teardown, gone_answers. rewrite Ht. rewrite !elem_of_cons.
    destruct (f_liveVMs v !! id) as [[]|]; cbn; tauto.
  - done.
  - by rewrite list_elem_of_singleton.
  - exists 1%nat. split; [lia|done].
  - apply parts.
Defined.
