(* ===== verification/CiBilling.v ===== *)
(** * CI jobs charged over gRPC

    The workflow of CiJob.v on the client of [appclient/billing_grpc.go]
    (BillingRpc.v) and the service behind it (BillingService.v): what the
    workflow expects of a billing client holds of that client, and a job is
    charged exactly once, with the workflow's own result, whatever calls and
    answers are lost. *)

From S2P Require Import Prelude GoStd GoFmt Sha256 Uuid Floats Outbox Actions Grpc MetadataStore BillingService.
From S2P Require Import BillingRpc Temporal.
From S2P Require AppClient.
From S2P Require Import CiJob.

#[local] Arguments uuid_String : simpl never.
#[local] Arguments charge : simpl never.

Section grpc.
Context (NewSHA1 : uuid -> list ascii -> uuid) (Parse : string -> option uuid) {MR : MapRange}.
Hypothesis Parse_String : forall u, uuid_ok u -> Parse (uuid_String u) = Some u.

Notation conn := (connection billing_payload).
Notation pay := (fun p : billing_payload => p).
Notation run := (run_call NewSHA1 pay).

#[local] Instance grpc_ci_client : CIBillingClient conn := {
  GetQuotaAccount := grpc_GetQuotaAccount Parse;
  RecordCIJobCompleted := grpc_RecordCIJobCompleted NewSHA1 Parse pay }.

(** The aggregate a job is charged under. *)
Definition job_aggregate (job : uuid) : uuid := ciJobCompletedAggregateID NewSHA1 job.
Definition job_input (i : AppClient.CIJobCompletedInput) (jobID principalID orgID repoID : uuid) : RecordCIJobCompletedInput :=
  mkRecordCI jobID principalID (AppClient.ci_PrincipalKind i) orgID repoID (AppClient.ci_Tier i)
    (AppClient.ci_VCPUSeconds i) (AppClient.ci_MemoryMBSeconds i) (AppClient.ci_EgressKB i) (int32 (AppClient.ci_ExitCode i)).

(** The server turns a message down, or runs the service call it stands for. *)
Lemma ci_handler i :
  (exists c, forall e, GRPC_RecordCIJobCompleted NewSHA1 Parse pay e (ci_request i) = throw c) \/
  exists j p o r, Parse (uuid_String (AppClient.ci_JobID i)) = Some j /\ Parse (uuid_String (AppClient.ci_PrincipalID i)) = Some p /\
    Parse (uuid_String (AppClient.ci_OrgID i)) = Some o /\ Parse (uuid_String (AppClient.ci_RepoID i)) = Some r /\
    forall e, GRPC_RecordCIJobCompleted NewSHA1 Parse pay e (ci_request i) = with_status mapErr (run e (CallJob (job_input i j p o r))).
Proof.
  unfold GRPC_RecordCIJobCompleted, ci_request, parse_id. cbn [cm_JobId cm_PrincipalId cm_OrgId cm_RepoId].
  destruct (Parse (uuid_String (AppClient.ci_JobID i))) as [j|]; [|left; by eexists].
  destruct (Parse (uuid_String (AppClient.ci_PrincipalID i))) as [p|]; [|left; by eexists].
  destruct (Parse (uuid_String (AppClient.ci_OrgID i))) as [o|]; [|left; by eexists].
  destruct (Parse (uuid_String (AppClient.ci_RepoID i))) as [r|]; [|left; by eexists].
  right. exists j, p, o, r. by split_and!.
Qed.

(** A handler that throws leaves the store. *)
Lemma rpc_throw (h : env billing_payload -> action code (Store billing_payload) Recorded_output) c (k : conn) :
  (forall e, h e = throw c) -> srv (rpc h k).1 = srv k /\ exists er, (rpc h k).2 = Err er.
Proof.
  intros Hh. unfold rpc. destruct (deliveries k 0%nat) as [|conflict now eventID newID lost]; [split; [done|by eexists]|].
  rewrite Hh. cbn. split; [done|]. destruct lost; by eexists.
Qed.

(** One call of the client: nothing happens, or the service runs the call
    once; an answer means that it succeeded. *)
Lemma ci_call i (k : conn) :
  srv (RecordCIJobCompleted i k).1 = srv k /\ (RecordCIJobCompleted i k).2 <> Ok tt \/
  exists e j p o r, Parse (uuid_String (AppClient.ci_JobID i)) = Some j /\ Parse (uuid_String (AppClient.ci_PrincipalID i)) = Some p /\
    Parse (uuid_String (AppClient.ci_OrgID i)) = Some o /\ Parse (uuid_String (AppClient.ci_RepoID i)) = Some r /\
    alone e (srv k) /\ srv (RecordCIJobCompleted i k).1 = (run e (CallJob (job_input i j p o r)) (srv k)).1 /\
    ((RecordCIJobCompleted i k).2 = Ok tt -> exists out, (run e (CallJob (job_input i j p o r)) (srv k)).2 = Ok out).
Proof.
  cbn [RecordCIJobCompleted grpc_ci_client]. unfold grpc_RecordCIJobCompleted.
  destruct (ci_handler i) as [[c Hc]|(j & p & o & r & Ej & Ep & Eo & Er & Hc)].
  { left. destruct (rpc_throw _ c k Hc) as [Hs [er He]]. destruct (rpc _ k) as [k' res]. cbn in *. by rewrite Hs, He. }
  unfold rpc. destruct (deliveries k 0%nat) as [|conflict now eventID newID lost]; [by left|].
  set (e := mkEnv (fun _ => srv k) conflict now eventID newID). rewrite Hc.
  pose proof (with_status_state mapErr (run e (CallJob (job_input i j p o r))) (srv k)) as Hs.
  pose proof (fun s' a => proj1 (with_status_ok mapErr (run e (CallJob (job_input i j p o r))) (srv k) s' a)) as Ho.
  destruct (with_status mapErr _ (srv k)) as [s' res]. cbn [fst snd srv] in *. subst s'.
  destruct conflict.
  - left. destruct (run_call_conflict NewSHA1 pay e (CallJob (job_input i j p o r)) (srv k) eq_refl) as [er Her]. rewrite Her in *.
    split; [done|]. destruct lost; [done|]. destruct res as [a|]; [|done]. by specialize (Ho _ _ eq_refl).
  - right. exists e, j, p, o, r. split_and!; try done. destruct lost; [done|]. destruct res as [a|]; [|done]. intros _. exists a.
    by rewrite (Ho _ _ eq_refl).
Qed.

Lemma quota_srv org (k : conn) : srv (GetQuotaAccount org k).1 = srv k.
Proof.
  cbn [GetQuotaAccount grpc_ci_client]. unfold grpc_GetQuotaAccount, rpc.
  destruct (deliveries k 0%nat) as [|conflict now eventID newID lost]; [done|].
  unfold GRPC_GetQuotaAccount, parse_id. destruct (Parse (uuid_String org)) as [u|]; cbn; [|done].
  unfold with_status, bind. by destruct (BillingService.GetQuotaAccount u (srv k)).
Qed.

#[local, refine] Instance grpc_ci_laws : CIBillingLaws conn := {
  job_recorded k job := HasOutboxEventForAggregate EventTypeCIJobCompleted (job_aggregate job) (srv k) = true }.
Proof.
  - intros i k Hj Hok. destruct (ci_call i k) as [[_ []]|(e & j & p & o & r & Ej & _ & _ & _ & He & -> & Hr)]; [done|].
    destruct (Hr Hok) as [out Hout]. rewrite Parse_String in Ej by done. injection Ej as <-. rewrite run_job in *.
    destruct (validateCIJobInput _); [done|]. destruct (write_once _ _ _ _ _ _ _) as [s' res] eqn:E. cbn in Hout. subst res.
    exact (write_once_records _ _ _ _ _ _ _ _ _ He E).
  - intros k job Hk. split; [intros org; by rewrite quota_srv|]. intros i.
    destruct (ci_call i k) as [[-> _]|(e & j & p & o & r & _ & _ & _ & _ & He & -> & _)]; [done|]. by apply call_keeps.
Defined.

(** The job's events carry this charge. *)
Definition charged_with (agg : uuid) (r : RecordCIJobCompletedInput) (s : Store billing_payload) : Prop :=
  forall ev, ev ∈ outbox s -> is_billing_event EventTypeCIJobCompleted agg ev = true ->
  exists t, or_Payload ev = CIJobCompletedEvent (newCIJobCompletedPayload r agg t).

Lemma charged_once_call e r s : alone e s -> exact s -> charged_with (job_aggregate (rci_JobID r)) r s ->
  exact (run e (CallJob r) s).1 /\ charged_with (job_aggregate (rci_JobID r)) r (run e (CallJob r) s).1.
Proof.
  intros He Hx Hc. split; [by apply exact_call|]. rewrite run_job. destruct (validateCIJobInput r); [done|].
  rewrite write_once_alone by done. destruct (HasOutboxEventForAggregate _ _ _); [done|]. cbn [fst].
  intros ev. unfold with_event. cbn [outbox]. rewrite elem_of_app, list_elem_of_singleton. intros [Hev| ->] Hb; [by apply Hc|].
  by eexists.
Qed.

(** C24: A job is charged exactly once, with the workflow's own result: over
    the gRPC client, from a store that does not know the job, whatever calls
    and answers are lost and however often the activity is retried, the job
    has at most one event, every event of it carries the tier, the times and
    the exit code of the workflow's result, and a workflow that finishes
    without an error has left one. *)
Theorem job_charged_exactly_once {V} `{!MicroVMProvisioner V} sc i (w w' : world V conn) out err :
  let agg := job_aggregate (cj_JobID i) in
  let c := charge (job_usage i (co_Tier out) (co_Result out)) in
  uuid_ok (cj_JobID i) -> uuid_ok (cj_PrincipalID i) -> uuid_ok (cj_OrgID i) -> uuid_ok (cj_RepoID i) ->
  exact (srv (w_billing w)) -> agg ∉ aggregates EventTypeCIJobCompleted (srv (w_billing w)) ->
  CIJobWorkflow sc i w = (w', (out, err)) ->
  NoDup (aggregates EventTypeCIJobCompleted (srv (w_billing w'))) /\
  charged_with agg (job_input c (cj_JobID i) (cj_PrincipalID i) (cj_OrgID i) (cj_RepoID i)) (srv (w_billing w')) /\
  (err = None -> agg ∈ aggregates EventTypeCIJobCompleted (srv (w_billing w'))).
Proof.
  intros agg c Hj Hp Ho Hr Hx Hno H. set (r := job_input c _ _ _ _).
  assert (Hk : exact (srv (w_billing w')) /\ charged_with agg r (srv (w_billing w'))).
  { apply (workflow_billing (fun k => exact (srv k) /\ charged_with agg r (srv k)) sc i w w' out err); [| |done|].
    - intros k Hk org. by rewrite quota_srv.
    - intros k [Hk Hc]. fold c. destruct (ci_call c k) as [[-> _]|(e & j & p & o & r' & Ej & Ep & Eo & Er & He & -> & _)]; [by split|].
      unfold c, charge, job_usage in Ej, Ep, Eo, Er. cbn in Ej, Ep, Eo, Er.
      rewrite Parse_String in Ej, Ep, Eo, Er by done. injection Ej as <-. injection Ep as <-. injection Eo as <-. injection Er as <-.
      by apply (charged_once_call e r).
    - split; [done|]. intros ev Hev Hb. exfalso. apply Hno, has_event_aggregates, existsb_exists. exists ev.
      by rewrite <- list_elem_of_In. }
  destruct Hk as [Hk Hc]. split_and!; [apply Hk|done|]. intros ->.
  apply has_event_aggregates. exact (finished_is_recorded sc i w w' out Hj H).
Qed.
End grpc.

(** ** A job over a lossy connection *)
Section sample.
#[local] Existing Instance some_range.

Definition ci_store : Store billing_payload := SeedQuotaAccount (mkQuotaAccount 1 9 "pro" 1000 5000 10 0 0) New.
(** Every third call is lost, and so is the answer of the third one made. *)
Definition ci_conn : connection billing_payload :=
  mkConnection ci_store (fun n => if (n mod 3 =? 1)%nat then Lost else BillingRpc.Run false (Z.of_nat n) (Z.of_nat (100 + n)) 5 (n =? 2)%nat).
Definition ci_world : world Fake (connection billing_payload) := mkWorld NewFake ci_conn.
#[local] Existing Instance grpc_ci_client.
Definition ci_run := @CIJobWorkflow _ _ _ (grpc_ci_client sample_NewSHA1 canonical_Parse) lossy (sample_job PrincipalAgent) ci_world.

(** Answers are lost on both sides, and the job is recorded once. *)
Example ci_run_recorded : length (outbox (srv (w_billing ci_run.1))) = 1%nat /\ co_ExitCode ci_run.2.1 = -1.
Proof. vm_compute. by split. Qed.

Lemma job_charged_exactly_once_witness :
  NoDup (aggregates EventTypeCIJobCompleted (srv (w_billing ci_run.1))) /\
  charged_with (job_aggregate sample_NewSHA1 7) (job_input (charge (job_usage (sample_job PrincipalAgent) (co_Tier ci_run.2.1)
    (co_Result ci_run.2.1))) 7 8 9 10) (srv (w_billing ci_run.1)) /\
  (ci_run.2.2 = None -> job_aggregate sample_NewSHA1 7 ∈ aggregates EventTypeCIJobCompleted (srv (w_billing ci_run.1))).
Proof.
  refine (job_charged_exactly_once sample_NewSHA1 canonical_Parse canonical_Parse_String lossy (sample_job PrincipalAgent) ci_world
    ci_run.1 ci_run.2.1 ci_run.2.2 _ _ _ _ _ _ _); [by vm_compute..| | |apply parts].
  - split; [by cbn; rewrite map_to_list_empty|constructor..].
  - apply not_elem_of_nil.
Defined.
End sample.
