(* ===== verification/PersistedQueries.v ===== *)
(** * Persisted GraphQL queries

    [plane/application/graphql/persisted]: the store interface with its
    contract, the Postgres store over a table of immutable rows, and the
    read-through cache in front of it.  What a hash stands for never changes. *)

From S2P Require Import Prelude GoStd Sha256 Json Uuid Actions CacheStore.

(** ** store.go *)

Definition HashPrefix : string := "sha256:".
Definition HashFor (query : string) : string := HashPrefix +:+ l2s (hex_of_bytes (Sum256 (s2l query))).

Inductive persisted_error := ErrNotFound | ErrHashConflict | ErrBackend.
#[export] Instance persisted_error_eq_dec : EqDecision persisted_error.
Proof. solve_decision. Defined.

Class PersistedStore (S : Type) := {
  pq_Get : string -> action persisted_error S string;
  pq_Put : string -> string -> uuid -> action persisted_error S unit }.

(** The contract: a view of what the hashes stand for, which only grows; what
    an answer says is in the view; registering a text under its hash keeps the
    view authentic. *)
Class PersistedLaws (S : Type) `{PersistedStore S} := {
  resolves : S -> string -> option string;
  pq_inv : S -> Prop;
  pq_authentic s hash q : pq_inv s -> resolves s hash = Some q -> HashFor q = hash;
  pq_Get_inv s hash : pq_inv s -> pq_inv (pq_Get hash s).1;
  pq_Put_inv s q by_ : pq_inv s -> pq_inv (pq_Put (HashFor q) q by_ s).1;
  pq_Get_grows s hash h q : pq_inv s -> resolves s h = Some q -> resolves (pq_Get hash s).1 h = Some q;
  pq_Put_grows s q0 by_ h q : pq_inv s -> resolves s h = Some q -> resolves (pq_Put (HashFor q0) q0 by_ s).1 h = Some q;
  pq_Get_ok s hash s' q : pq_inv s -> pq_Get hash s = (s', Ok q) -> resolves s' hash = Some q;
  pq_Put_ok s q by_ s' : pq_inv s -> pq_Put (HashFor q) q by_ s = (s', Ok tt) -> resolves s' (HashFor q) = Some q;
  pq_Get_missing s hash s' : pq_inv s -> pq_Get hash s = (s', Err ErrNotFound) -> resolves s' hash = None }.

(** ** postgres_store.go *)

Record pq_row := mkRow { row_query : string; row_registered_by : uuid }.
Definition insert_row (hash query : string) (by_ : uuid) (t : gmap string pq_row) : gmap string pq_row * Z :=
  match t !! hash with
  | Some _ => (t, 0)
  | None => (<[hash := mkRow query by_]> t, 1)
  end.

(** A statement: what others have inserted before it, and whether it is
    carried out and answered. *)
Inductive reply := Answered | AnswerLost | NotSent.
Record statement := mkStatement { others : list (string * string * uuid); st_reply : reply }.
Record PostgresStore := mkPostgres { pg_rows : gmap string pq_row; pg_statements : nat -> statement }.

Definition insert_all (l : list (string * string * uuid)) (t : gmap string pq_row) : gmap string pq_row :=
  fold_left (fun t x => (insert_row x.1.1 x.1.2 x.2 t).1) l t.

Definition execute {A} (f : gmap string pq_row -> gmap string pq_row * A) : action persisted_error PostgresStore A := fun p =>
  let st := pg_statements p 0%nat in
  let t := insert_all (others st) (pg_rows p) in
  let next t := mkPostgres t (fun n => pg_statements p (S n)) in
  match st_reply st with
  | Answered => let '(t', a) := f t in (next t', Ok a)
  | AnswerLost => (next (f t).1, Err ErrBackend)
  | NotSent => (next t, Err ErrBackend)
  end.

Definition PostgresStore_Get (hash : string) : action persisted_error PostgresStore string :=
  let! row := execute (fun t => (t, t !! hash)) in
  match row with Some r => ret (row_query r) | None => throw ErrNotFound end.

Definition PostgresStore_Put (hash query : string) (registeredBy : uuid) : action persisted_error PostgresStore unit :=
  let! n := execute (insert_row hash query registeredBy) in
  if n =? 1 then ret tt
  else
    let! existing := PostgresStore_Get hash in
    if bool_decide (existing = query) then ret tt else throw ErrHashConflict.

#[export] Instance postgres_persisted : PersistedStore PostgresStore := {
  pq_Get := PostgresStore_Get; pq_Put := PostgresStore_Put }.

(** ** cached_store.go *)

Definition DefaultTTL : duration := 24 * 3600 * Second.
Definition cacheKeyPrefix : string := "graphql:persisted:".

Section cached.
Context {S C : Type} `{!PersistedStore S} `{!CacheStore C}.

Record CachedStore := mkCached { cs_Inner : S; cs_Cache : option C; cs_TTL : duration; cs_calls : nat -> cache_call }.
Definition NewCachedStore (inner : S) (c : option C) (calls : nat -> cache_call) : CachedStore :=
  mkCached inner c DefaultTTL calls.

Definition lift {A} (m : action persisted_error S A) : action persisted_error CachedStore A := fun w =>
  let '(s, r) := m (cs_Inner w) in (mkCached s (cs_Cache w) (cs_TTL w) (cs_calls w), r).

(** A failure of the cache is a miss. *)
Definition cache_lookup (key : string) : action persisted_error CachedStore (option string) := fun w =>
  match cs_Cache w with
  | None => (w, Ok None)
  | Some c =>
      let call := cs_calls w 0%nat in
      let next c := mkCached (cs_Inner w) (Some c) (cs_TTL w) (fun n => cs_calls w (Datatypes.S n)) in
      match c_outcome call with
      | Works => let '(r, c') := Get (c_now call) key c in (next c', Ok (match r with Ok v => Some v | Err _ => None end))
      | Fails _ => (next c, Ok None)
      end
  end.
Definition cache_store (key v : string) : action persisted_error CachedStore unit := fun w =>
  match cs_Cache w with
  | None => (w, Ok tt)
  | Some c =>
      let call := cs_calls w 0%nat in
      let next c := mkCached (cs_Inner w) (Some c) (cs_TTL w) (fun n => cs_calls w (Datatypes.S n)) in
      match c_outcome call with
      | Works | Fails true => (next (Set_ (c_now call) key v (cs_TTL w) c), Ok tt)
      | Fails false => (next c, Ok tt)
      end
  end.

Definition CachedStore_Get (hash : string) : action persisted_error CachedStore string :=
  let! v := cache_lookup (cacheKeyPrefix +:+ hash) in
  match v with
  | Some v => ret v
  | None =>
      let! q := lift (pq_Get hash) in
      let! _ := cache_store (cacheKeyPrefix +:+ hash) q in
      ret q
  end.
Definition CachedStore_Put (hash query : string) (registeredBy : uuid) : action persisted_error CachedStore unit :=
  let! _ := lift (pq_Put hash query registeredBy) in
  cache_store (cacheKeyPrefix +:+ hash) query.
End cached.
Arguments CachedStore S C : clear implicits.

#[export] Instance cached_persisted {S C} `{!PersistedStore S} `{!CacheStore C} : PersistedStore (CachedStore S C) := {
  pq_Get := CachedStore_Get; pq_Put := CachedStore_Put }.

(** ** The stores keep the contract *)
Section views.
Context {W : Type} (inv : W -> Prop) (view : W -> string -> option string).

(** An action after which everything that resolved still does. *)
Definition keeps_view {A} (m : action persisted_error W A) : Prop := forall w, inv w ->
  inv (m w).1 /\ forall h q, view w h = Some q -> view (m w).1 h = Some q.

Lemma keeps_view_ret {A} (a : A) : keeps_view (ret a).
Proof. by intros w Hw. Qed.
Lemma keeps_view_throw {A} e : keeps_view (throw (A := A) e).
Proof. by intros w Hw. Qed.
Lemma keeps_view_bind {A B} (m : action persisted_error W A) (k : A -> action persisted_error W B) :
  keeps_view m -> (forall a, keeps_view (k a)) -> keeps_view (bind m k).
Proof.
  intros Hm Hk w Hw. destruct (Hm w Hw) as [Hi Hg]. unfold bind. destruct (m w) as [w1 [a|e]]; cbn in *; [|done].
  destruct (Hk a w1 Hi) as [Hi' Hg']. split; [done|]. intros h q Hq. by apply Hg', Hg.
Qed.
End views.

Section postgres_laws.
Definition authentic_row (x : string * string * uuid) : Prop := HashFor x.1.2 = x.1.1.
Definition authentic_rows (t : gmap string pq_row) : Prop := forall h r, t !! h = Some r -> HashFor (row_query r) = h.
Definition pg_inv (p : PostgresStore) : Prop :=
  authentic_rows (pg_rows p) /\ forall n, Forall authentic_row (others (pg_statements p n)).
Definition pg_resolves (p : PostgresStore) (h : string) : option string := row_query <$> pg_rows p !! h.

Definition extends (t t' : gmap string pq_row) : Prop := forall h r, t !! h = Some r -> t' !! h = Some r.

Lemma insert_row_extends h q by_ t : extends t (insert_row h q by_ t).1.
Proof.
  intros h' r Hr. unfold insert_row. destruct (t !! h) eqn:E; [done|]. cbn. by rewrite lookup_insert_ne by congruence.
Qed.
Lemma insert_row_authentic h q by_ t : HashFor q = h -> authentic_rows t -> authentic_rows (insert_row h q by_ t).1.
Proof.
  intros Hq Ht h' r. unfold insert_row. destruct (t !! h) eqn:E; [apply Ht|]. cbn. rewrite lookup_insert_Some.
  intros [[<- <-]|[_ Hr]]; [done|by apply Ht].
Qed.
Lemma insert_all_keeps l t : Forall authentic_row l -> authentic_rows t -> authentic_rows (insert_all l t) /\ extends t (insert_all l t).
Proof.
  intros Hl. revert t. unfold insert_all. induction Hl as [|[[h q] by_] l Hx _ IH]; intros t Ht; [split; [done|by intros h r]|]. cbn [fold_left].
  destruct (IH (insert_row h q by_ t).1) as [Ha He]; [by apply insert_row_authentic|]. split; [done|].
  intros h' r Hr. by apply He, insert_row_extends.
Qed.

Lemma execute_keeps {A} (f : gmap string pq_row -> gmap string pq_row * A) :
  (forall t, authentic_rows t -> authentic_rows (f t).1 /\ extends t (f t).1) -> keeps_view pg_inv pg_resolves (execute f).
Proof.
  intros Hf p [Ha Ho]. unfold execute, pg_inv, pg_resolves. destruct (insert_all_keeps (others (pg_statements p 0%nat)) (pg_rows p) (Ho 0%nat) Ha) as [Ha' He].
  set (t := insert_all _ _) in *. destruct (Hf t Ha') as [Hf1 Hf2].
  assert (Hfin : forall t', authentic_rows t' -> extends t t' -> (authentic_rows t' /\ forall n, Forall authentic_row (others (pg_statements p (S n)))) /\
    forall h q, row_query <$> pg_rows p !! h = Some q -> row_query <$> t' !! h = Some q).
  { intros t' H1 H2. split; [split; [done|intros n; apply Ho]|]. intros h q (r & Hr & ->)%fmap_Some. apply fmap_Some. exists r. split; [by apply H2, He|done]. }
  destruct (st_reply _); [destruct (f t) as [t' a]; by apply Hfin|by apply Hfin|apply Hfin; [done|by intros h r]].
Qed.

Lemma PostgresStore_Get_keeps hash : keeps_view pg_inv pg_resolves (PostgresStore_Get hash).
Proof.
  apply keeps_view_bind; [apply execute_keeps; intros t Ht; split; [done|by intros h r]|]. intros [r|]; [apply keeps_view_ret|apply keeps_view_throw].
Qed.
Lemma PostgresStore_Put_keeps q by_ : keeps_view pg_inv pg_resolves (PostgresStore_Put (HashFor q) q by_).
Proof.
  apply keeps_view_bind.
  - apply execute_keeps. intros t Ht. split; [by apply insert_row_authentic|apply insert_row_extends].
  - intros n. destruct (n =? 1); [apply keeps_view_ret|]. apply keeps_view_bind; [apply PostgresStore_Get_keeps|]. intros existing.
    case_bool_decide; [apply keeps_view_ret|apply keeps_view_throw].
Qed.

(** An answer is about the table as it is then. *)
Lemma execute_ok {A} (f : gmap string pq_row -> gmap string pq_row * A) p p' a : execute f p = (p', Ok a) ->
  exists t, f t = (pg_rows p', a).
Proof. unfold execute. destruct (st_reply _); [|done..]. destruct (f _) as [t' a'] eqn:E. intros [= <- <-]. by eexists. Qed.

Lemma PostgresStore_Get_ok hash p p' q : PostgresStore_Get hash p = (p', Ok q) -> pg_resolves p' hash = Some q.
Proof.
  unfold PostgresStore_Get. intros (p1 & row & [t Ht]%execute_ok & H)%bind_ok. injection Ht as -> <-.
  unfold pg_resolves. destruct (pg_rows p1 !! hash) as [r|] eqn:E; [|done]. injection H as <- <-. by rewrite E.
Qed.

#[export, refine] Instance postgres_persisted_laws : PersistedLaws PostgresStore := {
  resolves := pg_resolves; pq_inv := pg_inv }.
Proof.
  - intros s h q [Ha _] (r & Hr & ->)%fmap_Some. by apply Ha.
  - intros s h Hs. by apply PostgresStore_Get_keeps.
  - intros s q by_ Hs. by apply PostgresStore_Put_keeps.
  - intros s hash h q Hs. by apply PostgresStore_Get_keeps.
  - intros s q0 by_ h q Hs. by apply PostgresStore_Put_keeps.
  - intros s hash s' q _. apply PostgresStore_Get_ok.
  - intros s q by_ s' _. cbn. unfold PostgresStore_Put. intros (p1 & n & Hn & H)%bind_ok.
    apply execute_ok in Hn as [t Ht]. unfold insert_row in Ht. destruct (t !! HashFor q) eqn:E; injection Ht as Ht <-.
    + cbn [Z.eqb] in H. apply bind_ok in H as (p2 & ex & Hg & H). case_bool_decide; [|done]. injection H as <-. subst ex.
      by apply PostgresStore_Get_ok in Hg.
    + injection H as <-. unfold pg_resolves. by rewrite <- Ht, lookup_insert_eq.
  - intros s hash s' _. cbn. unfold PostgresStore_Get, bind, execute. destruct (st_reply _); [|done..]. unfold pg_resolves.
    destruct (_ !! hash) as [r|] eqn:E; [done|]. intros [= <-]. cbn. by rewrite E.
Defined.
End postgres_laws.

Section cached_laws.
Context {S C : Type} `{!PersistedStore S, !PersistedLaws S} `{!CacheStore C, !CacheLaws C}.
Notation W := (CachedStore S C).

(** From the next call on, what is cached under a hash is what it stands for. *)
Definition coherent (w : W) : Prop := forall c now h v, cs_Cache w = Some c -> c_now (cs_calls w 0%nat) <= now ->
  live now c (cacheKeyPrefix +:+ h) = Some v -> resolves (cs_Inner w) h = Some v.
Definition cached_inv (w : W) : Prop :=
  pq_inv (cs_Inner w) /\ (forall n, c_now (cs_calls w n) <= c_now (cs_calls w (Datatypes.S n))) /\ coherent w.
Definition cached_resolves (w : W) (h : string) : option string := resolves (cs_Inner w) h.

Lemma lift_keeps {A} (m : action persisted_error S A) : keeps_view pq_inv resolves m -> keeps_view cached_inv cached_resolves (lift m).
Proof.
  intros Hm w (Hi & Hc & Hco). destruct (Hm _ Hi) as [Hi' Hg]. unfold lift, cached_resolves in *.
  destruct (m (cs_Inner w)) as [s r]. cbn in *. split; [|done]. split_and!; [done..|].
  intros c now h v Hcache Hnow Hl. apply Hg. by eapply Hco.
Qed.

Lemma prefixed_inj h h' : cacheKeyPrefix +:+ h = cacheKeyPrefix +:+ h' -> h = h'.
Proof. apply (inj (String.append cacheKeyPrefix)). Qed.

Lemma cache_lookup_keeps key : keeps_view cached_inv cached_resolves (cache_lookup (S := S) (C := C) key).
Proof.
  intros w (Hi & Hc & Hco). unfold cache_lookup. destruct (cs_Cache w) as [c|] eqn:Ec; [|by split; [split_and!|]].
  destruct (c_outcome _).
  - destruct (Get _ key c) as [r c'] eqn:Eg. cbn. split; [|done]. split_and!; [done|intros n; apply Hc|].
    intros c0 now h v [= <-] Hnow Hl. cbn in Hnow. apply (Hco c now); [done|specialize (Hc 0%nat); lia|].
    rewrite <- Hl. pose proof (Get_frame (c_now (cs_calls w 0%nat)) key c now (cacheKeyPrefix +:+ h)) as Hf. rewrite Eg in Hf.
    symmetry. apply Hf. specialize (Hc 0%nat). lia.
  - cbn. split; [|done]. split_and!; [done|intros n; apply Hc|].
    intros c0 now h v [= <-] Hnow Hl. cbn in Hnow. apply (Hco c now); [done|specialize (Hc 0%nat); lia|done].
Qed.

Lemma cache_lookup_hit h (w w' : W) v : cached_inv w -> cache_lookup (cacheKeyPrefix +:+ h) w = (w', Ok (Some v)) ->
  cs_Inner w' = cs_Inner w /\ resolves (cs_Inner w) h = Some v.
Proof.
  intros (_ & _ & Hco). unfold cache_lookup. destruct (cs_Cache w) as [c|] eqn:Ec; [|done]. destruct (c_outcome _); [|done].
  pose proof (Get_spec (c_now (cs_calls w 0%nat)) (cacheKeyPrefix +:+ h) c) as Hg. destruct (Get _ _ c) as [r c']. cbn in Hg. subst r.
  destruct (live _ c _) eqn:El; [|done]. intros [= <- ->]. split; [done|]. by eapply Hco.
Qed.

(** What is stored is what the hash stands for. *)
Lemma cache_store_keeps h q (w : W) : cached_inv w -> resolves (cs_Inner w) h = Some q ->
  cached_inv (cache_store (cacheKeyPrefix +:+ h) q w).1 /\ cs_Inner (cache_store (cacheKeyPrefix +:+ h) q w).1 = cs_Inner w.
Proof.
  intros (Hi & Hc & Hco) Hq. unfold cache_store. destruct (cs_Cache w) as [c|] eqn:Ec; [|by split; [split_and!|]].
  assert (Hset : cached_inv (mkCached (cs_Inner w) (Some (Set_ (c_now (cs_calls w 0%nat)) (cacheKeyPrefix +:+ h) q (cs_TTL w) c)) (cs_TTL w)
    (fun n => cs_calls w (Datatypes.S n)))).
  { split_and!; [done|intros n; apply Hc|]. intros c0 now h' v [= <-] Hnow Hl. cbn in Hnow, Hl |- *. specialize (Hc 0%nat).
    rewrite Set_spec in Hl by lia. case_bool_decide as Hh; [|by apply (Hco c now); [done|lia|]].
    apply prefixed_inj in Hh as ->. destruct (After _ _); [done|]. congruence. }
  assert (Hsame : cached_inv (mkCached (cs_Inner w) (Some c) (cs_TTL w) (fun n => cs_calls w (Datatypes.S n)))).
  { split_and!; [done|intros n; apply Hc|]. intros c0 now h' v [= <-] Hnow Hl. cbn in Hnow. apply (Hco c now); [done|specialize (Hc 0%nat); lia|done]. }
  destruct (c_outcome _) as [|[]]; by split.
Qed.

Lemma cache_store_ok key q (w : W) : (cache_store key q w).2 = Ok tt.
Proof. unfold cache_store. destruct (cs_Cache w); [|done]. by destruct (c_outcome _) as [|[]]. Qed.

Lemma inner_Get_keeps hash : keeps_view pq_inv resolves (pq_Get (S := S) hash).
Proof. intros s Hs. split; [by apply pq_Get_inv|]. intros h q. by apply pq_Get_grows. Qed.
Lemma inner_Put_keeps q by_ : keeps_view pq_inv resolves (pq_Put (S := S) (HashFor q) q by_).
Proof. intros s Hs. split; [by apply pq_Put_inv|]. intros h q'. by apply pq_Put_grows. Qed.

(** One lookup, in one statement: what it keeps, and what its answer says. *)
Lemma CachedStore_Get_spec hash (w : W) : cached_inv w ->
  let '(w', r) := CachedStore_Get hash w in
  cached_inv w' /\ (forall h q, cached_resolves w h = Some q -> cached_resolves w' h = Some q) /\
  (forall q, r = Ok q -> cached_resolves w' hash = Some q) /\ (r = Err ErrNotFound -> cached_resolves w' hash = None).
Proof.
  intros Hw. destruct (cache_lookup_keeps (cacheKeyPrefix +:+ hash) w Hw) as [H1 G1]. unfold CachedStore_Get, bind.
  destruct (cache_lookup _ w) as [w1 [[v|]|e]] eqn:E1; cbn [fst] in H1, G1.
  - destruct (cache_lookup_hit hash w w1 v Hw E1) as [Hin Hv]. cbn. split_and!; [done..| |done].
    intros q [= <-]. unfold cached_resolves. by rewrite Hin.
  - destruct (lift_keeps _ (inner_Get_keeps hash) w1 H1) as [H2 G2]. destruct (lift (pq_Get hash) w1) as [w2 [q|e]] eqn:E2; cbn [fst] in H2, G2.
    + assert (Hq : resolves (cs_Inner w2) hash = Some q).
      { unfold lift in E2. destruct (pq_Get hash (cs_Inner w1)) as [s r] eqn:Eg. injection E2 as <- ->. by apply (pq_Get_ok (cs_Inner w1)); [apply H1|]. }
      destruct (cache_store_keeps hash q w2 H2 Hq) as [H3 Hin]. pose proof (cache_store_ok (cacheKeyPrefix +:+ hash) q w2) as Hok.
      destruct (cache_store _ q w2) as [w3 r3]. cbn in H3, Hin, Hok. subst r3. cbn. unfold cached_resolves in *. rewrite Hin.
      split_and!; [done|intros h q' Hh; by apply G2, G1|by intros q' [= <-]|done].
    + split_and!; [done|intros h q' Hh; by apply G2, G1|done|]. intros [= ->]. unfold lift in E2.
      destruct (pq_Get hash (cs_Inner w1)) as [s r] eqn:Eg. injection E2 as <- ->. by apply (pq_Get_missing (cs_Inner w1)); [apply H1|].
  - unfold cache_lookup in E1. destruct (cs_Cache w); [|done]. destruct (c_outcome _); [|done]. by destruct (Get _ _ _).
Qed.

Lemma CachedStore_Put_spec q by_ (w : W) : cached_inv w ->
  let '(w', r) := CachedStore_Put (HashFor q) q by_ w in
  cached_inv w' /\ (forall h q', cached_resolves w h = Some q' -> cached_resolves w' h = Some q') /\
  (r = Ok tt -> cached_resolves w' (HashFor q) = Some q).
Proof.
  intros Hw. destruct (lift_keeps _ (inner_Put_keeps q by_) w Hw) as [H1 G1]. unfold CachedStore_Put, bind.
  destruct (lift _ w) as [w1 [[]|e]] eqn:E1; cbn [fst] in H1, G1; [|done].
  assert (Hq : resolves (cs_Inner w1) (HashFor q) = Some q).
  { unfold lift in E1. destruct (pq_Put _ _ _ (cs_Inner w)) as [s r] eqn:Eg. injection E1 as <- ->. by apply (pq_Put_ok (cs_Inner w) q by_); [apply Hw|]. }
  destruct (cache_store_keeps (HashFor q) q w1 H1 Hq) as [H2 Hin]. destruct (cache_store _ q w1) as [w2 r]. cbn in *.
  unfold cached_resolves in *. rewrite Hin. by split_and!.
Qed.

#[export, refine] Instance cached_persisted_laws : PersistedLaws W := {
  resolves := cached_resolves; pq_inv := cached_inv }.
Proof.
  all: cbn [pq_Get pq_Put cached_persisted].
  - intros w h q (Hi & _). by apply pq_authentic.
  - intros w h Hw. pose proof (CachedStore_Get_spec h w Hw) as H. destruct (CachedStore_Get h w). apply H.
  - intros w q by_ Hw. pose proof (CachedStore_Put_spec q by_ w Hw) as H. destruct (CachedStore_Put _ _ _ w). apply H.
  - intros w hash h q Hw. pose proof (CachedStore_Get_spec hash w Hw) as H. destruct (CachedStore_Get hash w). apply H.
  - intros w q0 by_ h q Hw. pose proof (CachedStore_Put_spec q0 by_ w Hw) as H. destruct (CachedStore_Put _ _ _ w). apply H.
  - intros w hash w' q Hw E. pose proof (CachedStore_Get_spec hash w Hw) as H. rewrite E in H. by apply H.
  - intros w q by_ w' Hw E. pose proof (CachedStore_Put_spec q by_ w Hw) as H. rewrite E in H. by apply H.
  - intros w hash w' Hw E. pose proof (CachedStore_Get_spec hash w Hw) as H. rewrite E in H. by apply H.
Defined.
End cached_laws.

(** ** Clients *)

Inductive client_call := Resolve (hash : string) | Register (query : string) (by_ : uuid).

Section traffic.
Context {S : Type} `{!PersistedStore S, !PersistedLaws S}.

(** A registration files the text under its own hash, as the router does. *)
Definition run_client (c : client_call) (s : S) : S * (client_call * result persisted_error string) :=
  match c with
  | Resolve hash => let '(s', r) := pq_Get hash s in (s', (c, r))
  | Register query by_ => let '(s', r) := pq_Put (HashFor query) query by_ s in
      (s', (c, match r with Ok _ => Ok query | Err e => Err e end))
  end.
Fixpoint serve (cs : list client_call) (s : S) : S * list (client_call * result persisted_error string) :=
  match cs with
  | [] => (s, [])
  | c :: cs' => let '(s1, a) := run_client c s in let '(s2, l) := serve cs' s1 in (s2, a :: l)
  end.

(** An answer that tells what a hash stands for. *)
Definition tells (a : client_call * result persisted_error string) (hash q : string) : Prop :=
  a.2 = Ok q /\ hash = match a.1 with Resolve h => h | Register query _ => HashFor query end.

Lemma run_client_spec c (s s1 : S) a : pq_inv s -> run_client c s = (s1, a) ->
  a.1 = c /\ pq_inv s1 /\ (forall h q, resolves s h = Some q -> resolves s1 h = Some q) /\
  (forall h q, tells a h q -> resolves s1 h = Some q) /\
  (forall h, a = (Resolve h, Err ErrNotFound) -> resolves s1 h = None).
Proof.
  intros Hs. destruct c as [hash|query by_]; cbn.
  - destruct (pq_Get hash s) as [s' r] eqn:E. intros [= <- <-].
    pose proof (pq_Get_inv s hash Hs) as Hi. pose proof (fun h q => pq_Get_grows s hash h q Hs) as Hg. rewrite E in Hi, Hg.
    split_and!; [done..| |].
    + intros h q [[= ->] ->]. by apply (pq_Get_ok s).
    + intros h [= -> ->]. by apply (pq_Get_missing s).
  - destruct (pq_Put _ _ _ s) as [s' r] eqn:E. intros [= <- <-].
    pose proof (pq_Put_inv s query by_ Hs) as Hi. pose proof (fun h q => pq_Put_grows s query by_ h q Hs) as Hg. rewrite E in Hi, Hg.
    split_and!; [done..| |done]. intros h q [Hq ->]. cbn in Hq. destruct r as [[]|e]; [|done]. injection Hq as ->.
    by apply (pq_Put_ok s q by_).
Qed.

Lemma serve_spec cs (s : S) : pq_inv s ->
  let '(s', l) := serve cs s in
  pq_inv s' /\ (forall h q, resolves s h = Some q -> resolves s' h = Some q) /\
  (forall i a h q, l !! i = Some a -> tells a h q -> resolves s' h = Some q) /\
  (forall i j a b h q, l !! i = Some a -> l !! j = Some b -> (i < j)%nat -> tells a h q -> b <> (Resolve h, Err ErrNotFound)) /\
  (forall j h q, resolves s h = Some q -> l !! j <> Some (Resolve h, Err ErrNotFound)).
Proof.
  revert s. induction cs as [|c cs IH]; intros s Hs; cbn [serve]; [by split_and!|].
  destruct (run_client c s) as [s1 a] eqn:E1. destruct (run_client_spec c s s1 a Hs E1) as (_ & H1 & G1 & T1 & N1).
  specialize (IH s1 H1). destruct (serve cs s1) as [s2 l]. destruct IH as (H2 & G2 & T2 & L2 & N2). split_and!; [done|..].
  - intros h q Hq. by apply G2, G1.
  - intros [|i] b h q; cbn; [intros [= <-] Ht; by apply G2, T1|apply T2].
  - intros i [|j] x b h q Hi Hj Hij Ht; [lia|]. cbn in Hj. destruct i as [|i]; cbn in Hi.
    + injection Hi as <-. intros ->. by apply (N2 j h q); [apply T1|].
    + apply (L2 i j x b h q); [done..|lia|done].
  - intros [|j] h q Hq; cbn.
    + intros [= ->]. specialize (N1 h eq_refl). specialize (G1 h q Hq). congruence.
    + apply (N2 j h q). by apply G1.
Qed.
End traffic.

(** What a persisted query's hash stands for never changes: whatever is
    registered and resolved by whomever, with statements and cache calls that
    fail or whose answers are lost, all answers about a hash are the same text,
    which has that hash, and once a text has been registered or resolved its
    hash is never reported missing. *)
Theorem persisted_text_never_changes {S} `{!PersistedStore S} `{!PersistedLaws S} cs (s : S) i j a b h q1 q2 :
  pq_inv s -> (serve cs s).2 !! i = Some a -> (serve cs s).2 !! j = Some b -> tells a h q1 ->
  HashFor q1 = h /\ (tells b h q2 -> q2 = q1) /\ ((i < j)%nat -> b <> (Resolve h, Err ErrNotFound)).
Proof.
  intros Hs. pose proof (serve_spec cs s Hs) as H. destruct (serve cs s) as [s' l]. destruct H as (Hi & _ & T & L & _). cbn [snd].
  intros Ha Hb Ht. pose proof (T i a h q1 Ha Ht) as Hq. split_and!.
  - by apply (pq_authentic s').
  - intros Ht2. pose proof (T j b h q2 Hb Ht2). congruence.
  - intros Hij. by apply (L i j a b h q1).
Qed.

(** ** A sample *)

Definition sample_query : string := "{ agent(id: 7) { id } }".
Definition sample_persisted : CachedStore PostgresStore MemoryStore :=
  NewCachedStore (mkPostgres ∅ (fun n => mkStatement [] (if (n =? 1)%nat then AnswerLost else Answered))) (Some NewMemoryStore)
    (fun n => mkCacheCall (Z.of_nat n) (if (n =? 0)%nat then Fails true else Works)).
Definition sample_traffic : list client_call :=
  [Resolve (HashFor sample_query); Register sample_query 1; Register sample_query 2; Resolve (HashFor sample_query)].

Example sample_answers : ((serve sample_traffic sample_persisted).2).*2 =
  [Err ErrNotFound; Err ErrBackend; Ok sample_query; Ok sample_query].
Proof. vm_compute. reflexivity. Qed.

Lemma sample_inv : pq_inv sample_persisted.
Proof.
  split_and!; cbn.
  - split; [by intros h r|]. intros n. constructor.
  - intros n. lia.
  - by intros c now h v [= <-] _.
Qed.

Lemma persisted_text_never_changes_witness :
  let b := (Resolve (HashFor sample_query), Ok sample_query) in
  HashFor sample_query = HashFor sample_query /\ (tells b (HashFor sample_query) sample_query -> sample_query = sample_query) /\
  ((2 < 3)%nat -> b <> (Resolve (HashFor sample_query), Err ErrNotFound)).
Proof.
  apply (persisted_text_never_changes sample_traffic sample_persisted 2 3 (Register sample_query 2, Ok sample_query)
    (Resolve (HashFor sample_query), Ok sample_query)); [exact sample_inv|vm_compute; reflexivity..|by split].
Defined.

(** A hash whose row has another text is refused. *)
Example conflicting_registration :
  let p := mkPostgres ∅ (fun _ => mkStatement [] Answered) in
  (PostgresStore_Put (HashFor sample_query) "{ a }" 1 (PostgresStore_Put (HashFor sample_query) sample_query 1 p).1).2 = Err ErrHashConflict.
Proof. vm_compute. reflexivity. Qed.
