(* ===== verification/FloatText.v ===== *)
(** * Decimal texts as [float64]

    [strconv.ParseFloat(s, 64)] on the number literals of JSON: the binary64
    nearest to the decimal, ties to even, or a range error. *)

From S2P Require Import Prelude GoStd Floats.

(** Sign, integer digits, fraction digits, exponent. *)
Fixpoint take_digits (l : list ascii) : list ascii * list ascii :=
  match l with
  | c :: l' => if is_digit c then let '(ds, r) := take_digits l' in (c :: ds, r) else ([], l)
  | [] => ([], [])
  end.
Definition digits_value (l : list ascii) : Z := fold_left (fun n c => n * 10 + (code c - 48)) l 0.

Definition exponent_value (l : list ascii) : Z :=
  match l with
  | _ :: s :: ds => if code s =? 45 then - digits_value ds else if code s =? 43 then digits_value ds else digits_value (s :: ds)
  | _ => 0
  end.

(** [m * 10^e10], rounded; [None] when it does not fit.  The bounds on the
    exponent keep the integers small; a decimal outside them is infinite or
    zero whatever its digits. *)
Definition decimal (neg : bool) (m e10 ndigits : Z) : option float :=
  match m with
  | Zpos p =>
      if 400 <? e10 + ndigits then None
      else if e10 + ndigits <? -400 then Some (S754_zero neg)
      else
        let x :=
          if 0 <=? e10 then binary_normalize 53 1024 (if neg then - (m * 10 ^ e10) else m * 10 ^ e10) 0 neg
          else
            let '(mz, ez, lz) := SFdiv_core_binary 53 1024 m 0 (10 ^ (- e10)) 0 in
            binary_round_aux 53 1024 neg mz ez lz in
        match x with S754_infinity _ | S754_nan => None | _ => Some x end
  | _ => Some (S754_zero neg)
  end.

Definition ParseFloat (s : string) : option float :=
  let '(neg, l) := match s2l s with c :: l' => if code c =? 45 then (true, l') else (false, c :: l') | [] => (false, []) end in
  let '(int_digits, l) := take_digits l in
  let '(frac_digits, l) := match l with c :: l' => if code c =? 46 then take_digits l' else ([], l) | [] => ([], []) end in
  let e10 := exponent_value l - Z.of_nat (length frac_digits) in
  decimal neg (digits_value (int_digits ++ frac_digits)) e10 (Z.of_nat (length (int_digits ++ frac_digits))).

Example ParseFloat_samples :
  map ParseFloat ["0.1"; "1e3"; "-2.5E-1"; "1e999"; "1e-999"; "-0"; "9007199254740993"; "1.7976931348623157e308"; "4.9e-324"] =
  [Some (lit 1 10); Some (f_of_int 1000); Some (lit (-1) 4); None; Some f0; Some (S754_zero true);
   Some (f_of_int 9007199254740992); Some (S754_finite false 9007199254740991 971); Some (S754_finite false 1 (-1074))].
Proof. vm_compute. reflexivity. Qed.
