(* ===== verification/GraphqlExec.v ===== *)
(** * Execution of GraphQL operations

    [plane/application/graphql/resolvers]: argument values, the executor and
    its resolvers over the metadata store and the identity service, and the
    introspection fields.  A Go map in an answer is a list of entries with
    distinct keys, in the order they were made. *)

From S2P Require Import Prelude GoStd GoFmt Floats FloatText Json JsonDecode TimeText Uuid Outbox Actions MetadataStore Identity.
From S2P Require Import GraphqlParser.
From S2P Require Repositories RestApi.
#[local] Existing Instance RestApi.PrincipalKind_eq_dec.

#[local] Arguments uuid_String : simpl never.
#[local] Arguments Unmarshal : simpl never.
#[local] Arguments RFC3339Nano : simpl never.

(** ** Answers *)

Inductive out :=
| ONull
| OStr (s : string)
| OInt (n : Z)
| OFloat (x : float)
| OBool (b : bool)
| OList (l : list out)
| OMap (m : list (string * out)).

(** [m[k] = v]. *)
Fixpoint put {A} (k : string) (v : A) (m : list (string * A)) : list (string * A) :=
  match m with
  | [] => [(k, v)]
  | (k', v') :: m' => if bool_decide (k' = k) then (k, v) :: m' else (k', v') :: put k v m'
  end.
Definition get {A} (k : string) (m : list (string * A)) : option A :=
  snd <$> List.find (fun kv => bool_decide (kv.1 = k)) m.

(** ** Fields *)

Record field := mkField {
  f_Name : string; f_Alias : string; f_Args : gmap string ArgValue; f_Directives : list string; f_Sels : list Selection }.
Definition as_field (s : Selection) : option field :=
  match s with SelField name alias args dirs sels => Some (mkField name alias args dirs sels) | _ => None end.
Definition keyOf (f : field) : string := if bool_decide (f_Alias f = "") then f_Name f else f_Alias f.

(** The fields a projection looks at: the selections that are fields. *)
Definition subfields (f : field) : list field := omap as_field (f_Sels f).

Definition expandFragment (doc : Document) (s : Selection) : list field :=
  omap as_field
    (match s with
     | SelInlineFragment _ sels => sels
     | SelFragmentSpread name => from_option frag_Sels [] (doc_Fragments doc !! name)
     | SelField _ _ _ _ _ => []
     end).

(** A projection goes through the fields and fills in what it knows. *)
Definition project (known : string -> option out) (f : field) : out :=
  OMap (fold_left (fun m sub => match known (f_Name sub) with Some v => put (f_Name sub) v m | None => m end) (subfields f) []).

Definition emptyConnection : out :=
  OMap [("nodes", OList []); ("totalCount", OInt 0); ("pageInfo", OMap [("endCursor", ONull); ("hasNextPage", OBool false)])].
Definition OTime (t : time) : out := OStr (RFC3339Nano t).
Definition stringSliceToAny (l : list string) : out := OList (map OStr l).

Definition projectUser (u : HumanUser) : field -> out := project (fun name =>
  if bool_decide (name = "id") then Some (OStr (uuid_String (u_ID u)))
  else if bool_decide (name = "login") then Some (OStr (u_Email u))
  else if bool_decide (name = "name") then Some (OStr (u_Email u))
  else if bool_decide (name = "email") then Some (OStr (u_Email u))
  else if bool_decide (name = "createdAt") then Some (OTime (u_CreatedAt u))
  else if bool_decide (name = "__typename") then Some (OStr "User")
  else None).
Definition projectAgent (a : AgentIdentity) : field -> out := project (fun name =>
  if bool_decide (name = "id") then Some (OStr (uuid_String (a_ID a)))
  else if bool_decide (name = "displayName") then Some (OStr (a_DisplayName a))
  else if bool_decide (name = "parentUserId") then Some (OStr (uuid_String (a_ParentUserID a)))
  else if bool_decide (name = "permissionScope") then Some (stringSliceToAny (a_PermissionScope a))
  else if bool_decide (name = "reputationScore") then Some (OFloat (a_ReputationScore a))
  else if bool_decide (name = "createdAt") then Some (OTime (a_CreatedAt a))
  else if bool_decide (name = "__typename") then Some (OStr "Agent")
  else None).
Definition projectRepository (r : Repository) : field -> out := project (fun name =>
  if bool_decide (name = "id") then Some (OStr (uuid_String (r_ID r)))
  else if bool_decide (name = "name") then Some (OStr (r_Name r))
  else if bool_decide (name = "nameWithOwner") then Some (OStr (uuid_String (r_OrgID r) +:+ "/" +:+ r_Slug r))
  else if bool_decide (name = "visibility") then Some (OStr (r_Visibility r))
  else if bool_decide (name = "createdAt") then Some (OTime (r_CreatedAt r))
  else if bool_decide (name = "owner") then
    Some (OMap [("id", OStr (uuid_String (r_OwnerID r))); ("login", OStr (uuid_String (r_OwnerID r)))])
  else if bool_decide (name = "defaultBranch") then
    Some (if bool_decide (r_DefaultBranch r = "") then ONull
          else OMap [("name", OStr (r_DefaultBranch r)); ("prefix", OStr "refs/heads/")])
  else if bool_decide (name = "pullRequests") then Some emptyConnection
  else if bool_decide (name = "issues") then Some emptyConnection
  else if bool_decide (name = "__typename") then Some (OStr "Repository")
  else None).

(** ** introspection.go *)

Definition queryFields : list string := ["repository"; "user"; "agent"; "pullRequest"; "organization"].
Definition mutationFields : list string := ["createPullRequest"; "createAgent"; "updateAgentPermissions"].
Definition allTypes : list string :=
  ["Query"; "Mutation"; "Repository"; "User"; "Agent"; "PullRequest"; "Organization"; "Issue"; "PullRequestConnection";
   "IssueConnection"; "UserConnection"; "PageInfo"; "Ref"; "PRState"].
Definition named (l : list string) : out := OList (map (fun n => OMap [("name", OStr n)]) l).

Definition projectTypeIntrospection (typeName : string) (fields : list string) : field -> out := project (fun name =>
  if bool_decide (name = "name") then Some (OStr typeName)
  else if bool_decide (name = "kind") then Some (OStr "OBJECT")
  else if bool_decide (name = "fields") then Some (named fields)
  else None).
(** Here the value depends on the subfield's own selections. *)
Definition resolveSchemaIntrospection (f : field) : out :=
  OMap (fold_left (fun m sub =>
    if bool_decide (f_Name sub = "queryType") then put "queryType" (projectTypeIntrospection "Query" queryFields sub) m
    else if bool_decide (f_Name sub = "mutationType") then put "mutationType" (projectTypeIntrospection "Mutation" mutationFields sub) m
    else if bool_decide (f_Name sub = "types") then put "types" (named allTypes) m
    else m) (subfields f) []).
Definition resolveTypeIntrospection (f : field) : out :=
  match f_Args f !! "name" with
  | Some v => if bool_decide (av_Raw v = "") then ONull else OMap [("name", OStr (av_Raw v))]
  | None => ONull
  end.

(** ** Object literals *)

Definition isLetter (c : ascii) : bool :=
  ((97 <=? code c) && (code c <=? 122)) || ((65 <=? code c) && (code c <=? 90)) || (code c =? 95).
Definition is_number_char (c : ascii) : bool := is_digit c || (code c =? 45) || (code c =? 46).
Definition is_ident_char (c : ascii) : bool := isLetter c || is_digit c.

Inductive conversion := Converted (l : list ascii) | Unexpected (c : ascii) | OutOfRange.
Definition emit (l : list ascii) (r : conversion) : conversion := match r with Converted l' => Converted (l ++ l') | _ => r end.

(** How far a string goes from after its quote; a backslash skips two bytes
    even at the end, past the slice's bounds. *)
Fixpoint string_end (l : list ascii) : option nat :=
  match l with
  | [] => Some 0%nat
  | c :: l' =>
      if bool_decide (c = "\"%char) then match l' with [] => None | _ :: l'' => (fun n => S (S n)) <$> string_end l'' end
      else if bool_decide (c = dquote) then Some 1%nat
      else S <$> string_end l'
  end.

Definition is_blank (c : ascii) : bool := (code c =? 32) || (code c =? 9).
Definition is_space4 (c : ascii) : bool := is_blank c || (code c =? 10) || (code c =? 13).
Definition is_punct (c : ascii) : bool := existsb (fun d => bool_decide (c = d)) ["{"; "}"; "["; "]"; ":"]%char.

Fixpoint to_json (fuel : nat) (l : list ascii) : conversion :=
  match fuel, l with
  | S fuel', c :: l' =>
      if is_space4 c then emit [" "%char] (to_json fuel' l')
      else if bool_decide (c = ","%char) || is_punct c then emit [c] (to_json fuel' l')
      else if bool_decide (c = dquote) then
        match string_end l' with
        | None => OutOfRange
        | Some n => emit (c :: take n l') (to_json fuel' (drop n l'))
        end
      else if is_number_char c then
        let n := span_length is_number_char l in emit (take n l) (to_json fuel' (drop n l))
      else if isLetter c then
        let n := span_length is_ident_char l in
        let ident := take n l in
        let rest := drop n l in
        let is_key := match drop (span_length is_blank rest) rest with d :: _ => bool_decide (d = ":"%char) | [] => false end in
        let quoted := dquote :: ident ++ [dquote] in
        emit (if is_key then quoted else if bool_decide (l2s ident ∈ ["true"; "false"; "null"]) then ident else quoted)
          (to_json fuel' rest)
      else Unexpected c
  | _, _ => Converted []
  end.
Definition graphqlObjectToJSON (s : string) : conversion := to_json (length (s2l s)) (s2l s).

(** ** Decoding into [any]

    A number becomes a [float64], or nothing when it does not fit; of the
    members of an object the last with a key counts. *)
Fixpoint any_of (v : jval) : jval * bool :=
  match v with
  | VNum s => match ParseFloat s with Some _ => (v, true) | None => (VNull, false) end
  | VArr l =>
      let fix go l := match l with [] => ([], true) | x :: l' => let '(y, b) := any_of x in let '(r, b') := go l' in (y :: r, b && b') end in
      let '(r, b) := go l in (VArr r, b)
  | VObj ms =>
      let fix go ms := match ms with
                       | [] => ([], true)
                       | (k, x) :: ms' => let '(y, b) := any_of x in let '(r, b') := go ms' in ((k, y) :: r, b && b')
                       end in
      let '(r, b) := go ms in (VObj r, b)
  | _ => (v, true)
  end.

(** [map[string]any] from a text; [None] is an error, [null] the empty map. *)
Definition any_map (v : jval) : option (list (string * jval)) :=
  match v with
  | VNull => Some []
  | VObj _ => match any_of v with (VObj ms, true) => Some ms | _ => None end
  | _ => None
  end.
Definition member (key : string) (ms : list (string * jval)) : option jval :=
  last (omap (fun kv => if bool_decide (kv.1 = key) then Some kv.2 else None) ms).
Definition asString (v : option jval) : string := match v with Some (VStr s) => s | _ => "" end.
Definition asStrings (v : option jval) : list string :=
  match v with Some (VArr l) => omap (fun x => match x with VStr s => Some s | _ => None end) l | _ => [] end.

(** ** Arguments *)
Section arguments.
Context (vars : gmap string jval).

(** A reference to a variable, without its dollar. *)
Definition variable (raw : string) : option string :=
  match s2l raw with c :: (_ :: _) as name => if bool_decide (c = "$"%char) then Some (l2s name) else None | _ => None end.
Definition is_quoted (raw : string) : bool :=
  match s2l raw with c :: (_ :: _) as r => bool_decide (c = dquote) && bool_decide (last r = Some dquote) | _ => false end.

Definition argString (args : gmap string ArgValue) (name : string) : option string :=
  match args !! name with
  | None => None
  | Some v =>
      match variable (av_Raw v) with
      | Some x => match vars !! x with Some (VStr s) => Some s | _ => None end
      | None =>
          if is_quoted (av_Raw v) then match Unmarshal (av_Raw v) with Some (VStr s) => Some s | _ => Some (av_Raw v) end
          else Some (av_Raw v)
      end
  end.

Inductive input := Input (ms : list (string * jval)) | NoInput | InputPanic.
Definition argInputObject (args : gmap string ArgValue) (name : string) : input :=
  match args !! name with
  | None => NoInput
  | Some v =>
      match variable (av_Raw v) with
      | Some x =>
          match vars !! x with
          | None => NoInput
          | Some (VObj ms) => Input ms
          | Some got => from_option Input NoInput (any_map got)
          end
      | None =>
          match graphqlObjectToJSON (av_Raw v) with
          | OutOfRange => InputPanic
          | Unexpected _ => NoInput
          | Converted l => match Unmarshal (l2s l) with Some j => from_option Input NoInput (any_map j) | None => NoInput end
          end
      end
  end.
End arguments.

(** ** The world of an operation *)

Inductive pool := Reader | Primary.
#[export] Instance pool_eq_dec : EqDecision pool.
Proof. solve_decision. Defined.

(** [middleware.Principal]. *)
Record GPrincipal := mkGPrincipal { gp_Kind : RestApi.PrincipalKind; gp_ID : uuid; gp_ParentUserID : uuid }.

Record CreatePullRequestArgs := mkPRArgs {
  pr_RepositoryID : uuid; pr_BaseRef : string; pr_HeadRef : string; pr_Title : string; pr_Body : string; pr_ActorID : uuid }.
Record PullRequestModel := mkPR { pm_ID : uuid; pm_Number : Z; pm_Title : string; pm_State : string; pm_AuthorID : uuid; pm_CreatedAt : time }.

Definition ErrPullRequestsServiceUnavailable := errors_New "graphql: pullrequests.Service not yet wired".
Definition ErrSVIDReVerifyFailed := errors_New "graphql: SVID re-verify failed".

(** What a root field meets: what its read sees in each pool, the verdict of
    the re-verification, and the surroundings of the identity call. *)
Record field_env (P : Type) := mkFieldEnv {
  fe_reads : pool -> Store P; fe_svid_ok : bool;
  fe_cancelled : nat -> option error; fe_attempts : nat -> attempt P; fe_uuid : uuid; fe_t1 : time; fe_t2 : time }.
Arguments mkFieldEnv {P}. Arguments fe_reads {P}. Arguments fe_svid_ok {P}. Arguments fe_cancelled {P}.
Arguments fe_attempts {P}. Arguments fe_uuid {P}. Arguments fe_t1 {P}. Arguments fe_t2 {P}.

Section resolvers.
Context (Parse : string -> option uuid) {P R : Type} {MR : MapRange} (pay : identity_payload -> P).

(** [resolvers.Deps]: [PullRequests] may be nil, and so may [SVID]. *)
Record Deps := mkDeps { PullRequests : option (CreatePullRequestArgs -> R -> R * result error PullRequestModel); SVID : bool }.
Record gworld := mkGWorld { gw_store : Store P; gw_prs : R }.

Context (d : Deps) (vars : gmap string jval) (mds : pool) (p : GPrincipal).
Notation act := (action error gworld out).

(** A call to the identity service, and one to the pull request service. *)
Definition on_identity {A} (m : action error (Store P) A) : action error gworld A := fun w =>
  let '(s, r) := m (gw_store w) in (mkGWorld s (gw_prs w), r).
Definition on_prs {A} (m : R -> R * result error A) : action error gworld A := fun w =>
  let '(s, r) := m (gw_prs w) in (mkGWorld (gw_store w) s, r).
Definition found {A} (o : option A) (e : error) : action error gworld A := match o with Some a => ret a | None => throw e end.

(** A panic ends the request: the error of the runtime stands for it. *)
Definition Panic := errors_New "runtime error: slice bounds out of range".
Definition input_of (f : field) : action error gworld (list (string * jval)) :=
  match argInputObject vars (f_Args f) "input" with
  | Input ms => ret ms
  | NoInput => throw (errors_New "invalid input")
  | InputPanic => throw Panic
  end.

(** *** query_root.go *)

Definition lookupUserByLogin (e : field_env P) (login : string) : option HumanUser :=
  match Parse login with
  | Some u => GetUserByID u (fe_reads e mds)
  | None => GetUserByEmail login (fe_reads e mds)
  end.
Definition resolveUser (e : field_env P) (login : string) (f : field) : act :=
  let! _ := require (negb (bool_decide (login = ""))) (errors_New "login is required") in
  let! user := found (lookupUserByLogin e login) ErrUserNotFound in
  ret (projectUser user f).
Definition resolveAgent (e : field_env P) (idArg : string) (f : field) : act :=
  let! agentID := found (Parse idArg) (errors_New "invalid agent id") in
  let! agent := found (GetAgentByID agentID (fe_reads e mds)) ErrAgentNotFound in
  ret (projectAgent agent f).
Definition resolveRepository (e : field_env P) (owner name : string) (f : field) : act :=
  let! _ := require (negb (bool_decide (owner = "") || bool_decide (name = ""))) (errors_New "owner and name are required") in
  let! repo := found (GetBySlug name (fe_reads e mds)) Repositories.ErrRepositoryNotFound in
  ret (projectRepository repo f).
Definition resolveOrganization (login : string) : act :=
  let! _ := require (negb (bool_decide (login = ""))) (errors_New "login is required") in
  ret (OMap [("id", OStr login); ("login", OStr login); ("members", emptyConnection)]).
Definition resolvePullRequest : act := throw ErrPullRequestsServiceUnavailable.

Definition resolveQueryRoot (e : field_env P) (f : field) : act :=
  let arg name := default "" (argString vars (f_Args f) name) in
  if bool_decide (f_Name f = "user") then resolveUser e (arg "login") f
  else if bool_decide (f_Name f = "agent") then resolveAgent e (arg "id") f
  else if bool_decide (f_Name f = "repository") then resolveRepository e (arg "owner") (arg "name") f
  else if bool_decide (f_Name f = "organization") then resolveOrganization (arg "login")
  else if bool_decide (f_Name f = "pullRequest") then resolvePullRequest
  else throw (errors_New ("FIELD_NOT_SUPPORTED: Query." +:+ f_Name f)).

(** *** mutation_root.go *)

Definition re_verify (e : field_env P) : action error gworld unit := require (negb (SVID d) || fe_svid_ok e) ErrSVIDReVerifyFailed.

Definition resolveCreateAgent (e : field_env P) (f : field) : act :=
  let! _ := re_verify e in
  let! ms := input_of f in
  let! parentID := found (Parse (asString (member "parentUserId" ms))) (errors_New "invalid parentUserId") in
  let! _ := require (negb (bool_decide (gp_Kind p = RestApi.PrincipalUnknown))) (errors_New "UNAUTHENTICATED") in
  let! _ := require (negb (bool_decide (gp_Kind p = RestApi.PrincipalAgent))) (errors_New "FORBIDDEN: agents cannot create agents") in
  let! _ := require (parentID =? gp_ID p) (errors_New "FORBIDDEN: parentUserId must match the authenticated principal") in
  let! a := on_identity (CreateAgent pay (fe_cancelled e) (fe_attempts e) (fe_uuid e) (fe_t1 e) (fe_t2 e) parentID
              (asString (member "displayName" ms)) (asStrings (member "permissionScope" ms))) in
  ret (OMap [("agent", OMap [("id", OStr (uuid_String (a_ID a))); ("displayName", OStr (a_DisplayName a));
    ("parentUserId", OStr (uuid_String (a_ParentUserID a))); ("permissionScope", stringSliceToAny (a_PermissionScope a))])]).

Definition resolveUpdateAgentPermissions (e : field_env P) (f : field) : act :=
  let! _ := re_verify e in
  let! ms := input_of f in
  let scope := asStrings (member "permissionScope" ms) in
  let! agentID := found (Parse (asString (member "agentId" ms))) (errors_New "invalid agentId") in
  let! _ := on_identity (Service_UpdateAgentPermissions pay (fe_cancelled e) (fe_attempts e) agentID scope) in
  ret (OMap [("agent", OMap [("id", OStr (uuid_String agentID)); ("permissionScope", stringSliceToAny scope)])]).

Definition resolveCreatePullRequest (f : field) : act :=
  match PullRequests d with
  | None => throw ErrPullRequestsServiceUnavailable
  | Some create =>
      let! ms := input_of f in
      let! repoID := found (Parse (asString (member "repositoryId" ms))) (errors_New "invalid repositoryId") in
      let text key := asString (member key ms) in
      let! pr := on_prs (create (mkPRArgs repoID (text "baseRef") (text "headRef") (text "title") (text "body") (gp_ID p))) in
      ret (OMap [("pullRequest", OMap [("id", OStr (uuid_String (pm_ID pr))); ("number", OInt (pm_Number pr));
        ("title", OStr (pm_Title pr)); ("state", OStr (pm_State pr))])])
  end.

Definition resolveMutationRoot (e : field_env P) (f : field) : act :=
  let! _ := require (negb (bool_decide (gp_Kind p = RestApi.PrincipalUnknown))) (errors_New "UNAUTHENTICATED") in
  if bool_decide (f_Name f = "createAgent") then resolveCreateAgent e f
  else if bool_decide (f_Name f = "updateAgentPermissions") then resolveUpdateAgentPermissions e f
  else if bool_decide (f_Name f = "createPullRequest") then resolveCreatePullRequest f
  else throw (errors_New ("FIELD_NOT_SUPPORTED: Mutation." +:+ f_Name f)).

(** *** executor.go *)

Definition dispatchRoot (e : field_env P) (root : string) (f : field) : act :=
  if bool_decide (f_Name f = "__schema") then ret (resolveSchemaIntrospection f)
  else if bool_decide (f_Name f = "__type") then ret (resolveTypeIntrospection f)
  else if bool_decide (f_Name f = "__typename") then ret (OStr root)
  else if bool_decide (root = "Query") then resolveQueryRoot e f
  else resolveMutationRoot e f.

Record ExecutorError := mkExecutorError { ee_Path : string; ee_Cause : error }.
Record Result := mkResult { res_Data : list (string * out); res_Errors : list ExecutorError }.

(** The fields of an operation in the order they are run. *)
Definition root_fields (doc : Document) (op : Operation) : list field :=
  op_Sels op ≫= fun s => match as_field s with Some f => [f] | None => expandFragment doc s end.
Definition rootName (op : Operation) : string := if bool_decide (op_Kind op = OpMutation) then "Mutation" else "Query".

(** Field [k] meets [env k]. *)
Fixpoint run_fields (env : nat -> field_env P) (root : string) (k : nat) (fs : list field) (w : gworld) (res : Result) : gworld * Result :=
  match fs with
  | [] => (w, res)
  | f :: fs' =>
      let '(w', r) := dispatchRoot (env k) root f w in
      run_fields env root (S k) fs' w'
        (match r with
         | Ok v => mkResult (put (keyOf f) v (res_Data res)) (res_Errors res)
         | Err e => mkResult (put (keyOf f) ONull (res_Data res)) (res_Errors res ++ [mkExecutorError (keyOf f) e])
         end)
  end.
Definition Execute (env : nat -> field_env P) (doc : Document) (op : Operation) (w : gworld) : gworld * Result :=
  run_fields env (rootName op) 0 (root_fields doc op) w (mkResult [] []).
End resolvers.
Arguments Deps R : clear implicits.
Arguments gworld P R : clear implicits.

(** ** Answers hold what was asked for *)

Lemma put_keys {A} k (v : A) m : (put k v m).*1 = if bool_decide (k ∈ m.*1) then m.*1 else m.*1 ++ [k].
Proof.
  induction m as [|[k' v'] m IH]; [done|]. cbn [put].
  change (((k', v') :: m).*1) with (k' :: m.*1). destruct (bool_decide_reflect (k' = k)) as [->|Hk].
  - rewrite bool_decide_true by (apply elem_of_cons; by left). done.
  - change (((k', v') :: put k v m).*1) with (k' :: (put k v m).*1). rewrite IH.
    rewrite (bool_decide_ext (k ∈ k' :: m.*1) (k ∈ m.*1)) by (rewrite elem_of_cons; naive_solver). by case_bool_decide.
Qed.
Lemma put_NoDup {A} k (v : A) m : NoDup m.*1 -> NoDup (put k v m).*1.
Proof.
  intros Hm. rewrite put_keys. case_bool_decide as Hk; [done|]. apply NoDup_app. split; [done|]. split; [|apply NoDup_singleton].
  intros x Hx ->%list_elem_of_singleton. done.
Qed.
Lemma elem_of_put {A} k k' (v : A) m : k' ∈ (put k v m).*1 <-> k' = k \/ k' ∈ m.*1.
Proof.
  rewrite put_keys. case_bool_decide as Hk; [naive_solver|]. rewrite elem_of_app, list_elem_of_singleton. tauto.
Qed.
Lemma get_put {A} k k' (v : A) m : get k' (put k v m) = if bool_decide (k' = k) then Some v else get k' m.
Proof.
  unfold get. induction m as [|[k1 v1] m IH]; cbn [put List.find fst].
  - rewrite (bool_decide_ext (k = k') (k' = k)) by (split; by intros ->). by case_bool_decide.
  - destruct (bool_decide_reflect (k1 = k)) as [->|H1]; cbn [List.find fst].
    + rewrite (bool_decide_ext (k = k') (k' = k)) by (split; by intros ->). by case_bool_decide.
    + destruct (bool_decide_reflect (k1 = k')) as [->|H2]; [by rewrite bool_decide_false by done|exact IH].
Qed.

(** The keys of a projection are names of selected fields, each once. *)
Definition keys_of (v : out) : list string := match v with OMap m => m.*1 | _ => [] end.
Lemma project_keys known f k : k ∈ keys_of (project known f) -> exists sub, sub ∈ subfields f /\ f_Name sub = k /\ is_Some (known k).
Proof.
  unfold project. cbn [keys_of].
  assert (H : forall l m, k ∈ (fold_left (fun m sub => match known (f_Name sub) with Some v => put (f_Name sub) v m | None => m end) l m).*1 ->
    k ∈ m.*1 \/ exists sub, sub ∈ l /\ f_Name sub = k /\ is_Some (known k)).
  { induction l as [|sub l IH]; intros m Hk; [by left|]. cbn [fold_left] in Hk.
    apply IH in Hk as [Hk|(sub' & Hs & Hn)]; [|right; exists sub'; split; [by right|done]].
    destruct (known (f_Name sub)) as [v|] eqn:E; [|by left]. apply elem_of_put in Hk as [->|Hk]; [|by left].
    right. exists sub. split; [left|]. split; [done|by rewrite E]. }
  intros Hk. apply H in Hk as [Hk|?]; [|done]. by apply elem_of_nil in Hk.
Qed.

Section answers.
Context (Parse : string -> option uuid) {P R : Type} {MR : MapRange} (pay : identity_payload -> P).
Context (d : Deps R) (vars : gmap string jval) (mds : pool) (p : GPrincipal).

(** A response has one entry for every response key of the operation, and an
    error only for such a key. *)
Lemma run_fields_keys env root k fs (w w' : gworld P R) res res' :
  run_fields Parse pay d vars mds p env root k fs w res = (w', res') -> NoDup (res_Data res).*1 ->
  NoDup (res_Data res').*1 /\
  (forall key, key ∈ (res_Data res').*1 <-> key ∈ (res_Data res).*1 \/ key ∈ map keyOf fs) /\
  (forall ee, ee ∈ res_Errors res' -> ee ∈ res_Errors res \/ ee_Path ee ∈ map keyOf fs).
Proof.
  revert k w res. induction fs as [|f fs IH]; intros k w res; cbn [run_fields].
  - intros [= <- <-] Hn. split_and!; [done| |by left]. intros key. rewrite elem_of_nil. tauto.
  - change (map keyOf (f :: fs)) with (keyOf f :: map keyOf fs). destruct (dispatchRoot _ _ _ _ _ _ _ _ _ w) as [w1 [v|e]]; intros H Hn;
      (apply IH in H as (H1 & H2 & H3); [|by apply put_NoDup]); cbn [res_Data res_Errors] in *; split_and!; [done| | |done| |].
    + intros key. rewrite H2, elem_of_put, elem_of_cons. tauto.
    + intros ee He. apply H3 in He as [?|?]; [by left|right; by right].
    + intros key. rewrite H2, elem_of_put, elem_of_cons. tauto.
    + intros ee He. apply H3 in He as [He|He]; [|right; by right]. apply elem_of_app in He as [?| ->%list_elem_of_singleton]; [by left|right; left].
Qed.
End answers.

(** The answer to an operation has exactly one entry for every response
    key the operation asks for at its root, fragments expanded, and every
    error is about one of them. *)
Theorem Execute_answers_every_root_field Parse {P R} {MR : MapRange} (pay : identity_payload -> P) (d : Deps R) vars mds p env doc op
    (w w' : gworld P R) res :
  Execute Parse pay d vars mds p env doc op w = (w', res) ->
  NoDup (res_Data res).*1 /\
  (forall key, key ∈ (res_Data res).*1 <-> key ∈ map keyOf (root_fields doc op)) /\
  (forall ee, ee ∈ res_Errors res -> ee_Path ee ∈ map keyOf (root_fields doc op)).
Proof.
  intros H. apply run_fields_keys in H as (H1 & H2 & H3); [|constructor]. split_and!; [done| |].
  - intros key. rewrite H2. cbn. rewrite elem_of_nil. tauto.
  - intros ee He. apply H3 in He as [He|He]; [|done]. by apply elem_of_nil in He.
Qed.

(** ** What an operation can change *)
Section effects.
Context (Parse : string -> option uuid) {P R : Type} {MR : MapRange} (pay : identity_payload -> P).
Context (d : Deps R) (vars : gmap string jval) (mds : pool) (p : GPrincipal).
Notation gworld := (gworld P R).

(** What one root field of a mutation may do, as its name and its input say and
    as the resolvers let the caller [p].  No rule says whose agent it may be
    that gets new permissions. *)
Inductive gql_step (e : field_env P) (f : field) : gworld -> gworld -> Prop :=
| step_create_agent ms w s : f_Name f = "createAgent" -> (SVID d = true -> fe_svid_ok e = true) ->
    argInputObject vars (f_Args f) "input" = Input ms ->
    gp_Kind p = RestApi.PrincipalHuman -> Parse (asString (member "parentUserId" ms)) = Some (gp_ID p) ->
    run_op pay (fe_cancelled e) (fe_attempts e) (OpCreateAgent (fe_uuid e) (fe_t1 e) (fe_t2 e) (gp_ID p)
      (asString (member "displayName" ms)) (asStrings (member "permissionScope" ms))) (gw_store w) = (s, Ok tt) ->
    gql_step e f w (mkGWorld s (gw_prs w))
| step_permissions ms id w s : f_Name f = "updateAgentPermissions" -> (SVID d = true -> fe_svid_ok e = true) ->
    argInputObject vars (f_Args f) "input" = Input ms ->
    gp_Kind p <> RestApi.PrincipalUnknown -> Parse (asString (member "agentId" ms)) = Some id ->
    run_op pay (fe_cancelled e) (fe_attempts e) (OpUpdatePermissions id (asStrings (member "permissionScope" ms))) (gw_store w) = (s, Ok tt) ->
    gql_step e f w (mkGWorld s (gw_prs w))
| step_pull_request create ms repo w : f_Name f = "createPullRequest" -> PullRequests d = Some create ->
    argInputObject vars (f_Args f) "input" = Input ms ->
    gp_Kind p <> RestApi.PrincipalUnknown -> Parse (asString (member "repositoryId" ms)) = Some repo ->
    gql_step e f w (mkGWorld (gw_store w) (create (mkPRArgs repo (asString (member "baseRef" ms)) (asString (member "headRef" ms))
      (asString (member "title" ms)) (asString (member "body" ms)) (gp_ID p)) (gw_prs w)).1).

(** The fields of a mutation in their order, each with at most one step of its
    own; field [k] meets [env k]. *)
Inductive gql_steps (env : nat -> field_env P) : nat -> list field -> gworld -> gworld -> Prop :=
| no_fields k w : gql_steps env k [] w w
| field_still k f fs w w' : gql_steps env (S k) fs w w' -> gql_steps env k (f :: fs) w w'
| field_steps k f fs w w1 w' : gql_step (env k) f w w1 -> gql_steps env (S k) fs w1 w' -> gql_steps env k (f :: fs) w w'.

(** An action that takes at most one step, the field's. *)
Definition steps_once (e : field_env P) (f : field) {A} (m : action error gworld A) : Prop := forall w, w = (m w).1 \/ gql_step e f w (m w).1.

Lemma steps_quiet e f {A} (m : action error gworld A) : (forall w, (m w).1 = w) -> steps_once e f m.
Proof. intros H w. left. by rewrite H. Qed.
(** Checks before an action, and an answer after it. *)
Lemma steps_bind_quiet e f {A B} (m : action error gworld A) (k : A -> action error gworld B) (Q : A -> Prop) :
  (forall w, (m w).1 = w) -> (forall w a, (m w).2 = Ok a -> Q a) -> (forall a, Q a -> steps_once e f (k a)) -> steps_once e f (bind m k).
Proof.
  intros Hm Hq Hk w. unfold bind. specialize (Hm w). specialize (Hq w). destruct (m w) as [w1 [a|er]]; cbn in *; subst w1; [|by left].
  apply Hk. by apply Hq.
Qed.
Lemma steps_bind_answer e f {A B} (m : action error gworld A) (k : A -> B) : steps_once e f m -> steps_once e f (bind m (fun a => ret (k a))).
Proof. intros Hm w. unfold bind. specialize (Hm w). by destruct (m w) as [w1 [a|er]]. Qed.

Lemma require_quiet b (e : error) (w : gworld) : (require b e w).1 = w.
Proof. by destruct b. Qed.
Lemma require_true b (e : error) (w : gworld) x : (require b e w).2 = Ok x -> b = true.
Proof. by destruct b. Qed.
Lemma found_quiet {A} (o : option A) e (w : gworld) : (found o e w).1 = w.
Proof. by destruct o. Qed.
Lemma input_of_quiet f (w : gworld) : (input_of (P := P) (R := R) vars f w).1 = w.
Proof. unfold input_of. by destruct (argInputObject _ _ _). Qed.
Lemma found_some {A} (o : option A) e (w : gworld) a : (found o e w).2 = Ok a -> o = Some a.
Proof. by destruct o; cbn; intros [=]; subst. Qed.
Lemma input_of_some f (w : gworld) ms : (input_of (P := P) (R := R) vars f w).2 = Ok ms -> argInputObject vars (f_Args f) "input" = Input ms.
Proof. unfold input_of. by destruct (argInputObject _ _ _); cbn; intros [=]; subst. Qed.

(** The checks of the resolvers, each with what passing it shows. *)
Lemma steps_require e f b er {B} (k : unit -> action error gworld B) : (b = true -> steps_once e f (k tt)) -> steps_once e f (bind (require b er) k).
Proof. intros Hk. apply (steps_bind_quiet e f _ _ (fun _ => b = true)); [apply require_quiet|intros w a; apply require_true|by intros []]. Qed.
Lemma steps_found e f {A B} (o : option A) er (k : A -> action error gworld B) :
  (forall a, o = Some a -> steps_once e f (k a)) -> steps_once e f (bind (found o er) k).
Proof. intros Hk. apply (steps_bind_quiet e f _ _ (fun a => o = Some a)); [apply found_quiet|intros w a; apply found_some|done]. Qed.
Lemma steps_input e f {B} (k : list (string * jval) -> action error gworld B) :
  (forall ms, argInputObject vars (f_Args f) "input" = Input ms -> steps_once e f (k ms)) -> steps_once e f (bind (input_of vars f) k).
Proof.
  intros Hk. apply (steps_bind_quiet e f _ _ (fun ms => argInputObject vars (f_Args f) "input" = Input ms));
    [apply input_of_quiet|intros w a; apply input_of_some|done].
Qed.
Lemma steps_re_verify e f {B} (k : unit -> action error gworld B) :
  ((SVID d = true -> fe_svid_ok e = true) -> steps_once e f (k tt)) -> steps_once e f (bind (re_verify d e) k).
Proof. intros Hk. apply steps_require. intros Hb. apply Hk. intros Hs. by rewrite Hs in Hb. Qed.

(** A call to the identity service that is one of its operations. *)
Lemma on_identity_steps e f {A} (m : action error (Store P) A) o :
  (forall w s, run_op pay (fe_cancelled e) (fe_attempts e) o (gw_store w) = (s, Ok tt) -> gql_step e f w (mkGWorld s (gw_prs w))) ->
  rolls_back m -> (forall s s' a, m s = (s', Ok a) -> run_op pay (fe_cancelled e) (fe_attempts e) o s = (s', Ok tt)) ->
  steps_once e f (on_identity (R := R) m).
Proof.
  intros Hs Hr Ho w. unfold on_identity. destruct (m (gw_store w)) as [s [a|er]] eqn:E; cbn.
  - right. by eapply Hs, Ho.
  - left. apply Hr in E. subst s. by destruct w.
Qed.

Lemma resolveQueryRoot_quiet e f (w : gworld) : (resolveQueryRoot Parse (R := R) vars mds e f w).1 = w.
Proof.
  assert (Hq : forall {A} (m : action error gworld A) (k : A -> out), (forall w, (m w).1 = w) -> forall w, (bind m (fun a => ret (k a)) w).1 = w).
  { intros A m k Hm w0. unfold bind. specialize (Hm w0). by destruct (m w0) as [w1 [a|er]]. }
  assert (Hr : forall b er (k : action error gworld out), (forall w, (k w).1 = w) -> forall w, (bind (require b er) (fun _ => k) w).1 = w).
  { intros [] er k Hk w0; [by apply Hk|done]. }
  unfold resolveQueryRoot. repeat case_bool_decide.
  - apply Hr. apply Hq. apply found_quiet.
  - unfold resolveAgent, bind at 1, found at 1. destruct (Parse _) as [id|]; [|done]. apply Hq. apply found_quiet.
  - apply Hr. apply Hq. apply found_quiet.
  - by apply Hr.
  - done.
  - done.
Qed.

Lemma resolveCreateAgent_steps e f : f_Name f = "createAgent" -> steps_once e f (resolveCreateAgent Parse pay d vars p e f).
Proof.
  intros Hn. unfold resolveCreateAgent. apply steps_re_verify; intros Hs. apply steps_input; intros ms Hi.
  apply steps_found; intros parent Hp. apply steps_require; intros H1. apply steps_require; intros H2. apply steps_require; intros H3%Z.eqb_eq.
  assert (Hk : gp_Kind p = RestApi.PrincipalHuman) by (destruct (gp_Kind p); first [done|discriminate H1|discriminate H2]). subst parent.
  apply steps_bind_answer. apply (on_identity_steps _ _ _ (OpCreateAgent (fe_uuid e) (fe_t1 e) (fe_t2 e) (gp_ID p)
    (asString (member "displayName" ms)) (asStrings (member "permissionScope" ms)))).
  - intros w s E. by eapply step_create_agent.
  - apply RestApi.rolls_back_void. by apply (run_op_rolls_back pay _ _ (OpCreateAgent _ _ _ _ _ _)).
  - intros s s' a E. apply RestApi.void_run. by exists a.
Qed.

Lemma resolveUpdate_steps e f : f_Name f = "updateAgentPermissions" -> gp_Kind p <> RestApi.PrincipalUnknown ->
  steps_once e f (resolveUpdateAgentPermissions Parse pay d vars e f).
Proof.
  intros Hn Hp. unfold resolveUpdateAgentPermissions. apply steps_re_verify; intros Hs. apply steps_input; intros ms Hi.
  cbn zeta. apply steps_found; intros id Hid. apply (steps_bind_answer _ _ _ (fun _ => _)).
  apply (on_identity_steps _ _ _ (OpUpdatePermissions id (asStrings (member "permissionScope" ms)))).
  - intros w s E. by eapply step_permissions.
  - by apply (run_op_rolls_back pay _ _ (OpUpdatePermissions _ _)).
  - by intros s s' [].
Qed.

Lemma resolveCreatePullRequest_steps e f : f_Name f = "createPullRequest" -> gp_Kind p <> RestApi.PrincipalUnknown ->
  steps_once e f (resolveCreatePullRequest Parse d vars p f).
Proof.
  intros Hn Hp. unfold resolveCreatePullRequest. destruct (PullRequests d) as [create|] eqn:Ec; [|by apply steps_quiet].
  apply steps_input; intros ms Hi. apply steps_found; intros repo Hr. cbn zeta.
  apply steps_bind_answer. intros w. right. unfold on_prs.
  pose proof (step_pull_request e f create ms repo w Hn Ec Hi Hp Hr) as H. by destruct (create _ (gw_prs w)).
Qed.

Lemma resolveMutationRoot_steps e f : steps_once e f (resolveMutationRoot Parse pay d vars p e f).
Proof.
  unfold resolveMutationRoot. apply steps_require; intros Hp.
  assert (Hk : gp_Kind p <> RestApi.PrincipalUnknown) by (by case_bool_decide). clear Hp.
  repeat case_bool_decide; [by apply resolveCreateAgent_steps|by apply resolveUpdate_steps|by apply resolveCreatePullRequest_steps|by apply steps_quiet].
Qed.
Lemma dispatchRoot_steps e f root : steps_once e f (dispatchRoot Parse pay d vars mds p e root f).
Proof.
  unfold dispatchRoot. repeat case_bool_decide; [by apply steps_quiet..|apply steps_quiet; apply resolveQueryRoot_quiet|apply resolveMutationRoot_steps].
Qed.

Lemma run_fields_steps env root k fs w res : gql_steps env k fs w (run_fields Parse pay d vars mds p env root k fs w res).1.
Proof.
  revert k w res. induction fs as [|f fs IH]; intros k w res; cbn [run_fields]; [apply no_fields|].
  pose proof (dispatchRoot_steps (env k) f root w) as Hs. destruct (dispatchRoot _ _ _ _ _ _ _ _ _ w) as [w1 r].
  destruct Hs as [->|Hs]; [apply field_still, IH|]. eapply field_steps; [exact Hs|apply IH].
Qed.
Lemma Execute_steps env doc op w : gql_steps env 0 (root_fields doc op) w (Execute Parse pay d vars mds p env doc op w).1.
Proof. apply run_fields_steps. Qed.

(** A query changes nothing. *)
Lemma query_quiet env doc op w : op_Kind op = OpQuery -> (Execute Parse pay d vars mds p env doc op w).1 = w.
Proof.
  intros Hk. unfold Execute, rootName. rewrite bool_decide_false by congruence. generalize (mkResult [] []) 0%nat.
  induction (root_fields doc op) as [|f fs IH]; intros res k; cbn [run_fields]; [done|].
  assert (H : (dispatchRoot Parse pay d vars mds p (env k) "Query" f w).1 = w).
  { unfold dispatchRoot. repeat case_bool_decide; try done. apply resolveQueryRoot_quiet. }
  destruct (dispatchRoot _ _ _ _ _ _ _ _ _ w) as [w1 r]. cbn in H. subst w1. apply IH.
Qed.
End effects.
