(* ===== verification/GraphqlInput.v ===== *)
(** * Parsed arguments are safe to convert

    The conversion of object literals slices past the end of its text when an
    unterminated string ends in a backslash ([GraphqlExec.OutOfRange], a panic
    in Go).  No argument of a document the parser accepts ends in a backslash,
    so no query makes it panic. *)

From S2P Require Import Prelude GoStd Json JsonDecode GraphqlParser GraphqlExec.

Definition backslash : ascii := "\"%char.
(** A text that does not end in a backslash. *)
Definition ends_well (l : list ascii) : Prop := last l <> Some backslash.

Lemma last_drop {A} n (l : list A) x : last (drop n l) = Some x -> last l = Some x.
Proof.
  intros H. rewrite <- (take_drop n l), last_app, H. done.
Qed.

Lemma string_end_None l : string_end l = None -> last l = Some backslash.
Proof.
  revert l. refine (induction_ltof1 _ (@length ascii) _ _). unfold ltof. intros [|c l] IH; [done|]. cbn [string_end]. case_bool_decide as Hc.
  - destruct l as [|c' l]; [by subst|]. intros Hn. destruct (string_end l) eqn:E; [done|].
    pose proof (IH l ltac:(cbn; lia) E) as Hl. by destruct l.
  - case_bool_decide; [done|]. intros Hn. destruct (string_end l) eqn:E; [done|].
    pose proof (IH l ltac:(cbn; lia) E) as Hl. by destruct l.
Qed.

Lemma emit_OutOfRange l r : emit l r = OutOfRange -> r = OutOfRange.
Proof. by destruct r. Qed.

Lemma to_json_panic fuel l : to_json fuel l = OutOfRange -> last l = Some backslash.
Proof.
  revert l. induction fuel as [|fuel IH]; intros [|c l]; cbn [to_json]; try done.
  assert (Htl : forall l', last l' = Some backslash -> l' = l \/ (exists n, l' = drop n l) \/ (exists n, l' = drop n (c :: l)) -> last (c :: l) = Some backslash).
  { intros l' Hl [->|[[n ->]|[n ->]]]; [by destruct l| |by eapply last_drop].
    apply last_drop in Hl. by destruct l. }
  repeat (match goal with |- context [if ?b then _ else _] => destruct b end); try done.
  - intros H%emit_OutOfRange%IH. eapply Htl; [done|by left].
  - intros H%emit_OutOfRange%IH. eapply Htl; [done|by left].
  - destruct (string_end l) as [n|] eqn:E; [|intros _; eapply Htl; [by apply string_end_None|by left]].
    intros H%emit_OutOfRange%IH. eapply Htl; [done|right; left; by exists n].
  - intros H%emit_OutOfRange%IH. eapply Htl; [done|right; right; by eexists].
  - intros H%emit_OutOfRange%IH. eapply Htl; [done|right; right; by eexists].
  - intros H%emit_OutOfRange%IH. eapply Htl; [done|right; right; by eexists].
  - intros H%emit_OutOfRange%IH. eapply Htl; [done|right; right; by eexists].
Qed.

Lemma conversion_panic s : graphqlObjectToJSON s = OutOfRange -> last (s2l s) = Some backslash.
Proof. apply to_json_panic. Qed.

(** ** What the parser reads *)

(** What a parse gives, if it gives anything. *)
Definition yields {A} (Q : A -> Prop) (r : M A) : Prop := match r with Ok (a, _) => Q a | Err _ => True end.
Lemma yields_bind {A B} (Q : A -> Prop) (Q' : B -> Prop) (r : M A) (k : A -> parser -> M B) :
  yields Q r -> (forall a p, Q a -> yields Q' (k a p)) -> yields Q' (let? (a, p) := r in k a p).
Proof. destruct r as [[a p]|e]; cbn; [intros Ha Hk; by apply Hk|done]. Qed.

Lemma yields_mono {A} (Q Q' : A -> Prop) (r : M A) : yields Q r -> (forall a, Q a -> Q' a) -> yields Q' r.
Proof. destruct r as [[a p]|e]; cbn; auto. Qed.
Lemma yields_any {A} (r : M A) : yields (fun _ => True) r.
Proof. by destruct r as [[a p]|e]. Qed.

Lemma ends_well_app l l' : l' <> [] -> ends_well l' -> ends_well (l ++ l').
Proof. intros Hn Hl. unfold ends_well. rewrite last_app. destruct (last l') eqn:E; [congruence|]. by apply last_None in E. Qed.
(** Bytes of a class without the backslash. *)
Lemma span_ends_well f l : f backslash = false -> ends_well (take (span_length f l) l).
Proof.
  intros Hf. assert (H : Forall (fun c => f c = true) (take (span_length f l) l)).
  { induction l as [|c l IH]; cbn; [constructor|]. destruct (f c) eqn:E; cbn; by constructor. }
  unfold ends_well. intros Hl. apply last_Some in Hl as [l' Hl]. rewrite Hl in H. apply Forall_app in H as [_ H].
  inversion H; subst. congruence.
Qed.
Lemma ends_well_snoc l c : c <> backslash -> ends_well (l ++ [c]).
Proof. intros Hc. unfold ends_well. rewrite last_snoc. congruence. Qed.

Lemma string_scan_closed fuel l n : string_scan fuel l = (true, n) -> exists l', take n l = l' ++ [dq] /\ (n <= length l)%nat.
Proof.
  revert l n. induction fuel as [fuel IH] using lt_wf_ind. intros l n. destruct fuel as [|fuel]; [done|].
  destruct l as [|c l]; [done|]. cbn [string_scan]. case_bool_decide as Hc.
  - destruct (string_scan fuel (tail l)) as [cl m] eqn:E. intros [= -> <-].
    destruct (IH fuel ltac:(lia) _ _ E) as (l' & Ht & Hm). destruct l as [|c' l]; [|].
    + cbn in *. destruct m; [by destruct l'|]. cbn in Hm. lia.
    + cbn in *. exists (c :: c' :: l'). rewrite Ht. split; [done|lia].
  - case_bool_decide as Hq; [intros [= <-]; subst; exists []; cbn; split; [done|lia]|].
    destruct (string_scan fuel l) as [cl m] eqn:E. intros [= -> <-].
    destruct (IH fuel ltac:(lia) _ _ E) as (l' & Ht & Hm). exists (c :: l'). cbn. rewrite Ht. split; [done|lia].
Qed.

Lemma find_triple_found l e : find_triple l = Some e -> exists l', take (e + 3) l = l' ++ [dq].
Proof.
  revert e. induction l as [|c l IH]; intros e; [done|]. cbn [find_triple].
  destruct (strip_prefix [dq; dq; dq] (c :: l)) as [r|] eqn:E.
  - intros [= <-]. destruct l as [|c1 [|c2 l]]; cbn in E; repeat case_bool_decide; try done. subst. by exists [dq; dq].
  - intros (e' & He & ->)%fmap_Some. destruct (IH _ He) as [l' Hl]. exists (c :: l'). cbn. by rewrite Hl.
Qed.

Definition well (s : string) : Prop := ends_well (s2l s).
Lemma well_l2s l : ends_well l -> well (l2s l).
Proof. unfold well. by rewrite s2l_l2s. Qed.

Lemma dq_backslash : dq <> backslash.
Proof. done. Qed.

Lemma readString_well p : yields well (readString p).
Proof.
  unfold readString. destruct (strip_prefix [dq; dq; dq] (rest p)) as [after|] eqn:E.
  - apply strip_prefix_spec in E. rewrite E. destruct (find_triple after) as [e|] eqn:Ef; cbn [yields]; [|done].
    destruct (find_triple_found _ _ Ef) as [l' Hl]. apply well_l2s.
    replace (3 + e + 3)%nat with (3 + (e + 3))%nat by lia.
    change (take (3 + (e + 3)) ([dq; dq; dq] ++ after)) with (dq :: dq :: dq :: take (e + 3) after). rewrite Hl.
    apply (ends_well_snoc (dq :: dq :: dq :: l')), dq_backslash.
  - destruct (string_scan _ _) as [[] n] eqn:Es; cbn [yields]; [|done]. apply well_l2s.
    destruct (string_scan_closed _ _ _ Es) as (l' & Ht & Hn). destruct (rest p) as [|c l]; cbn [tail] in *.
    + rewrite take_nil in Ht. by destruct l'.
    + cbn [take]. rewrite Ht. apply (ends_well_snoc (c :: l')), dq_backslash.
Qed.

(** What a step consumes. *)
Definition consumed (p p' : parser) (pre : list ascii) : Prop := rest p = pre ++ rest p'.
Lemma consumed_advance n p : consumed p (advance n p) (take n (rest p)).
Proof. unfold consumed. cbn. by rewrite take_drop. Qed.
Lemma consumed_trans p1 p2 p3 l l' : consumed p1 p2 l -> consumed p2 p3 l' -> consumed p1 p3 (l ++ l').
Proof. unfold consumed. intros -> ->. by rewrite app_assoc. Qed.

Lemma readString_consumes p s p' : readString p = Ok (s, p') -> exists pre, consumed p p' pre.
Proof.
  unfold readString. destruct (strip_prefix _ _); [destruct (find_triple _); [|done]|destruct (string_scan _ _) as [[] n]; [|done]];
    intros [= _ <-]; eexists; apply consumed_advance.
Qed.

Lemma balanced_loop_consumes fuel o c d p p' : balanced_loop fuel o c d p = Ok (tt, p') -> exists pre, consumed p p' (pre ++ [c]).
Proof.
  revert d p. induction fuel as [|fuel IH]; intros d p; [done|]. cbn [balanced_loop].
  destruct (rest p) as [|x l] eqn:E; [done|].
  assert (Hx : consumed p (advance 1 p) [x]) by (unfold consumed; cbn; by rewrite E).
  assert (Hnext : forall d', balanced_loop fuel o c d' (advance 1 p) = Ok (tt, p') -> exists pre, consumed p p' (pre ++ [c])).
  { intros d' H. destruct (IH _ _ H) as [pre Hp]. exists (x :: pre). by apply (consumed_trans _ _ _ [x] _ Hx). }
  repeat case_bool_decide; [apply Hnext| | |apply Hnext].
  - destruct (d - 1 =? 0); [|apply Hnext]. intros [= <-]. exists []. subst. exact Hx.
  - destruct (readString p) as [[s p1]|er] eqn:Er; [|done]. intros H'. destruct (IH _ _ H') as [pre Hp].
    destruct (readString_consumes _ _ _ Er) as [pre1 Hpre1]. exists (pre1 ++ pre). rewrite <- app_assoc. by eapply consumed_trans.
Qed.

Lemma balanced_raw o c p p' : c <> backslash -> skipBalanced o c p = Ok (tt, p') ->
  well (l2s (take (length (rest p) - length (rest p')) (rest p))).
Proof.
  intros Hc. unfold skipBalanced. destruct (negb _); [done|]. intros H. destruct (balanced_loop_consumes _ _ _ _ _ _ H) as [pre Hp].
  apply well_l2s. rewrite Hp, length_app. replace (length (pre ++ [c]) + length (rest p') - length (rest p'))%nat with (length (pre ++ [c])) by lia.
  rewrite take_app_length. by apply ends_well_snoc.
Qed.

Lemma readNumber_well p c l : rest p = c :: l -> bool_decide (c = "-"%char) || is_digit c = true -> yields (fun v => well (av_Raw v)) (readNumber p).
Proof.
  intros E Hc. unfold readNumber. cbv zeta.
  set (n0 := if peek_is "-"%char p then 1%nat else 0%nat). set (n1 := (n0 + span_length is_digit (drop n0 (rest p)))%nat).
  assert (Hn1 : ends_well (take n1 (rest p))).
  { subst n1. rewrite <- (take_drop n0 (rest p)) at 2. assert (Hn0 : (n0 <= length (rest p))%nat) by (subst n0; destruct (peek_is _ _); rewrite E; cbn; lia).
    rewrite take_app_ge by (rewrite length_take; lia). rewrite length_take. replace (n0 + _ - _)%nat with (span_length is_digit (drop n0 (rest p))) by lia.
    destruct (span_length is_digit (drop n0 (rest p))) as [|m] eqn:Em.
    - rewrite take_0, app_nil_r. subst n0. unfold peek_is in *. rewrite E in *. destruct (bool_decide (c = "-"%char)) eqn:Eb; cbn; [|done].
      apply bool_decide_eq_true in Eb as ->. done.
    - apply ends_well_app; [|rewrite <- Em; by apply span_ends_well]. destruct (drop n0 (rest p)); [done|]. done. }
  destruct (peek_is "."%char (advance n1 p)) eqn:Ed; cbn [yields]; [|by apply well_l2s].
  apply well_l2s. unfold peek_is in Ed. cbn [rest advance] in Ed. destruct (drop n1 (rest p)) as [|x r] eqn:Er; [done|].
  apply bool_decide_eq_true in Ed as ->. assert (Hlen : (n1 < length (rest p))%nat).
  { apply (f_equal length) in Er. rewrite length_drop in Er. cbn in Er. lia. }
  rewrite <- (take_drop n1 (rest p)) at 2. rewrite take_app_ge by (rewrite length_take; lia). rewrite length_take.
  replace (n1 + 1 + span_length is_digit (drop (n1 + 1) (rest p)) - n1 `min` length (rest p))%nat
    with (S (span_length is_digit (drop (n1 + 1) (rest p)))) by lia.
  assert (Hr : drop (n1 + 1) (rest p) = r) by (rewrite <- (drop_drop (rest p) 1 n1), Er; done). rewrite Hr, Er. cbn [take].
  apply ends_well_app; [done|]. destruct (span_length is_digit r) eqn:Es; [done|].
  apply (ends_well_app ["."%char]); [by destruct r|]. rewrite <- Es. by apply span_ends_well.
Qed.

Lemma is_ident_backslash : is_ident backslash = false.
Proof. done. Qed.
Lemma readIdent_well p : ends_well (s2l (readIdent p).1).
Proof. unfold readIdent. cbn [fst]. rewrite s2l_l2s. by apply span_ends_well. Qed.

Lemma parseValue_well p : yields (fun v => well (av_Raw v)) (parseValue p).
Proof.
  unfold parseValue. destruct (rest (skipWS p)) as [|c l] eqn:E; [done|]. repeat case_bool_decide.
  - pose proof (readIdent_well (advance 1 (skipWS p))) as Hi. destruct (readIdent _) as [name p']. cbn in *. unfold well.
    rewrite s2l_app. destruct (s2l name) as [|x r] eqn:En; [done|]. apply ends_well_app; [done|exact Hi].
  - apply (yields_bind well _ _ _ (readString_well (skipWS p))). intros s p1 Hs. exact Hs.
  - destruct (skipBalanced _ _ _) as [[[] p']|] eqn:Eb; [|done]. cbn [yields av_Raw]. rewrite <- E. by apply (balanced_raw "["%char "]"%char).
  - destruct (skipBalanced _ _ _) as [[[] p']|] eqn:Eb; [|done]. cbn [yields av_Raw]. rewrite <- E. by apply (balanced_raw "{"%char "}"%char).
  - cbn [orb]. apply (readNumber_well _ c l); [done|]. by rewrite bool_decide_true.
  - cbn [orb]. destruct (is_digit c) eqn:Hd; [apply (readNumber_well _ c l); [done|by rewrite Hd, orb_true_r]|].
    pose proof (readIdent_well (skipWS p)) as Hi. destruct (readIdent _) as [name p']. by case_bool_decide.
Qed.

Definition args_well (args : gmap string ArgValue) : Prop := map_Forall (fun _ v => well (av_Raw v)) args.

Lemma args_loop_well fuel args p : args_well args -> yields args_well (args_loop fuel args p).
Proof.
  revert args p. induction fuel as [|fuel IH]; intros args p Ha; [done|]. cbn [args_loop].
  destruct (eof _); [done|]. destruct (peek_is _ _); [done|]. destruct (readIdent _) as [name p1]. case_bool_decide; [done|].
  apply (yields_bind (fun _ => True) _ _ _ (yields_any _)). intros _ p2 _.
  apply (yields_bind _ _ _ _ (parseValue_well _)). intros v p3 Hv. apply IH. by apply map_Forall_insert_2.
Qed.
Lemma parseArgs_well p : yields args_well (parseArgs p).
Proof.
  unfold parseArgs. apply (yields_bind (fun _ => True) _ _ _ (yields_any _)). intros _ p1 _. apply args_loop_well, map_Forall_empty.
Qed.

(** Selections whose arguments, at any depth, are well. *)
Fixpoint sel_well (s : Selection) : Prop :=
  match s with
  | SelField _ _ args _ sels => args_well args /\ fold_right (fun s P => sel_well s /\ P) True sels
  | SelInlineFragment _ sels => fold_right (fun s P => sel_well s /\ P) True sels
  | SelFragmentSpread _ => True
  end.
Definition sels_well (l : list Selection) : Prop := fold_right (fun s P => sel_well s /\ P) True l.
Lemma sels_well_app l l' : sels_well (l ++ l') <-> sels_well l /\ sels_well l'.
Proof. induction l as [|s l IH]; cbn; [tauto|]. unfold sels_well in *. cbn. tauto. Qed.
Lemma sels_well_elem l s : sels_well l -> s ∈ l -> sel_well s.
Proof.
  induction l as [|x l IH]; [by intros _ ?%elem_of_nil|]. unfold sels_well in *. cbn. intros [Hx Hl] [->|Hs]%elem_of_cons; [done|by apply IH].
Qed.

Lemma selections_well fuel :
  (forall p, yields sels_well (parseSelectionSet fuel p)) /\
  (forall p, yields sel_well (parseField fuel p)) /\
  (forall out p, sels_well out -> yields sels_well (selections_loop fuel out p)).
Proof.
  induction fuel as [|fuel (IHset & IHfield & IHloop)]; [done|]. split_and!.
  - intros p. cbn [parseSelectionSet]. apply (yields_bind (fun _ => True) _ _ _ (yields_any _)). intros _ p1 _. by apply IHloop.
  - intros p. cbn [parseField]. destruct (readIdent p) as [name p1]. case_bool_decide; [done|].
    apply (yields_bind (fun _ => True) _ _ _ (yields_any _)). intros na p2 _.
    apply (yields_bind args_well); [destruct (peek_is _ _); [apply parseArgs_well|apply map_Forall_empty]|]. intros args p3 Ha.
    apply (yields_bind (fun _ => True) _ _ _ (yields_any _)). intros dirs p4 _.
    destruct (peek_is _ _); [|by split]. apply (yields_bind _ _ _ _ (IHset p4)). intros sels p5 Hs. by split.
  - intros out p Ho. cbn [selections_loop]. destruct (eof _); [done|]. destruct (peek_is _ _); [done|].
    destruct (strip_prefix _ _).
    + destruct (readIdent _) as [ident p1]. case_bool_decide.
      * destruct (readIdent p1) as [tn p2]. apply (yields_bind (fun _ => True) _ _ _ (yields_any _)). intros _ p3 _.
        apply (yields_bind _ _ _ _ (IHset p3)). intros sels p4 Hs. apply IHloop. apply sels_well_app. by split.
      * apply IHloop. apply sels_well_app. by split.
    + apply (yields_bind _ _ _ _ (IHfield _)). intros f p1 Hf. apply IHloop. apply sels_well_app. by split.
Qed.

Definition doc_well (doc : Document) : Prop :=
  Forall (fun op => sels_well (op_Sels op)) (doc_Operations doc) /\ map_Forall (fun _ fr => sels_well (frag_Sels fr)) (doc_Fragments doc).

Lemma parseOperation_well kind p : yields (fun op => sels_well (op_Sels op)) (parseOperation kind p).
Proof.
  unfold parseOperation. destruct (readIdent p) as [name p1]. apply (yields_bind (fun _ => True) _ _ _ (yields_any _)). intros _ p2 _.
  apply (yields_bind (fun _ => True) _ _ _ (yields_any _)). intros _ p3 _.
  apply (yields_bind sels_well _ _ _ (proj1 (selections_well _) p3)). by intros sels p4 Hs.
Qed.
Lemma parseFragment_well p : yields (fun fr => sels_well (frag_Sels fr)) (parseFragment p).
Proof.
  unfold parseFragment. destruct (readIdent p) as [name p1]. case_bool_decide; [done|]. destruct (readIdent p1) as [on p2].
  destruct (negb _); [done|]. destruct (readIdent p2) as [ty p3]. case_bool_decide; [done|].
  apply (yields_bind sels_well _ _ _ (proj1 (selections_well _) p3)). by intros sels p4 Hs.
Qed.

Lemma definitions_loop_well fuel doc p doc' : doc_well doc -> definitions_loop fuel doc p = Ok doc' -> doc_well doc'.
Proof.
  revert doc p. induction fuel as [|fuel IH]; intros doc p Hd; [done|]. cbn [definitions_loop].
  destruct (eof p); [by intros [= <-]|]. destruct (readIdent p) as [kw p1]. destruct (_ || _).
  - pose proof (parseOperation_well (kindFor kw) p1) as Ho. destruct (parseOperation _ _) as [[op p2]|er]; [|done].
    apply IH. destruct Hd as [H1 H2]. split; [|done]. apply Forall_app. split; [done|]. by constructor.
  - case_bool_decide; [done|]. case_bool_decide; [|done].
    pose proof (parseFragment_well p1) as Hf. destruct (parseFragment _) as [[fr p2]|er]; [|done].
    apply IH. destruct Hd as [H1 H2]. split; [done|]. by apply map_Forall_insert_2.
Qed.

Lemma ParseQuery_well src doc : ParseQuery src = Ok doc -> doc_well doc.
Proof.
  unfold ParseQuery. destruct (peek_is _ _).
  - pose proof (proj1 (selections_well (fuel_for (skipWS (mkParser 0 (s2l src))))) (skipWS (mkParser 0 (s2l src)))) as Hs.
    destruct (parseSelectionSet _ _) as [[sels p1]|er]; [|done]. destruct (eof _); [|done]. intros [= <-].
    split; [by repeat constructor|apply map_Forall_empty].
  - destruct (definitions_loop _ _ _) as [doc1|er] eqn:E; [|done]. case_bool_decide; [done|]. intros [= <-].
    eapply definitions_loop_well; [|exact E]. split; [constructor|apply map_Forall_empty].
Qed.

Lemma root_fields_well doc op f : doc_well doc -> op ∈ doc_Operations doc -> f ∈ root_fields doc op -> args_well (f_Args f).
Proof.
  intros [Ho Hf] Hop. unfold root_fields. rewrite list_elem_of_bind. intros (s & Hf' & Hs).
  rewrite Forall_forall in Ho. pose proof (sels_well_elem _ _ (Ho op Hop) Hs) as Hw.
  assert (Hfield : forall s, sel_well s -> as_field s = Some f -> args_well (f_Args f)).
  { intros [name alias args dirs sels| |]; cbn; [|done..]. intros [Ha _] [= <-]. exact Ha. }
  assert (Hin : forall l, sels_well l -> f ∈ omap as_field l -> args_well (f_Args f)).
  { intros l Hl (x & Hx & He)%list_elem_of_omap. apply (Hfield x); [by eapply sels_well_elem|done]. }
  destruct (as_field s) as [g|] eqn:Eg.
  - apply list_elem_of_singleton in Hf' as ->. by apply (Hfield s).
  - destruct s as [name alias args dirs sels|name|ty sels]; [done| |].
    + cbn in Hf'. destruct (doc_Fragments doc !! name) as [fr|] eqn:E; cbn in Hf'; [|by apply elem_of_nil in Hf'].
      apply (Hin (frag_Sels fr)); [by apply (Hf name)|done].
    + by apply (Hin sels).
Qed.

(** C28: No query can make the conversion of its arguments run out of bounds:
    for every document the parser accepts, every operation of it and every
    root field, whatever the variables, an input argument is converted or
    refused, and never panics. *)
Theorem parsed_inputs_never_panic src doc op f vars name :
  ParseQuery src = Ok doc -> op ∈ doc_Operations doc -> f ∈ root_fields doc op -> argInputObject vars (f_Args f) name <> InputPanic.
Proof.
  intros Hd Hop Hf. pose proof (root_fields_well doc op f (ParseQuery_well _ _ Hd) Hop Hf) as Ha. unfold argInputObject.
  destruct (f_Args f !! name) as [v|] eqn:E; [|done]. destruct (variable _) as [x|].
  - destruct (vars !! x) as [[| | | | |]|]; try done; by destruct (any_map _).
  - destruct (graphqlObjectToJSON (av_Raw v)) as [l|c|] eqn:Ec; [|done|].
    + destruct (Unmarshal _); [|done]. by destruct (any_map _).
    + exfalso. apply conversion_panic in Ec. by apply (Ha name v).
Qed.

(** A text that does panic, and a query whose block string the conversion
    misreads without doing so. *)
Example panicking_text : graphqlObjectToJSON (l2s ["{"; "a"; ":"; dquote; "\"]%char) = OutOfRange.
Proof. vm_compute. reflexivity. Qed.

Definition block_string_query : string := json_text "mutation { createAgent(input: {displayName: '''x\''', n: 1}) { agent { id } } }".
Example block_string_misread : exists doc op f, ParseQuery block_string_query = Ok doc /\ op ∈ doc_Operations doc /\
  f ∈ root_fields doc op /\ argInputObject ∅ (f_Args f) "input" = NoInput.
Proof.
  destruct (ParseQuery block_string_query) as [doc|] eqn:E; [|by vm_compute in E].
  vm_compute in E. injection E as <-. eexists _, _, _. split; [done|]. split; [left|]. split; [left|]. by vm_compute.
Qed.

Lemma parsed_inputs_never_panic_witness : exists doc op f, ParseQuery block_string_query = Ok doc /\ op ∈ doc_Operations doc /\
  f ∈ root_fields doc op /\ argInputObject ∅ (f_Args f) "input" <> InputPanic.
Proof.
  destruct (ParseQuery block_string_query) as [doc|] eqn:E; [|by vm_compute in E].
  assert (H : exists op f, op ∈ doc_Operations doc /\ f ∈ root_fields doc op).
  { revert E. vm_compute. intros [= <-]. eexists _, _. split; left. }
  destruct H as (op & f & Hop & Hf). exists doc, op, f. split; [done|]. split; [done|]. split; [done|].
  exact (parsed_inputs_never_panic block_string_query doc op f ∅ "input" E Hop Hf).
Defined.
