(* ===== verification/GraphqlApi.v ===== *)
(** * The GraphQL server

    [plane/application/graphql]: the error codes, the cost meter, the choice of
    the read pool, persisted queries and the HTTP handlers, over the analyser
    of GraphqlCost.v, the executor of GraphqlExec.v and the stores of
    PersistedQueries.v.

    A request is that of RestApi.v, with its path split into segments.  Error
    messages are left out; the codes and the other extensions are not. *)

From S2P Require Import Prelude GoStd GoFmt Floats FloatText Json JsonDecode TimeText Uuid RateLimiter Outbox Actions MetadataStore Identity.
From S2P Require Import GraphqlParser GraphqlCost GraphqlExec PersistedQueries.
From S2P Require Repositories RestApi.
#[local] Existing Instance RestApi.PrincipalKind_eq_dec.

#[local] Arguments uuid_String : simpl never.
#[local] Arguments Unmarshal : simpl never.

(** ** errors.go *)

Definition ErrorCode := string.
Definition CodeUnauthenticated : ErrorCode := "UNAUTHENTICATED".
Definition CodeForbidden : ErrorCode := "FORBIDDEN".
Definition CodeNotFound : ErrorCode := "NOT_FOUND".
Definition CodeValidationFailed : ErrorCode := "VALIDATION_FAILED".
Definition CodeRateLimited : ErrorCode := "RATE_LIMITED".
Definition CodeFieldNotSupported : ErrorCode := "FIELD_NOT_SUPPORTED".
Definition CodeCostBudgetExceeded : ErrorCode := "COST_BUDGET_EXCEEDED".
Definition CodeDepthExceeded : ErrorCode := "DEPTH_EXCEEDED".
Definition CodePersistedQueryNotFound : ErrorCode := "PERSISTED_QUERY_NOT_FOUND".
Definition CodePersistedQueryConflict : ErrorCode := "PERSISTED_QUERY_CONFLICT".
Definition CodeNotImplemented : ErrorCode := "NOT_IMPLEMENTED".
Definition CodeInternal : ErrorCode := "INTERNAL".

(** The errors that reach [MapErr]. *)
Inductive gql_error := CostError (e : cost_error) | PersistedError (e : persisted_error) | FieldError (e : error) | LimiterError.

Definition MapErr (e : gql_error) : ErrorCode :=
  match e with
  | CostError (ErrDepthExceeded _) => CodeDepthExceeded
  | CostError (ErrCostBudgetExceeded _) => CodeCostBudgetExceeded
  | CostError _ => CodeValidationFailed
  | PersistedError ErrNotFound => CodePersistedQueryNotFound
  | PersistedError ErrHashConflict => CodePersistedQueryConflict
  | PersistedError ErrBackend => CodeInternal
  | FieldError e =>
      if bool_decide (e ∈ [ErrAgentNotFound; ErrUserNotFound; Repositories.ErrRepositoryNotFound]) then CodeNotFound
      else if bool_decide (e ∈ [ErrInvalidEmail; ErrEmptyDisplayName; ErrEmptyRole; Repositories.ErrInvalidSlug;
        Repositories.ErrEmptyName; Repositories.ErrInvalidVisibility]) then CodeValidationFailed
      else if bool_decide (e = ErrNotImplemented) then CodeNotImplemented
      else CodeInternal
  | LimiterError => CodeInternal
  end.

Definition statusForCode (c : ErrorCode) : Z :=
  if bool_decide (c = CodeUnauthenticated) then 401
  else if bool_decide (c = CodeForbidden) then 403
  else if bool_decide (c ∈ [CodeNotFound; CodePersistedQueryNotFound]) then 404
  else if bool_decide (c ∈ [CodeValidationFailed; CodePersistedQueryConflict]) then 400
  else if bool_decide (c = CodeRateLimited) then 429
  else if bool_decide (c = CodeNotImplemented) then 501
  else 500.

(** [Error] without its message. *)
Record Error := mkError { er_Path : option string; er_Extensions : list (string * out) }.
Definition withRequestID (rid : string) (e : Error) : Error :=
  if bool_decide (rid = "") then e else mkError (er_Path e) (put "request_id" (OStr rid) (er_Extensions e)).
Definition NewError (c : ErrorCode) : Error := mkError None [("code", OStr c)].

(** ** middleware/cost_meter.go *)

Definition SurfaceKey : string := "graphql".
Record BucketParams := mkBucketParams {
  AgentCapacity : float; AgentRefillPerSec : float; HumanCapacity : float; HumanRefillPerSec : float }.
Definition bucketParams (b : BucketParams) (k : RestApi.PrincipalKind) : float * float :=
  match k with
  | RestApi.PrincipalAgent => (AgentCapacity b, AgentRefillPerSec b)
  | RestApi.PrincipalHuman => (HumanCapacity b, HumanRefillPerSec b)
  | RestApi.PrincipalUnknown => (f0, f0)
  end.

Inductive charge_result := Charged | ErrRateLimited (RetrySeconds : Z) | ErrLimiter.

Definition TokensFor (c : Cost) (accepted : bool) : Z := if accepted then Complexity c else ParseCost c.

Section meter.
Context (int_of_wide : spec_float -> Z).

Definition retrySeconds (refill : float) (tokens : Z) : Z :=
  if SFleb refill f0 then 1
  else
    let q := fdiv (f_of_int tokens) refill in
    let secs := int_of_float64 int_of_wide q (float_ceil q) in
    if secs <? 1 then 1 else secs.

Definition Charge (b : BucketParams) (up : bool) (now : time) (p : GPrincipal) (tokens : Z) (m : MemoryLimiter float)
  : charge_result * MemoryLimiter float :=
  let '(capacity, refill) := bucketParams b (gp_Kind p) in
  if SFleb capacity f0 then (Charged, m)
  else
    let tokens := if tokens <? 1 then 1 else tokens in
    if negb up then (ErrLimiter, m)
    else
      let '(granted, _, m) := Take now (RestApi.TokenBucketKey (uuid_String (gp_ID p)) SurfaceKey) capacity refill (f_of_int tokens) m in
      (if granted : bool then Charged else ErrRateLimited (retrySeconds refill tokens), m).
End meter.

(** ** middleware/follower_read.go *)

Definition LiveReadDirective : string := "liveRead".
Fixpoint live_read (s : Selection) : bool :=
  match s with
  | SelField _ _ _ dirs sels => bool_decide (LiveReadDirective ∈ dirs) || existsb live_read sels
  | SelInlineFragment _ sels => existsb live_read sels
  | SelFragmentSpread _ => false
  end.
Definition hasLiveRead (sels : list Selection) : bool := existsb live_read sels.
Definition SelectStore (op : Operation) : pool :=
  if bool_decide (op_Kind op = OpMutation) then Primary else if hasLiveRead (op_Sels op) then Primary else Reader.

(** ** Requests *)

Definition MaxRequestBodyBytes : nat := 1048576.
(** [io.ReadAll(io.LimitReader(r.Body, MaxRequestBodyBytes))]. *)
Definition limited (body : string) : string := l2s (take MaxRequestBodyBytes (s2l body)).

Record requestEnvelope := mkEnvelope { env_Query : string; env_OperationName : string; env_Variables : gmap string jval }.

Definition string_member (old : string) (v : jval) : string * bool :=
  match v with VStr s => (s, true) | VNull => (old, true) | _ => (old, false) end.
Definition variables_member (old : gmap string jval) (v : jval) : gmap string jval * bool :=
  match v with
  | VNull => (∅, true)
  | VObj ms => fold_left (fun acc kv => let '(x, ok) := any_of kv.2 in (<[kv.1 := x]> acc.1, acc.2 && ok)) ms (old, true)
  | _ => (old, false)
  end.
(** The decoder goes on after a value of the wrong type. *)
Definition envelope_member (acc : requestEnvelope * bool) (kv : string * jval) : requestEnvelope * bool :=
  let '(e, ok) := acc in
  if names_field "query" kv.1 then
    let '(q, b) := string_member (env_Query e) kv.2 in (mkEnvelope q (env_OperationName e) (env_Variables e), ok && b)
  else if names_field "operationName" kv.1 then
    let '(n, b) := string_member (env_OperationName e) kv.2 in (mkEnvelope (env_Query e) n (env_Variables e), ok && b)
  else if names_field "variables" kv.1 then
    let '(v, b) := variables_member (env_Variables e) kv.2 in (mkEnvelope (env_Query e) (env_OperationName e) v, ok && b)
  else acc.
(** [json.Unmarshal(body, &env)]: what it leaves in [env], and whether it
    succeeded. *)
Definition unmarshal_envelope (body : string) (e : requestEnvelope) : requestEnvelope * bool :=
  match Unmarshal body with
  | None => (e, false)
  | Some j => match struct_members j with Some ms => fold_left envelope_member ms (e, true) | None => (e, false) end
  end.

Definition readRequest (r : RestApi.request) : option requestEnvelope :=
  let '(e, ok) := unmarshal_envelope (limited (RestApi.rq_body r)) (mkEnvelope "" "" ∅) in
  if (ok : bool) && negb (bool_decide (env_Query e = "")) then Some e else None.

Definition register_query (r : RestApi.request) : option string :=
  j ← Unmarshal (limited (RestApi.rq_body r)); ms ← struct_members j; q ← decode_field dec_string "" "query" ms;
  if bool_decide (q = "") then None else Some q.

(** A variable as the cost analyser sees it. *)
Definition to_anyval (v : jval) : anyval := match v with VNum s => from_option VFloat64 VOther (ParseFloat s) | _ => VOther end.

Definition pkindToCost (k : RestApi.PrincipalKind) : PrincipalKind :=
  match k with
  | RestApi.PrincipalHuman => PrincipalHuman
  | RestApi.PrincipalAgent => PrincipalAgent
  | RestApi.PrincipalUnknown => PrincipalUnknown
  end.

(** ** Responses *)

Inductive gql_body :=
| GraphqlBody (data : option (list (string * out))) (errors : list Error) (extensions : list (string * out))
| HashBody (hash : string)
| PlainBody (s : string).
Record gql_response := mkGqlResponse { gr_status : Z; gr_headers : list (string * string); gr_body : gql_body }.

Definition json_type : string * string := ("Content-Type", "application/json; charset=utf-8").
Definition graphql_body (status : Z) (headers : list (string * string)) (b : gql_body) : gql_response :=
  mkGqlResponse status (headers ++ [json_type]) b.
Definition writeGraphqlError (rid : string) (status : Z) (e : Error) : gql_response :=
  graphql_body status [] (GraphqlBody None [withRequestID rid e] []).

(** ** router.go *)
Section router.
Context (Parse : string -> option uuid) {P R S : Type} {MR : MapRange} `{!PersistedStore S} (pay : identity_payload -> P).

(** [graphql.Deps]. *)
Record ServerDeps := mkServerDeps { dp_Analyzer : Analyzer; dp_Resolvers : Deps R; dp_Bucket : BucketParams }.

(** What a request meets: the clock, a fresh id, the state of the limiter's
    backend, the reads of the authentication and what each root field meets. *)
Record gserved := mkGServed {
  gs_now : time; gs_freshID : string; gs_limiter_up : bool; gs_auth : nat -> Store P; gs_fields : nat -> field_env P }.

Record graphql := mkGraphql { ga_world : gworld P R; ga_limiter : MemoryLimiter float; ga_persisted : S }.

Context (int_of_wide : spec_float -> Z) (d : ServerDeps) (e : gserved) (rid : string).

Definition persisted_extension (persistedHit : bool) (l : list (string * out)) : list (string * out) :=
  if persistedHit then put "persistedDiscount" (OFloat (PersistedDiscount (a_Limits (dp_Analyzer d)))) l else l.

(** The cost that comes with a rejection. *)
Definition rejected_cost (err : cost_error) : Cost :=
  match err with ErrDepthExceeded c | ErrCostBudgetExceeded c => c | _ => mkCost 0 0 end.

Definition charge_tokens (p : GPrincipal) (tokens : Z) : MemoryLimiter float -> charge_result * MemoryLimiter float :=
  Charge int_of_wide (dp_Bucket d) (gs_limiter_up e) (gs_now e) p tokens.

Definition analyse (env : requestEnvelope) (p : GPrincipal) (persistedHit : bool) : result cost_error Cost :=
  Analyze int_of_wide (dp_Analyzer d) (env_Query env) (env_OperationName env) (to_anyval <$> env_Variables env)
    (pkindToCost (gp_Kind p)) persistedHit.

(** The operation that is run. *)
Definition chosen (doc : Document) (operationName : string) : option Operation :=
  op0 ← head (doc_Operations doc);
  if bool_decide (operationName = "") then Some op0
  else Some (default op0 (List.find (fun op => bool_decide (op_Name op = operationName)) (doc_Operations doc))).

Definition field_error (ee : ExecutorError) : Error :=
  withRequestID rid (mkError (Some (ee_Path ee)) [("code", OStr (MapErr (FieldError (ee_Cause ee))))]).

Definition execute (env : requestEnvelope) (p : GPrincipal) (persistedHit : bool) (g : graphql) : graphql * gql_response :=
  match analyse env p persistedHit with
  | Err err =>
      let c := rejected_cost err in
      let m := (charge_tokens p (TokensFor c false) (ga_limiter g)).2 in
      let ext := persisted_extension persistedHit [("code", OStr (MapErr (CostError err))); ("cost", OInt (Complexity c)); ("depth", OInt (Depth c))] in
      (mkGraphql (ga_world g) m (ga_persisted g),
       graphql_body 200 [] (GraphqlBody None [withRequestID rid (mkError None ext)] []))
  | Ok c =>
      let '(charged, m) := charge_tokens p (TokensFor c true) (ga_limiter g) in
      let g := mkGraphql (ga_world g) m (ga_persisted g) in
      match charged with
      | ErrRateLimited secs =>
          (g, graphql_body 200 [("Retry-After", Itoa secs)] (GraphqlBody None [withRequestID rid (mkError None
             [("code", OStr CodeRateLimited); ("retryAfterSeconds", OInt secs); ("cost", OInt (Complexity c))])] []))
      | ErrLimiter => (g, graphql_body 500 [] (GraphqlBody None [withRequestID rid (NewError (MapErr LimiterError))] []))
      | Charged =>
          match ParseQuery (env_Query env) with
          | Err pe =>
              (g, graphql_body 200 [] (GraphqlBody None [withRequestID rid (NewError (MapErr (CostError (ErrDocument pe))))] []))
          | Ok doc =>
              match chosen doc (env_OperationName env) with
              | None => (g, graphql_body 500 [] (PlainBody "runtime error: index out of range"))
              | Some op =>
                  let '(w, res) := Execute Parse pay (dp_Resolvers d) (env_Variables env) (SelectStore op) p (gs_fields e) doc op (ga_world g) in
                  let ext := persisted_extension persistedHit [("cost", OInt (Complexity c)); ("depth", OInt (Depth c))] in
                  let ext := if bool_decide (rid = "") then ext else put "request_id" (OStr rid) ext in
                  (mkGraphql w m (ga_persisted g),
                   graphql_body 200 [] (GraphqlBody (Some (res_Data res)) (map field_error (res_Errors res)) ext))
              end
          end
      end
  end.

Definition serveAdHoc (r : RestApi.request) (p : GPrincipal) (g : graphql) : graphql * gql_response :=
  match readRequest r with
  | None => (g, writeGraphqlError rid 400 (NewError CodeValidationFailed))
  | Some env => execute env p false g
  end.

(** An error of the persisted-query store. *)
Definition persisted_failure (err : persisted_error) : gql_response :=
  let code := MapErr (PersistedError err) in writeGraphqlError rid (statusForCode code) (NewError code).

Definition servePersistedRegister (r : RestApi.request) (p : GPrincipal) (g : graphql) : graphql * gql_response :=
  match register_query r with
  | None => (g, writeGraphqlError rid 400 (NewError CodeValidationFailed))
  | Some q =>
      let '(s, res) := pq_Put (HashFor q) q (gp_ID p) (ga_persisted g) in
      (mkGraphql (ga_world g) (ga_limiter g) s,
       match res with Ok _ => graphql_body 200 [] (HashBody (HashFor q)) | Err err => persisted_failure err end)
  end.

Definition servePersistedExecute (hash : string) (r : RestApi.request) (p : GPrincipal) (g : graphql) : graphql * gql_response :=
  let '(s, res) := pq_Get hash (ga_persisted g) in
  let g := mkGraphql (ga_world g) (ga_limiter g) s in
  match res with
  | Err err => (g, persisted_failure err)
  | Ok q =>
      let env := mkEnvelope q "" ∅ in
      let body := limited (RestApi.rq_body r) in
      let env := if bool_decide (body = "") then env
                 else let '(env, _) := unmarshal_envelope body env in mkEnvelope q (env_OperationName env) (env_Variables env) in
      execute env p true g
  end.

(** The principal of a request. *)
Definition gql_authenticate (r : RestApi.request) : option GPrincipal :=
  let auth := RestApi.rq_header r "Authorization" in
  if bool_decide (auth = "") || negb (HasPrefix auth "Bearer ") then None
  else
    let token := TrimSpace (TrimPrefix auth "Bearer ") in
    if bool_decide (token = "") then None
    else match RestApi.IdentityResolver_Resolve Parse (gs_auth e) token with
         | Err _ => None
         | Ok (RestApi.HumanPrincipal id) => Some (mkGPrincipal RestApi.PrincipalHuman id uuid_Nil)
         | Ok (RestApi.AgentPrincipal id parent) => Some (mkGPrincipal RestApi.PrincipalAgent id parent)
         end.

Inductive gql_endpoint := EpAdHoc | EpRegister | EpExecute | EpHealthz.
Definition gql_routes : list (string * list RestApi.segment * gql_endpoint) :=
  [("POST", [RestApi.Lit "graphql"], EpAdHoc);
   ("POST", [RestApi.Lit "graphql"; RestApi.Lit "persisted"; RestApi.Lit "register"], EpRegister);
   ("POST", [RestApi.Lit "graphql"; RestApi.Lit "persisted"; RestApi.Wild], EpExecute);
   ("GET", [RestApi.Lit "graphql"; RestApi.Lit "healthz"], EpHealthz)].

Definition plain (status : Z) (s : string) : gql_response := mkGqlResponse status [] (PlainBody s).
Definition gql_mux (r : RestApi.request) (p : GPrincipal) (g : graphql) : graphql * gql_response :=
  match RestApi.route gql_routes (RestApi.rq_method r) (RestApi.rq_path r) with
  | RestApi.RouteTo EpAdHoc _ => serveAdHoc r p g
  | RestApi.RouteTo EpRegister _ => servePersistedRegister r p g
  | RestApi.RouteTo EpExecute wild => servePersistedExecute (default "" (head wild)) r p g
  | RestApi.RouteTo EpHealthz _ => (g, plain 200 "ok")
  | RestApi.MethodNotAllowed => (g, plain 405 "Method Not Allowed")
  | RestApi.NoRoute => (g, plain 404 "404 page not found")
  end.

(** The principal of a request that needs none. *)
Definition nobody : GPrincipal := mkGPrincipal RestApi.PrincipalUnknown uuid_Nil uuid_Nil.

Definition authMiddleware (r : RestApi.request) (g : graphql) : graphql * gql_response :=
  if bool_decide (RestApi.rq_path r = ["graphql"; "healthz"]) then gql_mux r nobody g
  else match gql_authenticate r with
       | None => (g, writeGraphqlError rid 401 (NewError CodeUnauthenticated))
       | Some p => gql_mux r p g
       end.
End router.
Arguments gserved P : clear implicits.
Arguments graphql P R S : clear implicits.
Arguments ServerDeps R : clear implicits.

(** [NewHandler]'s handler. *)
Definition ServeGraphQL (Parse : string -> option uuid) {P R S} {MR : MapRange} `{!PersistedStore S} (pay : identity_payload -> P)
    (int_of_wide : spec_float -> Z) (d : ServerDeps R) (e : gserved P) (r : RestApi.request) (g : graphql P R S)
  : graphql P R S * gql_response :=
  let rid := RestApi.requestID Parse (gs_freshID e) r in
  let '(g', resp) := authMiddleware Parse pay int_of_wide d e rid r g in
  (g', mkGqlResponse (gr_status resp) (("X-Request-Id", rid) :: gr_headers resp) (gr_body resp)).

(** ** What a request does *)
Section requests.
Context (Parse : string -> option uuid) {P R S : Type} {MR : MapRange} `{!PersistedStore S} (pay : identity_payload -> P).
Context (int_of_wide : spec_float -> Z) (d : ServerDeps R) (e : gserved P).
Notation graphql := (graphql P R S).

(** The executed operation is the analysed one. *)
Lemma chosen_picked doc name op : pickOperation doc name = Ok op -> chosen doc name = Some op.
Proof.
  unfold pickOperation, chosen. destruct (doc_Operations doc) as [|op0 ops]; [done|]. cbn [head mbind option_bind].
  destruct ops as [|op1 ops].
  - destruct (_ && _ && _) eqn:E; [done|]. intros [= ->]. case_bool_decide; [done|]. cbn [List.find].
    destruct (bool_decide_reflect (op_Name op = name)) as [<-|Hn]; [done|]. done.
  - case_bool_decide; [done|]. destruct (List.find _ _) as [op'|] eqn:E; [|done]. intros [= ->]. done.
Qed.

Lemma Analyze_ok a src name vars kind hit c : Analyze int_of_wide a src name vars kind hit = Ok c ->
  exists doc op, ParseQuery src = Ok doc /\ pickOperation doc name = Ok op /\
    exceeds (MaxDepth (a_Limits a)) kind (Depth c) = false /\ exceeds (MaxComplexity (a_Limits a)) kind (Complexity c) = false.
Proof.
  unfold Analyze. destruct (ParseQuery src) as [doc|]; [|done]. destruct (pickOperation doc name) as [op|] eqn:Ep; [|done].
  destruct (walk _ _ _ _ _ _ _ _ _) as [x|]; [|done]. cbn zeta. destruct (exceeds _ _ _) eqn:E1; [done|].
  destruct (exceeds (MaxComplexity _) _ _) eqn:E2; [done|]. intros [= <-]. by exists doc, op.
Qed.

Definition has_data (resp : gql_response) : Prop := match gr_body resp with GraphqlBody (Some _) _ _ => True | _ => False end.

(** One run of a query: it is turned down, or analysed, paid for and executed. *)
Lemma execute_cases rid env p hit (g g' : graphql) resp : execute Parse pay int_of_wide d e rid env p hit g = (g', resp) ->
  ga_persisted g' = ga_persisted g /\
  (ga_world g' = ga_world g /\ ~ has_data resp /\
     (exists tokens, ga_limiter g' = (charge_tokens int_of_wide d e p tokens (ga_limiter g)).2) \/
   exists c doc op res, analyse int_of_wide d env p hit = Ok c /\ ParseQuery (env_Query env) = Ok doc /\
     pickOperation doc (env_OperationName env) = Ok op /\
     charge_tokens int_of_wide d e p (Complexity c) (ga_limiter g) = (Charged, ga_limiter g') /\
     Execute Parse pay (dp_Resolvers d) (env_Variables env) (SelectStore op) p (gs_fields e) doc op (ga_world g) = (ga_world g', res) /\
     exists errors ext, gr_body resp = GraphqlBody (Some (res_Data res)) errors ext).
Proof.
  unfold execute. destruct (analyse _ _ _ _ _) as [c|er] eqn:Ea.
  - destruct (charge_tokens _ _ _ _ _ _) as [[|secs|] m] eqn:Ec.
    + pose proof Ea as Ha. unfold analyse in Ha. apply Analyze_ok in Ha as (doc & op & Hd & Hp & _). rewrite Hd, (chosen_picked _ _ _ Hp).
      destruct (Execute _ _ _ _ _ _ _ _ _ _) as [w res] eqn:Ex. intros [= <- <-]. split; [done|]. right.
      exists c, doc, op, res. split_and!; try done. by eexists _, _.
    + intros [= <- <-]. split; [done|]. left. split_and!; [done|exact (fun F : False => F)|]. exists (TokensFor c true). by rewrite Ec.
    + intros [= <- <-]. split; [done|]. left. split_and!; [done|exact (fun F : False => F)|]. exists (TokensFor c true). by rewrite Ec.
  - intros [= <- <-]. split; [done|]. left. split_and!; [done|exact (fun F : False => F)|]. by eexists.
Qed.

(** Answered without effect and without data. *)
Ltac unanswered := left; split_and!; [done|done|exact (fun F : False => F)].

(** What a request asks to have executed: the query of its body, or the text
    that is stored under the hash of its path, with the operation name and the
    variables of its body.  A stored query is a persisted hit. *)
Definition persisted_envelope (q body : string) : requestEnvelope :=
  let '(env, _) := unmarshal_envelope body (mkEnvelope q "" ∅) in mkEnvelope q (env_OperationName env) (env_Variables env).
Inductive requested (r : RestApi.request) (g : graphql) : requestEnvelope -> bool -> Prop :=
| own_query env : RestApi.rq_method r = "POST" -> RestApi.rq_path r = ["graphql"] -> readRequest r = Some env -> requested r g env false
| stored_query hash q : RestApi.rq_method r = "POST" -> RestApi.rq_path r = ["graphql"; "persisted"; hash] ->
    (pq_Get hash (ga_persisted g)).2 = Ok q -> requested r g (persisted_envelope q (limited (RestApi.rq_body r))) true.

(** An empty body leaves the operation name and the variables as they are. *)
Lemma body_envelope q body :
  (if bool_decide (body = "") then mkEnvelope q "" ∅
   else let '(env, _) := unmarshal_envelope body (mkEnvelope q "" ∅) in mkEnvelope q (env_OperationName env) (env_Variables env)) =
  persisted_envelope q body.
Proof. case_bool_decide as E; [|done]. by rewrite E. Qed.

(** A route that runs a query, and what it took from the path. *)
Lemma route_runs method path ep wild : RestApi.route gql_routes method path = RestApi.RouteTo ep wild ->
  match ep with
  | EpAdHoc => method = "POST" /\ path = ["graphql"]
  | EpExecute => method = "POST" /\ exists hash, path = ["graphql"; "persisted"; hash] /\ wild = [hash]
  | _ => True
  end.
Proof.
  unfold RestApi.route. destruct (list_find _ _) as [[i [[m pat] ep']]|] eqn:El; [|by destruct (existsb _ _)]. intros [= -> <-].
  apply list_find_Some in El as (Hi & [Hm [vs Hv]] & _). cbn [fst snd] in Hm, Hv. rewrite Hv. cbn [default]. apply RestApi.match_path_fill in Hv.
  pose proof (RestApi.method_exact m method Hm) as Hx. apply list_elem_of_lookup_2 in Hi. unfold gql_routes in Hi.
  repeat (apply elem_of_cons in Hi as [[= -> -> ->]|Hi];
    [try done; cbn in Hv; repeat (destruct vs as [|? vs]; try done); injection Hv as <-; (split; [by apply Hx|]); by try eexists|]).
  by apply elem_of_nil in Hi.
Qed.

(** A request is answered without effect, touches the persisted queries only,
    or runs what it asks for. *)
Lemma gql_mux_cases rid r p (g g' : graphql) resp : gql_mux Parse pay int_of_wide d e rid r p g = (g', resp) ->
  ga_world g' = ga_world g /\ ga_limiter g' = ga_limiter g /\ ~ has_data resp \/
  exists env hit g1, requested r g env hit /\ ga_world g1 = ga_world g /\ ga_limiter g1 = ga_limiter g /\
    execute Parse pay int_of_wide d e rid env p hit g1 = (g', resp).
Proof.
  unfold gql_mux. destruct (RestApi.route _ _ _) as [ep wild| |] eqn:Er; [apply route_runs in Er; destruct ep|..].
  - destruct Er as [Hm Hp]. unfold serveAdHoc. destruct (readRequest r) as [env|] eqn:Ee; [|intros [= <- <-]; unanswered].
    intros H. right. exists env, false, g. split_and!; [by apply own_query|done..].
  - unfold servePersistedRegister. destruct (register_query r) as [q|]; [|intros [= <- <-]; unanswered].
    destruct (pq_Put _ _ _ _) as [s [[]|er]]; intros [= <- <-]; unanswered.
  - destruct Er as (Hm & hash & Hp & ->). cbn [head default]. unfold servePersistedExecute.
    pose proof (stored_query r g hash) as Hr. destruct (pq_Get _ _) as [s [q|er]]; [|intros [= <- <-]; unanswered].
    specialize (Hr q Hm Hp eq_refl). cbn zeta. rewrite body_envelope. intros H. right.
    by exists (persisted_envelope q (limited (RestApi.rq_body r))), true, (mkGraphql (ga_world g) (ga_limiter g) s).
  - intros [= <- <-]. unanswered.
  - intros [= <- <-]. unanswered.
  - intros [= <- <-]. unanswered.
Qed.

Lemma route_gql_healthz method : match RestApi.route gql_routes method ["graphql"; "healthz"] with RestApi.RouteTo ep _ => ep = EpHealthz | _ => True end.
Proof.
  unfold RestApi.route. destruct (list_find _ _) as [[i [[m pat] ep]]|] eqn:El; [|by destruct (existsb _ _)].
  apply list_find_Some in El as (Hi & [_ [vs Hm]] & _). apply list_elem_of_lookup_2 in Hi. unfold gql_routes in Hi.
  repeat (apply elem_of_cons in Hi as [[= -> -> ->]|Hi]; [first [done | discriminate Hm]|]). by apply elem_of_nil in Hi.
Qed.

Lemma ServeGraphQL_cases r (g g' : graphql) resp : ServeGraphQL Parse pay int_of_wide d e r g = (g', resp) ->
  ga_world g' = ga_world g /\ ga_limiter g' = ga_limiter g /\ ~ has_data resp \/
  exists p env hit g1 resp1, gql_authenticate Parse e r = Some p /\ requested r g env hit /\
    ga_world g1 = ga_world g /\ ga_limiter g1 = ga_limiter g /\
    execute Parse pay int_of_wide d e (RestApi.requestID Parse (gs_freshID e) r) env p hit g1 = (g', resp1) /\
    gr_body resp = gr_body resp1.
Proof.
  unfold ServeGraphQL, authMiddleware. destruct (bool_decide_reflect (RestApi.rq_path r = ["graphql"; "healthz"])) as [Hp|Hp].
  - unfold gql_mux. rewrite Hp. pose proof (route_gql_healthz (RestApi.rq_method r)) as Hr.
    destruct (RestApi.route _ _ _) as [ep wild| |]; [subst ep|..]; intros [= <- <-]; unanswered.
  - destruct (gql_authenticate _ _ _) as [p|] eqn:Ea; [|intros [= <- <-]; unanswered].
    destruct (gql_mux _ _ _ _ _ _ _ _ _) as [g2 resp2] eqn:Em. intros [= <- <-].
    apply gql_mux_cases in Em as [(H1 & H2 & H3)|(env & hit & g1 & H0 & H1 & H2 & H3)]; [by left|]. right.
    exists p, env, hit, g1, resp2. by split_and!.
Qed.
End requests.

(** C26: Whatever is sent to the GraphQL server, the identity store and the pull
    requests change only when an authenticated principal's request asks, in its
    body or by the hash of a stored query, for a document whose chosen
    operation is a mutation, and then by steps of that mutation's own root
    fields, in their order: [createAgent] gives a human an agent of its own
    with the name and scope of the field's input, [updateAgentPermissions],
    after the re-verification if one is wired, sets the scope of the agent the
    input names, whoever asks, and [createPullRequest] makes the pull request
    of its input in the caller's name. *)
Theorem graphql_changes_are_steps Parse {P R S} {MR : MapRange} `{!PersistedStore S} (pay : identity_payload -> P) int_of_wide
    (d : ServerDeps R) (e : gserved P) r (g g' : graphql P R S) resp :
  ServeGraphQL Parse pay int_of_wide d e r g = (g', resp) ->
  ga_world g' = ga_world g \/
  exists p env hit doc op, gql_authenticate Parse e r = Some p /\ requested r g env hit /\ ParseQuery (env_Query env) = Ok doc /\
    pickOperation doc (env_OperationName env) = Ok op /\ op_Kind op = OpMutation /\
    gql_steps Parse pay (dp_Resolvers d) (env_Variables env) p (gs_fields e) 0 (root_fields doc op) (ga_world g) (ga_world g').
Proof.
  intros H. apply ServeGraphQL_cases in H as [(-> & _)|(p & env & hit & g1 & resp1 & Ha & Hr & Hw & _ & Hx & _)]; [by left|].
  apply execute_cases in Hx as (_ & [(Hw' & _)|(c & doc & op & res & _ & Hd & Hp & _ & Hex & _)]); [left; congruence|].
  rewrite Hw in Hex. destruct (op_Kind op) eqn:Ek.
  - left. pose proof (query_quiet Parse pay (dp_Resolvers d) (env_Variables env) (SelectStore op) p (gs_fields e) doc op (ga_world g) Ek) as Hq.
    by rewrite Hex in Hq.
  - right. exists p, env, hit, doc, op. split_and!; try done.
    pose proof (Execute_steps Parse pay (dp_Resolvers d) (env_Variables env) (SelectStore op) p (gs_fields e) doc op (ga_world g)) as Hs.
    by rewrite Hex in Hs.
Qed.

Lemma Charge_frame wide b up now p tokens m key : key <> RestApi.TokenBucketKey (uuid_String (gp_ID p)) SurfaceKey ->
  (Charge wide b up now p tokens m).2 !! key = m !! key.
Proof.
  intros Hk. unfold Charge. destruct (bucketParams _ _) as [cap refill]. destruct (SFleb _ _); [done|]. cbn zeta.
  destruct up; [|done]. cbn [negb]. unfold Take. destruct (take_bucket _ _ _ _ _) as [gr b']. cbn [snd]. by rewrite lookup_insert_ne.
Qed.

(** C27: Nothing is executed but what the request asks for, in its body or by the
    hash of a stored query, and that only if the same text with the same
    operation name and variables, discounted only for a stored query, was
    analysed for the caller's class, found within its limits and paid for with
    its whole cost from the caller's own GraphQL bucket: data in a response are
    those of the analysed document's chosen operation.  No request touches
    another bucket. *)
Theorem graphql_executes_within_budget Parse {P R S} {MR : MapRange} `{!PersistedStore S} (pay : identity_payload -> P) int_of_wide
    (d : ServerDeps R) (e : gserved P) r (g g' : graphql P R S) resp :
  ServeGraphQL Parse pay int_of_wide d e r g = (g', resp) ->
  (forall key, (forall p, gql_authenticate Parse e r = Some p -> key <> RestApi.TokenBucketKey (uuid_String (gp_ID p)) SurfaceKey) ->
     ga_limiter g' !! key = ga_limiter g !! key) /\
  (ga_world g' <> ga_world g \/ has_data resp ->
   exists p env hit c doc op res errors ext, gql_authenticate Parse e r = Some p /\ requested r g env hit /\
     Analyze int_of_wide (dp_Analyzer d) (env_Query env) (env_OperationName env) (to_anyval <$> env_Variables env)
       (pkindToCost (gp_Kind p)) hit = Ok c /\
     exceeds (MaxDepth (a_Limits (dp_Analyzer d))) (pkindToCost (gp_Kind p)) (Depth c) = false /\
     exceeds (MaxComplexity (a_Limits (dp_Analyzer d))) (pkindToCost (gp_Kind p)) (Complexity c) = false /\
     Charge int_of_wide (dp_Bucket d) (gs_limiter_up e) (gs_now e) p (Complexity c) (ga_limiter g) = (Charged, ga_limiter g') /\
     ParseQuery (env_Query env) = Ok doc /\ pickOperation doc (env_OperationName env) = Ok op /\
     Execute Parse pay (dp_Resolvers d) (env_Variables env) (SelectStore op) p (gs_fields e) doc op (ga_world g) = (ga_world g', res) /\
     gr_body resp = GraphqlBody (Some (res_Data res)) errors ext).
Proof.
  intros H. apply ServeGraphQL_cases in H as [(Hw & Hl & Hn)|(p & env & hit & g1 & resp1 & Ha & Hr & Hw & Hl & Hx & Hb)].
  - split; [by rewrite Hl|]. intros [?|?]; contradiction.
  - unfold has_data in *. rewrite Hb.
    apply execute_cases in Hx as (_ & [(Hw' & Hn & tokens & Ht)|(c & doc & op & res & Hc & Hd & Hp & Hch & Hex & errors & ext & Hdata)]).
    + split; [|intros [?|?]; [congruence|contradiction]]. intros key Hk. rewrite Ht, Hl. by apply Charge_frame, Hk.
    + rewrite Hl in Hch. rewrite Hw in Hex. split.
      * intros key Hk. change (ga_limiter g') with (Charged, ga_limiter g').2. rewrite <- Hch. by apply Charge_frame, Hk.
      * intros _. exists p, env, hit, c, doc, op, res, errors, ext. apply Analyze_ok in Hc as Hlim. destruct Hlim as (? & ? & _ & _ & ? & ?). by split_and!.
Qed.

(** ** Persisted queries through the server *)
Section persisted.
Context (Parse : string -> option uuid) {P R S : Type} {MR : MapRange} `{!PersistedStore S, !PersistedLaws S} (pay : identity_payload -> P).
Context (int_of_wide : spec_float -> Z) (d : ServerDeps R).
Notation graphql := (graphql P R S).

(** Requests one after another, each with what it meets. *)
Definition serve_requests (rs : list (gserved P * RestApi.request)) (g : graphql) : graphql :=
  fold_left (fun g x => (ServeGraphQL Parse pay int_of_wide d x.1 x.2 g).1) rs g.

Definition persisted_grows (g g' : graphql) : Prop :=
  pq_inv (ga_persisted g') /\ forall h q, resolves (ga_persisted g) h = Some q -> resolves (ga_persisted g') h = Some q.

Lemma same_persisted (g g' : graphql) : pq_inv (ga_persisted g) -> ga_persisted g' = ga_persisted g -> persisted_grows g g'.
Proof. unfold persisted_grows. intros ? E. by rewrite E. Qed.

Lemma execute_persisted e rid env p hit (g : graphql) :
  ga_persisted (execute Parse pay int_of_wide d e rid env p hit g).1 = ga_persisted g.
Proof. destruct (execute _ _ _ _ _ _ _ _ _ _) as [g' resp] eqn:E. by apply execute_cases in E as [H _]. Qed.

Lemma gql_mux_persisted e rid r p g : pq_inv (ga_persisted g) ->
  persisted_grows g (gql_mux Parse pay int_of_wide d e rid r p g).1.
Proof.
  intros Hg. unfold gql_mux. destruct (RestApi.route _ _ _) as [[] wild| |]; try by apply same_persisted.
  - unfold serveAdHoc. destruct (readRequest r); [|by apply same_persisted]. apply same_persisted, execute_persisted. exact Hg.
  - unfold servePersistedRegister. destruct (register_query r) as [q|]; [|by apply same_persisted].
    pose proof (pq_Put_inv _ q (gp_ID p) Hg) as Hi. pose proof (fun h q' => pq_Put_grows _ q (gp_ID p) h q' Hg) as Hr.
    by destruct (pq_Put _ _ _ _) as [s res].
  - unfold servePersistedExecute. set (h := default _ _).
    pose proof (pq_Get_inv _ h Hg) as Hi. pose proof (fun h' q' => pq_Get_grows _ h h' q' Hg) as Hr.
    destruct (pq_Get _ _) as [s [q|err]]; [|done]. unfold persisted_grows. by rewrite execute_persisted.
Qed.

Lemma ServeGraphQL_persisted e r g : pq_inv (ga_persisted g) -> persisted_grows g (ServeGraphQL Parse pay int_of_wide d e r g).1.
Proof.
  intros Hg. unfold ServeGraphQL, authMiddleware. destruct (bool_decide (RestApi.rq_path r = _)).
  - pose proof (gql_mux_persisted e (RestApi.requestID Parse (gs_freshID e) r) r nobody g Hg) as H. by destruct (gql_mux _ _ _ _ _ _ _ _ _).
  - destruct (gql_authenticate _ _ _) as [p|]; [|by apply same_persisted].
    pose proof (gql_mux_persisted e (RestApi.requestID Parse (gs_freshID e) r) r p g Hg) as H. by destruct (gql_mux _ _ _ _ _ _ _ _ _).
Qed.

Lemma serve_requests_persisted rs g : pq_inv (ga_persisted g) -> persisted_grows g (serve_requests rs g).
Proof.
  revert g. induction rs as [|[e r] rs IH]; intros g Hg; cbn; [by apply same_persisted|].
  destruct (ServeGraphQL_persisted e r g Hg) as [H1 G1]. destruct (IH _ H1) as [H2 G2]. split; [done|]. intros h q Hq. by apply G2, G1.
Qed.

(** A run never answers with a hash. *)
Lemma execute_body e rid env p hit (g g' : graphql) resp : execute Parse pay int_of_wide d e rid env p hit g = (g', resp) ->
  match gr_body resp with HashBody _ => False | _ => True end.
Proof.
  unfold execute. destruct (analyse _ _ _ _ _); [|by intros [= <- <-]]. destruct (charge_tokens _ _ _ _ _ _) as [[] m]; [|by intros [= <- <-]..].
  destruct (ParseQuery _); [|by intros [= <- <-]]. destruct (chosen _ _); [|by intros [= <- <-]]. destruct (Execute _ _ _ _ _ _ _ _ _ _). by intros [= <- <-].
Qed.

Lemma route_prefixed t :
  RestApi.route gql_routes "POST" ["graphql"; "persisted"; HashPrefix +:+ t] = RestApi.RouteTo EpExecute [HashPrefix +:+ t].
Proof. vm_compute. reflexivity. Qed.
Lemma route_hash q : RestApi.route gql_routes "POST" ["graphql"; "persisted"; HashFor q] = RestApi.RouteTo EpExecute [HashFor q].
Proof. apply route_prefixed. Qed.

(** An execution by a hash. *)
Lemma executed_hash e r g h p q : h = HashFor q -> RestApi.rq_method r = "POST" -> RestApi.rq_path r = ["graphql"; "persisted"; h] ->
  gql_authenticate Parse e r = Some p ->
  let rid := RestApi.requestID Parse (gs_freshID e) r in
  let '(g', resp) := servePersistedExecute Parse pay int_of_wide d e rid h r p g in
  ServeGraphQL Parse pay int_of_wide d e r g = (g', mkGqlResponse (gr_status resp) (("X-Request-Id", rid) :: gr_headers resp) (gr_body resp)).
Proof.
  intros Hh Hm Hp Ha rid. unfold ServeGraphQL, authMiddleware. rewrite Hp, bool_decide_false by done. rewrite Ha. unfold gql_mux.
  rewrite Hm, Hp, Hh, route_hash. cbn [head default]. fold rid. by destruct (servePersistedExecute _ _ _ _ _ _ _ _ _ _).
Qed.

(** Who gets a hash has had a text stored under it. *)
Lemma registered_hash e r g g' resp h : pq_inv (ga_persisted g) ->
  ServeGraphQL Parse pay int_of_wide d e r g = (g', resp) -> gr_body resp = HashBody h ->
  exists q, register_query r = Some q /\ h = HashFor q /\ resolves (ga_persisted g') h = Some q.
Proof.
  intros Hg H Hb. assert (exists rid p resp1, gql_mux Parse pay int_of_wide d e rid r p g = (g', resp1) /\ gr_body resp1 = HashBody h) as (rid & p & resp1 & Hm & Hb1).
  { revert H Hb. unfold ServeGraphQL, authMiddleware. destruct (bool_decide (RestApi.rq_path r = _)).
    - destruct (gql_mux _ _ _ _ _ _ _ _ _) as [g2 resp2] eqn:E. intros [= <- <-] Hb. by exists (RestApi.requestID Parse (gs_freshID e) r), nobody, resp2.
    - destruct (gql_authenticate _ _ _) as [p|]; [|by intros [= <- <-]].
      destruct (gql_mux _ _ _ _ _ _ _ _ _) as [g2 resp2] eqn:E. intros [= <- <-] Hb. by exists (RestApi.requestID Parse (gs_freshID e) r), p, resp2. }
  clear H Hb. revert Hm. unfold gql_mux. destruct (RestApi.route _ _ _) as [[] wild| |]; try (intros [= <- <-]; done).
  - unfold serveAdHoc. destruct (readRequest r) as [env|]; [|by intros [= <- <-]]. intros Hx. exfalso. by apply execute_body in Hx; rewrite Hb1 in Hx.
  - unfold servePersistedRegister. destruct (register_query r) as [q|]; [|by intros [= <- <-]].
    destruct (pq_Put _ _ _ _) as [s [[]|err]] eqn:Ep; [|by intros [= <- <-]]. intros [= <- <-]. cbn in Hb1. injection Hb1 as <-.
    exists q. split_and!; [done..|]. by apply (pq_Put_ok (ga_persisted g) q (gp_ID p)).
  - unfold servePersistedExecute. destruct (pq_Get _ _) as [s [q|err]]; [|by intros [= <- <-]]. intros Hx. exfalso. by apply execute_body in Hx; rewrite Hb1 in Hx.
Qed.
End persisted.

(** A registered query is the query that is run: once a client has been
    given a hash, and whatever requests come in between, an authenticated
    execution of that hash runs the registered text, whatever its body says,
    or reports a failure of the store that is not a missing query. *)
Theorem registered_query_is_run Parse {P R S} {MR : MapRange} `{!PersistedStore S, !PersistedLaws S} (pay : identity_payload -> P) int_of_wide
    (d : ServerDeps R) e0 r0 (g g1 : graphql P R S) resp0 h rs e r p :
  pq_inv (ga_persisted g) -> ServeGraphQL Parse pay int_of_wide d e0 r0 g = (g1, resp0) -> gr_body resp0 = HashBody h ->
  RestApi.rq_method r = "POST" -> RestApi.rq_path r = ["graphql"; "persisted"; h] -> gql_authenticate Parse e r = Some p ->
  let g2 := serve_requests Parse pay int_of_wide d rs g1 in
  let rid := RestApi.requestID Parse (gs_freshID e) r in
  exists q, register_query r0 = Some q /\ h = HashFor q /\
    ((exists err, err <> ErrNotFound /\ gr_body (ServeGraphQL Parse pay int_of_wide d e r g2).2 = gr_body (persisted_failure rid err)) \/
     exists env g3, env_Query env = q /\ ga_world g3 = ga_world g2 /\ ga_limiter g3 = ga_limiter g2 /\
       (ServeGraphQL Parse pay int_of_wide d e r g2).1 = (execute Parse pay int_of_wide d e rid env p true g3).1 /\
       gr_body (ServeGraphQL Parse pay int_of_wide d e r g2).2 = gr_body (execute Parse pay int_of_wide d e rid env p true g3).2).
Proof.
  intros Hg H0 Hb Hm Hp Ha g2 rid. destruct (registered_hash Parse pay int_of_wide d e0 r0 g g1 resp0 h Hg H0 Hb) as (q & Hq & Hh & Hr).
  pose proof (ServeGraphQL_persisted Parse pay int_of_wide d e0 r0 g Hg) as [H1 _]. rewrite H0 in H1.
  destruct (serve_requests_persisted Parse pay int_of_wide d rs g1 H1) as [H2 G2]. fold g2 in H2, G2. specialize (G2 h q Hr).
  exists q. split_and!; [done..|]. pose proof (executed_hash Parse pay int_of_wide d e r g2 h p q Hh Hm Hp Ha) as Hx. cbv zeta in Hx. fold rid in Hx.
  destruct (servePersistedExecute _ _ _ _ _ _ _ _ _ _) as [g4 resp] eqn:Es. rewrite Hx. cbn [fst snd gr_body].
  revert Es. unfold servePersistedExecute. destruct (pq_Get h (ga_persisted g2)) as [s [q'|err]] eqn:Eg; intros Es.
  - right. assert (q' = q) as ->.
    { pose proof (pq_Get_grows _ h h q H2 G2) as Hgr. apply (pq_Get_ok _ h s q') in Eg as Hq'; [|done]. rewrite Eg in Hgr. cbn in Hgr. congruence. }
    eexists _, (mkGraphql (ga_world g2) (ga_limiter g2) s). rewrite Es. split_and!; [|done..]. case_bool_decide; [done|]. by destruct (unmarshal_envelope _ _).
  - left. injection Es as <- <-. exists err. split; [|done]. intros ->. apply (pq_Get_missing _ h s) in Eg as Hn; [|done].
    pose proof (pq_Get_grows _ h h q H2 G2) as Hgr. rewrite Eg in Hgr. cbn in Hgr. congruence.
Qed.

(** ** A sample *)

(** User 7, agent 9 of user 7 and agent 10 of user 8. *)
Definition gql_store : Store identity_payload := mkStore
  {[7 := mkHumanUser 7 "ann@example.org" "secret" "human_default" None 0 0]}
  (list_to_map [(9, mkAgent 9 "bot" 7 ["read"] "agent_standard" None None f1 None 0 0);
                (10, mkAgent 10 "other" 8 ["read"] "agent_standard" None None f1 None 0 0)]) ∅ ∅ ∅ ∅ [].

Definition gql_deps : ServerDeps unit :=
  mkServerDeps gitscale (mkDeps None true) (mkBucketParams (f_of_int 100) f1 (f_of_int 100) f1).
Definition gql_field (s : Store identity_payload) : field_env identity_payload :=
  mkFieldEnv (fun _ => s) true (fun _ => None) (fun _ => mkAttempt (fun _ => s) false Second 50 51) 52 Second Second.
Definition gql_served (s : Store identity_payload) : gserved identity_payload :=
  mkGServed Second (uuid_String 99) true (fun _ => s) (fun _ => gql_field s).

Definition gql_sample : graphql identity_payload unit PostgresStore :=
  mkGraphql (mkGWorld gql_store tt) ∅ (mkPostgres ∅ (fun _ => mkStatement [] Answered)).

Definition gql_request (bearer : uuid) (path : list string) (body : string) : RestApi.request :=
  RestApi.mkRequest "POST" path (fun h => if bool_decide (h = "Authorization") then "Bearer " +:+ uuid_String bearer else "")
    (fun _ => "") (json_text body) false.

Section gql_sample.
#[local] Existing Instance some_range.

Notation serve_gql := (ServeGraphQL canonical_Parse (fun p : identity_payload => p) (fun _ => 0) gql_deps (gql_served gql_store)).

Definition grab_scope : string :=
  "{'query': 'mutation { updateAgentPermissions(input: {agentId: \'00000000-0000-0000-0000-000000000009\', permissionScope: [admin]}) { agent { id } } }'}".
Definition ask_agent : string :=
  "{'query': 'query Q($i: ID!) { a: agent(id: $i) { id displayName permissionScope password } user(login: \'ann@example.org\') { email ...F } } fragment F on User { id }', 'operationName': 'Q', 'variables': {'i': '00000000-0000-0000-0000-000000000009'}}".

Definition asking : RestApi.request := gql_request 9 ["graphql"] ask_agent.
Definition grabbing : RestApi.request := gql_request 9 ["graphql"] grab_scope.
Definition gql_as (id : uuid) (k : RestApi.PrincipalKind) (parent : uuid) : option GPrincipal := Some (mkGPrincipal k id parent).

(** A query: a fragment spread inside a field is dropped, and so is a field
    that the type does not have. *)
Example asked : gr_body (serve_gql asking gql_sample).2 =
  GraphqlBody (Some [("a", OMap [("id", OStr (uuid_String 9)); ("displayName", OStr "bot"); ("permissionScope", OList [OStr "read"])]);
                     ("user", OMap [("email", OStr "ann@example.org")])]) []
    [("cost", OInt 8); ("depth", OInt 2); ("request_id", OStr (uuid_String 99))].
Proof. vm_compute. reflexivity. Qed.

(** An agent widens its own permissions. *)
Example agent_grants_itself :
  gql_authenticate canonical_Parse (gql_served gql_store) grabbing = gql_as 9 RestApi.PrincipalAgent 7 /\
  a_PermissionScope <$> agents (gw_store (ga_world (serve_gql grabbing gql_sample).1)) !! 9 = Some ["admin"].
Proof. vm_compute. split; reflexivity. Qed.

Lemma both {A B} (x : A * B) : x = (x.1, x.2).
Proof. apply surjective_pairing. Qed.

Lemma graphql_changes_are_steps_witness :
  let w := ga_world (serve_gql grabbing gql_sample).1 in
  w = mkGWorld gql_store tt \/
  exists p env hit doc op, gql_authenticate canonical_Parse (gql_served gql_store) grabbing = Some p /\ requested grabbing gql_sample env hit /\
    ParseQuery (env_Query env) = Ok doc /\ pickOperation doc (env_OperationName env) = Ok op /\ op_Kind op = OpMutation /\
    gql_steps canonical_Parse (fun p => p) (dp_Resolvers gql_deps) (env_Variables env) p (fun _ => gql_field gql_store) 0 (root_fields doc op)
      (mkGWorld gql_store tt) w.
Proof. apply (graphql_changes_are_steps canonical_Parse (fun p => p) (fun _ => 0) gql_deps (gql_served gql_store) grabbing gql_sample _ _ (both _)). Defined.

Lemma graphql_executes_within_budget_witness :
  let g' := (serve_gql asking gql_sample).1 in
  exists p env hit c doc op res errors ext, gql_authenticate canonical_Parse (gql_served gql_store) asking = Some p /\
    requested asking gql_sample env hit /\
    Analyze (fun _ => 0) gitscale (env_Query env) (env_OperationName env) (to_anyval <$> env_Variables env) (pkindToCost (gp_Kind p)) hit = Ok c /\
    exceeds (MaxDepth (a_Limits gitscale)) (pkindToCost (gp_Kind p)) (Depth c) = false /\
    exceeds (MaxComplexity (a_Limits gitscale)) (pkindToCost (gp_Kind p)) (Complexity c) = false /\
    Charge (fun _ => 0) (dp_Bucket gql_deps) true Second p (Complexity c) ∅ = (Charged, ga_limiter g') /\
    ParseQuery (env_Query env) = Ok doc /\ pickOperation doc (env_OperationName env) = Ok op /\
    Execute canonical_Parse (fun p => p) (dp_Resolvers gql_deps) (env_Variables env) (SelectStore op) p (fun _ => gql_field gql_store) doc op
      (mkGWorld gql_store tt) = (ga_world g', res) /\
    gr_body (serve_gql asking gql_sample).2 = GraphqlBody (Some (res_Data res)) errors ext.
Proof.
  apply (graphql_executes_within_budget canonical_Parse (fun p => p) (fun _ => 0) gql_deps (gql_served gql_store) asking gql_sample _ _ (both _)).
  right. vm_compute. exact I.
Defined.

(** *** A persisted query *)
Definition bot_query : string := json_text "{ agent(id: '00000000-0000-0000-0000-000000000009') { displayName } }".
Definition register_text : string :=
  "{'query': '{ agent(id: \'00000000-0000-0000-0000-000000000009\') { displayName } }'}".
Definition registering : RestApi.request := gql_request 7 ["graphql"; "persisted"; "register"] register_text.
(** The body asks for another query. *)
Definition executing : RestApi.request := gql_request 9 ["graphql"; "persisted"; HashFor bot_query] grab_scope.
Definition gql_env : gserved identity_payload := gql_served gql_store.

Example persisted_answer : gr_body (serve_gql executing (serve_gql registering gql_sample).1).2 =
  GraphqlBody (Some [("agent", OMap [("displayName", OStr "bot")])]) []
    [("cost", OInt 1); ("depth", OInt 2); ("persistedDiscount", OFloat (PersistedDiscount (a_Limits gitscale)));
     ("request_id", OStr (uuid_String 99))].
Proof. vm_compute. reflexivity. Qed.

Lemma sample_persisted_inv : pq_inv (ga_persisted gql_sample).
Proof. split; [by intros h r|]. intros n. constructor. Qed.

Lemma registered_query_is_run_witness :
  let g2 := serve_requests canonical_Parse (fun p => p) (fun _ => 0) gql_deps [(gql_env, grabbing)] (serve_gql registering gql_sample).1 in
  let p := mkGPrincipal RestApi.PrincipalAgent 9 7 in
  let rid := RestApi.requestID canonical_Parse (gs_freshID gql_env) executing in
  let serve := serve_gql executing g2 in
  let run env g3 := execute canonical_Parse (fun p => p) (fun _ => 0) gql_deps gql_env rid env p true g3 in
  exists q, register_query registering = Some q /\ HashFor bot_query = HashFor q /\
    ((exists err, err <> ErrNotFound /\ gr_body serve.2 = gr_body (persisted_failure rid err)) \/
     exists env g3, env_Query env = q /\ ga_world g3 = ga_world g2 /\ ga_limiter g3 = ga_limiter g2 /\
       serve.1 = (run env g3).1 /\ gr_body serve.2 = gr_body (run env g3).2).
Proof.
  apply (registered_query_is_run canonical_Parse (fun p => p) (fun _ => 0) gql_deps gql_env registering gql_sample
    (serve_gql registering gql_sample).1 (serve_gql registering gql_sample).2).
  - exact sample_persisted_inv.
  - apply both.
  - vm_compute. reflexivity.
  - reflexivity.
  - reflexivity.
  - vm_compute. reflexivity.
Defined.
End gql_sample.
