(* ===== verification/GitMeter.v ===== *)
(** * Metering of Git operations

    [plane/git/metering] and [plane/git/sink]: the two-tier counter, which adds
    to a per-agent counter in the cache and writes an event to the outbox, and
    the sink the events are delivered to.  The cache may fail; the outbox is
    what counts, and the sink holds it exactly however often an event is
    delivered. *)

From S2P Require Import Prelude GoStd GoFmt GoTime Sha256 Json TimeText Uuid Outbox Actions CacheStore MetadataStore AgentsHook.

#[local] Arguments uuid_String : simpl never.

(** ** events.go *)

Definition OpInfoRefs : string := "info_refs".
Definition OpUploadPack : string := "upload_pack".
Definition OpReceivePack : string := "receive_pack".
Definition EventType : string := "git.metering".
Definition AggregateType : string := "repository".

Record MeteringEvent := mkMeteringEvent {
  me_EventID : string; me_AgentID : string; me_RepoID : string; me_Operation : string;
  me_BytesTransferred : Z; me_PackObjects : Z; me_RefUpdates : Z; me_OccurredAt : time; me_EnvelopeVersion : Z }.

(** ** counter.go *)

Definition EnforcementWindow : duration := Hour.
Definition EnforcementTTL : duration := 2 * EnforcementWindow.

(** [now.Format("2006-01-02T15")], for the years 0 to 9999. *)
Definition window (now : time) : string :=
  let '(y, m, d) := civil now in
  fmt_0d 4 y +:+ "-" +:+ fmt_0d 2 m +:+ "-" +:+ fmt_0d 2 d +:+ "T" +:+ fmt_0d 2 (second_of_day now / 3600).
Definition enforcementKey (agentID : string) (now : time) : string := "git:meter:" +:+ agentID +:+ ":" +:+ window now.

(** What is counted. *)
Record operation := mkOperation {
  op_Ref : RepoRef; op_Name : string; op_Bytes : Z; op_PackObjects : Z; op_RefUpdates : Z }.

(** What a call meets: the clock, its two cache calls, the ids it draws, what
    its transaction sees, and an error of the database. *)
Record meter_call (P : Type) := mkMeterCall {
  mc_now : time; mc_get : cache_call; mc_set : cache_call; mc_eventID : uuid; mc_aggregateID : uuid;
  mc_outboxID : uuid; mc_view : nat -> Store P; mc_error : option error }.
Arguments mkMeterCall {P}. Arguments mc_now {P}. Arguments mc_get {P}. Arguments mc_set {P}. Arguments mc_eventID {P}.
Arguments mc_aggregateID {P}. Arguments mc_outboxID {P}. Arguments mc_view {P}. Arguments mc_error {P}.

(** [Counter]. *)
Class Counter (M : Type) := { Record_ : operation -> action error M unit }.

(** [noopCounter]. *)
Inductive noopCounter := NewNoopCounter.
#[export] Instance noop_counter : Counter noopCounter := { Record_ := fun _ => ret tt }.

Section counter.
Context (Parse : string -> option uuid) {P C : Type} {MR : MapRange} `{!CacheStore C} (pay : MeteringEvent -> P).

Record TwoTierCounter := mkTwoTier { tt_cache : option C; tt_store : Store P; tt_calls : nat -> meter_call P }.
(** A counter without a store is refused. *)
Definition NewTwoTierCounter (cacheStore : option C) (mds : option (Store P)) (calls : nat -> meter_call P) : option TwoTierCounter :=
  match mds with None => None | Some s => Some (mkTwoTier cacheStore s calls) end.

(** The counter as a call reads it; what cannot be read is zero. *)
Definition read_counter (e : meter_call P) (key : string) (c : C) : Z * C :=
  match c_outcome (mc_get e) with
  | Fails _ => (0, c)
  | Works =>
      let '(r, c) := Get (c_now (mc_get e)) key c in
      (match r with
       | Ok existing => if bool_decide (existing = "") then 0 else default 0 (Atoi existing)
       | Err _ => 0
       end, c)
  end.
Definition write_counter (e : meter_call P) (key : string) (updated : Z) (c : C) : C :=
  match c_outcome (mc_set e) with
  | Works | Fails true => Set_ (c_now (mc_set e)) key (Itoa updated) EnforcementTTL c
  | Fails false => c
  end.
Definition recordEnforcement (e : meter_call P) (agentID : string) (bytes : Z) (c : option C) : option C :=
  match c with
  | None => None
  | Some c =>
      if bool_decide (agentID = "") then Some c
      else
        let key := enforcementKey agentID (mc_now e) in
        let '(prev, c) := read_counter e key c in
        Some (write_counter e key (wrap64 (prev + bytes)) c)
  end.

Definition repoAggregateID (fresh : uuid) (repoID : string) : uuid := default fresh (Parse repoID).

Definition event_of (e : meter_call P) (o : operation) : MeteringEvent :=
  mkMeteringEvent (uuid_String (mc_eventID e)) (rr_AgentID (op_Ref o)) (rr_RepoID (op_Ref o)) (op_Name o) (op_Bytes o)
    (op_PackObjects o) (op_RefUpdates o) (mc_now e) 1.
Definition outbox_row (e : meter_call P) (o : operation) : OutboxRecord P :=
  mkOutboxRecord DomainGit AggregateType (repoAggregateID (mc_aggregateID e) (rr_RepoID (op_Ref o))) EventType
    (pay (event_of e o)) (mc_outboxID e).

Definition TwoTierCounter_Record (o : operation) : action error TwoTierCounter unit := fun t =>
  let e := tt_calls t 0%nat in
  let c := recordEnforcement e (rr_AgentID (op_Ref o)) (op_Bytes o) (tt_cache t) in
  let aggID := repoAggregateID (mc_aggregateID e) (rr_RepoID (op_Ref o)) in
  let '(s, r) := match mc_error e with
                 | Some err => (tt_store t, Err err)
                 | None => Transact (WriteOutbox (mc_outboxID e) DomainGit AggregateType aggID EventType (pay (event_of e o)))
                             (mc_view e) (tt_store t)
                 end in
  (mkTwoTier c s (fun n => tt_calls t (S n)), r).

#[export] Instance two_tier_counter : Counter TwoTierCounter := { Record_ := TwoTierCounter_Record }.
End counter.
Arguments TwoTierCounter P C : clear implicits.

(** ** sink/stub.go *)

Record StubSink := mkStubSink { sk_events : list MeteringEvent; sk_seen : gset string }.
Definition NewStubSink : StubSink := mkStubSink [] ∅.
Definition StubSink_Record (e : MeteringEvent) (s : StubSink) : StubSink :=
  if bool_decide (me_EventID e = "") then mkStubSink (sk_events s ++ [e]) (sk_seen s)
  else if bool_decide (me_EventID e ∈ sk_seen s) then s
  else mkStubSink (sk_events s ++ [e]) ({[me_EventID e]} ∪ sk_seen s).
Definition StubSink_All (s : StubSink) : list MeteringEvent := sk_events s.
Definition StubSink_Len (s : StubSink) : Z := Z.of_nat (length (sk_events s)).
Definition deliver (l : list MeteringEvent) (s : StubSink) : StubSink := fold_left (fun s e => StubSink_Record e s) l s.

(** ** The windows *)

Definition hour_of (t : time) : Z := t / Hour.
Definition hour_start (h : Z) : time := h * Hour.

Lemma hour_seconds h : hour_start h / Second = h * 3600 /\ hour_start h mod Second = 0.
Proof. unfold hour_start, Hour. rewrite Z.mul_assoc. split; [apply Z.div_mul|apply Z.mod_mul]; done. Qed.
Lemma hour_of_seconds t : hour_of t = t / Second / 3600.
Proof. unfold hour_of, Hour. rewrite Z.mul_comm, Z.div_div; done. Qed.
Lemma hour_bounds t : hour_start (hour_of t) <= t < hour_start (hour_of t) + Hour.
Proof. unfold hour_start, hour_of. pose proof (Z.div_mod t Hour ltac:(done)). pose proof (Z.mod_pos_bound t Hour ltac:(done)). lia. Qed.

Lemma hour_days t : days_of (hour_start (hour_of t)) = days_of t.
Proof.
  unfold days_of. rewrite (proj1 (hour_seconds _)), hour_of_seconds. set (s := t / Second). unfold seconds_per_day.
  replace 86400 with (3600 * 24) by done. rewrite <- !Z.div_div by lia. by rewrite Z.div_mul by lia.
Qed.
Lemma hour_second_of_day t : second_of_day (hour_start (hour_of t)) = second_of_day t / 3600 * 3600.
Proof.
  unfold second_of_day. rewrite (proj1 (hour_seconds _)), hour_of_seconds. set (s := t / Second). unfold seconds_per_day.
  pose proof (Z.div_mod s 3600 ltac:(lia)). pose proof (Z.mod_pos_bound s 3600 ltac:(lia)).
  pose proof (Z.div_mod (s / 3600) 24 ltac:(lia)). pose proof (Z.mod_pos_bound (s / 3600) 24 ltac:(lia)).
  set (q := s / 3600) in *. set (d := q / 24) in *. set (r := q mod 24) in *.
  rewrite <- (Z.mod_unique_pos (q * 3600) 86400 d (r * 3600)) by lia.
  rewrite <- (Z.mod_unique_pos s 86400 d (r * 3600 + s mod 3600)) by lia.
  f_equal. apply (Z.div_unique_pos _ _ _ (s mod 3600)); lia.
Qed.

(** The window is the time, cut at the hour. *)
Lemma window_text t : window t +:+ ":00:00Z" = RFC3339Nano (hour_start (hour_of t)).
Proof.
  unfold window, RFC3339Nano, civil. rewrite hour_days, hour_second_of_day, (proj2 (hour_seconds _)).
  destruct (civil_from_days (days_of t)) as [[y m] d]. set (h := second_of_day t / 3600).
  rewrite Z.div_mul by done. replace (h * 3600 / 60 mod 60) with 0; [replace (h * 3600 mod 60) with 0|].
  - rewrite !sapp_assoc. reflexivity.
  - replace (h * 3600) with (h * 60 * 60) by lia. by rewrite Z.mod_mul.
  - replace (h * 3600) with (h * 60 * 60) by lia. by rewrite Z.div_mul, Z.mod_mul.
Qed.

Lemma window_inj t t' : year_ok t -> year_ok t' -> window t = window t' -> hour_of t = hour_of t'.
Proof.
  intros Hy Hy' E. assert (Hk : forall t, year_ok t -> parseStrictRFC3339 (window t +:+ ":00:00Z") = Some (hour_start (hour_of t))).
  { intros u Hu. rewrite window_text. apply parse_RFC3339Nano. unfold Year, civil. by rewrite hour_days. }
  pose proof (Hk t Hy) as H1. rewrite E, (Hk t' Hy') in H1. injection H1 as H1. unfold hour_start, Hour, Second in H1. lia.
Qed.

Lemma window_length t : year_ok t -> length (s2l (window t)) = 13%nat.
Proof.
  unfold year_ok, Year, window. pose proof (civil_days (days_of t)) as Hc. unfold civil. destruct (civil_from_days (days_of t)) as [[y m] d].
  cbn [fst snd]. intros Hy. destruct Hc as (Hm & Hd & _).
  assert (0 <= second_of_day t / 3600 < 24).
  { assert (0 <= second_of_day t < 86400) by (apply Z.mod_pos_bound; done). split; [apply Z.div_pos|apply Z.div_lt_upper_bound]; lia. }
  rewrite !s2l_app, !length_app, !length_fmt_0d; first reflexivity; try lia; cbn; lia.
Qed.

Lemma enforcementKey_inj a a' t t' : year_ok t -> year_ok t' -> enforcementKey a t = enforcementKey a' t' -> a = a' /\ hour_of t = hour_of t'.
Proof.
  intros Hy Hy' E. unfold enforcementKey in E. apply (inj (String.append "git:meter:")) in E. apply (f_equal s2l) in E.
  rewrite !s2l_app in E. apply app_inj_2 in E as [E1 E2]; [|by rewrite !length_app, !window_length].
  split; [by apply s2l_inj|]. apply app_inv_head in E2. by apply window_inj, s2l_inj.
Qed.

(** ** What is counted *)

(** The bytes of an agent in an hour. *)
Definition counted_for (a : string) (h : Z) (e : MeteringEvent) : bool :=
  bool_decide (me_AgentID e = a) && (hour_of (me_OccurredAt e) =? h).
Fixpoint bytes_of (a : string) (h : Z) (es : list MeteringEvent) : Z :=
  match es with [] => 0 | e :: es' => (if counted_for a h e then me_BytesTransferred e else 0) + bytes_of a h es' end.

#[export] Instance bytes_of_perm a h : Proper ((≡ₚ) ==> (=)) (bytes_of a h).
Proof.
  induction 1 as [|e l l' _ IH|e e' l|l1 l2 l3 _ IH1 _ IH2]; cbn [bytes_of]; [done|by rewrite IH| |congruence].
  destruct (counted_for a h e), (counted_for a h e'); lia.
Qed.

(** The counter of a log: none before the first event counts. *)
Fixpoint tally (a : string) (h : Z) (start : option Z) (es : list MeteringEvent) : option Z :=
  match es with
  | [] => start
  | e :: es' => tally a h (if counted_for a h e then Some (wrap64 (default 0 start + me_BytesTransferred e)) else start) es'
  end.
Lemma tally_bytes a h start es : default 0 (tally a h (wrap64 <$> start) es) = wrap64 (default 0 start + bytes_of a h es).
Proof.
  revert start. induction es as [|e es IH]; intros start; cbn [tally bytes_of].
  - rewrite Z.add_0_r. by destruct start.
  - destruct (counted_for a h e); [|by rewrite IH, Z.add_0_l].
    pose proof (IH (Some (default 0 start + me_BytesTransferred e))) as Hi. cbn [fmap option_fmap option_map default] in Hi.
    replace (wrap64 (default 0 (wrap64 <$> start) + me_BytesTransferred e)) with (wrap64 (default 0 start + me_BytesTransferred e)).
    + rewrite Hi. f_equal. cbn [from_option id]. unfold id. lia.
    + destruct start as [x|]; [|done]. cbn. by rewrite wrap64_add_l.
Qed.

(** ** The sink *)

Definition unique_ids (es : list MeteringEvent) : Prop :=
  forall e e', e ∈ es -> e' ∈ es -> me_EventID e = me_EventID e' -> e = e'.

Lemma deliver_spec es ds : unique_ids es -> (forall e, e ∈ ds -> e ∈ es) -> (forall e, e ∈ es -> me_EventID e <> "") -> forall s,
  (forall i, i ∈ sk_seen s <-> i ∈ map me_EventID (sk_events s)) -> NoDup (sk_events s) -> (forall e, e ∈ sk_events s -> e ∈ es) ->
  NoDup (sk_events (deliver ds s)) /\ forall e, e ∈ sk_events (deliver ds s) <-> e ∈ sk_events s \/ e ∈ ds.
Proof.
  intros Hu Hds Hne. unfold deliver. induction ds as [|d ds IH]; intros s Hseen Hn Hin; cbn [fold_left].
  { split; [done|]. intros e. rewrite elem_of_nil. tauto. }
  assert (Hd : d ∈ es) by (apply Hds; left). assert (Hds' : forall e, e ∈ ds -> e ∈ es) by (intros e He; apply Hds; by right).
  assert (Hd' : me_EventID d <> "") by by apply Hne. unfold StubSink_Record at 2 4. rewrite bool_decide_false by done.
  destruct (bool_decide_reflect (me_EventID d ∈ sk_seen s)) as [Hs|Hs].
  - apply Hseen in Hs as (e0 & E0 & He0)%list_elem_of_fmap. assert (d = e0) as <- by (apply Hu; [done|by apply Hin|done]).
    destruct (IH Hds' s Hseen Hn Hin) as [H1 H2]. split; [done|]. intros e. rewrite H2, elem_of_cons. naive_solver.
  - edestruct (IH Hds' (mkStubSink (sk_events s ++ [d]) ({[me_EventID d]} ∪ sk_seen s))) as [H1 H2].
    + intros i. cbn [sk_seen sk_events]. rewrite map_app, elem_of_union, elem_of_app, elem_of_singleton, Hseen. cbn [map].
      rewrite list_elem_of_singleton. tauto.
    + cbn [sk_events]. apply NoDup_app. split; [done|]. split; [|apply NoDup_singleton]. intros x Hx ->%list_elem_of_singleton.
      apply Hs, Hseen, list_elem_of_fmap. by exists d.
    + cbn [sk_events]. intros e [He|He%list_elem_of_singleton]%elem_of_app; [by apply Hin|congruence].
    + split; [exact H1|]. intros e. rewrite H2. cbn [sk_events]. rewrite elem_of_app, list_elem_of_singleton, elem_of_cons. tauto.
Qed.
Lemma delivered_once es ds : NoDup (map me_EventID es) -> (forall e, e ∈ es -> me_EventID e <> "") -> (forall e, e ∈ ds <-> e ∈ es) ->
  sk_events (deliver ds NewStubSink) ≡ₚ es.
Proof.
  intros Hn Hne Hds. assert (Hu : unique_ids es).
  { intros e e' He He' E. apply list_elem_of_lookup in He as [i Hi]. apply list_elem_of_lookup in He' as [j Hj].
    assert (i = j) as <-; [|congruence]. eapply NoDup_lookup; [exact Hn|..].
    - rewrite list_lookup_fmap, Hi. reflexivity.
    - rewrite list_lookup_fmap, Hj. cbn. by rewrite E. }
  edestruct (deliver_spec es ds Hu (fun e => proj1 (Hds e)) Hne NewStubSink) as [H1 H2]; [intros i; cbn; by rewrite elem_of_empty, elem_of_nil|constructor|by intros e ?%elem_of_nil|].
  apply NoDup_Permutation; [done|by eapply NoDup_fmap_1|]. intros e. rewrite H2, elem_of_nil, Hds. tauto.
Qed.
Lemma tally_range a h es v : (forall x, v = Some x -> is_int64 x) -> forall x, tally a h v es = Some x -> is_int64 x.
Proof.
  revert v. induction es as [|e es IH]; intros v Hv; cbn [tally]; [done|]. apply IH.
  destruct (counted_for a h e); [|done]. intros x [= <-]. apply wrap64_range.
Qed.

Section reconcile.
Context (Parse : string -> option uuid) {P C : Type} {MR : MapRange} `{!CacheStore C, !CacheLaws C} (pay : MeteringEvent -> P).
Notation counter := (TwoTierCounter P C).

(** Calls one after another, with the event of each and whether it was
    accepted. *)
Fixpoint record_all (os : list operation) (t : counter) : counter * list (MeteringEvent * bool) :=
  match os with
  | [] => (t, [])
  | o :: os' =>
      let e := event_of (tt_calls t 0%nat) o in
      let '(t1, r) := TwoTierCounter_Record Parse pay o t in
      let '(t2, log) := record_all os' t1 in
      (t2, (e, is_ok r) :: log)
  end.
Definition accepted (log : list (MeteringEvent * bool)) : list MeteringEvent := omap (fun x => if x.2 : bool then Some x.1 else None) log.
Definition rejected (log : list (MeteringEvent * bool)) : list MeteringEvent := omap (fun x => if x.2 : bool then None else Some x.1) log.

Lemma log_split a h log : bytes_of a h (map fst log) = bytes_of a h (accepted log) + bytes_of a h (rejected log).
Proof.
  induction log as [|[e b] log IH]; [done|]. unfold accepted, rejected in *. cbn [map omap list_omap fst snd bytes_of]. rewrite IH.
  destruct b; cbn [bytes_of]; lia.
Qed.

(** One call: the cache's part, the outbox's part. *)
Lemma Record_spec o (t : counter) : TwoTierCounter_Record Parse pay o t =
  let e := tt_calls t 0%nat in
  (mkTwoTier (recordEnforcement e (rr_AgentID (op_Ref o)) (op_Bytes o) (tt_cache t))
     (match mc_error e with
      | Some _ => tt_store t
      | None => commit (add_event (outbox_row Parse pay e o) empty_tx) (tt_store t)
      end) (fun n => tt_calls t (S n)),
   match mc_error e with Some err => Err err | None => Ok tt end).
Proof.
  unfold TwoTierCounter_Record. cbv zeta. destruct (mc_error _) as [err|]; [done|]. unfold Transact. by rewrite WriteOutbox_valid.
Qed.

Definition accepted_rows (os : list operation) (calls : nat -> meter_call P) : list (OutboxRecord P) :=
  omap (fun x => match mc_error x.1 with None => Some (outbox_row Parse pay x.1 x.2) | Some _ => None end)
    (imap (fun n o => (calls n, o)) os).

Lemma record_all_outbox os (t : counter) :
  outbox (tt_store (record_all os t).1) = outbox (tt_store t) ++ accepted_rows os (tt_calls t) /\
  map or_Payload (accepted_rows os (tt_calls t)) = map pay (accepted (record_all os t).2) /\
  map fst (record_all os t).2 = imap (fun n o => event_of (tt_calls t n) o) os.
Proof.
  revert t. induction os as [|o os IH]; intros t; [cbn; by rewrite app_nil_r|]. cbn [record_all]. rewrite Record_spec. cbv zeta.
  set (t1 := mkTwoTier _ _ _). destruct (IH t1) as (H1 & H2 & H3). clear IH. destruct (record_all os t1) as [t2 log]. cbn [fst snd] in *.
  unfold accepted_rows. rewrite imap_cons. unfold accepted_rows in H1, H2. cbn [tt_calls t1 tt_store] in *.
  assert (He : imap (fun n o => (tt_calls t (S n), o)) os = imap ((fun n o => (tt_calls t n, o)) ∘ S) os) by done.
  rewrite He in H1, H2. cbn [omap list_omap fst snd map accepted]. rewrite H1, H3. split_and!; [| |done].
  - destruct (mc_error _) as [err|]; [done|]. cbn. by rewrite <- app_assoc.
  - destruct (mc_error _) as [err|]; cbn [is_ok]; [done|]. cbn [map or_Payload outbox_row]. by rewrite H2.
Qed.

(** Calls that do not overlap, whose cache answers promptly, and which see a
    clock that does not go back. *)
Definition orderly (calls : nat -> meter_call P) : Prop := forall n,
  let e := calls n in
  year_ok (mc_now e) /\ c_outcome (mc_get e) = Works /\ c_outcome (mc_set e) = Works /\
  mc_now e <= c_now (mc_get e) <= c_now (mc_set e) /\ c_now (mc_get e) < mc_now e + EnforcementWindow /\
  c_now (mc_set e) <= mc_now (calls (S n)).

(** From [from] to the end of the entry's life the counter has the value [v]. *)
Definition shows (c : C) (a : string) (h : Z) (from : time) (v : option Z) : Prop := forall now,
  from <= now < hour_start h + EnforcementTTL -> live now c (enforcementKey a (hour_start h)) = Itoa <$> v.

Lemma parse_counter x : (let v := Itoa (wrap64 x) in if bool_decide (v = "") then 0 else default 0 (Atoi v)) = wrap64 x.
Proof.
  cbv zeta. pose proof (Atoi_Itoa (wrap64 x) (wrap64_range x)) as H. rewrite H. rewrite bool_decide_false; [done|].
  intros E. rewrite E in H. change (Atoi "") with (@None Z) in H. discriminate H.
Qed.

Lemma recordEnforcement_shows (e : meter_call P) o (c : C) a h from v : a <> "" -> year_ok (hour_start h) -> year_ok (mc_now e) ->
  c_outcome (mc_get e) = Works -> c_outcome (mc_set e) = Works -> from <= mc_now e -> mc_now e <= c_now (mc_get e) <= c_now (mc_set e) ->
  c_now (mc_get e) < mc_now e + EnforcementWindow -> shows c a h from (wrap64 <$> v) ->
  exists c', recordEnforcement e (rr_AgentID (op_Ref o)) (op_Bytes o) (Some c) = Some c' /\
    shows c' a h (c_now (mc_set e)) (tally a h (wrap64 <$> v) [event_of e o]).
Proof.
  intros Ha Hy Hye Hg Hs Hfr Ht Hp Hc. unfold recordEnforcement. cbn [tally]. unfold counted_for, event_of. cbn [me_AgentID me_OccurredAt me_BytesTransferred].
  destruct (bool_decide_reflect (rr_AgentID (op_Ref o) = "")) as [He|He].
  { eexists. split; [done|]. rewrite bool_decide_false by congruence. cbn [andb]. intros now Hn. apply Hc. lia. }
  unfold read_counter, write_counter. rewrite Hg, Hs. destruct (Get (c_now (mc_get e)) _ c) as [r c1] eqn:Eg. eexists. split; [done|].
  pose proof (Get_spec (c_now (mc_get e)) (enforcementKey (rr_AgentID (op_Ref o)) (mc_now e)) c) as Hr. rewrite Eg in Hr. cbn [fst] in Hr.
  intros now Hn. rewrite Set_spec by lia.
  assert (Hf : forall k, live now c1 k = live now c k).
  { intros k. pose proof (Get_frame (c_now (mc_get e)) (enforcementKey (rr_AgentID (op_Ref o)) (mc_now e)) c now k ltac:(lia)) as Hf. by rewrite Eg in Hf. }
  pose proof (hour_bounds (mc_now e)) as Hb. unfold EnforcementTTL, EnforcementWindow in *.
  destruct (bool_decide_reflect (rr_AgentID (op_Ref o) = a)) as [Ea|Ea]; [destruct (Z.eqb_spec (hour_of (mc_now e)) h) as [Eh|Eh]|]; cbn [andb].
  - assert (Hk : enforcementKey a (hour_start h) = enforcementKey (rr_AgentID (op_Ref o)) (mc_now e)).
    { unfold enforcementKey, window. rewrite <- Eh at 1. unfold civil. rewrite <- Eh, hour_days, hour_second_of_day, Z.div_mul by done. by rewrite Ea. }
    rewrite bool_decide_true by done. unfold After, Add. rewrite (proj2 (Z.ltb_ge _ _)) by (rewrite Eh in Hb; lia).
    specialize (Hc (c_now (mc_get e)) ltac:(rewrite Eh in Hb; unfold EnforcementTTL, EnforcementWindow; lia)). rewrite Hk in Hc. rewrite Hc in Hr. cbn [fmap option_fmap option_map]. f_equal. f_equal.
    destruct v as [x|]; cbn in Hr; rewrite Hr; [|done]. rewrite parse_counter. done.
  - rewrite bool_decide_false; [rewrite Hf; apply Hc; unfold EnforcementTTL, EnforcementWindow; lia|]. intros E. apply enforcementKey_inj in E as [_ E]; [|done..].
    apply Eh. rewrite <- E. unfold hour_of, hour_start. by rewrite Z.div_mul.
  - rewrite bool_decide_false; [rewrite Hf; apply Hc; unfold EnforcementTTL, EnforcementWindow; lia|]. intros E. apply enforcementKey_inj in E as [E _]; [|done..]. congruence.
Qed.

Lemma tally_wrapped a h v e : exists w, tally a h (wrap64 <$> v) [e] = wrap64 <$> w.
Proof. cbn. destruct (counted_for a h e); [|by exists v]. eexists (Some _). reflexivity. Qed.

Lemma record_all_shows os (t : counter) c a h from v : a <> "" -> year_ok (hour_start h) -> orderly (tt_calls t) ->
  tt_cache t = Some c -> from <= mc_now (tt_calls t 0%nat) -> shows c a h from (wrap64 <$> v) ->
  exists c', tt_cache (record_all os t).1 = Some c' /\
    forall from', from <= from' -> (forall n, (n < length os)%nat -> c_now (mc_set (tt_calls t n)) <= from') ->
    shows c' a h from' (tally a h (wrap64 <$> v) (map fst (record_all os t).2)).
Proof.
  intros Ha Hy. revert t c from v. induction os as [|o os IH]; intros t c from v Ho Hc Hf Hs.
  { exists c. split; [done|]. intros from' Hle _ now Hn. apply Hs. lia. }
  cbn [record_all]. rewrite Record_spec. cbv zeta. destruct (Ho 0%nat) as (Hy0 & Hg0 & Hs0 & Ht0 & Hp0 & Hn0).
  destruct (recordEnforcement_shows (tt_calls t 0%nat) o c a h from v) as (c1 & Hc1 & Hs1); [done..|lia|lia|done|]. rewrite Hc, Hc1.
  set (t1 := mkTwoTier _ _ _). destruct (tally_wrapped a h v (event_of (tt_calls t 0%nat) o)) as [w Hw]. rewrite Hw in Hs1.
  destruct (IH t1 c1 (c_now (mc_set (tt_calls t 0%nat))) w) as (c2 & Hc2 & Hs2); [intros n; apply (Ho (S n))|done|exact Hn0|done|].
  exists c2. destruct (record_all os t1) as [t2 log]. cbn [fst snd map] in *. split; [done|]. intros from' Hle Hlast.
  cbn [tally]. cbn [tally] in Hw. rewrite Hw. apply Hs2; [apply (Hlast 0%nat); cbn; lia|]. intros n Hn. apply (Hlast (S n)). cbn. lia.
Qed.

End reconcile.

Section log.
Context (Parse : string -> option uuid) {P C : Type} {MR : MapRange} `{!CacheStore C} (pay : MeteringEvent -> P).

Lemma elem_of_accepted e log : e ∈ accepted log -> e ∈ map fst log.
Proof.
  unfold accepted. rewrite list_elem_of_omap. intros ([e' []] & Hin & [= <-]). apply list_elem_of_fmap. by exists (e', true).
Qed.
Lemma record_all_ids os (t : TwoTierCounter P C) e : e ∈ accepted (record_all Parse pay os t).2 -> me_EventID e <> "".
Proof.
  intros He%elem_of_accepted. rewrite (proj2 (proj2 (record_all_outbox Parse pay os t))) in He.
  apply elem_of_lookup_imap in He as (i & o & -> & _). cbn. intros E. pose proof (uuid_String_length (mc_eventID (tt_calls t i))) as Hl.
  by rewrite E in Hl.
Qed.
End log.

(** C30: As long as the event ids that are drawn differ: whatever the cache does,
    every call is logged as one event, the outbox gets exactly the events of
    the calls that succeed, in their order, and the analytics sink, however
    often and in whatever order they are delivered to it, holds for every agent
    and hour the bytes of those calls.  The cached counter agrees with that
    under conditions: when the calls do not overlap, the cache answers each of
    them within the hour, the clock does not go back, and no counter was there
    before, then an agent's counter for an hour is, until the entry expires two
    windows after the hour began, the sink's bytes plus those of the calls that
    failed, modulo 2^64.  (Overlapping calls and a failed read break it:
    [overlapping_calls], [failed_read_resets].) *)
Theorem tiers_reconcile Parse {P C} {MR : MapRange} `{!CacheStore C, !CacheLaws C} (pay : MeteringEvent -> P) os (t : TwoTierCounter P C) ds :
  NoDup (map me_EventID (accepted (record_all Parse pay os t).2)) -> (forall e, e ∈ ds <-> e ∈ accepted (record_all Parse pay os t).2) ->
  let '(t', log) := record_all Parse pay os t in
  map fst log = imap (fun n o => event_of (tt_calls t n) o) os /\
  map or_Payload (outbox (tt_store t')) = map or_Payload (outbox (tt_store t)) ++ map pay (accepted log) /\
  (forall a h, bytes_of a h (StubSink_All (deliver ds NewStubSink)) = bytes_of a h (accepted log)) /\
  (forall c a h now, tt_cache t = Some c -> orderly (tt_calls t) -> a <> "" -> year_ok (hour_start h) ->
     (forall now, live now c (enforcementKey a (hour_start h)) = None) ->
     (forall n, (n < length os)%nat -> c_now (mc_set (tt_calls t n)) <= now) -> now < hour_start h + EnforcementTTL ->
     exists c', tt_cache t' = Some c' /\
       default 0 (live now c' (enforcementKey a (hour_start h)) ≫= Atoi) =
         wrap64 (bytes_of a h (StubSink_All (deliver ds NewStubSink)) + bytes_of a h (rejected log))).
Proof.
  intros Hids Hds. pose proof (record_all_outbox Parse pay os t) as (H1 & H2 & H3). pose proof (record_all_ids Parse pay os t) as Hne.
  assert (Hsink : forall a h, bytes_of a h (StubSink_All (deliver ds NewStubSink)) = bytes_of a h (accepted (record_all Parse pay os t).2)).
  { intros a h. unfold StubSink_All. by rewrite (delivered_once (accepted (record_all Parse pay os t).2) ds). }
  pose proof (fun c a h now Hc Ho Ha Hy Hidle => record_all_shows Parse pay os t c a h (Z.min now (mc_now (tt_calls t 0%nat))) None Ha Hy Ho Hc
    ltac:(lia) (fun now' _ => Hidle now')) as Hshows.
  destruct (record_all Parse pay os t) as [t' log]. cbn [fst snd] in *. split_and!; [done|by rewrite H1, map_app, H2|done|].
  intros c a h now Hc Ho Ha Hy Hidle Hlast Hnow. destruct (Hshows c a h now Hc Ho Ha Hy Hidle) as (c' & Hc' & Hs).
  specialize (Hs now ltac:(lia) Hlast). exists c'. split; [done|]. rewrite Hsink, <- log_split, Hs by lia.
  pose proof (tally_bytes a h None (map fst log)) as Ht. cbn [fmap option_fmap option_map from_option id] in Ht. rewrite Z.add_0_l in Ht. rewrite <- Ht.
  change (wrap64 <$> None) with (@None Z). pose proof (tally_range a h (map fst log) None ltac:(done)) as Hx.
  destruct (tally a h None (map fst log)) as [x|]; [|done]. cbn. by rewrite Atoi_Itoa by by apply Hx.
Qed.

(** ** Calls that overlap

    The counter is read and written in two steps, so the calls of several
    replicas interleave: a schedule is the sequence of their reads and
    writes. *)
Section races.
Context {P C : Type} `{!CacheStore C, !CacheLaws C} (calls : nat -> meter_call P * operation).

Inductive race_event := ReadCounter (i : nat) | WriteCounter (i : nat).
Record race := mkRace { rc_cache : C; rc_prev : gmap nat Z }.
Definition race_key (i : nat) : string := enforcementKey (rr_AgentID (op_Ref (calls i).2)) (mc_now (calls i).1).
Definition race_step (r : race) (ev : race_event) : race :=
  match ev with
  | ReadCounter i =>
      let '(prev, c) := read_counter (calls i).1 (race_key i) (rc_cache r) in mkRace c (<[i := prev]> (rc_prev r))
  | WriteCounter i =>
      let prev := default 0 (rc_prev r !! i) in
      mkRace (write_counter (calls i).1 (race_key i) (wrap64 (prev + op_Bytes (calls i).2)) (rc_cache r)) (rc_prev r)
  end.
Definition race_time (ev : race_event) : time :=
  match ev with ReadCounter i => c_now (mc_get (calls i).1) | WriteCounter i => c_now (mc_set (calls i).1) end.
Fixpoint chronological (from : time) (evs : list race_event) : Prop :=
  match evs with [] => True | ev :: evs' => from <= race_time ev /\ chronological (race_time ev) evs' end.

(** The bytes of the writes that a schedule does for an agent and an hour. *)
Fixpoint written (a : string) (h : Z) (evs : list race_event) : Z :=
  match evs with
  | [] => 0
  | WriteCounter i :: evs' =>
      (if counted_for a h (event_of (calls i).1 (calls i).2) then op_Bytes (calls i).2 else 0) + written a h evs'
  | ReadCounter _ :: evs' => written a h evs'
  end.

(** What is stored, and what has been read of it, is at most [n]. *)
Definition bounded_by (a : string) (h : Z) (from : time) (r : race) (n : Z) : Prop :=
  (forall now v, from <= now -> live now (rc_cache r) (enforcementKey a (hour_start h)) = Some v -> exists x, v = Itoa x /\ 0 <= x <= n) /\
  (forall i prev, rc_prev r !! i = Some prev -> race_key i = enforcementKey a (hour_start h) -> 0 <= prev <= n).

Context (a : string) (h : Z) (Hy : year_ok (hour_start h)).
Context (Hcalls : forall i, year_ok (mc_now (calls i).1) /\ 0 <= op_Bytes (calls i).2).

Lemma race_key_counted i : race_key i = enforcementKey a (hour_start h) -> counted_for a h (event_of (calls i).1 (calls i).2) = true.
Proof.
  intros E. apply enforcementKey_inj in E as [Ea Eh]; [|apply Hcalls|done]. unfold counted_for, event_of. cbn [me_AgentID me_OccurredAt].
  rewrite Eh, bool_decide_true by done. cbn. unfold hour_of, hour_start. rewrite Z.div_mul by done. apply Z.eqb_refl.
Qed.

Lemma read_bounded i from r n : 0 <= n <= int64_max -> from <= c_now (mc_get (calls i).1) -> bounded_by a h from r n ->
  bounded_by a h (c_now (mc_get (calls i).1)) (race_step r (ReadCounter i)) n.
Proof.
  intros Hn Hf [H1 H2]. unfold race_step, read_counter. set (e := (calls i).1) in *. destruct (c_outcome (mc_get e)); split; cbn [rc_cache rc_prev].
  1,2: destruct (Get (c_now (mc_get e)) (race_key i) (rc_cache r)) as [res c] eqn:Eg; cbn [rc_cache rc_prev].
  - intros now v Hnow. pose proof (Get_frame (c_now (mc_get e)) (race_key i) (rc_cache r) now (enforcementKey a (hour_start h)) Hnow) as Hfr.
    rewrite Eg in Hfr. cbn in Hfr. rewrite Hfr. apply H1. lia.
  - intros j prev. rewrite lookup_insert_Some. intros [[<- <-]|[_ Hj]] Hk; [|by apply (H2 j)].
    pose proof (Get_spec (c_now (mc_get e)) (race_key i) (rc_cache r)) as Hs. rewrite Eg, Hk in Hs. cbn in Hs. subst res.
    destruct (live _ _ _) as [v|] eqn:El; [|lia]. destruct (H1 _ _ Hf El) as (x & -> & Hx).
    case_bool_decide; [lia|]. rewrite Atoi_Itoa by (unfold is_int64, int64_min, int64_max in *; lia). cbn. lia.
  - intros now v Hnow. apply H1. lia.
  - intros j prev. rewrite lookup_insert_Some. intros [[<- <-]|[_ Hj]] Hk; [lia|by apply (H2 j)].
Qed.

Lemma write_bounded i from r n : 0 <= n -> n + written a h [WriteCounter i] <= int64_max ->
  from <= c_now (mc_set (calls i).1) -> bounded_by a h from r n ->
  bounded_by a h (c_now (mc_set (calls i).1)) (race_step r (WriteCounter i)) (n + written a h [WriteCounter i]).
Proof.
  intros Hn Hm Hf [H1 H2]. cbn [written] in *. rewrite Z.add_0_r in *. destruct (Hcalls i) as [_ Hb].
  set (w := if counted_for _ _ _ then _ else _) in *. assert (Hw : 0 <= w) by (unfold w; case_match; lia).
  assert (Hkeep : forall now v, c_now (mc_set (calls i).1) <= now -> live now (rc_cache r) (enforcementKey a (hour_start h)) = Some v ->
    exists x, v = Itoa x /\ 0 <= x <= n + w).
  { intros now v Hnow Hv. destruct (H1 now v ltac:(lia) Hv) as (x & -> & Hx). exists x. split; [done|lia]. }
  assert (Hset : forall now v, c_now (mc_set (calls i).1) <= now ->
    live now (Set_ (c_now (mc_set (calls i).1)) (race_key i) (Itoa (wrap64 (default 0 (rc_prev r !! i) + op_Bytes (calls i).2))) EnforcementTTL (rc_cache r))
      (enforcementKey a (hour_start h)) = Some v -> exists x, v = Itoa x /\ 0 <= x <= n + w).
  { intros now v Hnow. rewrite Set_spec by done. case_bool_decide as Hk; [|by apply Hkeep]. destruct (After _ _); [done|]. intros [= <-].
    symmetry in Hk. assert (Ew : w = op_Bytes (calls i).2) by (unfold w; by rewrite race_key_counted).
    assert (0 <= default 0 (rc_prev r !! i) <= n) by (destruct (rc_prev r !! i) as [p|] eqn:E; cbn; [by apply (H2 i)|lia]).
    eexists. split; [done|]. rewrite wrap64_id by (unfold is_int64, int64_min, int64_max in *; lia). lia. }
  split; cbn [rc_cache rc_prev race_step].
  - unfold write_counter. destruct (c_outcome _) as [|[]]; [exact Hset|exact Hset|exact Hkeep].
  - intros j prev Hj Hk. specialize (H2 j prev Hj Hk). lia.
Qed.

Lemma written_nonneg evs : 0 <= written a h evs.
Proof. induction evs as [|[i|i] evs IH]; cbn [written]; [lia|done|]. destruct (Hcalls i) as [_ ?]. case_match; lia. Qed.

Lemma race_bounded evs from r n : 0 <= n -> n + written a h evs <= int64_max -> chronological from evs -> bounded_by a h from r n ->
  bounded_by a h (fold_left (fun t ev => race_time ev) evs from) (fold_left race_step evs r) (n + written a h evs).
Proof.
  revert from r n. induction evs as [|ev evs IH]; intros from r n Hn Hm Hch Hr; cbn [fold_left]; [by rewrite Z.add_0_r|].
  destruct Hch as [Hf Hch]. pose proof (written_nonneg evs) as Hw. destruct ev as [i|i].
  - apply IH; [done|done|done|]. apply (read_bounded i from); [cbn [written] in Hm; lia|done|done].
  - cbn [written] in *. pose proof (written_nonneg [WriteCounter i]) as Hwi. pose proof (write_bounded i from r n) as Hi. cbn [written] in Hwi, Hi.
    rewrite Z.add_0_r in *. rewrite Z.add_assoc. apply IH; [lia|lia|done|]. apply Hi; [done|lia|done|done].
Qed.
End races.

(** However the counter's reads and writes of concurrent calls interleave
    and whichever of them fail, the counter of an agent and an hour never shows
    more than the bytes whose writes were tried. *)
Theorem concurrent_counter_bounded {P C} `{!CacheStore C, !CacheLaws C} (calls : nat -> meter_call P * operation) evs (c : C) a h from now v :
  year_ok (hour_start h) -> (forall i, year_ok (mc_now (calls i).1) /\ 0 <= op_Bytes (calls i).2) ->
  (forall now, live now c (enforcementKey a (hour_start h)) = None) ->
  written calls a h evs <= int64_max -> chronological calls from evs -> fold_left (fun _ ev => race_time calls ev) evs from <= now ->
  live now (rc_cache (fold_left (race_step calls) evs (mkRace c ∅))) (enforcementKey a (hour_start h)) = Some v ->
  exists x, Atoi v = Some x /\ 0 <= x <= written calls a h evs.
Proof.
  intros Hy Hcalls Hidle Hm Hch Hnow Hv.
  destruct (race_bounded calls a h Hy Hcalls evs from (mkRace c ∅) 0) as [H1 _]; [lia|lia|done| |].
  { split; cbn [rc_cache rc_prev]; [|by intros i prev ?%lookup_empty_Some]. intros now' v' _. by rewrite Hidle. }
  destruct (H1 now v Hnow Hv) as (x & -> & Hx). exists x. split; [|lia]. apply Atoi_Itoa.
  unfold is_int64, int64_min, int64_max in *. lia.
Qed.

(** ** A sample *)

(** Calls a minute apart in the first hour of 1970; the second is turned down
    by the database. *)
Definition minute (n : nat) : time := (10 + 60 * Z.of_nat (n `min` 5)) * Second.
Definition meter_at (get set : nat -> outcome) (n : nat) : meter_call MeteringEvent :=
  mkMeterCall (minute n) (mkCacheCall (minute n) (get n)) (mkCacheCall (minute n) (set n)) (Z.of_nat n) 900 (Z.of_nat n)
    (fun _ => New) (if (n =? 1)%nat then Some SerializationFailure else None).
Definition working (n : nat) : outcome := Works.
Definition push (agent : string) (bytes : Z) : operation := mkOperation (mkRepoRef "r" agent) OpReceivePack bytes 0 1.
Definition pushes : list operation := [push "bot" 1000; push "bot" 20; push "" 5; push "ann" 7; push "bot" 300].
Definition sample_counter (get : nat -> outcome) : TwoTierCounter MeteringEvent MemoryStore :=
  mkTwoTier (Some NewMemoryStore) New (meter_at get working).

Lemma minute_ok n : year_ok (minute n) /\ minute n <= minute (S n).
Proof. do 6 (destruct n as [|n]; [vm_compute; intuition discriminate|]). unfold minute. cbn [Nat.min]. vm_compute. intuition discriminate. Qed.
Lemma sample_orderly : orderly (tt_calls (sample_counter working)).
Proof.
  intros n. cbn [sample_counter tt_calls meter_at mc_now mc_get mc_set c_now c_outcome]. destruct (minute_ok n) as [Hy Hn].
  unfold EnforcementWindow. split_and!; [exact Hy|done|done|lia|lia|unfold Hour, Second; lia|exact Hn].
Qed.

Section meter_sample.
#[local] Existing Instance some_range.

Definition sample_log (get : nat -> outcome) := record_all canonical_Parse (fun e => e) pushes (sample_counter get).
Definition shown (get : nat -> outcome) (a : string) : option string :=
  tt_cache (sample_log get).1 ≫= fun c => live (minute 5) c (enforcementKey a 0).

Example sample_tiers :
  (shown working "bot", shown working "ann", shown working "eve") = (Some "1320", Some "7", None) /\
  bytes_of "bot" 0 (accepted (sample_log working).2) = 1300 /\ bytes_of "bot" 0 (rejected (sample_log working).2) = 20 /\
  length (Recorded (tt_store (sample_log working).1)) = 4%nat.
Proof. vm_compute. auto. Qed.

(** A read that fails before a write that works starts the count again. *)
Example failed_read_resets : shown (fun n => if (n =? 4)%nat then Fails false else Works) "bot" = Some "300".
Proof. vm_compute. reflexivity. Qed.

(** Of two overlapping calls one is not counted. *)
Definition two_calls (i : nat) : meter_call MeteringEvent * operation := (meter_at working working 0, push "bot" (if (i =? 0)%nat then 1000 else 20)).
Definition overlap : list race_event := [ReadCounter 0; ReadCounter 1; WriteCounter 0; WriteCounter 1].
Example overlapping_calls : live (minute 0) (rc_cache (fold_left (race_step two_calls) overlap (mkRace NewMemoryStore ∅)))
  (enforcementKey "bot" 0) = Some "20".
Proof. vm_compute. reflexivity. Qed.

Lemma tiers_reconcile_witness :
  let es := accepted (sample_log working).2 in
  let '(t', log) := sample_log working in
  map fst log = imap (fun n o => event_of (meter_at working working n) o) pushes /\
  map or_Payload (outbox (tt_store t')) = map or_Payload [] ++ map (fun e => e) (accepted log) /\
  exists c', tt_cache t' = Some c' /\
    default 0 (live (minute 5) c' (enforcementKey "bot" (hour_start 0)) ≫= Atoi) =
      wrap64 (bytes_of "bot" 0 (StubSink_All (deliver (es ++ es) NewStubSink)) + bytes_of "bot" 0 (rejected log)).
Proof.
  pose proof (tiers_reconcile canonical_Parse (fun e => e) pushes (sample_counter working)
    (accepted (sample_log working).2 ++ accepted (sample_log working).2)
    ltac:(apply (bool_decide_unpack _); vm_compute; exact I) ltac:(intros e; rewrite elem_of_app; unfold sample_log; tauto)) as H.
  cbv zeta. unfold sample_log in *. destruct (record_all _ _ _ _) as [t' log]. destruct H as (H1 & H2 & _ & H4). split_and!; [exact H1|exact H2|].
  apply (H4 NewMemoryStore "bot" 0 (minute 5)).
  - reflexivity.
  - exact sample_orderly.
  - discriminate.
  - vm_compute. intuition discriminate.
  - reflexivity.
  - intros n Hn. do 5 (destruct n as [|n]; [vm_compute; discriminate|]). exfalso. cbn in Hn. lia.
  - reflexivity.
Defined.

Lemma concurrent_counter_bounded_witness : exists x, Atoi "20" = Some x /\ 0 <= x <= written two_calls "bot" 0 overlap.
Proof.
  apply (concurrent_counter_bounded two_calls overlap NewMemoryStore "bot" 0 (minute 0) (minute 0) "20").
  - vm_compute. intuition discriminate.
  - intros i. split; [apply (minute_ok 0)|]. unfold two_calls, push. cbn. by destruct (i =? 0)%nat.
  - reflexivity.
  - vm_compute. discriminate.
  - vm_compute. intuition discriminate.
  - vm_compute. discriminate.
  - vm_compute. reflexivity.
Defined.
End meter_sample.
