(* ===== verification/GitStream.v ===== *)
(** * Streaming a Gitaly response to its reader

    [streamToReader] and [cancelCloser] of [plane/git/rpc/proxy.go]: a goroutine
    pulls chunks from a gRPC stream and writes them into an [io.Pipe], whose
    other end the caller reads and closes.  The two run concurrently: the
    system is a step function over the events of both, with the semantics of
    [io.Pipe] and [sync.Once] written out.  Chunks and buffers are lists of
    bytes. *)

From S2P Require Import Prelude GoStd.
From Stdlib Require Import Wellfounded.

(** ** The system *)

(** What the gRPC stream holds: the chunks that [next] has yet to return, and
    how it ends: with [io.EOF] or with an error. *)
Inductive stream_error := Status (msg : string) | Canceled.
#[export] Instance stream_error_eq_dec : EqDecision stream_error.
Proof. solve_decision. Defined.
Record upstream := mkUpstream { us_chunks : list (list ascii); us_failure : option stream_error }.

(** Where the goroutine is: in [next], in [pw.Write] with bytes still to hand
    over, before the deferred [pw.Close], before the deferred [fire], gone. *)
Inductive producer := Receiving | Writing (b : list ascii) | Deferred | Firing | Exited.

(** An [io.Pipe] is closed for its reader with [Some None] for [io.EOF] or
    [Some (Some e)]; the first close counts.  [closing] calls of [Close] have
    closed the pipe but not fired yet. *)
Record stream := mkStream {
  st_up : upstream; st_prod : producer;
  st_werr : option (option stream_error); st_rclosed : bool;
  st_closing : nat; st_once : bool; st_cancels : nat }.

(** [streamToReader]. *)
Definition streamToReader (u : upstream) : stream := mkStream u Receiving None false 0 false 0.

Inductive read_result := RData (b : list ascii) | REOF | RError (e : stream_error) | RClosedPipe.

Inductive event :=
| Recv                 (** [next] returns what the stream holds *)
| RecvCanceled         (** [next] returns the cancellation of its context *)
| WriteClosed          (** [pw.Write] finds the pipe closed *)
| DeferClose | DeferFire
| Read (n : nat)       (** the caller reads into a buffer of [n] bytes *)
| Close                (** the caller closes the pipe *)
| CloseFire.           (** and fires *)

Definition set_prod (p : producer) (s : stream) : stream :=
  mkStream (st_up s) p (st_werr s) (st_rclosed s) (st_closing s) (st_once s) (st_cancels s).
(** [pw.CloseWithError]: nil is [io.EOF], and only the first error is kept. *)
Definition CloseWithError (e : option stream_error) (s : stream) : stream :=
  mkStream (st_up s) (st_prod s) (Some (default e (st_werr s))) (st_rclosed s) (st_closing s) (st_once s) (st_cancels s).
(** [once.Do(cancel)]. *)
Definition fire (s : stream) : stream :=
  if st_once s then s
  else mkStream (st_up s) (st_prod s) (st_werr s) (st_rclosed s) (st_closing s) true (S (st_cancels s)).
Definition pipe_done (s : stream) : bool := st_rclosed s || bool_decide (is_Some (st_werr s)).
Definition readCloseError (s : stream) : read_result :=
  match st_rclosed s, st_werr s with
  | false, Some None => REOF
  | false, Some (Some e) => RError e
  | _, _ => RClosedPipe
  end.

(** What an event does, where it can happen, and what a read returns. *)
Definition step (ev : event) (s : stream) : option (stream * option read_result) :=
  match ev, st_prod s with
  | Recv, Receiving =>
      match us_chunks (st_up s) with
      | c :: cs =>
          Some (mkStream (mkUpstream cs (us_failure (st_up s))) (Writing c) (st_werr s) (st_rclosed s) (st_closing s) (st_once s) (st_cancels s), None)
      | [] => Some (set_prod Deferred (match us_failure (st_up s) with None => s | Some e => CloseWithError (Some e) s end), None)
      end
  | RecvCanceled, Receiving =>
      if (0 <? st_cancels s)%nat then Some (set_prod Deferred (CloseWithError (Some Canceled) s), None) else None
  | WriteClosed, Writing _ => if pipe_done s then Some (set_prod Deferred s, None) else None
  | DeferClose, Deferred => Some (set_prod Firing (CloseWithError None s), None)
  | DeferFire, Firing => Some (set_prod Exited (fire s), None)
  | Read n, prod =>
      if pipe_done s then Some (s, Some (readCloseError s))
      else match prod with
           | Writing b =>
               let rest := drop n b in
               Some (set_prod (match rest with [] => Receiving | _ => Writing rest end) s, Some (RData (take n b)))
           | _ => None
           end
  | Close, _ =>
      Some (mkStream (st_up s) (st_prod s) (st_werr s) true (S (st_closing s)) (st_once s) (st_cancels s), None)
  | CloseFire, _ =>
      match st_closing s with
      | O => None
      | S k => Some (fire (mkStream (st_up s) (st_prod s) (st_werr s) (st_rclosed s) k (st_once s) (st_cancels s)), None)
      end
  | _, _ => None
  end.

(** A run, with what its reads returned. *)
Fixpoint run (evs : list event) (s : stream) : option (stream * list read_result) :=
  match evs with
  | [] => Some (s, [])
  | ev :: evs' => '(s1, r) ← step ev s; '(s2, rs) ← run evs' s1; Some (s2, option_list r ++ rs)
  end.

(** ** What the caller gets *)

Definition data (rs : list read_result) : list ascii := rs ≫= fun r => match r with RData b => b | _ => [] end.
Definition pending (p : producer) : list ascii := match p with Writing b => b | _ => [] end.
Definition working (p : producer) : bool := match p with Receiving | Writing _ => true | _ => false end.
(** A read that tells how the stream ended. *)
Definition ends (r : read_result) : option (option stream_error) :=
  match r with REOF => Some None | RError e => Some (Some e) | _ => None end.

Lemma data_app rs rs' : data (rs ++ rs') = data rs ++ data rs'.
Proof. apply bind_app. Qed.

Record inv (u : upstream) (rs : list read_result) (s : stream) : Prop := {
  i_data : exists lost, data rs ++ pending (st_prod s) ++ lost ++ concat (us_chunks (st_up s)) = concat (us_chunks u) /\
    (st_rclosed s = false \/ working (st_prod s) = true -> lost = []);
  i_failure : us_failure (st_up s) = us_failure u;
  i_open : working (st_prod s) = true -> st_werr s = None;
  i_over : working (st_prod s) = false -> st_rclosed s = true \/
    us_chunks (st_up s) = [] /\ (st_werr s = Some (us_failure u) \/ st_prod s = Deferred /\ st_werr s = None /\ us_failure u = None);
  i_once : st_cancels s = if st_once s then 1%nat else 0%nat;
  i_fired : st_once s = true -> st_rclosed s = true \/ st_prod s = Exited;
  i_exited : st_prod s = Exited -> st_once s = true;
  i_closing : (0 < st_closing s)%nat -> st_rclosed s = true;
  i_closed : st_rclosed s = true -> st_once s = true \/ (0 < st_closing s)%nat;
  i_ended : forall r e, r ∈ rs -> ends r = Some e -> us_failure u = e /\ data rs = concat (us_chunks u) /\ is_Some (st_werr s) }.

Lemma stream_inv_start u : inv u [] (streamToReader u).
Proof.
  split; cbn; try done.
  - exists []. by split.
  - lia.
  - by intros r e ?%elem_of_nil.
Qed.

(** An event that reads nothing and leaves what is in the stream alone. *)
Lemma inv_quiet u rs s s' : inv u rs s -> st_up s' = st_up s -> st_prod s' = st_prod s -> st_werr s' = st_werr s ->
  (st_rclosed s = true -> st_rclosed s' = true) -> st_cancels s' = (if st_once s' then 1%nat else 0%nat) ->
  (st_once s' = true -> st_rclosed s' = true \/ st_prod s' = Exited) -> (st_once s = true -> st_once s' = true) ->
  ((0 < st_closing s')%nat -> st_rclosed s' = true) -> (st_rclosed s' = true -> st_once s' = true \/ (0 < st_closing s')%nat) -> inv u rs s'.
Proof.
  intros [(lost & Hd & Hl) Hf Ho Hov Hon Hfi Hex Hcl Hcd Hen] Hup Hp Hw Hrc H1 H2 H3 H4 H5.
  split; rewrite ?Hup, ?Hp, ?Hw; [|done|done| |done|by rewrite <- Hp|by intros E; apply H3, Hex|done|done|done].
  - exists lost. split; [done|]. intros E. apply Hl. destruct (st_rclosed s); [|by left]. destruct E as [E|E]; [by rewrite Hrc in E|by right].
  - intros Hwk. destruct (Hov Hwk) as [?|?]; [left; auto|by right].
Qed.

Lemma fire_spec s : st_once (fire s) = true /\ st_up (fire s) = st_up s /\ st_prod (fire s) = st_prod s /\ st_werr (fire s) = st_werr s /\
  st_rclosed (fire s) = st_rclosed s /\ st_closing (fire s) = st_closing s /\
  (st_cancels s = (if st_once s then 1 else 0)%nat -> st_cancels (fire s) = 1%nat).
Proof. unfold fire. destruct (st_once s) eqn:E; [by split_and!|]. cbn. split_and!; try done. by intros ->. Qed.

Lemma inv_read u rs s n s' r : inv u rs s -> step (Read n) s = Some (s', r) -> inv u (rs ++ option_list r) s'.
Proof.
  intros Hi. cbn [step]. destruct (pipe_done s) eqn:Ed.
  - intros [= <- <-]. change (option_list (Some (readCloseError s))) with [readCloseError s]. assert (Hq : data (rs ++ [readCloseError s]) = data rs).
    { rewrite data_app. unfold readCloseError. by destruct (st_rclosed s), (st_werr s) as [[]|]; cbn; rewrite app_nil_r. }
    destruct Hi as [Hd Hf Ho Hov Hon Hfi Hex Hcl Hcd Hen]. split; rewrite ?Hq; try done.
    intros r e [Hr|Hr%list_elem_of_singleton]%elem_of_app He; [by apply (Hen r)|]. subst r. revert He. unfold readCloseError.
    destruct (st_rclosed s) eqn:Er; [done|]. destruct (st_werr s) as [w|] eqn:Ew; [|done].
    assert (Hwk : working (st_prod s) = false) by (apply not_true_is_false; intros E; specialize (Ho E); congruence).
    destruct (Hov Hwk) as [?|[Hc [Hw|(_ & Hw & _)]]]; [congruence| |congruence]. assert (w = us_failure u) as -> by congruence. destruct Hd as (lost & Hd & Hl).
    rewrite Hl, Hc in Hd by by left. assert (Hp : pending (st_prod s) = []) by by destruct (st_prod s). rewrite Hp, !app_nil_r in Hd. cbn in Hd.
    destruct (us_failure u); intros [= <-]; by split_and!.
  - destruct (st_prod s) as [|b| | |] eqn:Ep; try done. intros [= <- <-]. change (option_list (Some (RData (take n b)))) with [RData (take n b)].
    destruct Hi as [(lost & Hd & Hl) Hf Ho Hov Hon Hfi Hex Hcl Hcd Hen]. rewrite Ep in *. cbn in Ho. specialize (Ho eq_refl).
    assert (Hb : take n b ++ pending (match drop n b with [] => Receiving | _ => Writing (drop n b) end) = b).
    { rewrite <- (take_drop n b) at 3. by destruct (drop n b). }
    split; cbn [set_prod st_up st_prod st_werr st_rclosed st_closing st_once st_cancels]; try done.
    + exists lost. split; [|intros _; apply Hl; by right]. rewrite data_app. cbn. rewrite app_nil_r, <- Hd. cbn [pending]. rewrite <- Hb at 3. by rewrite <- !app_assoc.
    + intros Hwk. by destruct (drop n b).
    + intros E. destruct (Hfi E) as [?|?]; [by left|done].
    + by destruct (drop n b).
    + intros r e [Hr|Hr%list_elem_of_singleton]%elem_of_app He; [|by subst]. destruct (Hen r e Hr He) as (_ & _ & [w Hw]). congruence.
Qed.

(** The goroutine moves on, reading nothing. *)
Lemma inv_move u rs s p w lost : inv u rs s -> working (st_prod s) = true \/ st_prod s = Deferred -> working p = false -> p <> Exited ->
  pending (st_prod s) = lost -> (st_rclosed s = true \/ lost = [] /\ us_chunks (st_up s) = [] /\
    (w = Some (us_failure u) \/ p = Deferred /\ w = None /\ us_failure u = None)) ->
  (is_Some (st_werr s) -> is_Some w) ->
  inv u rs (mkStream (st_up s) p w (st_rclosed s) (st_closing s) (st_once s) (st_cancels s)).
Proof.
  intros [(l & Hd & Hl) Hf Ho Hov Hon Hfi Hex Hcl Hcd Hen] Hfrom Hp Hne Hlost Hw Hsome.
  assert (Hpp : pending p = []) by by destruct p.
  split; cbn [st_up st_prod st_werr st_rclosed st_closing st_once st_cancels]; try done.
  - exists (lost ++ l). rewrite Hpp. split; [by rewrite <- app_assoc, <- Hlost|]. intros [E|E]; [|congruence].
    rewrite Hl by by left. destruct Hw as [?|(-> & _)]; [congruence|done].
  - congruence.
  - intros _. destruct Hw as [?|(_ & ? & ?)]; [by left|by right].
  - intros E. destruct (Hfi E) as [?|He]; [by left|]. rewrite He in Hfrom. by destruct Hfrom.
  - intros r e Hr He. destruct (Hen r e Hr He) as (? & ? & ?). auto.
Qed.

Lemma inv_recv u rs s s' r : inv u rs s -> step Recv s = Some (s', r) -> inv u (rs ++ option_list r) s'.
Proof.
  intros Hi. cbn [step]. destruct (st_prod s) eqn:Ep; try done. pose proof (i_open _ _ _ Hi) as Ho. rewrite Ep in Ho. specialize (Ho eq_refl).
  destruct (us_chunks (st_up s)) as [|c cs] eqn:Ec; intros [= <- <-]; rewrite (app_nil_r rs : rs ++ option_list None = rs).
  - pose proof (i_failure _ _ _ Hi) as Hf. destruct (us_failure (st_up s)) as [e|] eqn:Ef.
    + apply (inv_move u rs s Deferred (Some (default (Some e) (st_werr s))) []); rewrite ?Ep; try done; [by left|]. right.
      split; [done|]. split; [done|]. left. rewrite Ho. cbn. by rewrite Hf.
    + replace (set_prod Deferred s) with (mkStream (st_up s) Deferred (st_werr s) (st_rclosed s) (st_closing s) (st_once s) (st_cancels s)) by done.
      apply (inv_move u rs s Deferred (st_werr s) []); rewrite ?Ep; try done; [by left|]. right.
      split; [done|]. split; [done|]. right. by rewrite Ho, <- Hf.
  - destruct Hi as [(l & Hd & Hl) Hf _ Hov Hon Hfi Hex Hcl Hcd Hen]. rewrite Ep in *.
    split; cbn [st_up st_prod st_werr st_rclosed st_closing st_once st_cancels us_chunks us_failure]; try done.
    + exists l. split; [|intros _; apply Hl; by right]. rewrite <- Hd, Ec, Hl by by right. cbn [pending concat app]. done.
    + intros E. destruct (Hfi E) as [?|?]; [by left|done].
Qed.

Lemma stream_inv_step u rs s ev s' r : inv u rs s -> step ev s = Some (s', r) -> inv u (rs ++ option_list r) s'.
Proof.
  intros Hi. destruct ev; [by apply inv_recv|..|by apply inv_read| |].
  - cbn [step]. destruct (st_prod s) eqn:Ep; try done. destruct (0 <? st_cancels s)%nat eqn:Ec; [|done]. intros [= <- <-].
    rewrite (app_nil_r rs : rs ++ option_list None = rs).
    apply (inv_move u rs s Deferred (Some (default (Some Canceled) (st_werr s))) []); rewrite ?Ep; try done; [by left|]. left.
    apply Nat.ltb_lt in Ec. rewrite (i_once _ _ _ Hi) in Ec. destruct (st_once s) eqn:Eo; [|lia].
    destruct (i_fired _ _ _ Hi Eo) as [?|?]; [done|congruence].
  - cbn [step]. destruct (st_prod s) as [|b| | |] eqn:Ep; try done. destruct (pipe_done s) eqn:Ed; [|done]. intros [= <- <-].
    rewrite (app_nil_r rs : rs ++ option_list None = rs).
    apply (inv_move u rs s Deferred (st_werr s) b); rewrite ?Ep; try done; [by left|]. left.
    unfold pipe_done in Ed. rewrite (i_open _ _ _ Hi) in Ed by by rewrite Ep. by destruct (st_rclosed s).
  - cbn [step]. destruct (st_prod s) eqn:Ep; try done. intros [= <- <-]. rewrite (app_nil_r rs : rs ++ option_list None = rs).
    apply (inv_move u rs s Firing (Some (default None (st_werr s))) []); rewrite ?Ep; try done; [by right|].
    destruct (i_over _ _ _ Hi) as [?|(Hc & Hw)]; [by rewrite Ep|by left|]. right. split; [done|]. split; [done|]. left.
    destruct Hw as [->|(_ & -> & ->)]; done.
  - cbn [step]. destruct (st_prod s) eqn:Ep; try done. intros [= <- <-]. rewrite (app_nil_r rs : rs ++ option_list None = rs).
    destruct (fire_spec s) as (F1 & F2 & F3 & F4 & F5 & F6 & F7). destruct Hi as [(l & Hd & Hl) Hf Ho Hov Hon Hfi Hex Hcl Hcd Hen]. rewrite Ep in *.
    split; cbn [set_prod st_up st_prod st_werr st_rclosed st_closing st_once st_cancels]; rewrite ?F1, ?F2, ?F3, ?F4, ?F5, ?F6; try done.
    + exists l. split; [done|]. intros [?|?]; [apply Hl; by left|done].
    + intros _. destruct Hov as [?|(? & [?|(? & _)])]; [done|by left|right; by split; [|left]|done].
    + by apply F7.
    + by right.
    + by left.
  - cbn [step]. intros [= <- <-]. rewrite (app_nil_r rs : rs ++ option_list None = rs).
    apply (inv_quiet u rs s); cbn; try done; [apply Hi| |].
    + intros E. by left.
    + intros _. right. lia.
  - cbn [step]. destruct (st_closing s) as [|k] eqn:Ek; [done|]. intros [= <- <-]. rewrite (app_nil_r rs : rs ++ option_list None = rs).
    pose proof (i_closing _ _ _ Hi ltac:(lia)) as Hc. match goal with |- inv u rs (fire ?x) => destruct (fire_spec x) as (F1 & F2 & F3 & F4 & F5 & F6 & F7) end.
    apply (inv_quiet u rs s); rewrite ?F1, ?F2, ?F3, ?F4, ?F5, ?F6; try done; cbn; try done.
    + apply F7. apply Hi.
    + by left.
    + by left.
Qed.

Lemma run_inv u evs : forall rs0 s s' rs, inv u rs0 s -> run evs s = Some (s', rs) -> inv u (rs0 ++ rs) s'.
Proof.
  induction evs as [|ev evs IH]; intros rs0 s s' rs Hi; cbn [run]; [intros [= <- <-]; by rewrite app_nil_r|].
  intros H. apply bind_Some in H as ([s1 r] & H1 & H). apply bind_Some in H as ([s2 rs2] & H2 & [= <- <-]). rewrite app_assoc.
  by eapply IH; [eapply stream_inv_step|].
Qed.

(** An event other than a read after the end, an empty read, and [Close]. *)
Definition advances (ev : event) (s : stream) : bool :=
  match ev with
  | Read n => match st_prod s with Writing b => negb (pipe_done s) && ((0 <? n)%nat || bool_decide (b = [])) | _ => false end
  | Close => false
  | _ => true
  end.
Definition base (p : producer) : nat :=
  match p with Receiving => 3 | Writing b => length b + 4 | Deferred => 2 | Firing => 1 | Exited => 0 end.
Definition measure (s : stream) : nat :=
  sum_list_with (fun c => length c + 3)%nat (us_chunks (st_up s)) + base (st_prod s) + st_closing s.

Lemma measure_fire s : measure (fire s) = measure s.
Proof. unfold measure. destruct (fire_spec s) as (_ & -> & -> & _ & _ & -> & _). done. Qed.

Lemma advances_decreases ev s s' r : step ev s = Some (s', r) -> advances ev s = true -> (measure s' < measure s)%nat.
Proof.
  unfold measure. destruct ev; cbn [step advances]; try done.
  - destruct (st_prod s) eqn:Ep; try done. destruct (us_chunks (st_up s)) as [|c cs] eqn:Ec; intros [= <- <-] _; cbn; [|lia].
    destruct (us_failure (st_up s)); cbn; rewrite Ec; cbn; lia.
  - destruct (st_prod s) eqn:Ep; try done. destruct (_ <? _)%nat; [|done]. intros [= <- <-] _. cbn. lia.
  - destruct (st_prod s) eqn:Ep; try done. destruct (pipe_done s); [|done]. intros [= <- <-] _. cbn. lia.
  - destruct (st_prod s) eqn:Ep; try done. intros [= <- <-] _. cbn. lia.
  - destruct (st_prod s) eqn:Ep; try done. intros [= <- <-] _. cbn [set_prod st_up st_prod st_closing].
    destruct (fire_spec s) as (_ & -> & _ & _ & _ & -> & _). cbn. lia.
  - destruct (pipe_done s); [by destruct (st_prod s)|]. destruct (st_prod s) as [|b| | |] eqn:Ep; try done. intros [= <- <-] Ha. cbn [negb andb] in Ha.
    cbn [set_prod st_up st_prod st_closing]. assert (Hl : length (drop n b) = (length b - n)%nat) by apply length_drop.
    apply orb_true_iff in Ha as [Ha%Nat.ltb_lt|Ha]; [|apply bool_decide_eq_true in Ha as ->; rewrite drop_nil; cbn; lia].
    destruct (drop n b) as [|x l] eqn:E; cbn in *; lia.
  - destruct (st_closing s) as [|k] eqn:Ek; [done|]. intros [= <- <-] _. fold (measure (fire (mkStream (st_up s) (st_prod s) (st_werr s) (st_rclosed s) k (st_once s) (st_cancels s)))).
    rewrite measure_fire. unfold measure. cbn. lia.
Qed.

Fixpoint advancing (evs : list event) (s : stream) : Prop :=
  match evs with
  | [] => True
  | ev :: evs' => advances ev s = true /\ match step ev s with Some (s1, _) => advancing evs' s1 | None => True end
  end.

Lemma advancing_bounded evs : forall s s' rs, run evs s = Some (s', rs) -> advancing evs s -> (length evs + measure s' <= measure s)%nat.
Proof.
  induction evs as [|ev evs IH]; intros s s' rs; cbn [run advancing]; [intros [= <- <-] _; cbn; lia|].
  intros H [Ha Hr]. apply bind_Some in H as ([s1 r] & H1 & H). apply bind_Some in H as ([s2 rs2] & H2 & [= <- <-]).
  rewrite H1 in Hr. pose proof (advances_decreases _ _ _ _ H1 Ha). specialize (IH _ _ _ H2 Hr). cbn. lia.
Qed.

Lemma can_advance s : st_prod s <> Exited -> exists ev, advances ev s = true /\ is_Some (step ev s) /\ (st_rclosed s = true -> forall n, ev <> Read n).
Proof.
  intros Hp. destruct (st_prod s) as [|b| | |] eqn:Ep; [| | | |done].
  - exists Recv. cbn [step advances]. rewrite Ep. split_and!; [done| |done]. destruct (us_chunks _); by eexists.
  - destruct (pipe_done s) eqn:Ed.
    + exists WriteClosed. cbn [step advances]. rewrite Ep, Ed. split_and!; [done|by eexists|done].
    + exists (Read 1). cbn [step advances]. rewrite Ep, Ed. split_and!; [done|by eexists|]. unfold pipe_done in Ed. by destruct (st_rclosed s).
  - exists DeferClose. cbn [step advances]. rewrite Ep. split_and!; [done|by eexists|done].
  - exists DeferFire. cbn [step advances]. rewrite Ep. split_and!; [done|by eexists|done].
Qed.

(** C31: However the goroutine and its caller interleave, the caller reads the
    stream's bytes in order, none twice and none left out; it is told
    [io.EOF], or an error, only when the stream has ended so and after all its
    bytes; and the upstream call is cancelled at most once, and has been once
    the goroutine is gone or a close has returned. *)
Theorem stream_faithful u evs s rs : run evs (streamToReader u) = Some (s, rs) ->
  (exists rest, concat (us_chunks u) = data rs ++ rest) /\
  (forall r e, r ∈ rs -> ends r = Some e -> us_failure u = e /\ data rs = concat (us_chunks u)) /\
  (st_cancels s <= 1)%nat /\
  (st_prod s = Exited \/ st_rclosed s = true /\ st_closing s = 0%nat -> st_cancels s = 1%nat).
Proof.
  intros H. apply (run_inv u evs [] _ s rs (stream_inv_start u)) in H as [(l & Hd & _) _ _ _ Hon _ Hex _ Hcd Hen]. cbn [app] in *. split_and!.
  - rewrite <- Hd. by eexists.
  - intros r e Hr He. destruct (Hen r e Hr He) as (? & ? & _). done.
  - destruct (st_once s); lia.
  - rewrite Hon. intros [He|[Hc Hz]]; [by rewrite (Hex He)|]. destruct (Hcd Hc) as [->|?]; [done|lia].
Qed.

(** The goroutine does not leak: from every state, what it and its caller do
    without reading in vain is over after a number of events that the bytes
    left bound; until the goroutine is gone one of them can happen; and once
    the caller has closed the reader, one that does not need the caller to
    read. *)
Theorem stream_ends s :
  (forall evs s' rs, run evs s = Some (s', rs) -> advancing evs s -> (length evs <= measure s)%nat) /\
  (st_prod s <> Exited -> exists ev, advances ev s = true /\ is_Some (step ev s) /\ (st_rclosed s = true -> forall n, ev <> Read n)).
Proof.
  split; [|apply can_advance]. intros evs s' rs H Ha. pose proof (advancing_bounded evs s s' rs H Ha). lia.
Qed.

(** ** Samples *)

Definition sample_upstream : upstream := mkUpstream [s2l "abc"; []; s2l "de"] None.
Definition read_all : list event :=
  [Recv; Read 2; Read 2; Recv; Read 2; Recv; Read 2; Recv; DeferClose; DeferFire; Read 2; Close; CloseFire].
Example read_to_the_end : run read_all (streamToReader sample_upstream) =
  Some (mkStream (mkUpstream [] None) Exited (Some None) true 0 true 1,
        [RData (s2l "ab"); RData (s2l "c"); RData []; RData (s2l "de"); REOF]).
Proof. vm_compute. reflexivity. Qed.

(** The caller gives up in the middle of a chunk. *)
Example closed_early : run [Recv; Read 1; Close; WriteClosed; CloseFire; DeferClose; DeferFire; Read 5] (streamToReader sample_upstream) =
  Some (mkStream (mkUpstream [[]; s2l "de"] None) Exited (Some None) true 0 true 1, [RData (s2l "a"); RClosedPipe]).
Proof. vm_compute. reflexivity. Qed.

Definition read_state : stream := mkStream (mkUpstream [] None) Exited (Some None) true 0 true 1.
Definition read_results : list read_result := [RData (s2l "ab"); RData (s2l "c"); RData []; RData (s2l "de"); REOF].
Lemma stream_faithful_witness :
  (exists rest, concat (us_chunks sample_upstream) = data read_results ++ rest) /\
  (forall r e, r ∈ read_results -> ends r = Some e -> us_failure sample_upstream = e /\ data read_results = concat (us_chunks sample_upstream)) /\
  (st_cancels read_state <= 1)%nat /\
  (st_prod read_state = Exited \/ st_rclosed read_state = true /\ st_closing read_state = 0%nat -> st_cancels read_state = 1%nat).
Proof. apply (stream_faithful sample_upstream read_all). vm_compute. reflexivity. Defined.
