(* ===== verification/GitProxy.v ===== *)
(** * The Git proxy

    [plane/git/rpc/proxy.go] and [plane/git/client/pool.go]: a push goes through
    the pre-receive hook, the locator and the connection pool to a Gitaly
    stream, chunk by chunk, and is metered before its answer is handed on.  The
    answers are the streams of GitStream.v; the hook, the locator and the
    counter are those the proxy is made with. *)

From S2P Require Import Prelude GoStd Uuid Outbox Actions CacheStore MetadataStore AgentsHook ReadThrough GitMeter GitStream.

(** ** client/pool.go *)
Section pool.
Context {K : Type}.

Record GitalyPool := mkPool { gp_conns : gmap string K; gp_closed : bool }.
Definition NewGitalyPool : GitalyPool := mkPool ∅ false.

Inductive pool_error := PoolClosed | DialFailed.

(** [dialed] is what [grpc.NewClient] answers. *)
Definition Conn (dialed : string -> option K) (target : string) : action pool_error GitalyPool K := fun p =>
  if gp_closed p then (p, Err PoolClosed)
  else match gp_conns p !! target with
       | Some c => (p, Ok c)
       | None => match dialed target with
                 | None => (p, Err DialFailed)
                 | Some c => (mkPool (<[target := c]> (gp_conns p)) false, Ok c)
                 end
       end.
(** With the connections it closes. *)
Definition Close `{MapRange} (p : GitalyPool) : GitalyPool * list K :=
  if gp_closed p then (p, []) else (mkPool ∅ true, range_keyed (gp_conns p)).

(** A connection is kept until the pool is closed. *)
Lemma Conn_keeps dialed target p p' c : Conn dialed target p = (p', Ok c) ->
  gp_conns p' !! target = Some c /\ gp_closed p' = false /\ (forall t k, gp_conns p !! t = Some k -> gp_conns p' !! t = Some k) /\
  forall dialed', Conn dialed' target p' = (p', Ok c).
Proof.
  unfold Conn. destruct (gp_closed p) eqn:Ec; [done|]. destruct (gp_conns p !! target) as [c0|] eqn:E.
  - intros [= <- <-]. rewrite Ec, E. by split_and!.
  - destruct (dialed target) as [c0|]; [|done]. intros [= <- <-]. cbn. rewrite lookup_insert_eq. split_and!; try done.
    intros t k Hk. rewrite lookup_insert_ne; [done|congruence].
Qed.
End pool.
Arguments GitalyPool K : clear implicits.

(** ** rpc/proxy.go *)

Definition receivePackChunkSize : Z := Z.shiftl 1 20.

Record GitRepository := mkGitRepository { StorageName : string; RelativePath : string }.

Inductive git_error :=
| PermissionDenied (msg : string) | NotFound | LocatorFailed (e : locator_error) | Unavailable (e : pool_error)
| InvalidArgument | Unimplemented | OpenFailed | HeaderFailed | DataFailed | BodyFailed | CloseSendFailed | MeterFailed (e : error).

(** What Gitaly sees of a call. *)
Inductive frame := Header (repo : GitRepository) (glID glRepository : string) | Data (chunk : list ascii).
Inductive call := InfoRefsCall (service : string) (repo : GitRepository) | Opened | Sent (f : frame) | ClosedSend | Cancelled.

(** How Gitaly takes a call: whether the stream opens, each message can be sent
    and the sending side can be closed, and what it answers. *)
Record gitaly := mkGitaly { gl_open : bool; gl_send : nat -> bool; gl_close : bool; gl_answer : upstream }.

(** An answer of [Read] on the body: at most a buffer of bytes, and how the
    body ended if it did.  A list of them that just stops ends with
    [io.EOF]. *)
Inductive body_end := BodyEOF | BodyError.
Record read_answer := mkRead { rd_data : list ascii; rd_end : option body_end }.

Section proxy.
Context {K M : Type} `{!Counter M}.
Context (dialed : string -> option K) (locate : string -> result locator_error FileServerAddr) (hook : RepoRef -> list RefUpdate -> option string).

Record GitalyProxy := mkProxy { px_pool : GitalyPool K; px_meter : M; px_calls : list call }.
Notation act := (action git_error GitalyProxy).

Definition note (c : call) : act unit := fun p => (mkProxy (px_pool p) (px_meter p) (px_calls p ++ [c]), Ok tt).
Definition on_pool {A} (m : action pool_error (GitalyPool K) A) : act A := fun p =>
  let '(pool, r) := m (px_pool p) in
  (mkProxy pool (px_meter p) (px_calls p), match r with Ok a => Ok a | Err e => Err (Unavailable e) end).
Definition on_meter (m : action error M unit) : act unit := fun p =>
  let '(meter, r) := m (px_meter p) in
  (mkProxy (px_pool p) meter (px_calls p), match r with Ok a => Ok a | Err e => Err (MeterFailed e) end).
(** [cancel] on the way out of a failure. *)
Definition cancelling {A} (m : act A) : act A := fun p =>
  match m p with
  | (p', Ok a) => (p', Ok a)
  | (p', Err e) => ((note Cancelled p').1, Err e)
  end.

Definition resolve (repoID : string) : act (FileServerAddr * GitRepository) :=
  match locate repoID with
  | Err ErrRepoNotFound => throw NotFound
  | Err e => throw (LocatorFailed e)
  | Ok addr => ret (addr, mkGitRepository (ReplicaSetID addr) (repoID +:+ ".git"))
  end.
Definition dial (addr : string) : act unit := let! _ := on_pool (Conn dialed addr) in ret tt.

Definition InfoRefs (g : gitaly) (ref : RepoRef) (service : string) : act stream :=
  let! x := resolve (rr_RepoID ref) in
  let! _ := dial (Addr x.1) in
  cancelling (
    let! _ := require (bool_decide (service ∈ ["git-upload-pack"; "git-receive-pack"])) InvalidArgument in
    let! _ := require (gl_open g) OpenFailed in
    let! _ := note (InfoRefsCall service x.2) in
    ret (streamToReader (gl_answer g))).

Definition UploadPack (ref : RepoRef) : act stream := throw Unimplemented.

Definition send (g : gitaly) (k : nat) (f : frame) (failure : git_error) : act unit :=
  let! _ := require (gl_send g k) failure in note (Sent f).

(** [k] messages have been sent. *)
Fixpoint forwardChunks (g : gitaly) (k : nat) (body : list read_answer) (total : Z) : act Z :=
  match body with
  | [] => ret total
  | a :: body' =>
      let chunk := rd_data a in
      let sends := negb (bool_decide (chunk = [])) in
      let! _ := if sends then send g k (Data chunk) DataFailed else ret tt in
      let total := if sends then wrap64 (total + Z.of_nat (length chunk)) else total in
      match rd_end a with
      | Some BodyEOF => ret total
      | Some BodyError => throw BodyFailed
      | None => forwardChunks g (if sends then S k else k) body' total
      end
  end.

(** From the opening of the stream on. *)
Definition push_stream (g : gitaly) (ref : RepoRef) (updates : list RefUpdate) (repo : GitRepository) (body : list read_answer) : act stream :=
  let! _ := require (gl_open g) OpenFailed in
  let! _ := note Opened in
  let! _ := send g 0 (Header repo (rr_AgentID ref) (rr_RepoID ref)) HeaderFailed in
  let! totalBytes := forwardChunks g 1 body 0 in
  let! _ := require (gl_close g) CloseSendFailed in
  let! _ := note ClosedSend in
  let! _ := on_meter (Record_ (mkOperation ref OpReceivePack totalBytes 0 (Z.of_nat (length updates)))) in
  ret (streamToReader (gl_answer g)).

Definition ReceivePack (g : gitaly) (ref : RepoRef) (updates : list RefUpdate) (body : list read_answer) : act stream :=
  let! _ := match hook ref updates with Some msg => throw (PermissionDenied msg) | None => ret tt end in
  let! x := resolve (rr_RepoID ref) in
  let! _ := dial (Addr x.1) in
  cancelling (push_stream g ref updates x.2 body).
End proxy.
Arguments GitalyProxy K M : clear implicits.

(** ** What a push does *)

(** The bytes of a body, and whether it came to its end. *)
Fixpoint body_chunks (body : list read_answer) : list (list ascii) :=
  match body with
  | [] => []
  | a :: body' =>
      let rest := match rd_end a with Some _ => [] | None => body_chunks body' end in
      if bool_decide (rd_data a = []) then rest else rd_data a :: rest
  end.
Fixpoint body_complete (body : list read_answer) : bool :=
  match body with
  | [] => true
  | a :: body' => match rd_end a with Some BodyEOF => true | Some BodyError => false | None => body_complete body' end
  end.

Lemma body_chunks_nonempty body : Forall (fun c => c <> []) (body_chunks body).
Proof. induction body as [|[c e] body IH]; cbn; [done|]. repeat case_match; reflect_bools; repeat constructor; done. Qed.
Lemma body_chunks_bounded n body : Forall (fun a => Z.of_nat (length (rd_data a)) <= n) body -> Forall (fun c => Z.of_nat (length c) <= n) (body_chunks body).
Proof. induction 1 as [|[c e] body Hc _ IH]; cbn in *; [done|]. repeat case_match; repeat constructor; done. Qed.

Section push.
Context {K M : Type} `{!Counter M}.
Context (dialed : string -> option K) (locate : string -> result locator_error FileServerAddr) (hook : RepoRef -> list RefUpdate -> option string).
Notation proxy := (GitalyProxy K M).

(** A proxy that has told Gitaly more. *)
Definition told_more (p p' : proxy) (l : list call) : Prop := p' = mkProxy (px_pool p) (px_meter p) (px_calls p ++ l).

Lemma told_more_nil (p : proxy) : told_more p p [].
Proof. unfold told_more. rewrite app_nil_r. by destruct p. Qed.
Lemma told_more_app (p1 p2 p3 : proxy) l1 l2 : told_more p1 p2 l1 -> told_more p2 p3 l2 -> told_more p1 p3 (l1 ++ l2).
Proof. unfold told_more. intros -> ->. cbn. by rewrite app_assoc. Qed.

Lemma forwardChunks_spec g body : forall k total (p : proxy), exists sent,
  told_more p (forwardChunks g k body total p).1 (map (fun c => Sent (Data c)) sent) /\
  match (forwardChunks g k body total p).2 with
  | Ok n => body_complete body = true /\ sent = body_chunks body /\ wrap64 n = wrap64 (total + Z.of_nat (length (concat sent))) /\ (is_int64 total -> is_int64 n)
  | Err e => e ∈ [DataFailed; BodyFailed] /\ sent `prefix_of` body_chunks body
  end.
Proof.
  induction body as [|a body IH]; intros k total p; cbn [forwardChunks].
  { exists []. split; [apply told_more_nil|]. cbn. by rewrite Z.add_0_r. }
  cbn [body_chunks body_complete]. destruct (bool_decide_reflect (rd_data a = [])) as [Hc|Hc]; cbn [negb].
  - unfold bind. cbn [ret]. destruct (rd_end a) as [[]|].
    + exists []. split; [apply told_more_nil|]. cbn. by rewrite Z.add_0_r.
    + exists []. split; [apply told_more_nil|]. cbn. split; [set_solver|done].
    + apply IH.
  - unfold bind, send, require, throw. unfold bind. destruct (gl_send g k); cbn [ret].
    2: { exists []. split; [apply told_more_nil|]. cbn. split; [set_solver|apply prefix_nil]. }
    unfold note at 1 2. cbn [fst snd].
    set (p1 := mkProxy (px_pool p) (px_meter p) (px_calls p ++ [Sent (Data (rd_data a))])).
    assert (H1 : told_more p p1 [Sent (Data (rd_data a))]) by done.
    destruct (rd_end a) as [[]|].
    + exists [rd_data a]. split; [done|]. cbn. rewrite app_nil_r. split_and!; [done|done|by rewrite wrap64_id by apply wrap64_range|intros _; apply wrap64_range].
    + exists [rd_data a]. split; [done|]. cbn. split; [set_solver|done].
    + destruct (IH (S k) (wrap64 (total + Z.of_nat (length (rd_data a)))) p1) as (sent & Hs & Hr). exists (rd_data a :: sent).
      split; [exact (told_more_app _ _ _ _ _ H1 Hs)|]. destruct (forwardChunks g (S k) body _ p1).2 as [n|e].
      * destruct Hr as (? & -> & Hn & Hi). split_and!; [done|done| |intros _; apply Hi, wrap64_range]. rewrite Hn, wrap64_add_l. cbn. rewrite length_app.
        f_equal. lia.
      * destruct Hr as [? Hp]. split; [done|]. by apply prefix_cons.
Qed.

Definition header (ref : RepoRef) (addr : FileServerAddr) : frame :=
  Header (mkGitRepository (ReplicaSetID addr) (rr_RepoID ref +:+ ".git")) (rr_AgentID ref) (rr_RepoID ref).
(** A whole push, as Gitaly sees it and as it is metered. *)
Definition whole_push (ref : RepoRef) (addr : FileServerAddr) (body : list read_answer) : list call :=
  [Opened; Sent (header ref addr)] ++ map (fun c => Sent (Data c)) (body_chunks body) ++ [ClosedSend].
Definition metered (ref : RepoRef) (updates : list RefUpdate) (body : list read_answer) : operation :=
  mkOperation ref OpReceivePack (wrap64 (Z.of_nat (length (concat (body_chunks body))))) 0 (Z.of_nat (length updates)).

(** How a push can end. *)
Inductive push_outcome (g : gitaly) (ref : RepoRef) (updates : list RefUpdate) (body : list read_answer) (p : proxy)
  : proxy -> result git_error stream -> Prop :=
| Rejected msg : hook ref updates = Some msg -> push_outcome g ref updates body p p (Err (PermissionDenied msg))
| Unreached p' e : hook ref updates = None -> px_meter p' = px_meter p -> px_calls p' = px_calls p -> push_outcome g ref updates body p p' (Err e)
| Interrupted p' e l : hook ref updates = None -> px_meter p' = px_meter p -> px_calls p' = px_calls p ++ l ++ [Cancelled] ->
    (forall addr, locate (rr_RepoID ref) = Ok addr -> l `prefix_of` whole_push ref addr body) -> push_outcome g ref updates body p p' (Err e)
| Unmetered p' e addr : hook ref updates = None -> locate (rr_RepoID ref) = Ok addr -> body_complete body = true ->
    Record_ (metered ref updates body) (px_meter p) = (px_meter p', Err e) ->
    px_calls p' = px_calls p ++ whole_push ref addr body ++ [Cancelled] -> push_outcome g ref updates body p p' (Err (MeterFailed e))
| Pushed p' addr : hook ref updates = None -> locate (rr_RepoID ref) = Ok addr -> body_complete body = true ->
    Record_ (metered ref updates body) (px_meter p) = (px_meter p', Ok tt) ->
    px_calls p' = px_calls p ++ whole_push ref addr body -> push_outcome g ref updates body p p' (Ok (streamToReader (gl_answer g))).

Lemma dial_spec addr (p : proxy) : px_meter (dial dialed addr p).1 = px_meter p /\ px_calls (dial dialed addr p).1 = px_calls p.
Proof. unfold dial, bind, on_pool. by destruct (Conn dialed addr (px_pool p)) as [pool [c|e]]. Qed.

Lemma push_stream_cases g ref updates body addr (p : proxy) :
  let r := push_stream g ref updates (mkGitRepository (ReplicaSetID addr) (rr_RepoID ref +:+ ".git")) body p in
  match r.2 with
  | Ok s => s = streamToReader (gl_answer g) /\ body_complete body = true /\
      Record_ (metered ref updates body) (px_meter p) = (px_meter r.1, Ok tt) /\ px_calls r.1 = px_calls p ++ whole_push ref addr body
  | Err e =>
      (exists l, px_meter r.1 = px_meter p /\ px_calls r.1 = px_calls p ++ l /\ l `prefix_of` whole_push ref addr body) \/
      exists e', e = MeterFailed e' /\ body_complete body = true /\
        Record_ (metered ref updates body) (px_meter p) = (px_meter r.1, Err e') /\ px_calls r.1 = px_calls p ++ whole_push ref addr body
  end.
Proof.
  cbv zeta. unfold push_stream, send, require, throw. unfold bind at 1 10. destruct (gl_open g); cbn [ret].
  2: { left. exists []. cbn. rewrite app_nil_r. split_and!; [done|done|apply prefix_nil]. }
  unfold bind. cbn [note fst snd]. destruct (gl_send g 0); cbn [note ret fst snd px_pool px_meter px_calls].
  2: { left. exists [Opened]. split_and!; [done|done|]. by eexists. }
  set (p1 := mkProxy _ _ _). destruct (forwardChunks_spec g body 1 0 p1) as (sent & Hs & Hr).
  destruct (forwardChunks g 1 body 0 p1) as [p2 [n|e]]; cbn [fst snd] in *; unfold told_more in Hs; subst p2; cbn [px_meter px_calls p1] in *.
  2: { left. eexists. split; [done|]. split; [by rewrite <- !app_assoc|]. unfold whole_push. destruct Hr as [_ [rest ->]].
       exists (map (fun c => Sent (Data c)) rest ++ [ClosedSend]). rewrite map_app. by rewrite <- !app_assoc. }
  destruct Hr as (Hc & -> & Hn & Hi). assert (n = wrap64 (Z.of_nat (length (concat (body_chunks body))))) as ->.
  { transitivity (wrap64 n); [symmetry; apply wrap64_id, Hi; split; done|exact Hn]. }
  destruct (gl_close g); cbn [note ret fst snd px_pool px_meter px_calls].
  2: { left. eexists. split; [done|]. split; [by rewrite <- !app_assoc|]. unfold whole_push. exists [ClosedSend]. by rewrite <- !app_assoc. }
  unfold on_meter. cbn [px_pool px_meter px_calls]. fold (metered ref updates body).
  assert (Hcalls : forall m : M, px_calls (mkProxy (px_pool p) m ((((px_calls p ++ [Opened]) ++ [Sent (header ref addr)]) ++
    map (fun c => Sent (Data c)) (body_chunks body)) ++ [ClosedSend])) = px_calls p ++ whole_push ref addr body).
  { intros m. unfold whole_push. cbn. by rewrite <- !app_assoc. }
  destruct (Record_ _ (px_meter p)) as [m [[]|e]] eqn:Em; cbn [fst snd px_meter].
  - split_and!; [done|done|done|apply (Hcalls m)].
  - right. exists e. split_and!; [done|done|done|apply (Hcalls m)].
Qed.

Lemma ReceivePack_cases g ref updates body (p : proxy) :
  push_outcome g ref updates body p (ReceivePack dialed locate hook g ref updates body p).1 (ReceivePack dialed locate hook g ref updates body p).2.
Proof.
  unfold ReceivePack, bind. destruct (hook ref updates) as [msg|] eqn:Eh; [by apply Rejected|]. cbn [ret].
  unfold resolve. destruct (locate (rr_RepoID ref)) as [addr|[]] eqn:El; cbn [throw ret]; [|by apply Unreached..].
  cbn [fst snd]. destruct (dial_spec (Addr addr) p) as [D1 D2]. destruct (dial dialed (Addr addr) p) as [p1 [[]|e]]; cbn [fst snd] in *; [|by apply Unreached].
  unfold cancelling. pose proof (push_stream_cases g ref updates body addr p1) as Hc. cbv zeta in Hc. rewrite D1, D2 in Hc.
  destruct (push_stream _ _ _ _ _ p1) as [p2 [s|e]]; cbn [fst snd] in *.
  - destruct Hc as (-> & ? & ? & ?). by apply (Pushed _ _ _ _ _ _ addr).
  - cbn [note fst snd]. destruct Hc as [(l & Hm & Hcl & Hp)|(e' & -> & Hb & Hr & Hcl)].
    + apply (Interrupted _ _ _ _ _ _ _ l); [done|done|cbn; by rewrite Hcl, <- app_assoc|]. intros addr'. rewrite El. by intros [= <-].
    + apply (Unmetered _ _ _ _ _ _ _ addr); [done..|cbn; by rewrite Hcl, <- app_assoc].
Qed.
End push.

(** C29: A push is answered exactly when it has been accounted for: with the
    two-tier counter, one event with all its bytes is in the outbox for a push
    that is answered, and none for one that fails, however it fails; Gitaly was
    given the header and then the body, unchanged, in frames of at most a
    mebibyte; and a push that the hook rejects reaches neither Gitaly nor the
    counter nor the pool. *)
Theorem pushes_are_accounted {K P C} Parse {MR : MapRange} `{!CacheStore C} (pay : MeteringEvent -> P) (dialed : string -> option K) locate hook
    g ref updates body (p p' : GitalyProxy K (TwoTierCounter P C)) r :
  let H := two_tier_counter Parse pay in
  let meter := px_meter p in
  Forall (fun a => Z.of_nat (length (rd_data a)) <= receivePackChunkSize) body ->
  ReceivePack dialed locate hook g ref updates body p = (p', r) ->
  outbox (tt_store (px_meter p')) = outbox (tt_store meter) ++
    (if is_ok r then [outbox_row Parse pay (tt_calls meter 0%nat) (metered ref updates body)] else []) /\
  (is_Some (hook ref updates) -> p' = p /\ is_ok r = false) /\
  (forall s, r = Ok s -> s = streamToReader (gl_answer g) /\ exists addr chunks, locate (rr_RepoID ref) = Ok addr /\
     px_calls p' = px_calls p ++ [Opened; Sent (header ref addr)] ++ map (fun c => Sent (Data c)) chunks ++ [ClosedSend] /\
     concat chunks = concat (body_chunks body) /\ Forall (fun c => 0 < Z.of_nat (length c) <= receivePackChunkSize) chunks).
Proof.
  intros H meter Hb E. pose proof (ReceivePack_cases dialed locate hook g ref updates body p) as Hc. rewrite E in Hc. cbn [fst snd] in Hc.
  assert (Hrec : forall r0 m, Record_ (metered ref updates body) meter = (m, r0) ->
    outbox (tt_store m) = outbox (tt_store meter) ++ (if is_ok r0 then [outbox_row Parse pay (tt_calls meter 0%nat) (metered ref updates body)] else [])).
  { intros r0 m. cbn [Record_ H two_tier_counter]. rewrite Record_spec. cbv zeta. intros [= <- <-]. cbn [tt_store].
    destruct (mc_error _); cbn; by rewrite ?app_nil_r. }
  destruct Hc as [msg Hh|p' e Hh Hm Hcl|p' e l Hh Hm Hcl Hp|p' e addr Hh Hl Hbc Hr Hcl|p' addr Hh Hl Hbc Hr Hcl]; cbn [is_ok]; rewrite ?Hh.
  1,2,3,4: split_and!; [|try done; by intros [? ?]|done].
  - by rewrite app_nil_r.
  - by rewrite Hm, app_nil_r.
  - by rewrite Hm, app_nil_r.
  - exact (Hrec _ _ Hr).
  - split_and!; [exact (Hrec _ _ Hr)|by intros [? ?]|]. intros s [= <-]. split; [done|]. exists addr, (body_chunks body).
    split_and!; [done|done|done|]. apply Forall_forall. intros c Hc.
    pose proof (body_chunks_nonempty body) as H1. pose proof (body_chunks_bounded _ _ Hb) as H2.
    rewrite Forall_forall in H1, H2. specialize (H1 c Hc). specialize (H2 c Hc). destruct c; [done|]. cbn [length] in *. lia.
Qed.

(** ** A sample *)

Section push_sample.
#[local] Existing Instance some_range.
#[local] Instance sample_meter : Counter (TwoTierCounter MeteringEvent MemoryStore) := two_tier_counter canonical_Parse (fun e => e).

Definition sample_repo : RepoRef := mkRepoRef "r" "bot".
Definition sample_addr : FileServerAddr := mkAddr "set-1" "eu" "set-1:8075".
Definition sample_updates : list AgentsHook.RefUpdate := [mkRefUpdate "refs/heads/x" ZeroOID "b2"].
Definition sample_body : list read_answer := [mkRead (s2l "PACK") None; mkRead [] None; mkRead (s2l "data") (Some BodyEOF)].
Definition sample_gitaly : gitaly := mkGitaly true (fun _ => true) true (mkUpstream [s2l "ok"] None).
Definition sample_proxy (n : nat) : GitalyProxy nat (TwoTierCounter MeteringEvent MemoryStore) :=
  mkProxy NewGitalyPool (mkTwoTier (Some NewMemoryStore) New (fun k => meter_at GitMeter.working GitMeter.working (n + k))) [].
Definition sample_push (n : nat) := ReceivePack (fun _ => Some 1%nat) (fun _ => Ok sample_addr) (fun _ _ => None) sample_gitaly sample_repo sample_updates sample_body (sample_proxy n).
Definition sample_calls : list call :=
  [Opened; Sent (Header (mkGitRepository "set-1" "r.git") "bot" "r"); Sent (Data (s2l "PACK")); Sent (Data (s2l "data")); ClosedSend].

Example sample_pushed :
  px_calls (sample_push 0).1 = sample_calls /\ is_ok (sample_push 0).2 = true /\
  map (fun e => me_BytesTransferred (or_Payload e)) (Recorded (tt_store (px_meter (sample_push 0).1))) = [8].
Proof. vm_compute. auto. Qed.

(** A push whose event cannot be written is reported as failed after Gitaly was
    given all of it. *)
Example unmetered_push_is_delivered :
  px_calls (sample_push 1).1 = sample_calls ++ [Cancelled] /\ (sample_push 1).2 = Err (MeterFailed SerializationFailure).
Proof. vm_compute. auto. Qed.

Lemma pushes_are_accounted_witness :
  let p := sample_proxy 0 in let p' := (sample_push 0).1 in let r := (sample_push 0).2 in
  outbox (tt_store (px_meter p')) = outbox (tt_store (px_meter p)) ++
    (if is_ok r then [outbox_row canonical_Parse (fun e => e) (tt_calls (px_meter p) 0%nat) (metered sample_repo sample_updates sample_body)] else []) /\
  (is_Some (@None string) -> p' = p /\ is_ok r = false) /\
  (forall s, r = Ok s -> s = streamToReader (gl_answer sample_gitaly) /\ exists addr chunks, Ok (E := locator_error) sample_addr = Ok addr /\
     px_calls p' = px_calls p ++ [Opened; Sent (header sample_repo addr)] ++ map (fun c => Sent (Data c)) chunks ++ [ClosedSend] /\
     concat chunks = concat (body_chunks sample_body) /\ Forall (fun c => 0 < Z.of_nat (length c) <= receivePackChunkSize) chunks).
Proof.
  apply (pushes_are_accounted canonical_Parse (fun e => e) (fun _ => Some 1%nat) (fun _ => Ok sample_addr) (fun _ _ => None)
    sample_gitaly sample_repo sample_updates sample_body (sample_proxy 0)).
  - repeat constructor; vm_compute; discriminate.
  - apply surjective_pairing.
Defined.
End push_sample.
