(* ===== verification/GitBlobs.v ===== *)
(** * Reading blobs from Gitaly

    [plane/git/gitaly/blob_reader.go]: the reader that the pre-receive hook of
    AgentsHook.v is meant to be given, over the commit and diff services of
    Gitaly, whose answers are parameters. *)

From S2P Require Import Prelude GoStd Actions AgentsMd AgentsHook ReadThrough GitMeter GitProxy.

(** ** The services of Gitaly *)

Inductive entry_type := COMMIT | BLOB | TREE | TAG.
#[export] Instance entry_type_eq_dec : EqDecision entry_type.
Proof. solve_decision. Defined.
Record tree_entry := mkTreeEntry { te_Type : entry_type; te_Size : Z; te_Data : string }.

(** A stream that opens: its messages and whether it ends with [io.EOF] or an
    error. *)
Record answer (A : Type) := mkAnswer { an_messages : list A; an_eof : bool }.
Arguments mkAnswer {A}. Arguments an_messages {A}. Arguments an_eof {A}.

Record GitalyServices := mkGitalyServices {
  TreeEntry : GitRepository -> string -> string -> Z -> option (answer tree_entry);
  FindChangedPaths : GitRepository -> string -> list string -> option (answer (list string));
  CommitIsAncestor : GitRepository -> string -> string -> option bool }.

(** [ErrBlobNotFound] of this package, and what else goes wrong. *)
Inductive reader_error := BlobNotFound | LocatorError (e : locator_error) | DialError (e : pool_error) | OpenError | RecvError.
#[export] Instance pool_error_eq_dec : EqDecision pool_error.
Proof. solve_decision. Defined.
#[export] Instance reader_error_eq_dec : EqDecision reader_error.
Proof. solve_decision. Defined.

(** ** The reader *)
Section reader.
Context (locate : string -> result locator_error FileServerAddr) (connect : string -> result pool_error unit) (g : GitalyServices).

Definition resolve (repoID : string) : result reader_error (string * GitRepository) :=
  match locate repoID with
  | Err e => Err (LocatorError e)
  | Ok addr => Ok (Addr addr, mkGitRepository (ReplicaSetID addr) (repoID +:+ ".git"))
  end.
(** What every operation begins with. *)
Definition dialed (repoID : string) : result reader_error GitRepository :=
  let? x := resolve repoID in
  match connect x.1 with Err e => Err (DialError e) | Ok _ => Ok x.2 end.
Definition opened {A} (s : option A) : result reader_error A := match s with Some a => Ok a | None => Err OpenError end.

(** The loop over [Recv]: [seen] is whether a message has come. *)
Fixpoint read_entries (ms : list tree_entry) (eof seen : bool) (buf : string) : result reader_error string :=
  match ms with
  | [] => if negb eof then Err RecvError else if seen then Ok buf else Err BlobNotFound
  | m :: ms' =>
      if negb seen && negb (bool_decide (te_Type m = BLOB)) then Err BlobNotFound
      else read_entries ms' eof true (buf +:+ te_Data m)
  end.
Definition ReadBlob (repoID ref path : string) : result reader_error string :=
  let? repo := dialed repoID in
  let? s := opened (TreeEntry g repo ref path 0) in
  read_entries (an_messages s) (an_eof s) false "".

Definition ListChangedPaths (repoID oldOID newOID : string) : result reader_error (list string) :=
  let? repo := dialed repoID in
  let parents := if bool_decide (oldOID = "") || bool_decide (oldOID = "0000000000000000000000000000000000000000") then [] else [oldOID] in
  let? s := opened (FindChangedPaths g repo newOID parents) in
  if an_eof s then Ok (mjoin (an_messages s)) else Err RecvError.

Definition BlobSize (repoID oid path : string) : result reader_error Z :=
  let? repo := dialed repoID in
  let? s := opened (TreeEntry g repo oid path 1) in
  match an_messages s with
  | [] => Err (if an_eof s then BlobNotFound else RecvError)
  | m :: _ => if negb (bool_decide (te_Type m = BLOB)) then Err BlobNotFound else Ok (te_Size m)
  end.

Definition IsFastForward (repoID oldOID newOID : string) : result reader_error bool :=
  if bool_decide (oldOID = newOID) then Ok true
  else
    let? repo := dialed repoID in
    opened (CommitIsAncestor g repo oldOID newOID).

(** As the hook sees it: its own [ErrBlobNotFound] is another error than that
    of this package, so that no error of the reader is a missing blob. *)
Definition gitaly_blobs : BlobReader reader_error :=
  mkBlobReader (fun repoID ref path => match ReadBlob repoID ref path with Ok s => Ok s | Err e => Err (EBlobInfra e) end)
    ListChangedPaths BlobSize IsFastForward.
End reader.

(** ** What a stream says *)

Lemma read_entries_seen ms eof buf : read_entries ms eof true buf = if eof then Ok (buf +:+ Join (map te_Data ms) "") else Err RecvError.
Proof.
  revert buf. induction ms as [|m ms IH]; intros buf; cbn [read_entries negb andb].
  - destruct eof; [|done]. cbn. f_equal. apply s2l_inj. by rewrite s2l_app, app_nil_r.
  - rewrite IH. destruct eof; [|done]. f_equal. rewrite sapp_assoc. f_equal. cbn [map]. destruct ms as [|m' ms]; cbn [map Join]; [|done].
    apply s2l_inj. by rewrite s2l_app, app_nil_r.
Qed.

Section reads.
Context (locate : string -> result locator_error FileServerAddr) (connect : string -> result pool_error unit) (g : GitalyServices).

(** A blob is what its messages carry together, however it was cut up. *)
Lemma ReadBlob_spec repoID ref path repo s : dialed locate connect repoID = Ok repo -> TreeEntry g repo ref path 0 = Some s ->
  ReadBlob locate connect g repoID ref path =
    match an_messages s with
    | m :: _ => if bool_decide (te_Type m = BLOB) then if an_eof s then Ok (Join (map te_Data (an_messages s)) "") else Err RecvError
                else Err BlobNotFound
    | [] => Err (if an_eof s then BlobNotFound else RecvError)
    end.
Proof.
  intros Hd Ht. unfold ReadBlob. rewrite Hd, Ht. destruct s as [[|m ms] eof]; cbn [opened an_messages an_eof read_entries negb andb].
  - by destruct eof.
  - destruct (bool_decide_reflect (te_Type m = BLOB)); cbn [negb]; [|done]. rewrite read_entries_seen. destruct eof; [|done].
    f_equal. cbn. by destruct (map te_Data ms) eqn:E; cbn; rewrite ?E; [apply s2l_inj; rewrite s2l_app, app_nil_r|].
Qed.

(** What Gitaly has at a revision under a path: a stream that begins with a blob
    and ends properly; its pieces make the text. *)
Definition blob_at (repoID rev path text : string) : Prop :=
  exists repo m ms, dialed locate connect repoID = Ok repo /\ TreeEntry g repo rev path 0 = Some (mkAnswer (m :: ms) true) /\
    te_Type m = BLOB /\ text = Join (map te_Data (m :: ms)) "".

Lemma ReadBlob_iff repoID rev path text : ReadBlob locate connect g repoID rev path = Ok text <-> blob_at repoID rev path text.
Proof.
  unfold blob_at. split.
  - intros H. destruct (dialed locate connect repoID) as [repo|] eqn:Ed; [|unfold ReadBlob in H; by rewrite Ed in H].
    destruct (TreeEntry g repo rev path 0) as [s|] eqn:Et; [|unfold ReadBlob in H; by rewrite Ed, Et in H].
    rewrite (ReadBlob_spec _ _ _ _ _ Ed Et) in H. destruct s as [[|m ms] eof]; cbn [an_messages an_eof] in H; [by destruct eof|].
    case_bool_decide; [|done]. destruct eof; [|done]. injection H as <-. by exists repo, m, ms.
  - intros (repo & m & ms & Hd & Ht & Hm & ->). rewrite (ReadBlob_spec _ _ _ _ _ Hd Ht). cbn [an_messages an_eof]. by rewrite bool_decide_true.
Qed.

(** The revision whose AGENTS.md a push is judged by: the first new commit of
    its updates that is one, then the first old one, then HEAD. *)
Definition is_commit (oid : string) : bool := negb (bool_decide (oid = "") || bool_decide (oid = ZeroOID)).
Definition policy_revision (updates : list RefUpdate) : string :=
  default "HEAD" (List.find is_commit (map ru_NewOID updates ++ map ru_OldOID updates)).

Lemma find_app {A} (f : A -> bool) l l' : List.find f (l ++ l') = match List.find f l with Some a => Some a | None => List.find f l' end.
Proof. induction l as [|a l IH]; [done|]. cbn. by destruct (f a). Qed.

(** No error of the reader is a missing blob to the hook, so that it asks once. *)
Lemma try_oids_first repo oids : try_oids (gitaly_blobs locate connect g) repo oids =
  match List.find is_commit oids with
  | None => Ok None
  | Some oid => match ReadBlob locate connect g (rr_RepoID repo) oid AgentsMdPath with Ok data => Ok (Some data) | Err e => Err e end
  end.
Proof.
  induction oids as [|oid oids IH]; [done|]. cbn [try_oids List.find]. unfold tryOID, is_commit at 1.
  destruct (_ || _); cbn [negb]; [exact IH|]. cbn [br_ReadBlob gitaly_blobs]. by destruct (ReadBlob _ _ _ _ _ _).
Qed.
Lemma readRepoPolicy_once repo updates : readRepoPolicy (gitaly_blobs locate connect g) repo updates =
  ReadBlob locate connect g (rr_RepoID repo) (policy_revision updates) AgentsMdPath.
Proof.
  unfold readRepoPolicy, policy_revision. rewrite find_app, !try_oids_first. change (ru_NewOID <$> updates) with (map ru_NewOID updates).
  change (ru_OldOID <$> updates) with (map ru_OldOID updates).
  destruct (List.find is_commit (map ru_NewOID updates)); [by destruct (ReadBlob _ _ _ _ _ _)|].
  destruct (List.find is_commit (map ru_OldOID updates)); [by destruct (ReadBlob _ _ _ _ _ _)|]. cbn [default br_ReadBlob gitaly_blobs].
  by destruct (ReadBlob _ _ _ _ _ _).
Qed.
End reads.

(** The hook of the proxy: the handler over this reader. *)
Definition agents_hook (show : push_error -> string) (yaml_unmarshal : string -> option frontMatter) (blobs : BlobReader reader_error)
    (policies : PolicyStore) (repo : RepoRef) (updates : list RefUpdate) : option string :=
  match PreReceive yaml_unmarshal blobs policies repo updates with Ok _ => None | Err e => Some (show e) end.


(** ** A sample *)

(** A repository without an AGENTS.md, whose commit [b2] has the file [x] in
    three pieces and no longer the file [y]. *)
Definition sample_services : GitalyServices := mkGitalyServices
  (fun _ rev path _ => if bool_decide (path = "x") then Some (mkAnswer [mkTreeEntry BLOB 5 "ab"; mkTreeEntry COMMIT 0 "c"; mkTreeEntry COMMIT 0 "de"] true)
                       else Some (mkAnswer [] true))
  (fun _ new parents => Some (mkAnswer (if bool_decide (parents = []) then [["x"]] else [["x"]; ["y"]]) true))
  (fun _ _ _ => Some true).
Definition sample_locate (repoID : string) : result locator_error FileServerAddr := Ok (mkAddr "set-1" "eu" "set-1:8075").
Definition sample_connect (target : string) : result pool_error unit := Ok tt.

Example sample_reads :
  ReadBlob sample_locate sample_connect sample_services "r" "b2" "x" = Ok "abcde" /\
  BlobSize sample_locate sample_connect sample_services "r" "b2" "x" = Ok 5 /\
  ListChangedPaths sample_locate sample_connect sample_services "r" "a1" "b2" = Ok ["x"; "y"] /\
  IsFastForward sample_locate sample_connect sample_services "r" "a1" "a1" = Ok true.
Proof. vm_compute. auto. Qed.

(** A rule on the size of binaries refuses a push that deletes a file: the size
    of a file that is gone is an error. *)
Example deletion_fails_size_rule :
  Evaluate (Some (mkAgentsPolicy SchemaVersionV1 false [mkNever PredicatePushBinaryOverSize (mkSelector "" "" 100)]))
    (mkEvaluationInput "r" "a" [mkRefUpdate "refs/heads/x" "a1" "b2"]
      (Some (resolverAdapter (gitaly_blobs sample_locate sample_connect sample_services) "r"))) =
  Err (PredicatePushBinaryOverSize, "refs/heads/x", EResolver BlobNotFound).
Proof. vm_compute. reflexivity. Qed.

(** A repository without an AGENTS.md cannot be pushed to, although an absent
    file is meant to be an empty policy: the error of this package is not the
    one that the hook takes for an absent file. *)
Example missing_policy_blocks_pushes :
  let blobs := gitaly_blobs sample_locate sample_connect sample_services in
  let hook := agents_hook (fun _ => "refused") sample_yaml blobs (fun _ => Ok "") in
  let p := mkProxy (K := nat) NewGitalyPool NewNoopCounter [] in
  PreReceive sample_yaml blobs (fun _ => Ok "") sample_repo sample_updates = Err (EReadRepoPolicy BlobNotFound) /\
  ReceivePack (fun _ => Some 1%nat) sample_locate hook sample_gitaly sample_repo sample_updates sample_body p = (p, Err (PermissionDenied "refused")).
Proof. vm_compute. auto. Qed.

(** The same repository with an AGENTS.md in two pieces. *)
Definition governed_services : GitalyServices := mkGitalyServices
  (fun _ _ path _ => Some (mkAnswer (if bool_decide (path = AgentsMdPath) then [mkTreeEntry BLOB 9 "# Age"; mkTreeEntry COMMIT 0 "nts\n"] else []) true))
  (FindChangedPaths sample_services) (CommitIsAncestor sample_services).

