(* ===== verification/RedisStore.v ===== *)
(** * Redis, and the cache store on it

    [plane/data/cache/store_redis.go] and [lua/cas.lua].  The Redis server is an
    argument: the class [Redis] of the commands the platform uses, whose laws
    [RedisLaws] state their documented effects, millisecond deadlines
    included; [redis_map] is a server that has them.  A Lua script is an action
    on the server, which runs it in one step; a round trip may fail before or
    after the server has acted.  The server is a single node: on a cluster MGET
    refuses keys of different slots. *)

From S2P Require Import Prelude GoStd Actions CacheStore.

(** ** The server *)

Inductive redis_value := RString (s : string) | RHash (h : gmap string string).
Inductive redis_error := WRONGTYPE | InvalidExpire | WrongArity | NotInteger | ScriptError | ConnectionError.

(** Commands take the server's clock, in milliseconds. *)
Class Redis (R : Type) := {
  GET : Z -> string -> action redis_error R (option string);
  MGET : Z -> list string -> action redis_error R (list (option string));
  SET : Z -> string -> string -> option Z -> action redis_error R unit;
  DEL : Z -> string -> action redis_error R unit;
  HMGET : Z -> string -> list string -> action redis_error R (list (option string));
  HMSET : Z -> string -> list (string * string) -> action redis_error R unit;
  PEXPIRE : Z -> string -> Z -> action redis_error R unit
}.

Definition as_string (v : option redis_value) : option string := match v with Some (RString s) => Some s | _ => None end.
Definition set_fields (fvs : list (string * string)) (h : gmap string string) : gmap string string :=
  fold_left (fun h fv => <[fv.1 := fv.2]> h) fvs h.

(** What the documentation says of them, by what each key holds at each time:
    a deadline has passed once the clock is beyond it.  A command without the
    arguments it repeats is refused. *)
Class RedisLaws (R : Type) `{Redis R} := {
  view : Z -> R -> string -> option redis_value;
  GET_spec now k r : (GET now k r).2 =
    match view now r k with None => Ok None | Some (RString s) => Ok (Some s) | Some (RHash _) => Err WRONGTYPE end;
  GET_frame now k r now' k' : now <= now' -> view now' (GET now k r).1 k' = view now' r k';
  MGET_empty now r : MGET now [] r = (r, Err WrongArity);
  MGET_spec now ks r : ks <> [] -> (MGET now ks r).2 = Ok (map (fun k => as_string (view now r k)) ks);
  MGET_frame now ks r now' k' : now <= now' -> view now' (MGET now ks r).1 k' = view now' r k';
  SET_invalid now k v px r : px <= 0 -> SET now k v (Some px) r = (r, Err InvalidExpire);
  SET_spec now k v px r : (forall p, px = Some p -> 0 < p) -> (SET now k v px r).2 = Ok tt;
  SET_view now k v px r now' k' : (forall p, px = Some p -> 0 < p) -> now <= now' ->
    view now' (SET now k v px r).1 k' =
      if bool_decide (k' = k)
      then (if match px with Some p => bool_decide (now + p < now') | None => false end then None else Some (RString v))
      else view now' r k';
  DEL_spec now k r : (DEL now k r).2 = Ok tt;
  DEL_view now k r now' k' : now <= now' ->
    view now' (DEL now k r).1 k' = if bool_decide (k' = k) then None else view now' r k';
  HMGET_spec now k fs r : fs <> [] -> (HMGET now k fs r).2 =
    match view now r k with
    | None => Ok (map (fun _ => None) fs)
    | Some (RHash h) => Ok (map (fun f => h !! f) fs)
    | Some (RString _) => Err WRONGTYPE
    end;
  HMGET_frame now k fs r now' k' : now <= now' -> view now' (HMGET now k fs r).1 k' = view now' r k';
  HMSET_spec now k fvs r : fvs <> [] -> (HMSET now k fvs r).2 = match view now r k with Some (RString _) => Err WRONGTYPE | _ => Ok tt end;
  HMSET_view now k fvs r now' k' : fvs <> [] -> now <= now' ->
    view now' (HMSET now k fvs r).1 k' =
      if bool_decide (k' = k)
      then match view now r k with
           | None => Some (RHash (set_fields fvs ∅))
           | Some (RHash h) => (fun _ => RHash (set_fields fvs h)) <$> view now' r k
           | Some (RString _) => view now' r k
           end
      else view now' r k';
  PEXPIRE_spec now k px r : (PEXPIRE now k px r).2 = Ok tt;
  PEXPIRE_view now k px r now' k' : 0 < px -> now <= now' ->
    view now' (PEXPIRE now k px r).1 k' =
      if bool_decide (k' = k) then (if bool_decide (now + px < now') then None else view now r k) else view now' r k'
}.

(** ** A server *)

Record redis_map := mkRedis { keyspace : gmap string (redis_value * option Z) }.

Definition rm_view (now : Z) (r : redis_map) (k : string) : option redis_value :=
  '(v, deadline) ← keyspace r !! k;
  if match deadline with Some d => bool_decide (d < now) | None => false end then None else Some v.
Definition rm_put (k : string) (v : redis_value) (deadline : option Z) (r : redis_map) : redis_map :=
  mkRedis (<[k := (v, deadline)]> (keyspace r)).
Definition rm_deadline (k : string) (r : redis_map) : option Z := '(_, d) ← keyspace r !! k; d.

#[export] Instance redis_map_server : Redis redis_map := {
  GET := fun now k r => (r, match rm_view now r k with None => Ok None | Some (RString s) => Ok (Some s) | Some (RHash _) => Err WRONGTYPE end);
  MGET := fun now ks r => (r, if bool_decide (ks = []) then Err WrongArity else Ok (map (fun k => as_string (rm_view now r k)) ks));
  SET := fun now k v px r =>
    match px with
    | Some p => if p <=? 0 then (r, Err InvalidExpire) else (rm_put k (RString v) (Some (now + p)) r, Ok tt)
    | None => (rm_put k (RString v) None r, Ok tt)
    end;
  DEL := fun _ k r => (mkRedis (delete k (keyspace r)), Ok tt);
  HMGET := fun now k fs r =>
    (r, if bool_decide (fs = []) then Err WrongArity else match rm_view now r k with
        | None => Ok (map (fun _ => None) fs)
        | Some (RHash h) => Ok (map (fun f => h !! f) fs)
        | Some (RString _) => Err WRONGTYPE
        end);
  HMSET := fun now k fvs r =>
    if bool_decide (fvs = []) then (r, Err WrongArity) else match rm_view now r k with
    | None => (rm_put k (RHash (set_fields fvs ∅)) None r, Ok tt)
    | Some (RHash h) => (rm_put k (RHash (set_fields fvs h)) (rm_deadline k r) r, Ok tt)
    | Some (RString _) => (r, Err WRONGTYPE)
    end;
  PEXPIRE := fun now k px r =>
    (match rm_view now r k with
     | None => r
     | Some v => if px <=? 0 then mkRedis (delete k (keyspace r)) else rm_put k v (Some (now + px)) r
     end, Ok tt)
}.

Lemma rm_view_put k v d r now k' : rm_view now (rm_put k v d r) k' =
  if bool_decide (k' = k) then (if match d with Some x => bool_decide (x < now) | None => false end then None else Some v) else rm_view now r k'.
Proof. unfold rm_view, rm_put. cbn. case_bool_decide; [subst; by rewrite lookup_insert_eq|by rewrite lookup_insert_ne]. Qed.

(** What is gone stays gone. *)
Lemma rm_view_gone now now' r k : now <= now' -> rm_view now r k = None -> rm_view now' r k = None.
Proof.
  intros Hle. unfold rm_view. destruct (keyspace r !! k) as [[v [d|]]|]; cbn; [|done|done].
  repeat case_bool_decide; try done. lia.
Qed.

#[export] Instance redis_map_laws : RedisLaws redis_map.
Proof.
  refine {| view := rm_view |}; intros; cbn.
  - done.
  - done.
  - done.
  - by rewrite bool_decide_false.
  - done.
  - replace (px <=? 0) with true by (symmetry; apply Z.leb_le; lia). done.
  - destruct px as [p|]; [|done]. replace (p <=? 0) with false; [done|]. symmetry. apply Z.leb_gt. by apply H.
  - destruct px as [p|]; [|cbn; by rewrite rm_view_put]. specialize (H p eq_refl).
    replace (p <=? 0) with false by (symmetry; apply Z.leb_gt; lia). cbn. by rewrite rm_view_put.
  - done.
  - unfold rm_view. cbn. case_bool_decide; [subst; by rewrite lookup_delete_eq|by rewrite lookup_delete_ne].
  - by rewrite bool_decide_false.
  - done.
  - rewrite bool_decide_false by done. by destruct (rm_view now r k) as [[|]|].
  - rewrite bool_decide_false by done. destruct (rm_view now r k) as [[s|h]|] eqn:E.
    + case_bool_decide; [by subst|done].
    + cbn [fst]. rewrite rm_view_put. case_bool_decide; [|done]. subst. unfold rm_deadline, rm_view in *. by destruct (keyspace r !! k) as [[v [d|]]|]; cbn; [case_bool_decide| |].
    + cbn [fst]. by rewrite rm_view_put.
  - done.
  - destruct (rm_view now r k) as [v|] eqn:E.
    + replace (px <=? 0) with false by (symmetry; apply Z.leb_gt; lia). by rewrite rm_view_put.
    + case_bool_decide; [|done]. subst. rewrite (rm_view_gone now) by done. by case_bool_decide.
Defined.

(** ** Round trips *)

Definition unix_ms (t : time) : Z := t / Millisecond.
Definition roundtrip {R A} (o : outcome) (m : action redis_error R A) : action redis_error R A := fun r =>
  match o with
  | Works => m r
  | Fails true => ((m r).1, Err ConnectionError)
  | Fails false => (r, Err ConnectionError)
  end.

(** ** store_redis.go *)

Inductive store_error := NotFound | Wrapped (e : redis_error).

Record RedisConfig := mkRedisConfig { URL : string; UseCluster : bool; PoolSize : Z; DialTimeout : duration }.
(** The client a configuration asks for; [O] is go-redis's parsed URL. *)
Inductive redis_client (O : Type) :=
| ClusterClient (addrs : list string) (poolSize : Z) (dialTimeout : duration)
| Client (opt : O) (poolSize : Z) (dialTimeout : duration).
Arguments ClusterClient {O}.
Arguments Client {O}.
Definition NewRedisStore {O} (ParseURL : string -> option O) (cfg : RedisConfig) : option (redis_client O) :=
  let poolSize := if PoolSize cfg =? 0 then 10 else PoolSize cfg in
  let dialTimeout := if DialTimeout cfg =? 0 then 5 * Second else DialTimeout cfg in
  if UseCluster cfg then Some (ClusterClient [URL cfg] poolSize dialTimeout)
  else opt ← ParseURL (URL cfg); Some (Client opt poolSize dialTimeout).

(** How go-redis sends the expiry of a SET: in whole milliseconds, for one of at
    least a millisecond; the rest is up to it. *)
Class SetExpiry := { px_of : duration -> option Z; px_of_spec d : Millisecond <= d -> px_of d = Some (d / Millisecond) }.

Section store.
Context {R : Type} `{Redis R} `{SetExpiry}.
Notation call A := (action store_error R A).

Definition wrapping {A} (m : action redis_error R A) : call A := fun r =>
  let '(r', a) := m r in (r', match a with Ok a => Ok a | Err e => Err (Wrapped e) end).

Definition redisStore_Get (c : cache_call) (key : string) : call string :=
  let! v := wrapping (roundtrip (c_outcome c) (GET (unix_ms (c_now c)) key)) in
  match v with None => throw NotFound | Some s => ret s end.
Definition redisStore_MGet (c : cache_call) (keys : list string) : call (list (option string)) :=
  wrapping (roundtrip (c_outcome c) (MGET (unix_ms (c_now c)) keys)).
Definition redisStore_Set (c : cache_call) (key v : string) (ttl : duration) : call unit :=
  wrapping (roundtrip (c_outcome c) (SET (unix_ms (c_now c)) key v (px_of ttl))).
Definition redisStore_Delete (c : cache_call) (key : string) : call unit :=
  wrapping (roundtrip (c_outcome c) (DEL (unix_ms (c_now c)) key)).
(** [lua/cas.lua] *)
Definition cas_script (now : Z) (key expected replacement : string) (ttl_ms : Z) : action redis_error R Z :=
  let! cur := GET now key in
  let cur := default "" cur in
  if negb (bool_decide (cur = expected)) then ret 0
  else let! _ := SET now key replacement (Some ttl_ms) in ret 1.
Definition redisStore_CompareAndSwap (c : cache_call) (key expected replacement : string) (ttl : duration) : call bool :=
  let ttlMs := Z.quot ttl Millisecond in
  let! result := wrapping (roundtrip (c_outcome c) (cas_script (unix_ms (c_now c)) key expected replacement ttlMs)) in
  ret (result =? 1).
Definition redisStore_Ping (c : cache_call) : call unit := wrapping (roundtrip (c_outcome c) (ret tt)).
End store.

(** ** What the store promises

    A sequence of operations, each of which may fail, against the reference map
    with deadlines, whose clock and expiries are in whole milliseconds. *)
Section runs.
Context {R : Type} `{Redis R} `{SetExpiry}.

(** An answer, when the operation has one. *)
Definition answered {A} (f : A -> cache_out) (x : R * result store_error A) : option cache_out * R :=
  (match x.2 with Ok a => Some (f a) | Err _ => None end, x.1).
Definition redis_op (c : cache_call) (o : cache_op) (r : R) : option cache_out * R :=
  match o with
  | OGet k =>
      let x := redisStore_Get c k r in
      (match x.2 with Ok v => Some (RGet (Ok v)) | Err NotFound => Some (RGet (Err ErrNotFound)) | Err (Wrapped _) => None end, x.1)
  | OMGet ks => answered RMGet (redisStore_MGet c ks r)
  | OSet k v ttl => answered (fun _ => RUnit) (redisStore_Set c k v ttl r)
  | ODelete k => answered (fun _ => RUnit) (redisStore_Delete c k r)
  | OCAS k e v ttl => answered RBool (redisStore_CompareAndSwap c k e v ttl r)
  end.
Fixpoint run_redis (tr : list (cache_call * cache_op)) (r : R) : list (option cache_out) * R :=
  match tr with
  | [] => ([], r)
  | (c, o) :: tr' => let '(a, r) := redis_op c o r in let '(rest, r) := run_redis tr' r in (a :: rest, r)
  end.
End runs.

Definition whole (d : Z) : Z := d / Millisecond * Millisecond.
Definition whole_op (o : cache_op) : cache_op :=
  match o with OSet k v ttl => OSet k v (whole ttl) | OCAS k e v ttl => OCAS k e v (whole ttl) | _ => o end.
(** The reference carries out what was executed and answers what was answered. *)
Definition ref_op (c : cache_call) (o : cache_op) (m : ttl_map) : option cache_out * ttl_map :=
  let '(a, m') := run_cache_op (whole (c_now c)) (whole_op o) m in
  match c_outcome c with Works => (Some a, m') | Fails true => (None, m') | Fails false => (None, m) end.
Fixpoint run_ref (tr : list (cache_call * cache_op)) (m : ttl_map) : list (option cache_out) * ttl_map :=
  match tr with
  | [] => ([], m)
  | (c, o) :: tr' => let '(a, m) := ref_op c o m in let '(rest, m) := run_ref tr' m in (a :: rest, m)
  end.

Definition all_keys (o : cache_op) : list string :=
  match o with OGet k | OSet k _ _ | ODelete k | OCAS k _ _ _ => [k] | OMGet ks => ks end.
(** What Redis takes as the in-memory store does: an expiry of at least a
    millisecond, and some key to read. *)
Definition op_ok (o : cache_op) : Prop :=
  match o with OSet _ _ ttl | OCAS _ _ _ ttl => Millisecond <= ttl | OMGet ks => ks <> [] | _ => True end.
(** Clocks do not go back, and the operations are on keys of the cache's. *)
Fixpoint calls_ok (P : string -> Prop) (t : time) (tr : list (cache_call * cache_op)) : Prop :=
  match tr with
  | [] => True
  | (c, o) :: tr' => t <= c_now c /\ Forall P (all_keys o) /\ op_ok o /\ calls_ok P (c_now c) tr'
  end.

Section agreement.
Context {R : Type} `{RedisLaws R} `{SetExpiry}.
Context (P : string -> Prop).

Definition agrees (j0 : Z) (r : R) (m : ttl_map) : Prop :=
  forall j k, j0 <= j -> P k -> view j r k = RString <$> ttl_live (j * Millisecond) m k.

Lemma agrees_later j j' r m : j <= j' -> agrees j r m -> agrees j' r m.
Proof. intros Hle Ha j2 k Hj. apply Ha. lia. Qed.

Lemma redis_op_failed t b (o : cache_op) (r : R) :
  redis_op (mkCacheCall t (Fails b)) o r = (None, if b then (redis_op (mkCacheCall t Works) o r).2 else r).
Proof.
  destruct o as [k|ks|k v ttl|k|k e v ttl]; unfold redis_op, answered, redisStore_Get, redisStore_MGet, redisStore_Set, redisStore_Delete,
    redisStore_CompareAndSwap, bind, wrapping, roundtrip; cbn [c_outcome c_now].
  - destruct b; [|done]. by destruct (GET _ _ _) as [? [[]|]].
  - destruct b; [|done]. by destruct (MGET _ _ _) as [? []].
  - destruct b; [|done]. by destruct (SET _ _ _ _ _) as [? []].
  - destruct b; [|done]. by destruct (DEL _ _ _) as [? []].
  - destruct b; [|done]. by destruct (cas_script _ _ _ _ _ _) as [? []].
Qed.

Lemma deadline_ms now ttl j : After (j * Millisecond) (Add (whole now) (whole ttl)) = bool_decide (unix_ms now + ttl / Millisecond < j).
Proof. unfold After, Add, whole, unix_ms, Millisecond. apply eq_true_iff_eq. rewrite Z.ltb_lt, bool_decide_eq_true. lia. Qed.

Lemma SET_agrees now k v ttl r m : Millisecond <= ttl -> agrees (unix_ms now) r m ->
  (SET (unix_ms now) k v (Some (ttl / Millisecond)) r).2 = Ok tt /\
  agrees (unix_ms now) (SET (unix_ms now) k v (Some (ttl / Millisecond)) r).1 (ttl_put k v (Add (whole now) (whole ttl)) m).
Proof.
  intros Ht Ha. assert (Hp : forall p, Some (ttl / Millisecond) = Some p -> 0 < p) by (intros p [= <-]; apply Z.div_str_pos; unfold Millisecond in *; lia).
  split; [by apply SET_spec|]. intros j k' Hj Hk. rewrite SET_view by done. unfold ttl_live, ttl_put. cbn [bindings]. case_bool_decide as E.
  - subst. rewrite lookup_insert_eq, deadline_ms. by case_bool_decide.
  - rewrite lookup_insert_ne by done. by rewrite Ha by done.
Qed.

Lemma agrees_now now r m k : agrees (unix_ms now) r m -> P k -> view (unix_ms now) r k = RString <$> ttl_live (whole now) m k.
Proof. intros Ha Hk. by rewrite (Ha _ k) by done. Qed.

Lemma redis_op_works now o r m : agrees (unix_ms now) r m -> Forall P (all_keys o) -> op_ok o ->
  let x := redis_op (mkCacheCall now Works) o r in let y := ref_op (mkCacheCall now Works) o m in
  x.1 = y.1 /\ agrees (unix_ms now) x.2 y.2.
Proof.
  intros Ha Hk Ht. unfold ref_op. cbn [c_now c_outcome].
  destruct o as [k|ks|k v ttl|k|k e v ttl]; cbn [all_keys op_ok] in *; unfold redis_op, answered; cbn [whole_op run_cache_op Get CacheStore.MGet Set_ Delete CompareAndSwap ttl_store];
    unfold redisStore_Get, redisStore_MGet, redisStore_Set, redisStore_Delete, redisStore_CompareAndSwap, cas_script, wrapping, roundtrip, bind; cbn [c_now c_outcome].
  - rewrite Forall_singleton in Hk. pose proof (GET_spec (unix_ms now) k r) as Hg. pose proof (GET_frame (unix_ms now) k r) as Hf.
    rewrite (agrees_now now r m k Ha Hk) in Hg. destruct (GET _ _ _) as [r' a]. cbn [fst snd] in *. subst a.
    destruct (ttl_live (whole now) m k); cbn; split; try done; intros j k' Hj Hk'; rewrite Hf by done; by apply Ha.
  - pose proof (MGET_spec (unix_ms now) ks r Ht) as Hg. pose proof (MGET_frame (unix_ms now) ks r) as Hf.
    destruct (MGET _ _ _) as [r' a]. cbn [fst snd] in *. subst a. cbn. split.
    + do 2 f_equal. apply map_ext_in. intros k Hin%list_elem_of_In. rewrite Forall_forall in Hk. rewrite (agrees_now now r m k Ha (Hk k Hin)). by destruct (ttl_live _ _ _).
    + intros j k' Hj Hk'. rewrite Hf by done. by apply Ha.
  - rewrite px_of_spec by done. destruct (SET_agrees now k v ttl r m Ht Ha) as [Hs Hv].
    destruct (SET _ _ _ _ _) as [r' a]. cbn [fst snd] in *. by subst a.
  - pose proof (DEL_spec (unix_ms now) k r) as Hg. pose proof (DEL_view (unix_ms now) k r) as Hf.
    destruct (DEL _ _ _) as [r' a]. cbn [fst snd] in *. subst a. cbn. split; [done|]. intros j k' Hj Hk'. rewrite Hf by done.
    unfold ttl_live. cbn. case_bool_decide; [subst; by rewrite lookup_delete_eq|]. rewrite lookup_delete_ne by done. by apply Ha.
  - rewrite Forall_singleton in Hk. pose proof (GET_spec (unix_ms now) k r) as Hg. pose proof (GET_frame (unix_ms now) k r) as Hf.
    rewrite (agrees_now now r m k Ha Hk) in Hg. destruct (GET _ _ _) as [r' a]. cbn [fst snd] in *.
    assert (Hr : agrees (unix_ms now) r' m) by (intros j k' Hj Hk'; rewrite Hf by done; by apply Ha).
    replace a with (Ok (E := redis_error) (ttl_live (whole now) m k)) by (subst a; by destruct (ttl_live _ _ _)). cbn [default].
    rewrite Z.quot_div_nonneg by (unfold Millisecond in *; lia). destruct (SET_agrees now k v ttl r' m Ht Hr) as [Hs Hv].
    case_bool_decide; cbn [negb]; [|done]. destruct (SET _ _ _ _ _) as [r2 a2]. cbn [fst snd] in *. by subst a2.
Qed.

Lemma redis_op_agrees c o r m : agrees (unix_ms (c_now c)) r m -> Forall P (all_keys o) -> op_ok o ->
  (redis_op c o r).1 = (ref_op c o m).1 /\ agrees (unix_ms (c_now c)) (redis_op c o r).2 (ref_op c o m).2.
Proof.
  intros Ha Hk Ht. destruct c as [now [|b]]; cbn [c_now] in *; pose proof (redis_op_works now o r m Ha Hk Ht) as [Hx Hy]; [done|].
  rewrite redis_op_failed. unfold ref_op in *. cbn [c_now c_outcome] in *. destruct (run_cache_op _ _ _). by destruct b.
Qed.

Lemma run_redis_agrees tr : forall t r m, calls_ok P t tr -> agrees (unix_ms t) r m -> (run_redis tr r).1 = (run_ref tr m).1.
Proof.
  induction tr as [|[c o] tr IH]; intros t r m; [done|]. cbn [calls_ok]. intros (Hle & Hk & Ht & Hok) Ha.
  apply (agrees_later _ (unix_ms (c_now c))) in Ha; [|by apply Z.div_le_mono].
  destruct (redis_op_agrees c o r m Ha Hk Ht) as [Hx Hy]. cbn [run_redis run_ref].
  destruct (redis_op c o r) as [a r1], (ref_op c o m) as [a' m1]. cbn [fst snd] in *. apply (IH (c_now c)) in Hy; [|done].
  destruct (run_redis tr r1), (run_ref tr m1). cbn [fst snd] in *. by subst.
Qed.
End agreement.

(** ** Properties *)

(** C34: The Redis store is the map with deadlines that the in-memory store is:
    on every server with the documented commands, and whatever else it holds,
    a sequence of operations with a clock that does not go back, on keys of the
    cache's that are absent at first, with expiries of at least a millisecond
    and no read of no keys, gets the answers of the reference map, its clock
    and expiries in whole milliseconds; an operation that fails changes the map
    or does not, as it was executed or not.  (What happens with a shorter
    expiry and with no keys are the examples [zero_expiry] and [empty_read].) *)
Theorem redis_store_is_ttl_map {R} `{RedisLaws R} `{SetExpiry} P t tr (r : R) :
  calls_ok P t tr -> (forall j k, unix_ms t <= j -> P k -> view j r k = None) ->
  (run_redis tr r).1 = (run_ref tr (mkTtl ∅)).1.
Proof. intros Hok Hr. apply (run_redis_agrees P tr t); [done|]. intros j k Hj Hk. by rewrite Hr. Qed.

(** ** Samples *)

#[export] Instance go_redis_expiry : SetExpiry.
Proof.
  refine {| px_of d := if 0 <? d then Some (if d <? Millisecond then 1 else d / Millisecond) else None |}.
  intros d Hd. unfold Millisecond in *. replace (0 <? d) with true by (symmetry; apply Z.ltb_lt; lia).
  by replace (d <? 1000000) with false by (symmetry; apply Z.ltb_ge; lia).
Defined.

Definition redis_calls : list (cache_call * cache_op) :=
  [(mkCacheCall 0 Works, OSet "a" "1" Millisecond); (mkCacheCall (Millisecond + 999999) Works, OGet "a");
   (mkCacheCall (2 * Millisecond) Works, OGet "a"); (mkCacheCall (2 * Millisecond) (Fails true), OCAS "a" "" "2" Second);
   (mkCacheCall (3 * Millisecond) (Fails false), ODelete "a"); (mkCacheCall Second Works, OMGet ["a"; "b"])].
Lemma redis_store_is_ttl_map_witness :
  (run_redis redis_calls (mkRedis ∅)).1 =
    [Some RUnit; Some (RGet (Ok "1")); Some (RGet (Err ErrNotFound)); None; None; Some (RMGet [Some "2"; None])].
Proof.
  rewrite (redis_store_is_ttl_map (fun _ => True) 0 redis_calls (mkRedis ∅)).
  - vm_compute. reflexivity.
  - cbn. unfold Second, Millisecond. split_and!; try lia; try done; repeat constructor.
  - done.
Defined.

(** Reading no keys is an error of the Redis store and an empty answer of the
    in-memory one. *)
Example empty_read :
  (redisStore_MGet (mkCacheCall 0 Works) [] (mkRedis ∅)).2 = Err (Wrapped WrongArity) /\
  (run_trace [(0, OMGet [])] NewMemoryStore).1 = [RMGet []].
Proof. vm_compute. auto. Qed.

(** Without a positive expiry the two stores part: Redis keeps the value for
    good where the in-memory store lets it expire at once, and its swap fails. *)
Example zero_expiry :
  ((run_redis [(mkCacheCall 0 Works, OSet "a" "1" 0); (mkCacheCall Hour Works, OGet "a"); (mkCacheCall Hour Works, OCAS "b" "" "1" 0)] (mkRedis ∅)).1,
   (run_trace [(0, OSet "a" "1" 0); (Hour, OGet "a"); (Hour, OCAS "b" "" "1" 0)] NewMemoryStore).1)
  = ([Some RUnit; Some (RGet (Ok "1")); None], [RUnit; RGet (Err ErrNotFound); RBool true]).
Proof. vm_compute. reflexivity. Qed.
