(* ===== verification/RedisLimiter.v ===== *)
(** * The Redis rate limiter

    [plane/data/ratelimit/limiter_redis.go] with its scripts
    [lua/token_bucket.lua] and [lua/token_bucket_inspect.lua], over the server of
    [RedisStore].  Numbers travel as text between Go, Lua and the hash: their
    conversions are an argument ([NumberText]).  In exact arithmetic the limiter
    answers as the in-memory one. *)

From Stdlib Require Import QArith Qround Lqa.
From S2P Require Import Prelude GoStd GoFmt Actions CacheStore RateLimiter RedisStore.

#[local] Open Scope Z_scope.

(** ** Numbers *)

(** What the scripts and [Take] do with numbers beyond [Float64]; [ftrunc] is
    the conversion [int64(x)]. *)
Class Numbers (F : Type) := { fof_Z : Z -> F; fdiv : F -> F -> F; fleb : F -> F -> bool; feqb : F -> F -> bool; ftrunc : F -> Z }.
(** Numbers as text: [arg_text] by go-redis, [field_text] by [redis.call],
    [tostring] and [tonumber] by Lua, [ParseFloat] by strconv. *)
Class NumberText (F : Type) := {
  arg_text : F -> string; field_text : F -> string; tostring : F -> string;
  tonumber : string -> option F; ParseFloat : string -> option F }.

(** All but [tostring], which keeps 14 digits, are read back exactly; integers
    up to 2^53 are printed as such. *)
Definition exact_int (z : Z) : Prop := Z.abs z <= 2 ^ 53.
Class NumberTextLaws (F : Type) `{Float64 F} `{Numbers F} `{NumberText F} := {
  tonumber_arg x : tonumber (arg_text x) = Some x;
  tonumber_field x : tonumber (field_text x) = Some x;
  tonumber_Itoa z : exact_int z -> tonumber (Itoa z) = Some (fof_Z z);
  Atoi_field z : exact_int z -> Atoi (field_text (fof_Z z)) = Some z;
  ParseFloat_zero : ParseFloat "0" = Some fzero;
  ParseFloat_field x : ParseFloat (field_text x) = Some x;
  printed : F -> F;
  ParseFloat_tostring x : ParseFloat (tostring x) = Some (printed x) }.

(** ** The limiter *)

Inductive limiter_error := Limit (e : redis_error) | ParseError.

Section limiter.
Context {F : Type} `{Float64 F} `{Numbers F} `{NumberText F} {R : Type} `{Redis R}.
Notation script A := (action redis_error R A).

(** An argument that is not a number stops the script. *)
Definition number (s : string) : script F := match tonumber s with Some x => ret x | None => throw ScriptError end.
Definition field (state : list (option string)) (i : nat) (otherwise : F) : F :=
  default otherwise (mjoin (state !! i) ≫= tonumber).
Definition min (x y : F) : F := if fltb y x then y else x.

(** [lua/token_bucket.lua] *)
Definition token_bucket (now : Z) (key capacity refill now_ms n ttl_ms : string) : script (Z * string) :=
  let! capacity := number capacity in
  let! refill := number refill in
  let! now_ms := number now_ms in
  let! n := number n in
  let! state := HMGET now key ["tokens"; "last_ms"] in
  let tokens := field state 0 capacity in
  let last_ms := field state 1 now_ms in
  let elapsed_s := fdiv (fsub now_ms last_ms) (fof_Z 1000) in
  let tokens := min capacity (fadd tokens (fmul elapsed_s refill)) in
  let '(tokens, granted) := if fleb n tokens then (fsub tokens n, 1) else (tokens, 0) in
  let! _ := HMSET now key [("tokens", field_text tokens); ("last_ms", field_text now_ms); ("capacity", field_text capacity); ("refill", field_text refill)] in
  let! ttl_ms := number ttl_ms in
  let! _ := match Atoi (field_text ttl_ms) with Some px => PEXPIRE now key px | None => throw NotInteger end in
  ret (granted, tostring tokens).

(** [lua/token_bucket_inspect.lua] *)
Definition token_bucket_inspect (now : Z) (key : string) : script (string * string * string) :=
  let! state := HMGET now key ["tokens"; "capacity"; "refill"] in
  match mjoin (state !! 0%nat) with
  | None => ret ("0", "0", "0")
  | Some tokens => ret (default "0" (mjoin (state !! 1%nat)), tokens, default "0" (mjoin (state !! 2%nat)))
  end.

Definition limiting {A} (m : script A) : action limiter_error R A := fun r =>
  let '(r', a) := m r in (r', match a with Ok a => Ok a | Err e => Err (Limit e) end).
Definition parsed {A} (s : string) (k : F -> action limiter_error R A) : action limiter_error R A :=
  match ParseFloat s with Some x => k x | None => throw ParseError end.

Definition ttl_of (capacity refillPerSec : F) : Z :=
  let ttlMs := if fltb fzero refillPerSec then ftrunc (fmul (fmul (fof_Z 2) (fdiv capacity refillPerSec)) (fof_Z 1000)) else 60000 in
  if ttlMs <? 1000 then 1000 else ttlMs.
Definition RedisLimiter_Take (c : cache_call) (key : string) (capacity refillPerSec n : F) : action limiter_error R (bool * F) :=
  let nowMs := unix_ms (c_now c) in
  let ttlMs := ttl_of capacity refillPerSec in
  let! result := limiting (roundtrip (c_outcome c)
    (token_bucket nowMs key (arg_text capacity) (arg_text refillPerSec) (Itoa nowMs) (arg_text n) (Itoa ttlMs))) in
  parsed result.2 (fun remaining => ret (result.1 =? 1, remaining)).

Definition RedisLimiter_Inspect (c : cache_call) (key : string) : action limiter_error R (BucketState F) :=
  let! result := limiting (roundtrip (c_outcome c) (token_bucket_inspect (unix_ms (c_now c)) key)) in
  parsed result.1.1 (fun capacity => parsed result.1.2 (fun tokens => parsed result.2 (fun refill =>
    if feqb capacity fzero && feqb tokens fzero && feqb refill fzero then ret (mkBucketState fzero fzero fzero "")
    else ret (mkBucketState capacity tokens refill "")))).
End limiter.

#[export] Instance exact_numbers : Numbers Q :=
  {| fof_Z := inject_Z; fdiv := Qdiv; fleb := Qle_bool; feqb := Qeq_bool; ftrunc x := if Qle_bool 0 x then Qfloor x else Qceiling x |}.

(** ** The script *)

(** The hash of a bucket. *)
Definition bucket_hash {F} `{NumberText F} (tokens last cap rate : F) (h : gmap string string) : Prop :=
  h !! "tokens" = Some (field_text tokens) /\ h !! "last_ms" = Some (field_text last) /\
  h !! "capacity" = Some (field_text cap) /\ h !! "refill" = Some (field_text rate).

Lemma set_bucket_hash {F} `{NumberText F} tokens last cap rate h :
  bucket_hash tokens last cap rate (set_fields [("tokens", field_text tokens); ("last_ms", field_text last); ("capacity", field_text cap); ("refill", field_text rate)] h).
Proof. unfold bucket_hash, set_fields. cbn [fold_left fst snd]. split_and!; by simplify_map_eq. Qed.

Section script.
Context {F : Type} `{NumberTextLaws F} {R : Type} `{RedisLaws R}.

(** What a bucket is when the script reads it. *)
Inductive read_bucket (now : Z) (cap : F) : option redis_value -> F -> F -> Prop :=
| no_bucket : read_bucket now cap None cap (fof_Z now)
| a_bucket tokens last c r h : bucket_hash tokens last c r h -> read_bucket now cap (Some (RHash h)) tokens last.

(** The level after the refill and after the request. *)
Definition refilled (cap refill tokens last : F) (now : Z) : F := min cap (fadd tokens (fmul (fdiv (fsub (fof_Z now) last) (fof_Z 1000)) refill)).
Definition level (n t : F) : F := if fleb n t then fsub t n else t.

Lemma token_bucket_run now key cap refill n ttl tokens last (r : R) :
  read_bucket now cap (view now r key) tokens last -> exact_int now -> exact_int ttl -> 0 < ttl ->
  let t := refilled cap refill tokens last now in
  exists r' h, token_bucket now key (arg_text cap) (arg_text refill) (Itoa now) (arg_text n) (Itoa ttl) r =
      (r', Ok (if fleb n t then 1 else 0, tostring (level n t))) /\
    bucket_hash (level n t) (fof_Z now) cap refill h /\
    forall j k, now <= j -> view j r' k = if bool_decide (k = key) then (if bool_decide (now + ttl < j) then None else Some (RHash h)) else view j r k.
Proof.
  intros Hb Hn Ht Hpos t. unfold token_bucket, number, bind. rewrite !tonumber_arg, !tonumber_Itoa by done. cbn [ret].
  pose proof (HMGET_spec now key ["tokens"; "last_ms"] r ltac:(done)) as Hg. pose proof (HMGET_frame now key ["tokens"; "last_ms"] r) as Hgf.
  destruct (HMGET _ _ _ _) as [r1 a]. cbn [fst snd] in *.
  assert (Hst : exists st, a = Ok st /\ field st 0 cap = tokens /\ field st 1 (fof_Z now) = last).
  { subst a. destruct Hb as [|tk l c rr h (Et & El & _)]; [by eexists|].
    eexists. split; [done|]. unfold field. cbn. rewrite Et, El. cbn. by rewrite !tonumber_field. }
  destruct Hst as (st & -> & -> & ->). fold (refilled cap refill tokens last now). fold t.
  replace (if fleb n t then (fsub t n, 1) else (t, 0)) with (level n t, if fleb n t then 1 else 0) by (unfold level; by destruct (fleb n t)).
  set (fvs := [_; _; _; _]). pose proof (HMSET_spec now key fvs r1 ltac:(done)) as Hs. pose proof (fun now' k' => HMSET_view now key fvs r1 now' k' ltac:(done)) as Hsv.
  assert (Hv : exists h0, view now (HMSET now key fvs r1).1 key = Some (RHash (set_fields fvs h0))).
  { rewrite Hsv, bool_decide_true by done. rewrite !Hgf by done. destruct Hb; [by eexists|]. by eexists. }
  assert (Hw : (HMSET now key fvs r1).2 = Ok tt). { rewrite Hs, Hgf by done. by destruct Hb. }
  clear Hs. destruct Hv as [h0 Hv]. destruct (HMSET now key fvs r1) as [r2 a2]. cbn [fst snd] in *. subst a2.
  rewrite Atoi_field by done. pose proof (PEXPIRE_spec now key ttl r2) as Hp. pose proof (PEXPIRE_view now key ttl r2) as Hpv.
  destruct (PEXPIRE _ _ _ _) as [r3 a3]. cbn [fst snd] in *. subst a3. exists r3, (set_fields fvs h0). split; [done|].
  split; [apply set_bucket_hash|]. intros j k Hj. rewrite Hpv by done. case_bool_decide; [by rewrite Hv|].
  rewrite Hsv, bool_decide_false by done. by apply Hgf.
Qed.

Lemma inspect_run now key (r : R) tokens last c rt h :
  view now r key = Some (RHash h) -> bucket_hash tokens last c rt h ->
  (token_bucket_inspect now key r).2 = Ok (field_text c, field_text tokens, field_text rt).
Proof.
  intros Hv (Et & _ & Ec & Er). unfold token_bucket_inspect, bind. pose proof (HMGET_spec now key ["tokens"; "capacity"; "refill"] r ltac:(done)) as Hg.
  rewrite Hv in Hg. destruct (HMGET _ _ _ _) as [r1 a]. cbn [fst snd] in *. subst a. cbn. by rewrite Et, Ec, Er.
Qed.

Lemma inspect_absent now key (r : R) : view now r key = None -> (token_bucket_inspect now key r).2 = Ok ("0", "0", "0").
Proof.
  intros Hv. unfold token_bucket_inspect, bind. pose proof (HMGET_spec now key ["tokens"; "capacity"; "refill"] r ltac:(done)) as Hg.
  rewrite Hv in Hg. destruct (HMGET _ _ _ _) as [r1 a]. cbn [fst snd] in *. by subst a.
Qed.

Lemma inspect_frame now key (r : R) j k : now <= j -> view j (token_bucket_inspect now key r).1 k = view j r k.
Proof.
  intros Hj. unfold token_bucket_inspect, bind. pose proof (HMGET_frame now key ["tokens"; "capacity"; "refill"] r j k Hj) as Hf.
  destruct (HMGET _ _ _ _) as [r1 [st|e]]; cbn [fst] in *; [|done]. by case_match.
Qed.
End script.

(** ** Runs *)

Inductive request := RTake (key : string) (n : Q) | RInspect (key : string).
Inductive answer := ATake (granted : bool) (remaining : Q) | AInspect (s : BucketState Q).
Definition request_key (q : request) : string := match q with RTake k _ | RInspect k => k end.

(** Each key is drawn on with a capacity and a rate of its own. *)
Section runs.
Context (cap rate : string -> Q).

Definition redis_request {R} `{Redis R} `{NumberText Q} (c : cache_call) (q : request) (r : R) : option answer * R :=
  match q with
  | RTake k n => let x := RedisLimiter_Take c k (cap k) (rate k) n r in (match x.2 with Ok (g, rem) => Some (ATake g rem) | Err _ => None end, x.1)
  | RInspect k => let x := RedisLimiter_Inspect c k r in (match x.2 with Ok s => Some (AInspect s) | Err _ => None end, x.1)
  end.
Fixpoint run_requests {R} `{Redis R} `{NumberText Q} (qs : list (cache_call * request)) (r : R) : list (option answer) * R :=
  match qs with
  | [] => ([], r)
  | (c, q) :: qs' => let '(a, r) := redis_request c q r in let '(rest, r) := run_requests qs' r in (a :: rest, r)
  end.

(** The in-memory limiter with a clock of whole milliseconds, whose [Inspect]
    no longer knows a bucket left alone for longer than its expiry. *)
Definition forgotten (now : time) (k : string) (b : bucketState Q) : bool :=
  lastAt b / Millisecond + ttl_of (cap k) (rate k) <? unix_ms now.
Definition memory_request (now : time) (q : request) (m : MemoryLimiter Q) : answer * MemoryLimiter Q :=
  match q with
  | RTake k n => let '(g, rem, m) := Take (whole now) k (cap k) (rate k) n m in (ATake g rem, m)
  | RInspect k => (AInspect (Inspect k (if default false (forgotten now k <$> m !! k) then ∅ else m)), m)
  end.
Fixpoint run_memory (qs : list (cache_call * request)) (m : MemoryLimiter Q) : list (option answer) * MemoryLimiter Q :=
  match qs with
  | [] => ([], m)
  | (c, q) :: qs' =>
      let '(a, m1) := memory_request (c_now c) q m in
      let '(a, m) := match c_outcome c with Works => (Some a, m1) | Fails true => (None, m1) | Fails false => (None, m) end in
      let '(rest, m) := run_memory qs' m in (a :: rest, m)
  end.

(** Answers agree up to the 14 digits of [tostring]. *)
Definition same_answer `{!NumberText Q, !NumberTextLaws Q} (a b : option answer) : Prop :=
  match a, b with
  | None, None => True
  | Some (ATake g rem), Some (ATake g' rem') => g = g' /\ exists x, (x == rem')%Q /\ rem = printed x
  | Some (AInspect s), Some (AInspect s') => (Capacity s == Capacity s' /\ Remaining s == Remaining s' /\ RefillPerSec s == RefillPerSec s')%Q
  | _, _ => False
  end.

(** Parameters whose expiry a number holds exactly. *)
Definition params_ok (k : string) : Prop := (0 <= cap k /\ 0 < rate k /\ 2 * (cap k / rate k) * 1000 <= inject_Z (2 ^ 53))%Q.
(** Times of the years 1970 to 2262, that do not go back. *)
Fixpoint requests_ok (P : string -> Prop) (t : time) (qs : list (cache_call * request)) : Prop :=
  match qs with
  | [] => True
  | (c, q) :: qs' => t <= c_now c <= int64_max /\ P (request_key q) /\ params_ok (request_key q) /\ requests_ok P (c_now c) qs'
  end.
End runs.

(** ** The level in both limiters *)

Definition clamp (cap t : Q) : Q := if fltb cap t then cap else t.

Lemma min_clamp cap t t' : (t == t')%Q -> (min cap t == clamp cap t')%Q.
Proof.
  intros E. unfold min, clamp. cbn. destruct (negb (Qle_bool cap t)) eqn:E1, (negb (Qle_bool t' cap)) eqn:E2; try done;
    rewrite ?negb_true_iff, ?negb_false_iff, <- ?not_true_iff_false, Qle_bool_iff in *; lra.
Qed.

Lemma clamp_full cap t : (cap <= t)%Q -> (clamp cap t == cap)%Q.
Proof. intros Hle. unfold clamp. cbn. destruct (negb (Qle_bool t cap)) eqn:E; [done|]. rewrite negb_false_iff, Qle_bool_iff in E. lra. Qed.

Lemma clamp_nonneg cap t : (0 <= cap)%Q -> (0 <= t)%Q -> (0 <= clamp cap t)%Q.
Proof. intros. unfold clamp. by destruct (fltb _ _). Qed.

(** [Take] on a bucket, by its level after the refill. *)
Definition memory_level (now : time) (cap rate : Q) (b : bucketState Q) : Q := clamp cap (tokens b + seconds (Sub now (lastAt b)) * rate).

Lemma take_bucket_level now cap rate n b :
  take_bucket now cap rate n b = (fleb n (memory_level now cap rate b), mkBucket (level n (memory_level now cap rate b)) now cap rate).
Proof.
  unfold take_bucket, level, memory_level, clamp. cbn. by case (negb (Qle_bool n _)) eqn:E; [apply negb_true_iff in E|apply negb_false_iff in E]; rewrite E.
Qed.

Lemma level_eq n t t' : (t == t')%Q -> fleb n t = fleb n t' /\ (level n t == level n t')%Q.
Proof.
  intros E. assert (Hb : Qle_bool n t = Qle_bool n t') by (apply eq_true_iff_eq; rewrite !Qle_bool_iff; by rewrite E).
  unfold level. cbn. rewrite Hb. split; [done|]. destruct (Qle_bool n t'); [by rewrite E|done].
Qed.

Lemma level_nonneg n t : (0 <= t)%Q -> (0 <= level n t)%Q.
Proof. intros Ht. unfold level. cbn. destruct (Qle_bool n t) eqn:E; [|done]. apply Qle_bool_iff in E. lra. Qed.

(** Whole milliseconds between two times of the run. *)
Lemma whole_elapsed now l : 0 <= l <= unix_ms now -> now <= int64_max ->
  (seconds_Q (Sub (whole now) (l * Millisecond)%Z) == inject_Z (unix_ms now - l)%Z / 1000)%Q.
Proof.
  intros Hl Hn. unfold Sub, whole, seconds_Q, unix_ms, Millisecond, int64_max, int64_min in *.
  pose proof (Z.mul_div_le now 1000000 eq_refl). set (q := now / 1000000) in *. clearbody q. rewrite Z.min_r by lia. rewrite Z.max_r by lia.
  unfold Qeq, Qdiv, Qmult, inject_Z, Qinv. cbn [Qnum Qden]. lia.
Qed.

Lemma unix_ms_exact now : 0 <= now <= int64_max -> exact_int (unix_ms now).
Proof.
  unfold exact_int, unix_ms, Millisecond, int64_max. intros H. rewrite Z.abs_eq by (apply Z.div_pos; lia). apply Z.div_le_upper_bound; lia.
Qed.

(** The expiry: at least a second, and longer than a full refill. *)
Lemma ttl_of_spec cap rate : (0 <= cap)%Q -> (0 < rate)%Q -> (2 * (cap / rate) * 1000 <= inject_Z (2 ^ 53))%Q ->
  exact_int (ttl_of cap rate) /\ 0 < ttl_of cap rate /\ forall d, ttl_of cap rate < d -> (cap <= inject_Z d / 1000 * rate)%Q.
Proof.
  intros Hc Hr Hm. set (x := (2 * (cap / rate) * 1000)%Q) in *.
  change (ttl_of cap rate) with (let t := if negb (Qle_bool rate 0) then (if Qle_bool 0 x then Qfloor x else Qceiling x) else 60000 in if t <? 1000 then 1000 else t).
  cbv zeta. assert (Hf : Qle_bool rate 0 = false) by (apply not_true_iff_false; rewrite Qle_bool_iff; lra). rewrite Hf. cbn [negb].
  assert (Hq : (0 <= cap / rate)%Q) by (apply Qle_shift_div_l; lra).
  assert (Hx : (0 <= x)%Q) by (unfold x; lra).
  replace (Qle_bool 0 x) with true by (symmetry; by apply Qle_bool_iff).
  pose proof (Qlt_floor x) as Hu. pose proof (Qfloor_le x) as Hl.
  assert (H0 : 0 <= Qfloor x) by (change 0 with (Qfloor 0); by apply Qfloor_resp_le).
  assert (H53 : Qfloor x <= 2 ^ 53) by (rewrite <- (Qfloor_Z (2 ^ 53)); by apply Qfloor_resp_le).
  assert (Hd : forall d, Qfloor x < d -> (cap <= inject_Z d / 1000 * rate)%Q).
  { intros d Hd. assert (inject_Z (Qfloor x + 1) <= inject_Z d)%Q by (rewrite <- Zle_Qle; lia).
    assert (Hcap : (cap == cap / rate * rate)%Q) by (field; lra). rewrite Hcap. apply Qmult_le_compat_r; [|lra].
    apply Qle_shift_div_l; [lra|]. unfold x in *. lra. }
  unfold exact_int. destruct (Qfloor x <? 1000) eqn:E; reflect_bools; split_and!; try lia; try (intros d Hlt; apply Hd; lia).
Qed.

(** ** Agreement *)

Section agreement.
Context {R : Type} `{RedisLaws R} `{!NumberText Q, !NumberTextLaws Q}.
Context (cap rate : string -> Q) (P : string -> Prop).

(** The key's bucket, last drawn on in millisecond [l]: a hash until it expires. *)
Definition bucket_at (j0 : Z) (k : string) (b : bucketState Q) (r : R) : Prop := exists l x h,
  lastAt b = l * Millisecond /\ 0 <= l <= j0 /\ capacity b = cap k /\ refill b = rate k /\ (0 <= tokens b)%Q /\ (x == tokens b)%Q /\
  bucket_hash x (inject_Z l) (cap k) (rate k) h /\
  forall j, j0 <= j -> view j r k = if bool_decide (l + ttl_of (cap k) (rate k) < j) then None else Some (RHash h).
Definition limiters_agree (j0 : Z) (r : R) (m : MemoryLimiter Q) : Prop := forall k, P k ->
  match m !! k with None => forall j, j0 <= j -> view j r k = None | Some b => bucket_at j0 k b r end.

Lemma bucket_at_later j j' k b (r : R) : j <= j' -> bucket_at j k b r -> bucket_at j' k b r.
Proof.
  intros Hle (l & x & h & Hl & Hj & Hc & Hr & Ht & Hx & Hh & Hv). exists l, x, h. split_and!; try done; try lia. intros j2 Hj2. apply Hv. lia.
Qed.

Lemma agree_later j j' r m : j <= j' -> limiters_agree j r m -> limiters_agree j' r m.
Proof.
  intros Hle Ha k Hk. specialize (Ha k Hk). destruct (m !! k); [by apply (bucket_at_later j)|]. intros j2 Hj. apply Ha. lia.
Qed.

Lemma bucket_at_frame j0 k b (r r' : R) : (forall j, j0 <= j -> view j r' k = view j r k) -> bucket_at j0 k b r -> bucket_at j0 k b r'.
Proof.
  intros Hf (l & x & h & Hl & Hj & Hc & Hr & Ht & Hx & Hh & Hv). exists l, x, h. split_and!; try done; try lia. intros j Hj2. rewrite Hf by done. by apply Hv.
Qed.

Lemma agree_frame j0 (r r' : R) m : (forall j k, j0 <= j -> view j r' k = view j r k) -> limiters_agree j0 r m -> limiters_agree j0 r' m.
Proof.
  intros Hf Ha k Hk. specialize (Ha k Hk). destruct (m !! k) as [b|].
  - apply (bucket_at_frame _ _ _ r); [|done]. intros j Hj. by apply Hf.
  - intros j Hj. rewrite Hf by done. by apply Ha.
Qed.

(** What both limiters start a request from comes to the same level. *)
Lemma same_level now k (r : R) m : 0 <= now <= int64_max -> P k -> params_ok cap rate k -> limiters_agree (unix_ms now) r m ->
  let b := default (mkBucket (cap k) (whole now) (cap k) (rate k)) (m !! k) in
  exists tokens last, read_bucket (unix_ms now) (cap k) (view (unix_ms now) r k) tokens last /\
    (refilled (cap k) (rate k) tokens last (unix_ms now) == memory_level (whole now) (cap k) (rate k) b)%Q /\
    (0 <= memory_level (whole now) (cap k) (rate k) b)%Q.
Proof.
  intros Hn Hk (Hc & Hr & Hm) Ha b. specialize (Ha k Hk).
  assert (Hb : b = default (mkBucket (cap k) (whole now) (cap k) (rate k)) (m !! k)) by done. clearbody b.
  assert (Hfull : (refilled (cap k) (rate k) (cap k) (fof_Z (unix_ms now)) (unix_ms now) == cap k)%Q).
  { unfold refilled. rewrite (min_clamp _ _ (cap k)); [apply clamp_full; lra|].
    change (cap k + (inject_Z (unix_ms now) - inject_Z (unix_ms now)) / 1000 * rate k == cap k)%Q. set (u := inject_Z (unix_ms now)). field. }
  unfold memory_level. destruct (m !! k) as [b'|] eqn:E; cbn [default from_option id] in Hb; subst b.
  - destruct Ha as (l & x & h & Hl & Hj & Hcb & Hrb & Ht & Hx & Hh & Hv). specialize (Hv (unix_ms now) ltac:(lia)). rewrite Hl.
    change (seconds ?d) with (seconds_Q d). pose proof (whole_elapsed now l Hj ltac:(lia)) as He.
    assert (Hp : (0 <= inject_Z (unix_ms now - l) / 1000)%Q). { apply Qle_shift_div_l; [lra|]. change (0 * 1000)%Q with (inject_Z 0). rewrite <- Zle_Qle. lia. }
    set (e := seconds_Q _) in *. set (d := (inject_Z (unix_ms now - l) / 1000)%Q) in *.
    assert (Hed : (e * rate k == d * rate k)%Q) by (by rewrite He). assert (Hp' : (0 <= d * rate k)%Q) by (apply Qmult_le_0_compat; lra).
    case_bool_decide as Hx2; rewrite Hv.
    + exists (cap k), (fof_Z (unix_ms now)). split; [constructor|]. rewrite Hfull.
      destruct (ttl_of_spec (cap k) (rate k) Hc Hr Hm) as (_ & _ & Hg). specialize (Hg (unix_ms now - l) ltac:(lia)). fold d in Hg.
      rewrite clamp_full by lra. by split.
    + exists x, (fof_Z l). split; [by apply (a_bucket _ _ _ _ (cap k) (rate k))|]. split; [|apply clamp_nonneg; lra].
      apply min_clamp. change (x + (inject_Z (unix_ms now) - inject_Z l) / 1000 * rate k == tokens b' + e * rate k)%Q.
      rewrite Hed, Hx. unfold d, Z.sub. by rewrite inject_Z_plus, inject_Z_opp.
  - rewrite Ha by lia. exists (cap k), (fof_Z (unix_ms now)). split; [constructor|]. rewrite Hfull. cbn [tokens lastAt].
    assert (Hz : (seconds_Q (Sub (whole now) (whole now)) == 0)%Q) by (unfold Sub; by rewrite Z.sub_diag).
    change (seconds ?d) with (seconds_Q d). rewrite clamp_full; [by split|]. rewrite Hz. lra.
Qed.

(** The work of a request that gets through. *)
Lemma take_agrees now k n (r : R) m : 0 <= now <= int64_max -> P k -> params_ok cap rate k -> limiters_agree (unix_ms now) r m ->
  let x := redis_request cap rate (mkCacheCall now Works) (RTake k n) r in let y := memory_request cap rate now (RTake k n) m in
  same_answer x.1 (Some y.1) /\ limiters_agree (unix_ms now) x.2 y.2.
Proof.
  intros Hn Hk Hp Ha. destruct (same_level now k r m Hn Hk Hp Ha) as (tk & last & Hb & Hlev & Hnn).
  destruct Hp as (Hc & Hr & Hm). destruct (ttl_of_spec (cap k) (rate k) Hc Hr Hm) as (Hex & Hpos & _).
  destruct (token_bucket_run (unix_ms now) k (cap k) (rate k) n (ttl_of (cap k) (rate k)) tk last r Hb (unix_ms_exact now Hn) Hex Hpos) as (r' & h & Hrun & Hh & Hv).
  cbn [redis_request memory_request]. unfold RedisLimiter_Take, limiting, roundtrip, bind. cbn [c_outcome c_now]. rewrite Hrun.
  unfold parsed. cbn [fst snd]. rewrite ParseFloat_tostring. cbn [ret fst snd]. unfold Take. rewrite take_bucket_level.
  destruct (level_eq n _ _ Hlev) as [Hg Hl]. cbn [fst snd tokens]. split.
  - cbn [same_answer]. rewrite Hg. change (@fleb ?F ?H ?a ?b) with (Qle_bool a b). split; [by destruct (Qle_bool n _)|by eexists].
  - intros k' Hk'. destruct (decide (k' = k)) as [->|Hne].
    + rewrite lookup_insert_eq. exists (unix_ms now), (level n (refilled (cap k) (rate k) tk last (unix_ms now))), h. cbn [lastAt capacity refill tokens].
      split_and!; try done; [apply Z.div_pos; [lia|done]|by apply level_nonneg|]. intros j Hj. by rewrite Hv, bool_decide_true by done.
    + rewrite lookup_insert_ne by done. specialize (Ha k' Hk'). destruct (m !! k') as [b|].
      * apply (bucket_at_frame _ _ _ r); [|done]. intros j Hj. by rewrite Hv, bool_decide_false by done.
      * intros j Hj. rewrite Hv, bool_decide_false by done. by apply Ha.
Qed.

Lemma inspect_agrees now k (r : R) m : P k -> limiters_agree (unix_ms now) r m ->
  let x := redis_request cap rate (mkCacheCall now Works) (RInspect k) r in let y := memory_request cap rate now (RInspect k) m in
  same_answer x.1 (Some y.1) /\ limiters_agree (unix_ms now) x.2 y.2.
Proof.
  intros Hk Ha. pose proof ParseFloat_zero as Hz. cbn [redis_request memory_request]. unfold RedisLimiter_Inspect, limiting, roundtrip, bind. cbn [c_outcome c_now].
  pose proof (inspect_frame (unix_ms now) k r) as Hf. pose proof (Ha k Hk) as Hb.
  assert (Hres : exists c t f, (token_bucket_inspect (unix_ms now) k r).2 = Ok (c, t, f) /\ exists c' t' f',
    ParseFloat c = Some c' /\ ParseFloat t = Some t' /\ ParseFloat f = Some f' /\
    let s := Inspect k (if default false (forgotten cap rate now k <$> m !! k) then ∅ else m) in
    (c' == Capacity s /\ t' == Remaining s /\ f' == RefillPerSec s)%Q).
  { unfold Inspect. destruct (m !! k) as [b|] eqn:E.
    - destruct Hb as (l & x & h & Hl & Hj & Hc & Hr & Ht & Hx & Hh & Hv). specialize (Hv (unix_ms now) ltac:(lia)). cbn [fmap option_fmap option_map default from_option id].
      unfold forgotten. rewrite Hl, Z.div_mul by done. case_bool_decide as Hlt.
      + replace (_ <? _) with true by (symmetry; by apply Z.ltb_lt). rewrite lookup_empty. do 3 eexists. split; [by apply inspect_absent|].
        exists 0%Q, 0%Q, 0%Q. by split_and!.
      + replace (_ <? _) with false by (symmetry; apply Z.ltb_ge; lia). cbn [id]. rewrite E. do 3 eexists. split; [by eapply inspect_run|].
        exists (cap k), x, (rate k). rewrite !ParseFloat_field. cbn. by rewrite Hc, Hr.
    - cbn [fmap option_fmap option_map default from_option id]. rewrite E. do 3 eexists. split; [apply inspect_absent, Hb; lia|]. exists 0%Q, 0%Q, 0%Q. by split_and!. }
  destruct Hres as (c & t & f & Hres & c' & t' & f' & Ec & Et & Ef & Hs).
  destruct (token_bucket_inspect _ _ _) as [r' a]. cbn [fst snd] in *. subst a. unfold parsed. cbn [fst snd]. rewrite Ec, Et, Ef.
  split.
  - destruct (feqb c' fzero && feqb t' fzero && feqb f' fzero) eqn:E0; cbn [ret snd fst same_answer Capacity Remaining RefillPerSec]; [|done].
    apply andb_true_iff in E0 as [[E1 E2]%andb_true_iff E3]. apply Qeq_bool_iff in E1, E2, E3. destruct Hs as (S1 & S2 & S3). rewrite <- S1, <- S2, <- S3. by split_and!.
  - apply (agree_frame _ r); [|done]. intros j k' Hj. rewrite <- (Hf j k' Hj). by destruct (feqb c' fzero && feqb t' fzero && feqb f' fzero).
Qed.

Lemma redis_request_failed t b q (r : R) : redis_request cap rate (mkCacheCall t (Fails b)) q r =
  (None, if b then (redis_request cap rate (mkCacheCall t Works) q r).2 else r).
Proof.
  destruct q as [k n|k]; cbn [redis_request]; unfold RedisLimiter_Take, RedisLimiter_Inspect, limiting, roundtrip, bind, parsed; cbn [c_outcome c_now].
  - destruct b; [|done]. destruct (token_bucket _ _ _ _ _ _ _ _) as [? [[? ?]|]]; cbn [fst snd]; [|done]. by case_match.
  - destruct b; [|done]. destruct (token_bucket_inspect _ _ _) as [? [[[? ?] ?]|]]; cbn [fst snd]; [|done]. by repeat case_match.
Qed.

Lemma requests_agree qs : forall t (r : R) m, 0 <= t -> requests_ok cap rate P t qs -> limiters_agree (unix_ms t) r m ->
  Forall2 same_answer (run_requests cap rate qs r).1 (run_memory cap rate qs m).1.
Proof.
  induction qs as [|[c q] qs IH]; intros t r m Hpos; [constructor|]. cbn [requests_ok]. intros (Hle & Hk & Hp & Hok) Ha.
  apply (agree_later _ (unix_ms (c_now c))) in Ha; [|apply Z.div_le_mono; [done|lia]].
  assert (Hstep : let x := redis_request cap rate (mkCacheCall (c_now c) Works) q r in let y := memory_request cap rate (c_now c) q m in
    same_answer x.1 (Some y.1) /\ limiters_agree (unix_ms (c_now c)) x.2 y.2).
  { destruct q as [k n|k]; [apply take_agrees; [lia|..]|apply inspect_agrees]; done. }
  cbn [run_requests run_memory]. destruct c as [now o]. cbn [c_now c_outcome] in *. destruct (memory_request cap rate now q m) as [a m1].
  assert (Hx : exists x r1, redis_request cap rate (mkCacheCall now o) q r = (x, r1) /\
    same_answer x (match o with Works => Some a | _ => None end) /\ limiters_agree (unix_ms now) r1 (match o with Fails false => m | _ => m1 end)).
  { destruct o as [|b].
    - destruct (redis_request cap rate (mkCacheCall now Works) q r) as [x r1]. cbn [fst snd] in Hstep. destruct Hstep. by exists x, r1.
    - rewrite redis_request_failed. destruct Hstep as [_ Hs]. destruct b; do 2 eexists; split_and!; done. }
  destruct Hx as (x & r1 & -> & Hx & Hr). destruct o as [|[]]; apply (IH now) in Hr; try done; try lia;
    destruct (run_requests cap rate qs r1), (run_memory cap rate qs _); cbn [fst snd] in *; by constructor.
Qed.
End agreement.

(** ** Properties *)

(** C33: In exact arithmetic, with a clock that does not go back between 1970 and
    2262, and for keys each drawn on with one capacity and one positive rate,
    of which twice the time to fill is at most 2^53 ms, the Redis limiter is the in-memory one: on every server with
    the documented commands that holds none of these keys at first, whatever
    is requested, whichever requests fail and whether or not those were carried
    out, it grants what the in-memory limiter grants with a clock of whole
    milliseconds, and leaves what it leaves up to the digits that are printed.
    The expiry of a key, and the fresh bucket after it, cannot then be told
    from the refill.  (They can without these conditions:
    [zero_rate_refills], [changed_parameters].) *)
Theorem redis_limiter_is_memory_limiter {R} `{RedisLaws R} `{!NumberText Q, !NumberTextLaws Q} cap rate P t qs (r : R) :
  0 <= t -> requests_ok cap rate P t qs -> (forall j k, unix_ms t <= j -> P k -> view j r k = None) ->
  Forall2 same_answer (run_requests cap rate qs r).1 (run_memory cap rate qs NewMemoryLimiter).1.
Proof. intros Ht Hok Hr. apply (requests_agree cap rate P qs t); [done|done|]. intros k Hk. unfold NewMemoryLimiter. rewrite lookup_empty. intros j Hj. by apply Hr. Qed.

(** ** Samples *)

(** Fractions as text: an integer in decimal, anything else by its code. *)
Fixpoint pos_text (p : positive) : string := match p with xH => "" | xO p => String "0" (pos_text p) | xI p => String "1" (pos_text p) end.
Fixpoint text_pos (s : string) : positive := match s with "" => xH | String "0" s => xO (text_pos s) | String _ s => xI (text_pos s) end.
Lemma text_pos_text p : text_pos (pos_text p) = p.
Proof. by induction p as [p IH|p IH|]; cbn; rewrite ?IH. Qed.

Definition is_exact (x : Q) : bool := bool_decide (Qden x = 1%positive) && (Z.abs (Qnum x) <=? 2 ^ 53).
Definition print_Q (x : Q) : string := if is_exact x then Itoa (Qnum x) else "q" +:+ pos_text (encode (Qnum x, Qden x)).
Definition read_Q (s : string) : option Q :=
  match s with
  | String "q" s' => '(n, d) ← decode (A := Z * positive) (text_pos s'); Some (Qmake n d)
  | _ => z ← Atoi s; Some (inject_Z z)
  end.

Lemma read_code s : read_Q (String "q" s) = '(n, d) ← decode (A := Z * positive) (text_pos s); Some (Qmake n d).
Proof. done. Qed.
Lemma read_Itoa z : exact_int z -> read_Q (Itoa z) = Some (inject_Z z).
Proof.
  unfold exact_int. intros Hz. assert (Ha : Atoi (Itoa z) = Some z) by (apply Atoi_Itoa; unfold is_int64, int64_min, int64_max; lia).
  unfold read_Q. destruct (Itoa z) as [|c s]; [by rewrite Ha|]. repeat (case_match; try by rewrite Ha). exfalso. subst. by vm_compute in Ha.
Qed.

Lemma read_print x : read_Q (print_Q x) = Some x.
Proof.
  unfold print_Q. destruct (is_exact x) eqn:E.
  - apply andb_true_iff in E as [E1%bool_decide_eq_true E2%Z.leb_le]. rewrite read_Itoa by done. destruct x as [n d]. cbn in *. by subst.
  - change ("q" +:+ ?t) with (String "q" t). rewrite read_code, text_pos_text, decode_encode. by destruct x.
Qed.

#[export] Instance exact_text : NumberText Q :=
  {| arg_text := print_Q; field_text := print_Q; tostring := print_Q; tonumber := read_Q; ParseFloat := read_Q |}.
#[export] Instance exact_text_laws : NumberTextLaws Q.
Proof.
  refine {| printed x := x |}; intros; cbn; try apply read_print; try done; [by apply read_Itoa|].
  unfold print_Q, is_exact, exact_int in *. cbn [Qnum Qden inject_Z]. rewrite bool_decide_true by done.
  replace (Z.abs z <=? 2 ^ 53) with true by (symmetry; by apply Z.leb_le). apply Atoi_Itoa. unfold is_int64, int64_min, int64_max. lia.
Defined.

(** A key of four tokens and two a second, whose bucket expires after four
    seconds; a take that is lost; the answers after the key has expired. *)
Definition sample_requests : list (cache_call * request) :=
  [(mkCacheCall 0 Works, RTake "k" 3); (mkCacheCall (Second + 999999) Works, RTake "k" (7 # 2));
   (mkCacheCall (2 * Second) (Fails true), RTake "k" 1); (mkCacheCall (2 * Second) Works, RInspect "k");
   (mkCacheCall (10 * Second) Works, RInspect "k"); (mkCacheCall (10 * Second) Works, RTake "k" 4)].
Definition sample_answers : list (option answer) :=
  [Some (ATake true 1); Some (ATake false 3); None; Some (AInspect (mkBucketState 4 3 2 "")); Some (AInspect (mkBucketState 0 0 0 ""));
   Some (ATake true 0)]%Q.
Lemma redis_limiter_is_memory_limiter_witness :
  Forall2 same_answer (run_requests (fun _ => 4%Q) (fun _ => 2%Q) sample_requests (mkRedis ∅)).1
    (run_memory (fun _ => 4%Q) (fun _ => 2%Q) sample_requests NewMemoryLimiter).1.
Proof.
  apply (redis_limiter_is_memory_limiter (fun _ => 4%Q) (fun _ => 2%Q) (fun _ => True) 0); [done| |done].
  cbn. unfold params_ok, Second, int64_max. split_and!; try lia; try done.
Defined.
Definition reduced (a : answer) : answer :=
  match a with
  | ATake g rem => ATake g (Qred rem)
  | AInspect s => AInspect (mkBucketState (Qred (Capacity s)) (Qred (Remaining s)) (Qred (RefillPerSec s)) (Surface s))
  end.
Example sample_answered :
  map (fmap reduced) (run_requests (fun _ => 4%Q) (fun _ => 2%Q) sample_requests (mkRedis ∅)).1 = sample_answers.
Proof. vm_compute. reflexivity. Qed.

(** A rate of zero never refills the in-memory bucket; the Redis key expires
    after a minute and the bucket is full again. *)
Definition zero_rate_requests : list (cache_call * request) :=
  [(mkCacheCall 0 Works, RTake "k" 4); (mkCacheCall Second Works, RTake "k" 1); (mkCacheCall Hour Works, RTake "k" 4)].
Definition granted (a : option answer) : bool := match a with Some (ATake g _) => g | _ => false end.
Example zero_rate_refills :
  (map granted (run_requests (fun _ => 4%Q) (fun _ => 0%Q) zero_rate_requests (mkRedis ∅)).1,
   map granted (run_memory (fun _ => 4%Q) (fun _ => 0%Q) zero_rate_requests NewMemoryLimiter).1)
  = ([true; false; true], [true; false; false]).
Proof. vm_compute. reflexivity. Qed.

(** A key drawn on with two parameters: the expiry is that of the last take, and
    the bucket that outlives it is full at once. *)
Definition narrow_take (now : time) (cap rate n : Q) (r : redis_map) := RedisLimiter_Take (mkCacheCall now Works) "k" cap rate n r.
Example changed_parameters :
  let r1 := (narrow_take 0 1000 1 1000 (mkRedis ∅)).1 in
  let r2 := (narrow_take Second 10 1000 1 r1).1 in
  let x := (narrow_take (3 * Second) 1000 1 500 r2).2 in
  let '(_, _, m1) := Take 0 "k" 1000%Q 1%Q 1000%Q NewMemoryLimiter in
  let '(_, _, m2) := Take Second "k" 10%Q 1000%Q 1%Q m1 in
  (match x with Ok (g, _) => Some g | Err _ => None end, (Take (3 * Second) "k" 1000%Q 1%Q 500%Q m2).1.1) = (Some true, false).
Proof. vm_compute. reflexivity. Qed.
