(* ===== verification/UuidOrder.v ===== *)
(** * The order of UUIDs

    UUIDs as text are in the order of their bytes, which is that of their
    numbers: sorting by the one and by the other agree. *)

From S2P Require Import Prelude GoStd Sha256 Json Uuid.

Fixpoint lcmp (l k : list ascii) : comparison :=
  match l, k with
  | [], [] => Eq
  | [], _ => Lt
  | _, [] => Gt
  | a :: l, b :: k => match code a ?= code b with Eq => lcmp l k | c => c end
  end.

Lemma string_compare_lcmp s t : String.compare s t = lcmp (s2l s) (s2l t).
Proof.
  revert t. induction s as [|a s IH]; intros [|b t]; try done. cbn. unfold Ascii.compare, code. rewrite N2Z.inj_compare.
  destruct (N_of_ascii a ?= N_of_ascii b)%N; [apply IH|done|done].
Qed.

Lemma lcmp_app a b c d : length a = length b -> lcmp (a ++ c) (b ++ d) = match lcmp a b with Eq => lcmp c d | r => r end.
Proof.
  revert b. induction a as [|x a IH]; intros [|y b]; try done. intros [= H]. cbn. destruct (code x ?= code y); [by apply IH|done|done].
Qed.

Lemma lcmp_refl l : lcmp l l = Eq.
Proof. induction l as [|a l IH]; [done|]. cbn. by rewrite Z.compare_refl. Qed.

(** Two bytes in hexadecimal. *)
Lemma hex_digit_code a : 0 <= a < 16 -> code (hex_digit a) = if a <? 10 then 48 + a else 87 + a.
Proof. intros Ha. unfold hex_digit. destruct (Z.ltb_spec a 10); rewrite code_chr by lia; lia. Qed.
Lemma lcmp_digits a b : 0 <= a < 16 -> 0 <= b < 16 -> (code (hex_digit a) ?= code (hex_digit b)) = (a ?= b).
Proof.
  intros Ha Hb. rewrite !hex_digit_code by done. destruct (Z.ltb_spec a 10), (Z.ltb_spec b 10); destruct (Z.compare_spec a b);
    (apply Z.compare_eq_iff || apply Z.compare_lt_iff || apply Z.compare_gt_iff); lia.
Qed.

(** High part first. *)
Lemma compare_split m a b c d : 0 <= b < m -> 0 <= d < m -> (a * m + b ?= c * m + d) = match a ?= c with Eq => b ?= d | r => r end.
Proof.
  intros Hb Hd. destruct (Z.compare_spec a c) as [->|H|H].
  - destruct (Z.compare_spec b d); (apply Z.compare_eq_iff || apply Z.compare_lt_iff || apply Z.compare_gt_iff); lia.
  - apply Z.compare_lt_iff. nia.
  - apply Z.compare_gt_iff. nia.
Qed.

Lemma lcmp_hex l k : length l = length k -> lcmp (hex_of_bytes l) (hex_of_bytes k) = lcmp l k.
Proof.
  revert k. induction l as [|a l IH]; intros [|b k]; try done. intros [= H]. rewrite !hex_of_bytes_cons. cbn [lcmp].
  pose proof (code_range a) as Ha. pose proof (code_range b) as Hb.
  rewrite !lcmp_digits by (first [apply Z.mod_pos_bound; lia|split; [apply Z.div_pos|apply Z.div_lt_upper_bound]; lia]).
  rewrite IH by done.
  replace (code a ?= code b) with (code a / 16 * 16 + code a mod 16 ?= code b / 16 * 16 + code b mod 16) by (f_equal; rewrite Z.mul_comm, <- Z.div_mod; lia).
  rewrite compare_split by (apply Z.mod_pos_bound; lia). by destruct (code a / 16 ?= code b / 16).
Qed.

Lemma lcmp_be_bytes n a b : lcmp (be_bytes n a) (be_bytes n b) = (a mod 2 ^ (8 * Z.of_nat n) ?= b mod 2 ^ (8 * Z.of_nat n)).
Proof.
  induction n as [|n IH]; [cbn; by rewrite !Z.mod_1_r|]. cbn [be_bytes lcmp]. rewrite IH, !code_chr by (apply Z.mod_pos_bound; lia).
  set (m := 2 ^ (8 * Z.of_nat n)). assert (Hm : 0 < m) by (apply Z.pow_pos_nonneg; lia).
  replace (2 ^ (8 * Z.of_nat (S n))) with (m * 256) by (unfold m; rewrite Nat2Z.inj_succ, Z.mul_succ_r, Z.pow_add_r; lia).
  rewrite !Z.shiftr_div_pow2 by lia. fold m. rewrite !Z.rem_mul_r by lia.
  rewrite (Z.add_comm (a mod m)), (Z.add_comm (b mod m)), (Z.mul_comm m (_ mod _)), (Z.mul_comm m ((b / m) mod _)).
  by rewrite compare_split by (apply Z.mod_pos_bound; lia).
Qed.

Lemma uuid_String_compare u v : uuid_ok u -> uuid_ok v -> String.compare (uuid_String u) (uuid_String v) = (u ?= v).
Proof.
  intros Hu Hv. rewrite string_compare_lcmp. unfold uuid_String. cbv zeta. rewrite !s2l_l2s.
  assert (Hlen : forall x, length (hex_of_bytes (be_bytes 16 x)) = 32%nat) by (intros x; by rewrite hex_of_bytes_length, length_be_bytes).
  pose proof (Hlen u) as Lu. pose proof (Hlen v) as Lv.
  transitivity (lcmp (hex_of_bytes (be_bytes 16 u)) (hex_of_bytes (be_bytes 16 v))).
  - set (h := hex_of_bytes (be_bytes 16 u)) in *. set (k := hex_of_bytes (be_bytes 16 v)) in *. clearbody h k.
    rewrite (uuid_groups h) at 6. rewrite (uuid_groups k) at 6.
    assert (Hg : forall n m, length (take n (drop m h)) = length (take n (drop m k))) by (intros n m; rewrite !length_take, !length_drop; lia).
    assert (H8 : length (take 8 h) = length (take 8 k)) by (rewrite !length_take; lia).
    rewrite !lcmp_app by (done || apply Hg). by rewrite !(lcmp_refl (s2l "-")).
  - rewrite lcmp_hex by (by rewrite !length_be_bytes). rewrite lcmp_be_bytes. change (2 ^ (8 * Z.of_nat 16)) with (2 ^ 128).
    unfold uuid_ok in *. by rewrite !Z.mod_small.
Qed.

Lemma uuid_String_le u v : uuid_ok u -> uuid_ok v -> String.le (uuid_String u) (uuid_String v) <-> u <= v.
Proof.
  intros Hu Hv. unfold String.le, String.leb. rewrite uuid_String_compare by done. destruct (Z.compare_spec u v); cbn; split; (done || lia).
Qed.
