(* ===== verification/PgStore.v ===== *)
(** * The metadata store on PostgreSQL

    [plane/data/store/postgres]: metadata.go, identity_reader.go,
    identity_writer.go, repository.go and billing.go.  The database is the set
    of tables that the migrations under [plane/data/migrations] create, with
    their keys and checks; a statement acts on it as PostgreSQL documents, and
    any of them may fail.  A serializable transaction takes effect in one step
    or not at all; the answer to its commit may be lost.  Timestamps are kept in
    microseconds, scores in ten-thousandths. *)

From S2P Require Import Prelude GoStd Sha256 Uuid UuidOrder Floats Outbox Actions MetadataStore Repositories.

(** ** Column types *)

(** [TIMESTAMPTZ]: whole microseconds. *)
Definition micro (t : time) : time := t / 1000 * 1000.
(** [NUMERIC(5,4)] between 0 and 1, in ten-thousandths: how the driver and the
    database round a [float64], refusing those out of range, and back. *)
Class Numeric := {
  to_numeric : float -> option Z;
  of_numeric : Z -> float;
  to_numeric_range x n : to_numeric x = Some n -> 0 <= n <= 10000;
  to_of_numeric n : 0 <= n <= 10000 -> to_numeric (of_numeric n) = Some n }.

Definition UniqueViolation : error := PgError "23505".
Definition ForeignKeyViolation : error := PgError "23503".
Definition CheckViolation : error := PgError "23514".
Definition InFailedTransaction : error := PgError "25P02".

(** ** The tables *)

Section pg.
Context {P : Type} {MR : MapRange} {NU : Numeric}.

Record user_row := mkUserRow { ur_user : HumanUser; ur_disabled : option (time * string) }.
Record agent_row := mkAgentRow { ag_agent : AgentIdentity; ag_revoked : option (time * string) }.

Record Db := mkDb {
  human_users : gmap uuid user_row;
  organisations : gset uuid;
  org_memberships : gmap (uuid * uuid) string;
  agent_identities : gmap uuid agent_row;
  clone_tokens : gmap uuid CloneTokenRow;
  db_repositories : gmap uuid Repository;
  partition_archives : gmap uuid PartitionArchive;
  quota_accounts : gmap uuid QuotaAccount;
  outboxes : list (OutboxRecord P) }.

Definition set_users (m : gmap uuid user_row) (d : Db) : Db :=
  mkDb m (organisations d) (org_memberships d) (agent_identities d) (clone_tokens d) (db_repositories d) (partition_archives d) (quota_accounts d) (outboxes d).
Definition set_members (m : gmap (uuid * uuid) string) (d : Db) : Db :=
  mkDb (human_users d) (organisations d) m (agent_identities d) (clone_tokens d) (db_repositories d) (partition_archives d) (quota_accounts d) (outboxes d).
Definition set_agents (m : gmap uuid agent_row) (d : Db) : Db :=
  mkDb (human_users d) (organisations d) (org_memberships d) m (clone_tokens d) (db_repositories d) (partition_archives d) (quota_accounts d) (outboxes d).
Definition set_tokens (m : gmap uuid CloneTokenRow) (d : Db) : Db :=
  mkDb (human_users d) (organisations d) (org_memberships d) (agent_identities d) m (db_repositories d) (partition_archives d) (quota_accounts d) (outboxes d).
Definition set_repositories (m : gmap uuid Repository) (d : Db) : Db :=
  mkDb (human_users d) (organisations d) (org_memberships d) (agent_identities d) (clone_tokens d) m (partition_archives d) (quota_accounts d) (outboxes d).
Definition set_archives (m : gmap uuid PartitionArchive) (d : Db) : Db :=
  mkDb (human_users d) (organisations d) (org_memberships d) (agent_identities d) (clone_tokens d) (db_repositories d) m (quota_accounts d) (outboxes d).
Definition add_outbox (e : OutboxRecord P) (d : Db) : Db :=
  mkDb (human_users d) (organisations d) (org_memberships d) (agent_identities d) (clone_tokens d) (db_repositories d) (partition_archives d) (quota_accounts d) (outboxes d ++ [e]).

(** Some row of the table has this. *)
Definition taken {K A B} `{Countable K, EqDecision B} (key : A -> B) (v : B) (m : gmap K A) : bool :=
  bool_decide (map_Exists (fun _ a => key a = v) m).

(** ** Transactions *)

(** What a transaction has done so far: [now()] is the time it began; after an
    error it only answers that it has failed. *)
Record pgtx := mkPgTx {
  tx_db : Db; tx_now : time; tx_aborted : bool; tx_statement : nat; tx_faults : nat -> option error }.
Definition pg (A : Type) : Type := action error pgtx A.

Definition exec {A} (f : Db -> time -> result error (Db * A)) : pg A := fun t =>
  let next aborted d := mkPgTx d (tx_now t) aborted (S (tx_statement t)) (tx_faults t) in
  if tx_aborted t then (next true (tx_db t), Err InFailedTransaction)
  else
    match tx_faults t (tx_statement t) with
    | Some e => (next true (tx_db t), Err e)
    | None =>
        match f (tx_db t) (tx_now t) with
        | Ok (d, a) => (next false d, Ok a)
        | Err e => (next true (tx_db t), Err e)
        end
    end.
Definition query {A} (f : Db -> A) : pg A := exec (fun d _ => Ok (d, f d)).
Definition change (f : Db -> time -> Db) : pg unit := exec (fun d now => Ok (f d now, tt)).

(** How the connection fares: whether BEGIN fails, which statements do, and what
    becomes of the COMMIT: an error may hide a commit that was applied. *)
Record conn := mkConn {
  cn_begin : option error; cn_now : time; cn_faults : nat -> option error; cn_commit : option (error * bool) }.
Definition begin_tx (c : conn) (d : Db) : pgtx := mkPgTx d (micro (cn_now c)) false 0 (cn_faults c).
Definition RolledBack : error := errors_New "commit unexpectedly resulted in rollback".

Definition Store_Transact {A} (fn : pg A) (c : conn) : action error Db A := fun d =>
  match cn_begin c with
  | Some e => (d, Err e)
  | None =>
      match fn (begin_tx c d) with
      | (_, Err e) => (d, Err e)
      | (t, Ok a) =>
          if tx_aborted t then (d, Err RolledBack)
          else
            match cn_commit c with
            | None => (tx_db t, Ok a)
            | Some (e, applied) => (if applied : bool then tx_db t else d, Err e)
            end
      end
  end.

(** A read outside a transaction, from the pool. *)
Definition from_pool {A} (m : pg A) (c : conn) (d : Db) : result error A := (m (begin_tx c d)).2.

(** A row of the outbox table of the domain; [event_id] is unique in it. *)
Definition pg_WriteOutbox (eventID : uuid) (domain : Domain) (aggregateType : string) (aggregateID : uuid)
    (eventType : string) (payload : P) : pg unit :=
  let! _ := require (Domain_Valid domain) (errors_New "postgres: WriteOutbox: invalid domain") in
  exec (fun d _ =>
    if existsb (fun e => bool_decide (or_Domain e = domain) && bool_decide (or_EventID e = eventID)) (outboxes d) then Err UniqueViolation
    else Ok (add_outbox (mkOutboxRecord domain aggregateType aggregateID eventType payload eventID) d, tt)).

(** ** identity_reader.go *)

Definition users_of (d : Db) : gmap uuid HumanUser := ur_user <$> human_users d.
Definition agents_of (d : Db) : gmap uuid AgentIdentity := ag_agent <$> agent_identities d.

Definition pg_GetUserByID (id : uuid) : pg (option HumanUser) := query (fun d => users_of d !! id).
Definition pg_GetUserByEmail (email : string) : pg (option HumanUser) :=
  query (fun d => head (filter (fun u => u_Email u = email) (range (users_of d)))).
Definition pg_GetAgentByID (id : uuid) : pg (option AgentIdentity) := query (fun d => agents_of d !! id).
(** [ORDER BY created_at] leaves the order of equal rows open. *)
Definition created_le (a b : AgentIdentity) : Prop := a_CreatedAt a <= a_CreatedAt b.
#[local] Instance created_le_dec : RelDecision created_le.
Proof. intros a b. unfold created_le. apply _. Defined.
Definition pg_GetAgentsByParentUser (userID : uuid) : pg (list AgentIdentity) :=
  query (fun d => merge_sort created_le (filter (fun a => a_ParentUserID a = userID) (range (agents_of d)))).
Definition pg_LookupIdentityForCache (principalID : uuid) : pg (option IdentityCacheEntry) :=
  let! human := query (fun d => users_of d !! principalID) in
  match human with
  | Some u => ret (Some (mkCacheEntry (u_ID u) "human" (u_RateBucket u) (u_QuotaAccountID u)))
  | None =>
      let! agent := query (fun d => agents_of d !! principalID) in
      match agent with
      | Some a => ret (Some (mkCacheEntry (a_ID a) "agent" (a_RateBucket a) (a_QuotaAccountID a)))
      | None => ret None
      end
  end.

(** ** identity_writer.go *)

(** The columns of a new row that its INSERT names; the times are defaults. *)
Definition fresh_user (now : time) (u : HumanUser) : HumanUser :=
  mkHumanUser (u_ID u) (u_Email u) (u_CredentialHash u) (u_RateBucket u) (u_QuotaAccountID u) now now.
Definition stored_agent (score : Z) (created updated : time) (a : AgentIdentity) : AgentIdentity :=
  mkAgent (a_ID a) (a_DisplayName a) (a_ParentUserID a) (a_PermissionScope a) (a_RateBucket a) (a_SessionQuota a)
    (a_TokensPerWeekCap a) (of_numeric score) (a_QuotaAccountID a) created updated.

Definition pg_InsertHumanUser (u : HumanUser) : pg unit :=
  exec (fun d now =>
    if bool_decide (is_Some (human_users d !! u_ID u)) || taken (fun r => u_Email (ur_user r)) (u_Email u) (human_users d) then Err UniqueViolation
    else Ok (set_users (<[u_ID u := mkUserRow (fresh_user now u) None]> (human_users d)) d, tt)).

Definition pg_InsertAgentIdentity (a : AgentIdentity) : pg unit :=
  exec (fun d now =>
    match to_numeric (a_ReputationScore a) with
    | None => Err CheckViolation
    | Some n =>
        if bool_decide (is_Some (agent_identities d !! a_ID a)) then Err UniqueViolation
        else if bool_decide (is_Some (human_users d !! a_ParentUserID a))
        then Ok (set_agents (<[a_ID a := mkAgentRow (stored_agent n now now a) None]> (agent_identities d)) d, tt)
        else Err ForeignKeyViolation
    end).

(** An UPDATE of the row with an id; there need not be one. *)
Definition touch_user (now : time) (u : HumanUser) : HumanUser :=
  mkHumanUser (u_ID u) (u_Email u) (u_CredentialHash u) (u_RateBucket u) (u_QuotaAccountID u) (u_CreatedAt u) now.
Definition touch_agent (now : time) (a : AgentIdentity) : AgentIdentity :=
  mkAgent (a_ID a) (a_DisplayName a) (a_ParentUserID a) (a_PermissionScope a) (a_RateBucket a) (a_SessionQuota a)
    (a_TokensPerWeekCap a) (a_ReputationScore a) (a_QuotaAccountID a) (a_CreatedAt a) now.
Definition update_agent (id : uuid) (f : agent_row -> agent_row) (d : Db) : Db := set_agents (alter f id (agent_identities d)) d.

Definition pg_SetAgentReputationScore (agentID : uuid) (score : float) : pg unit :=
  exec (fun d now =>
    match agent_identities d !! agentID, to_numeric score with
    | None, _ => Ok (d, tt)
    | Some _, None => Err CheckViolation
    | Some r, Some n => Ok (update_agent agentID (fun r => mkAgentRow (stored_agent n (a_CreatedAt (ag_agent r)) now (ag_agent r)) (ag_revoked r)) d, tt)
    end).
Definition pg_DisableUser (userID : uuid) (reason : string) : pg unit :=
  change (fun d now => set_users (alter (fun r => mkUserRow (touch_user now (ur_user r)) (Some (now, reason))) userID (human_users d)) d).
Definition pg_RevokeAgent (agentID : uuid) (reason : string) : pg unit :=
  change (fun d now => update_agent agentID (fun r => mkAgentRow (touch_agent now (ag_agent r)) (Some (now, reason))) d).
Definition pg_UpdateAgentPermissions (agentID : uuid) (scope : list string) : pg unit :=
  change (fun d now => update_agent agentID (fun r => mkAgentRow (touch_agent now (set_PermissionScope scope (ag_agent r))) (ag_revoked r)) d).

Definition valid_role (role : string) : bool := bool_decide (role ∈ ["owner"; "maintainer"; "developer"; "reporter"; "guest"]).
Definition pg_AddOrgMember (m : OrgMembership) : pg unit :=
  exec (fun d _ =>
    let key := (om_OrgID m, om_UserID m) in
    let known := bool_decide (is_Some (org_memberships d !! key)) in
    if negb (valid_role (om_Role m)) then Err CheckViolation
    else if known || bool_decide (om_OrgID m ∈ organisations d) && bool_decide (is_Some (human_users d !! om_UserID m))
    then Ok (set_members (<[key := om_Role m]> (org_memberships d)) d, tt)
    else Err ForeignKeyViolation).
Definition pg_RemoveOrgMember (orgID userID : uuid) : pg unit :=
  change (fun d _ => set_members (delete (orgID, userID) (org_memberships d)) d).
Definition pg_InsertCloneToken (ct : CloneTokenRow) : pg unit :=
  exec (fun d now =>
    if bool_decide (is_Some (clone_tokens d !! ct_ID ct)) || taken ct_Token (ct_Token ct) (clone_tokens d) then Err UniqueViolation
    else Ok (set_tokens (<[ct_ID ct := mkCloneTokenRow (ct_ID ct) (ct_Token ct) (ct_PrincipalID ct) (ct_RepoID ct) (micro (ct_ExpiresAt ct)) now]> (clone_tokens d)) d, tt)).

(** ** repository.go *)

(** Rows are compared by [(created_at, id)], a UUID by its bytes. *)
Definition row_le (a b : Repository) : Prop :=
  r_CreatedAt a < r_CreatedAt b \/ r_CreatedAt a = r_CreatedAt b /\ r_ID a <= r_ID b.
#[local] Instance row_le_dec : RelDecision row_le.
Proof. intros a b. unfold row_le. apply _. Defined.

Definition pg_GetByID (id : uuid) : pg (option Repository) := query (fun d => db_repositories d !! id).
Definition pg_GetBySlug (slug : string) : pg (option Repository) :=
  query (fun d => head (merge_sort row_le (filter (fun r => r_Slug r = slug) (range (db_repositories d))))).

(** [(created_at, id) > ($2, $3)]: with an unknown [$3] only an earlier time
    decides. *)
Definition after_row (afterCreatedAt : option time) (afterID : option uuid) (r : Repository) : Prop :=
  match afterCreatedAt with
  | None => True
  | Some t => t < r_CreatedAt r \/ match afterID with Some i => t = r_CreatedAt r /\ i < r_ID r | None => False end
  end.
#[local] Instance after_row_dec t i r : Decision (after_row t i r).
Proof. unfold after_row. destruct t, i; apply _. Defined.
Definition list_rows (orgID : uuid) (afterCreatedAt : option time) (afterID : option uuid) (limit : Z) (d : Db) : list Repository :=
  take (Z.to_nat limit) (merge_sort row_le
    (filter (fun r => r_OrgID r = orgID /\ after_row afterCreatedAt afterID r) (range (db_repositories d)))).
Definition pg_ListByOrg (orgID : uuid) (afterCreatedAt : option time) (afterID : option uuid) (limit : Z) : pg (list Repository) :=
  if limit <=? 0 then ret [] else query (list_rows orgID (micro <$> afterCreatedAt) afterID limit).

Definition or_default (s default : string) : string := if bool_decide (s = "") then default else s.
Definition pg_Insert (r : Repository) : pg unit :=
  let visibility := or_default (r_Visibility r) "private" in
  let defaultBranch := or_default (r_DefaultBranch r) "main" in
  exec (fun d now =>
    let row := mkRepository (r_ID r) (r_OrgID r) (r_Name r) (r_Slug r) (r_OwnerID r) defaultBranch visibility
      (r_ReplicaSetID r) (r_HomeRegion r) now now in
    if negb (validVisibility visibility && slug_ok (r_Slug r)) then Err CheckViolation
    else if bool_decide (is_Some (db_repositories d !! r_ID r))
            || taken (fun r => (r_OrgID r, r_Slug r)) (r_OrgID r, r_Slug r) (db_repositories d) then Err UniqueViolation
    else Ok (set_repositories (<[r_ID r := row]> (db_repositories d)) d, tt)).
Definition errNotImplemented : error := errors_New "not implemented".
Definition pg_UpdatePermissions (repoID : uuid) (permissionHash : string) : pg unit := throw errNotImplemented.

(** ** billing.go *)

Definition natural_key (pa : PartitionArchive) : Z * Z * string := (pa_Year pa, pa_Month pa, pa_PartitionName pa).
Definition pg_GetPartitionArchiveByKey (year month : Z) (partitionName : string) : pg (option PartitionArchive) :=
  query (fun d => head (filter (fun pa => natural_key pa = (year, month, partitionName)) (range (partition_archives d)))).

Definition archive_row_le (a b : PartitionArchive) : Prop :=
  pa_Year a < pa_Year b \/ pa_Year a = pa_Year b /\ (pa_Month a < pa_Month b \/ pa_Month a = pa_Month b /\ pa_ID a <= pa_ID b).
#[local] Instance archive_row_le_dec : RelDecision archive_row_le.
Proof. intros a b. unfold archive_row_le. apply _. Defined.
Definition pg_ListPartitionArchivesArchivedBefore (cutoff : time) : pg (list PartitionArchive) :=
  query (fun d => merge_sort archive_row_le (filter (fun pa => pa_ArchivedAt pa < micro cutoff) (range (partition_archives d)))).
Definition pg_GetQuotaAccountByOrg (orgID : uuid) : pg (option QuotaAccount) :=
  query (fun d => head (filter (fun qa => qa_OrgID qa = orgID) (range (quota_accounts d)))).
Definition pg_HasOutboxEventForAggregate (eventType : string) (aggregateID : uuid) : pg bool :=
  query (fun d => existsb (is_billing_event eventType aggregateID) (outboxes d)).

Definition archive_checks (pa : PartitionArchive) : bool :=
  (2026 <=? pa_Year pa) && (pa_Year pa <=? 2100) && (1 <=? pa_Month pa) && (pa_Month pa <=? 12) && (0 <=? pa_RowCount pa) && (0 <=? pa_BytesWritten pa).
Definition stored_archive (pa : PartitionArchive) : PartitionArchive :=
  mkPartitionArchive (pa_ID pa) (pa_Year pa) (pa_Month pa) (pa_PartitionName pa) (pa_LakeURI pa) (pa_RowCount pa) (pa_BytesWritten pa) (micro (pa_ArchivedAt pa)).
(** [INSERT ... ON CONFLICT (year, month, partition_name) DO NOTHING RETURNING id]. *)
Definition insert_archive (pa : PartitionArchive) : pg (option uuid) :=
  exec (fun d _ =>
    if negb (archive_checks pa) then Err CheckViolation
    else if taken natural_key (natural_key pa) (partition_archives d) then Ok (d, None)
    else if bool_decide (is_Some (partition_archives d !! pa_ID pa)) then Err UniqueViolation
    else Ok (set_archives (<[pa_ID pa := stored_archive pa]> (partition_archives d)) d, Some (pa_ID pa))).
Definition pg_InsertPartitionArchiveIfAbsent (pa : PartitionArchive) : pg (uuid * bool) :=
  let! inserted := insert_archive pa in
  match inserted with
  | Some id => ret (id, true)
  | None =>
      let! existing := pg_GetPartitionArchiveByKey (pa_Year pa) (pa_Month pa) (pa_PartitionName pa) in
      match existing with
      | Some e => ret (pa_ID e, false)
      | None => throw (errors_New "postgres: InsertPartitionArchiveIfAbsent: conflict but no row found")
      end
  end.
End pg.

Arguments Db P : clear implicits.
Arguments pgtx P : clear implicits.
Arguments pg P A : clear implicits.

(** ** What the schema guarantees *)

Definition unique_on {K A B} `{Countable K} (key : A -> B) (m : gmap K A) : Prop :=
  forall k1 k2 a1 a2, m !! k1 = Some a1 -> m !! k2 = Some a2 -> key a1 = key a2 -> k1 = k2.

Section tables.
Context {K A : Type} `{Countable K}.
Implicit Types m : gmap K A.

Lemma alter_some (f : A -> A) k m k' a : alter f k m !! k' = Some a -> exists a0, m !! k' = Some a0 /\ a = (if decide (k' = k) then f a0 else a0).
Proof.
  destruct (decide (k' = k)) as [->|Hne].
  - rewrite lookup_alter_eq. destruct (m !! k) as [a0|]; [|done]. intros [= <-]. by exists a0.
  - rewrite lookup_alter_ne by done. intros Ha. by exists a.
Qed.

Lemma filed_alter (key : A -> K) f k m : (forall a, key (f a) = key a) -> filed key m -> filed key (alter f k m).
Proof. intros Hf Hm k' a (a0 & Ha & ->)%alter_some. specialize (Hm k' a0 Ha). cbn in Hm. destruct (decide _); [by rewrite Hf|done]. Qed.

Lemma unique_alter {B} (key : A -> B) f k m : (forall a, key (f a) = key a) -> unique_on key m -> unique_on key (alter f k m).
Proof.
  intros Hf Hm k1 k2 a1 a2 (b1 & H1 & ->)%alter_some (b2 & H2 & ->)%alter_some E. apply (Hm k1 k2 b1 b2 H1 H2).
  by destruct (decide _), (decide _); rewrite ?Hf in E.
Qed.

Lemma unique_insert {B} `{EqDecision B} (key : A -> B) k a m : m !! k = None -> taken key (key a) m = false -> unique_on key m -> unique_on key (<[k := a]> m).
Proof.
  intros Hk Ht Hm k1 k2 a1 a2. unfold taken in Ht. apply bool_decide_eq_false in Ht.
  assert (Hnew : forall k' a', m !! k' = Some a' -> key a' <> key a) by (intros k' a' Ha E; apply Ht; by exists k', a').
  rewrite !lookup_insert_Some. intros [[<- <-]|[? H1]] [[<- <-]|[? H2]] E; [done|by edestruct Hnew|by edestruct Hnew|by apply (Hm k1 k2 a1 a2)].
Qed.

Lemma forall_alter (Q : K -> A -> Prop) f k m : (forall k a, Q k a -> Q k (f a)) -> map_Forall Q m -> map_Forall Q (alter f k m).
Proof. intros Hf Hm k' a (a0 & Ha & ->)%alter_some. specialize (Hm k' a0 Ha). destruct (decide _); [by apply Hf|done]. Qed.

Lemma forall_add (Q : K -> A -> Prop) k a m : Q k a -> map_Forall Q m -> map_Forall Q (<[k := a]> m).
Proof. intros Ha Hm. by apply map_Forall_insert_2. Qed.

Lemma filed_add (key : A -> K) k a m : key a = k -> filed key m -> filed key (<[k := a]> m).
Proof. intros Ha. by apply forall_add. Qed.

Lemma present_alter (f : A -> A) k m k' : is_Some (m !! k') -> is_Some (alter f k m !! k').
Proof. rewrite lookup_alter. case_decide; [|done]. subst. by intros [a ->]. Qed.
Lemma present_insert k a m k' : is_Some (m !! k') -> is_Some (<[k := a]> m !! k').
Proof. rewrite lookup_insert. by case_decide. Qed.
End tables.
#[local] Hint Resolve filed_alter unique_alter unique_insert forall_alter forall_add filed_add present_alter present_insert : pg.

Section schema.
Context {P : Type} {MR : MapRange} {NU : Numeric}.

Definition valid_score (a : AgentIdentity) : Prop := exists n, 0 <= n <= 10000 /\ a_ReputationScore a = of_numeric n.
Definition event_key (e : OutboxRecord P) : Domain * uuid := (or_Domain e, or_EventID e).

Record db_ok (d : Db P) : Prop := {
  users_filed : filed (fun r => u_ID (ur_user r)) (human_users d);
  emails_unique : unique_on (fun r => u_Email (ur_user r)) (human_users d);
  agents_filed : filed (fun r => a_ID (ag_agent r)) (agent_identities d);
  parents_known : map_Forall (fun _ r => is_Some (human_users d !! a_ParentUserID (ag_agent r))) (agent_identities d);
  scores_valid : map_Forall (fun _ r => valid_score (ag_agent r)) (agent_identities d);
  members_known : map_Forall (fun k role => valid_role role = true /\ k.1 ∈ organisations d /\ is_Some (human_users d !! k.2)) (org_memberships d);
  tokens_filed : filed ct_ID (clone_tokens d);
  tokens_unique : unique_on ct_Token (clone_tokens d);
  repositories_filed : filed r_ID (db_repositories d);
  slugs_unique : unique_on (fun r => (r_OrgID r, r_Slug r)) (db_repositories d);
  repositories_valid : map_Forall (fun _ r => validVisibility (r_Visibility r) = true /\ slug_ok (r_Slug r) = true) (db_repositories d);
  archives_filed : filed pa_ID (partition_archives d);
  archives_unique : unique_on natural_key (partition_archives d);
  archives_valid : map_Forall (fun _ pa => archive_checks pa = true) (partition_archives d);
  events_unique : NoDup (map event_key (outboxes d)) }.

(** The callbacks of [Transact]: whatever they do, they do it through the
    interface. *)
Inductive program : forall A : Type, pg P A -> Prop :=
| prog_ret A (a : A) : program A (ret a)
| prog_throw A e : program A (throw e)
| prog_bind A B (m : pg P A) (k : A -> pg P B) : program A m -> (forall a, program B (k a)) -> program B (bind m k)
| prog_WriteOutbox i d at_ ai et p : program unit (pg_WriteOutbox i d at_ ai et p)
| prog_GetUserByID id : program _ (pg_GetUserByID id)
| prog_GetUserByEmail e : program _ (pg_GetUserByEmail e)
| prog_GetAgentByID id : program _ (pg_GetAgentByID id)
| prog_GetAgentsByParentUser id : program _ (pg_GetAgentsByParentUser id)
| prog_LookupIdentityForCache id : program _ (pg_LookupIdentityForCache id)
| prog_InsertHumanUser u : program _ (pg_InsertHumanUser u)
| prog_InsertAgentIdentity a : program _ (pg_InsertAgentIdentity a)
| prog_SetAgentReputationScore id x : program _ (pg_SetAgentReputationScore id x)
| prog_DisableUser id r : program _ (pg_DisableUser id r)
| prog_RevokeAgent id r : program _ (pg_RevokeAgent id r)
| prog_UpdateAgentPermissions id l : program _ (pg_UpdateAgentPermissions id l)
| prog_AddOrgMember m : program _ (pg_AddOrgMember m)
| prog_RemoveOrgMember o u : program _ (pg_RemoveOrgMember o u)
| prog_InsertCloneToken c : program _ (pg_InsertCloneToken c)
| prog_GetByID id : program _ (pg_GetByID id)
| prog_GetBySlug s : program _ (pg_GetBySlug s)
| prog_ListByOrg o t i n : program _ (pg_ListByOrg o t i n)
| prog_Insert r : program _ (pg_Insert r)
| prog_UpdatePermissions id h : program _ (pg_UpdatePermissions id h)
| prog_GetPartitionArchiveByKey y m n : program _ (pg_GetPartitionArchiveByKey y m n)
| prog_ListPartitionArchivesArchivedBefore t : program _ (pg_ListPartitionArchivesArchivedBefore t)
| prog_GetQuotaAccountByOrg o : program _ (pg_GetQuotaAccountByOrg o)
| prog_HasOutboxEventForAggregate et i : program _ (pg_HasOutboxEventForAggregate et i)
| prog_InsertPartitionArchiveIfAbsent pa : program _ (pg_InsertPartitionArchiveIfAbsent pa).

Notation ok_tx := (fun t : pgtx P => db_ok (tx_db t)).

Lemma exec_keeps {A} (f : Db P -> time -> result error (Db P * A)) :
  (forall d now d' a, db_ok d -> f d now = Ok (d', a) -> db_ok d') -> preserves ok_tx (exec f).
Proof.
  intros Hf t Ht. unfold exec. destruct (tx_aborted t); [done|]. destruct (tx_faults t _); [done|].
  destruct (f _ _) as [[d a]|e] eqn:E; [|done]. exact (Hf _ _ _ _ Ht E).
Qed.
Lemma query_keeps {A} (f : Db P -> A) : preserves ok_tx (query f).
Proof. apply exec_keeps. by intros d now d' a Hd [= <- _]. Qed.
Lemma change_keeps (f : Db P -> time -> Db P) : (forall d now, db_ok d -> db_ok (f d now)) -> preserves ok_tx (change f).
Proof. intros Hf. apply exec_keeps. intros d now d' a Hd [= <- _]. by apply Hf. Qed.
#[local] Hint Resolve query_keeps : pg.

(** One table at a time. *)
Lemma ok_users d m : db_ok d -> filed (fun r => u_ID (ur_user r)) m -> unique_on (fun r => u_Email (ur_user r)) m ->
  (forall id, is_Some (human_users d !! id) -> is_Some (m !! id)) -> db_ok (set_users m d).
Proof.
  intros Hd H1 H2 H3. destruct Hd. split; cbn; try done.
  - intros k r Hr. apply H3. by apply (parents_known0 k r).
  - intros k r Hr. destruct (members_known0 k r Hr) as (? & ? & ?). split_and!; [done|done|by apply H3].
Qed.
Lemma ok_agents d m : db_ok d -> filed (fun r => a_ID (ag_agent r)) m ->
  map_Forall (fun _ r => is_Some (human_users d !! a_ParentUserID (ag_agent r))) m -> map_Forall (fun _ r => valid_score (ag_agent r)) m -> db_ok (set_agents m d).
Proof. intros Hd H1 H2 H3. destruct Hd. by split. Qed.
Lemma ok_update_agent d id f : db_ok d -> (forall r, a_ID (ag_agent (f r)) = a_ID (ag_agent r)) -> (forall r, a_ParentUserID (ag_agent (f r)) = a_ParentUserID (ag_agent r)) ->
  (forall r, valid_score (ag_agent r) -> valid_score (ag_agent (f r))) -> db_ok (update_agent id f d).
Proof.
  intros Hd H1 H2 H3. apply ok_agents; [done| | |]; destruct Hd.
  - by apply filed_alter.
  - apply forall_alter; [|done]. intros k r. by rewrite H2.
  - apply forall_alter; [|done]. intros k r. by apply H3.
Qed.

Lemma WriteOutbox_keeps i dm at_ ai et p : preserves ok_tx (pg_WriteOutbox i dm at_ ai et p).
Proof.
  apply preserves_bind; [apply preserves_require|]. intros _. apply exec_keeps. intros d now d' a Hd H.
  destruct (existsb _ _) eqn:E; [done|]. injection H as <- _. destruct Hd. split; cbn; try done. rewrite map_app. apply NoDup_app. split_and!; [done| |apply NoDup_singleton].
  intros k Hk ->%list_elem_of_singleton. apply list_elem_of_fmap in Hk as (e & He & Hin). apply not_true_iff_false in E. apply E.
  apply existsb_exists. exists e. split; [by apply list_elem_of_In|]. injection He as <- <-. by rewrite !bool_decide_true.
Qed.
Lemma InsertHumanUser_keeps u : preserves ok_tx (pg_InsertHumanUser u).
Proof.
  apply exec_keeps. intros d now d' a Hd H. case_bool_decide as Hk; [done|]. cbn [orb] in H. destruct (taken _ _ _) eqn:E; [done|]. injection H as <- _.
  apply ok_users; [done|..]; destruct Hd; eauto with pg. apply eq_None_not_Some in Hk. by apply unique_insert.
Qed.
Lemma InsertAgentIdentity_keeps a : preserves ok_tx (pg_InsertAgentIdentity a).
Proof.
  apply exec_keeps. intros d now d' x Hd H. destruct (to_numeric _) as [n|] eqn:En; [|done]. case_bool_decide; [done|].
  case_bool_decide; [|done]. injection H as <- _. apply ok_agents; [done|..]; destruct Hd; [by apply filed_add|by apply forall_add|].
  apply forall_add; [|done]. exists n. split; [by apply (to_numeric_range _ _ En)|done].
Qed.
Lemma SetAgentReputationScore_keeps id x : preserves ok_tx (pg_SetAgentReputationScore id x).
Proof.
  apply exec_keeps. intros d now d' u Hd H. destruct (agent_identities d !! id); [|by injection H as <- _].
  destruct (to_numeric x) as [n|] eqn:En; [|done]. injection H as <- _. apply ok_update_agent; [done..|]. intros r _. exists n. split; [by apply (to_numeric_range _ _ En)|done].
Qed.
Lemma AddOrgMember_keeps m : preserves ok_tx (pg_AddOrgMember m).
Proof.
  apply exec_keeps. intros d now d' u Hd H. destruct (valid_role (om_Role m)) eqn:Er; cbn [negb] in H; [|done].
  destruct (bool_decide (is_Some (org_memberships d !! _)) || _) eqn:E; [|done]. injection H as <- _. destruct Hd. split; cbn; try done.
  apply forall_add; [|done]. split; [done|]. cbn. apply orb_true_iff in E as [[r Hr]%bool_decide_eq_true|[E1 E2]%andb_true_iff].
  - by destruct (members_known0 _ _ Hr) as (_ & ? & ?).
  - by apply bool_decide_eq_true in E1, E2.
Qed.
Lemma InsertCloneToken_keeps c : preserves ok_tx (pg_InsertCloneToken c).
Proof.
  apply exec_keeps. intros d now d' u Hd H. case_bool_decide as Hk; [done|]. cbn [orb] in H. destruct (taken _ _ _) eqn:E; [done|]. injection H as <- _.
  apply eq_None_not_Some in Hk. destruct Hd. split; cbn; eauto with pg.
Qed.
Lemma Insert_keeps r : preserves ok_tx (pg_Insert r).
Proof.
  apply exec_keeps. intros d now d' u Hd H. cbv zeta in H. destruct (validVisibility _ && slug_ok _) eqn:Ec; cbn [negb] in H; [|done].
  apply andb_true_iff in Ec as [E1 E2]. case_bool_decide as Hk; [done|]. cbn [orb] in H. destruct (taken _ _ _) eqn:E; [done|]. injection H as <- _.
  apply eq_None_not_Some in Hk. destruct Hd. split; cbn; try done; [by apply filed_add|by apply unique_insert|by apply forall_add].
Qed.
Lemma InsertPartitionArchiveIfAbsent_keeps pa : preserves ok_tx (pg_InsertPartitionArchiveIfAbsent pa).
Proof.
  apply preserves_bind.
  - apply exec_keeps. intros d now d' u Hd H. destruct (archive_checks pa) eqn:Ec; cbn [negb] in H; [|done].
    destruct (taken _ _ _) eqn:E; [by injection H as <- _|]. case_bool_decide as Hk; [done|]. injection H as <- _.
    apply eq_None_not_Some in Hk. destruct Hd. split; cbn; try done; [by apply filed_add|by apply unique_insert|by apply forall_add].
  - intros [id|]; [apply preserves_ret|]. apply preserves_bind; [apply query_keeps|]. intros [e|]; [apply preserves_ret|apply preserves_throw].
Qed.

Lemma program_keeps A (m : pg P A) : program A m -> preserves ok_tx m.
Proof.
  induction 1; try apply query_keeps.
  - apply preserves_ret.
  - apply preserves_throw.
  - by apply preserves_bind.
  - apply WriteOutbox_keeps.
  - apply preserves_bind; [apply query_keeps|]. intros [u|]; [apply preserves_ret|]. apply preserves_bind; [apply query_keeps|]. intros [a|]; apply preserves_ret.
  - apply InsertHumanUser_keeps.
  - apply InsertAgentIdentity_keeps.
  - apply SetAgentReputationScore_keeps.
  - apply change_keeps. intros d now Hd. apply ok_users; [done|..]; destruct Hd; eauto with pg.
  - apply change_keeps. intros d now Hd. by apply ok_update_agent.
  - apply change_keeps. intros d now Hd. by apply ok_update_agent.
  - apply AddOrgMember_keeps.
  - apply change_keeps. intros d now Hd. destruct Hd. split; cbn; try done. by apply map_Forall_delete.
  - apply InsertCloneToken_keeps.
  - unfold pg_ListByOrg. destruct (_ <=? 0); [apply preserves_ret|apply query_keeps].
  - apply Insert_keeps.
  - apply preserves_throw.
  - apply InsertPartitionArchiveIfAbsent_keeps.
Qed.
End schema.

(** ** Listings *)

#[export] Instance row_le_decision : RelDecision row_le.
Proof. intros a b. unfold row_le. apply _. Defined.
#[export] Instance row_le_total : Total row_le.
Proof. intros a b. unfold row_le. lia. Qed.
#[export] Instance row_le_trans : Transitive row_le.
Proof. intros a b c. unfold row_le. lia. Qed.

Section listings.
Context (rows : gmap uuid Repository) (Hfiled : filed r_ID rows) (Hids : map_Forall (fun k _ => uuid_ok k) rows).

Lemma row_le_repo_le a b k k' : rows !! k = Some a -> rows !! k' = Some b -> row_le a b <-> repo_le a b.
Proof.
  intros Ha Hb. pose proof (Hfiled k a Ha) as Ea. pose proof (Hfiled k' b Hb) as Eb. cbn in Ea, Eb.
  rewrite repo_le_spec. unfold row_le. rewrite uuid_String_le; [done|rewrite Ea; by apply (Hids k a)|rewrite Eb; by apply (Hids k' b)].
Qed.

Lemma row_le_antisym a b k k' : rows !! k = Some a -> rows !! k' = Some b -> row_le a b -> row_le b a -> a = b.
Proof.
  intros Ha Hb H1 H2. pose proof (Hfiled k a Ha) as Ea. pose proof (Hfiled k' b Hb) as Eb. cbn in Ea, Eb. unfold row_le in *.
  assert (r_ID a = r_ID b) by lia. congruence.
Qed.

Lemma after_past t i a k : rows !! k = Some a -> uuid_ok i -> after_row (Some t) (Some i) a <-> past_cursor (Some t) (Some i) a.
Proof.
  intros Ha Hi. pose proof (Hfiled k a Ha) as Ea. cbn in Ea. unfold after_row, past_cursor, before_cursor.
  rewrite uuid_String_le; [lia|rewrite Ea; by apply (Hids k a)|done].
Qed.
End listings.

Lemma filter_permutes_ext {A} (Q R : A -> Prop) `{!forall x, Decision (Q x), !forall x, Decision (R x)} (l k : list A) :
  l ≡ₚ k -> (forall x, x ∈ l -> Q x <-> R x) -> filter Q l ≡ₚ filter R k.
Proof.
  intros Hp Hqr. transitivity (filter R l); [|by rewrite Hp]. clear Hp k. induction l as [|x l IH]; [done|]. rewrite !filter_cons.
  pose proof (Hqr x (list_elem_of_here x l)). assert (IHl : filter Q l ≡ₚ filter R l) by (apply IH; intros y Hy; apply Hqr; by right).
  destruct (decide (Q x)), (decide (R x)); [by rewrite IHl|tauto|tauto|done].
Qed.

Lemma sorted_filter {A} (R : relation A) (Q : A -> Prop) `{!forall x, Decision (Q x)} l : StronglySorted R l -> StronglySorted R (filter Q l).
Proof.
  induction 1 as [|x l Hs IH Hx]; [constructor|]. rewrite filter_cons. destruct (decide (Q x)); [|done]. constructor; [done|].
  apply Forall_forall. intros y [_ Hy]%list_elem_of_filter. rewrite Forall_forall in Hx. by apply Hx.
Qed.

Lemma sorted_on {A} (R S : relation A) l : (forall a b, a ∈ l -> b ∈ l -> R a b -> S a b) -> StronglySorted R l -> StronglySorted S l.
Proof.
  intros HRS. induction 1 as [|x l Hs IH Hx]; [constructor|]. constructor.
  - apply IH. intros a b Ha Hb. apply HRS; by right.
  - rewrite Forall_forall in *. intros y Hy. apply HRS; [by left|by right|by apply Hx].
Qed.

(** ** Properties *)

(** The databases that transactions make of one with given organisations and
    quota accounts. *)
Definition fresh_db {P} (orgs : gset uuid) (quotas : gmap uuid QuotaAccount) : Db P := mkDb ∅ orgs ∅ ∅ ∅ ∅ ∅ quotas [].
Inductive pg_reachable {P} {MR : MapRange} {NU : Numeric} : Db P -> Prop :=
| pg_start orgs quotas : pg_reachable (fresh_db orgs quotas)
| pg_step A (m : pg P A) c d : program A m -> pg_reachable d -> pg_reachable (Store_Transact m c d).1.

(** Whatever transactions the services run through the interface, and
    however connections, statements and commits fail, the tables keep their
    invariants: rows filed under their ids; emails, tokens, event ids, the slugs
    of an organisation and the partitions of a month unique; agents with a
    parent and a score between 0 and 1; members known, with a role. *)
Theorem schema_invariants {P} {MR : MapRange} {NU : Numeric} (d : Db P) : pg_reachable d -> db_ok d.
Proof.
  induction 1 as [orgs quotas|A m c d Hm Hd IH].
  - split; cbn; try apply map_Forall_empty; try constructor; by intros ????.
  - unfold Store_Transact. destruct (cn_begin c); [done|]. pose proof (program_keeps A m Hm (begin_tx c d) IH) as Hk.
    destruct (m _) as [t [a|e]]; [|done]. destruct (tx_aborted t); [done|]. by destruct (cn_commit c) as [[e []]|].
Qed.

(** C37: The database lists an organisation's repositories as the in-memory store
    does, page by page and in the same order, whatever order the rows come in:
    its order on UUIDs is that of their text. *)
Theorem listings_agree {P} {MR1 MR2 : MapRange} `{!MapRangeLaws MR1, !MapRangeLaws MR2} (d : Db P) (s : Store P) orgID after limit :
  repositories s = db_repositories d -> filed r_ID (db_repositories d) -> map_Forall (fun k _ => uuid_ok k) (db_repositories d) ->
  (forall t i, after = Some (t, i) -> micro t = t /\ uuid_ok i) ->
  @ListByOrg P MR1 orgID (fst <$> after) (snd <$> after) limit s =
    if limit <=? 0 then [] else @list_rows P MR2 orgID (micro <$> (fst <$> after)) (snd <$> after) limit d.
Proof.
  intros Hs Hfiled Hids Hafter. unfold ListByOrg, list_rows. destruct (limit <=? 0); [done|]. f_equal. rewrite Hs. set (rows := db_repositories d) in *.
  set (past := past_cursor (fst <$> after) (snd <$> after)). set (l := filter past _). set (k := filter _ (@range MR2 _ rows)).
  assert (Hin : forall a, a ∈ @range MR1 _ rows -> exists id, rows !! id = Some a) by (intros a; by rewrite elem_of_range).
  assert (Hperm : l ≡ₚ k).
  { unfold l, k. rewrite merge_sort_Permutation. rewrite list_filter_filter. apply filter_permutes_ext.
    - rewrite (range_all (MR := MR1)), (range_all (MR := MR2)). done.
    - intros a [id Ha]%Hin. rewrite (and_comm (past a)). apply and_iff_compat_l. unfold past. destruct after as [[t i]|]; [|done].
      destruct (Hafter t i eq_refl) as [Ht Hi]. cbn [fmap option_fmap option_map fst snd]. rewrite Ht. symmetry. by eapply after_past. }
  assert (Hl : forall a, a ∈ l -> exists id, rows !! id = Some a).
  { intros a [_ Ha]%list_elem_of_filter. rewrite merge_sort_Permutation in Ha. apply list_elem_of_filter in Ha as [_ Ha]. by apply Hin. }
  apply (StronglySorted_unique_strong row_le).
  - intros a b Ha Hb. rewrite merge_sort_Permutation, <- Hperm in Hb. apply Hl in Ha as [i Ha]. apply Hl in Hb as [j Hb]. by eapply row_le_antisym.
  - apply (sorted_on repo_le).
    + intros a b [i Ha]%Hl [j Hb]%Hl. by eapply row_le_repo_le.
    + apply sorted_filter, StronglySorted_merge_sort; apply _.
  - apply StronglySorted_merge_sort; apply _.
  - by rewrite merge_sort_Permutation.
Qed.

(** ** Samples *)

(** Rounding half up to ten-thousandths. *)
Definition round_score (x : float) : option Z :=
  match x with
  | S754_zero _ => Some 0
  | S754_finite false m e =>
      let v := if 0 <=? e then Z.pos m * 2 ^ e * 10000 else (Z.pos m * 20000 + 2 ^ (- e)) / 2 ^ (- e + 1) in
      if v <=? 10000 then Some v else None
  | _ => None
  end.
Lemma round_score_range x n : round_score x = Some n -> 0 <= n <= 10000.
Proof.
  destruct x as [b| | |[] m e]; cbn [round_score]; try done; [intros [= <-]; lia|]. destruct (Z.leb_spec (if 0 <=? e then Z.pos m * 2 ^ e * 10000 else (Z.pos m * 20000 + 2 ^ (- e)) / 2 ^ (- e + 1)) 10000) as [Hle|]; [|done].
  intros [= <-]. split; [|done]. pose proof (Z.pow_nonneg 2 e). pose proof (Z.pow_nonneg 2 (- e)).
  destruct (Z.leb_spec 0 e); [nia|]. apply Z.div_pos; [lia|]. apply Z.pow_pos_nonneg; lia.
Qed.
(** The binary64 nearest to [n] ten-thousandths, by its mantissa of 53 bits. *)
Definition score_mantissa (n s : Z) : Z := (n * 2 ^ s + 5000) / 10000.
Definition float_of_score (n : Z) : float :=
  if n =? 0 then S754_zero false
  else
    let s := if score_mantissa n (65 - Z.log2 n) <? 2 ^ 52 then 66 - Z.log2 n else 65 - Z.log2 n in
    S754_finite false (Z.to_pos (score_mantissa n s)) (- s).
Lemma round_mantissa n s : 20 <= s -> (score_mantissa n s * 20000 + 2 ^ s) / 2 ^ (s + 1) = n.
Proof.
  intros Hs. assert (Hp : 2 ^ 20 <= 2 ^ s) by (apply Z.pow_le_mono_r; lia). rewrite Z.pow_add_r by lia. unfold score_mantissa. set (p := 2 ^ s) in *. clearbody p.
  change (2 ^ 20) with 1048576 in Hp. change (2 ^ 1) with 2.
  symmetry. apply (Z.div_unique_pos _ _ _ ((n * p + 5000) / 10000 * 20000 + p - p * 2 * n)); [|lia].
  pose proof (Z.div_mod (n * p + 5000) 10000 ltac:(done)). pose proof (Z.mod_pos_bound (n * p + 5000) 10000 eq_refl). nia.
Qed.
Lemma round_score_exact n : 0 <= n <= 10000 -> round_score (float_of_score n) = Some n.
Proof.
  intros Hn. unfold float_of_score. destruct (Z.eqb_spec n 0) as [->|Hz]; [done|]. cbv zeta. set (s := if _ : bool then _ else _).
  assert (Hlog : 0 <= Z.log2 n <= 13) by (split; [apply Z.log2_nonneg|]; change 13 with (Z.log2 10000); apply Z.log2_le_mono; lia).
  assert (Hs : 52 <= s <= 66) by (unfold s; destruct (_ <? _); lia). clearbody s. cbn [round_score].
  assert (Hm : 0 < score_mantissa n s).
  { unfold score_mantissa. assert (2 ^ 20 <= 2 ^ s) by (apply Z.pow_le_mono_r; lia). change (2 ^ 20) with 1048576 in *. apply Z.div_str_pos. nia. }
  rewrite Z2Pos.id by done. destruct (Z.leb_spec 0 (- s)); [lia|]. rewrite Z.opp_involutive, round_mantissa by lia.
  by replace (n <=? 10000) with true by (symmetry; apply Z.leb_le; lia).
Qed.
#[export] Instance rounded_scores : Numeric :=
  {| to_numeric := round_score; of_numeric := float_of_score; to_numeric_range := round_score_range; to_of_numeric := round_score_exact |}.
Example score_floats : map float_of_score [0; 1; 3333; 5000; 9999; 10000] = map (fun n => lit n 10000) [0; 1; 3333; 5000; 9999; 10000].
Proof. vm_compute. reflexivity. Qed.

#[local] Instance sample_range : MapRange := some_range.
Definition sample_conn (fault : nat) : conn := mkConn None (5 * Second) (fun n => if (n =? fault)%nat then Some (errors_New "connection reset") else None) None.
Definition sample_user (id : uuid) (email : string) : HumanUser := mkHumanUser id email "h" "human_default" None 0 0.
(** Two users with one email in one transaction. *)
Definition same_email : pg unit unit := let! _ := pg_InsertHumanUser (sample_user 1 "a@b.c") in pg_InsertHumanUser (sample_user 2 "a@b.c").
Example same_email_refused : Store_Transact same_email (sample_conn 9) (fresh_db ∅ ∅) = (fresh_db ∅ ∅, Err UniqueViolation).
Proof. vm_compute. reflexivity. Qed.
Lemma schema_invariants_witness : db_ok (Store_Transact same_email (sample_conn 1) (Store_Transact (pg_InsertHumanUser (sample_user 1 "a@b.c")) (sample_conn 9) (fresh_db ∅ ∅)).1).1.
Proof. apply schema_invariants. repeat first [apply pg_start|apply pg_step]; repeat constructor. Defined.

Definition sample_rows : gmap uuid Repository := {[ 5 := sample_repository 5 7 2000; 3 := sample_repository 3 7 2000; 9 := sample_repository 9 7 1000; 4 := sample_repository 4 8 0 ]}.
Definition listing_db : Db unit := set_repositories sample_rows (fresh_db ∅ ∅).
Definition listing_store : Store unit := mkStore ∅ ∅ sample_rows ∅ ∅ ∅ [].
Lemma listings_agree_witness : map r_ID (ListByOrg 7 (Some 1000) (Some 9) 5 listing_store) = [3; 5].
Proof.
  rewrite (listings_agree (MR2 := some_range) listing_db listing_store 7 (Some (1000, 9)) 5); [vm_compute; reflexivity|done|..].
  - unfold listing_db, sample_rows, filed. cbn. repeat (apply map_Forall_insert_2; [done|]). apply map_Forall_empty.
  - unfold listing_db, sample_rows. cbn. repeat (apply map_Forall_insert_2; [by split|]). apply map_Forall_empty.
  - intros t i [= <- <-]. by split.
Defined.
