(* ===== verification/PgIdentity.v ===== *)
(** * The identity service on PostgreSQL

    [plane/application/identity/postgres_service.go]: the service of [Identity]
    over the store of [PgStore], with the retry loop around real transactions.
    Other clients commit between attempts; the answer to a commit may be lost. *)

From S2P Require Import Prelude GoStd Base64 Uuid Floats Outbox Actions MetadataStore Identity PgStore.

Section service.
Context {P : Type} {MR : MapRange} {NU : Numeric} (pay : identity_payload -> P).

(** One try of a transaction: what others have committed by then, how its
    connection fares, and the time and ids it draws. *)
Record try := mkTry {
  try_others : Db P -> Db P; try_conn : conn; try_now : time; try_eventID : uuid; try_uuid : uuid }.

Context (cancelled : nat -> option error) (tries : nat -> try).

Definition with_retry {A} (fn : try -> pg P A) : action error (Db P) A :=
  WithSerializableRetry cancelled (fun i d => Store_Transact (fn (tries i)) (try_conn (tries i)) (try_others (tries i) d)).

(** *** Reads *)

Definition pgs_GetUser (id : uuid) : pg P (option HumanUser) := pg_GetUserByID id.
Definition pgs_GetUserByEmail (email : string) : pg P (option HumanUser) := pg_GetUserByEmail (normalizeEmail email).
Definition pgs_GetAgent (id : uuid) : pg P (option AgentIdentity) := pg_GetAgentByID id.
Definition pgs_GetAgentsByParentUser (userID : uuid) : pg P (list AgentIdentity) := pg_GetAgentsByParentUser userID.
Definition pgs_LookupIdentityForCache (principalID : uuid) : pg P (option CachedIdentity) :=
  let! entry := pg_LookupIdentityForCache principalID in
  ret (match entry with None => None | Some e => Some (mkCachedIdentity 1 (uuid_String (ce_PrincipalID e))) end).

(** *** Changes *)

Definition announce (a : try) (aggregateType : string) (aggregateID : uuid) (eventType : string) (p : identity_payload) : pg P unit :=
  pg_WriteOutbox (try_eventID a) DomainIdentity aggregateType aggregateID eventType (pay p).
Definition found {A} (m : pg P (option A)) (e : error) : pg P A :=
  let! o := m in match o with Some x => ret x | None => throw e end.

Definition pgs_CreateUser (hash : string -> result error string) (newID : uuid) (t1 t2 : time) (email plaintextCredential : string)
  : action error (Db P) HumanUser :=
  let! _ := require (looksLikeEmail email) ErrInvalidEmail in
  let! _ := require (negb (bool_decide (plaintextCredential = ""))) ErrCredentialEmpty in
  let! hashed := (fun d => (d, hash plaintextCredential)) in
  let user := new_user newID t1 t2 email hashed in
  let! _ := with_retry (fun a =>
    let! _ := pg_InsertHumanUser user in
    announce a "human_user" (u_ID user) EventUserCreated (UserCreated (newUserCreatedPayload (try_now a) user))) in
  ret user.

Definition pgs_CreateAgent (newID : uuid) (t1 t2 : time) (parentUserID : uuid) (displayName : string) (scope : list string)
  : action error (Db P) AgentIdentity :=
  let! _ := require (negb (bool_decide (displayName = ""))) ErrEmptyDisplayName in
  let agent := new_agent newID t1 t2 parentUserID displayName scope in
  let! _ := with_retry (fun a =>
    let! _ := pg_InsertAgentIdentity agent in
    announce a "agent_identity" (a_ID agent) EventAgentCreated (AgentCreated (newAgentCreatedPayload (try_now a) agent))) in
  ret agent.

Definition pgs_SetAgentReputationScore (agentID : uuid) (score : float) : action error (Db P) unit :=
  let clamped := clamp01 score in
  with_retry (fun a =>
    let! existing := found (pg_GetAgentByID agentID) ErrAgentNotFound in
    let! _ := pg_SetAgentReputationScore agentID clamped in
    announce a "agent_identity" agentID EventAgentReputationUpdated
      (AgentReputationUpdated (newAgentReputationUpdatedPayload (try_now a) agentID (a_ReputationScore existing) clamped))).

Definition pgs_DisableUser (id : uuid) (reason : string) : action error (Db P) unit :=
  with_retry (fun a =>
    let! _ := found (pg_GetUserByID id) ErrUserNotFound in
    let! _ := pg_DisableUser id reason in
    announce a "human_user" id EventUserDisabled (UserDisabled (newUserDisabledPayload id reason (try_now a)))).

Definition pgs_RevokeAgent (id : uuid) (reason : string) : action error (Db P) unit :=
  with_retry (fun a =>
    let! existing := found (pg_GetAgentByID id) ErrAgentNotFound in
    let! _ := pg_RevokeAgent id reason in
    announce a "agent_identity" id EventAgentRevoked
      (AgentRevoked (newAgentRevokedPayload id (a_ParentUserID existing) reason (try_now a)))).

Definition pgs_UpdateAgentPermissions (id : uuid) (scope : list string) : action error (Db P) unit :=
  with_retry (fun a =>
    let! existing := found (pg_GetAgentByID id) ErrAgentNotFound in
    let! _ := pg_UpdateAgentPermissions id scope in
    announce a "agent_identity" id EventPrincipalPermissionsChanged
      (PrincipalPermissionsChanged (newPrincipalPermissionsChangedPayload id (a_PermissionScope existing) scope (try_now a)))).

Definition pgs_AddOrgMember (orgID userID : uuid) (role : string) : action error (Db P) unit :=
  let! _ := require (negb (bool_decide (role = ""))) ErrEmptyRole in
  with_retry (fun a =>
    let! _ := found (pg_GetUserByID userID) ErrUserNotFound in
    let! _ := pg_AddOrgMember (mkMembership orgID userID role) in
    announce a "org_membership" userID EventOrgMemberAdded (OrgMemberAdded (newOrgMemberAddedPayload orgID userID role (try_now a)))).

Definition pgs_RemoveOrgMember (orgID userID : uuid) : action error (Db P) unit :=
  with_retry (fun a =>
    let! _ := pg_RemoveOrgMember orgID userID in
    announce a "org_membership" userID EventOrgMemberRemoved (OrgMemberRemoved (newOrgMemberRemovedPayload orgID userID (try_now a)))).

(** [mintCloneTokenInTx] on this store. *)
Definition pgs_mint (a : try) (principalID repoID : uuid) (secret : string) : pg P CloneToken :=
  let tokenID := try_uuid a in
  let expiresAt := Add (try_now a) CloneTokenTTL in
  let! _ := pg_InsertCloneToken (mkCloneTokenRow tokenID secret principalID repoID expiresAt (try_now a)) in
  let! _ := announce a "clone_token" tokenID EventCloneTokenMinted
    (CloneTokenMinted (newCloneTokenMintedPayload tokenID principalID repoID expiresAt (try_now a))) in
  ret (mkCloneToken tokenID secret principalID repoID expiresAt).
Definition pgs_MintCloneToken (entropy : option (list ascii)) (principalID repoID : uuid) : action error (Db P) CloneToken :=
  let! secret := (fun d => (d, generateCloneTokenSecret entropy)) in
  with_retry (fun a => pgs_mint a principalID repoID secret).

Definition ignore {A} (m : action error (Db P) A) : action error (Db P) unit := let! _ := m in ret tt.
Definition pgs_run (o : op) : action error (Db P) unit :=
  match o with
  | OpCreateUser hash newID t1 t2 email cred => ignore (pgs_CreateUser hash newID t1 t2 email cred)
  | OpCreateAgent newID t1 t2 parent name scope => ignore (pgs_CreateAgent newID t1 t2 parent name scope)
  | OpSetReputation id score => pgs_SetAgentReputationScore id score
  | OpDisableUser id reason => pgs_DisableUser id reason
  | OpRevokeAgent id reason => pgs_RevokeAgent id reason
  | OpUpdatePermissions id scope => pgs_UpdateAgentPermissions id scope
  | OpAddOrgMember org user role => pgs_AddOrgMember org user role
  | OpRemoveOrgMember org user => pgs_RemoveOrgMember org user
  | OpMintCloneToken entropy principal repo => ignore (pgs_MintCloneToken entropy principal repo)
  end.

(** The service for one call: what befalls its tries and its reads, and what it
    draws. *)
Definition postgres_service (read_conn : conn) (hash : string -> result error string) (newID : uuid) (t1 t2 : time) : IdentityService (Db P) := {|
  svc_GetUser id := fun d => (d, from_pool (pgs_GetUser id) read_conn d);
  svc_GetAgent id := fun d => (d, from_pool (pgs_GetAgent id) read_conn d);
  svc_CreateUser := pgs_CreateUser hash newID t1 t2;
  svc_CreateAgent := pgs_CreateAgent newID t1 t2;
  svc_DisableUser := pgs_DisableUser;
  svc_RevokeAgent := pgs_RevokeAgent;
  svc_UpdateAgentPermissions := pgs_UpdateAgentPermissions;
  svc_AddOrgMember := pgs_AddOrgMember;
  svc_RemoveOrgMember := pgs_RemoveOrgMember |}.

(** ** What a call does to the database *)

(** The database as it is when try [i] begins, when the tries before did
    nothing. *)
Fixpoint before (i : nat) (d : Db P) : Db P :=
  try_others (tries i) (match i with O => d | S j => before j d end).

(** The rows of an operation in a transaction that began at [now] of the
    database, with the token id and the clock of the try: [d1] is [d] with
    them. *)
Definition db_rows (o : op) (a : try) (d d1 : Db P) : Prop :=
  let now := micro (cn_now (try_conn a)) in
  match o with
  | OpCreateUser hash newID _ _ email cred =>
      looksLikeEmail email = true /\ cred <> "" /\ human_users d !! newID = None /\
      taken (fun r => u_Email (ur_user r)) (normalizeEmail email) (human_users d) = false /\
      exists hashed, hash cred = Ok hashed /\
        d1 = set_users (<[newID := mkUserRow (mkHumanUser newID (normalizeEmail email) hashed "human_default" None now now) None]> (human_users d)) d
  | OpCreateAgent newID _ _ parent name scope =>
      name <> "" /\ agent_identities d !! newID = None /\ is_Some (human_users d !! parent) /\
      exists n, to_numeric (lit 1 2) = Some n /\
        d1 = set_agents (<[newID := mkAgentRow (mkAgent newID name parent scope "agent_standard" None None (of_numeric n) None now now) None]> (agent_identities d)) d
  | OpSetReputation id score =>
      exists r n, agent_identities d !! id = Some r /\ to_numeric (clamp01 score) = Some n /\
        d1 = set_agents (<[id := mkAgentRow (stored_agent n (a_CreatedAt (ag_agent r)) now (ag_agent r)) (ag_revoked r)]> (agent_identities d)) d
  | OpDisableUser id reason =>
      exists r, human_users d !! id = Some r /\
        d1 = set_users (<[id := mkUserRow (touch_user now (ur_user r)) (Some (now, reason))]> (human_users d)) d
  | OpRevokeAgent id reason =>
      exists r, agent_identities d !! id = Some r /\
        d1 = set_agents (<[id := mkAgentRow (touch_agent now (ag_agent r)) (Some (now, reason))]> (agent_identities d)) d
  | OpUpdatePermissions id scope =>
      exists r, agent_identities d !! id = Some r /\
        d1 = set_agents (<[id := mkAgentRow (touch_agent now (set_PermissionScope scope (ag_agent r))) (ag_revoked r)]> (agent_identities d)) d
  | OpAddOrgMember org user role =>
      role <> "" /\ valid_role role = true /\ is_Some (human_users d !! user) /\ (is_Some (org_memberships d !! (org, user)) \/ org ∈ organisations d) /\
      d1 = set_members (<[(org, user) := role]> (org_memberships d)) d
  | OpRemoveOrgMember org user => d1 = set_members (delete (org, user) (org_memberships d)) d
  | OpMintCloneToken entropy principal repo =>
      exists buf, entropy = Some buf /\ clone_tokens d !! try_uuid a = None /\
        d1 = set_tokens (<[try_uuid a := mkCloneTokenRow (try_uuid a) (EncodeToString RawURLEncoding buf) principal repo
                            (micro (Add (try_now a) CloneTokenTTL)) now]> (clone_tokens d)) d
  end.

(** [d'] is [d] with the rows of the operation and its one event. *)
Definition db_done (o : op) (a : try) (d d' : Db P) : Prop :=
  exists ty id et p d1, op_event o (try_now a) (try_uuid a) (ag_agent <$> agent_identities d !! op_agent o) = Some (ty, id, et, p) /\
    db_rows o a d d1 /\ d' = add_outbox (mkOutboxRecord DomainIdentity ty id et (pay p) (try_eventID a)) d1.

(** A callback that does the operation, if it succeeds. *)
Definition doing {A} (o : op) (a : try) (m : pg P A) : Prop :=
  forall d t x, m (begin_tx (try_conn a) d) = (t, Ok x) -> db_done o a d (tx_db t).

Lemma exec_ok {A} (f : Db P -> time -> result error (Db P * A)) t t' a : exec f t = (t', Ok a) ->
  f (tx_db t) (tx_now t) = Ok (tx_db t', a) /\ tx_now t' = tx_now t.
Proof.
  unfold exec. destruct (tx_aborted t); [done|]. destruct (tx_faults t _); [done|].
  destruct (f _ _) as [[d x]|e]; [|done]. by intros [= <- <-].
Qed.
Lemma query_ok {A} (f : Db P -> A) t t' a : query f t = (t', Ok a) -> tx_db t' = tx_db t /\ tx_now t' = tx_now t /\ a = f (tx_db t).
Proof. intros [H Hn]%exec_ok. by injection H as <- <-. Qed.
Lemma change_ok (f : Db P -> time -> Db P) t t' u : change f t = (t', Ok u) -> tx_db t' = f (tx_db t) (tx_now t).
Proof. intros [H _]%exec_ok. by injection H as <- _. Qed.

Lemma announce_ok a ty id et p t t' u : announce a ty id et p t = (t', Ok u) ->
  tx_db t' = add_outbox (mkOutboxRecord DomainIdentity ty id et (pay p) (try_eventID a)) (tx_db t).
Proof.
  intros H. apply bind_ok in H as (t1 & [] & E & H). unfold require in E. injection E as <-. apply exec_ok in H as [H _].
  destruct (existsb _ _); [done|]. by injection H as <- _.
Qed.
Lemma found_ok {A} (f : Db P -> option A) e t t' x : found (query f) e t = (t', Ok x) ->
  tx_db t' = tx_db t /\ tx_now t' = tx_now t /\ f (tx_db t) = Some x.
Proof.
  intros H. apply bind_ok in H as (t1 & o & E & H). apply query_ok in E as (E1 & E2 & ->). destruct (f (tx_db t)) as [y|]; [|done].
  by injection H as <- <-.
Qed.
Lemma alter_known {K A} `{Countable K} (f : A -> A) k (m : gmap K A) a : m !! k = Some a -> alter f k m = <[k := f a]> m.
Proof.
  intros Hk. apply map_eq. intros k'. destruct (decide (k' = k)) as [->|Hne].
  - by rewrite lookup_alter_eq, lookup_insert_eq, Hk.
  - by rewrite lookup_alter_ne, lookup_insert_ne.
Qed.

Ltac step_ok H x E := apply bind_ok in H as (? & x & E & H).
Ltac finish H := apply announce_ok in H; rewrite H; do 5 eexists; split; [reflexivity|split; [|reflexivity]]; cbn.

Lemma CreateUser_doing hash newID t1 t2 email cred hashed a :
  looksLikeEmail email = true -> cred <> "" -> hash cred = Ok hashed -> let u := new_user newID t1 t2 email hashed in
  doing (OpCreateUser hash newID t1 t2 email cred) a (let! _ := pg_InsertHumanUser u in
    announce a "human_user" (u_ID u) EventUserCreated (UserCreated (newUserCreatedPayload (try_now a) u))).
Proof.
  intros He Hc Hh u d t x H. step_ok H y E. apply exec_ok in E as [E _]. cbn in E.
  case_bool_decide as Hk; [done|]. cbn [orb] in E. destruct (taken _ _ _) eqn:Et; [done|]. injection E as E _.
  finish H. split_and!; [done|done|by apply eq_None_not_Some|done|]. exists hashed. by rewrite <- E.
Qed.
Lemma CreateAgent_doing newID t1 t2 parent name scope a : name <> "" -> let ag := new_agent newID t1 t2 parent name scope in
  doing (OpCreateAgent newID t1 t2 parent name scope) a (let! _ := pg_InsertAgentIdentity ag in
    announce a "agent_identity" (a_ID ag) EventAgentCreated (AgentCreated (newAgentCreatedPayload (try_now a) ag))).
Proof.
  intros Hn ag d t x H. step_ok H y E. apply exec_ok in E as [E _]. cbn in E. destruct (to_numeric _) as [n|] eqn:En; [|done].
  case_bool_decide as Hk; [done|]. case_bool_decide as Hp; [|done]. injection E as E _.
  finish H. split_and!; [done|by apply eq_None_not_Some|done|]. exists n. by rewrite <- E.
Qed.

(** The agent that a callback has found, and its row. *)
Lemma agent_found (d : Db P) id old : agents_of d !! id = Some old -> exists r, agent_identities d !! id = Some r /\ ag_agent r = old.
Proof. unfold agents_of. rewrite lookup_fmap. intros (r & Hr & ->)%fmap_Some. by exists r. Qed.
Lemma user_found (d : Db P) id u : users_of d !! id = Some u -> exists r, human_users d !! id = Some r.
Proof. unfold users_of. rewrite lookup_fmap. intros (r & Hr & _)%fmap_Some. by exists r. Qed.

Lemma SetAgentReputationScore_doing id score a : doing (OpSetReputation id score) a (let! existing := found (pg_GetAgentByID id) ErrAgentNotFound in
  let! _ := pg_SetAgentReputationScore id (clamp01 score) in
  announce a "agent_identity" id EventAgentReputationUpdated
    (AgentReputationUpdated (newAgentReputationUpdatedPayload (try_now a) id (a_ReputationScore existing) (clamp01 score)))).
Proof.
  intros d t u H. step_ok H old E. apply found_ok in E as (E & En & (r & Hr & <-)%agent_found). step_ok H y E1. apply exec_ok in E1 as [E1 _].
  rewrite E, En in E1. cbn [tx_db begin_tx tx_now] in E1, Hr. rewrite Hr in E1. destruct (to_numeric _) as [n|] eqn:Et; [|done]. injection E1 as E1 _.
  apply announce_ok in H. rewrite H. unfold db_done. cbn [op_event op_agent]. rewrite Hr. do 5 eexists. split; [reflexivity|split; [|reflexivity]].
  exists r, n. split_and!; [done|done|]. rewrite <- E1. unfold update_agent. by erewrite alter_known.
Qed.
Lemma DisableUser_doing id reason a : doing (OpDisableUser id reason) a (let! _ := found (pg_GetUserByID id) ErrUserNotFound in
  let! _ := pg_DisableUser id reason in
  announce a "human_user" id EventUserDisabled (UserDisabled (newUserDisabledPayload id reason (try_now a)))).
Proof.
  intros d t u H. step_ok H old E. apply found_ok in E as (E & En & (r & Hr)%user_found). step_ok H y E1. apply change_ok in E1.
  finish H. exists r. split; [done|]. rewrite E1, E, En. by erewrite alter_known.
Qed.
Lemma RevokeAgent_doing id reason a : doing (OpRevokeAgent id reason) a (let! existing := found (pg_GetAgentByID id) ErrAgentNotFound in
  let! _ := pg_RevokeAgent id reason in
  announce a "agent_identity" id EventAgentRevoked (AgentRevoked (newAgentRevokedPayload id (a_ParentUserID existing) reason (try_now a)))).
Proof.
  intros d t u H. step_ok H old E. apply found_ok in E as (E & En & (r & Hr & <-)%agent_found). step_ok H y E1. apply change_ok in E1.
  cbn [tx_db begin_tx] in Hr. apply announce_ok in H. rewrite H. unfold db_done. cbn [op_event op_agent]. rewrite Hr. do 5 eexists.
  split; [reflexivity|split; [|reflexivity]]. exists r. split; [done|]. rewrite E1, E, En. unfold update_agent. by erewrite alter_known.
Qed.
Lemma UpdateAgentPermissions_doing id scope a : doing (OpUpdatePermissions id scope) a (let! existing := found (pg_GetAgentByID id) ErrAgentNotFound in
  let! _ := pg_UpdateAgentPermissions id scope in
  announce a "agent_identity" id EventPrincipalPermissionsChanged
    (PrincipalPermissionsChanged (newPrincipalPermissionsChangedPayload id (a_PermissionScope existing) scope (try_now a)))).
Proof.
  intros d t u H. step_ok H old E. apply found_ok in E as (E & En & (r & Hr & <-)%agent_found). step_ok H y E1. apply change_ok in E1.
  cbn [tx_db begin_tx] in Hr. apply announce_ok in H. rewrite H. unfold db_done. cbn [op_event op_agent]. rewrite Hr. do 5 eexists.
  split; [reflexivity|split; [|reflexivity]]. exists r. split; [done|]. rewrite E1, E, En. unfold update_agent. by erewrite alter_known.
Qed.
Lemma AddOrgMember_doing orgID userID role a : role <> "" -> doing (OpAddOrgMember orgID userID role) a (let! _ := found (pg_GetUserByID userID) ErrUserNotFound in
  let! _ := pg_AddOrgMember (mkMembership orgID userID role) in
  announce a "org_membership" userID EventOrgMemberAdded (OrgMemberAdded (newOrgMemberAddedPayload orgID userID role (try_now a)))).
Proof.
  intros Hrole d t u H. step_ok H old E. apply found_ok in E as (E & En & (r & Hr)%user_found). step_ok H y E1. apply exec_ok in E1 as [E1 _].
  rewrite E in E1. cbn in E1, Hr. destruct (valid_role role) eqn:Ev; cbn [negb] in E1; [|done].
  destruct (bool_decide _ || _) eqn:Ek; [|done]. injection E1 as E1 _. finish H. split_and!; [done|done|by exists r| |by rewrite <- E1].
  apply orb_true_iff in Ek as [Hk%bool_decide_eq_true|[Ho%bool_decide_eq_true _]%andb_true_iff]; [by left|by right].
Qed.
Lemma RemoveOrgMember_doing orgID userID a : doing (OpRemoveOrgMember orgID userID) a (let! _ := pg_RemoveOrgMember orgID userID in
  announce a "org_membership" userID EventOrgMemberRemoved (OrgMemberRemoved (newOrgMemberRemovedPayload orgID userID (try_now a)))).
Proof. intros d t u H. step_ok H y E1. apply change_ok in E1. finish H. by rewrite E1. Qed.
Lemma mint_doing buf principalID repoID a : doing (OpMintCloneToken (Some buf) principalID repoID) a (pgs_mint a principalID repoID (EncodeToString RawURLEncoding buf)).
Proof.
  intros d t u H. unfold pgs_mint in H. step_ok H y E. apply exec_ok in E as [E _]. cbn in E. case_bool_decide as Hk; [done|]. cbn [orb] in E.
  destruct (taken _ _ _); [done|]. injection E as E _. step_ok H z E2. injection H as <- _.
  finish E2. exists buf. split_and!; [done|by apply eq_None_not_Some|by rewrite <- E].
Qed.

(** ** Retries *)

(** How try [a] of an operation ends: a failure leaves the database, unless the
    answer to its commit was lost. *)
Definition ended {A} (o : op) (a : try) (d d' : Db P) (r : result error A) : Prop :=
  match r with
  | Ok _ => db_done o a d d'
  | Err e => d' = d \/ cn_commit (try_conn a) = Some (e, true) /\ db_done o a d d'
  end.

Lemma Transact_ended {A} o a (m : pg P A) d d' r : doing o a m -> Store_Transact m (try_conn a) d = (d', r) -> ended o a d d' r.
Proof.
  intros Hm. unfold Store_Transact. destruct (cn_begin _); [intros [= <- <-]; by left|]. specialize (Hm d).
  destruct (m _) as [t [x|e]]; [|intros [= <- <-]; by left]. destruct (tx_aborted t); [intros [= <- <-]; by left|]. specialize (Hm t x eq_refl).
  destruct (cn_commit (try_conn a)) as [[e []]|] eqn:Ec; intros [= <- <-]; [right|left|]; done.
Qed.

(** A commit that the database has turned down was not applied. *)
Definition honest_commits : Prop := forall i e, cn_commit (try_conn (tries i)) = Some (e, true) -> IsRetryable e = false.
(** What others commit between the tries, and the end of the last one. *)
Definition call_ended {A} (o : op) (d d' : Db P) (r : result error A) : Prop :=
  exists i, (i < 3)%nat /\ ended o (tries i) (before i d) d' r.

Lemma retry_ended {A} o (fn : try -> pg P A) d left i w d' r : honest_commits -> (forall a, doing o a (fn a)) ->
  (i + S left = 3)%nat -> try_others (tries i) w = before i d ->
  retry_loop cancelled (fun i d => Store_Transact (fn (tries i)) (try_conn (tries i)) (try_others (tries i) d)) (S left) i w = (d', r) ->
  call_ended o d d' r.
Proof.
  intros Hh Hfn. revert i w. induction left as [|left IH]; intros i w Hi Hw H; cbn [retry_loop] in H; rewrite Hw in H;
    destruct (Store_Transact _ _ (before i d)) as [w' [a|e]] eqn:E; pose proof (Transact_ended _ _ _ _ _ _ (Hfn (tries i)) E) as He;
    try (injection H as <- <-; exists i; split; [lia|exact He]);
    (destruct (IsRetryable e) eqn:Er; cbn [negb] in H; [|injection H as <- <-; exists i; split; [lia|exact He]]);
    (destruct He as [->|[Hc _]]; [|by rewrite (Hh i e Hc) in Er]).
  - replace (i =? retryMaxAttempts - 1)%nat with true in H by (symmetry; apply Nat.eqb_eq; unfold retryMaxAttempts; lia).
    injection H as <- <-. exists i. split; [lia|by left].
  - replace (i =? retryMaxAttempts - 1)%nat with false in H by (symmetry; apply Nat.eqb_neq; unfold retryMaxAttempts; lia).
    destruct (cancelled i); [injection H as <- <-; exists i; split; [lia|by left]|]. by eapply (IH (S i)); [lia| |exact H].
Qed.

Lemma with_retry_ended {A} o (fn : try -> pg P A) d d' r : honest_commits -> (forall a, doing o a (fn a)) -> with_retry fn d = (d', r) -> call_ended o d d' r.
Proof. intros Hh Hfn H. by apply (retry_ended o fn d 2 0 d) in H. Qed.

(** A call either stops before its transaction or is one: its callbacks do the
    operation. *)
Inductive call_shape (o : op) (d : Db P) : Db P * result error unit -> Prop :=
| shape_stops e : call_shape o d (d, Err e)
| shape_runs A (fn : try -> pg P A) : (forall a, doing o a (fn a)) ->
    call_shape o d (let '(d', r) := with_retry fn d in (d', match r with Ok _ => Ok tt | Err e => Err e end)).

Lemma unit_result (x : Db P * result error unit) : (let '(d', r) := x in (d', match r with Ok _ => Ok tt | Err e => Err e end)) = x.
Proof. by destruct x as [d' [[]|e]]. Qed.
Lemma shape_unit o d (fn : try -> pg P unit) : (forall a, doing o a (fn a)) -> call_shape o d (with_retry fn d).
Proof. intros Hf. rewrite <- unit_result. by apply shape_runs. Qed.

Ltac runs Hdoing := lazymatch goal with |- context [with_retry ?fn ?d] =>
  let H := fresh in pose proof (shape_runs _ d _ fn Hdoing) as H; by destruct (with_retry fn d) as [? []] end.
Lemma pgs_run_shape o d : call_shape o d (pgs_run o d).
Proof.
  destruct o; cbn [pgs_run].
  - unfold ignore, pgs_CreateUser, bind, require. destruct (looksLikeEmail email) eqn:He; [|apply shape_stops].
    case_bool_decide as Hc; cbn [negb]; [apply shape_stops|]. cbn [ret]. destruct (hash cred) as [hashed|e] eqn:Eh; [|apply shape_stops].
    runs (fun a => CreateUser_doing hash newID t1 t2 email cred hashed a He Hc Eh).
  - unfold ignore, pgs_CreateAgent, bind, require. case_bool_decide as Hn; cbn [negb]; [apply shape_stops|]. cbn [ret].
    runs (fun a => CreateAgent_doing newID t1 t2 parent name scope a Hn).
  - apply shape_unit, SetAgentReputationScore_doing.
  - apply shape_unit, DisableUser_doing.
  - apply shape_unit, RevokeAgent_doing.
  - apply shape_unit, UpdateAgentPermissions_doing.
  - unfold pgs_AddOrgMember, bind, require. case_bool_decide as Hr; cbn [negb]; [apply shape_stops|]. cbn [ret].
    apply shape_unit. intros a. by apply AddOrgMember_doing.
  - apply shape_unit, RemoveOrgMember_doing.
  - unfold ignore, pgs_MintCloneToken, bind. destruct entropy as [buf|]; [|apply shape_stops]. cbn [generateCloneTokenSecret].
    runs (mint_doing buf principal repo).
Qed.

Lemma pgs_run_ended o d d' r : honest_commits -> pgs_run o d = (d', r) -> (d' = d /\ is_ok r = false) \/ call_ended o d d' r.
Proof.
  intros Hh H. pose proof (pgs_run_shape o d) as Hs. rewrite H in Hs. inversion Hs as [e E|A fn Hfn E]; [by left|]. right.
  destruct (with_retry fn d) as [d1 x] eqn:E1. apply (with_retry_ended o) in E1 as (i & Hi & He); [|done|done]. injection E as -> <-.
  exists i. split; [done|]. by destruct x.
Qed.
End service.
Arguments try P : clear implicits.

(** ** Properties *)

(** C35: On PostgreSQL too, a change and its event are one, provided that an
    error a client may retry never hides an applied commit.  Whatever other
    clients commit between the tries, and however connections, statements and
    commits fail: a call that succeeds has written, on top of what the database
    held at the try that committed, the rows of its operation with the arguments
    of the call ([db_rows]) and exactly one event, the operation's own
    ([op_event]), and nothing else; a call that fails has written nothing,
    unless the answer to an applied commit was lost, and then it has written
    the same, once. *)
Theorem postgres_identity_atomic {P} {MR : MapRange} {NU : Numeric} (pay : identity_payload -> P) cancelled tries o (d d' : Db P) r :
  honest_commits tries -> pgs_run pay cancelled tries o d = (d', r) ->
  match r with
  | Ok _ => exists i, (i < 3)%nat /\ db_done pay o (tries i) (before tries i d) d'
  | Err e => d' = d \/ exists i, (i < 3)%nat /\
      (d' = before tries i d \/ cn_commit (try_conn (tries i)) = Some (e, true) /\ db_done pay o (tries i) (before tries i d) d')
  end.
Proof.
  intros Hh H. apply (pgs_run_ended pay) in H as [[-> Hr]|(i & Hi & He)]; [| |done].
  - destruct r; [done|by left].
  - destruct r as [[]|e]; [by exists i|]. right. by exists i.
Qed.

(** ** Samples *)

Section samples.
#[local] Instance sample_range : MapRange := some_range.
Definition sample_conn (commit : option (error * bool)) : conn := mkConn None (5 * Second) (fun _ => None) commit.
Definition sample_try (commit : nat -> option (error * bool)) (others : nat -> Db identity_payload -> Db identity_payload) (i : nat) : try identity_payload :=
  mkTry (others i) (sample_conn (commit i)) (7 * Second) (100 + Z.of_nat i) (200 + Z.of_nat i).
Definition call_at (commit : nat -> option (error * bool)) (o : op) (d : Db identity_payload) :=
  pgs_run (fun p => p) (fun _ => None) (sample_try commit (fun _ d => d)) o d.
Definition works (_ : nat) : option (error * bool) := None.
Definition conflict_first (i : nat) : option (error * bool) := if (i =? 0)%nat then Some (SerializationFailure, false) else None.
Definition lost (_ : nat) : option (error * bool) := Some (errors_New "connection reset", true).
Definition create (id : uuid) (email : string) : op := OpCreateUser (fun s => Ok ("h" +:+ s)) id 1 2 email "pw".
Definition empty_db : Db identity_payload := fresh_db ∅ ∅.

(** A commit that is turned down is tried again and announced once; one whose
    answer is lost is not tried again, and the email is taken. *)
Example retried_once :
  let '(d, r) := call_at conflict_first (create 1 "ann@example.com") empty_db in
  (r, length (outboxes d), size (human_users d)) = (Ok tt, 1%nat, 1%nat).
Proof. vm_compute. reflexivity. Qed.
Example lost_answer :
  let '(d, r) := call_at lost (create 1 "ann@example.com") empty_db in
  let '(d', r') := call_at works (create 2 "Ann@example.com") d in
  (r, length (outboxes d), r', length (outboxes d')) = (Err (errors_New "connection reset"), 1%nat, Err UniqueViolation, 1%nat).
Proof. vm_compute. reflexivity. Qed.

(** The event of a new score carries the score asked for, the table what it can
    hold: the next event's old score is not this event's new one. *)
Definition next_call (d : Db identity_payload) (o : op) : Db identity_payload :=
  (pgs_run (fun p => p) (fun _ => None) (fun i => mkTry (fun d => d) (sample_conn None) 9 (300 + Z.of_nat (length (outboxes d))) 1) o d).1.
Definition score_changes (d : Db identity_payload) : list (float * float) :=
  omap (fun e => match or_Payload e with AgentReputationUpdated p => Some (ru_OldScore p, ru_NewScore p) | _ => None end) (outboxes d).
Example scores_are_rounded :
  let d := next_call (next_call (next_call (next_call empty_db (create 1 "ann@example.com")) (OpCreateAgent 2 1 2 1 "bot" ["read"]))
             (OpSetReputation 2 (lit 1 3))) (OpSetReputation 2 (lit 1 2)) in
  score_changes d = [(lit 1 2, lit 1 3); (lit 3333 10000, lit 1 2)].
Proof. vm_compute. reflexivity. Qed.

(** Nothing the services run creates an organisation, so nobody can join one. *)
Example no_organisation : (call_at works (OpAddOrgMember 9 1 "developer") (next_call empty_db (create 1 "ann@example.com"))).2 = Err ForeignKeyViolation.
Proof. vm_compute. reflexivity. Qed.

Lemma postgres_identity_atomic_witness :
  let tries := sample_try lost (fun _ d => d) in
  let '(d, r) := call_at lost (create 1 "ann@example.com") empty_db in
  match r with
  | Ok _ => exists i, (i < 3)%nat /\ db_done (fun p => p) (create 1 "ann@example.com") (tries i) (before tries i empty_db) d
  | Err e => d = empty_db \/ exists i, (i < 3)%nat /\
      (d = before tries i empty_db \/ cn_commit (try_conn (tries i)) = Some (e, true) /\
       db_done (fun p => p) (create 1 "ann@example.com") (tries i) (before tries i empty_db) d)
  end.
Proof.
  intros tries. destruct (call_at lost (create 1 "ann@example.com") empty_db) as [d r] eqn:E.
  apply (postgres_identity_atomic (fun p => p) (fun _ => None) (sample_try lost (fun _ d => d)) (create 1 "ann@example.com")); [|exact E].
  intros i e [= <-]. reflexivity.
Defined.
End samples.
