(* ===== verification/PgHistory.v ===== *)
(** * What the outbox of a database tells

    The identity service of [PgIdentity] over time: clients call it one after
    the other and in between each other's tries, statements fail and answers are
    lost.  Whatever happens, the identity events, replayed in order, tell the
    tables: users and whether they are disabled, agents with their scope, score
    and whether they are revoked, memberships and clone tokens. *)

From S2P Require Import Prelude GoStd Base64 Uuid Floats Outbox Actions MetadataStore Identity PgStore PgIdentity.

Section history.
Context {MR : MapRange} {NU : Numeric}.
Notation Db := (Db identity_payload).
Notation try := (try identity_payload).
Notation same := (fun p : identity_payload => p).

(** ** A consumer *)

Record db_profile := mkDbProfile {
  dp_Parent : uuid; dp_Name : string; dp_Scope : list string; dp_Score : float; dp_Revoked : option string }.
Record db_told := mkDbTold {
  dt_users : gmap uuid (string * string * option string);
  dt_agents : gmap uuid db_profile;
  dt_members : gmap (uuid * uuid) string;
  dt_tokens : gmap uuid (uuid * uuid * time) }.

Definition nothing_told : db_told := mkDbTold ∅ ∅ ∅ ∅.
Definition tell_agent (id : uuid) (a : db_profile) (t : db_told) : db_told :=
  mkDbTold (dt_users t) (<[id := a]> (dt_agents t)) (dt_members t) (dt_tokens t).

(** It rounds scores and times as the columns do, and insists that ids of new
    rows are new, that other rows are known, and that old scopes, old scores and
    parents are those it knows. *)
Definition hear_db (t : db_told) (p : identity_payload) : option db_told :=
  match p with
  | UserCreated p =>
      if bool_decide (is_Some (dt_users t !! uc_UserID p)) then None
      else Some (mkDbTold (<[uc_UserID p := (uc_Email p, uc_RateBucket p, None)]> (dt_users t)) (dt_agents t) (dt_members t) (dt_tokens t))
  | AgentCreated p =>
      n ← to_numeric (ac_ReputationScore p);
      if bool_decide (is_Some (dt_agents t !! ac_AgentID p)) || bool_decide (dt_users t !! ac_ParentUserID p = None) then None
      else Some (tell_agent (ac_AgentID p) (mkDbProfile (ac_ParentUserID p) (ac_DisplayName p) (ac_PermissionScope p) (of_numeric n) None) t)
  | AgentReputationUpdated p =>
      n ← to_numeric (ru_NewScore p);
      a ← dt_agents t !! ru_AgentID p;
      if bool_decide (dp_Score a = ru_OldScore p)
      then Some (tell_agent (ru_AgentID p) (mkDbProfile (dp_Parent a) (dp_Name a) (dp_Scope a) (of_numeric n) (dp_Revoked a)) t) else None
  | PrincipalPermissionsChanged p =>
      a ← dt_agents t !! pc_AgentID p;
      if bool_decide (dp_Scope a = pc_OldScope p)
      then Some (tell_agent (pc_AgentID p) (mkDbProfile (dp_Parent a) (dp_Name a) (pc_NewScope p) (dp_Score a) (dp_Revoked a)) t) else None
  | UserDisabled p =>
      u ← dt_users t !! ud_UserID p;
      Some (mkDbTold (<[ud_UserID p := (u.1, Some (ud_Reason p))]> (dt_users t)) (dt_agents t) (dt_members t) (dt_tokens t))
  | AgentRevoked p =>
      a ← dt_agents t !! ar_AgentID p;
      if bool_decide (dp_Parent a = ar_ParentUserID p)
      then Some (tell_agent (ar_AgentID p) (mkDbProfile (dp_Parent a) (dp_Name a) (dp_Scope a) (dp_Score a) (Some (ar_Reason p))) t) else None
  | OrgMemberAdded p =>
      _ ← dt_users t !! ma_UserID p;
      Some (mkDbTold (dt_users t) (dt_agents t) (<[(ma_OrgID p, ma_UserID p) := ma_Role p]> (dt_members t)) (dt_tokens t))
  | OrgMemberRemoved p => Some (mkDbTold (dt_users t) (dt_agents t) (delete (mr_OrgID p, mr_UserID p) (dt_members t)) (dt_tokens t))
  | CloneTokenMinted p =>
      if bool_decide (is_Some (dt_tokens t !! tm_TokenID p)) then None
      else Some (mkDbTold (dt_users t) (dt_agents t) (dt_members t)
                  (<[tm_TokenID p := (tm_PrincipalID p, tm_RepoID p, micro (tm_ExpiresAt p))]> (dt_tokens t)))
  end.
Fixpoint replay_db (t : db_told) (l : list identity_payload) : option db_told :=
  match l with [] => Some t | p :: l' => t' ← hear_db t p; replay_db t' l' end.

Lemma replay_db_snoc t l p : replay_db t (l ++ [p]) = (t' ← replay_db t l; hear_db t' p).
Proof.
  revert t. induction l as [|q l IH]; intros t; cbn [app replay_db].
  - change (Some t ≫= (fun t' => hear_db t' p)) with (hear_db t p). by destruct (hear_db t p).
  - destruct (hear_db t q) as [t'|]; [apply IH|done].
Qed.

(** ** What there is to tell *)

Definition user_told (r : user_row) : string * string * option string :=
  (u_Email (ur_user r), u_RateBucket (ur_user r), snd <$> ur_disabled r).
Definition agent_told (r : agent_row) : db_profile :=
  let a := ag_agent r in mkDbProfile (a_ParentUserID a) (a_DisplayName a) (a_PermissionScope a) (a_ReputationScore a) (snd <$> ag_revoked r).
Definition token_told (c : CloneTokenRow) : uuid * uuid * time := (ct_PrincipalID c, ct_RepoID c, ct_ExpiresAt c).
Definition told_of_db (d : Db) : db_told :=
  mkDbTold (user_told <$> human_users d) (agent_told <$> agent_identities d) (org_memberships d) (token_told <$> clone_tokens d).
Definition db_log (d : Db) : list identity_payload := or_Payload <$> outboxes d.
Definition explained (d : Db) : Prop := replay_db nothing_told (db_log d) = Some (told_of_db d).

Lemma told_absent {A B} (f : A -> B) (m : gmap uuid A) id : m !! id = None -> bool_decide (is_Some ((f <$> m) !! id)) = false.
Proof. intros H. apply bool_decide_eq_false. rewrite lookup_fmap, H. by intros [? ?]. Qed.

(** An operation is told by its event. *)
Lemma done_heard o (a : try) d d' : db_done same o a d d' ->
  exists p, db_log d' = db_log d ++ [p] /\ hear_db (told_of_db d) p = Some (told_of_db d').
Proof.
  intros (ty & id & et & p & d1 & He & Hr & ->). exists p.
  assert (Hl : outboxes d1 = outboxes d).
  { destruct o; cbn [db_rows] in Hr; repeat match goal with H : exists _, _ |- _ => destruct H | H : _ /\ _ |- _ => destruct H end; by subst d1. }
  split; [unfold db_log; cbn; by rewrite fmap_app, Hl|]. clear Hl.
  destruct o; cbn [op_event op_agent db_rows] in He, Hr.
  - injection He as <- <- <- <-. destruct Hr as (_ & _ & Hn & _ & hashed & _ & ->). cbn. rewrite (told_absent user_told) by done.
    unfold told_of_db. cbn. by rewrite fmap_insert.
  - injection He as <- <- <- <-. destruct Hr as (_ & Hn & [u Hu] & n & En & ->). unfold hear_db. cbn [ac_ReputationScore]. rewrite En. cbn.
    rewrite (told_absent agent_told) by done. rewrite lookup_fmap, Hu. cbn. unfold told_of_db, tell_agent. cbn. by rewrite fmap_insert.
  - destruct Hr as (r & n & Hr & En & ->). rewrite Hr in He. injection He as <- <- <- <-. unfold hear_db. cbn [ru_NewScore]. rewrite En. cbn.
    rewrite lookup_fmap, Hr. cbn. rewrite bool_decide_true by done. unfold told_of_db, tell_agent. cbn. by rewrite fmap_insert.
  - injection He as <- <- <- <-. destruct Hr as (r & Hr & ->). cbn. rewrite lookup_fmap, Hr. cbn. unfold told_of_db. cbn. by rewrite fmap_insert.
  - destruct Hr as (r & Hr & ->). rewrite Hr in He. injection He as <- <- <- <-. cbn. rewrite lookup_fmap, Hr. cbn. rewrite bool_decide_true by done.
    unfold told_of_db, tell_agent. cbn. by rewrite fmap_insert.
  - destruct Hr as (r & Hr & ->). rewrite Hr in He. injection He as <- <- <- <-. cbn. rewrite lookup_fmap, Hr. cbn. rewrite bool_decide_true by done.
    unfold told_of_db, tell_agent. cbn. by rewrite fmap_insert.
  - injection He as <- <- <- <-. destruct Hr as (_ & _ & [r Hr] & _ & ->). cbn. by rewrite lookup_fmap, Hr.
  - by injection He as <- <- <- <-; subst d1.
  - injection He as <- <- <- <-. destruct Hr as (buf & _ & Hn & ->). cbn. rewrite (told_absent token_told) by done. unfold told_of_db. cbn. by rewrite fmap_insert.
Qed.

Lemma done_explained o (a : try) d d' : db_done same o a d d' -> explained d -> explained d'.
Proof. intros (p & Hl & Hh)%done_heard Hd. unfold explained in *. rewrite Hl, replay_db_snoc, Hd. exact Hh. Qed.

(** ** Histories *)

Section keeps.
Context (Q : Db -> Prop) (cancelled : nat -> option error) (tries : nat -> try) (o : op).
Context (Hdone : forall a d d', db_done same o a d d' -> Q d -> Q d') (Hothers : forall i d, Q d -> Q (try_others (tries i) d)).

Lemma Transact_keeps {A} a (m : pg identity_payload A) d : doing same o a m -> Q d -> Q (Store_Transact m (try_conn a) d).1.
Proof.
  intros Hm Hd. destruct (Store_Transact m (try_conn a) d) as [d' r] eqn:E. apply (Transact_ended same o) in E; [|done].
  destruct r; [by eapply Hdone|]. destruct E as [->|[_ H]]; [done|by eapply Hdone].
Qed.
Lemma retry_keeps {A} (fn : try -> pg identity_payload A) left i d : (forall a, doing same o a (fn a)) -> Q d ->
  Q (retry_loop cancelled (fun i d => Store_Transact (fn (tries i)) (try_conn (tries i)) (try_others (tries i) d)) left i d).1.
Proof.
  intros Hf. revert i d. induction left as [|left IH]; intros i d Hd; cbn [retry_loop]; [done|].
  pose proof (Transact_keeps (tries i) (fn (tries i)) (try_others (tries i) d) (Hf _) (Hothers i d Hd)) as Hk.
  destruct (Store_Transact _ _ _) as [d1 [x|e]]; [done|]. destruct (negb _); [done|]. destruct (_ =? _)%nat; [done|].
  destruct (cancelled i); [done|]. by apply IH.
Qed.
Lemma run_keeps d : Q d -> Q (pgs_run same cancelled tries o d).1.
Proof.
  intros Hd. destruct (pgs_run_shape same cancelled tries o d) as [e|A fn Hf]; [done|].
  pose proof (retry_keeps fn retryMaxAttempts 0 d Hf Hd) as Hk. unfold with_retry, WithSerializableRetry. by destruct (retry_loop _ _ _ _ _).
Qed.
End keeps.

(** What clients of the service make of a database, one call after the other;
    what others commit between the tries of a call is such a history too. *)
Inductive served : Db -> Db -> Prop :=
| served_nothing d : served d d
| served_call cancelled tries o d d1 : served d d1 -> (forall i d2, served d2 (try_others (tries i) d2)) ->
    served d (pgs_run same cancelled tries o d1).1.

Lemma served_explained d d' : served d d' -> explained d -> explained d'.
Proof. induction 1 as [d|cancelled tries o d d1 _ IH _ IHo]; [done|]. intros Hd. apply run_keeps; [apply done_explained|exact IHo|by apply IH]. Qed.

End history.

(** ** Samples *)

Section samples.
#[local] Existing Instance sample_range.
Definition history_ops : list (op * (nat -> option (error * bool))) :=
  [(create 1 "ann@example.com", conflict_first); (OpCreateAgent 2 1 2 1 "bot" ["read"], works); (OpSetReputation 2 (lit 1 3), lost);
   (OpUpdatePermissions 2 ["write"], works); (create 4 "Ann@example.com", works); (OpAddOrgMember 9 1 "developer", works); (OpAddOrgMember 9 1 "owner", works);
   (OpMintCloneToken (Some (replicate 32 "x"%char)) 2 7, works); (OpRevokeAgent 2 "misuse", lost); (OpDisableUser 1 "spam", works); (OpRemoveOrgMember 9 1, works)].
(** The try draws ids that no event has. *)
Definition history_try (commit : nat -> option (error * bool)) (d : Db identity_payload) (i : nat) : try identity_payload :=
  mkTry (fun d => d) (sample_conn (commit i)) (7 * Second) (100 + Z.of_nat (length (outboxes d))) 200.
Definition history_step (d : Db identity_payload) (oc : op * (nat -> option (error * bool))) : Db identity_payload :=
  (pgs_run (fun p => p) (fun _ => None) (history_try oc.2 d) oc.1 d).1.
Definition history_db : Db identity_payload := fold_left history_step history_ops (fresh_db {[9]} ∅).

Lemma history_served l : forall d, served (fresh_db {[9]} ∅) d -> served (fresh_db {[9]} ∅) (fold_left history_step l d).
Proof. induction l as [|oc l IH]; intros d Hd; [done|]. apply IH. apply served_call; [done|]. intros i d2. apply served_nothing. Qed.

End samples.
