(* ===== verification/PartitionGap.v ===== *)
(** * The partition gap metric

    [plane/data/store/billing/partition_gap_metric.go]: the gauges that tell
    how many days [INSERT] into [billing.usage_events] will go on working,
    read from the bounds PostgreSQL prints for the partitions, and what the
    monthly rollover does to them. *)

From Corelib Require Import SpecFloat.
From S2P Require Import Prelude GoStd GoFmt GoTime Sha256 TimeText RateLimiter ArchiveFrames Actions Temporal ObjectStore Archive BillingTables ArchiveWorkflow.

#[local] Open Scope Z_scope.

Definition Day_length : duration := 24 * Hour.

(** ** Package strings and time *)

(** [strings.Index] with the text before and after the match. *)
Fixpoint strings_Index (sub l : list ascii) : option (list ascii * list ascii) :=
  match strip_prefix sub l with
  | Some rest => Some ([], rest)
  | None => match l with
            | [] => None
            | c :: l' => '(before, after) ← strings_Index sub l'; Some (c :: before, after)
            end
  end.

(** [time.Parse] with the layout [2006-01-02]. *)
Definition parse_date (l : list ascii) : option time :=
  '(year, l) ← fixed_uint 4 0 l; l ← expect_char "-" l;
  '(month, l) ← fixed_uint 2 0 l; l ← expect_char "-" l;
  '(day, l) ← fixed_uint 2 0 l;
  if (1 <=? month) && (month <=? 12) && bool_decide (civil_from_days (days_from_civil year month day) = (year, month, day))
    && bool_decide (l = []) then
    Some (days_from_civil year month day * Day_length)
  else None.

(** [t.Sub(u)] saturates. *)
Definition minDuration : duration := - 2 ^ 63.
Definition maxDuration : duration := 2 ^ 63 - 1.
Definition time_Sub (t u : time) : duration := Z.max minDuration (Z.min maxDuration (t - u)).

(** ** parsePartitionUpperBound *)

Definition marker : list ascii := s2l "TO ('".

Definition parsePartitionUpperBound (expr : string) : option time :=
  '(_, rest) ← strings_Index marker (s2l expr);
  '(literal, _) ← strings_Index ["'"%char] rest;
  parse_date match strings_Index [" "%char] literal with Some (date, _) => date | None => literal end.

(** ** The probe

    [bound_text] is how the server prints a partition bound
    ([pg_get_expr(relpartbound)]); the rows come in any order. *)

Section probe.
Context (bound_text : table -> string).

Definition partitions (ts : gmap string table) : list table :=
  filter (fun t => t_state t <> Standalone) (snd <$> map_to_list ts).

Fixpoint scan_bounds (bounds : list string) (max : time) : option time :=
  match bounds with
  | [] => Some max
  | b :: bounds' => ub ← parsePartitionUpperBound b; scan_bounds bounds' (if max <? ub then ub else max)
  end.

Definition MaxPartitionUpperBound (order : list table -> list table) (d : db) : db * result unit (time * Z) :=
  match statement (fun ts => Some (ts, order (partitions ts))) d with
  | (d', Err e) => (d', Err e)
  | (d', Ok rows) => (d', match scan_bounds (bound_text <$> rows) zero_time with
                          | Some max => Ok (max, Z.of_nat (length rows))
                          | None => Err tt
                          end)
  end.
End probe.

(** ** The gauges *)

(** [int(d.Hours() / 24)]. *)
Class DayCount := days_in : duration -> Z.

Definition sf_trunc (x : spec_float) : Z :=
  match x with
  | S754_finite s m e => let z := if 0 <=? e then Z.pos m * 2 ^ e else Z.pos m / 2 ^ (- e) in if s then - z else z
  | _ => 0
  end.
Definition sf_Hours (d : duration) : spec_float :=
  SFadd 53 1024 (of_int (Z.quot d Hour)) (SFdiv 53 1024 (of_int (Z.rem d Hour)) (of_int 3600000000000)).
#[export] Instance binary64_days : DayCount := fun d => sf_trunc (SFdiv 53 1024 (sf_Hours d) (of_int 24)).
#[export] Instance exact_days : DayCount := fun d => Z.quot d Day_length.

Record PartitionGapMetric := mkGauges { daysUntilGap : option Z; partCount : option Z }.
Definition NewPartitionGapMetric : PartitionGapMetric := mkGauges None None.

Definition Refresh `{!DayCount} (bound_text : table -> string) (order : list table -> list table) (now : time)
    (s : db * PartitionGapMetric) : (db * PartitionGapMetric) * result unit unit :=
  match MaxPartitionUpperBound bound_text order s.1 with
  | (d', Err e) => ((d', s.2), Err e)
  | (d', Ok (ub, count)) => ((d', mkGauges (Some (days_in (time_Sub ub now))) (Some count)), Ok tt)
  end.

(** ** What the gauge is about *)

(** PostgreSQL routes a row to the attached partition whose bounds hold its
    timestamp; without one the [INSERT] fails. *)
Definition takes (t : table) (at_ : time) : Prop :=
  t_state t = Attached /\
  match t_bounds t with Some (from, to) => from * Day_length <= at_ < to * Day_length | None => False end.
Definition insertable (ts : gmap string table) (at_ : time) : Prop := exists name t, ts !! name = Some t /\ takes t at_.

(** From [from] on, rows find a partition up to [ub] and none from there. *)
Definition covered (ts : gmap string table) (from ub : time) : Prop :=
  forall at_, from <= at_ -> insertable ts at_ <-> at_ < ub.

(** The two forms of a bound, with a time of day or without. *)
Definition date_text (day : Z) : string :=
  let '(y, m, d) := civil_from_days day in fmt_0d 4 y +:+ "-" +:+ fmt_0d 2 m +:+ "-" +:+ fmt_0d 2 d.
Definition range_text (suffix : string) (from to : Z) : string :=
  "FOR VALUES FROM ('" +:+ date_text from +:+ suffix +:+ "') TO ('" +:+ date_text to +:+ suffix +:+ "')".
Definition prints_bounds (bound_text : table -> string) : Prop :=
  forall t from to, t_bounds t = Some (from, to) ->
    bound_text t = range_text "" from to \/ bound_text t = range_text " 00:00:00+00" from to.

(** The partitions of the live table carry bounds of the common era. *)
Definition ranges_sound (ts : gmap string table) : Prop :=
  forall name t, ts !! name = Some t -> t_state t <> Standalone ->
    exists from to, t_bounds t = Some (from, to) /\
      from < to /\ (let '(y, _, _) := civil_from_days from in 0 <= y < 10000) /\
      (let '(y, _, _) := civil_from_days to in 0 <= y < 10000).

Example bounds_read : map parsePartitionUpperBound
    ["FOR VALUES FROM ('2026-05-01') TO ('2026-06-01')";
     "FOR VALUES FROM ('2026-05-01 00:00:00+00') TO ('2026-06-01 00:00:00+00')";
     "DEFAULT"; "FOR VALUES FROM ('2026-05-01') TO (MAXVALUE)"; "FOR VALUES FROM ('2026-05-01') TO ('2026-02-30')"] =
  [Some (20605 * Day_length); Some (20605 * Day_length); None; None; None].
Proof. vm_compute. reflexivity. Qed.

(** ** Reading a printed bound *)

Lemma strings_Index_first c sub before rest :
  c ∉ before -> strings_Index (c :: sub) (before ++ (c :: sub) ++ rest) = Some (before, rest).
Proof.
  induction before as [|x before IH]; intros Hc.
  - change ([] ++ (c :: sub) ++ rest) with ((c :: sub) ++ rest). pose proof (strip_prefix_app (c :: sub) rest) as E.
    destruct ((c :: sub) ++ rest) as [|y l] eqn:El; cbn [strings_Index]; by rewrite E.
  - apply not_elem_of_cons in Hc as [Hx Hc]. cbn [app strings_Index strip_prefix].
    rewrite bool_decide_false by congruence. specialize (IH Hc). cbn [app] in IH. by rewrite IH.
Qed.

Lemma strings_Index_none c l : c ∉ l -> strings_Index [c] l = None.
Proof.
  induction l as [|x l IH]; intros Hc; [done|]. apply not_elem_of_cons in Hc as [Hx Hc].
  cbn [strings_Index strip_prefix]. rewrite bool_decide_false by congruence. by rewrite IH.
Qed.

Lemma date_text_spec day : let '(y, m, d) := civil_from_days day in
  s2l (date_text day) = s2l (fmt_0d 4 y) ++ "-"%char :: s2l (fmt_0d 2 m) ++ "-"%char :: s2l (fmt_0d 2 d).
Proof.
  unfold date_text. destruct (civil_from_days day) as [[y m] d]. by rewrite !s2l_app.
Qed.

Lemma date_text_chars day c : (let '(y, _, _) := civil_from_days day in 0 <= y) ->
  is_digit c = false -> c <> "-"%char -> c ∉ s2l (date_text day).
Proof.
  pose proof (date_text_spec day) as E. pose proof (civil_days day) as Hc.
  destruct (civil_from_days day) as [[y m] d]. intros Hy Hd Hm. rewrite E.
  assert (Hf : forall w n, 0 <= n -> c ∉ s2l (fmt_0d w n)).
  { intros w n Hn. destruct (fmt_0d_digits w n Hn) as (ds & -> & Hds & _). by apply digits_no_char. }
  rewrite !elem_of_app, !elem_of_cons, !elem_of_app, !elem_of_cons.
  pose proof (Hf 4%nat y ltac:(lia)). pose proof (Hf 2%nat m ltac:(lia)). pose proof (Hf 2%nat d ltac:(lia)). naive_solver.
Qed.

Lemma parse_date_text day : (let '(y, _, _) := civil_from_days day in 0 <= y < 10000) ->
  parse_date (s2l (date_text day)) = Some (day * Day_length).
Proof.
  pose proof (date_text_spec day) as E. pose proof (civil_days day) as Hc.
  destruct (civil_from_days day) as [[y m] d] eqn:Ec. intros Hy. destruct Hc as (Hm & Hd & Hz).
  rewrite E. unfold parse_date. rewrite fixed_uint_fmt by lia. cbn [mbind option_bind expect_char].
  rewrite bool_decide_true by done. cbn [mbind option_bind]. rewrite fixed_uint_fmt by lia.
  cbn [mbind option_bind expect_char]. rewrite bool_decide_true by done. cbn [mbind option_bind].
  rewrite <- (app_nil_r (s2l (fmt_0d 2 d))), fixed_uint_fmt by lia. cbn [mbind option_bind].
  rewrite Hz, Ec. by rewrite !bool_decide_true, !(proj2 (Z.leb_le _ _)) by (done || lia).
Qed.

Lemma parse_range_text suffix from to :
  suffix = "" \/ suffix = " 00:00:00+00" ->
  (let '(y, _, _) := civil_from_days from in 0 <= y < 10000) ->
  (let '(y, _, _) := civil_from_days to in 0 <= y < 10000) ->
  parsePartitionUpperBound (range_text suffix from to) = Some (to * Day_length).
Proof.
  intros Hs Hf Ht. unfold parsePartitionUpperBound, range_text.
  assert (Hf' : let '(y, _, _) := civil_from_days from in 0 <= y) by (destruct (civil_from_days from) as [[? ?] ?]; lia).
  assert (Ht' : let '(y, _, _) := civil_from_days to in 0 <= y) by (destruct (civil_from_days to) as [[? ?] ?]; lia).
  rewrite !s2l_app.
  replace (s2l "FOR VALUES FROM ('" ++ s2l (date_text from) ++ s2l suffix ++ s2l "') TO ('" ++ s2l (date_text to) ++ s2l suffix ++ s2l "')")
    with ((s2l "FOR VALUES FROM ('" ++ s2l (date_text from) ++ s2l suffix ++ s2l "') ") ++ marker
          ++ (s2l (date_text to) ++ s2l suffix) ++ ["'"%char] ++ [")"%char]) by (by rewrite <- !app_assoc).
  change marker with ("T"%char :: s2l "O ('").
  rewrite strings_Index_first.
  2: { rewrite !elem_of_app. pose proof (date_text_chars from "T"%char Hf' eq_refl ltac:(done)) as H0.
       intros [H|[H|[H|H]]]; [|done|destruct Hs as [-> | ->]|]; apply (bool_decide_pack _) in H; done. }
  cbn [mbind option_bind]. rewrite strings_Index_first.
  2: { rewrite elem_of_app. pose proof (date_text_chars to "'"%char Ht' eq_refl ltac:(done)) as H0.
       intros [H|H]; [done|]. destruct Hs as [-> | ->]; apply (bool_decide_pack _) in H; done. }
  cbn [mbind option_bind]. destruct Hs as [-> | ->].
  - cbn [s2l]. change (s2l "") with (@nil ascii). rewrite app_nil_r.
    rewrite strings_Index_none by (apply date_text_chars; done). by apply parse_date_text.
  - change (s2l " 00:00:00+00") with ([" "%char] ++ s2l "00:00:00+00").
    rewrite strings_Index_first by (apply date_text_chars; done). by apply parse_date_text.
Qed.

(** ** The gauge tells when rows find no partition *)

Lemma scan_bounds_max bounds tos max :
  Forall2 (fun b to => parsePartitionUpperBound b = Some to) bounds tos ->
  exists ub, scan_bounds bounds max = Some ub /\ max <= ub /\ (forall to, to ∈ tos -> to <= ub) /\ (ub = max \/ ub ∈ tos).
Proof.
  intros H. revert max. induction H as [|b to bounds tos Hb _ IH]; intros max.
  - exists max. split_and!; [done|lia|set_solver|by left].
  - cbn [scan_bounds]. rewrite Hb. cbn [mbind option_bind].
    destruct (IH (if max <? to then to else max)) as (ub & E & Hle & Hall & Hin). exists ub. split; [done|].
    destruct (Z.ltb_spec max to); split_and!; try lia; set_solver by lia.
Qed.

Lemma elem_of_partitions ts t : t ∈ partitions ts <-> exists name, ts !! name = Some t /\ t_state t <> Standalone.
Proof.
  unfold partitions. rewrite list_elem_of_filter, list_elem_of_fmap. split.
  - intros (Hs & [name t'] & -> & H). apply elem_of_map_to_list in H. by exists name.
  - intros (name & H & Hs). split; [done|]. exists (name, t). split; [done|]. by apply elem_of_map_to_list.
Qed.

Definition upper (t : table) : time := match t_bounds t with Some (_, to) => to * Day_length | None => 0 end.

Lemma bounds_parse bound_text ts rows : prints_bounds bound_text -> ranges_sound ts -> rows ⊆ partitions ts ->
  Forall2 (fun b to => parsePartitionUpperBound b = Some to) (bound_text <$> rows) (upper <$> rows).
Proof.
  intros Hp Hr Hs. rewrite Forall2_fmap. apply Forall_Forall2_diag, Forall_forall. intros t Ht.
  apply Hs, elem_of_partitions in Ht as (name & Hn & Hst).
  destruct (Hr name t Hn Hst) as (from & to & Hb & _ & Hf & Hto). unfold upper. rewrite Hb.
  destruct (Hp t from to Hb) as [-> | ->]; apply parse_range_text; auto.
Qed.

Lemma takes_upper t at_ : takes t at_ -> at_ < upper t.
Proof. unfold takes, upper. destruct (t_bounds t) as [[f to]|]; intros [? ?]; [lia|done]. Qed.

(** While no partition is half detached, a successful refresh sets the
    count to the number of partitions and the days to the whole days from now
    to an instant from which no row finds a partition; when the partitions
    leave no hole, that is the very instant the first [INSERT] fails. *)
Theorem gap_metric_exact bound_text order now d g gap :
  prints_bounds bound_text -> (forall l, order l ≡ₚ l) -> ranges_sound (tables_of d) ->
  (forall name t, tables_of d !! name = Some t -> t_state t <> DetachPending) ->
  default Executed (head (fates d)) = Executed -> zero_time <= now < gap -> covered (tables_of d) now gap ->
  gap - now < 2 ^ 63 ->
  exists days, @Refresh exact_days bound_text order now (d, g) =
      ((mkDb (tables_of d) (tail (fates d)),
        mkGauges (Some days) (Some (Z.of_nat (length (partitions (tables_of d)))))), Ok tt) /\
    days * Day_length <= gap - now < (days + 1) * Day_length.
Proof.
  intros Hp Ho Hr Hpend Hf [Hz Hnow] Hcov Hlt.
  unfold Refresh, MaxPartitionUpperBound, statement, statement_mid. cbn [fst snd]. rewrite Hf.
  set (ts := tables_of d) in *. cbn [fst snd].
  assert (Hperm : forall t, t ∈ order (partitions ts) <-> t ∈ partitions ts) by (intros t; by rewrite Ho).
  destruct (scan_bounds_max _ _ zero_time (bounds_parse bound_text ts (order (partitions ts)) Hp Hr
    ltac:(intros t; apply Hperm))) as (ub & -> & Hub & Hall & Hin).
  rewrite (Permutation_length (Ho _)). exists (@days_in exact_days (time_Sub ub now)). split; [done|].
  assert (ub = gap) as ->.
  { apply Z.le_antisymm.
    - destruct Hin as [->|Hin]; [lia|]. apply list_elem_of_fmap in Hin as (t & -> & Ht).
      apply Hperm, elem_of_partitions in Ht as (name & Hn & Hst).
      destruct (Hr name t Hn Hst) as (from & to & Hb & Hft & _). specialize (Hpend name t Hn).
      destruct (decide (gap < upper t)) as [Hgt|]; [exfalso|lia].
      assert (Hi : insertable ts (upper t - 1)).
      { exists name, t. split; [done|]. split; [by destruct (t_state t)|]. unfold upper in *. rewrite Hb in *.
        unfold Day_length, Hour, Second in *. lia. }
      apply Hcov in Hi; lia.
    - destruct (proj2 (Hcov (gap - 1) ltac:(lia)) ltac:(lia)) as (name & t & Hn & Ht).
      pose proof (takes_upper _ _ Ht). assert (upper t <= ub); [|lia]. apply Hall, list_elem_of_fmap.
      exists t. split; [done|]. apply Hperm, elem_of_partitions. exists name. split; [done|]. by rewrite (proj1 Ht). }
  unfold days_in, exact_days, time_Sub, minDuration, maxDuration.
  rewrite Z.min_r, Z.max_r by lia.
  pose proof (Z.quot_rem' (gap - now) Day_length). pose proof (Z.rem_bound_pos (gap - now) Day_length ltac:(lia) ltac:(done)). lia.
Qed.

Definition month_range (year month : Z) : table := mkTable [] Attached (Some (partition_bounds year month)) false.
Definition postgres_bound_text (t : table) : string :=
  match t_bounds t with Some (from, to) => range_text " 00:00:00+00" from to | None => "DEFAULT" end.
Definition at_instant (y m d : Z) : time := days_from_civil y m d * Day_length.
Definition seeded (months : list (Z * Z)) : gmap string table :=
  list_to_map ((fun '(y, m) => (partition_table y m, month_range y m)) <$> months).
Definition gauges_of (C : DayCount) (months : list (Z * Z)) (now : time) : PartitionGapMetric :=
  (@Refresh C postgres_bound_text (fun l => l) now (mkDb (seeded months) [], NewPartitionGapMetric)).1.2.

(** The gauge counts toward zero, so it shows 0 for a day before and for a
    day after the first failing row; and a month that is missing in the middle
    does not show at all. *)
Example gauge_near_the_gap :
  (fun now => gauges_of exact_days [(2026, 5); (2026, 6)] now) <$>
    [at_instant 2026 6 20; at_instant 2026 7 1 - 1; at_instant 2026 7 1 + 23 * Hour; at_instant 2026 7 2] =
  (fun n => mkGauges (Some n) (Some 2)) <$> [11; 0; 0; -1].
Proof. vm_compute. reflexivity. Qed.

Example hole_does_not_show :
  gauges_of exact_days [(2026, 5); (2026, 7)] (at_instant 2026 5 31) = mkGauges (Some 62) (Some 2) /\
  ~ insertable (seeded [(2026, 5); (2026, 7)]) (at_instant 2026 6 1).
Proof.
  split; [vm_compute; reflexivity|]. intros (name & t & Hn & Ht).
  apply elem_of_list_to_map_2, list_elem_of_fmap in Hn as ([y m] & E & Hin). simplify_eq.
  apply list_elem_of_In in Hin. cbn in Hin. destruct Hin as [?|[?|[]]]; simplify_eq;
    destruct Ht as [_ Ht]; revert Ht; apply Is_true_eq_true || (intros Ht; vm_compute in Ht; by destruct Ht).
Qed.

(** Binary floating point counts the last instants before a whole day as that
    day. *)
Example gauge_rounds_up :
  (@days_in binary64_days (300 * Day_length - 1), @days_in exact_days (300 * Day_length - 1),
   @days_in binary64_days (300 * Day_length - Second), @days_in binary64_days (-25 * Hour)) = (300, 299, 299, -1).
Proof. vm_compute. reflexivity. Qed.

(** ** The rollover moves the gap *)

Lemma CreatePartition_cases year month d :
  let name := partition_table year month in
  tables_of (CreatePartitionActivity year month d).1 = tables_of d \/
  (tables_of d !! name = None /\ tables_of (CreatePartitionActivity year month d).1 = <[name := month_range year month]> (tables_of d)).
Proof.
  unfold CreatePartitionActivity, CreateUsageEventsPartition.
  destruct (_ || _); [by left|]. destruct (_ || _); [by left|].
  destruct (statement _ d) as [d' r] eqn:E. cbn [fst].
  change d' with ((d', r).1). rewrite <- E. apply statement_inv; [by left|]. intros ts' x. unfold create_partition.
  destruct (tables_of d !! _) eqn:Hn; intros [= <- <-]; [by left|by right].
Qed.

Lemma CreatePartition_ok year month d d' r : CreatePartitionActivity year month d = (d', Ok r) ->
  2026 <= year <= 2099 /\ 1 <= month <= 12 /\ is_Some (tables_of d' !! partition_table year month).
Proof.
  unfold CreatePartitionActivity, CreateUsageEventsPartition.
  destruct ((year <? 2026) || (2099 <? year)) eqn:Ey; [done|].
  destruct ((month <? 1) || (12 <? month)) eqn:Em; [done|]. apply orb_false_iff in Ey, Em.
  destruct (statement _ d) as [d1 [c|]] eqn:E; [|done]. intros [= <- <-]. apply statement_ok in E.
  unfold create_partition in E. destruct (tables_of d !! _) eqn:Hn; injection E as <- <-; split_and!; try lia.
  - by eexists.
  - rewrite lookup_insert_eq. by eexists.
Qed.

(** A rollover that succeeds has attached the partition of the next month,
    even when a first attempt did so and its answer was lost. *)
Lemma rollover_attaches script t d d' r :
  let '(y, m) := nextMonthFrom t in
  tables_of d !! partition_table y m = None -> PartitionRolloverWorkflow script t d = (d', Ok r) ->
  tables_of d' = <[partition_table y m := month_range y m]> (tables_of d).
Proof.
  unfold PartitionRolloverWorkflow. destruct (nextMonthFrom t) as [y m]. intros Hn HR.
  set (P w := tables_of w = tables_of d \/ tables_of w = <[partition_table y m := month_range y m]> (tables_of d)).
  assert (HP : forall j : nat, preserves P (CreatePartitionActivity y m)).
  { intros _ w Hw. unfold P in *. destruct (CreatePartition_cases y m w) as [-> | [Hw' ->]]; [done|].
    destruct Hw as [Hw|Hw]; rewrite Hw in *; [by right|]. by rewrite lookup_insert_eq in Hw'. }
  pose proof (ExecuteActivity_ok (fun _ => CreatePartitionActivity y m) P script d d' r HP (or_introl eq_refl) HR)
    as (_ & w0 & Hw0 & E).
  pose proof (HP 0%nat w0 Hw0) as Hd'. rewrite E in Hd'. destruct Hd' as [Hd'|Hd']; [|done]. cbn [fst] in Hd'.
  apply CreatePartition_ok in E as (_ & _ & [? Hs]). rewrite Hd' in Hs. by rewrite Hn in Hs.
Qed.

(** when rows find a partition up to the first of the month after the
    run time's, and that month has no table yet, a rollover that succeeds moves
    the first failing row by exactly that month, at least 28 days on. *)
Theorem rollover_moves_the_gap script t d d' r from :
  let '(y, m) := nextMonthFrom t in
  let gap := (partition_bounds y m).1 * Day_length in
  let gap' := (partition_bounds y m).2 * Day_length in
  from <= gap -> covered (tables_of d) from gap -> tables_of d !! partition_table y m = None ->
  PartitionRolloverWorkflow script t d = (d', Ok r) ->
  covered (tables_of d') from gap' /\ gap + 28 * Day_length <= gap'.
Proof.
  pose proof (rollover_attaches script t d d' r) as Ha. pose proof (nextMonthFrom_spec t) as Hm.
  destruct (nextMonthFrom t) as [y m]. destruct Hm as [Hm _]. cbv zeta. intros Hfrom Hcov Hn HR.
  specialize (Ha Hn HR). pose proof (next_month_later y m Hm) as Hl.
  unfold partition_bounds in *. unfold month_range, partition_bounds in Ha.
  destruct (next_month y m) as [y' m']. cbn [fst snd] in *. rewrite Ha.
  set (b := days_from_civil y m 1) in *. set (b' := days_from_civil y' m' 1) in *.
  assert (HD : Day_length = 86400000000000) by reflexivity. rewrite HD in *. split; [|lia].
  intros at_ Hat. split.
  - intros (name & tab & Hl' & Ht). apply lookup_insert_Some in Hl' as [[_ <-]|[_ Hl']].
    + destruct Ht as [_ Ht]. cbn [t_bounds] in Ht. rewrite HD in Ht. lia.
    + assert (Hi : insertable (tables_of d) at_) by (by exists name, tab). apply Hcov in Hi; lia.
  - intros Hlt. destruct (decide (at_ < b * 86400000000000)) as [Hb|Hb].
    + apply Hcov in Hb as (name & tab & Hl' & Ht); [|done]. exists name, tab. split; [|done].
      rewrite lookup_insert_ne; [done|]. intros <-. by rewrite Hn in Hl'.
    + eexists _, _. rewrite lookup_insert_eq. split; [done|]. split; [done|]. cbn [t_bounds]. rewrite HD. lia.
Qed.

(** ** Witnesses *)

Lemma covered_month y m from : (partition_bounds y m).1 * Day_length <= from ->
  covered {[partition_table y m := month_range y m]} from ((partition_bounds y m).2 * Day_length).
Proof.
  intros Hf at_ Hat. split.
  - intros (name & t & [_ <-]%lookup_singleton_Some & [_ Ht]). cbn [t_bounds month_range] in Ht.
    destruct (partition_bounds y m). cbn [fst snd] in *. lia.
  - intros Hlt. eexists _, _. rewrite lookup_singleton_eq. split; [done|]. split; [done|]. cbn [t_bounds month_range].
    destruct (partition_bounds y m). cbn [fst snd] in *. lia.
Qed.

Lemma postgres_prints_bounds : prints_bounds postgres_bound_text.
Proof. intros t from to E. right. unfold postgres_bound_text. by rewrite E. Qed.

Definition may_only : db := mkDb {[partition_table 2026 5 := month_range 2026 5]} [].

Lemma gap_metric_exact_witness :
  exists days, @Refresh exact_days postgres_bound_text (fun l => l) (at_instant 2026 5 20) (may_only, NewPartitionGapMetric) =
      ((mkDb (tables_of may_only) (tail (fates may_only)),
        mkGauges (Some days) (Some (Z.of_nat (length (partitions (tables_of may_only)))))), Ok tt) /\
    days * Day_length <= at_instant 2026 6 1 - at_instant 2026 5 20 < (days + 1) * Day_length.
Proof.
  assert (Hs : forall name t, tables_of may_only !! name = Some t -> t = month_range 2026 5)
    by (intros name t; cbn [may_only tables_of]; intros [_ <-]%lookup_singleton_Some; reflexivity).
  apply gap_metric_exact; [apply postgres_prints_bounds|done| | |reflexivity| |apply (covered_month 2026 5)|].
  - intros name t ->%Hs _. exists (days_from_civil 2026 5 1), (days_from_civil 2026 6 1). vm_compute.
    split_and!; congruence.
  - intros name t ->%Hs. by vm_compute.
  - vm_compute. split; congruence.
  - vm_compute. congruence.
  - vm_compute. reflexivity.
Defined.

Lemma rollover_moves_the_gap_witness :
  let d' := mkDb (<[partition_table 2026 6 := month_range 2026 6]> (tables_of may_only)) [] in
  covered (tables_of d') (at_instant 2026 5 24) ((partition_bounds 2026 6).2 * Day_length) /\
  (partition_bounds 2026 6).1 * Day_length + 28 * Day_length <= (partition_bounds 2026 6).2 * Day_length.
Proof.
  cbv zeta. pose proof (rollover_moves_the_gap [NotRun; ResultLost] (at_instant 2026 5 24 + 12 * Hour) may_only
    (mkDb (<[partition_table 2026 6 := month_range 2026 6]> (tables_of may_only)) [])
    (partitionName 2026 6, false) (at_instant 2026 5 24)) as H.
  assert (E : nextMonthFrom (at_instant 2026 5 24 + 12 * Hour) = (2026, 6)) by (vm_compute; reflexivity).
  rewrite E in H. cbv beta iota zeta in H. apply H.
  - vm_compute. congruence.
  - change ((partition_bounds 2026 6).1) with ((partition_bounds 2026 5).2). apply covered_month. vm_compute. congruence.
  - vm_compute. reflexivity.
  - vm_compute. reflexivity.
Defined.
