(* ===== verification/Schedules.v ===== *)
(** * Registration with Temporal: bundles, schedules, the worker's start

    [plane/workflow/registry.go], [queues.go], [schedule.go] and the bundles
    of the packages beside it, the three schedules of
    [plane/workflow/billing], what [cmd/workflow-worker] registers before it
    starts, and the run time [cmd/partition-rollover-trigger] passes.  The
    Temporal service is an argument with laws. *)

From S2P Require Import Prelude GoStd GoFmt GoTime Sha256 ArchiveFrames Actions Temporal ObjectStore Archive BillingTables ArchiveWorkflow PartitionGap.

(** ** Queues and bundles *)

Definition QueueBillingMaintenance : string := "billing-maintenance".
Definition QueueAgentSessions : string := "agent-sessions".
Definition QueueCIPipelines : string := "ci-pipelines".
Definition AllQueues : list string := [QueueBillingMaintenance; QueueAgentSessions; QueueCIPipelines].

(** Functions are named as the SDK names them: a workflow after its function,
    an activity by its [NamedActivity]. *)
Record Bundle := mkBundle { TaskQueue : string; Workflows : list string; Activities : list string }.

Inductive registration := RegisterWorkflow (name : string) | RegisterActivity (name : string).
#[export] Instance registration_eq_dec : EqDecision registration.
Proof. solve_decision. Defined.

Definition Apply (b : Bundle) (r : list registration) : list registration :=
  r ++ (RegisterWorkflow <$> Workflows b) ++ (RegisterActivity <$> Activities b).

Definition canary_Bundle : Bundle := mkBundle QueueBillingMaintenance ["CanaryWorkflow"] ["canary.health"].
Definition outboxttl_Bundle : Bundle :=
  mkBundle QueueBillingMaintenance ["ExpireOutboxesWorkflow"] ["outbox.ExpireDomain"].
Definition issuehold_Bundle : Bundle :=
  mkBundle QueueAgentSessions ["IssueHoldExpiryWorkflow"] ["issuehold.AutoCloseIfStillHeld"].
Definition approval_Bundle : Bundle := mkBundle QueueAgentSessions [] ["approval.RequestApproval"].
Definition ci_Bundle : Bundle := mkBundle QueueCIPipelines ["CIJobWorkflow"] [].
Definition runner_Bundle (deps : bool) : Bundle :=
  mkBundle QueueCIPipelines []
    (if deps then ["runner.BootColdVM"; "runner.LeaseHotVM"; "runner.RunJob"; "runner.TeardownVM"; "runner.EmitUsageEvent"]
     else []).

(** The dependencies are present or nil. *)
Definition billing_Bundle (archive restore dek : bool) : Bundle :=
  mkBundle QueueBillingMaintenance
    (["PartitionRolloverWorkflow"]
     ++ (if archive then ["PartitionArchiveWorkflow"; "ArchiveRouterWorkflow"] else [])
     ++ (if restore then ["RestorePartitionWorkflow"] else [])
     ++ (if dek then ["DEKDestructionWorkflow"; "DEKDestructionRouterWorkflow"] else []))
    (["billing.CreatePartition"]
     ++ (if archive then ["billing.DetachPartition"; "billing.Export"; "billing.EmitArchiveEvent";
                          "billing.GlueRegister"; "billing.DropPartition"] else [])
     ++ (if restore then ["billing.FetchManifest"; "billing.VerifyChecksum"; "billing.DownloadAndDecrypt";
                          "billing.LoadIntoQuarantine"; "billing.DropQuarantine"] else [])
     ++ (if dek then ["billing.ListEligiblePartitionsForDEKDestroy"; "billing.CheckLegalHoldForDEKDestroy";
                      "billing.RequestOperatorApprovalForDEKDestroy"; "billing.DestroyDEK";
                      "billing.EmitDEKDestroyedEvent"] else [])).

(** What a workflow dispatches: activities by name, and child workflows. *)
Definition dispatches (workflow : string) : list registration :=
  match workflow with
  | "CanaryWorkflow" => [RegisterActivity "canary.health"]
  | "ExpireOutboxesWorkflow" => [RegisterActivity "outbox.ExpireDomain"]
  | "IssueHoldExpiryWorkflow" => [RegisterActivity "issuehold.AutoCloseIfStillHeld"]
  | "CIJobWorkflow" =>
      RegisterActivity <$> ["runner.BootColdVM"; "runner.LeaseHotVM"; "runner.RunJob"; "runner.TeardownVM"; "runner.EmitUsageEvent"]
  | "PartitionRolloverWorkflow" => [RegisterActivity "billing.CreatePartition"]
  | "PartitionArchiveWorkflow" =>
      RegisterActivity <$> ["billing.DetachPartition"; "billing.Export"; "billing.EmitArchiveEvent"; "billing.GlueRegister";
                            "billing.DropPartition"]
  | "ArchiveRouterWorkflow" => [RegisterWorkflow "PartitionArchiveWorkflow"]
  | "RestorePartitionWorkflow" =>
      RegisterActivity <$> ["billing.FetchManifest"; "billing.VerifyChecksum"; "billing.DownloadAndDecrypt";
                            "billing.LoadIntoQuarantine"; "billing.DropQuarantine"]
  | "DEKDestructionWorkflow" =>
      RegisterActivity <$> ["billing.ListEligiblePartitionsForDEKDestroy"; "billing.CheckLegalHoldForDEKDestroy";
                            "billing.RequestOperatorApprovalForDEKDestroy"; "billing.DestroyDEK"; "billing.EmitDEKDestroyedEvent"]
  | "DEKDestructionRouterWorkflow" => [RegisterWorkflow "DEKDestructionWorkflow"]
  | _ => []
  end.

(** ** Schedules *)

Record ScheduleSpec := mkSpec { CronExpressions : list string; TimeZoneName : string }.
(** [Args] are the run times passed to the workflow. *)
Record ScheduleWorkflowAction := mkAction { act_ID : string; Workflow : string; act_TaskQueue : string; Args : list time }.
Record ScheduleOptions := mkOptions { ID : string; Spec : ScheduleSpec; Action : ScheduleWorkflowAction }.

(** A schedule of the service; [K] stands for its policy and state. *)
Record Schedule (K : Type) := mkSchedule { sch_Spec : ScheduleSpec; sch_Action : ScheduleWorkflowAction; kept : K }.
Arguments mkSchedule {K}.
Arguments sch_Spec {K}.
Arguments sch_Action {K}.
Arguments kept {K}.

Inductive schedule_error := ErrScheduleAlreadyRunning | ErrSchedule (what : string) | ErrIDRequired.

(** [client.ScheduleClient]; [live] is what the service holds. *)
Class ScheduleClient (K W : Type) := {
  live : W -> gmap string (Schedule K);
  fresh_settings : K;
  Create : ScheduleOptions -> action schedule_error W unit;
  Update : string -> (Schedule K -> Schedule K) -> action schedule_error W unit }.

Definition created {K} (k : K) (o : ScheduleOptions) : Schedule K := mkSchedule (Spec o) (Action o) k.

(** A call that fails may have happened, its answer lost. *)
Class ScheduleClientLaws (K W : Type) `{!ScheduleClient K W} := {
  create_ok o w w' : Create o w = (w', Ok tt) ->
    live w !! ID o = None /\ live w' = <[ID o := created fresh_settings o]> (live w);
  create_running o w w' : Create o w = (w', Err ErrScheduleAlreadyRunning) ->
    live w' = live w /\ is_Some (live w !! ID o);
  create_err o w w' e : Create o w = (w', Err e) ->
    live w' = live w \/ live w !! ID o = None /\ live w' = <[ID o := created fresh_settings o]> (live w);
  update_ok id f w w' : Update id f w = (w', Ok tt) ->
    exists s, live w !! id = Some s /\ live w' = <[id := f s]> (live w);
  update_err id f w w' e : Update id f w = (w', Err e) ->
    live w' = live w \/ exists s, live w !! id = Some s /\ live w' = <[id := f s]> (live w) }.

Section ensure.
Context {K W : Type} `{!ScheduleClient K W}.

Definition converge (o : ScheduleOptions) (s : Schedule K) : Schedule K := mkSchedule (Spec o) (Action o) (kept s).

Definition EnsureSchedule (o : ScheduleOptions) : action schedule_error W unit := fun w =>
  if bool_decide (ID o = "") then (w, Err ErrIDRequired)
  else
    match Create o w with
    | (w1, Ok _) => (w1, Ok tt)
    | (w1, Err ErrScheduleAlreadyRunning) =>
        match Update (ID o) (converge o) w1 with
        | (w2, Ok _) => (w2, Ok tt)
        | (w2, Err e) => (w2, Err e)
        end
    | (w1, Err e) => (w1, Err e)
    end.
End ensure.

Definition rollover_options : ScheduleOptions :=
  mkOptions "billing-partition-rollover" (mkSpec ["0 12 24 * *"] "UTC")
    (mkAction "billing-partition-rollover" "PartitionRolloverWorkflow" QueueBillingMaintenance []).
Definition archive_options : ScheduleOptions :=
  mkOptions "billing-partition-archive" (mkSpec ["0 14 24 * *"] "UTC")
    (mkAction "billing-partition-archive" "ArchiveRouterWorkflow" QueueBillingMaintenance []).
Definition dek_options : ScheduleOptions :=
  mkOptions "billing-dek-destruction" (mkSpec ["0 2 1 * *"] "UTC")
    (mkAction "billing-dek-destruction" "DEKDestructionRouterWorkflow" QueueBillingMaintenance []).

(** ** What cmd/workflow-worker does before it serves

    [dep] tells which of the clients and constructors it calls succeed. *)

Definition envDefault (getenv : string -> string) (key def : string) : string :=
  let v := getenv key in if bool_decide (v = "") then def else v.
(** [strconv.ParseBool]. *)
Definition ParseBool (s : string) : option bool :=
  if bool_decide (s ∈ ["1"; "t"; "T"; "true"; "TRUE"; "True"]) then Some true
  else if bool_decide (s ∈ ["0"; "f"; "F"; "false"; "FALSE"; "False"]) then Some false
  else None.
Definition envBool (getenv : string -> string) (key : string) (def : bool) : bool :=
  let v := getenv key in if bool_decide (v = "") then def else default def (ParseBool v).
Definition worker_envInt (getenv : string -> string) (key : string) (def : Z) : Z :=
  let v := getenv key in
  if bool_decide (v = "") then def
  else match Atoi v with Some n => if n <=? 0 then def else n | None => def end.

Record boot (W : Type) := mkBoot { registered : list registration; service : W }.
Arguments mkBoot {W}.
Arguments registered {W}.
Arguments service {W}.

Section worker.
Context {K W : Type} `{!ScheduleClient K W}.
Context (getenv : string -> string) (dep : string -> bool).

Notation M := (action string (boot W)).

Definition step (what : string) : M unit := require (dep what) what.
Definition register (b : Bundle) : M unit := fun s => (mkBoot (Apply b (registered s)) (service s), Ok tt).
Definition ensure (what : string) (o : ScheduleOptions) : M unit := fun s =>
  match EnsureSchedule o (service s) with
  | (w, Ok _) => (mkBoot (registered s) w, Ok tt)
  | (w, Err _) => (mkBoot (registered s) w, Err what)
  end.

Definition dialBillingService (addr : string) (allowInsecure : bool) : M unit :=
  let! _ := require (negb (bool_decide (addr = ""))) "BILLING_SERVICE_ADDR is empty" in
  let! _ := require allowInsecure "only WORKER_BILLING_INSECURE=true is supported" in
  step "billing dial".

Fixpoint steps (names : list string) : M unit :=
  match names with [] => ret tt | n :: names' => let! _ := step n in steps names' end.

(** The dependencies of the archive, of the restore and of the key
    destruction, all behind [S3_BUCKET]. *)
Definition wire_archive : M unit :=
  let! _ := dialBillingService (getenv "BILLING_SERVICE_ADDR") (envBool getenv "WORKER_BILLING_INSECURE" false) in
  steps ["vault client"; "s3 client"; "detach activity"; "drop activity"; "emit activity"; "export activity";
         "aws config (glue)"; "glue register activity"].
Definition wire_restore : M unit :=
  steps ["vault client (restore)"; "s3 client (restore)"; "fetch manifest activity"; "verify checksum activity";
         "download+decrypt activity"; "load quarantine activity"; "drop quarantine activity"].
Definition wire_dek : M unit :=
  steps ["vault client (dek destroy)"; "destroy dek activity"; "s3 client (dek destroy)"; "manifest resolver";
         "list eligible partitions activity"; "legal hold activity"; "emit dek destroyed activity"].

Definition wire_billing (bucket : bool) : M unit :=
  let! _ := steps ["pgxpool.New"; "billing.NewCreatePartitionActivity"] in
  let! _ := (if bucket then let! _ := wire_archive in let! _ := wire_restore in wire_dek else ret tt) in
  let! _ := register (billing_Bundle bucket bucket bucket) in
  let! _ := register outboxttl_Bundle in
  let! _ := ensure "billing.EnsureRolloverSchedule" rollover_options in
  let! _ := (if bucket then ensure "billing.EnsureArchiveSchedule" archive_options else ret tt) in
  if bucket then ensure "billing.EnsureDEKDestructionSchedule" dek_options else ret tt.

Definition is_set (key : string) : bool := negb (bool_decide (getenv key = "")).

(** [run], up to [w.Start]: the worker polls [QueueBillingMaintenance]. *)
Definition run : M unit :=
  let! _ := require (is_set "TEMPORAL_NAMESPACE") "TEMPORAL_NAMESPACE is required" in
  let! _ := steps ["observability.SetupTracing"; "temporal client.Dial"; "cache.NewRedisStore"] in
  let! _ := register canary_Bundle in
  let! _ := (if is_set "POSTGRES_URL" then wire_billing (is_set "S3_BUCKET") else ret tt) in
  step "worker.Start".

Definition polled : list string := [QueueBillingMaintenance].
End worker.

(** ** cmd/partition-rollover-trigger *)

Definition priorMonthAnchor (year month : Z) : time :=
  let '(py, pm) := if month - 1 =? 0 then (year - 1, 12) else (year, month - 1) in
  date_days py pm 15 * Day_length.

(** The queue and the input the workflow is started with; the error is the
    exit code. *)
Definition rollover_trigger (getenv : string -> string) (year month : Z) : result Z (string * time) :=
  if (year <? 2026) || (2100 <? year) then Err 2
  else if (month <? 1) || (12 <? month) then Err 2
  else Ok (envDefault getenv "WORKFLOW_TASK_QUEUE" "billing", priorMonthAnchor year month).

(** The input of a workflow a schedule starts: what no argument was given for
    stays the zero value. *)
Definition scheduled_run_time (a : ScheduleWorkflowAction) : time := default zero_time (head (Args a)).

(** ** EnsureSchedule converges *)

Section converges.
Context {K W : Type} `{!ScheduleClient K W, !ScheduleClientLaws K W}.

Lemma EnsureSchedule_cases o w w' r : EnsureSchedule o w = (w', r) ->
  (w' = w \/ live w' = live w \/
   live w !! ID o = None /\ live w' = <[ID o := created fresh_settings o]> (live w) \/
   exists s, live w !! ID o = Some s /\ live w' = <[ID o := converge o s]> (live w)) /\
  (r = Ok tt -> ID o <> "" /\ live w' = <[ID o := converge o (default (created fresh_settings o) (live w !! ID o))]> (live w)).
Proof.
  unfold EnsureSchedule. case_bool_decide as Hid; [intros [= <- <-]; split; [by left|done]|].
  destruct (Create o w) as [w1 [[]|e]] eqn:Ec.
  - intros [= <- <-]. apply create_ok in Ec as [Hn ->]. split; [by right; right; left|]. intros _. by rewrite Hn.
  - destruct e as [|e|].
    2,3: intros [= <- <-]; split; [|done]; apply create_err in Ec as [->|[? ->]]; [by right; left|by right; right; left].
    apply create_running in Ec as [Hl [s Hs]]. rewrite <- Hl in Hs |- *.
    destruct (Update (ID o) (converge o) w1) as [w2 [[]|e]] eqn:Eu; intros [= <- <-].
    + apply update_ok in Eu as (s' & Hs' & ->). simplify_eq. split; [by right; right; right; eexists|]. intros _. by rewrite Hs.
    + split; [|done]. apply update_err in Eu as [->|(s' & Hs' & ->)]; [by right; left|by right; right; right; eexists].
Qed.

(** EnsureSchedule touches no other schedule; when it returns without an
    error the live schedule runs the action and the times asked for, with the
    policy and state it had before, or fresh ones; and when it fails the live
    schedule is as it was or as asked. *)
Theorem ensure_schedule_converges o w w' r : EnsureSchedule o w = (w', r) ->
  (forall id, id <> ID o -> live w' !! id = live w !! id) /\
  (live w' !! ID o = live w !! ID o \/ live w' !! ID o = Some (converge o (default (created fresh_settings o) (live w !! ID o)))) /\
  (r = Ok tt -> live w' !! ID o = Some (converge o (default (created fresh_settings o) (live w !! ID o)))).
Proof.
  intros E. apply EnsureSchedule_cases in E as [Hc Ho].
  assert (Hins : forall s, live w' = <[ID o := s]> (live w) ->
    (forall id, id <> ID o -> live w' !! id = live w !! id) /\ live w' !! ID o = Some s).
  { intros s ->. split; [intros id Hid; by rewrite lookup_insert_ne|by rewrite lookup_insert_eq]. }
  split_and!.
  - destruct Hc as [->|[->|[[_ H]|(s & _ & H)]]]; [done..| |]; by apply Hins in H as [? _].
  - destruct Hc as [->|[->|[[Hn H]|(s & Hs & H)]]]; [by left..| |]; right; apply Hins in H as [_ ->].
    + by rewrite Hn.
    + by rewrite Hs.
  - intros [_ H]%Ho. by apply Hins in H as [_ ?].
Qed.
End converges.

(** ** The worker serves what it schedules *)

(** What is registered when the worker starts. *)
Definition planned (postgres bucket : bool) : list registration :=
  let r := Apply canary_Bundle [] in
  if postgres then Apply outboxttl_Bundle (Apply (billing_Bundle bucket bucket bucket) r) else r.
Definition planned_schedules (postgres bucket : bool) : list ScheduleOptions :=
  if postgres then rollover_options :: (if bucket then [archive_options; dek_options] else []) else [].

(** Every workflow that can run, and everything it dispatches, is registered
    once. *)
Definition self_contained (r : list registration) : bool :=
  bool_decide (NoDup r) &&
  forallb (fun x => match x with
                    | RegisterWorkflow n => forallb (fun y => bool_decide (y ∈ r)) (dispatches n)
                    | RegisterActivity _ => true
                    end) r.

Lemma planned_self_contained postgres bucket : self_contained (planned postgres bucket) = true.
Proof. destruct postgres, bucket; vm_compute; reflexivity. Qed.

Lemma planned_schedules_served postgres bucket :
  forallb (fun o => bool_decide (RegisterWorkflow (Workflow (Action o)) ∈ planned postgres bucket)
                    && bool_decide (act_TaskQueue (Action o) ∈ polled)) (planned_schedules postgres bucket) = true.
Proof. destruct postgres, bucket; vm_compute; reflexivity. Qed.

Section start.
Context {K W : Type} `{!ScheduleClient K W, !ScheduleClientLaws K W}.
Context (getenv : string -> string) (dep : string -> bool).
Notation M := (action string (boot W)).

Lemma step_state what s s' : step (W := W) dep what s = (s', Ok tt) -> s' = s.
Proof. unfold step, require. destruct (dep what); [by intros [= <-]|done]. Qed.
Lemma steps_state names s s' : steps (W := W) dep names s = (s', Ok tt) -> s' = s.
Proof.
  revert s. induction names as [|n names IH]; intros s; [by intros [= <-]|]. cbn [steps]. intros H.
  apply bind_ok in H as (s1 & [] & H1%step_state & H2). subst. by apply IH.
Qed.
Lemma require_state b (what : string) s s' : require (W := boot W) b what s = (s', Ok tt) -> s' = s /\ b = true.
Proof. unfold require. destruct b; [by intros [= <-]|done]. Qed.

Lemma wire_archive_state (s s' : boot W) : wire_archive getenv dep s = (s', Ok tt) -> s' = s.
Proof.
  unfold wire_archive, dialBillingService. intros (s1 & [] & H1 & H2%steps_state)%bind_ok.
  apply bind_ok in H1 as (s2 & [] & [H1 _]%require_state & H3).
  apply bind_ok in H3 as (s3 & [] & [H3 _]%require_state & H4%step_state). congruence.
Qed.

(** Schedules ensured one after the other. *)
Fixpoint ensured (os : list ScheduleOptions) (w w' : W) : Prop :=
  match os with
  | [] => w' = w
  | o :: os' => exists w1, EnsureSchedule o w = (w1, Ok tt) /\ ensured os' w1 w'
  end.

Lemma ensure_state what o s s' : ensure what o s = (s', Ok tt) ->
  registered s' = registered s /\ EnsureSchedule o (service s) = (service s', Ok tt).
Proof. unfold ensure. destruct (EnsureSchedule o _) as [w [[]|e]]; [by intros [= <-]|done]. Qed.

Lemma wire_billing_state bucket (s s' : boot W) : wire_billing getenv dep bucket s = (s', Ok tt) ->
  registered s' = Apply outboxttl_Bundle (Apply (billing_Bundle bucket bucket bucket) (registered s)) /\
  ensured (planned_schedules true bucket) (service s) (service s').
Proof.
  unfold wire_billing. intros (s1 & [] & H1%steps_state & H)%bind_ok. subst s1.
  apply bind_ok in H as (s2 & [] & H2 & H).
  assert (s2 = s) as ->.
  { destruct bucket; [|by injection H2]. apply bind_ok in H2 as (a1 & [] & H2%wire_archive_state & H2').
    apply bind_ok in H2' as (a2 & [] & H3%steps_state & H4%steps_state). congruence. }
  apply bind_ok in H as (s3 & [] & H3 & H). apply bind_ok in H as (s4 & [] & H4 & H).
  injection H3 as <-. injection H4 as <-. apply bind_ok in H as (s5 & [] & [R5 H5]%ensure_state & H).
  cbn [registered service] in *. apply bind_ok in H as (s6 & [] & H6 & H7). cbn [planned_schedules ensured].
  destruct bucket.
  - apply ensure_state in H6 as [R6 H6], H7 as [R7 H7]. split; [congruence|].
    exists (service s5). split; [done|]. exists (service s6). split; [done|]. by exists (service s').
  - injection H6 as <-. injection H7 as <-. split; [done|]. by exists (service s5).
Qed.

Lemma run_state w s : run getenv dep (mkBoot [] w) = (s, Ok tt) ->
  let postgres := is_set getenv "POSTGRES_URL" in
  let bucket := is_set getenv "S3_BUCKET" in
  registered s = planned postgres bucket /\ ensured (planned_schedules postgres bucket) w (service s).
Proof.
  unfold run. intros (s1 & [] & [-> _]%require_state & H)%bind_ok. apply bind_ok in H as (s2 & [] & ->%steps_state & H).
  apply bind_ok in H as (s3 & [] & H3 & H). injection H3 as <-.
  apply bind_ok in H as (s4 & [] & H4 & ->%step_state). unfold planned. cbv zeta.
  destruct (is_set getenv "POSTGRES_URL"); [by apply wire_billing_state in H4|]. by injection H4 as <-.
Qed.

Lemma ensured_live os w w' : ensured os w w' -> NoDup (ID <$> os) ->
  (forall id, id ∉ ID <$> os -> live w' !! id = live w !! id) /\
  (forall o, o ∈ os -> live w' !! ID o = Some (converge o (default (created fresh_settings o) (live w !! ID o)))).
Proof.
  revert w. induction os as [|o os IH]; intros w H Hn.
  { cbn in H. subst. split; [done|]. intros o Ho. by apply not_elem_of_nil in Ho. }
  destruct H as (w1 & He & H). cbn in Hn. apply NoDup_cons in Hn as [Ho Hn].
  destruct (IH w1 H Hn) as [Hf Hl].
  apply EnsureSchedule_cases in He as [_ He]. destruct (He eq_refl) as [_ E].
  assert (Hoth : forall id, id <> ID o -> live w1 !! id = live w !! id) by (intros; rewrite E; by rewrite lookup_insert_ne).
  split.
  - intros id [Hid Hid']%not_elem_of_cons. rewrite (Hf id Hid'). by apply Hoth.
  - intros o' [->|Ho']%elem_of_cons.
    + rewrite (Hf _ Ho), E. by rewrite lookup_insert_eq.
    + rewrite (Hl o' Ho'). rewrite Hoth; [done|]. intros C. apply Ho. rewrite <- C. apply list_elem_of_fmap. eauto.
Qed.

(** a worker that starts has registered nothing twice and everything its
    workflows dispatch; each schedule it keeps alive is live with the action
    and times of the source, for a workflow it has registered and on the queue
    it polls; and it has touched no other schedule. *)
Theorem worker_serves_its_schedules w s : run getenv dep (mkBoot [] w) = (s, Ok tt) ->
  let os := planned_schedules (is_set getenv "POSTGRES_URL") (is_set getenv "S3_BUCKET") in
  NoDup (registered s) /\
  (forall wf r, RegisterWorkflow wf ∈ registered s -> r ∈ dispatches wf -> r ∈ registered s) /\
  (forall o, o ∈ os -> live (service s) !! ID o = Some (converge o (default (created fresh_settings o) (live w !! ID o))) /\
     RegisterWorkflow (Workflow (Action o)) ∈ registered s /\ act_TaskQueue (Action o) ∈ polled) /\
  (forall id, id ∉ ID <$> os -> live (service s) !! id = live w !! id).
Proof.
  intros H. destruct (run_state w s H) as [Hr He]. cbv zeta in *. rewrite Hr.
  set (pg := is_set getenv "POSTGRES_URL") in *. set (s3 := is_set getenv "S3_BUCKET") in *.
  pose proof (planned_self_contained pg s3) as Hc. apply andb_true_iff in Hc as [Hn Hd]. apply bool_decide_eq_true in Hn.
  assert (Hids : NoDup (ID <$> planned_schedules pg s3)).
  { destruct pg, s3; apply (bool_decide_unpack _); vm_compute; done. }
  destruct (ensured_live _ _ _ He Hids) as [Hf Hl]. split_and!; [done| | |done].
  - intros wf r Hwf Hr'. rewrite forallb_forall in Hd. specialize (Hd _ (proj1 (list_elem_of_In _ _) Hwf)).
    cbn beta iota in Hd. rewrite forallb_forall in Hd. specialize (Hd r (proj1 (list_elem_of_In _ _) Hr')).
    by apply bool_decide_eq_true in Hd.
  - intros o Ho. split; [by apply Hl|]. pose proof (planned_schedules_served pg s3) as Hs.
    rewrite forallb_forall in Hs. specialize (Hs o (proj1 (list_elem_of_In _ _) Ho)).
    apply andb_true_iff in Hs as [H1 H2]. apply bool_decide_eq_true in H1, H2. done.
Qed.
End start.

(** ** The rollover by hand and by schedule *)

Lemma civil_date y m d : 1 <= m <= 12 -> 1 <= d <= 28 -> civil (date_days y m d * Day_length) = (y, m, d).
Proof.
  intros Hm Hd. unfold civil, days_of. rewrite Z.div_div by (unfold Second, seconds_per_day; lia).
  replace (Second * seconds_per_day) with Day_length by reflexivity. rewrite Z.div_mul by (by vm_compute).
  unfold date_days. rewrite Z.div_small, Z.mod_small, Z.add_0_r by lia. replace (m - 1 + 1) with m by lia.
  by apply days_civil.
Qed.

Lemma nextMonthFrom_anchor year month : 1 <= month <= 12 -> nextMonthFrom (priorMonthAnchor year month) = (year, month).
Proof.
  intros Hm. unfold priorMonthAnchor. destruct (Z.eqb_spec (month - 1) 0) as [E|E].
  - unfold nextMonthFrom, Year, Month. rewrite civil_date by lia. cbn [fst snd].
    change (12 <? 12 + 1) with true. cbv iota. f_equal; lia.
  - unfold nextMonthFrom, Year, Month. rewrite civil_date by lia. cbn [fst snd].
    destruct (Z.ltb_spec 12 (month - 1 + 1)); [lia|]. f_equal; lia.
Qed.

(** the month asked of the trigger is the month the workflow it starts
    creates: when that workflow succeeds on a database without the month, the
    month's partition is attached and nothing else has changed. *)
Theorem trigger_creates_the_month getenv year month queue anchor script d d' r :
  rollover_trigger getenv year month = Ok (queue, anchor) -> tables_of d !! partition_table year month = None ->
  PartitionRolloverWorkflow script anchor d = (d', Ok r) ->
  r.1 = partitionName year month /\ tables_of d' = <[partition_table year month := month_range year month]> (tables_of d).
Proof.
  unfold rollover_trigger. destruct ((year <? 2026) || _); [done|].
  destruct ((month <? 1) || (12 <? month)) eqn:Em; [done|]. apply orb_false_iff in Em as [H1 H2].
  apply Z.ltb_ge in H1, H2. intros [= <- <-] Hn HR.
  pose proof (nextMonthFrom_anchor year month ltac:(lia)) as E.
  pose proof (rollover_attaches script (priorMonthAnchor year month) d d' r) as Ha. rewrite E in Ha.
  split; [|by apply Ha]. unfold PartitionRolloverWorkflow in HR. rewrite E in HR.
  apply (ExecuteActivity_ok _ (fun _ => True)) in HR as (_ & w0 & _ & HR); [|done|done].
  unfold CreatePartitionActivity in HR. destruct (CreateUsageEventsPartition _ _ _) as [d1 [c|]]; [|done]. by injection HR as <- <-.
Qed.

(** The schedule hands the workflow no run time.  The zero time asks for
    February of the year 1, which the partitioner refuses. *)
Lemma scheduled_rollover_never_succeeds script d :
  exists e, PartitionRolloverWorkflow script (scheduled_run_time (Action rollover_options)) d = (d, Err e).
Proof.
  unfold PartitionRolloverWorkflow. replace (nextMonthFrom _) with (1, 2) by (vm_compute; reflexivity).
  assert (Hc : forall w, CreatePartitionActivity 1 2 w = (w, Err (Failed "create partition"))) by reflexivity.
  unfold ExecuteActivity. generalize 0%nat as i. generalize (MaximumAttempts DefaultRetryPolicy) as n. intros n.
  revert script. induction n as [|n IH]; intros script i; [by eexists|]. cbn [attempts]. rewrite Hc. cbn [fst].
  destruct (default Delivered (head script)); [|by apply IH..]. destruct (n =? 0)%nat; [by eexists|by apply IH].
Qed.

(** Started by hand without [WORKFLOW_TASK_QUEUE] the workflow waits on a
    queue no worker polls; the year 2100 is let through although the
    partitioner ends at 2099. *)
Example trigger_queue_not_polled :
  fst <$> from_option Some None (match rollover_trigger (fun _ => "") 2027 5 with Ok x => Some x | Err _ => None end)
    = Some "billing" /\ "billing" ∉ polled /\ "billing" ∉ AllQueues.
Proof. split; [reflexivity|]. split; by apply (bool_decide_unpack _); vm_compute. Qed.
Example trigger_year_2100 :
  rollover_trigger (fun _ => "") 2100 1 = Ok ("billing", priorMonthAnchor 2100 1) /\
  CreateUsageEventsPartition 2100 1 (mkDb ∅ []) = (mkDb ∅ [], Err tt).
Proof. split; reflexivity. Qed.

(** No schedule starts the workflow that expires the outboxes, and none of the
    bundles of the other queues is served. *)
Example expiry_never_starts postgres bucket :
  "ExpireOutboxesWorkflow" ∉ (fun o => Workflow (Action o)) <$> planned_schedules postgres bucket.
Proof. destruct postgres, bucket; by apply (bool_decide_unpack _); vm_compute. Qed.

(** ** A schedule service, and witnesses *)

Record temporal := mkTemporal { held : gmap string (Schedule bool); answers : list delivery }.

Definition service_call {X} (f : gmap string (Schedule bool) -> result schedule_error (gmap string (Schedule bool) * X)) :
    action schedule_error temporal X := fun s =>
  let rest := tail (answers s) in
  match default Delivered (head (answers s)), f (held s) with
  | NotRun, _ => (mkTemporal (held s) rest, Err (ErrSchedule "unavailable"))
  | Delivered, Ok (h, x) => (mkTemporal h rest, Ok x)
  | ResultLost, Ok (h, _) => (mkTemporal h rest, Err (ErrSchedule "deadline exceeded"))
  | Delivered, Err e => (mkTemporal (held s) rest, Err e)
  | ResultLost, Err _ => (mkTemporal (held s) rest, Err (ErrSchedule "deadline exceeded"))
  end.

#[export] Instance temporal_schedules : ScheduleClient bool temporal := {
  live := held;
  fresh_settings := false;
  Create o := service_call (fun h =>
    match h !! ID o with
    | Some _ => Err ErrScheduleAlreadyRunning
    | None => Ok (<[ID o := created false o]> h, tt)
    end);
  Update id f := service_call (fun h =>
    match h !! id with Some s => Ok (<[id := f s]> h, tt) | None => Err (ErrSchedule "not found") end) }.

#[export] Instance temporal_schedule_laws : ScheduleClientLaws bool temporal.
Proof.
  split.
  - intros o [h a] w'. cbn. unfold service_call. cbn [held answers].
    destruct (default _ (head a)), (h !! ID o) eqn:E; intros [= <-]; done.
  - intros o [h a] w'. cbn. unfold service_call. cbn [held answers].
    destruct (default _ (head a)), (h !! ID o) eqn:E; intros [= <-]; done.
  - intros o [h a] w' e. cbn. unfold service_call. cbn [held answers].
    destruct (default _ (head a)), (h !! ID o) eqn:E; intros [= <- <-]; auto.
  - intros id f [h a] w'. cbn. unfold service_call. cbn [held answers].
    destruct (default _ (head a)), (h !! id) eqn:E; intros [= <-]; eauto.
  - intros id f [h a] w' e. cbn. unfold service_call. cbn [held answers].
    destruct (default _ (head a)), (h !! id) eqn:E; intros [= <- <-]; eauto.
Qed.

(** A schedule an operator has paused, with the times of an older release. *)
Definition old_rollover : Schedule bool :=
  mkSchedule (mkSpec ["0 0 1 * *"] "UTC") (Action rollover_options) true.
Definition old_service : temporal := mkTemporal {["billing-partition-rollover" := old_rollover]} [].

Lemma ensure_schedule_converges_witness :
  live (EnsureSchedule rollover_options old_service).1 !! ID rollover_options
    = Some (converge rollover_options (default (created fresh_settings rollover_options) (live old_service !! ID rollover_options))).
Proof.
  apply (ensure_schedule_converges rollover_options old_service _ _ (surjective_pairing _)). vm_compute. reflexivity.
Defined.

Definition dev_env (key : string) : string :=
  if bool_decide (key ∈ ["TEMPORAL_NAMESPACE"; "POSTGRES_URL"; "S3_BUCKET"; "BILLING_SERVICE_ADDR"]) then "set"
  else if bool_decide (key = "WORKER_BILLING_INSECURE") then "true" else "".

Definition booted : boot temporal := (run dev_env (fun _ => true) (mkBoot [] old_service)).1.

Lemma worker_serves_its_schedules_witness :
  NoDup (registered booted) /\ length (registered booted) = 26%nat /\
  live (service booted) !! "billing-partition-rollover" = Some (mkSchedule (Spec rollover_options) (Action rollover_options) true).
Proof.
  assert (H : run dev_env (fun _ => true) (mkBoot [] old_service) = (booted, Ok tt)) by (vm_compute; reflexivity).
  destruct (worker_serves_its_schedules dev_env (fun _ => true) old_service booted H) as (H1 & _ & H3 & _).
  split_and!; [done|vm_compute; reflexivity|].
  destruct (H3 rollover_options) as [E _]; [vm_compute; left|]. etrans; [exact E|]. vm_compute. reflexivity.
Defined.

Lemma trigger_creates_the_month_witness :
  let d' := mkDb (<[partition_table 2027 5 := month_range 2027 5]> ∅) [] in
  "billing.usage_events_2027_05" = partitionName 2027 5 /\
  tables_of d' = <[partition_table 2027 5 := month_range 2027 5]> (tables_of (mkDb ∅ [])).
Proof.
  apply (trigger_creates_the_month (fun _ => "") 2027 5 "billing" (priorMonthAnchor 2027 5) [] (mkDb ∅ [])
    (mkDb (<[partition_table 2027 5 := month_range 2027 5]> ∅) []) ("billing.usage_events_2027_05", true)).
  - reflexivity.
  - vm_compute. reflexivity.
  - vm_compute. reflexivity.
Defined.
