(* ===== verification/OutboxTtl.v ===== *)
(** * Draining and expiring every outbox

    [plane/data/outbox/wiring] starts one consumer per domain;
    [plane/workflow/outboxttl] expires the processed rows of each domain: the
    activity for one domain and the workflow that fans out to all of them and
    collects their outcomes. *)

From S2P Require Import Prelude GoStd Actions Temporal Outbox.

(** ** wiring.StartAll *)

Record DomainConfig := mkDomainConfig { dc_Domain : Domain; dc_Table : string; dc_Topic : string }.

(** [OutboxTable] panics on an invalid domain: these are valid. *)
Definition domain_config (d : Domain) (topic : string) : DomainConfig :=
  mkDomainConfig d (default "" (OutboxTable d)) topic.
Definition AllDomains : list DomainConfig :=
  [domain_config DomainIdentity "gitscale.identity.events";
   domain_config DomainRepositories "gitscale.repositories.events";
   domain_config DomainCollaboration "gitscale.collaboration.events";
   domain_config DomainCI "gitscale.ci.events";
   domain_config DomainBilling "gitscale.billing.events";
   domain_config DomainGit "gitscale.git.metering.events"].

Fixpoint start_consumers (getenv : string -> string) (domains : list DomainConfig) (acc : list Config)
    : result (Domain * config_error) (list Config) :=
  match domains with
  | [] => Ok acc
  | d :: domains' =>
      let cfg := mkConfig (dc_Domain d) (dc_Table d) (dc_Topic d) true true 0 0 0 in
      match ApplyEnvDefaults getenv cfg with
      | Err e => Err (dc_Domain d, e)
      | Ok cfg => match NewOutboxConsumer cfg with
                  | Err e => Err (dc_Domain d, e)
                  | Ok c => start_consumers getenv domains' (acc ++ [c])
                  end
      end
  end.
(** The consumers that are started, each in a goroutine of its own. *)
Definition StartAll (getenv : string -> string) (domains : list DomainConfig) : result (Domain * config_error) (list Config) :=
  start_consumers getenv domains [].

(** ** The activity *)

(** The outboxes of the database by domain. *)
Notation outboxes := (gmap Domain table).

(** What one run of the activity meets: when each batch runs and whether the
    database executes it, and the clock before and after. *)
Record run_env := mkRunEnv { batch_at : nat -> time; batch_ok : nat -> bool; started_at : time; finished_at : time }.

Record ExpireDomainResult := mkExpireResult { er_Domain : Domain; RowsDeleted : Z; DurationMS : Z }.

(** A statement on the outbox of [d]. *)
Definition at_domain {A} (d : Domain) (m : act table A) : act outboxes A := fun w =>
  match w !! d with
  | None => (w, Err (Failed "relation does not exist"))
  | Some t => let '(t', r) := m t in (<[d := t']> w, r)
  end.

Definition expire_table (e : Expirer) (env : run_env) : act table ExpireDomainResult := fun t =>
  match Expire e (batch_at env) (batch_ok env) t with
  | (Expired n, t') =>
      (t', Ok (mkExpireResult (exp_domain e) n (Z.quot (finished_at env - started_at env) Millisecond)))
  | (_, t') => (t', Err (Failed "outboxttl: expire"))
  end.

(** [Execute]; an expirer that is nil is [None]. *)
Definition Execute (expirers : gmap Domain (option Expirer)) (env : run_env) (d : Domain) : act outboxes ExpireDomainResult :=
  if negb (Domain_Valid d) then throw (Failed "outboxttl: invalid domain")
  else match expirers !! d with
       | Some (Some e) => at_domain (exp_domain e) (expire_table e env)
       | _ => throw (Failed "outboxttl: no expirer registered")
       end.

(** ** The workflow *)

Definition expiry_domains : list Domain :=
  [DomainIdentity; DomainRepositories; DomainCollaboration; DomainCI; DomainBilling].

Section workflow.
Context (expirers : gmap Domain (option Expirer)).
(** The attempts of the activity for each domain, and what each run meets. *)
Context (script : Domain -> list delivery) (env : Domain -> nat -> run_env).

Definition expire_activity (d : Domain) : act outboxes ExpireDomainResult :=
  ExecuteActivity (fun j => Execute expirers (env d j) d) (script d).

(** The activities run in any order; each leaves its outcome in its future. *)
Fixpoint fan_out (order : list Domain) (w : outboxes) (futures : gmap Domain (result failure ExpireDomainResult))
    : outboxes * gmap Domain (result failure ExpireDomainResult) :=
  match order with
  | [] => (w, futures)
  | d :: order' => let '(w', r) := expire_activity d w in fan_out order' w' (<[d := r]> futures)
  end.

Record ExpireOutboxesResult := mkTotals { PerDomain : list ExpireDomainResult; Errors : list (Domain * failure) }.

(** The futures are read in the order of the source. *)
Fixpoint collect (domains : list Domain) (futures : gmap Domain (result failure ExpireDomainResult))
    (totals : ExpireOutboxesResult) : ExpireOutboxesResult :=
  match domains with
  | [] => totals
  | d :: domains' =>
      collect domains' futures
        match default (Err Timeout) (futures !! d) with
        | Ok r => mkTotals (PerDomain totals ++ [r]) (Errors totals)
        | Err e => mkTotals (PerDomain totals) (Errors totals ++ [(d, e)])
        end
  end.

(** The totals, and whether the workflow fails. *)
Definition ExpireOutboxesWorkflow (order : list Domain) (w : outboxes) : outboxes * (ExpireOutboxesResult * bool) :=
  let '(w', futures) := fan_out order w ∅ in
  let totals := collect expiry_domains futures (mkTotals [] []) in
  (w', (totals, negb (bool_decide (Errors totals = [])))).
End workflow.

(** The expirers [cmd/workflow-worker] builds. *)
Definition worker_expirers : gmap Domain (option Expirer) :=
  list_to_map ((fun d => (d, NewExpirer d 0 0)) <$> expiry_domains).

Definition day_old : duration := 24 * Hour.

#[export] Instance OutboxRow_eq_dec : EqDecision OutboxRow.
Proof. solve_decision. Defined.
#[export] Instance stored_eq_dec : EqDecision stored.
Proof. solve_decision. Defined.

(** ** All domains are drained *)

Definition default_consumer (d : DomainConfig) : Config :=
  mkConfig (dc_Domain d) (dc_Table d) (dc_Topic d) true true defaultPollInterval defaultPublishTimeout defaultBatchSize.

(** with the environment's defaults every valid domain has a consumer of
    its own, on its outbox table and a topic of its own. *)
Theorem every_domain_is_drained getenv :
  getenv "OUTBOX_POLL_INTERVAL_MS" = "" -> getenv "OUTBOX_PUBLISH_TIMEOUT_MS" = "" -> getenv "OUTBOX_BATCH_SIZE" = "" ->
  exists cs, StartAll getenv AllDomains = Ok cs /\
    (forall d, Domain_Valid d = true -> exists c, c ∈ cs /\ cfg_Domain c = d /\ Some (cfg_Table c) = OutboxTable d) /\
    NoDup (cfg_Topic <$> cs) /\ NoDup (cfg_Table <$> cs) /\ Forall (fun c => ticker_panics c = false) cs.
Proof.
  intros H1 H2 H3. exists (default_consumer <$> AllDomains). split_and!.
  - unfold StartAll, AllDomains. cbn [start_consumers].
    unfold ApplyEnvDefaults, envDurationMS, envInt. cbn [PollInterval]. rewrite H1, H2, H3. vm_compute. reflexivity.
  - intros d Hd. enough (Exists (fun c => dc_Domain c = d /\ Some (dc_Table c) = OutboxTable d) AllDomains) as (c & Hc & ? & ?)%Exists_exists.
    { exists (default_consumer c). split; [|done]. apply list_elem_of_fmap. by exists c. }
    unfold Domain_Valid in Hd. apply bool_decide_eq_true in Hd. rewrite !elem_of_cons, elem_of_nil in Hd.
    destruct_or! Hd; subst; apply (bool_decide_unpack _); vm_compute; done.
  - apply (bool_decide_unpack _); vm_compute; done.
  - apply (bool_decide_unpack _); vm_compute; done.
  - by repeat constructor.
Qed.

(** ** Each activity works on its own outbox *)

Lemma attempts_at_domain {A} d (g : nat -> act table A) left i script w t : w !! d = Some t ->
  attempts (fun j => at_domain d (g j)) left i script w =
  let '(t', r) := attempts g left i script t in (<[d := t']> w, r).
Proof.
  revert i script w t. induction left as [|left IH]; intros i script w t Hw.
  { cbn [attempts]. cbv beta iota. by rewrite insert_id. }
  cbn [attempts]. destruct (g i t) as [t1 r] eqn:Eg.
  assert (Ei : at_domain d (g i) w = (<[d := t1]> w, r)) by (unfold at_domain; by rewrite Hw, Eg).
  rewrite !Ei. cbn [fst].
  assert (H1 : <[d := t1]> w !! d = Some t1) by apply lookup_insert_eq.
  destruct (default Delivered (head script)).
  - destruct r as [r|[ty|e]]; [done..|]. destruct (left =? 0)%nat; [done|].
    rewrite (IH _ _ _ _ H1). destruct (attempts g left _ _ t1). by rewrite insert_insert_eq.
  - by apply IH.
  - rewrite (IH _ _ _ _ H1). destruct (attempts g left _ _ t1). by rewrite insert_insert_eq.
Qed.

Section expiry.
Context (script : Domain -> list delivery) (env : Domain -> nat -> run_env).

Notation activity := (expire_activity worker_expirers script env).
Definition default_expirer (d : Domain) : Expirer := mkExpirer d day_old 10000.

(** What the attempts for domain [d] make of its table. *)
Definition expire_domain (d : Domain) : act table ExpireDomainResult :=
  ExecuteActivity (fun j => expire_table (default_expirer d) (env d j)) (script d).

Lemma worker_expirer d : d ∈ expiry_domains -> Domain_Valid d = true /\ worker_expirers !! d = Some (Some (default_expirer d)).
Proof.
  unfold expiry_domains. rewrite !elem_of_cons, elem_of_nil. intros Hd.
  destruct_or! Hd; subst; split; vm_compute; reflexivity.
Qed.

Lemma expire_activity_local d w t : d ∈ expiry_domains -> w !! d = Some t ->
  activity d w = let '(t', r) := expire_domain d t in (<[d := t']> w, r).
Proof.
  intros Hd Hw. apply worker_expirer in Hd as [Hv He]. unfold expire_activity, Execute. rewrite Hv, He. cbn [negb].
  unfold ExecuteActivity. by apply attempts_at_domain.
Qed.

(** The fan-out leaves in each table and each future what the domain's own
    attempts make of it, in whatever order the activities run. *)
Lemma fan_out_spec order w fs : NoDup order -> order ⊆ expiry_domains -> (forall d, d ∈ order -> is_Some (w !! d)) ->
  forall w' fs', fan_out worker_expirers script env order w fs = (w', fs') ->
  (forall d, d ∉ order -> w' !! d = w !! d /\ fs' !! d = fs !! d) /\
  (forall d t, d ∈ order -> w !! d = Some t -> w' !! d = Some (expire_domain d t).1 /\ fs' !! d = Some (expire_domain d t).2).
Proof.
  revert w fs. induction order as [|d order IH]; intros w fs Hn Hs Hw; [intros ? ? [= <- <-]; split; [done|set_solver]|].
  apply NoDup_cons in Hn as [Hd Hn]. destruct (Hw d) as [t Ht]; [set_solver|].
  cbn [fan_out]. rewrite (expire_activity_local d w t) by (set_solver || done).
  destruct (expire_domain d t) as [t' r] eqn:E.
  assert (Hother : forall d', d' <> d -> <[d := t']> w !! d' = w !! d') by (intros; by rewrite lookup_insert_ne).
  assert (Hf : forall d', d' <> d -> <[d := r]> fs !! d' = fs !! d') by (intros; by rewrite lookup_insert_ne).
  specialize (IH (<[d := t']> w) (<[d := r]> fs) Hn). 
  intros w' fs' HF. destruct (fun A B => IH A B w' fs' HF) as [I1 I2]; [set_solver| |].
  { intros d' Hd'. rewrite Hother by (intros ->; done). apply Hw. set_solver. }
  split.
  - intros d' [Hne Hd']%not_elem_of_cons. destruct (I1 d' Hd') as [-> ->]. auto.
  - intros d' u [->|Hd']%elem_of_cons Hu.
    + assert (u = t) as -> by congruence. rewrite E. destruct (I1 d Hd) as [-> ->]. by rewrite !lookup_insert_eq.
    + apply I2; [done|]. rewrite Hother; [done|]. by intros ->.
Qed.

(** ** Only stale rows go *)

(** Some rows of [t] are gone, each processed longer ago than the TTL when one
    of the batches ran. *)
Definition stale_gone (batch : time -> Prop) (t t' : table) : Prop :=
  t' `sublist_of` t /\
  forall s, s ∈ t -> s ∉ t' -> exists p now, processed_at s = Some p /\ batch now /\ p < now - day_old.

Lemma stale_gone_trans B t1 t2 t3 : stale_gone B t1 t2 -> stale_gone B t2 t3 -> stale_gone B t1 t3.
Proof.
  intros [H1 S1] [H2 S2]. split; [by etransitivity|]. intros s Hs Hn. destruct (decide (s ∈ t2)); auto.
Qed.

Lemma stale_gone_unique B t t' : stale_gone B t t' -> ids_unique (the_row <$> t) -> ids_unique (the_row <$> t').
Proof. intros [H _]. apply ids_unique_sublist. by apply fmap_sublist. Qed.

Lemma expireBatch_stale e now (B : time -> Prop) t : exp_ttl e = day_old -> B now -> ids_unique (the_row <$> t) ->
  stale_gone B t (expireBatch e now t).2.
Proof.
  intros Httl HB Hu. split; [apply sublist_filter|]. intros s Hs Hn.
  assert (Hv : row_ID (the_row s) ∈ victims e now t).
  { destruct (decide (row_ID (the_row s) ∈ victims e now t)); [done|]. destruct Hn. by apply list_elem_of_filter. }
  apply elem_of_victims in Hv as (s' & Hs' & Hid & Hx). assert (s = s') as <- by (by eapply stored_unique).
  unfold is_expired in Hx. destruct (processed_at s) as [p|]; [|done]. exists p, now. rewrite Httl in Hx. reflect_bools. auto.
Qed.

Lemma Expire_stale fuel i e now ok (B : time -> Prop) total t :
  exp_ttl e = day_old -> (forall i, B (now i)) -> ids_unique (the_row <$> t) ->
  stale_gone B t (Expire_loop fuel i e now ok total t).2.
Proof.
  intros Httl HB. assert (Hrefl : forall t, stale_gone B t t) by (intros u; split; [done|]; intros s ? Hn; by destruct Hn).
  revert i total t. induction fuel as [|fuel IH]; intros i total t Hu; [apply Hrefl|].
  cbn [Expire_loop]. destruct (ok i); cbn [negb]; [|apply Hrefl].
  pose proof (expireBatch_stale e (now i) B t Httl (HB i) Hu) as Hb.
  destruct (expireBatch e (now i) t) as [n t']. cbn [snd] in Hb. destruct (n <? exp_batchSize e); [done|].
  eapply stale_gone_trans; [exact Hb|]. apply IH. by eapply stale_gone_unique.
Qed.

(** The instants at which batches for [d] run. *)
Definition batches (d : Domain) (now : time) : Prop := exists j i, now = batch_at (env d j) i.

Lemma expire_table_effect d j t : ids_unique (the_row <$> t) ->
  stale_gone (batches d) t (expire_table (default_expirer d) (env d j) t).1 /\
  forall r, (expire_table (default_expirer d) (env d j) t).2 = Ok r ->
    er_Domain r = d /\ RowsDeleted r = Z.of_nat (length t) - Z.of_nat (length (expire_table (default_expirer d) (env d j) t).1).
Proof.
  intros Hu. unfold expire_table.
  pose proof (Expire_stale (S (length t)) 0 (default_expirer d) (batch_at (env d j)) (batch_ok (env d j)) (batches d) 0 t
    eq_refl ltac:(intros i; by exists j, i) Hu) as Hs.
  destruct (Expire_loop_spec (S (length t)) 0 (default_expirer d) (batch_at (env d j)) (batch_ok (env d j)) 0 t)
    as (n & Hn & Hd & _ & _); [by vm_compute|lia|done|]. fold (Expire (default_expirer d) (batch_at (env d j)) (batch_ok (env d j)) t) in *.
  destruct (Expire _ _ _ t) as [[m|m|] t']; cbn [fst snd] in *; (split; [done|]); [|done..].
  intros r [= <-]. cbn in Hn |- *. split; [done|]. injection Hn as ->. lia.
Qed.

Lemma expire_domain_effect d t : ids_unique (the_row <$> t) ->
  stale_gone (batches d) t (expire_domain d t).1 /\
  forall r, (expire_domain d t).2 = Ok r ->
    er_Domain r = d /\ RowsDeleted r <= Z.of_nat (length t) - Z.of_nat (length (expire_domain d t).1).
Proof.
  intros Hu. set (P u := stale_gone (batches d) t u).
  assert (Hrefl : P t) by (split; [done|]; intros s ? Hn; by destruct Hn).
  assert (HP : forall j, preserves P (expire_table (default_expirer d) (env d j))).
  { intros j u Hp. eapply stale_gone_trans; [exact Hp|]. apply expire_table_effect. by eapply stale_gone_unique. }
  split; [by apply (ExecuteActivity_preserves _ P)|]. intros r Hr.
  destruct (expire_domain d t) as [t' r'] eqn:E. cbn [fst snd] in *. subst r'.
  apply (ExecuteActivity_ok _ P) in E as (j & u & Hp & E); [|done|done].
  destruct (expire_table_effect d j u) as [_ Hn]; [by eapply stale_gone_unique|]. rewrite E in Hn.
  destruct (Hn r eq_refl) as [Hd Hrow]. cbn [fst] in Hrow. split; [done|]. pose proof (sublist_length _ _ (proj1 Hp)). lia.
Qed.

(** ** The totals *)

Lemma collect_spec ds (fs : gmap Domain (result failure ExpireDomainResult)) tot :
  collect ds fs tot =
    mkTotals (PerDomain tot ++ omap (fun d => match fs !! d with Some (Ok r) => Some r | _ => None end) ds)
             (Errors tot ++ omap (fun d => match default (Err Timeout) (fs !! d) with Ok _ => None | Err e => Some (d, e) end) ds).
Proof.
  revert tot. induction ds as [|d ds IH]; intros [p e]; cbn [collect]; [by rewrite !app_nil_r|]. rewrite IH. cbn [omap list_omap].
  destruct (fs !! d) as [[r|er]|]; cbn [default from_option id PerDomain Errors]; by rewrite <- ?app_assoc.
Qed.

(** C38: whatever attempts are lost, whatever statements fail and in whatever
    order the five activities run: the workflow touches no other table; from
    the five it removes only rows published more than a day before one of its
    batches; no domain reports more rows than are gone; and the workflow
    succeeds exactly when all five domains report, in the order of the
    source. *)
Theorem expiry_removes_only_stale_rows order w w' totals failed :
  order ≡ₚ expiry_domains -> (forall d, d ∈ expiry_domains -> exists t, w !! d = Some t /\ ids_unique (the_row <$> t)) ->
  ExpireOutboxesWorkflow worker_expirers script env order w = (w', (totals, failed)) ->
  (forall d, d ∉ expiry_domains -> w' !! d = w !! d) /\
  (forall d t, d ∈ expiry_domains -> w !! d = Some t -> exists t', w' !! d = Some t' /\ stale_gone (batches d) t t') /\
  (forall r, r ∈ PerDomain totals -> er_Domain r ∈ expiry_domains /\ exists t t', w !! er_Domain r = Some t /\ w' !! er_Domain r = Some t' /\
     RowsDeleted r <= Z.of_nat (length t) - Z.of_nat (length t')) /\
  (failed = false <-> er_Domain <$> PerDomain totals = expiry_domains).
Proof.
  intros Ho Hw. unfold ExpireOutboxesWorkflow. destruct (fan_out _ _ _ order w ∅) as [w1 fs] eqn:EF.
  assert (Hmem : forall d, d ∈ order <-> d ∈ expiry_domains) by (intros; by rewrite Ho).
  assert (Hnd : NoDup expiry_domains) by (apply (bool_decide_unpack _); by vm_compute).
  destruct (fan_out_spec order w ∅ ltac:(by rewrite Ho) ltac:(intros d; apply Hmem)
    ltac:(intros d [t [Ht _]]%Hmem%Hw; by rewrite Ht) w1 fs EF) as [F1 F2].
  cbv zeta. rewrite collect_spec. intros [<- [<- <-]%pair_equal_spec]%pair_equal_spec. cbn [PerDomain Errors app]. split_and!.
  - intros d Hd. apply F1. by rewrite Hmem.
  - intros d t Hd Ht. destruct (F2 d t ltac:(by apply Hmem) Ht) as [-> _]. eexists. split; [done|].
    destruct (Hw d Hd) as (t' & Ht' & Hu). simplify_eq. by apply expire_domain_effect.
  - intros r (d & Hd & Hr)%list_elem_of_omap. destruct (Hw d Hd) as (t & Ht & Hu).
    destruct (F2 d t ltac:(by apply Hmem) Ht) as [E1 E2]. rewrite E2 in Hr.
    destruct (expire_domain_effect d t Hu) as [_ Hn]. destruct (expire_domain d t).2 as [r'|]; [|done].
    injection Hr as <-. destruct (Hn r' eq_refl) as [<- Hle]. split; [done|]. eauto.
  - rewrite negb_false_iff, bool_decide_eq_true.
    assert (Hfs : forall d, d ∈ expiry_domains -> exists r, fs !! d = Some r /\ forall x, r = Ok x -> er_Domain x = d).
    { intros d Hd. destruct (Hw d Hd) as (t & Ht & Hu). destruct (F2 d t ltac:(by apply Hmem) Ht) as [_ ->].
      eexists. split; [done|]. intros x Hx. by apply (proj2 (expire_domain_effect d t Hu)). }
    revert Hfs Hnd. clear. generalize expiry_domains as ds. intros ds Hfs Hnd.
    induction ds as [|d ds IH]; [done|]. cbn [omap list_omap].
    destruct (Hfs d) as (r & -> & Hr); [set_solver|]. cbn [default from_option id].
    apply NoDup_cons in Hnd as [Hd Hnd]. specialize (IH ltac:(set_solver) Hnd). destruct r as [x|e].
    + cbn [fmap list_fmap]. rewrite (Hr x eq_refl). rewrite IH. split; [by intros ->|by intros [= ?]].
    + split; [done|]. intros E. exfalso. apply Hd.
      assert (Hin : d ∈ er_Domain <$> omap (fun d => match fs !! d with Some (Ok r) => Some r | _ => None end) ds) by (rewrite E; set_solver).
      apply list_elem_of_fmap in Hin as (x & -> & (d' & Hd' & Hx)%list_elem_of_omap).
      destruct (Hfs d') as (r & Er & Hr'); [set_solver|]. rewrite Er in Hx. destruct r; [|done]. injection Hx as ->. by rewrite (Hr' x eq_refl).
Qed.
End expiry.

(** With every statement executed and nothing lost, each outbox is left with
    exactly the rows that are not a day past their publication, and the
    workflow succeeds. *)
Theorem expiry_complete now env order w w' totals failed :
  (forall d, exists s f, env d 0%nat = mkRunEnv (fun _ => now d) (fun _ => true) s f) ->
  order ≡ₚ expiry_domains -> (forall d, d ∈ expiry_domains -> exists t, w !! d = Some t /\ ids_unique (the_row <$> t)) ->
  ExpireOutboxesWorkflow worker_expirers (fun _ => []) env order w = (w', (totals, failed)) ->
  failed = false /\
  forall d t, d ∈ expiry_domains -> w !! d = Some t -> w' !! d = Some (fresh_rows day_old (now d) t).
Proof.
  intros He Ho Hw. unfold ExpireOutboxesWorkflow. destruct (fan_out _ _ _ order w ∅) as [w1 fs] eqn:EF.
  assert (Hmem : forall d, d ∈ order <-> d ∈ expiry_domains) by (intros; by rewrite Ho).
  destruct (fan_out_spec (fun _ => []) env order w ∅ ltac:(rewrite Ho; apply (bool_decide_unpack _); by vm_compute)
    ltac:(intros d; apply Hmem) ltac:(intros d [t [Ht _]]%Hmem%Hw; by rewrite Ht) w1 fs EF) as [_ F2].
  assert (Hd : forall d t, d ∈ expiry_domains -> w !! d = Some t ->
    exists r, expire_domain (fun _ => []) env d t = (fresh_rows day_old (now d) t, Ok r)).
  { intros d t Hd Ht. destruct (Hw d Hd) as (u & Hu0 & Hu). rewrite Ht in Hu0. injection Hu0 as <-. destruct (He d) as (s & f & E).
    assert (Hn : NewExpirer d 0 0 = Some (default_expirer d)).
    { apply worker_expirer in Hd as [Hv _]. unfold NewExpirer. by rewrite Hv. }
    destruct (Expire_complete d 0 0 _ (now d) t Hn Hu) as [n En]. eexists. unfold expire_domain.
    apply ExecuteActivity_first. unfold expire_table. rewrite E. cbn [batch_at batch_ok]. by rewrite En. }
  cbv zeta. rewrite collect_spec. intros [<- [_ <-]%pair_equal_spec]%pair_equal_spec. cbn [Errors app]. split.
  - apply negb_false_iff, bool_decide_eq_true.
    assert (Hok : forall d, d ∈ expiry_domains -> exists r, fs !! d = Some (Ok r)).
    { intros d Hd'. destruct (Hw d Hd') as (t & Ht & _). destruct (Hd d t Hd' Ht) as [r E]. exists r.
      destruct (F2 d t ltac:(by apply Hmem) Ht) as [_ ->]. by rewrite E. }
    revert Hok. clear. generalize expiry_domains as ds. intros ds Hok. induction ds as [|d ds IH]; [done|].
    cbn [omap list_omap]. destruct (Hok d) as [r ->]; [set_solver|]. cbn [default from_option id]. apply IH. set_solver.
  - intros d t Hd' Ht. destruct (Hd d t Hd' Ht) as [r E]. destruct (F2 d t ltac:(by apply Hmem) Ht) as [-> _]. by rewrite E.
Qed.

(** ** Witnesses *)

Lemma every_domain_is_drained_witness :
  exists cs, StartAll (fun _ => "") AllDomains = Ok cs /\
    (forall d, Domain_Valid d = true -> exists c, c ∈ cs /\ cfg_Domain c = d /\ Some (cfg_Table c) = OutboxTable d) /\
    NoDup (cfg_Topic <$> cs) /\ NoDup (cfg_Table <$> cs) /\ Forall (fun c => ticker_panics c = false) cs.
Proof. by apply every_domain_is_drained. Defined.

(** Two rows of the identity outbox, one published three days ago; the git
    outbox holds a published row as old. *)
Definition published_row (id : Z) (at_ : time) : stored := mkStored (mkRow id id "agg" id "evt" "{}" 0) (Some at_).
Definition three_days : time := 72 * Hour.
Definition full_outboxes : outboxes :=
  <[DomainGit := [published_row 1 0]]> (<[DomainIdentity := [published_row 1 0; published_row 2 (60 * Hour)]]>
    (list_to_map ((fun d => (d, [])) <$> expiry_domains))).
Definition noon_env (d : Domain) (attempt : nat) : run_env :=
  mkRunEnv (fun _ => three_days) (fun _ => negb (attempt =? 0)%nat) three_days (three_days + Millisecond).
Definition expired_outboxes := ExpireOutboxesWorkflow worker_expirers (fun _ => [ResultLost]) noon_env expiry_domains full_outboxes.

Lemma expiry_removes_only_stale_rows_witness :
  expired_outboxes.1 !! DomainGit = full_outboxes !! DomainGit /\
  expired_outboxes.1 !! DomainIdentity = Some [published_row 2 (60 * Hour)] /\
  er_Domain <$> PerDomain expired_outboxes.2.1 = expiry_domains.
Proof.
  destruct (expiry_removes_only_stale_rows (fun _ => [ResultLost]) noon_env expiry_domains full_outboxes
    expired_outboxes.1 expired_outboxes.2.1 expired_outboxes.2.2) as (H1 & _ & _ & H4).
  - done.
  - intros d Hd. unfold expiry_domains in Hd. rewrite !elem_of_cons, elem_of_nil in Hd.
    destruct_or! Hd; subst; (eexists; split; [vm_compute; reflexivity|]);
      apply (bool_decide_unpack _); vm_compute; done.
  - vm_compute. reflexivity.
  - split_and!; [apply H1|vm_compute; reflexivity|apply H4; vm_compute; reflexivity].
    apply (bool_decide_unpack _); vm_compute; done.
Defined.

(** The row of the git outbox stays for ever: every run of the workflow leaves
    that table as it is. *)
Example git_outbox_never_expires : DomainGit ∉ expiry_domains /\ Domain_Valid DomainGit = true.
Proof. split; [apply (bool_decide_unpack _)|]; vm_compute; done. Qed.
