(* ===== verification/IssueHold.v ===== *)
(** * The hold on a noisy issue, and the canary

    [plane/workflow/issuehold]: the workflow that closes an issue when its
    hold runs out unless a maintainer released it first, over the interface of
    the application plane that closes it; the router of IssueNoise.v starts it
    and signals the release.  [plane/workflow/canary]: the health check of the worker. *)

From S2P Require Import Prelude GoStd Uuid Actions Temporal CacheStore IssueNoise.

(** ** The interface to the application plane *)

Record AutoCloseInput := mkAutoClose { ac_IssueID : uuid; ac_RepoID : uuid }.
Record AutoCloseResult := mkAutoClosed { acr_AutoClosed : bool; AlreadyClosed : bool }.

Class HeldIssueCloser (W : Type) := {
  issue_state : W -> gmap uuid IssueState;
  AutoCloseIfStillHeld : AutoCloseInput -> act W AutoCloseResult }.

Definition close_issue (id : uuid) (s : gmap uuid IssueState) : gmap uuid IssueState := <[id := IssueStateClosed]> s.

(** It reads the state and, if the issue is still held, closes it, in one
    transaction; it says which of the two it found.  A call that fails may
    have committed. *)
Class HeldIssueCloserLaws (W : Type) `{!HeldIssueCloser W} := {
  closer_ok i w w' r : AutoCloseIfStillHeld i w = (w', Ok r) ->
    if decide (issue_state w !! ac_IssueID i = Some IssueStateHeld)
    then issue_state w' = close_issue (ac_IssueID i) (issue_state w) /\ r = mkAutoClosed true false
    else issue_state w' = issue_state w /\ r = mkAutoClosed false true;
  closer_err i w w' e : AutoCloseIfStillHeld i w = (w', Err e) ->
    issue_state w' = issue_state w \/
    issue_state w !! ac_IssueID i = Some IssueStateHeld /\ issue_state w' = close_issue (ac_IssueID i) (issue_state w) }.

(** ** The activity and the workflow *)

Section hold.
Context {W : Type} `{!HeldIssueCloser W}.

Definition ErrNoCloser : failure := Failed "issuehold: nil HeldIssueCloser".

(** [Execute]; [present] is whether the closer was given. *)
Definition AutoCloseActivity_Execute (present : bool) (i : AutoCloseInput) : act W AutoCloseResult :=
  if negb present then throw ErrNoCloser else AutoCloseIfStillHeld i.

(** What the workflow finds each time it is woken: the timer's outcome, if it
    has one, and whether a release signal has arrived. *)
Inductive timer_outcome := Fired | TimerCanceled.
Record wakeup := mkWakeup { timer : option timer_outcome; signalled : bool }.

Inductive selected := SelTimer (o : timer_outcome) | SelRelease.

(** [sel.Select]: the first case that is ready, in the order they were added;
    the workflow sleeps while none is. *)
Fixpoint select (ws : list wakeup) : option selected :=
  match ws with
  | [] => None
  | w :: ws' =>
      match timer w with
      | Some o => Some (SelTimer o)
      | None => if signalled w then Some SelRelease else select ws'
      end
  end.

Record HoldResult := mkHoldResult { hr_AutoClosed : bool }.

(** [None]: still waiting. *)
Definition IssueHoldExpiryWorkflow (present : bool) (script : list delivery) (ws : list wakeup) (p : HoldExpiryParams)
    : W -> W * option (result failure HoldResult) := fun w =>
  match select ws with
  | None => (w, None)
  | Some SelRelease => (w, Some (Ok (mkHoldResult false)))
  | Some (SelTimer TimerCanceled) => (w, Some (Err (Failed "canceled")))
  | Some (SelTimer Fired) =>
      match ExecuteActivity (fun _ => AutoCloseActivity_Execute present (mkAutoClose (hp_IssueID p) (hp_RepoID p))) script w with
      | (w', Ok r) => (w', Some (Ok (mkHoldResult (acr_AutoClosed r))))
      | (w', Err e) => (w', Some (Err e))
      end
  end.
End hold.

Definition hold_WorkflowID (id : uuid) : string := "issue-hold-" +:+ uuid_String id.

(** ** What a hold can do to an issue *)

Section safety.
Context {W : Type} `{!HeldIssueCloser W, !HeldIssueCloserLaws W}.

(** Nothing has changed, or this issue was held and is closed. *)
Definition closed_only_held (id : uuid) (s s' : gmap uuid IssueState) : Prop :=
  s' = s \/ s !! id = Some IssueStateHeld /\ s' = close_issue id s.

Lemma closed_only_held_trans id s1 s2 s3 : closed_only_held id s1 s2 -> closed_only_held id s2 s3 -> closed_only_held id s1 s3.
Proof.
  intros [->|[H1 ->]]; [done|]. intros [->|[H2 ->]]; [by right|].
  unfold close_issue in H2. by rewrite lookup_insert_eq in H2.
Qed.

Lemma Execute_effect present i w w' r : AutoCloseActivity_Execute present i w = (w', r) ->
  closed_only_held (ac_IssueID i) (issue_state w) (issue_state w') /\
  forall x, r = Ok x -> issue_state w' !! ac_IssueID i <> Some IssueStateHeld /\
    (acr_AutoClosed x = true <-> issue_state w !! ac_IssueID i = Some IssueStateHeld).
Proof.
  unfold AutoCloseActivity_Execute. destruct present; cbn [negb]; [|intros [= <- <-]; split; [by left|done]].
  destruct (AutoCloseIfStillHeld i w) as [w1 [x|e]] eqn:E; intros [= <- <-].
  - apply closer_ok in E. case_decide as Hd; destruct E as [-> ->].
    + split; [by right|]. intros x [= <-]. split; [unfold close_issue; by rewrite lookup_insert_eq|done].
    + split; [by left|]. intros x [= <-]. done.
  - split; [|done]. by apply closer_err in E.
Qed.

(** a hold workflow changes at most its own issue, and that only from
    held to closed and only when its timer fired before it saw a release; an
    issue that is no longer held is left alone; a workflow that reports a close
    made it, and one whose activity reports leaves the issue no longer held. *)
Theorem hold_closes_only_what_is_held present script ws p w w' r :
  IssueHoldExpiryWorkflow present script ws p w = (w', r) ->
  closed_only_held (hp_IssueID p) (issue_state w) (issue_state w') /\
  (select ws <> Some (SelTimer Fired) -> w' = w) /\
  (forall x, r = Some (Ok x) -> select ws = Some (SelTimer Fired) ->
     issue_state w' !! hp_IssueID p <> Some IssueStateHeld /\
     (hr_AutoClosed x = true -> issue_state w !! hp_IssueID p = Some IssueStateHeld /\
        issue_state w' = close_issue (hp_IssueID p) (issue_state w))).
Proof.
  unfold IssueHoldExpiryWorkflow. destruct (select ws) as [[[]|]|]; [|by intros [= <- <-]; split; [by left|]..].
  set (i := mkAutoClose (hp_IssueID p) (hp_RepoID p)). set (P u := closed_only_held (hp_IssueID p) (issue_state w) (issue_state u)).
  assert (HP : forall j : nat, preserves P (AutoCloseActivity_Execute present i)).
  { intros _ u Hu. destruct (AutoCloseActivity_Execute present i u) as [u' r'] eqn:E.
    apply Execute_effect in E as [E _]. eapply closed_only_held_trans; [exact Hu|exact E]. }
  destruct (ExecuteActivity _ script w) as [u [x|e]] eqn:E; intros [= <- <-].
  - split; [|split; [done|]].
    { change u with ((u, Ok x : result failure AutoCloseResult).1). rewrite <- E.
      apply (ExecuteActivity_preserves _ P); [done|by left]. }
    intros y [= <-] _. cbn [hr_AutoClosed].
    apply (ExecuteActivity_ok _ P) in E as (_ & u0 & Hu0 & E); [|done|by left].
    apply Execute_effect in E as [E1 E2]. destruct (E2 x eq_refl) as [Hn Hc]. split; [done|]. intros Ha. apply Hc in Ha.
    cbn [ac_IssueID i] in *. destruct Hu0 as [Hu0|[Hh Hu0]].
    + rewrite Hu0 in *. split; [done|]. destruct E1 as [E1|[_ E1]]; [|done]. rewrite E1 in Hn. done.
    + rewrite Hu0 in Ha. unfold close_issue in Ha. by rewrite lookup_insert_eq in Ha.
  - split; [|done]. change u with ((u, Err e : result failure AutoCloseResult).1). rewrite <- E.
    apply (ExecuteActivity_preserves _ P); [done|by left].
Qed.
End safety.

(** ** The issues of the router *)

(** A closer over the store of the router, with the fates of its calls. *)
Record issues := mkIssues { issue_rows : gmap uuid IssueState; closer_fates : list delivery }.

#[export] Instance issues_closer : HeldIssueCloser issues := {
  issue_state := issue_rows;
  AutoCloseIfStillHeld i w :=
    let rest := tail (closer_fates w) in
    let held := bool_decide (issue_rows w !! ac_IssueID i = Some IssueStateHeld) in
    let rows := if held then close_issue (ac_IssueID i) (issue_rows w) else issue_rows w in
    match default Delivered (head (closer_fates w)) with
    | NotRun => (mkIssues (issue_rows w) rest, Err (Failed "unavailable"))
    | ResultLost => (mkIssues rows rest, Err (Failed "unavailable"))
    | Delivered => (mkIssues rows rest, Ok (mkAutoClosed held (negb held)))
    end }.

#[export] Instance issues_closer_laws : HeldIssueCloserLaws issues.
Proof.
  split.
  - intros i [s f] w' r. cbn. destruct (default Delivered (head f)); [|done..]. intros [= <- <-]. cbn [issue_rows].
    case_decide; [rewrite bool_decide_true by done|rewrite bool_decide_false by done]; done.
  - intros i [s f] w' e. cbn. destruct (default Delivered (head f)); intros [= <- <-]; cbn [issue_rows]; [by left|].
    case_bool_decide; [by right|by left].
Qed.

Definition held_issue : issues := mkIssues {[7 := IssueStateHeld]} [ResultLost].
Definition hold_params : HoldExpiryParams := mkHold (7) (1) (14 * 24 * Hour).
Definition quiet_then_expired : list wakeup := [mkWakeup None false; mkWakeup (Some Fired) false].

(** The reply of the first attempt is lost: the issue is closed by this
    workflow, whose result says that it was not. *)
Example lost_reply_hides_the_close :
  let '(w', r) := IssueHoldExpiryWorkflow true [] quiet_then_expired hold_params held_issue in
  issue_state w' !! 7 = Some IssueStateClosed /\ r = Some (Ok (mkHoldResult false)).
Proof. vm_compute. auto. Qed.

(** A release that arrives before the timer but is read together with it
    loses; the activity then finds the issue open. *)
Example release_read_with_the_timer : select [mkWakeup (Some Fired) true] = Some (SelTimer Fired).
Proof. reflexivity. Qed.

(** ** The canary *)

Section canary.
Context {S : Type} `{!CacheStore S}.

Definition HealthKey : string := "workflow:health".
Definition ErrCacheMiss : failure := Failed "canary: workflow:health key absent in cache".

Definition HealthActivity_Run (now : time) : act S string := fun c =>
  match Get now HealthKey c with
  | (Ok v, c') => (c', Ok v)
  | (Err ErrNotFound, c') => (c', Err ErrCacheMiss)
  end.

(** Attempt [j] reads the clock [now j]. *)
Definition CanaryWorkflow (now : nat -> time) (script : list delivery) : act S string :=
  ExecuteActivity (fun j => HealthActivity_Run (now j)) script.
End canary.

(** Over the in-memory cache the canary reports the value another process has
    stored while it has not expired, and its absence otherwise. *)
Lemma canary_reports_health now m : 
  (forall e, entries m !! HealthKey = Some e -> expired (now 0%nat) e = false ->
     CanaryWorkflow now [] m = (m, Ok (value e))) /\
  (entries m !! HealthKey = None -> exists m', CanaryWorkflow now [] m = (m', Err ErrCacheMiss)).
Proof.
  split.
  - intros e He Hx. apply ExecuteActivity_first. unfold HealthActivity_Run. cbn. unfold MemoryStore_Get. by rewrite He, Hx.
  - intros He. unfold CanaryWorkflow, ExecuteActivity.
    assert (Hm : delete HealthKey (entries m) = entries m) by (by apply delete_id).
    assert (Hr : forall j, HealthActivity_Run (now j) m = (m, Err ErrCacheMiss)).
    { intros j. unfold HealthActivity_Run. cbn. unfold MemoryStore_Get. rewrite He, Hm. by destruct m. }
    exists m. cbn [attempts MaximumAttempts DefaultRetryPolicy head tail default from_option id].
    by rewrite !Hr.
Qed.

Lemma hold_closes_only_what_is_held_witness :
  let w' := (IssueHoldExpiryWorkflow true [NotRun] quiet_then_expired hold_params (mkIssues {[7 := IssueStateHeld]} [])).1 in
  issue_state w' = close_issue 7 {[7 := IssueStateHeld]} /\ issue_state w' !! 7 <> Some IssueStateHeld.
Proof.
  destruct (hold_closes_only_what_is_held true [NotRun] quiet_then_expired hold_params (mkIssues {[7 := IssueStateHeld]} [])
    _ _ (surjective_pairing _)) as (_ & _ & H).
  destruct (H (mkHoldResult true)) as [H1 H2]; [vm_compute; reflexivity..|].
  split; [by apply H2|exact H1].
Defined.
