(* ===== verification/IdentityRpc.v ===== *)
(** * The identity service behind gRPC

    The workflow plane's client of the identity service:
    [plane/workflow/appclient/identity.go] (the interface, its views and the
    stub) and identity_grpc.go, over the server of Identity.v, whatever service it wraps,
    and a connection that may lose a call or its answer; cmd/identity-service
    gives the server the service of PgIdentity.v.  [uuid.Parse] is the argument
    [Parse]. *)

From S2P Require Import Prelude GoStd GoFmt Sha256 Json Uuid Floats Outbox Actions Grpc MetadataStore Identity PgStore PgIdentity.

#[local] Arguments uuid_String : simpl never.

(** ** The interface *)

Record UserView := mkUserView { uv_ID : uuid; uv_Email : string; uv_RateBucket : string; uv_Disabled : bool }.
Record AgentView := mkAgentView {
  av_ID : uuid; av_DisplayName : string; av_ParentUserID : uuid; av_PermissionScope : list string;
  av_RateBucket : string; av_ReputationScore : float; av_Revoked : bool }.

Inductive client_error := ErrClientNotImplemented | ErrConnection | ErrStatus (c : code) | ErrParse (what : string).

Class IdentityClient (C : Type) := {
  client_GetUser : uuid -> C -> C * result client_error (option UserView);
  client_GetAgent : uuid -> C -> C * result client_error (option AgentView);
  client_DisableUser : uuid -> string -> C -> C * result client_error unit;
  client_RevokeAgent : uuid -> string -> C -> C * result client_error unit;
  client_UpdateAgentPermissions : uuid -> list string -> C -> C * result client_error unit;
  client_AddOrgMember : uuid -> uuid -> string -> C -> C * result client_error unit;
  client_RemoveOrgMember : uuid -> uuid -> C -> C * result client_error unit }.

(** [NewStubIdentityClient]. *)
Definition not_implemented {A} (c : unit) : unit * result client_error A := (c, Err ErrClientNotImplemented).
#[export] Instance stubIdentityClient : IdentityClient unit := {
  client_GetUser _ := not_implemented;
  client_GetAgent _ := not_implemented;
  client_DisableUser _ _ := not_implemented;
  client_RevokeAgent _ _ := not_implemented;
  client_UpdateAgentPermissions _ _ := not_implemented;
  client_AddOrgMember _ _ _ := not_implemented;
  client_RemoveOrgMember _ _ := not_implemented }.

(** ** The gRPC client *)

Section client.
Context (Parse : string -> option uuid).

Definition userViewFromProto (m : UserMessage) : result client_error UserView :=
  match Parse (hm_Id m) with
  | None => Err (ErrParse "user id")
  | Some id => Ok (mkUserView id (hm_Email m) (hm_RateBucket m) (hm_Disabled m))
  end.
Definition agentViewFromProto (m : AgentMessage) : result client_error AgentView :=
  match Parse (am_Id m) with
  | None => Err (ErrParse "agent id")
  | Some id =>
      match Parse (am_ParentUserId m) with
      | None => Err (ErrParse "parent_user_id")
      | Some parent =>
          Ok (mkAgentView id (am_DisplayName m) parent (am_PermissionScope m) (am_RateBucket m)
                (am_ReputationScore m) (am_Revoked m))
      end
  end.

Context {S : Type}.

(** What becomes of a call: lost on the way, or run by a service (which says
    what its transactions meet), the answer possibly lost. *)
Inductive rpc_fate := LostCall | RunCall (svc : IdentityService S) (reply_lost : bool).

Record id_connection := mkIdConnection { id_srv : S; fates : nat -> rpc_fate }.

Definition id_rpc {A} (h : IdentityService S -> action code S A) : id_connection -> id_connection * result client_error A := fun c =>
  let next s := mkIdConnection s (fun n => fates c (Nat.succ n)) in
  match fates c 0%nat with
  | LostCall => (next (id_srv c), Err ErrConnection)
  | RunCall svc reply_lost =>
      let '(s', r) := h svc (id_srv c) in
      (next s', if reply_lost : bool then Err ErrConnection else match r with Ok a => Ok a | Err e => Err (ErrStatus e) end)
  end.

(** The views of an answer; an answer without the row is no error. *)
Definition view_of {M V} (f : M -> result client_error V) (r : result client_error (option M)) : result client_error (option V) :=
  match r with
  | Err e => Err e
  | Ok None => Ok None
  | Ok (Some m) => match f m with Ok v => Ok (Some v) | Err e => Err e end
  end.

Definition grpcClient_GetUser (id : uuid) (c : id_connection) : id_connection * result client_error (option UserView) :=
  let '(c', r) := id_rpc (fun svc => grpc_GetUser Parse (uuid_String id)) c in (c', view_of userViewFromProto r).
Definition grpcClient_GetAgent (id : uuid) (c : id_connection) : id_connection * result client_error (option AgentView) :=
  let '(c', r) := id_rpc (fun svc => grpc_GetAgent Parse (uuid_String id)) c in (c', view_of agentViewFromProto r).
Definition grpcClient_DisableUser (id : uuid) (reason : string) : id_connection -> id_connection * result client_error unit :=
  id_rpc (fun svc => grpc_DisableUser Parse (uuid_String id) reason).
Definition grpcClient_RevokeAgent (id : uuid) (reason : string) : id_connection -> id_connection * result client_error unit :=
  id_rpc (fun svc => grpc_RevokeAgent Parse (uuid_String id) reason).
Definition grpcClient_UpdateAgentPermissions (id : uuid) (scope : list string)
  : id_connection -> id_connection * result client_error unit :=
  id_rpc (fun svc => grpc_UpdateAgentPermissions Parse (uuid_String id) scope).
Definition grpcClient_AddOrgMember (orgID userID : uuid) (role : string) : id_connection -> id_connection * result client_error unit :=
  id_rpc (fun svc => grpc_AddOrgMember Parse (uuid_String orgID) (uuid_String userID) role).
Definition grpcClient_RemoveOrgMember (orgID userID : uuid) : id_connection -> id_connection * result client_error unit :=
  id_rpc (fun svc => grpc_RemoveOrgMember Parse (uuid_String orgID) (uuid_String userID)).

Definition grpcIdentityClient : IdentityClient id_connection := {|
  client_GetUser := grpcClient_GetUser;
  client_GetAgent := grpcClient_GetAgent;
  client_DisableUser := grpcClient_DisableUser;
  client_RevokeAgent := grpcClient_RevokeAgent;
  client_UpdateAgentPermissions := grpcClient_UpdateAgentPermissions;
  client_AddOrgMember := grpcClient_AddOrgMember;
  client_RemoveOrgMember := grpcClient_RemoveOrgMember |}.
End client.

(** ** A call of the client is at most one operation of the service *)

Inductive call :=
| CallDisableUser (id : uuid) (reason : string)
| CallRevokeAgent (id : uuid) (reason : string)
| CallUpdatePermissions (id : uuid) (scope : list string)
| CallAddOrgMember (org user : uuid) (role : string)
| CallRemoveOrgMember (org user : uuid).

Definition client_call {C} `{!IdentityClient C} (k : call) : C -> C * result client_error unit :=
  match k with
  | CallDisableUser id reason => client_DisableUser id reason
  | CallRevokeAgent id reason => client_RevokeAgent id reason
  | CallUpdatePermissions id scope => client_UpdateAgentPermissions id scope
  | CallAddOrgMember org user role => client_AddOrgMember org user role
  | CallRemoveOrgMember org user => client_RemoveOrgMember org user
  end.
Definition call_op (k : call) : op :=
  match k with
  | CallDisableUser id reason => OpDisableUser id reason
  | CallRevokeAgent id reason => OpRevokeAgent id reason
  | CallUpdatePermissions id scope => OpUpdatePermissions id scope
  | CallAddOrgMember org user role => OpAddOrgMember org user role
  | CallRemoveOrgMember org user => OpRemoveOrgMember org user
  end.
Definition call_ids (k : call) : list uuid :=
  match k with
  | CallDisableUser id _ | CallRevokeAgent id _ | CallUpdatePermissions id _ => [id]
  | CallAddOrgMember org user _ | CallRemoveOrgMember org user => [org; user]
  end.

Section refines.
Context (Parse : string -> option uuid) (Parse_String : forall u, uuid_ok u -> Parse (uuid_String u) = Some u).

#[local] Existing Instance grpcIdentityClient.
Notation grpc_call k := (@client_call _ (grpcIdentityClient Parse) k).

Lemma parse_id_ok {W} u (w : W) : uuid_ok u -> parse_id Parse (uuid_String u) w = (w, Ok u).
Proof. intros H. unfold parse_id. by rewrite Parse_String. Qed.

(** What a call asks of a service. *)
Definition svc_call {S} (svc : IdentityService S) (k : call) : action error S unit :=
  match k with
  | CallDisableUser id reason => svc_DisableUser id reason
  | CallRevokeAgent id reason => svc_RevokeAgent id reason
  | CallUpdatePermissions id scope => svc_UpdateAgentPermissions id scope
  | CallAddOrgMember org user role => svc_AddOrgMember org user role
  | CallRemoveOrgMember org user => svc_RemoveOrgMember org user
  end.

(** The handler of a call asks it once, of whatever service there is. *)
Lemma grpc_call_rpc {S} k : Forall uuid_ok (call_ids k) ->
  exists h, (forall c : @id_connection S, grpc_call k c = id_rpc h c) /\
    forall svc s, h svc s = with_status mapErr (svc_call svc k) s.
Proof.
  intros Hids. destruct k; cbn [call_ids] in Hids; repeat (apply Forall_cons in Hids as [? Hids]);
    eexists; (split; [intros c; reflexivity|]); intros svc s; cbv beta.
  - unfold grpc_DisableUser. by rewrite (bind_Ok _ _ _ _ _ (parse_id_ok id s ltac:(done))).
  - unfold grpc_RevokeAgent. by rewrite (bind_Ok _ _ _ _ _ (parse_id_ok id s ltac:(done))).
  - unfold grpc_UpdateAgentPermissions. by rewrite (bind_Ok _ _ _ _ _ (parse_id_ok id s ltac:(done))).
  - unfold grpc_AddOrgMember. rewrite (bind_Ok _ _ _ _ _ (parse_id_ok org s ltac:(done))).
    by rewrite (bind_Ok _ _ _ _ _ (parse_id_ok user s ltac:(done))).
  - unfold grpc_RemoveOrgMember. rewrite (bind_Ok _ _ _ _ _ (parse_id_ok org s ltac:(done))).
    by rewrite (bind_Ok _ _ _ _ _ (parse_id_ok user s ltac:(done))).
Qed.

Lemma grpc_call_served {S} k (c c' : @id_connection S) r svc lost : Forall uuid_ok (call_ids k) -> fates c 0%nat = RunCall svc lost ->
  grpc_call k c = (c', r) -> exists r', svc_call svc k (id_srv c) = (id_srv c', r') /\
    r = if lost : bool then Err ErrConnection else match r' with Ok _ => Ok tt | Err e => Err (ErrStatus (mapErr e)) end.
Proof.
  intros Hids Hf. destruct (grpc_call_rpc (S := S) k Hids) as (h & -> & Hh). unfold id_rpc. rewrite Hf, Hh. unfold with_status.
  destruct (svc_call svc k (id_srv c)) as [s' [[]|e]]; intros [= <- <-]; by eexists.
Qed.

Section views.
Context {S : Type} (c : @id_connection S) (svc : IdentityService S) (lost : bool) (Hfate : fates c 0%nat = RunCall svc lost).

(** A view shows the row the service answers with: its id, texts, scope and
    score; no row is no error.  The flags of a view are false whatever was
    disabled or revoked. *)
Theorem views_show_the_rows id : uuid_ok id ->
  (forall u, (svc_GetUser id (id_srv c)).2 = Ok (Some u) -> uuid_ok (u_ID u)) ->
  (forall a, (svc_GetAgent id (id_srv c)).2 = Ok (Some a) -> uuid_ok (a_ID a) /\ uuid_ok (a_ParentUserID a)) ->
  id_srv (grpcClient_GetUser Parse id c).1 = (svc_GetUser id (id_srv c)).1 /\
  id_srv (grpcClient_GetAgent Parse id c).1 = (svc_GetAgent id (id_srv c)).1 /\
  (forall v, (grpcClient_GetUser Parse id c).2 = Ok v -> exists u, (svc_GetUser id (id_srv c)).2 = Ok u /\
     v = (fun u => mkUserView (u_ID u) (u_Email u) (u_RateBucket u) false) <$> u) /\
  (forall v, (grpcClient_GetAgent Parse id c).2 = Ok v -> exists a, (svc_GetAgent id (id_srv c)).2 = Ok a /\
     v = (fun a => mkAgentView (a_ID a) (a_DisplayName a) (a_ParentUserID a) (a_PermissionScope a) (a_RateBucket a)
                     (a_ReputationScore a) false) <$> a).
Proof.
  intros Hid Hu Ha. unfold grpcClient_GetUser, grpcClient_GetAgent, id_rpc. rewrite Hfate.
  unfold grpc_GetUser, grpc_GetAgent. rewrite !(bind_Ok _ _ _ _ _ (parse_id_ok id (id_srv c) Hid)). unfold bind, with_status.
  split_and!.
  - by destruct (svc_GetUser id (id_srv c)) as [s1 [u|e1]].
  - by destruct (svc_GetAgent id (id_srv c)) as [s1 [a|e1]].
  - intros v. destruct (svc_GetUser id (id_srv c)) as [s1 [u|e1]]; destruct lost; try done. cbn [snd] in *.
    destruct u as [u|]; cbn [view_of ret fmap option_fmap option_map]; [|intros [= <-]; by exists None].
    unfold userViewFromProto. cbn [hm_Id userToProto]. rewrite Parse_String by auto. intros [= <-]. by exists (Some u).
  - intros v. destruct (svc_GetAgent id (id_srv c)) as [s1 [a|e1]]; destruct lost; try done. cbn [snd] in *.
    destruct a as [a|]; cbn [view_of ret fmap option_fmap option_map]; [|intros [= <-]; by exists None]. destruct (Ha a eq_refl) as [H1 H2].
    unfold agentViewFromProto. cbn [am_Id am_ParentUserId agentToProto]. rewrite !Parse_String by done. intros [= <-]. by exists (Some a).
Qed.
End views.

(** ** The service that the server wraps *)

Context {P : Type} {NU : Numeric} (pay : identity_payload -> P).

Lemma postgres_svc_call cancelled tries rc hash newID t1 t2 k :
  svc_call (postgres_service pay cancelled tries rc hash newID t1 t2) k = pgs_run pay cancelled tries (call_op k).
Proof. by destruct k. Qed.

(** C39: A call of the workflow plane's client is at most one change of the
    database, when the server wraps the service on PostgreSQL as
    identity-service does, and an error the service may retry never hides an
    applied commit.  Success means that the database has the rows and the one
    event of the operation.  A status means that it has neither, unless the
    answer to an applied commit was lost: then it has both, although the client
    is told of an error.  When the connection fails it has neither or both,
    once. *)
Theorem client_call_is_one_operation k (c c' : @id_connection (Db P)) r tries :
  Forall uuid_ok (call_ids k) -> honest_commits tries ->
  fates c 0%nat = LostCall \/ (exists cancelled rc hash newID t1 t2 lost,
    fates c 0%nat = RunCall (postgres_service pay cancelled tries rc hash newID t1 t2) lost) ->
  grpc_call k c = (c', r) ->
  match r with
  | Ok _ => exists i, (i < 3)%nat /\ db_done pay (call_op k) (tries i) (before tries i (id_srv c)) (id_srv c')
  | Err (ErrStatus status) => id_srv c' = id_srv c \/ exists i e, (i < 3)%nat /\ status = mapErr e /\
      (id_srv c' = before tries i (id_srv c) \/
       cn_commit (try_conn (tries i)) = Some (e, true) /\ db_done pay (call_op k) (tries i) (before tries i (id_srv c)) (id_srv c'))
  | Err ErrConnection => id_srv c' = id_srv c \/ exists i, (i < 3)%nat /\
      (id_srv c' = before tries i (id_srv c) \/ db_done pay (call_op k) (tries i) (before tries i (id_srv c)) (id_srv c'))
  | Err _ => False
  end.
Proof.
  intros Hids Hh [Hf|(cancelled & rc & hash & newID & t1 & t2 & lost & Hf)] H.
  { destruct (grpc_call_rpc (S := Db P) k Hids) as (h & Hk & _). rewrite Hk in H. unfold id_rpc in H. rewrite Hf in H. injection H as <- <-. by left. }
  destruct (grpc_call_served k c c' r (postgres_service pay cancelled tries rc hash newID t1 t2) lost Hids Hf H) as (r' & H0 & ->). clear H. rename H0 into H. rewrite postgres_svc_call in H.
  apply (pgs_run_ended pay) in H as [[E Hr]|(i & Hi & He)]; [| |done].
  - destruct lost; [by left|]. destruct r'; [done|by left].
  - destruct lost; [right; exists i; split; [done|]; destruct r'; [by right|destruct He as [?|[_ ?]]; [by left|by right]]|].
    destruct r' as [[]|e]; [by exists i|]. right. by exists i, e.
Qed.
End refines.

(** ** Concrete calls *)

Section samples.
#[local] Existing Instance some_range.
Notation pay := (fun p : identity_payload => p).

Definition one_user : Store identity_payload := do_op (OpCreateUser (fun c => Ok c) 1 0 0 "ann@example.com" "pw") 1 New.
(** The first answer is lost, the calls after it run undisturbed. *)
Definition calm_service (s : Store identity_payload) : IdentityService (Store identity_payload) :=
  memory_service pay never (alone s 5 6 7) (fun c => Ok c) 0 0 0.
Definition flaky (s : Store identity_payload) : id_connection := mkIdConnection s (fun n => RunCall (calm_service s) (n =? 0)%nat).
Definition after_retry : id_connection * result client_error unit :=
  let '(c, _) := grpcClient_DisableUser canonical_Parse 1 "abuse" (flaky one_user) in
  grpcClient_DisableUser canonical_Parse 1 "abuse" c.

(** Disabling is documented as idempotent; a retry after a lost answer
    publishes a second event, and the user's view is not disabled. *)
Example disabled_twice :
  after_retry.2 = Ok tt /\ length (outbox (id_srv after_retry.1)) = 3%nat /\
  (grpcClient_GetUser canonical_Parse 1 after_retry.1).2 = Ok (Some (mkUserView 1 "ann@example.com" "human_default" false)).
Proof. vm_compute. auto. Qed.

(** The server wraps the service on PostgreSQL; the answer to its commit is
    lost. *)
Definition pg_user : Db identity_payload := (call_at works (create 1 "ann@example.com") empty_db).1.
Definition later_try (i : nat) : try identity_payload := mkTry (fun d => d) (sample_conn (lost i)) (9 * Second) 300 400.
Definition pg_connection : id_connection := mkIdConnection pg_user (fun _ =>
  RunCall (postgres_service pay never later_try (sample_conn None) (fun c => Ok c) 0 0 0) false).

Lemma client_call_is_one_operation_witness :
  let k := CallDisableUser 1 "abuse" in let tries := later_try in
  let c' := (grpcClient_DisableUser canonical_Parse 1 "abuse" pg_connection).1 in
  (grpcClient_DisableUser canonical_Parse 1 "abuse" pg_connection).2 = Err (ErrStatus Internal) /\
  (id_srv c' = pg_user \/ exists i e, (i < 3)%nat /\ Internal = mapErr e /\
    (id_srv c' = before tries i pg_user \/ cn_commit (try_conn (tries i)) = Some (e, true) /\
     db_done pay (call_op k) (tries i) (before tries i pg_user) (id_srv c'))).
Proof.
  split; [vm_compute; reflexivity|].
  refine (client_call_is_one_operation canonical_Parse canonical_Parse_String pay (CallDisableUser 1 "abuse") pg_connection
    (grpcClient_DisableUser canonical_Parse 1 "abuse" pg_connection).1 (Err (ErrStatus Internal)) later_try _ _ _ _).
  - by apply (bool_decide_unpack _); vm_compute.
  - intros i e [= <-]. reflexivity.
  - right. by do 7 eexists.
  - rewrite (surjective_pairing (client_call _ _)). apply pair_equal_spec. split; [reflexivity|vm_compute; reflexivity].
Defined.

(** The database has the change that the status denies. *)
Example status_hides_a_change :
  let '(c, r) := grpcClient_DisableUser canonical_Parse 1 "abuse" pg_connection in
  (r, length (outboxes (id_srv c)), bool_decide (map_Exists (fun _ u => is_Some (ur_disabled u)) (human_users (id_srv c)))) = (Err (ErrStatus Internal), 2%nat, true).
Proof. vm_compute. reflexivity. Qed.

Lemma views_show_the_rows_witness :
  let c := mkIdConnection one_user (fun _ => RunCall (calm_service one_user) false) in
  exists u, (svc_GetUser (IdentityService := calm_service one_user) 1 one_user).2 = Ok u /\
    Some (mkUserView 1 "ann@example.com" "human_default" false) = (fun u => mkUserView (u_ID u) (u_Email u) (u_RateBucket u) false) <$> u.
Proof.
  destruct (views_show_the_rows canonical_Parse canonical_Parse_String
    (mkIdConnection one_user (fun _ => RunCall (calm_service one_user) false)) (calm_service one_user) false eq_refl 1) as (_ & _ & Hu & Ha).
  - by apply (bool_decide_unpack _); vm_compute.
  - intros u Hu. vm_compute in Hu. injection Hu as <-. by apply (bool_decide_unpack _); vm_compute.
  - intros a Ha. vm_compute in Ha. discriminate.
  - apply Hu. vm_compute. reflexivity.
Defined.
End samples.
