(* ===== verification/PolicyStub.v ===== *)
(** * The recording policy client

    [plane/workflow/appclient/policy.go]: [StubPolicyClient] notes the calls
    of the approval activity and hands them to the service it wraps.  The
    activity behaves with it as with the service itself. *)

From S2P Require Import Prelude GoStd Sha256 Json Uuid Policy AuditLog Engine MemService ApprovalActivity.

Record StubPolicyClient (W : Type) := mkStubClient {
  svc : W; submits : list Plan; escs : list EscalateInput; polls : list uuid }.
Arguments mkStubClient {W}.
Arguments svc {W}.
Arguments submits {W}.
Arguments escs {W}.
Arguments polls {W}.

Definition NewStubPolicyClient {W} (w : W) : StubPolicyClient W := mkStubClient w [] [] [].
Definition SubmitCount {W} (c : StubPolicyClient W) : Z := Z.of_nat (length (submits c)).
Definition EscalateInputs {W} (c : StubPolicyClient W) : list EscalateInput := escs c.
Definition PollCount {W} (c : StubPolicyClient W) : Z := Z.of_nat (length (polls c)).

Section stub.
Context {W : Type} `{!World W}.

Definition stub_SubmitPlan (c : StubPolicyClient W) (plan : Plan) : StubPolicyClient W * result policy_error Decision :=
  let '(w, r) := pc_SubmitPlan (svc c) plan in (mkStubClient w (submits c ++ [plan]) (escs c) (polls c), r).
Definition stub_Escalate (c : StubPolicyClient W) (inp : EscalateInput) : StubPolicyClient W * result policy_error EscalateOutcome :=
  let '(w, r) := pc_Escalate (svc c) inp in (mkStubClient w (submits c) (escs c ++ [inp]) (polls c), r).
Definition stub_GetPlanStatus (c : StubPolicyClient W) (id : uuid) : StubPolicyClient W * result policy_error PlanStatus :=
  let '(w, r) := pc_GetPlanStatus (svc c) id in (mkStubClient w (submits c) (escs c) (polls c ++ [id]), r).

#[export] Instance stub_policy_client : World (StubPolicyClient W) := {
  pc_SubmitPlan := stub_SubmitPlan;
  pc_GetPlanStatus := stub_GetPlanStatus;
  pc_Escalate := stub_Escalate;
  w_now c := w_now (svc c);
  w_ctx_err c := w_ctx_err (svc c);
  w_sleep dt c := let '(w, done) := w_sleep dt (svc c) in (mkStubClient w (submits c) (escs c) (polls c), done) }.

(** The run of the wrapped service under a run of the client. *)
Definition unwrap (x : StubPolicyClient W * ActivityResult * option activity_error) : W * ActivityResult * option activity_error :=
  (svc x.1.1, x.1.2, x.2).
(** Nothing is forgotten. *)
Definition remembers (c c' : StubPolicyClient W) : Prop :=
  submits c `prefix_of` submits c' /\ escs c `prefix_of` escs c' /\ polls c `prefix_of` polls c'.

#[export] Instance remembers_preorder : PreOrder remembers.
Proof.
  split; [intros c; split_and!; done|]. intros c1 c2 c3 (? & ? & ?) (? & ? & ?). split_and!; by etransitivity.
Qed.

Lemma stub_poll_loop pi sj fuel c d rung entered :
  unwrap <$> poll_loop pi sj fuel c d rung entered = poll_loop pi sj fuel (svc c) d rung entered /\
  forall x, poll_loop pi sj fuel c d rung entered = Some x -> remembers c x.1.1.
Proof.
  revert c rung entered. induction fuel as [|fuel IH]; intros c rung entered; [done|].
  cbn [poll_loop w_ctx_err w_now w_sleep pc_GetPlanStatus pc_Escalate stub_policy_client].
  destruct (w_ctx_err (svc c)); [split; [done|]; by intros x [= <-]|].
  unfold stub_GetPlanStatus. destruct (pc_GetPlanStatus (svc c) (dec_PlanID d)) as [w1 r].
  set (c1 := mkStubClient w1 (submits c) (escs c) (polls c ++ [dec_PlanID d])).
  assert (H1 : remembers c c1) by (split_and!; [done..|by apply prefix_app_r]).
  destruct r as [status|e]; [|split; [done|]; by intros x [= <-]].
  destruct (negb _); [split; [done|]; by intros x [= <-]|].
  destruct (if rung <? 0 then None else _) as [rg|]; [|split; [done|]; by intros x [= <-]].
  change (w_now (svc c1)) with (w_now w1). change (svc c1) with w1. destruct (After (w_now w1) _).
  - unfold stub_Escalate. change (svc c1) with w1. destruct (pc_Escalate w1 _) as [w2 [out|e]];
      [|split; [done|]; intros x [= <-]; etransitivity; [exact H1|]; split_and!; [done|by apply prefix_app_r|done]].
    set (c2 := mkStubClient w2 _ _ _).
    assert (H2 : remembers c c2) by (etransitivity; [exact H1|]; split_and!; [done|by apply prefix_app_r|done]).
    destruct (eo_FinalRung out); [destruct (IH c2 rung entered) as [E I]|destruct (IH c2 (eo_NewRung out) (w_now w2)) as [E I]];
      (split; [exact E|]; intros x Hx; etransitivity; [exact H2|by apply I]).
  - destruct (w_sleep pi w1) as [w2 done]. set (c2 := mkStubClient w2 _ _ _).
    assert (H2 : remembers c c2) by exact H1.
    destruct done; [split; [done|]; by intros x [= <-]|]. destruct (IH c2 rung entered) as [E I].
    split; [exact E|]. intros x Hx. etransitivity; [exact H2|by apply I].
Qed.

(** the activity run through the recording client returns what it returns
    against the wrapped service, and leaves the service in the same state;
    what was recorded stays. *)
Theorem stub_client_transparent pi sj fuel nil_client c inp :
  unwrap <$> Execute pi sj fuel nil_client c inp = Execute pi sj fuel nil_client (svc c) inp /\
  forall c' r e, Execute pi sj fuel nil_client c inp = Some (c', r, e) -> remembers c c'.
Proof.
  unfold Execute. destruct nil_client; [split; [done|]; by intros c' r e [= <- _ _]|].
  destruct (negb _); [split; [done|]; by intros c' r e [= <- _ _]|].
  cbn [pc_SubmitPlan stub_policy_client]. unfold stub_SubmitPlan.
  destruct (pc_SubmitPlan (svc c) _) as [w1 r1]. set (c1 := mkStubClient w1 _ _ _).
  assert (H1 : remembers c c1) by (split_and!; [by apply prefix_app_r|done..]).
  destruct r1 as [d|e1]; [|split; [done|]; by intros c' r e [= <- _ _]].
  destruct (_ || _); [split; [done|]; by intros c' r e [= <- _ _]|].
  destruct (negb _); [split; [done|]; by intros c' r e [= <- _ _]|].
  change (w_now c1) with (w_now w1). destruct (stub_poll_loop pi sj fuel c1 d 0 (w_now w1)) as [E I].
  split; [exact E|]. intros c' r e Hx. etransitivity; [exact H1|]. exact (I _ Hx).
Qed.
End stub.
