(* ===== verification/Compliance.v ===== *)
(** * The contract suites of the cache, the rate limiter and the producer

    [plane/data/compliance]: cachestore.go, ratelimiter.go and eventqueue.go.
    Each case of a suite is a program over the interface, from a fresh
    instance; the clock is read at every call.  A store that keeps the laws of
    [CacheStore] passes whatever the clock does within a minute, and so do the
    in-memory limiter and the mock producer.  Goroutines that make the same call
    are calls one after the other: the implementations are atomic. *)

From Stdlib Require Import QArith Lqa.
From S2P Require Import Prelude GoStd Json CacheStore RateLimiter RedisStore RedisLimiter Outbox.

#[local] Open Scope Z_scope.

Definition Minute : duration := 60 * Second.
(** The clock as the [i]-th call of a case reads it. *)
Notation clock := (nat -> time).

(** ** cachestore.go *)

Section cache_cases.
Context {S : Type} `{CacheStore S}.

Definition not_found (r : result cache_error string) : bool := bool_decide (r = Err ErrNotFound).
Definition holds (r : result cache_error string) (v : string) : bool := match r with Ok got => bool_decide (got = v) | Err _ => false end.
(** A slot as a string: a nil slice is empty. *)
Definition slot (vals : list (option string)) (i : nat) : option string := mjoin (vals !! i).

Definition get_missing_returns_ErrNotFound (c : clock) (store : S) : bool :=
  let '(r, _) := Get (c 0%nat) "no-such-key" store in not_found r.

Definition set_then_get_roundtrip (c : clock) (store : S) : bool :=
  let want := "hello-gitscale" in
  let store := Set_ (c 0%nat) "k1" want Minute store in
  let '(got, _) := Get (c 1%nat) "k1" store in holds got want.

(** [advanceClock] moves the clock of the in-memory store; without it the case
    sleeps. *)
Definition ttl_expiry (advanceClock : bool) (c : clock) (store : S) : bool :=
  let store := Set_ (c 0%nat) "expiring" "value" (50 * Millisecond) store in
  let pause := if advanceClock then 100 * Millisecond else 200 * Millisecond in
  let '(r, _) := Get (Add (c 1%nat) pause) "expiring" store in not_found r.

Definition mget_mixed_present_absent (c : clock) (store : S) : bool :=
  let store := Set_ (c 0%nat) "present1" "a" Minute store in
  let store := Set_ (c 1%nat) "present2" "b" Minute store in
  let '(vals, _) := MGet (c 2%nat) ["present1"; "missing"; "present2"] store in
  bool_decide (length vals = 3%nat) && bool_decide (default "" (slot vals 0) = "a") && bool_decide (slot vals 1 = None)
  && bool_decide (default "" (slot vals 2) = "b").

Definition delete_removes_key (c : clock) (store : S) : bool :=
  let store := Set_ (c 0%nat) "del-me" "x" Minute store in
  let store := Delete (c 1%nat) "del-me" store in
  let '(r, _) := Get (c 2%nat) "del-me" store in not_found r.

(** [Delete] has no error to report here. *)
Definition delete_missing_key_is_noop (c : clock) (store : S) : bool :=
  let _ := Delete (c 0%nat) "never-existed" store in true.

Definition cas_happy_path (c : clock) (store : S) : bool :=
  let store := Set_ (c 0%nat) "cas-key" "v1" Minute store in
  let '(swapped, store) := CompareAndSwap (c 1%nat) "cas-key" "v1" "v2" Minute store in
  let '(got, _) := Get (c 2%nat) "cas-key" store in swapped && holds got "v2".

Definition cas_mismatch_returns_false_value_unchanged (c : clock) (store : S) : bool :=
  let store := Set_ (c 0%nat) "cas-mismatch" "actual" Minute store in
  let '(swapped, store) := CompareAndSwap (c 1%nat) "cas-mismatch" "wrong" "new" Minute store in
  let '(got, _) := Get (c 2%nat) "cas-mismatch" store in negb swapped && holds got "actual".

Definition cas_on_absent_key_with_empty_expected_succeeds (c : clock) (store : S) : bool :=
  let '(swapped, store) := CompareAndSwap (c 0%nat) "cas-absent" "" "first" Minute store in
  let '(got, _) := Get (c 1%nat) "cas-absent" store in swapped && holds got "first".

(** The goroutines' swaps, in the order in which the store runs them. *)
Fixpoint cas_wins (n : nat) (c : clock) (store : S) : Z :=
  match n with
  | O => 0
  | Datatypes.S n =>
      let '(ok, store) := CompareAndSwap (c 0%nat) "concurrent-cas" "start" "winner" Minute store in
      (if ok : bool then 1 else 0) + cas_wins n (fun i => c (Datatypes.S i)) store
  end.
Definition concurrent_cas_exactly_one_wins_per_round (c : clock) (store : S) : bool :=
  let goroutines := 20%nat in
  let store := Set_ (c 0%nat) "concurrent-cas" "start" Minute store in
  cas_wins goroutines (fun i => c (Datatypes.S i)) store =? 1.

(** Every case from a store of its own; [ping_succeeds] is left out, the
    interface of the model has no [Ping]. *)
Definition RunCacheStoreCompliance (advanceClock : bool) (c : clock) (store : S) : bool :=
  get_missing_returns_ErrNotFound c store && set_then_get_roundtrip c store && ttl_expiry advanceClock c store
  && mget_mixed_present_absent c store && delete_removes_key c store && delete_missing_key_is_noop c store
  && cas_happy_path c store && cas_mismatch_returns_false_value_unchanged c store
  && cas_on_absent_key_with_empty_expected_succeeds c store && concurrent_cas_exactly_one_wins_per_round c store.
End cache_cases.

(** *** Lawful stores pass *)

(** A clock that does not go back, read within a minute. *)
Definition steady (c : clock) : Prop := forall i j, (i <= j)%nat -> c i <= c j <= c i + Minute.

Section cache_passes.
Context {S : Type} {C : CacheStore S} {L : CacheLaws S}.

Definition empty_from (t : time) (s : S) : Prop := forall now k, t <= now -> live now s k = None.

Lemma get_now now k s r : live now s k = r -> (Get now k s).1 = match r with Some v => Ok v | None => Err ErrNotFound end.
Proof. intros <-. apply Get_spec. Qed.

Lemma live_after_set now now' k v ttl s : now <= now' <= now + ttl -> live now' (Set_ now k v ttl s) k = Some v.
Proof. intros [Hle Hd]. rewrite Set_spec, bool_decide_true by done. unfold After, Add. by replace (_ <? _) with false by (symmetry; apply Z.ltb_ge; lia). Qed.

Lemma live_set_other now now' k k' v ttl s : now <= now' -> k' <> k -> live now' (Set_ now k v ttl s) k' = live now' s k'.
Proof. intros Hle Hk. by rewrite Set_spec, bool_decide_false. Qed.

(** The case's last call. *)
Lemma get_holds now k s v : live now s k = Some v -> (let '(got, _) := Get now k s in holds got v) = true.
Proof. intros Hv. apply get_now in Hv. destruct (Get now k s) as [r s']. cbn in Hv. subst. cbn. by case_bool_decide. Qed.
Lemma get_gone now k s : live now s k = None -> (let '(got, _) := Get now k s in not_found got) = true.
Proof. intros Hv. apply get_now in Hv. destruct (Get now k s) as [r s']. cbn in Hv. by subst. Qed.

(** A swap: won if what the key holds is expected, then it is a [Set_]. *)
Lemma cas_run now k e r ttl s : let won := bool_decide (default "" (live now s k) = e) in
  exists s', CompareAndSwap now k e r ttl s = (won, s') /\
    forall now' k', now <= now' -> live now' s' k' = if won then live now' (Set_ now k r ttl s) k' else live now' s k'.
Proof.
  cbn. pose proof (CAS_spec now k e r ttl s) as H1. pose proof (CAS_frame now k e r ttl s) as H2.
  destruct (CompareAndSwap now k e r ttl s) as [won s']. cbn in *. subst won. by exists s'.
Qed.

Lemma no_more_wins n : forall c s v, steady c -> v <> "start" -> (forall i, (i < n)%nat -> live (c i) s "concurrent-cas" = Some v) -> cas_wins n c s = 0.
Proof.
  induction n as [|n IH]; intros c s v Hc Hv Hs; [done|]. cbn [cas_wins].
  destruct (cas_run (c 0%nat) "concurrent-cas" "start" "winner" Minute s) as (s' & -> & Hs'). rewrite (Hs 0%nat) in * by lia.
  cbn [default from_option id] in *. rewrite bool_decide_false in * by done. rewrite (IH _ _ v); [done| |done|].
  - intros i j Hij. apply Hc. lia.
  - intros i Hi. rewrite Hs' by (apply Hc; lia). apply Hs. lia.
Qed.

Lemma one_swap_wins c s : steady c -> concurrent_cas_exactly_one_wins_per_round c s = true.
Proof.
  intros Hc. unfold concurrent_cas_exactly_one_wins_per_round. cbn zeta. apply Z.eqb_eq. set (n := 19%nat).
  change 20%nat with (Datatypes.S n). cbn [cas_wins]. set (s1 := Set_ _ _ _ _ _).
  destruct (cas_run (c 1%nat) "concurrent-cas" "start" "winner" Minute s1) as (s' & -> & Hs').
  assert (Hv : live (c 1%nat) s1 "concurrent-cas" = Some "start") by (apply live_after_set, Hc; lia). rewrite Hv in *.
  cbn [default from_option id] in *. rewrite bool_decide_true in * by done. rewrite (no_more_wins _ _ _ "winner"); [done| |done|].
  - intros i j Hij. apply Hc. lia.
  - intros i Hi. rewrite Hs' by (apply Hc; lia). apply live_after_set. apply Hc. lia.
Qed.

Theorem lawful_store_complies adv c s : steady c -> empty_from (c 0%nat) s -> RunCacheStoreCompliance adv c s = true.
Proof.
  intros Hc Hs. unfold RunCacheStoreCompliance. pose proof (Hc 0%nat 1%nat ltac:(lia)) as H01. pose proof (Hc 1%nat 2%nat ltac:(lia)) as H12. pose proof (Hc 0%nat 2%nat ltac:(lia)) as H02.
  rewrite !andb_true_iff. split_and!.
  - apply get_gone. apply Hs. lia.
  - apply get_holds, live_after_set. lia.
  - apply get_gone. unfold Add, Millisecond. set (pause := if adv then _ else _). assert (Hp : 100000000 <= pause) by (unfold pause; by destruct adv).
    rewrite Set_spec, bool_decide_true by (done || lia). unfold After, Add. by replace (_ <? _) with true by (symmetry; apply Z.ltb_lt; lia).
  - unfold mget_mixed_present_absent. cbn zeta. set (s2 := Set_ (c 1%nat) _ _ _ _). pose proof (MGet_spec (c 2%nat) ["present1"; "missing"; "present2"] s2) as Hm.
    destruct (MGet _ _ _) as [vals s3]. cbn [fst map] in Hm. subst vals s2.
    rewrite (live_after_set (c 1%nat)) by lia. rewrite !(live_set_other (c 1%nat)), live_after_set, live_set_other by (done || lia). by rewrite Hs by lia.
  - apply get_gone. by rewrite Delete_spec, bool_decide_true by (done || lia).
  - done.
  - unfold cas_happy_path. cbn zeta. edestruct cas_run as (s' & -> & Hs'). cbn zeta in Hs'. rewrite (live_after_set (c 0%nat)) in * by lia.
    cbn [default from_option id] in *. rewrite bool_decide_true in * by done. cbn [andb]. apply get_holds. rewrite Hs' by lia. apply live_after_set. lia.
  - unfold cas_mismatch_returns_false_value_unchanged. cbn zeta. edestruct cas_run as (s' & -> & Hs'). cbn zeta in Hs'. rewrite (live_after_set (c 0%nat)) in * by lia.
    cbn [default from_option id] in *. rewrite bool_decide_false in * by done. cbn [negb andb]. apply get_holds. rewrite Hs' by lia. apply live_after_set. lia.
  - unfold cas_on_absent_key_with_empty_expected_succeeds. edestruct cas_run as (s' & -> & Hs'). cbn zeta in Hs'. rewrite Hs in * by lia.
    cbn [default from_option id] in *. rewrite bool_decide_true in * by done. cbn [andb]. apply get_holds. rewrite Hs' by lia. apply live_after_set. lia.
  - by apply one_swap_wins.
Qed.
End cache_passes.

(** ** ratelimiter.go *)

(** What the suite calls, in exact arithmetic. *)
Class Limiter (L : Type) := {
  lim_Take : time -> string -> Q -> Q -> Q -> L -> bool * Q * L;
  lim_Inspect : string -> L -> BucketState Q }.
#[export] Instance memory_limiter : Limiter (MemoryLimiter Q) := { lim_Take := Take; lim_Inspect := Inspect }.
(** A bucket that is never topped up to its capacity only: the clamp left out. *)
Definition unbounded_bucket (now : time) (cap rate n : Q) (b : bucketState Q) : bool * bucketState Q :=
  let t := (tokens b + seconds_Q (Sub now (lastAt b)) * rate)%Q in
  if negb (Qle_bool n t) then (false, mkBucket t now cap rate) else (true, mkBucket (t - n)%Q now cap rate).
Record unbounded := mkUnbounded { buckets : MemoryLimiter Q }.
#[export] Instance unbounded_limiter : Limiter unbounded := {
  lim_Take := fun now key cap rate n m =>
    let '(granted, b) := unbounded_bucket now cap rate n (default (mkBucket cap now cap rate) (buckets m !! key)) in
    (granted, tokens b, mkUnbounded (<[key := b]> (buckets m)));
  lim_Inspect := fun key m => Inspect key (buckets m) }.

Section limiter_cases.
Context {L : Type} `{Limiter L}.

Definition within (lo hi x : Q) : bool := Qle_bool lo x && Qle_bool x hi.

Definition first_take_granted_full_bucket (c : clock) (lim : L) : bool :=
  let '(granted, remaining, _) := lim_Take (c 0%nat) "bucket-a" 10 1 1 lim in
  granted && within (89 # 10) (91 # 10) remaining.

Definition exhausted_bucket_denies (c : clock) (lim : L) : bool :=
  let '(granted, _, lim) := lim_Take (c 0%nat) "exhaust-bucket" 5 0 5 lim in
  let '(again, remaining, _) := lim_Take (c 1%nat) "exhaust-bucket" 5 0 1 lim in
  granted && negb again && Qle_bool remaining (1 # 100).

(** Without a way to move the clock the two next cases are skipped. *)
Definition refill_restores_tokens (advanceClock : bool) (c : clock) (lim : L) : bool :=
  let '(_, _, lim) := lim_Take (c 0%nat) "refill-bucket" 2 2 2 lim in
  if advanceClock then
    let '(granted, _, _) := lim_Take (Add (c 1%nat) Second) "refill-bucket" 2 2 1 lim in granted
  else true.

Definition refill_never_exceeds_capacity (advanceClock : bool) (c : clock) (lim : L) : bool :=
  if advanceClock then
    let '(granted, remaining, _) := lim_Take (Add (c 0%nat) (1000 * Second)) "ceiling-bucket" 5 1 1 lim in
    granted && Qle_bool remaining (401 # 100)
  else true.

Definition inspect_absent_key_returns_zero (lim : L) : bool :=
  let state := lim_Inspect "never-touched-bucket" lim in
  Qeq_bool (Capacity state) 0 && Qeq_bool (Remaining state) 0 && Qeq_bool (RefillPerSec state) 0.

Definition inspect_after_take_reflects_remaining (c : clock) (lim : L) : bool :=
  let '(_, _, lim) := lim_Take (c 0%nat) "inspect-bucket" 10 1 3 lim in
  let state := lim_Inspect "inspect-bucket" lim in
  within (999 # 100) (1001 # 100) (Capacity state) && within (99 # 100) (101 # 100) (RefillPerSec state)
  && within (69 # 10) (75 # 10) (Remaining state).

Fixpoint takes_granted (n : nat) (c : clock) (lim : L) : Z :=
  match n with
  | O => 0
  | Datatypes.S n =>
      let '(ok, _, lim) := lim_Take (c 0%nat) "concurrent-bucket" 10 0 1 lim in
      (if ok : bool then 1 else 0) + takes_granted n (fun i => c (Datatypes.S i)) lim
  end.
Definition concurrent_takes_total_granted_equals_floor (c : clock) (lim : L) : bool := takes_granted 30 c lim =? 10.

Definition RunRateLimiterCompliance (advanceClock : bool) (c : clock) (lim : L) : bool :=
  first_take_granted_full_bucket c lim && exhausted_bucket_denies c lim && refill_restores_tokens advanceClock c lim
  && refill_never_exceeds_capacity advanceClock c lim && inspect_absent_key_returns_zero lim
  && inspect_after_take_reflects_remaining c lim && concurrent_takes_total_granted_equals_floor c lim.
End limiter_cases.

(** *** The in-memory limiter passes *)

(** The bucket a [Take] draws on. *)
Notation drawn now cap rate key m := (default (mkBucket cap now cap rate) (m !! key)).

Lemma Take_level now key cap rate n (m : MemoryLimiter Q) : let t := memory_level now cap rate (drawn now cap rate key m) in
  Take now key cap rate n m = (Qle_bool n t, level n t, <[key := mkBucket (level n t) now cap rate]> m).
Proof. cbn zeta. unfold Take. by rewrite take_bucket_level. Qed.

Lemma fresh_level now cap rate : (memory_level now cap rate (mkBucket cap now cap rate) == cap)%Q.
Proof.
  assert (Hz : (seconds_Q (Sub now now) == 0)%Q) by (unfold Sub; by rewrite Z.sub_diag).
  apply clamp_full. cbn. rewrite Hz. lra.
Qed.
(** A bucket that does not refill. *)
Lemma still_level now cap b : (tokens b <= cap)%Q -> (memory_level now cap 0 b == tokens b)%Q.
Proof.
  intros Hb. unfold memory_level, clamp. cbn. set (e := seconds_Q _).
  destruct (negb (Qle_bool (tokens b + e * 0) cap)) eqn:E; [|lra]. apply Qltb_spec in E. lra.
Qed.
Lemma level_at n t t' : (t == t')%Q -> Qle_bool n t = Qle_bool n t' /\ (level n t == level n t')%Q.
Proof. apply level_eq. Qed.

(** One [Take] from a bucket at a known level. *)
Lemma take_at now key cap rate n (m : MemoryLimiter Q) t : (memory_level now cap rate (drawn now cap rate key m) == t)%Q ->
  exists x, Take now key cap rate n m = (Qle_bool n t, x, <[key := mkBucket x now cap rate]> m) /\ (x == level n t)%Q.
Proof. intros Ht. rewrite Take_level. destruct (level_at n _ _ Ht) as [-> Hx]. eexists. by split. Qed.

Lemma takes_exhaust n : forall (c : clock) (m : MemoryLimiter Q) b k, m !! "concurrent-bucket" = Some b -> 0 <= k <= 10 -> (tokens b == inject_Z k)%Q ->
  takes_granted n c m = Z.min (Z.of_nat n) k.
Proof.
  induction n as [|n IH]; intros c m b k Hm Hk Hb; [cbn; lia|]. cbn [takes_granted lim_Take memory_limiter].
  assert (Hk10 : (inject_Z k <= 10)%Q) by (change 10%Q with (inject_Z 10); rewrite <- Zle_Qle; lia).
  destruct (take_at (c 0%nat) "concurrent-bucket" 10 0 1 m (inject_Z k)) as (x & -> & Hx).
  { rewrite Hm. cbn [default from_option id]. rewrite still_level by lra. done. }
  assert (E : Qle_bool 1 (inject_Z k) = (1 <=? k)) by (apply eq_true_iff_eq; rewrite Qle_bool_iff, Z.leb_le, Zle_Qle; done). 
  change (level 1%Q (inject_Z k)) with (if Qle_bool 1 (inject_Z k) then inject_Z k - 1 else inject_Z k)%Q in Hx. rewrite E in *.
  destruct (Z.leb_spec 1 k).
  - rewrite (IH _ _ (mkBucket x (c 0%nat) 10%Q 0%Q) (k - 1)); [lia|by rewrite lookup_insert_eq|lia|]. cbn. rewrite Hx. unfold Z.sub. by rewrite inject_Z_plus.
  - rewrite (IH _ _ (mkBucket x (c 0%nat) 10%Q 0%Q) k); [lia|by rewrite lookup_insert_eq|lia|done].
Qed.

Lemma steady_elapsed (c : clock) d : steady c -> 0 <= d <= Hour -> (seconds_Q d <= seconds_Q (Sub (Add (c 1%nat) d) (c 0%nat)))%Q.
Proof. intros Hc Hd. specialize (Hc 0%nat 1%nat ltac:(lia)). unfold seconds_Q, Qle, Sub, Add, Minute, Hour, Second, int64_min, int64_max in *. cbn. lia. Qed.

(** A bucket the limiter has not seen is full. *)
Lemma first_take now key cap rate n : exists x, Take now key cap rate n (NewMemoryLimiter : MemoryLimiter Q) =
  (Qle_bool n cap, x, <[key := mkBucket x now cap rate]> NewMemoryLimiter) /\ (x == level n cap)%Q.
Proof. apply take_at. unfold NewMemoryLimiter. rewrite lookup_empty. apply fresh_level. Qed.

Lemma within_eq lo hi x y : (x == y)%Q -> within lo hi x = within lo hi y.
Proof. intros E. unfold within. by rewrite E. Qed.

Theorem memory_limiter_complies adv (c : clock) : steady c -> RunRateLimiterCompliance adv c (NewMemoryLimiter : MemoryLimiter Q) = true.
Proof.
  intros Hc. unfold RunRateLimiterCompliance. rewrite !andb_true_iff. split_and!.
  - unfold first_take_granted_full_bucket. cbn [lim_Take memory_limiter]. edestruct first_take as (x & -> & Hx). by rewrite (within_eq _ _ _ _ Hx).
  - unfold exhausted_bucket_denies. cbn [lim_Take memory_limiter]. edestruct first_take as (x & -> & Hx). change (x == 0)%Q in Hx.
    edestruct (take_at (c 1%nat) "exhaust-bucket" 5 0 1) as (y & -> & Hy).
    { rewrite lookup_insert_eq. cbn [default from_option id]. etransitivity; [apply still_level|exact Hx]. cbn [tokens]. rewrite Hx. lra. }
    by rewrite Hy.
  - unfold refill_restores_tokens. cbn [lim_Take memory_limiter]. edestruct first_take as (x & -> & Hx). destruct adv; [|done].
    destruct (take_at (Add (c 1%nat) Second) "refill-bucket" 2 2 1 (<["refill-bucket":=mkBucket x (c 0%nat) 2%Q 2%Q]> NewMemoryLimiter) 2) as (y & -> & Hy); [|done].
    rewrite lookup_insert_eq. cbn [default from_option id]. apply clamp_full. cbn [tokens lastAt].
    pose proof (steady_elapsed c Second Hc ltac:(unfold Hour, Second; lia)) as He. change (seconds_Q Second) with (1000000000 # 1000000000)%Q in He.
    change (seconds ?d) with (seconds_Q d). change (x == 0)%Q in Hx. rewrite Hx. lra.
  - unfold refill_never_exceeds_capacity. destruct adv; [|done]. cbn [lim_Take memory_limiter]. edestruct first_take as (x & -> & Hx). by rewrite Hx.
  - done.
  - unfold inspect_after_take_reflects_remaining. cbn [lim_Take lim_Inspect memory_limiter]. edestruct first_take as (x & -> & Hx).
    unfold Inspect. rewrite lookup_insert_eq. cbn [Capacity RefillPerSec Remaining capacity refill tokens]. by rewrite (within_eq _ _ _ _ Hx).
  - unfold concurrent_takes_total_granted_equals_floor. set (n := 29%nat). change 30%nat with (Datatypes.S n). cbn [takes_granted lim_Take memory_limiter].
    edestruct first_take as (x & -> & Hx). cbv beta iota. rewrite (takes_exhaust _ _ _ (mkBucket x (c 0%nat) 10%Q 0%Q) 9); [done|by rewrite lookup_insert_eq|lia|done].
Qed.

(** The ceiling of a bucket is not tested: the case draws on one that is new.
    A limiter without it passes the suite and lets ten thousand through. *)
Example ceiling_not_tested :
  RunRateLimiterCompliance true (fun i => Z.of_nat i) (mkUnbounded NewMemoryLimiter) = true /\
  (let '(_, _, m) := lim_Take 0 "k" 5%Q 1%Q 5%Q (mkUnbounded NewMemoryLimiter) in
   (lim_Take (10000 * Second) "k" 5%Q 1%Q 10000%Q m).1.1) = true.
Proof. split; vm_compute; reflexivity. Qed.

(** ** eventqueue.go *)

Section producer_cases.
Context {P : Type} `{KafkaProducer P} (topic : string) (row : nat -> OutboxRow).

(** A nil batch and an empty one are the same list. *)
Definition publish_empty_batch_is_noop (prod : P) : bool :=
  let '(ok, prod) := PublishBatch None topic [] prod in
  let '(ok', _) := PublishBatch None topic [] prod in ok && ok'.
Definition publish_single_row_succeeds (prod : P) : bool := (PublishBatch None topic [row 0%nat] prod).1.
Definition publish_batch_succeeds (prod : P) : bool := (PublishBatch None topic (map row (seq 0 10)) prod).1.
(** The context is cancelled before the call. *)
Definition canceled_context_returns_error (prod : P) : bool := negb (PublishBatch (Some 0%nat) topic [row 0%nat] prod).1.
Definition close_is_idempotent (Close : P -> bool * P) (prod : P) : bool :=
  let '(ok, prod) := Close prod in let _ := Close prod in ok.

Definition RunKafkaProducerCompliance (Close : P -> bool * P) (prod : P) : bool :=
  publish_empty_batch_is_noop prod && publish_single_row_succeeds prod && publish_batch_succeeds prod
  && canceled_context_returns_error prod && close_is_idempotent Close prod.
End producer_cases.

(** The rows of the suite: fresh identifiers, the time of day. *)
Definition outboxRow (eventID aggregateID : uuid) (now : time) : OutboxRow :=
  let text s := l2s (marshal_string s) in
  mkRow 1 eventID "TestAggregate" aggregateID "test.created" ("{" +:+ text "key" +:+ ":" +:+ text "value" +:+ "}") now.

Lemma mock_producer_complies topic (ids aggregates : nat -> uuid) (c : clock) :
  RunKafkaProducerCompliance topic (fun i => outboxRow (ids i) (aggregates i) (c i)) (fun m => (true, Mock_Close m)) NewMockProducer = true.
Proof. done. Qed.

Lemma memory_store_complies adv c : steady c -> RunCacheStoreCompliance adv c NewMemoryStore = true.
Proof. intros Hc. by apply lawful_store_complies. Qed.
(** Below the prefix of an environment too, whatever other environments hold. *)
Lemma namespaced_store_complies adv c prefix s : steady c ->
  (forall now k, c 0%nat <= now -> mem_live now s (prefixed prefix k) = None) ->
  @RunCacheStoreCompliance _ (namespacedStore prefix) adv c s = true.
Proof. intros Hc Hs. by apply (@lawful_store_complies _ (namespacedStore prefix) (namespaced_laws prefix)). Qed.
