(* ===== verification/StoreCompliance.v ===== *)
(** * The contract suite of the metadata store

    [plane/data/compliance/metadatastore.go], over the interface the suite
    uses, for the in-memory store and for the one on PostgreSQL.  A case ends
    as passed, failed or skipped. *)

From S2P Require Import Prelude GoStd Sha256 Uuid UuidOrder Outbox Actions MetadataStore PgStore.

(** ** The interface *)

(** A store [W] whose transactions run on [T]; the reads and the verifier may
    fail. *)
Class MetadataBackend (P W T : Type) := {
  mb_Transact : action error T unit -> W -> W * result error unit;
  mb_InsertHumanUser : HumanUser -> action error T unit;
  mb_WriteOutbox : uuid -> Domain -> string -> uuid -> string -> P -> action error T unit;
  mb_GetUserByID : uuid -> W -> result error (option HumanUser);
  mb_GetRepositoryByID : uuid -> W -> result error (option Repository);
  OutboxCount : Domain -> string -> W -> result error Z;
  OutboxEventIDs : Domain -> W -> result error (list uuid) }.

Inductive verdict := Passed | Failed | Skipped.
#[export] Instance verdict_eq_dec : EqDecision verdict.
Proof. solve_decision. Defined.
Definition passed_if (b : bool) : verdict := if b then Passed else Failed.

(** [_ = m]: an error is dropped. *)
Definition ignoring {E T A} (m : action E T A) : action E T unit := fun t => ((m t).1, Ok tt).

(** [bytes.Compare] on the sixteen bytes. *)
Fixpoint compare_bytes (a b : list ascii) : Z :=
  match a, b with
  | x :: a, y :: b => if negb (code x =? code y) then (if code x <? code y then -1 else 1) else compare_bytes a b
  | _, _ => 0
  end.
Definition compareUUIDBytes (a b : uuid) : Z := compare_bytes (be_bytes 16 a) (be_bytes 16 b).
(** The high half of the seventh byte. *)
Definition Version (u : uuid) : Z := Z.shiftr u 76 mod 16.

Definition prefix8 (u : uuid) : string := l2s (take 8 (s2l (uuid_String u))).

(** The suite draws its identifiers from [New] and the store its event
    identifiers from [NewEventID]: two sources, one identifier a call. *)
Section cases.
Context {P W T : Type} `{MetadataBackend P W T} (New NewEventID : nat -> uuid) (null : P) (payload : uuid -> P).

Definition suite_user (email : string) (id : uuid) : HumanUser := mkHumanUser id email "hash" "human_default" None zero_time zero_time.
Definition email_of (kind : string) (id : uuid) : string := kind +:+ "-" +:+ prefix8 id +:+ "@example.com".

Definition Transact_commit_on_nil_error (s : W) : verdict :=
  let userID := New 0 in
  let '(s, err) := mb_Transact (mb_InsertHumanUser (suite_user (email_of "commit" userID) userID)) s in
  match err, mb_GetUserByID userID s with
  | Ok _, Ok (Some _) => Passed
  | _, _ => Failed
  end.

Definition sentinel : error := errors_New "intentional rollback".
Definition Transact_rollback_on_non_nil_error (s : W) : verdict :=
  let userID := New 0 in
  let '(s, err) := mb_Transact (let! _ := ignoring (mb_InsertHumanUser (suite_user (email_of "rb" userID) userID)) in throw sentinel) s in
  match err, mb_GetUserByID userID s with
  | Err e, Ok None => passed_if (bool_decide (e = sentinel))
  | _, _ => Failed
  end.

Definition counted (r : result error Z) (n : Z) : bool := match r with Ok m => m =? n | Err _ => false end.
Definition succeeded {A} (r : result error A) : bool := is_ok r.
Definition WriteOutbox_transactional_invariant (s : W) : verdict :=
  let userID := New 0 in
  let eventType := "user.created.commit." +:+ prefix8 userID in
  let '(s, err) := mb_Transact (let! _ := mb_InsertHumanUser (suite_user (email_of "inv" userID) userID) in
    mb_WriteOutbox (NewEventID 0) DomainIdentity "human_user" userID eventType (payload userID)) s in
  let committed := succeeded err && counted (OutboxCount DomainIdentity eventType s) 1 in
  let userID2 := New 1 in
  let eventType2 := "user.created.rollback." +:+ prefix8 userID2 in
  let '(s, _) := mb_Transact (
    let! _ := ignoring (mb_InsertHumanUser (suite_user (email_of "inv2" userID2) userID2)) in
    let! _ := ignoring (mb_WriteOutbox (NewEventID 1) DomainIdentity "human_user" userID2 eventType2 null) in
    throw (errors_New "rollback")) s in
  passed_if (committed && counted (OutboxCount DomainIdentity eventType2 s) 0).

Definition suite_domains : list Domain := [DomainIdentity; DomainRepositories; DomainCollaboration; DomainCI; DomainBilling].
(** One write a domain, the [i]-th draw for the [i]-th; [check] looks at what
    the write answered and at the store after it. *)
Fixpoint each_domain (write : nat -> Domain -> action error T unit) (check : Domain -> W -> bool) (i : nat) (ds : list Domain) (s : W) : bool :=
  match ds with
  | [] => true
  | d :: ds =>
      let '(s, err) := mb_Transact (write i d) s in
      succeeded err && check d s && each_domain write check (S i) ds s
  end.
Definition WriteOutbox_domain_allowlist (domain_payload : Domain -> P) (s : W) : verdict :=
  let '(s, err) := mb_Transact (mb_WriteOutbox (NewEventID 0) "bogus" "x" (New 0) "x.created" null) s in
  passed_if (negb (succeeded err) &&
    each_domain (fun i d => mb_WriteOutbox (NewEventID i) d "TestAggregate" (New i) "test.allowlist" (domain_payload d)) (fun _ _ => true) 1 suite_domains s).

Definition dispatch_type (marker : string) (d : Domain) : string := "test.dispatch." +:+ d +:+ "." +:+ marker.
Definition WriteOutbox_table_dispatch (s : W) : verdict :=
  let marker := prefix8 (New 0) in
  passed_if (each_domain (fun i d => mb_WriteOutbox (NewEventID i) d "TestAggregate" (New i) (dispatch_type marker d) null)
    (fun d s => counted (OutboxCount d (dispatch_type marker d) s) 1) 1 suite_domains s).

(** The two transactions of a round run concurrently: what comes of them is an
    argument.  The case is over when one is told to retry. *)
Section race.
Context (race : nat -> uuid -> W -> W * (result error unit * result error unit)).
Definition retryable (r : result error unit) : bool := match r with Err e => IsRetryable e | Ok _ => false end.
Fixpoint saw_retryable (rounds : nat) (round : nat) (userID : uuid) (s : W) : bool :=
  match rounds with
  | O => false
  | S rounds => let '(s, (e0, e1)) := race round userID s in retryable e0 || retryable e1 || saw_retryable rounds (S round) userID s
  end.
Definition Serializable_retry_contract_40001 (s : W) : verdict :=
  let userID := New 0 in
  let '(s, err) := mb_Transact (mb_InsertHumanUser (suite_user (email_of "serial" userID) userID)) s in
  if succeeded err then (if saw_retryable 5 0 userID s then Passed else Skipped) else Failed.
End race.

Definition draws : nat := 20.
Fixpoint write_events (n i : nat) (s : W) : option W :=
  match n with
  | O => Some s
  | S n =>
      match mb_Transact (mb_WriteOutbox (NewEventID i) DomainCollaboration "TestAggregate" (New i) "test.uuidv7" null) s with
      | (s, Ok _) => write_events n (S i) s
      | (_, Err _) => None
      end
  end.
Fixpoint ascending (ids : list uuid) : bool :=
  match ids with
  | a :: (b :: _) as rest => negb (0 <? compareUUIDBytes a b) && ascending rest
  | _ => true
  end.
Definition EventID_monotonic_uuidv7 (s : W) : verdict :=
  match write_events draws 0 s with
  | None => Failed
  | Some s =>
      match OutboxEventIDs DomainCollaboration s with
      | Err _ => Failed
      | Ok ids => passed_if (bool_decide (draws <= length ids)%nat && forallb (fun id => Version id =? 7) ids && ascending ids)
      end
  end.

Definition RepositoryReader_unknown_id_returns_nil_no_error (s : W) : verdict :=
  match mb_GetRepositoryByID (New 0) s with Ok None => Passed | _ => Failed end.

(** Every case, each from a store of its own. *)
Definition RunMetadataStoreCompliance (SkipSerializable40001 : bool) (domain_payload : Domain -> P) race (s : W) : list verdict :=
  [Transact_commit_on_nil_error s; Transact_rollback_on_non_nil_error s; WriteOutbox_transactional_invariant s;
   WriteOutbox_domain_allowlist domain_payload s; WriteOutbox_table_dispatch s] ++
  (if SkipSerializable40001 then [] else [Serializable_retry_contract_40001 race s]) ++
  [EventID_monotonic_uuidv7 s; RepositoryReader_unknown_id_returns_nil_no_error s].
End cases.

(** ** What the suite relies on *)

Notation event d at_ ai et p i := (mkOutboxRecord d at_ ai et p i).

(** All that a transaction did, or nothing: by the users and the events of the
    store. *)
Class MetadataContract (P W T : Type) `{MetadataBackend P W T} := {
  has_user : W -> uuid -> Prop;
  events : W -> list (OutboxRecord P);
  user_found s id : exists u, mb_GetUserByID id s = Ok u /\ (is_Some u <-> has_user s id);
  fresh : W -> Prop;
  fresh_law s : fresh s -> events s = [] /\ forall id, ~ has_user s id /\ mb_GetRepositoryByID id s = Ok None;
  count_law d et s : Domain_Valid d = true -> OutboxCount d et s = Ok (Z.of_nat (length (filter (fun e => or_Domain e = d /\ or_EventType e = et) (events s))));
  ids_law d s : Domain_Valid d = true -> OutboxEventIDs d s = Ok (map or_EventID (filter (fun e => or_Domain e = d) (events s)));
  fails_law fn e s : (forall t, (fn t).2 = Err e) -> mb_Transact fn s = (s, Err e);
  insert_law u s : (forall id, ~ has_user s id) -> exists s', mb_Transact (mb_InsertHumanUser u) s = (s', Ok tt) /\ has_user s' (u_ID u) /\ events s' = events s;
  write_law i d at_ ai et p s : Domain_Valid d = true -> i ∉ map or_EventID (events s) ->
    exists s', mb_Transact (mb_WriteOutbox i d at_ ai et p) s = (s', Ok tt) /\ events s' = events s ++ [event d at_ ai et p i];
  write_invalid i d at_ ai et p s : Domain_Valid d = false -> exists e, mb_Transact (mb_WriteOutbox i d at_ ai et p) s = (s, Err e);
  both_law u i d at_ ai et p s : (forall id, ~ has_user s id) -> Domain_Valid d = true -> i ∉ map or_EventID (events s) ->
    exists s', mb_Transact (let! _ := mb_InsertHumanUser u in mb_WriteOutbox i d at_ ai et p) s = (s', Ok tt) /\
      has_user s' (u_ID u) /\ events s' = events s ++ [event d at_ ai et p i] }.

(** [uuid.NewV7], as often as a case draws on it: version 7, each beyond the one
    before. *)
Record event_source (ids : nat -> uuid) : Prop := {
  source_ok n : (n < draws)%nat -> uuid_ok (ids n);
  source_version n : (n < draws)%nat -> Version (ids n) = 7;
  source_ascends n : (S n < draws)%nat -> ids n < ids (S n) }.

Lemma compare_bytes_lcmp a b : length a = length b -> compare_bytes a b = match lcmp a b with Eq => 0 | Lt => -1 | Gt => 1 end.
Proof.
  revert b. induction a as [|x a IH]; intros [|y b]; try done. intros [= Hl]. cbn [compare_bytes lcmp].
  destruct (Z.compare_spec (code x) (code y)) as [->|Hlt|Hgt].
  - rewrite Z.eqb_refl. cbn [negb]. by apply IH.
  - replace (_ =? _) with false by (symmetry; apply Z.eqb_neq; lia). replace (_ <? _) with true by (symmetry; apply Z.ltb_lt; lia). done.
  - replace (_ =? _) with false by (symmetry; apply Z.eqb_neq; lia). replace (_ <? _) with false by (symmetry; apply Z.ltb_ge; lia). done.
Qed.
(** The bytes are in the order of the numbers. *)
Lemma compareUUIDBytes_spec a b : uuid_ok a -> uuid_ok b -> compareUUIDBytes a b = match a ?= b with Eq => 0 | Lt => -1 | Gt => 1 end.
Proof.
  intros Ha Hb. unfold compareUUIDBytes. rewrite compare_bytes_lcmp by (by rewrite !length_be_bytes). rewrite lcmp_be_bytes.
  change (2 ^ (8 * Z.of_nat 16)) with (2 ^ 128). unfold uuid_ok in *. by rewrite !Z.mod_small.
Qed.

Section source.
Context (ids : nat -> uuid) (Hids : event_source ids).

Lemma source_lt i j : (i < j)%nat -> (j < draws)%nat -> ids i < ids j.
Proof using Hids. induction 1 as [|j Hj IH]; intros Hn; [by apply Hids|]. etransitivity; [apply IH; lia|by apply Hids]. Qed.
Lemma source_versions n i : (i + n <= draws)%nat -> forallb (fun id => Version id =? 7) (map ids (seq i n)) = true.
Proof using Hids. intros Hn. apply forallb_forall. intros x (k & <- & [_ Hk]%in_seq)%in_map_iff. apply Z.eqb_eq, Hids. lia. Qed.
Lemma source_ascending n i : (i + n <= draws)%nat -> ascending (map ids (seq i n)) = true.
Proof using Hids.
  revert i. induction n as [|n IH]; intros i Hn; [done|]. destruct n as [|n]; [done|]. specialize (IH (S i) ltac:(lia)). cbn [seq map] in *.
  cbn [ascending] in *. rewrite IH, andb_true_r. rewrite compareUUIDBytes_spec by (apply Hids; lia).
  pose proof (source_lt i (S i) ltac:(lia) ltac:(lia)) as Hlt. apply Z.compare_lt_iff in Hlt. by rewrite Hlt.
Qed.
End source.

(** ** A store that keeps the contract passes *)

Section passes.
Context {P W T : Type} `{Co : MetadataContract P W T} (New NewEventID : nat -> uuid) (null : P) (payload : uuid -> P).
Context (Hids : event_source NewEventID).
#[local] Set Default Proof Using "All".

Lemma prefix_differs m1 m2 : "user.created.commit." +:+ m1 <> "user.created.rollback." +:+ m2.
Proof. done. Qed.

Lemma user_there s id : has_user s id -> exists u, mb_GetUserByID id s = Ok (Some u).
Proof. intros Hu. destruct (user_found s id) as ([u|] & Hr & Hs); [by exists u|]. apply Hs in Hu as [? ?]. done. Qed.
Lemma user_absent s id : ~ has_user s id -> mb_GetUserByID id s = Ok None.
Proof. intros Hu. destruct (user_found s id) as ([u|] & Hr & Hs); [|done]. exfalso. apply Hu, Hs. by exists u. Qed.
Lemma counted_nil d et s : Domain_Valid d = true -> events s = [] -> counted (OutboxCount d et s) 0 = true.
Proof. intros Hd He. by rewrite count_law, He by done. Qed.
(** The one event of the domain that was written last. *)
Lemma counted_last d et s l e : Domain_Valid d = true -> events s = l ++ [e] -> or_Domain e = d -> or_EventType e = et ->
  Forall (fun x => or_Domain x <> d) l -> counted (OutboxCount d et s) 1 = true.
Proof.
  intros Hd He H1 H2 Hl. rewrite count_law, He by done. rewrite filter_app.
  assert (E : filter (fun x => or_Domain x = d /\ or_EventType x = et) l = []).
  { clear He. induction Hl as [|x l Hx Hl IH]; [done|]. rewrite filter_cons_False; [done|]. by intros [? _]. }
  rewrite E. cbn [app]. by rewrite filter_cons_True by done.
Qed.

Lemma commit_passes s : fresh s -> Transact_commit_on_nil_error New s = Passed.
Proof.
  intros [_ Hs]%fresh_law. unfold Transact_commit_on_nil_error. cbn zeta. edestruct insert_law as (s' & -> & Hu & _); [apply Hs|].
  destruct (user_there _ _ Hu) as (u & Hr). cbn [u_ID suite_user] in Hr. by rewrite Hr.
Qed.

Lemma fails_after {A} (m : action error T A) e : forall t, (bind (ignoring m) (fun _ => throw (A := unit) e) t).2 = Err e.
Proof. done. Qed.

Lemma rollback_passes s : fresh s -> Transact_rollback_on_non_nil_error New s = Passed.
Proof.
  intros [_ Hs]%fresh_law. unfold Transact_rollback_on_non_nil_error. cbn zeta. rewrite (fails_law _ sentinel) by apply fails_after.
  by rewrite user_absent by apply Hs.
Qed.

Lemma invariant_passes s : fresh s -> WriteOutbox_transactional_invariant New NewEventID null payload s = Passed.
Proof.
  intros [He Hs]%fresh_law. unfold WriteOutbox_transactional_invariant. cbn zeta.
  edestruct both_law as (s' & -> & Hu & Hs'); [apply Hs|done|by rewrite He; apply not_elem_of_nil|]. rewrite He in Hs'. cbn [app] in Hs'.
  erewrite (counted_last _ _ s' []); [|done..]. rewrite (fails_law _ (errors_New "rollback")) by done. cbn [succeeded is_ok andb].
  rewrite count_law, Hs' by done. rewrite filter_cons_False; [done|]. cbn. by intros [_ ?%prefix_differs].
Qed.

(** Some event identifiers drawn before the [i]-th. *)
Definition drawn_before (i : nat) (s : W) : Prop := forall e, e ∈ events s -> exists j, (j < i)%nat /\ or_EventID e = NewEventID j.
Lemma drawn_fresh i s : (i < draws)%nat -> drawn_before i s -> NewEventID i ∉ map or_EventID (events s).
Proof. intros Hi Hs (e & E & He)%list_elem_of_fmap. destruct (Hs e He) as (j & Hj & Ej). pose proof (source_lt _ Hids j i Hj Hi). lia. Qed.
Lemma drawn_next i s s' e : drawn_before i s -> events s' = events s ++ [e] -> or_EventID e = NewEventID i -> drawn_before (S i) s'.
Proof.
  intros Hs He Ei x. rewrite He, elem_of_app, list_elem_of_singleton. intros [Hx| ->]; [|exists i; split; [lia|done]].
  destruct (Hs x Hx) as (j & Hj & Ej). exists j. split; [lia|done].
Qed.
Lemma drawn_nil i s : events s = [] -> drawn_before i s.
Proof. intros He e. by rewrite He, elem_of_nil. Qed.

Lemma each_domain_passes et pl check ds : NoDup ds -> Forall (fun d => Domain_Valid d = true) ds ->
  (forall d s' l e, d ∈ ds -> events s' = l ++ [e] -> or_Domain e = d -> or_EventType e = et d -> Forall (fun x => or_Domain x <> d) l -> check d s' = true) ->
  forall i s, (i + length ds <= draws)%nat -> drawn_before i s -> Forall (fun e => or_Domain e ∉ ds) (events s) ->
  each_domain (fun i d => mb_WriteOutbox (NewEventID i) d "TestAggregate" (New i) (et d) (pl d)) check i ds s = true.
Proof.
  induction ds as [|d ds IH]; intros Hnd Hv Hc i s Hn Hi Hs; [done|]. cbn [length] in Hn. apply NoDup_cons in Hnd as [Hd Hnd]. apply Forall_cons in Hv as [Hvd Hv]. cbn [each_domain].
  destruct (write_law (NewEventID i) d "TestAggregate" (New i) (et d) (pl d) s Hvd (drawn_fresh i s ltac:(lia) Hi)) as (s' & -> & Hs').
  cbn [succeeded is_ok andb]. rewrite (Hc d s' (events s) _ ltac:(left) Hs'); [cbn [andb]|done|done|].
  - apply IH; [done|done| |lia|by eapply drawn_next|].
    + intros d' s1 l e Hd' ? ? ? ?. eapply (Hc d'); [by right|done..].
    + rewrite Hs'. apply Forall_app. split; [|by apply Forall_singleton]. eapply Forall_impl; [exact Hs|]. cbn. intros e He. by apply not_elem_of_cons in He as [? ?].
  - eapply Forall_impl; [exact Hs|]. cbn. intros e He. by apply not_elem_of_cons in He as [? ?].
Qed.

Lemma suite_domains_ok : NoDup suite_domains /\ Forall (fun d => Domain_Valid d = true) suite_domains.
Proof. split; [by apply (bool_decide_unpack _)|by repeat constructor]. Qed.

Lemma allowlist_passes pl s : fresh s -> WriteOutbox_domain_allowlist New NewEventID null pl s = Passed.
Proof.
  intros [He Hs]%fresh_law. unfold WriteOutbox_domain_allowlist. destruct (write_invalid (NewEventID 0) "bogus" "x" (New 0%nat) "x.created" null s ltac:(done)) as (e & ->).
  cbn [succeeded is_ok negb andb]. destruct suite_domains_ok. rewrite (each_domain_passes (fun _ => "test.allowlist")); [done|done|done|done|cbn; unfold draws; lia|by apply drawn_nil|by rewrite He].
Qed.

Lemma dispatch_passes s : fresh s -> WriteOutbox_table_dispatch New NewEventID null s = Passed.
Proof.
  intros [He Hs]%fresh_law. unfold WriteOutbox_table_dispatch. cbn zeta. destruct suite_domains_ok as [Hnd Hv].
  rewrite (each_domain_passes (dispatch_type (prefix8 (New 0%nat)))); [done|done|done| |cbn; unfold draws; lia|by apply drawn_nil|by rewrite He].
  intros d s' l e Hd Hs' H1 H2 Hl. eapply counted_last; try done. rewrite Forall_forall in Hv. by apply Hv.
Qed.

Lemma write_events_run n : forall i s, (i + n <= draws)%nat -> drawn_before i s -> exists s', write_events New NewEventID null n i s = Some s' /\
  events s' = events s ++ map (fun j => event DomainCollaboration "TestAggregate" (New j) "test.uuidv7" null (NewEventID j)) (seq i n).
Proof.
  induction n as [|n IH]; intros i s Hn Hi; cbn [write_events seq map]; [exists s; by rewrite app_nil_r|].
  destruct (write_law (NewEventID i) DomainCollaboration "TestAggregate" (New i) "test.uuidv7" null s ltac:(done) (drawn_fresh i s ltac:(lia) Hi)) as (s' & -> & Hs').
  destruct (IH (S i) s') as (s2 & -> & Hs2); [lia|by eapply drawn_next|]. exists s2. split; [done|]. by rewrite Hs2, Hs', <- app_assoc.
Qed.

Lemma collaboration_ids l : map or_EventID (filter (fun e : OutboxRecord P => or_Domain e = DomainCollaboration)
  (map (fun j => event DomainCollaboration "TestAggregate" (New j) "test.uuidv7" null (NewEventID j)) l)) = map NewEventID l.
Proof. induction l as [|j l IH]; [done|]. cbn [map]. rewrite filter_cons_True by done. cbn [map]. by rewrite IH. Qed.

Lemma monotonic_passes s : fresh s -> EventID_monotonic_uuidv7 New NewEventID null s = Passed.
Proof.
  intros [He Hs]%fresh_law. unfold EventID_monotonic_uuidv7. destruct (write_events_run draws 0 s (le_n _) (drawn_nil _ _ He)) as (s' & -> & Hs'). rewrite He in Hs'. cbn [app] in Hs'.
  rewrite ids_law, Hs' by done. rewrite collaboration_ids, length_map, length_seq, source_versions, source_ascending by done. done.
Qed.

(** Every store that keeps its contract passes the suite.  From a fresh
    store, with event identifiers of version 7 that ascend, each case passes:
    transactions commit all they did or nothing, each domain has its own outbox,
    others are refused, events are read back in order; the race, whatever comes
    of it, is not a failure. *)
Theorem contract_store_complies domain_payload race s : fresh s ->
  Forall (eq Passed) (RunMetadataStoreCompliance New NewEventID null payload true domain_payload race s) /\
  Forall (fun v => v <> Failed) (RunMetadataStoreCompliance New NewEventID null payload false domain_payload race s).
Proof.
  intros Hs. pose proof (fresh_law s Hs) as [_ Hn]. unfold RunMetadataStoreCompliance.
  rewrite commit_passes, rollback_passes, invariant_passes, allowlist_passes, dispatch_passes, monotonic_passes by done.
  assert (Hr : RepositoryReader_unknown_id_returns_nil_no_error New s = Passed).
  { unfold RepositoryReader_unknown_id_returns_nil_no_error. by destruct (Hn (New 0%nat)) as [_ ->]. }
  assert (Hrace : Serializable_retry_contract_40001 New race s <> Failed).
  { unfold Serializable_retry_contract_40001. cbn zeta.
    destruct (insert_law (suite_user (email_of "serial" (New 0%nat)) (New 0%nat)) s (fun id => proj1 (Hn id))) as (s' & -> & _). cbn. by case_match. }
  rewrite Hr. cbn [app]. split; repeat constructor; done.
Qed.
End passes.

(** ** The in-memory store *)

(** [stubVerifier] reads [Recorded]. *)
Definition stub_count {P} (d : Domain) (et : string) (s : Store P) : Z :=
  Z.of_nat (length (filter (fun r => or_Domain r = d /\ or_EventType r = et) (Recorded s))).
#[export] Instance stub_backend {P} : MetadataBackend P (Store P) (txstate P) := {
  mb_Transact := fun fn s => Transact fn (fun _ => s) s;
  mb_InsertHumanUser := InsertHumanUser;
  mb_WriteOutbox := WriteOutbox;
  mb_GetUserByID := fun id s => Ok (GetUserByID id s);
  mb_GetRepositoryByID := fun id s => Ok (GetByID id s);
  OutboxCount := fun d et s => Ok (stub_count d et s);
  OutboxEventIDs := fun d s => Ok (map or_EventID (filter (fun r => or_Domain r = d) (Recorded s))) }.

#[export] Instance stub_contract {P} : MetadataContract P (Store P) (txstate P).
Proof.
  refine {| has_user s id := is_Some (users s !! id); events := outbox; fresh s := s = MetadataStore.New |}.
  - intros s id. exists (users s !! id). done.
  - intros s ->. split; [done|]. intros id. cbn. unfold GetByID. cbn. rewrite !lookup_empty. split; [by intros [? ?]|done].
  - done.
  - done.
  - intros fn e s Hf. cbn. unfold Transact. specialize (Hf (mkTxState (fun _ => s) empty_tx)). destruct (fn _) as [t a]. cbn in Hf. by subst a.
  - intros u s _. eexists. split; [done|]. cbn. rewrite app_nil_r, lookup_union, insert_empty, lookup_singleton_eq. by destruct (users s !! u_ID u).
  - intros i d at_ ai et p s Hd _. cbn. unfold Transact, WriteOutbox, require. rewrite Hd. by eexists.
  - intros i d at_ ai et p s Hd. cbn. unfold Transact, WriteOutbox, require. rewrite Hd. by eexists.
  - intros u i d at_ ai et p s _ Hd _. cbn. unfold Transact, WriteOutbox, require. rewrite Hd. eexists. split; [done|]. cbn.
    rewrite lookup_union, insert_empty, lookup_singleton_eq. by destruct (users s !! u_ID u).
Defined.

(** ** The store on PostgreSQL *)

(** A connection without faults; [from_pool] reads outside a transaction. *)
Definition healthy (now : time) : conn := mkConn None now (fun _ => None) None.

Section postgres.
Context {P : Type} {MR : MapRange} {NU : Numeric} (now : time).

Definition pg_count (d : Domain) (et : string) : pg P Z :=
  query (fun db => Z.of_nat (length (filter (fun r => or_Domain r = d /\ or_EventType r = et) (outboxes db)))).
Definition pg_event_ids (d : Domain) : pg P (list uuid) := query (fun db => map or_EventID (filter (fun r => or_Domain r = d) (outboxes db))).

#[local] Instance postgres_backend : MetadataBackend P (Db P) (pgtx P) := {
  mb_Transact := fun fn => Store_Transact fn (healthy now);
  mb_InsertHumanUser := pg_InsertHumanUser;
  mb_WriteOutbox := pg_WriteOutbox;
  mb_GetUserByID := fun id d => from_pool (pg_GetUserByID id) (healthy now) d;
  mb_GetRepositoryByID := fun id d => from_pool (pg_GetByID id) (healthy now) d;
  OutboxCount := fun dm et d => from_pool (pg_count dm et) (healthy now) d;
  OutboxEventIDs := fun dm d => from_pool (pg_event_ids dm) (healthy now) d }.

Lemma nobody_taken {B} `{EqDecision B} (key : user_row -> B) v (m : gmap uuid user_row) : (forall id, ~ is_Some (m !! id)) -> taken key v m = false.
Proof. intros Hm. unfold taken. apply bool_decide_eq_false. intros (k & a & Ha & _). by apply (Hm k). Qed.

(** An [event_id] that is not there yet. *)
Lemma event_new dm i (l : list (OutboxRecord P)) : i ∉ map or_EventID l ->
  existsb (fun e => bool_decide (or_Domain e = dm) && bool_decide (or_EventID e = i)) l = false.
Proof.
  intros Hi. apply not_true_iff_false. intros (e & He & Hb)%existsb_exists. apply andb_true_iff in Hb as [_ <-%bool_decide_eq_true].
  apply Hi, list_elem_of_fmap. exists e. split; [done|by apply list_elem_of_In].
Qed.

#[local] Instance postgres_contract : MetadataContract P (Db P) (pgtx P).
Proof.
  refine {| has_user d id := is_Some (human_users d !! id); events := outboxes; fresh d := d = fresh_db (organisations d) (quota_accounts d) |}.
  - intros d id. cbn. eexists. split; [done|]. unfold users_of. by rewrite lookup_fmap, fmap_is_Some.
  - intros d ->. split; [done|]. intros id. cbn. rewrite !lookup_empty. split; [by intros [? ?]|done].
  - done.
  - done.
  - intros fn e d Hf. cbn. unfold Store_Transact. cbn [cn_begin healthy]. specialize (Hf (begin_tx (healthy now) d)). destruct (fn _) as [t a]. cbn in Hf. by subst a.
  - intros u d Hu. cbn. unfold Store_Transact, pg_InsertHumanUser, exec. cbn [cn_begin healthy begin_tx tx_aborted tx_faults tx_statement cn_faults tx_db].
    rewrite bool_decide_false by apply Hu. rewrite nobody_taken by done. cbn. eexists. split; [done|]. cbn. by rewrite lookup_insert_eq.
  - intros i dm at_ ai et p d Hd Hi. cbn. unfold Store_Transact, pg_WriteOutbox, require. rewrite Hd. cbn. rewrite event_new by done. cbn. by eexists.
  - intros i dm at_ ai et p d Hd. cbn. unfold Store_Transact, pg_WriteOutbox, require. rewrite Hd. by eexists.
  - intros u i dm at_ ai et p d Hu Hd Hi. cbn. unfold Store_Transact, bind, pg_InsertHumanUser, exec at 1. cbn [cn_begin healthy begin_tx tx_aborted tx_faults tx_statement cn_faults tx_db].
    rewrite bool_decide_false by apply Hu. rewrite nobody_taken by done. cbn. unfold pg_WriteOutbox, require. rewrite Hd. cbn. rewrite event_new by done. cbn.
    eexists. split; [done|]. cbn. by rewrite lookup_insert_eq.
Defined.

End postgres.

(** ** Both pass *)

Lemma both_stores_comply {P} {MR : MapRange} {NU : Numeric} now New NewEventID (null : P) payload domain_payload race orgs quotas : event_source NewEventID ->
  Forall (eq Passed) (RunMetadataStoreCompliance New NewEventID null payload true domain_payload (fun _ _ s => (s, (Ok tt, Ok tt))) (MetadataStore.New : Store P)) /\
  Forall (fun v => v <> Failed) (RunMetadataStoreCompliance (H := postgres_backend now) New NewEventID null payload false domain_payload race (fresh_db orgs quotas)).
Proof.
  intros Hids. split; [by apply contract_store_complies|].
  by apply (contract_store_complies (Co := postgres_contract now)).
Qed.

(** A store that answers the race without a retry is not found out: it is
    skipped, as is one that always succeeds. *)
Example race_never_fails {P} (u : uuid) :
  map (fun race => Serializable_retry_contract_40001 (fun _ => u) race (MetadataStore.New : Store P))
    [(fun _ _ s => (s, (Ok tt, Ok tt))); (fun _ _ s => (s, (Err (errors_New "seed user missing"), Err (errors_New "connection reset"))))] = [Skipped; Skipped].
Proof. done. Qed.

Definition sample_ids (n : nat) : uuid := 7 * 2 ^ 76 + Z.of_nat n.
Lemma sample_source : event_source sample_ids.
Proof.
  split; intros n Hn; [unfold uuid_ok, sample_ids, draws in *; lia| |unfold sample_ids; lia].
  assert (Hv : forallb (fun n => Version (sample_ids n) =? 7) (seq 0 draws) = true) by (vm_compute; done).
  rewrite forallb_forall in Hv. apply Z.eqb_eq, Hv, in_seq. lia.
Qed.
Lemma contract_store_complies_witness :
  Forall (eq Passed) (RunMetadataStoreCompliance sample_ids sample_ids "null" uuid_String true id (fun _ _ s => (s, (Ok tt, Ok tt))) (MetadataStore.New : Store string)).
Proof. apply (contract_store_complies sample_ids sample_ids "null" uuid_String sample_source id). done. Defined.
