(* ===== verification/SchemaText.v ===== *)
(** * Field names of a GraphQL schema text

    [plane/application/graphql/schema/sdl_extract.go]: a line scanner that
    collects the field names of each object type, for the comparison of the
    schema with the GitHub snapshot.  A schema in the layout of the one in the
    repository, a field or a brace a line, is read back exactly; other layouts
    of the same schema are not. *)

From S2P Require Import Prelude GoStd Json.

(** ** Lines *)

(** [bufio.Scanner] with a buffer of a megabyte: a line that does not fit ends
    the scan, without an error that the caller would see. *)
Definition maxTokenSize : nat := Z.to_nat (1024 * 1024).
Definition newline : ascii := chr 10.
Definition dropCR (l : list ascii) : list ascii :=
  match last l with Some c => if bool_decide (c = chr 13) then removelast l else l | None => l end.
Fixpoint tokens (ls : list (list ascii)) : list (list ascii) :=
  match ls with
  | [] => []
  | [l] => if bool_decide (l = []) || (maxTokenSize <=? length l)%nat then [] else [dropCR l]
  | l :: ls => if (maxTokenSize <=? length l)%nat then [] else dropCR l :: tokens ls
  end.
Definition scan_text (sdl : list ascii) : list (list ascii) := tokens (split_on newline sdl).

(** [strings.Fields]: the maximal runs without space; [skip] counts the bytes
    left of a space. *)
Fixpoint space_width (set : list (list ascii)) (l : list ascii) : option nat :=
  match set with
  | [] => None
  | p :: set => match strip_prefix p l with Some _ => Some (length p) | None => space_width set l end
  end.
Definition flush (cur : list ascii) (ws : list (list ascii)) : list (list ascii) := match cur with [] => ws | _ => cur :: ws end.
Fixpoint fields_loop (skip : nat) (cur l : list ascii) : list (list ascii) :=
  match l with
  | [] => flush cur []
  | c :: l' =>
      match skip with
      | S skip => fields_loop skip cur l'
      | O =>
          match space_width space_encodings l with
          | Some n => flush cur (fields_loop (n - 1) [] l')
          | None => fields_loop 0 (cur ++ [c]) l'
          end
      end
  end.
Definition Fields (l : list ascii) : list (list ascii) := fields_loop 0 [] l.

(** ** sdl_extract.go *)

Definition hash : ascii := "#".
Fixpoint strip_comment (inStr : bool) (l : list ascii) : list ascii :=
  match l with
  | [] => []
  | r :: l =>
      let inStr := if bool_decide (r = dquote) then negb inStr else inStr in
      if bool_decide (r = hash) && negb inStr then [] else r :: strip_comment inStr l
  end.
Definition stripComment (l : list ascii) : list ascii := strip_comment false l.

Definition isIdent (c : ascii) : bool := is_lower c || is_upper c || is_digit c || bool_decide (c = "_"%char).

Fixpoint identifier (l : list ascii) : list ascii * list ascii :=
  match l with
  | c :: l' => if isIdent c then let '(name, rest) := identifier l' in (c :: name, rest) else ([], l)
  | [] => ([], [])
  end.

Definition reserved : list string :=
  ["type"; "enum"; "scalar"; "input"; "interface"; "union"; "directive"; "schema"; "extend"; "implements"].

Definition starts_with (cs : list ascii) (l : list ascii) : bool := match l with c :: _ => bool_decide (c ∈ cs) | [] => false end.
Definition extractFieldName (s : list ascii) : option string :=
  if bool_decide (s = []) || starts_with ["{"%char; "}"%char; dquote; "@"%char] s then None
  else
    let '(name, rest) := identifier s in
    if bool_decide (name = []) then None
    else if bool_decide (l2s name ∈ reserved) then None
    else
      let rest := s2l (TrimSpace (l2s rest)) in
      if bool_decide (rest = []) then None
      else if starts_with [":"%char; "("%char] rest then Some (l2s name) else None.

Record extractor := mkExtractor { out : gmap string (gset string); currentType : string; braceDepth : Z }.

Definition count (c : ascii) (l : list ascii) : Z := Z.of_nat (length (filter (fun x => x = c) l)).
(** [name[:strings.IndexAny(name, cs)]], or all of it. *)
Fixpoint before_any (cs l : list ascii) : list ascii :=
  match l with c :: l => if bool_decide (c ∈ cs) then [] else c :: before_any cs l | [] => [] end.
(** The header of an object type; [None] when the code would index a field that
    is not there. *)
Definition enter_type (trimmed : string) (e : extractor) : option extractor :=
  if (braceDepth e =? 0) && HasPrefix trimmed "type " then
    name ← Fields (s2l trimmed) !! 1%nat;
    let name := l2s (before_any [" "%char; chr 9] name) in
    Some (mkExtractor (match out e !! name with Some _ => out e | None => <[name := ∅]> (out e) end) name (braceDepth e))
  else Some e.
Definition scan_line (l : list ascii) (e : extractor) : option extractor :=
  let line := stripComment l in
  let trimmed := TrimSpace (l2s line) in
  if bool_decide (trimmed = "") then Some e
  else
    e ← enter_type trimmed e;
    let depth := braceDepth e + (count "{" line - count "}" line) in
    let out :=
      if negb (bool_decide (currentType e = "")) && (0 <? depth) then
        match extractFieldName (s2l trimmed) with
        | Some name => alter (fun fs => {[ name ]} ∪ fs) (currentType e) (out e)
        | None => out e
        end
      else out e in
    Some (if depth <=? 0 then mkExtractor out "" 0 else mkExtractor out (currentType e) depth).
Fixpoint scan_lines (ls : list (list ascii)) (e : extractor) : option extractor :=
  match ls with
  | [] => Some e
  | l :: ls => e ← scan_line l e; scan_lines ls e
  end.
Definition extractTypeFields (sdl : string) : option (gmap string (gset string)) :=
  out <$> scan_lines (scan_text (s2l sdl)) (mkExtractor ∅ "" 0).

(** ** It does not panic *)

Lemma strip_any_split set l r : strip_any set l = Some r -> exists p, p ∈ set /\ l = p ++ r.
Proof.
  induction set as [|p set IH]; cbn; [done|]. destruct (strip_prefix p l) as [r'|] eqn:E.
  - intros [= <-]. apply strip_prefix_spec in E. exists p. split; [left|done].
  - intros (q & Hq & ->)%IH. exists q. split; [by right|done].
Qed.
Lemma strip_any_found set l p r : p ∈ set -> l = p ++ r -> is_Some (strip_any set l).
Proof.
  intros Hp ->. induction set as [|q set IH]; [by apply elem_of_nil in Hp|]. cbn. destruct (strip_prefix q _) eqn:E; [done|].
  apply elem_of_cons in Hp as [->|Hp]; [by rewrite strip_prefix_app in E|by apply IH].
Qed.

Definition proper_set (set : list (list ascii)) : bool := forallb (fun p => negb (bool_decide (p = []))) set.
Lemma proper_elem set p : proper_set set = true -> p ∈ set -> p <> [].
Proof. intros Hs Hp. unfold proper_set in Hs. rewrite forallb_forall in Hs. apply list_elem_of_In, Hs in Hp. by apply negb_true_iff, bool_decide_eq_false in Hp. Qed.

(** Nothing is left to trim, and only what precedes is dropped. *)
Lemma trim_any_done set : proper_set set = true -> forall fuel l, (length l <= fuel)%nat -> strip_any set (trim_any set fuel l) = None.
Proof.
  intros Hs. induction fuel as [|fuel IH]; intros l Hl; cbn [trim_any].
  - destruct l; [|cbn in Hl; lia]. destruct (strip_any set []) as [r|] eqn:E; [|done]. apply strip_any_split in E as (p & Hp & E).
    apply (proper_elem _ _ Hs) in Hp. destruct p; by cbn in E.
  - destruct (strip_any set l) as [r|] eqn:E; [|done]. apply strip_any_split in E as (p & Hp & ->). apply IH.
    apply (proper_elem _ _ Hs) in Hp. rewrite length_app in Hl. destruct p; [done|]. cbn in Hl. lia.
Qed.
Lemma trim_any_suffix set fuel : forall l, exists l0, l = l0 ++ trim_any set fuel l.
Proof.
  induction fuel as [|fuel IH]; intros l; cbn [trim_any]; [by exists []|]. destruct (strip_any set l) as [r|] eqn:E; [|by exists []].
  apply strip_any_split in E as (p & _ & ->). destruct (IH r) as (l0 & Hr). exists (p ++ l0). rewrite <- app_assoc. by rewrite <- Hr.
Qed.

(** What is trimmed does not end in a space. *)
Lemma TrimSpace_end s p l : p ∈ space_encodings -> s2l (TrimSpace s) <> l ++ p.
Proof.
  intros Hp E. unfold TrimSpace, trim_left_set in E. rewrite s2l_l2s in E.
  set (t := s2l (trim_right_set space_encodings s)) in *. destruct (trim_any_suffix space_encodings (String.length (trim_right_set space_encodings s)) t) as (l0 & Ht).
  rewrite E in Ht. unfold t, trim_right_set in Ht. rewrite s2l_l2s in Ht. apply (f_equal reverse) in Ht. rewrite reverse_involutive, !reverse_app in Ht.
  pose proof (trim_any_done (reverse <$> space_encodings) ltac:(done) (String.length s) (reverse (s2l s))) as Hd. rewrite length_reverse, s2l_length in Hd. specialize (Hd ltac:(done)).
  rewrite Ht, <- app_assoc in Hd. destruct (strip_any_found (reverse <$> space_encodings) _ (reverse p) (reverse l ++ reverse l0) (list_elem_of_fmap_2 _ _ _ Hp) eq_refl) as [r Hr]. by rewrite Hr in Hd.
Qed.
(** Words and what separates them. *)
Lemma space_width_strip set l : space_width set l = None <-> strip_any set l = None.
Proof. induction set as [|p set IH]; cbn; [done|]. by destruct (strip_prefix p l). Qed.
Lemma space_width_some set l n : space_width set l = Some n -> exists p r, p ∈ set /\ l = p ++ r /\ n = length p.
Proof.
  induction set as [|p set IH]; cbn; [done|]. destruct (strip_prefix p l) as [r|] eqn:E.
  - intros [= <-]. apply strip_prefix_spec in E. exists p, r. split; [left|done].
  - intros (q & r & Hq & ? & ?)%IH. exists q, r. split; [by right|done].
Qed.
Lemma visible_width c l : visible c -> space_width space_encodings (c :: l) = None.
Proof. intros Hc. apply space_width_strip. by apply strip_any_visible. Qed.

Lemma fields_skip a r cur : fields_loop (length a) cur (a ++ r) = fields_loop 0 cur r.
Proof. induction a as [|c a IH]; [done|exact IH]. Qed.
Lemma fields_word w : Forall visible w -> forall cur l, fields_loop 0 cur (w ++ l) = fields_loop 0 (cur ++ w) l.
Proof.
  induction 1 as [|c w Hc Hw IH]; intros cur l; [by rewrite app_nil_r|]. cbn [app fields_loop]. rewrite visible_width, IH by done. by rewrite <- app_assoc.
Qed.
Lemma fields_blank cur l : fields_loop 0 cur (chr 32 :: l) = flush cur (fields_loop 0 [] l).
Proof. done. Qed.
Lemma fields_pending l : forall skip cur, cur <> [] -> fields_loop skip cur l <> [].
Proof.
  induction l as [|c l IH]; intros skip cur Hc; cbn [fields_loop]; [by destruct cur|]. destruct skip; [|by apply IH].
  destruct (space_width _ _); [by destruct cur|]. apply IH. by destruct cur.
Qed.
Lemma no_fields n : forall l, (length l <= n)%nat -> Fields l = [] -> l = [] \/ exists l0 p, p ∈ space_encodings /\ l = l0 ++ p.
Proof.
  unfold Fields. induction n as [|n IH]; intros l Hl; [left; destruct l; [done|cbn in Hl; lia]|]. destruct l as [|c l]; [by left|]. cbn [fields_loop].
  destruct (space_width space_encodings (c :: l)) as [k|] eqn:E; [|intros H; exfalso; revert H; by apply fields_pending]. cbn [flush].
  apply space_width_some in E as (p & r & Hp & E & ->). destruct p as [|x p]; [by apply (proper_elem space_encodings) in Hp|]. injection E as <- ->. intros Hf.
  cbn [length] in Hf, Hl. rewrite Nat.sub_succ, Nat.sub_0_r, fields_skip in Hf. rewrite length_app in Hl. right.
  destruct (IH r ltac:(lia) Hf) as [->|(l0 & q & Hq & ->)]; [exists [], (c :: p)|exists ((c :: p) ++ l0), q]; split; try done; [by rewrite app_nil_r|by rewrite <- app_assoc].
Qed.

Lemma enter_type_total s e : is_Some (enter_type (TrimSpace s) e).
Proof.
  unfold enter_type. destruct ((braceDepth e =? 0) && _) eqn:E; [|done]. apply andb_true_iff in E as [_ (r & Hr)%HasPrefix_spec].
  assert (Hs : s2l (TrimSpace s) = s2l "type" ++ chr 32 :: s2l r) by (by rewrite Hr, s2l_app).
  assert (Hf : Fields (s2l (TrimSpace s)) = s2l "type" :: Fields (s2l r)).
  { rewrite Hs. unfold Fields. rewrite fields_word by (repeat constructor; by vm_compute). cbn [app]. by rewrite fields_blank. }
  rewrite Hf. cbn [lookup list_lookup]. destruct (Fields (s2l r)) as [|w ws] eqn:Er; [|done]. exfalso.
  apply (no_fields (length (s2l r))) in Er as [Er|(l0 & p & Hp & Er)]; [| |done]; rewrite Er in Hs.
  - apply (TrimSpace_end s [chr 32] (s2l "type")); [|done]. apply (bool_decide_unpack _). by vm_compute.
  - apply (TrimSpace_end s p (s2l "type" ++ chr 32 :: l0)); [done|]. by rewrite Hs, <- app_assoc.
Qed.

Theorem extract_never_panics sdl : is_Some (extractTypeFields sdl).
Proof.
  unfold extractTypeFields. rewrite fmap_is_Some. generalize (mkExtractor ∅ "" 0). induction (scan_text (s2l sdl)) as [|l ls IH]; intros e; [done|].
  cbn [scan_lines]. unfold scan_line. case_bool_decide; [apply IH|]. destruct (enter_type_total (l2s (stripComment l)) e) as [e' ->]. apply IH.
Qed.
(** ** Schemas in the layout of the repository's *)

(** An object type with what stands between its name and its brace, and its
    fields with what follows their names; a block of another kind; a line
    outside blocks, which may end in a comment. *)
Inductive decl :=
| Object (name directives : list ascii) (fields : list (list ascii * list ascii))
| Block (header : list ascii) (body : list (list ascii))
| Line (text comment : list ascii).

Definition indent (n : nat) (l : list ascii) : list ascii := replicate n (chr 32) ++ l.
Definition print_decl (d : decl) : list (list ascii) :=
  match d with
  | Object name dirs fields => [s2l "type " ++ name ++ dirs ++ s2l " {"] ++ map (fun f => indent 2 (f.1 ++ f.2)) fields ++ [s2l "}"]
  | Block header body => [header ++ s2l " {"] ++ map (indent 2) body ++ [s2l "}"]
  | Line text comment => [text ++ comment]
  end.
Definition print_schema (ds : list decl) : string := l2s (mjoin (map (fun l => l ++ [newline]) (mjoin (map print_decl ds)))).

(** Text without braces, quotes, comments and ends of lines. *)
Definition plain (c : ascii) : bool := negb (bool_decide (c ∈ ["{"%char; "}"%char; dquote; hash; newline; chr 13])).
Definition plain_text (l : list ascii) : bool := forallb plain l.
Definition field_ok (f : list ascii * list ascii) : bool :=
  negb (bool_decide (f.1 = [])) && forallb isIdent f.1 && negb (bool_decide (l2s f.1 ∈ reserved)) &&
  plain_text f.2 && starts_with [":"%char; "("%char] f.2 && ends_visible_b f.2.
Definition decl_ok (d : decl) : bool :=
  forallb (fun l => length l <? maxTokenSize)%nat (print_decl d) &&
  match d with
  | Object name dirs fields =>
      negb (bool_decide (name = [])) && forallb isIdent name && plain_text dirs && (bool_decide (dirs = []) || starts_with [" "%char] dirs) &&
      forallb field_ok fields
  | Block header body => plain_text header && ends_visible_b (header ++ s2l " {") && negb (HasPrefix (l2s (header ++ s2l " {")) "type ") && forallb plain_text body
  | Line text comment =>
      plain_text text && (bool_decide (comment = []) || starts_with [hash] comment) && forallb (fun c => negb (bool_decide (c ∈ [newline; chr 13]))) comment
      && negb (HasPrefix (TrimSpace (l2s text)) "type ")
  end.

Definition add_decl (d : decl) (m : gmap string (gset string)) : gmap string (gset string) :=
  match d with
  | Object name _ fields => <[l2s name := list_to_set (map (fun f => l2s f.1) fields) ∪ default ∅ (m !! l2s name)]> m
  | _ => m
  end.

(** *** Lines of plain text *)

Lemma strip_plain a b : plain_text a = true -> stripComment (a ++ b) = a ++ stripComment b.
Proof.
  unfold stripComment. induction a as [|c a IH]; [done|]. cbn [plain_text forallb app strip_comment]. intros [Hc Ha]%andb_true_iff.
  unfold plain in Hc. apply negb_true_iff, bool_decide_eq_false in Hc.
  rewrite !bool_decide_false by (intros ->; apply Hc; set_solver). cbn [andb]. by rewrite IH.
Qed.
Lemma count_plain c l : c ∈ ["{"%char; "}"%char] -> plain_text l = true -> count c l = 0.
Proof.
  intros Hc. unfold count. induction l as [|x l IH]; [done|]. cbn [plain_text forallb]. intros [Hx Hl]%andb_true_iff.
  rewrite filter_cons_False; [by apply IH|]. intros ->. unfold plain in Hx. apply negb_true_iff, bool_decide_eq_false in Hx. set_solver.
Qed.
Lemma count_app c a b : count c (a ++ b) = count c a + count c b.
Proof. unfold count. rewrite filter_app, length_app. lia. Qed.

Lemma TrimSpace_indent n l : ends_visible l -> TrimSpace (l2s (indent n l)) = l2s l.
Proof.
  intros He. pose proof He as [(c & l1 & Hf & Hc) (c' & l2 & Hl & Hc')]. unfold TrimSpace.
  rewrite (trim_right_visible _ (l2s (indent n l)) c' (replicate n (chr 32) ++ l2)); [|done| |done].
  2:{ rewrite s2l_l2s. unfold indent. by rewrite Hl, <- app_assoc. }
  unfold trim_left_set. rewrite s2l_l2s, <- s2l_length, s2l_l2s. f_equal. unfold indent. induction n as [|n IH].
  - cbn [replicate app]. rewrite Hf. destruct (length _); cbn [trim_any]; [done|]. by rewrite strip_any_visible.
  - exact IH.
Qed.

Lemma ident_visible c : isIdent c = true -> visible c /\ plain c = true.
Proof.
  unfold isIdent, is_lower, is_upper, is_digit, visible. intros H. assert (Hr : 48 <= code c <= 122).
  { rewrite !orb_true_iff, !andb_true_iff, !Z.leb_le in H. destruct H as [[[H|H]|H]|H%bool_decide_eq_true]; [lia..|]. subst. by vm_compute. }
  split; [lia|]. unfold plain. apply negb_true_iff, bool_decide_eq_false. intros Hin.
  repeat (apply elem_of_cons in Hin as [->|Hin]; [revert H Hr; vm_compute; by intros|]). by apply elem_of_nil in Hin.
Qed.
(** *** One line at a time *)

Lemma scan_line_at l t m ty k (e : extractor) : stripComment l = t -> TrimSpace (l2s t) <> "" ->
  enter_type (TrimSpace (l2s t)) e = Some (mkExtractor m ty k) ->
  scan_line l e =
    let depth := k + (count "{" t - count "}" t) in
    let m := if negb (bool_decide (ty = "")) && (0 <? depth) then
        match extractFieldName (s2l (TrimSpace (l2s t))) with Some name => alter (fun fs => {[ name ]} ∪ fs) ty m | None => m end else m in
    Some (if depth <=? 0 then mkExtractor m "" 0 else mkExtractor m ty depth).
Proof. intros Hl Ht He. unfold scan_line. rewrite Hl. rewrite bool_decide_false by done. by rewrite He. Qed.

Lemma enter_no_type s m ty k : HasPrefix s "type " = false -> enter_type s (mkExtractor m ty k) = Some (mkExtractor m ty k).
Proof. intros Hp. unfold enter_type. by rewrite Hp, andb_false_r. Qed.
Lemma enter_nested s m ty k : k <> 0 -> enter_type s (mkExtractor m ty k) = Some (mkExtractor m ty k).
Proof. intros Hk. unfold enter_type. cbn [braceDepth]. by replace (k =? 0) with false by (symmetry; by apply Z.eqb_neq). Qed.

Lemma visible_not_empty l : ends_visible l -> l2s l <> "".
Proof. intros [(c & l' & -> & _) _]. done. Qed.
Lemma open_strip a : plain_text a = true -> stripComment (a ++ s2l " {") = a ++ s2l " {".
Proof. intros Ha. by rewrite strip_plain. Qed.
Lemma open_counts a : plain_text a = true -> count "{" (a ++ s2l " {") - count "}" (a ++ s2l " {") = 1.
Proof. intros Ha. rewrite !count_app, (count_plain "{" a), (count_plain "}" a) by (done || set_solver). done. Qed.
Lemma plain_counts a : plain_text a = true -> count "{" a - count "}" a = 0.
Proof. intros Ha. by rewrite (count_plain "{" a), (count_plain "}" a) by (done || set_solver). Qed.
Lemma plain_app a b : plain_text (a ++ b) = plain_text a && plain_text b.
Proof. apply forallb_app. Qed.
Lemma plain_ident l : forallb isIdent l = true -> plain_text l = true /\ Forall visible l.
Proof.
  induction l as [|c l IH]; [by split; constructor|]. cbn. intros [Hc Hl]%andb_true_iff. apply ident_visible in Hc as [Hv ->]. destruct (IH Hl) as [E Hw].
  split; [exact E|by constructor].
Qed.
Lemma ident_stop name c r : forallb isIdent name = true -> isIdent c = false -> identifier (name ++ c :: r) = (name, c :: r).
Proof. intros Hn Hc. induction name as [|x name IH]; cbn in *; [by rewrite Hc|]. apply andb_true_iff in Hn as [-> Hn]. by rewrite IH. Qed.
Lemma before_any_visible l : Forall visible l -> before_any [" "%char; chr 9] l = l.
Proof.
  induction 1 as [|c l Hc Hl IH]; [done|]. cbn [before_any]. rewrite bool_decide_false, IH; [done|]. intros Hin.
  destruct Hc as [Hc _]. assert (Hlow : Forall (fun x => code x < 33) [" "%char; chr 9]) by (repeat constructor; by vm_compute).
  rewrite Forall_forall in Hlow. specialize (Hlow c Hin). lia.
Qed.

(** The brace of a block that is not an object type. *)
Lemma block_header header m : plain_text header = true -> ends_visible (header ++ s2l " {") -> HasPrefix (l2s (header ++ s2l " {")) "type " = false ->
  scan_line (header ++ s2l " {") (mkExtractor m "" 0) = Some (mkExtractor m "" 1).
Proof.
  intros Hp He Ht. pose proof (TrimSpace_indent 0 _ He) as Htr. cbn [indent replicate app] in Htr. unfold indent in Htr. cbn [replicate app] in Htr.
  erewrite scan_line_at; [|by apply open_strip|rewrite Htr; by apply visible_not_empty|rewrite Htr; by apply enter_no_type].
  cbn zeta. by rewrite open_counts.
Qed.
(** A line of its body. *)
Lemma block_line l m : plain_text l = true -> scan_line (indent 2 l) (mkExtractor m "" 1) = Some (mkExtractor m "" 1).
Proof.
  intros Hp. assert (Hi : plain_text (indent 2 l) = true) by (unfold indent; by rewrite plain_app, Hp).
  assert (Hs : stripComment (indent 2 l) = indent 2 l) by (pose proof (strip_plain (indent 2 l) [] Hi) as E; by rewrite !app_nil_r in E).
  destruct (decide (TrimSpace (l2s (indent 2 l)) = "")) as [E|E].
  - unfold scan_line. by rewrite Hs, bool_decide_true.
  - erewrite scan_line_at; [|done..|by apply enter_nested]. cbn zeta. by rewrite plain_counts.
Qed.
(** The closing brace. *)
Lemma close_line m ty : scan_line (s2l "}") (mkExtractor m ty 1) = Some (mkExtractor m "" 0).
Proof.
  erewrite scan_line_at; [|done|done|by apply enter_nested]. cbn zeta. change (1 + _) with 0. by rewrite andb_false_r.
Qed.
(** A line outside blocks. *)
Lemma outer_line text comment m : plain_text text = true -> comment = [] \/ starts_with [hash] comment = true -> HasPrefix (TrimSpace (l2s text)) "type " = false ->
  scan_line (text ++ comment) (mkExtractor m "" 0) = Some (mkExtractor m "" 0).
Proof.
  intros Hp Hc Ht. assert (Hs : stripComment (text ++ comment) = text).
  { rewrite strip_plain by done. assert (E : stripComment comment = []); [|by rewrite E, app_nil_r].
    destruct Hc as [->|Hc]; [done|]. destruct comment as [|c cs]; [done|]. apply bool_decide_eq_true, list_elem_of_singleton in Hc as ->. done. }
  destruct (decide (TrimSpace (l2s text) = "")) as [E|E].
  - unfold scan_line. by rewrite Hs, bool_decide_true.
  - erewrite scan_line_at; [|done..|by apply enter_no_type]. cbn zeta. by rewrite plain_counts.
Qed.
(** *** Object types *)

Definition opened (ty : string) (m : gmap string (gset string)) : gmap string (gset string) := match m !! ty with Some _ => m | None => <[ty := ∅]> m end.

Lemma object_header name dirs m : name <> [] -> forallb isIdent name = true -> plain_text dirs = true -> dirs = [] \/ starts_with [" "%char] dirs = true ->
  scan_line (s2l "type " ++ name ++ dirs ++ s2l " {") (mkExtractor m "" 0) = Some (mkExtractor (opened (l2s name) m) (l2s name) 1).
Proof.
  intros Hn Hi Hd Hs. destruct (plain_ident name Hi) as [Hp Hv]. set (h := s2l "type " ++ name ++ dirs) in *.
  assert (Hh : s2l "type " ++ name ++ dirs ++ s2l " {" = h ++ s2l " {") by (unfold h; by rewrite <- !app_assoc). rewrite Hh.
  assert (Hph : plain_text h = true) by (unfold h; by rewrite !plain_app, Hp, Hd).
  assert (He : ends_visible (h ++ s2l " {")).
  { split; [exists "t"%char; eexists; by rewrite <- Hh|exists "{"%char, (h ++ [chr 32]); split; [by rewrite <- app_assoc|by vm_compute]]. }
  pose proof (TrimSpace_indent 0 _ He) as Htr. unfold indent in Htr. cbn [replicate app] in Htr.
  assert (Hr : exists r, dirs ++ s2l " {" = chr 32 :: r).
  { destruct Hs as [->|Hs]; [by eexists|]. destruct dirs as [|c dirs]; [done|]. apply bool_decide_eq_true, list_elem_of_singleton in Hs as ->. by eexists. }
  destruct Hr as [r Hr].
  erewrite scan_line_at; [|by apply open_strip|rewrite Htr; by apply visible_not_empty|].
  2:{ rewrite Htr. unfold enter_type. cbn [braceDepth]. rewrite (proj2 (HasPrefix_spec _ "type ")); [|exists (l2s (name ++ dirs ++ s2l " {")); rewrite <- Hh; by rewrite l2s_app].
      cbn [Z.eqb andb]. rewrite s2l_l2s, <- Hh, Hr. unfold Fields.
      change (s2l "type " ++ name ++ chr 32 :: r) with (s2l "type" ++ chr 32 :: (name ++ chr 32 :: r)).
      rewrite fields_word by (repeat constructor; by vm_compute). cbn [app]. rewrite fields_blank, fields_word, fields_blank by done. cbn [app].
      assert (Hf : forall ws, flush name ws = name :: ws) by (intros; by destruct name). rewrite Hf. change (flush (s2l "type") ?ws) with (s2l "type" :: ws).
      change ((?x :: ?y :: ?l) !! 1%nat ≫= ?g) with (g y). cbv beta. by rewrite before_any_visible. }
  cbn zeta. rewrite open_counts by done. rewrite Htr, s2l_l2s, <- Hh.
  assert (Hx : extractFieldName (s2l "type " ++ name ++ dirs ++ s2l " {") = None) by done. rewrite Hx. by rewrite Tauto.if_same.
Qed.

Lemma field_line f m ty : ty <> "" -> f.1 <> [] -> forallb isIdent f.1 = true -> l2s f.1 ∉ reserved -> plain_text f.2 = true ->
  starts_with [":"%char; "("%char] f.2 = true -> ends_visible f.2 ->
  scan_line (indent 2 (f.1 ++ f.2)) (mkExtractor m ty 1) = Some (mkExtractor (alter (fun fs => {[ l2s f.1 ]} ∪ fs) ty m) ty 1).
Proof.
  intros Hty Hn Hi Hres Hp Hs He. destruct f as [name rest]. cbn [fst snd] in *. destruct (plain_ident name Hi) as [Hpn Hv].
  assert (Hpl : plain_text (indent 2 (name ++ rest)) = true) by (unfold indent; by rewrite !plain_app, Hp, Hpn).
  assert (Hst : stripComment (indent 2 (name ++ rest)) = indent 2 (name ++ rest)) by (pose proof (strip_plain _ [] Hpl) as E; by rewrite !app_nil_r in E).
  assert (Hev : ends_visible (name ++ rest)).
  { destruct He as [_ (c & l & -> & Hc)]. split; [|exists c, (name ++ l); by rewrite <- app_assoc]. destruct name as [|x name]; [done|]. apply Forall_cons in Hv as [Hx _]. by exists x, (name ++ l ++ [c]). }
  pose proof (TrimSpace_indent 2 _ Hev) as Htr.
  erewrite scan_line_at; [|exact Hst|rewrite Htr; by apply visible_not_empty|by apply enter_nested]. cbn zeta. rewrite plain_counts, Htr, s2l_l2s by done.
  rewrite bool_decide_false by done. cbn [negb andb Z.ltb Z.compare Z.add].
  assert (Hx : extractFieldName (name ++ rest) = Some (l2s name)).
  { unfold extractFieldName. destruct rest as [|c rest]; [done|]. assert (Hc : isIdent c = false).
    { apply bool_decide_eq_true in Hs. repeat (apply elem_of_cons in Hs as [->|Hs]; [done|]). by apply elem_of_nil in Hs. }
    rewrite ident_stop by done. rewrite bool_decide_false by (by destruct name). rewrite (bool_decide_false (name = [])), (bool_decide_false (l2s name ∈ reserved)) by done.
    assert (Hh : starts_with ["{"%char; "}"%char; dquote; "@"%char] (name ++ c :: rest) = false).
    { destruct name as [|x name]; [done|]. cbn [forallb] in Hi. apply andb_true_iff in Hi as [Hx _]. cbn [starts_with app]. apply bool_decide_eq_false. intros Hin.
      assert (Hno : Forall (fun y => isIdent y = false) ["{"%char; "}"%char; dquote; "@"%char]) by (repeat constructor).
      rewrite Forall_forall in Hno. specialize (Hno x Hin). congruence. }
    rewrite Hh. cbn [orb]. rewrite (TrimSpace_visible (l2s (c :: rest))) by (by rewrite s2l_l2s). rewrite s2l_l2s. by rewrite Hs. }
  by rewrite Hx.
Qed.
(** *** The whole text *)

Lemma scan_lines_app a b e : scan_lines (a ++ b) e = e' ← scan_lines a e; scan_lines b e'.
Proof. revert e. induction a as [|l a IH]; intros e; [done|]. cbn [app scan_lines]. destruct (scan_line l e); [apply IH|done]. Qed.

Lemma object_body fields ty : ty <> "" -> forallb field_ok fields = true -> forall m fs, m !! ty = Some fs ->
  scan_lines (map (fun f => indent 2 (f.1 ++ f.2)) fields) (mkExtractor m ty 1) =
    Some (mkExtractor (<[ty := list_to_set (map (fun f => l2s f.1) fields) ∪ fs]> m) ty 1).
Proof.
  intros Hty. induction fields as [|f fields IH]; intros Hok m fs Hm; cbn [map scan_lines].
  - cbn [list_to_set]. by rewrite union_empty_l_L, insert_id.
  - cbn [forallb] in Hok. apply andb_true_iff in Hok as [Hf Hok]. unfold field_ok in Hf. rewrite !andb_true_iff in Hf. destruct Hf as [[[[[H1 H2] H3] H4] H5] H6].
    apply negb_true_iff, bool_decide_eq_false in H1, H3. rewrite field_line by (done || by apply ends_visible_dec). cbn [mbind option_bind].
    rewrite (IH Hok _ ({[l2s f.1]} ∪ fs)) by (by rewrite lookup_alter_eq, Hm). do 2 f_equal.
    assert (Ha : alter (fun fs : gset string => {[l2s f.1]} ∪ fs) ty m = <[ty := {[l2s f.1]} ∪ fs]> m).
    { apply map_eq. intros k. destruct (decide (k = ty)) as [->|Hk]; [by rewrite lookup_alter_eq, lookup_insert_eq, Hm|by rewrite lookup_alter_ne, lookup_insert_ne]. }
    rewrite Ha, insert_insert_eq. f_equal. cbn [list_to_set]. set_solver.
Qed.

Lemma block_body body m : forallb plain_text body = true -> scan_lines (map (indent 2) body) (mkExtractor m "" 1) = Some (mkExtractor m "" 1).
Proof.
  induction body as [|l body IH]; [done|]. cbn [forallb map scan_lines]. intros [Hl Hb]%andb_true_iff. rewrite block_line by done. by apply IH.
Qed.

Lemma decl_scan d m : decl_ok d = true -> scan_lines (print_decl d) (mkExtractor m "" 0) = Some (mkExtractor (add_decl d m) "" 0).
Proof.
  unfold decl_ok. intros [_ H]%andb_true_iff. destruct d as [name dirs fields|header body|text comment]; cbn [print_decl add_decl] in *.
  - rewrite !andb_true_iff in H. destruct H as [[[[H1 H2] H3] H4] H5]. apply negb_true_iff, bool_decide_eq_false in H1.
    rewrite orb_true_iff, bool_decide_eq_true in H4. cbn [app scan_lines]. rewrite object_header by done. cbn [mbind option_bind].
    assert (Hne : l2s name <> "") by (by destruct name). rewrite scan_lines_app, (object_body _ _ Hne H5 _ (default ∅ (m !! l2s name))).
    + cbn [mbind option_bind scan_lines]. rewrite close_line. cbn [mbind option_bind]. do 2 f_equal. unfold opened. destruct (m !! l2s name) eqn:E; [done|]. by rewrite insert_insert_eq.
    + unfold opened. destruct (m !! l2s name) eqn:E; [done|]. by rewrite lookup_insert_eq.
  - rewrite !andb_true_iff in H. destruct H as [[[H1 H2%ends_visible_dec] H3%negb_true_iff] H4]. cbn [app scan_lines]. rewrite block_header by done. cbn [mbind option_bind].
    rewrite scan_lines_app, block_body by done. cbn [mbind option_bind scan_lines]. by rewrite close_line.
  - rewrite !andb_true_iff in H. destruct H as [[[H1 H2] H3] H4%negb_true_iff]. rewrite orb_true_iff, bool_decide_eq_true in H2. cbn [scan_lines]. by rewrite outer_line.
Qed.

Lemma decls_scan ds : forall m, forallb decl_ok ds = true ->
  scan_lines (mjoin (map print_decl ds)) (mkExtractor m "" 0) = Some (mkExtractor (fold_left (fun m d => add_decl d m) ds m) "" 0).
Proof.
  induction ds as [|d ds IH]; intros m; [done|]. cbn [forallb map mjoin list_join fold_left]. intros [Hd Hds]%andb_true_iff.
  rewrite scan_lines_app, decl_scan by done. by apply IH.
Qed.

(** The lines that are printed are those that are scanned. *)
Definition line_ok (l : list ascii) : bool := (length l <? maxTokenSize)%nat && forallb (fun c => negb (bool_decide (c ∈ [newline; chr 13]))) l.

Lemma dropCR_id l : chr 13 ∉ l -> dropCR l = l.
Proof.
  intros Hl. unfold dropCR. destruct (last l) as [c|] eqn:E; [|done]. rewrite bool_decide_false; [done|]. intros ->. apply last_Some in E as [l' ->].
  apply Hl, elem_of_app. right. by apply list_elem_of_singleton.
Qed.
Lemma line_ok_spec l : line_ok l = true -> (maxTokenSize <=? length l)%nat = false /\ newline ∉ l /\ chr 13 ∉ l.
Proof.
  unfold line_ok. intros [Hl Hc]%andb_true_iff. apply Nat.ltb_lt in Hl. rewrite forallb_forall in Hc. split; [by apply Nat.leb_gt|].
  split; intros Hin%list_elem_of_In; apply Hc, negb_true_iff, bool_decide_eq_false in Hin; apply Hin; set_solver.
Qed.
Lemma scan_printed ls : forallb line_ok ls = true -> scan_text (mjoin (map (fun l => l ++ [newline]) ls)) = ls.
Proof.
  unfold scan_text. induction ls as [|l ls IH]; [done|]. cbn [forallb map mjoin list_join]. intros [(Hl & Hn & Hr)%line_ok_spec Hls]%andb_true_iff.
  rewrite <- app_assoc. cbn [app]. rewrite split_on_app by done. cbn [tokens].
  pose proof (split_on_nonempty newline (mjoin (map (fun l => l ++ [newline]) ls))) as Hne. specialize (IH Hls). destruct (split_on newline _) as [|w ws]; [done|].
  by rewrite Hl, dropCR_id, IH.
Qed.
Definition no_eol (l : list ascii) : bool := forallb (fun c => negb (bool_decide (c ∈ [newline; chr 13]))) l.
Lemma no_eol_app a b : no_eol (a ++ b) = no_eol a && no_eol b.
Proof. apply forallb_app. Qed.
Lemma plain_no_eol l : plain_text l = true -> no_eol l = true.
Proof.
  unfold plain_text, no_eol. rewrite !forallb_forall. intros H c Hc%H. unfold plain in Hc. apply negb_true_iff, bool_decide_eq_false in Hc.
  apply negb_true_iff, bool_decide_eq_false. set_solver.
Qed.
Lemma forallb_map_true {A B} (f : A -> B) (q : B -> bool) (r : A -> bool) l : (forall a, r a = true -> q (f a) = true) -> forallb r l = true -> forallb q (map f l) = true.
Proof. intros Hq. induction l as [|a l IH]; [done|]. cbn. intros [Ha Hl]%andb_true_iff. rewrite Hq by done. by apply IH. Qed.

Lemma decl_no_eol d : decl_ok d = true -> forallb no_eol (print_decl d) = true.
Proof.
  unfold decl_ok. intros [_ H]%andb_true_iff. destruct d as [name dirs fields|header body|text comment]; cbn [print_decl] in *.
  - rewrite !andb_true_iff in H. destruct H as [[[[H1 H2] H3] H4] H5]. destruct (plain_ident name H2) as [Hp _].
    cbn [app forallb]. rewrite forallb_app, !no_eol_app, (plain_no_eol name), (plain_no_eol dirs) by done.
    rewrite (forallb_map_true _ _ field_ok); [done| |done]. intros f Hf. unfold field_ok in Hf. rewrite !andb_true_iff in Hf. destruct Hf as [[[[[_ F2] _] F4] _] _].
    destruct (plain_ident f.1 F2) as [Hpf _]. unfold indent. by rewrite !no_eol_app, (plain_no_eol f.1), (plain_no_eol f.2).
  - rewrite !andb_true_iff in H. destruct H as [[[H1 _] _] H4]. cbn [app forallb]. rewrite forallb_app, no_eol_app, (plain_no_eol header) by done.
    rewrite (forallb_map_true _ _ plain_text); [done| |done]. intros l Hl. unfold indent. by rewrite no_eol_app, (plain_no_eol l).
  - rewrite !andb_true_iff in H. destruct H as [[[H1 _] H3] _]. cbn [forallb]. by rewrite no_eol_app, (plain_no_eol text), (H3 : no_eol comment = true).
Qed.

Lemma decl_lines d : decl_ok d = true -> forallb line_ok (print_decl d) = true.
Proof.
  intros H. pose proof (decl_no_eol d H) as Hn. unfold decl_ok in H. apply andb_true_iff in H as [Hl _].
  rewrite forallb_forall in *. intros l Hin. unfold line_ok. by rewrite Hl, (Hn l Hin : forallb _ l = true).
Qed.

(** The comparison of schemas sees every field.  The text of a schema in the
    layout of the repository's, a header, a field or a brace a line, is read
    back as the object types it declares, each with the names of all its fields
    and no other; blocks of other kinds, directives and comments between them
    leave no trace. *)
Theorem schema_fields_read_back ds : forallb decl_ok ds = true ->
  extractTypeFields (print_schema ds) = Some (fold_left (fun m d => add_decl d m) ds ∅).
Proof.
  intros Hds. assert (Hl : forallb line_ok (mjoin (map print_decl ds)) = true).
  { clear -Hds. induction ds as [|d ds IH]; [done|]. cbn [forallb map mjoin list_join] in *. apply andb_true_iff in Hds as [Hd Hds].
    rewrite forallb_app, decl_lines by done. by apply IH. }
  unfold extractTypeFields, print_schema. by rewrite s2l_l2s, scan_printed, decls_scan.
Qed.

(** ** Samples *)

Definition sample_schema : list decl :=
  [Line (s2l "scalar DateTime") []; Line [] (s2l "# the {types}"); Block (s2l "enum PRState") [s2l "OPEN"; s2l "CLOSED"];
   Object (s2l "Agent") (s2l " @gitscaleExtension") [(s2l "id", s2l ": ID!"); (s2l "owner", s2l "(first: Int): User @cost(weight: 2)")];
   Line [] []; Object (s2l "Ref") [] [(s2l "name", s2l ": String!")]].
Lemma schema_fields_read_back_witness :
  extractTypeFields (print_schema sample_schema) = Some (fold_left (fun m d => add_decl d m) sample_schema ∅).
Proof. apply schema_fields_read_back. vm_compute. reflexivity. Defined.

Definition fields_of (sdl : list string) (ty : string) : option (list string) :=
  m ← extractTypeFields (String.concat (l2s [newline]) sdl); fs ← m !! ty; Some (elements (fs : gset string)).
Example sample_read : fields_of [print_schema sample_schema] "Agent" = Some ["owner"; "id"].
Proof. vm_compute. reflexivity. Qed.

(** Other layouts of a schema.  The fields of a block on one line, those after
    a brace on the next line and one before the closing brace are lost; a brace
    in a description ends the type; an argument on a line of its own and the
    text of a description over several lines become fields. *)
Definition quoted (s : string) : string := l2s [dquote] +:+ s +:+ l2s [dquote].
Example other_layouts :
  map (fun l => fields_of l "T")
    [["type T { id: ID! }"]; ["type T"; "{"; "  id: ID!"; "}"]; ["type T {"; "  id: ID!"; "  name: String }"];
     ["type T {"; "  id: ID!"; quoted "up to }"; "  name: String"; "}"]; ["type T {"; "  posts("; "    first: Int"; "  ): [Post]"; "}"];
     ["type T {"; quoted (quoted (quoted "")); "  note: the key"; quoted (quoted (quoted "")); "  id: ID!"; "}"]] =
  [Some []; Some []; Some ["id"]; Some ["id"]; Some ["first"; "posts"]; Some ["id"; "note"]].
Proof. vm_compute. reflexivity. Qed.
