(* ===== verification/SharedWriter.v ===== *)
(** * One Kafka writer for all consumers

    [plane/data/outbox/producer_kafka.go] as [plane/data/outbox/wiring] uses
    it: the consumers of all domains publish through one [kafkaWriter], whose
    [PublishBatch] first sets the topic of the writer and then hands it the
    messages.  kafka-go sends a message without a topic of its own to the topic
    the writer has by then.  Here the two are steps of their own, interleaved
    with those of the other consumers. *)

From S2P Require Import Prelude GoStd Outbox OutboxTtl.

(** ** The writer's settings *)

Inductive acks := RequireNone | RequireOne | RequireAll.
Record kafka_writer := mkWriter {
  w_addr : list string; w_hash_balancer : bool; w_acks : acks; w_timeout : duration; w_auto_create : bool; w_dial : bool }.
Record KafkaProducerConfig := mkProducerConfig { BootstrapServers : string; ClientID : string; DialFunc : bool }.
(** [kafkago.TCP] takes a list of addresses and is given the whole text as one. *)
Definition NewKafkaProducer (cfg : KafkaProducerConfig) : option kafka_writer :=
  if bool_decide (BootstrapServers cfg = "") then None
  else Some (mkWriter [BootstrapServers cfg] true RequireAll (5 * Second) true (DialFunc cfg)).

(** ** Consumers over writers *)

(** What a consumer is publishing, and what of it has not been sent. *)
Record publishing := mkPublishing { pb_batch : list OutboxRow; pb_rest : list OutboxRow }.
Record plant := mkPlant {
  tables : gmap Domain table;
  writer_topic : gmap nat string;
  calls : gmap Domain publishing;
  broker : list (string * OutboxRow) }.
Definition table_of (d : Domain) (s : plant) : table := default [] (tables s !! d).

(** A service inserts a row; the consumer of a domain starts to publish a batch,
    a message of it is sent, the call returns nil and the rows are marked, or it
    fails and the transaction is rolled back. *)
Inductive event :=
| Insert (d : Domain) (r : OutboxRow) | Start (d : Domain) | Send (d : Domain) | Done (d : Domain) (now : time) | Fails (d : Domain).

Section wiring.
(** Which writer a domain's consumer has; its topic and batch size. *)
Context (writer_of : Domain -> nat) (topic_of : Domain -> string) (size : Z).

Definition step (ev : event) (s : plant) : option plant :=
  match ev with
  | Insert d r =>
      let t := table_of d s in
      if bool_decide (row_ID r ∈ map (fun x => row_ID (the_row x)) t) then None
      else Some (mkPlant (<[d := t ++ [mkStored r None]]> (tables s)) (writer_topic s) (calls s) (broker s))
  | Start d =>
      let batch := select_batch size [] (table_of d s) in
      if bool_decide (is_Some (calls s !! d)) || bool_decide (batch = []) then None
      else Some (mkPlant (tables s) (<[writer_of d := topic_of d]> (writer_topic s)) (<[d := mkPublishing batch batch]> (calls s)) (broker s))
  | Send d =>
      c ← calls s !! d;
      match pb_rest c with
      | [] => None
      | r :: rest => Some (mkPlant (tables s) (writer_topic s) (<[d := mkPublishing (pb_batch c) rest]> (calls s))
                       (broker s ++ [(default "" (writer_topic s !! writer_of d), r)]))
      end
  | Done d now =>
      c ← calls s !! d;
      if bool_decide (pb_rest c = [])
      then Some (mkPlant (<[d := mark_processed (map row_ID (pb_batch c)) now (table_of d s)]> (tables s)) (writer_topic s) (delete d (calls s)) (broker s))
      else None
  | Fails d => _ ← calls s !! d; Some (mkPlant (tables s) (writer_topic s) (delete d (calls s)) (broker s))
  end.

Fixpoint run (evs : list event) (s : plant) : option plant :=
  match evs with [] => Some s | ev :: evs => s' ← step ev s; run evs s' end.

(** A batch is started while no consumer that shares its writer is publishing to
    another topic. *)
Definition clear (d : Domain) (s : plant) : bool :=
  bool_decide (map_Forall (fun d' _ => writer_of d' = writer_of d -> topic_of d' = topic_of d) (calls s)).
Fixpoint calm (evs : list event) (s : plant) : bool :=
  match evs with
  | [] => true
  | ev :: evs =>
      match ev with Start d => clear d s | _ => true end && match step ev s with Some s' => calm evs s' | None => true end
  end.

Definition start_plant : plant := mkPlant ∅ ∅ ∅ [].

(** ** Invariant *)

Record routed (s : plant) : Prop := {
  ids_ok d : ids_unique (the_row <$> table_of d s);
  published d x : x ∈ table_of d s -> processed_at x <> None -> (topic_of d, the_row x) ∈ broker s;
  calls_ok d c : calls s !! d = Some c -> writer_topic s !! writer_of d = Some (topic_of d) /\
    forall r, r ∈ pb_batch c -> mkStored r None ∈ table_of d s /\ (r ∈ pb_rest c \/ (topic_of d, r) ∈ broker s) }.

Lemma routed_start : routed start_plant.
Proof. split; [intros d; constructor|intros d x Hx; by apply elem_of_nil in Hx|done]. Qed.

Lemma table_insert d d' t s : table_of d' (mkPlant (<[d := t]> (tables s)) (writer_topic s) (calls s) (broker s)) = if decide (d' = d) then t else table_of d' s.
Proof. unfold table_of. cbn. destruct (decide (d' = d)) as [->|Hne]; [by rewrite lookup_insert_eq|by rewrite lookup_insert_ne]. Qed.

Lemma routed_insert d r s : row_ID r ∉ map (fun x => row_ID (the_row x)) (table_of d s) -> routed s ->
  routed (mkPlant (<[d := table_of d s ++ [mkStored r None]]> (tables s)) (writer_topic s) (calls s) (broker s)).
Proof.
  intros Hr [H1 H2 H3]. split.
  - intros d'. rewrite table_insert. case_decide; [|done]. subst. unfold ids_unique. rewrite !fmap_app. apply NoDup_app. split_and!; [apply H1| |apply NoDup_singleton].
    intros i Hi ->%list_elem_of_singleton. apply Hr. apply list_elem_of_fmap in Hi as (x & Hx & Hi). apply list_elem_of_fmap in Hi as (y & -> & Hy). apply list_elem_of_fmap. by exists y.
  - intros d' x. rewrite table_insert. case_decide; [subst|by apply H2]. intros [Hx|Hx]%elem_of_app; [by apply H2|]. apply list_elem_of_singleton in Hx. by subst.
  - intros d' c Hc. destruct (H3 d' c Hc) as [Hw Hb]. split; [done|]. intros r' Hr'. rewrite table_insert. destruct (Hb r' Hr') as [Ht Hs]. split; [|done].
    case_decide; [subst|done]. apply elem_of_app. by left.
Qed.

Lemma routed_begin d s : clear d s = true -> calls s !! d = None -> routed s -> let batch := select_batch size [] (table_of d s) in
  routed (mkPlant (tables s) (<[writer_of d := topic_of d]> (writer_topic s)) (<[d := mkPublishing batch batch]> (calls s)) (broker s)).
Proof.
  intros Hc Hn [H1 H2 H3] batch. apply bool_decide_eq_true in Hc. split; [done|done|]. intros d' c'. cbn.
  destruct (decide (d' = d)) as [->|Hne].
  - rewrite !lookup_insert_eq. intros [= <-]. split; [done|]. cbn. intros r Hr. split; [by eapply select_batch_unprocessed|by left].
  - rewrite lookup_insert_ne by done. intros Hd'. destruct (H3 d' c' Hd') as [Hw Hb]. split; [|done].
    destruct (decide (writer_of d' = writer_of d)) as [E|E]; [|by rewrite lookup_insert_ne]. by rewrite E, lookup_insert_eq, (Hc d' c' Hd' E).
Qed.

Lemma routed_send d c r rest s : calls s !! d = Some c -> pb_rest c = r :: rest -> routed s ->
  routed (mkPlant (tables s) (writer_topic s) (<[d := mkPublishing (pb_batch c) rest]> (calls s)) (broker s ++ [(default "" (writer_topic s !! writer_of d), r)])).
Proof.
  intros Hc Hr [H1 H2 H3]. split; [done| |].
  - intros d' x Hx Hp. apply elem_of_app. left. by apply H2.
  - intros d' c'. cbn. destruct (H3 d c Hc) as [Hw Hb]. destruct (decide (d' = d)) as [->|Hne].
    + rewrite lookup_insert_eq. intros [= <-]. split; [done|]. cbn. intros r' Hr'. destruct (Hb r' Hr') as [Ht Hs]. split; [done|]. rewrite Hr, elem_of_cons in Hs.
      rewrite Hw. cbn. destruct Hs as [[->|Hs]|Hs]; [right|by left|right]; apply elem_of_app; [right; by apply list_elem_of_singleton|by left].
    + rewrite lookup_insert_ne by done. intros Hd'. destruct (H3 d' c' Hd') as [Hw' Hb']. split; [done|]. intros r' Hr'. destruct (Hb' r' Hr') as [Ht [Hs|Hs]]; split; try done; [by left|right].
      apply elem_of_app. by left.
Qed.

Lemma routed_done d c now s : calls s !! d = Some c -> pb_rest c = [] -> routed s ->
  routed (mkPlant (<[d := mark_processed (map row_ID (pb_batch c)) now (table_of d s)]> (tables s)) (writer_topic s) (delete d (calls s)) (broker s)).
Proof.
  intros Hc Hr [H1 H2 H3]. destruct (H3 d c Hc) as [Hw Hb]. split.
  - intros d'. unfold table_of. cbn. destruct (decide (d' = d)) as [->|Hne]; [rewrite lookup_insert_eq|rewrite lookup_insert_ne by done; apply H1]. cbn. rewrite the_row_mark. apply H1.
  - intros d' x. unfold table_of. cbn. destruct (decide (d' = d)) as [->|Hne]; [rewrite lookup_insert_eq|rewrite lookup_insert_ne by done; by apply H2]. cbn.
    unfold mark_processed. intros (y & -> & Hy)%list_elem_of_fmap. case_bool_decide as Hi; [|by apply H2]. cbn. intros _.
    apply list_elem_of_fmap in Hi as (r & Ei & Hin). destruct (Hb r Hin) as [Ht [Hs|Hs]]; [by rewrite Hr, elem_of_nil in Hs|].
    assert (mkStored r None = y) as <-; [|done]. by apply (stored_unique (table_of d s)).
  - intros d' c'. cbn. destruct (decide (d' = d)) as [->|Hne]; [by rewrite lookup_delete_eq|]. rewrite lookup_delete_ne by done. intros Hd'.
    destruct (H3 d' c' Hd') as [Hw' Hb']. split; [done|]. intros r Hin. destruct (Hb' r Hin) as [Ht Hs]. split; [|done]. unfold table_of. cbn. by rewrite lookup_insert_ne.
Qed.

Lemma routed_fails d s : routed s -> routed (mkPlant (tables s) (writer_topic s) (delete d (calls s)) (broker s)).
Proof. intros [H1 H2 H3]. split; [done|done|]. intros d' c'. cbn. intros [_ Hc]%lookup_delete_Some. by apply H3. Qed.

Lemma routed_step ev s s' : match ev with Start d => clear d s | _ => true end = true -> step ev s = Some s' -> routed s -> routed s'.
Proof.
  intros Hc Hs Hi. destruct ev as [d r|d|d|d now|d]; cbn [step] in Hs.
  - case_bool_decide; [done|]. injection Hs as <-. by apply routed_insert.
  - destruct (bool_decide _ || _) eqn:E; [done|]. injection Hs as <-. apply orb_false_iff in E as [E _]. apply bool_decide_eq_false, eq_None_not_Some in E. by apply routed_begin.
  - destruct (calls s !! d) as [c|] eqn:E; [|done]. cbn in Hs. destruct (pb_rest c) as [|r rest] eqn:Er; [done|]. injection Hs as <-. by apply routed_send.
  - destruct (calls s !! d) as [c|] eqn:E; [|done]. cbn in Hs. case_bool_decide; [|done]. injection Hs as <-. by apply routed_done.
  - destruct (calls s !! d) as [c|] eqn:E; [|done]. injection Hs as <-. by apply routed_fails.
Qed.

(** What is at the broker is a row of the domain that has the topic. *)
Definition rows_of (d : Domain) (s : plant) : list OutboxRow := the_row <$> table_of d s.
Record honest (s : plant) : Prop := {
  rest_ok d c r : calls s !! d = Some c -> r ∈ pb_rest c -> r ∈ rows_of d s;
  sent_ok t r : (t, r) ∈ broker s -> exists d, t = topic_of d /\ r ∈ rows_of d s }.

Lemma rows_of_tables d s s' : tables s' = tables s -> rows_of d s' = rows_of d s.
Proof. unfold rows_of, table_of. by intros ->. Qed.
Lemma rows_grow ev s s' d r : step ev s = Some s' -> r ∈ rows_of d s -> r ∈ rows_of d s'.
Proof.
  destruct ev as [d' r'|d'|d'|d' now|d']; cbn [step]; intros Hs Hr.
  - case_bool_decide; [done|]. injection Hs as <-. unfold rows_of. rewrite table_insert. case_decide; [subst|done]. rewrite fmap_app. apply elem_of_app. by left.
  - destruct (bool_decide _ || _); [done|]. by injection Hs as <-.
  - destruct (calls s !! d') as [c|]; [|done]. cbn in Hs. destruct (pb_rest c); [done|]. by injection Hs as <-.
  - destruct (calls s !! d') as [c|]; [|done]. cbn in Hs. case_bool_decide; [|done]. injection Hs as <-. unfold rows_of, table_of. cbn.
    destruct (decide (d = d')) as [->|Hne]; [|by rewrite lookup_insert_ne]. rewrite lookup_insert_eq. cbn. rewrite the_row_mark. done.
  - destruct (calls s !! d') as [c|]; [|done]. by injection Hs as <-.
Qed.

Lemma selected_row d s r : r ∈ select_batch size [] (table_of d s) -> r ∈ rows_of d s.
Proof. intros Hr%select_batch_unprocessed. apply list_elem_of_fmap. by exists (mkStored r None). Qed.

Lemma honest_step ev s s' : step ev s = Some s' -> routed s -> honest s -> honest s'.
Proof.
  intros Hs Hi [H1 H2].
  enough (H : (forall d c r, calls s' !! d = Some c -> r ∈ pb_rest c -> r ∈ rows_of d s) /\ (forall t r, (t, r) ∈ broker s' -> exists d, t = topic_of d /\ r ∈ rows_of d s) \/
              calls s' = calls s /\ broker s' = broker s).
  { destruct H as [[G1 G2]|[E1 E2]]; split.
    - intros d c r Hc Hr. eapply rows_grow; [done|]. by eapply G1.
    - intros t r (d & -> & Hr)%G2. exists d. split; [done|]. by eapply rows_grow.
    - intros d c r. rewrite E1. intros Hc Hr. eapply rows_grow; [done|]. by eapply H1.
    - intros t r. rewrite E2. intros (d & -> & Hr)%H2. exists d. split; [done|]. by eapply rows_grow. }
  destruct ev as [d r|d|d|d now|d]; cbn [step] in Hs.
  - case_bool_decide; [done|]. injection Hs as <-. by right.
  - destruct (bool_decide _ || _); [done|]. injection Hs as <-. left. split; [|done]. cbn. intros d' c r [[-> <-]|[_ Hc]]%lookup_insert_Some; [apply selected_row|by eapply H1].
  - destruct (calls s !! d) as [c|] eqn:E; [|done]. cbn in Hs. destruct (pb_rest c) as [|r rest] eqn:Er; [done|]. injection Hs as <-. left. split; cbn.
    + intros d' c' r' [[-> <-]|[_ Hc]]%lookup_insert_Some Hr; [|by eapply H1]. eapply H1; [done|]. rewrite Er. by right.
    + intros t r' [Hb|[= -> ->]%list_elem_of_singleton]%elem_of_app; [by apply H2|]. destruct (calls_ok s Hi d c E) as [Hw _]. exists d. rewrite Hw. split; [done|].
      eapply H1; [done|]. rewrite Er. by left.
  - destruct (calls s !! d) as [c|] eqn:E; [|done]. cbn in Hs. case_bool_decide; [|done]. injection Hs as <-. left. split; [|done]. cbn. intros d' c' r [_ Hc]%lookup_delete_Some. by eapply H1.
  - destruct (calls s !! d) as [c|] eqn:E; [|done]. injection Hs as <-. left. split; [|done]. cbn. intros d' c' r [_ Hc]%lookup_delete_Some. by eapply H1.
Qed.

Lemma routed_run evs : forall s s', calm evs s = true -> run evs s = Some s' -> routed s -> honest s -> routed s' /\ honest s'.
Proof.
  induction evs as [|ev evs IH]; intros s s'; cbn [calm run]; [by intros _ [= <-]|]. intros [Hc Hr]%andb_true_iff. destruct (step ev s) as [s1|] eqn:E; [|done].
  cbn. intros Hs Hi Hh. eapply IH; [done|done| |]; [by eapply routed_step|by eapply honest_step].
Qed.
Lemma calm_run evs s' : calm evs start_plant = true -> run evs start_plant = Some s' -> routed s' /\ honest s'.
Proof. intros Hc Hr. eapply routed_run; [done|done|apply routed_start|]. split; [done|]. intros t r Hr'. by apply elem_of_nil in Hr'. Qed.

(** Every marked row is at its topic, and a topic has only rows of its domain. *)
Definition delivered (s : plant) : Prop :=
  (forall d x, x ∈ table_of d s -> processed_at x <> None -> (topic_of d, the_row x) ∈ broker s) /\
  (forall t r, (t, r) ∈ broker s -> exists d, t = topic_of d /\ r ∈ rows_of d s).
Lemma calm_delivered evs s' : calm evs start_plant = true -> run evs start_plant = Some s' -> delivered s'.
Proof. intros Hc Hr. destruct (calm_run evs s' Hc Hr) as [H1 H2]. split; [apply H1|apply H2]. Qed.
End wiring.

(** ** What is marked has reached its topic, when writers are not fought over *)

(** C40: Events reach their own topic.  In every run from empty outboxes,
    whatever is inserted, however sends of the consumers interleave and
    whichever calls fail, as long as no batch is begun while another consumer of
    the same writer is publishing to a different topic, every row that is marked
    as processed has been sent to the topic of its domain, and no topic gets a
    row of a domain that does not have it. *)
Theorem events_reach_their_topic writer_of topic_of size evs s' :
  calm writer_of topic_of size evs start_plant = true -> run writer_of topic_of size evs start_plant = Some s' ->
  (forall d x, x ∈ table_of d s' -> processed_at x <> None -> (topic_of d, the_row x) ∈ broker s') /\
  (forall t r, (t, r) ∈ broker s' -> exists d, t = topic_of d /\ r ∈ rows_of d s').
Proof. apply calm_delivered. Qed.

(** A writer for each topic needs no such care. *)
Lemma own_writers_are_calm writer_of topic_of size evs : (forall d d', writer_of d = writer_of d' -> topic_of d = topic_of d') ->
  forall s, calm writer_of topic_of size evs s = true.
Proof.
  intros Hw. induction evs as [|ev evs IH]; intros s; [done|]. cbn [calm]. apply andb_true_iff. split; [|by destruct (step _ _ _ ev s)].
  destruct ev; try done. apply bool_decide_eq_true. intros d' c _ E. by apply Hw.
Qed.
Corollary own_writers_route writer_of topic_of size evs s' : (forall d d', writer_of d = writer_of d' -> topic_of d = topic_of d') ->
  run writer_of topic_of size evs start_plant = Some s' ->
  delivered topic_of s'.
Proof. intros Hw. apply calm_delivered. by apply own_writers_are_calm. Qed.

(** ** The writer of StartAll *)

(** All consumers have the one writer; topics are those of [AllDomains]. *)
Definition wired_writer (d : Domain) : nat := 0.
Definition wired_topic (d : Domain) : string :=
  match List.find (fun c => bool_decide (dc_Domain c = d)) AllDomains with Some c => dc_Topic c | None => "" end.
Notation wired_run := (run wired_writer wired_topic defaultBatchSize).

(** An event that no outbox has to publish and no consumer is about to send is
    not sent again. *)
Definition settled (r : OutboxRow) (s : plant) : Prop :=
  (forall d, mkStored r None ∉ table_of d s) /\ forall d c, calls s !! d = Some c -> r ∉ pb_rest c.
#[local] Instance stored_eq_dec : EqDecision stored.
Proof. solve_decision. Defined.
Definition is_settled (r : OutboxRow) (s : plant) : bool :=
  bool_decide (map_Forall (fun _ t => mkStored r None ∉ t) (tables s)) && bool_decide (map_Forall (fun _ c => r ∉ pb_rest c) (calls s)).
Lemma is_settled_spec r s : is_settled r s = true -> settled r s.
Proof.
  unfold is_settled. intros [Ht%bool_decide_eq_true Hc%bool_decide_eq_true]%andb_true_iff. split; [|exact Hc].
  intros d. unfold table_of. destruct (tables s !! d) as [t|] eqn:E; [by apply (Ht d)|by apply not_elem_of_nil].
Qed.
Definition sent_to (r : OutboxRow) (s : plant) : list string := fst <$> filter (fun m => m.2 = r) (broker s).

Section settled.
Context (writer_of : Domain -> nat) (topic_of : Domain -> string) (size : Z) (r : OutboxRow).

Lemma settled_step ev s s' : (forall d, ev <> Insert d r) -> step writer_of topic_of size ev s = Some s' -> settled r s -> settled r s' /\ sent_to r s' = sent_to r s.
Proof.
  intros Hev Hs [Ht Hc]. destruct ev as [d x|d|d|d now|d]; cbn [step] in Hs.
  - case_bool_decide; [done|]. injection Hs as <-. split; [|done]. split; [|done]. intros d'. rewrite table_insert. case_decide; [|apply Ht].
    intros [Hx|Hx]%elem_of_app; [by apply (Ht d)|]. apply list_elem_of_singleton in Hx. injection Hx as <-. by apply (Hev d).
  - destruct (bool_decide _ || _) eqn:E; [done|]. injection Hs as <-. split; [|done]. split; [done|]. intros d' c'. cbn. intros [[<- <-]|[_ Hd]]%lookup_insert_Some; [|by apply (Hc d')].
    cbn. intros Hr%select_batch_unprocessed. by apply (Ht d).
  - destruct (calls s !! d) as [c|] eqn:E; [|done]. cbn in Hs. destruct (pb_rest c) as [|x rest] eqn:Er; [done|]. injection Hs as <-.
    assert (Hx : r ∉ x :: rest) by (rewrite <- Er; by apply (Hc d)). apply not_elem_of_cons in Hx as [Hx Hrest]. split.
    + split; [done|]. intros d' c'. cbn. intros [[<- <-]|[_ Hd]]%lookup_insert_Some; [done|by apply (Hc d')].
    + unfold sent_to. cbn [broker]. rewrite filter_app, filter_cons_False by (cbn; congruence). by rewrite app_nil_r.
  - destruct (calls s !! d) as [c|] eqn:E; [|done]. cbn in Hs. case_bool_decide; [|done]. injection Hs as <-. split; [|done]. split.
    + intros d'. unfold table_of at 1. cbn. destruct (decide (d' = d)) as [->|Hne]; [rewrite lookup_insert_eq|rewrite lookup_insert_ne by done; apply Ht]. cbn.
      intros (y & Hy & Hin)%list_elem_of_fmap. case_bool_decide; [done|]. subst y. by apply (Ht d).
    + intros d' c'. cbn. intros [_ Hd]%lookup_delete_Some. by apply (Hc d').
  - destruct (calls s !! d) as [c|] eqn:E; [|done]. injection Hs as <-. split; [|done]. split; [done|]. intros d' c'. cbn. intros [_ Hd]%lookup_delete_Some. by apply (Hc d').
Qed.

Theorem settled_run evs : forall s s', (forall d, Insert d r ∉ evs) -> run writer_of topic_of size evs s = Some s' -> settled r s -> sent_to r s' = sent_to r s.
Proof.
  induction evs as [|ev evs IH]; intros s s' Hev; cbn [run]; [by intros [= <-]|]. destruct (step _ _ _ ev s) as [s1|] eqn:E; [|done]. cbn. intros Hr Hs.
  destruct (settled_step ev s s1) as [H1 H2]; [intros d ->; by apply (Hev d); left|done|done|].
  rewrite (IH s1 s'); [done| |done|done]. intros d Hd. apply (Hev d). by right.
Qed.
End settled.

(** ** Samples *)

Definition sample_event (id : Z) : OutboxRow := mkRow id (100 + id) "agent" 7 "agent.revoked" "{}" (id * Second).
Definition quiet_run : list event :=
  [Insert DomainIdentity (sample_event 1); Insert DomainBilling (sample_event 2); Start DomainIdentity; Send DomainIdentity; Done DomainIdentity Second;
   Start DomainBilling; Fails DomainBilling; Start DomainBilling; Send DomainBilling; Done DomainBilling Second].
Lemma events_reach_their_topic_witness :
  exists s', wired_run quiet_run start_plant = Some s' /\
    (forall d x, x ∈ table_of d s' -> processed_at x <> None -> (wired_topic d, the_row x) ∈ broker s') /\
    (forall t r, (t, r) ∈ broker s' -> exists d, t = wired_topic d /\ r ∈ rows_of d s').
Proof.
  eexists. split; [vm_compute; reflexivity|].
  apply (events_reach_their_topic wired_writer wired_topic defaultBatchSize quiet_run); vm_compute; reflexivity.
Defined.

(** The identity consumer has set the topic when the billing consumer sets its
    own: the revocation goes to the billing topic, its row is marked, and no
    run sends it to the identity topic. *)
Definition race : list event :=
  [Insert DomainIdentity (sample_event 1); Insert DomainBilling (sample_event 2); Start DomainIdentity; Start DomainBilling;
   Send DomainIdentity; Send DomainBilling; Done DomainBilling Second; Done DomainIdentity Second].
Example shared_writer_misroutes :
  match wired_run race start_plant with
  | Some s => bool_decide (sent_to (sample_event 1) s = ["gitscale.billing.events"] /\ processed_at <$> table_of DomainIdentity s = [Some Second])
  | None => false
  end = true.
Proof. vm_compute. reflexivity. Qed.

Theorem misrouted_for_good evs s s' : wired_run race start_plant = Some s -> (forall d, Insert d (sample_event 1) ∉ evs) -> wired_run evs s = Some s' ->
  sent_to (sample_event 1) s' = ["gitscale.billing.events"].
Proof.
  intros Hr Hev Hs. assert (Hs0 : is_settled (sample_event 1) s = true /\ sent_to (sample_event 1) s = ["gitscale.billing.events"]).
  { vm_compute in Hr. injection Hr as <-. by vm_compute. }
  destruct Hs0 as [H0 <-]. apply (settled_run _ _ _ (sample_event 1) evs s s' Hev Hs). by apply is_settled_spec.
Qed.
