(* ===== verification/DurationText.v ===== *)
(** * [time.ParseDuration]

    As the standard library has it: decimal numbers with units, a fraction in
    binary64, sums and signs, overflow beyond 63 bits an error. *)

From S2P Require Import Prelude GoStd Floats FloatText GoFmt.

(** [leadingInt]: [None] when the number does not fit in 63 bits (and one). *)
Definition leadingInt (l : list ascii) : option (Z * list ascii) :=
  let '(ds, rest) := take_digits l in
  let v := digits_value ds in
  if 2 ^ 63 <? v then None else Some (v, rest).

(** [leadingFraction]: digits beyond those that fit are read and dropped. *)
Fixpoint fraction_digits (ds : list ascii) (x : Z) (scale : float) (overflow : bool) : Z * float :=
  match ds with
  | [] => (x, scale)
  | c :: ds =>
      if overflow then fraction_digits ds x scale true
      else if (2 ^ 63 - 1) / 10 <? x then fraction_digits ds x scale true
      else
        let y := x * 10 + (code c - 48) in
        if 2 ^ 63 <? y then fraction_digits ds x scale true else fraction_digits ds y (SFmul 53 1024 scale (f_of_int 10)) false
  end.
Definition leadingFraction (l : list ascii) : Z * float * list ascii :=
  let '(ds, rest) := take_digits l in
  let '(f, scale) := fraction_digits ds 0 f1 false in (f, scale, rest).

Definition micro_sign (hi lo : Z) : string := l2s [chr hi; chr lo; "s"%char].
Definition unitMap (u : string) : option Z :=
  if bool_decide (u = "ns") then Some 1
  else if bool_decide (u ∈ ["us"; micro_sign 194 181; micro_sign 206 188]) then Some 1000
  else if bool_decide (u = "ms") then Some Millisecond
  else if bool_decide (u = "s") then Some Second
  else if bool_decide (u = "m") then Some (60 * Second)
  else if bool_decide (u = "h") then Some Hour
  else None.

Fixpoint take_unit (l : list ascii) : list ascii * list ascii :=
  match l with
  | c :: l' => if is_digit c || bool_decide (c = "."%char) then ([], l) else let '(u, r) := take_unit l' in (c :: u, r)
  | [] => ([], [])
  end.

(** A number and its unit; [f] of [scale] is the fraction. *)
Definition one_term (l : list ascii) : option (Z * list ascii) :=
  '(v, rest) ← leadingInt l;
  let pre := negb (bool_decide (length rest = length l)) in
  let '(f, scale, rest, post) :=
    match rest with
    | "."%char :: rest' => let '(f, scale, r) := leadingFraction rest' in (f, scale, r, negb (bool_decide (length r = length rest')))
    | _ => (0, f1, rest, false)
    end in
  if negb pre && negb post then None
  else
    let '(u, rest) := take_unit rest in
    unit ← (if bool_decide (u = []) then None else unitMap (l2s u));
    if 2 ^ 63 / unit <? v then None
    else
      let v := v * unit + (if 0 <? f then default 0 (float_trunc (SFmul 53 1024 (f_of_int f) (fdiv (f_of_int unit) scale))) else 0) in
      if 2 ^ 63 <? v then None else Some (v, rest).

Fixpoint terms (fuel : nat) (d : Z) (l : list ascii) : option Z :=
  match l, fuel with
  | [], _ => Some d
  | _, O => None
  | _, S fuel => '(v, rest) ← one_term l; let d := d + v in if 2 ^ 63 <? d then None else terms fuel d rest
  end.

Definition ParseDuration (s : string) : option duration :=
  let '(neg, l) := match s2l s with c :: l => if bool_decide (c ∈ ["-"%char; "+"%char]) then (bool_decide (c = "-"%char), l) else (false, c :: l) | [] => (false, []) end in
  if bool_decide (l = ["0"%char]) then Some 0
  else if bool_decide (l = []) then None
  else
    d ← terms (length l) 0 l;
    if neg then Some (- d) else if 2 ^ 63 - 1 <? d then None else Some d.

Example ParseDuration_samples :
  map ParseDuration ["60s"; "1h30m"; "-1.5s"; "0"; "0s"; ".5ms"; "1.s"; "3"; "s"; ""; "-"; "1d"; "9223372036854775807ns"; "9223372036854775808ns"; "-9223372036854775808ns"; "2562047h47m16.854775808s"] =
  [Some (60 * Second); Some (90 * 60 * Second); Some (- 1500 * Millisecond); Some 0; Some 0; Some 500000; Some Second; None; None; None; None; None;
   Some int64_max; None; Some int64_min; None].
Proof. vm_compute. reflexivity. Qed.

(** ** The fuel is enough: a term takes at least a byte *)

Lemma take_digits_split l : exists ds rest, take_digits l = (ds, rest) /\ l = ds ++ rest.
Proof.
  induction l as [|c l (ds & rest & E & ->)]; [by exists [], []|]. cbn. destruct (is_digit c); [rewrite E; by exists (c :: ds), rest|by exists [], (c :: ds ++ rest)].
Qed.
Lemma take_unit_split l : exists u rest, take_unit l = (u, rest) /\ l = u ++ rest.
Proof.
  induction l as [|c l (ds & rest & E & ->)]; [by exists [], []|]. cbn. destruct (is_digit c || _); [by exists [], (c :: ds ++ rest)|rewrite E; by exists (c :: ds), rest].
Qed.

Lemma one_term_shorter l v rest : one_term l = Some (v, rest) -> (length rest < length l)%nat.
Proof.
  unfold one_term, leadingInt. destruct (take_digits_split l) as (ds & r & -> & ->). destruct (2 ^ 63 <? digits_value ds); [done|]. cbn [mbind option_bind].
  assert (Hf : exists f scale r' post, match r with "."%char :: rest' => let '(f, scale, x) := leadingFraction rest' in (f, scale, x, negb (bool_decide (length x = length rest'))) | _ => (0, f1, r, false) end = (f, scale, r', post) /\ (length r' <= length r)%nat).
  { destruct r as [|c r]; [by do 4 eexists|]. destruct (decide (c = "."%char)) as [->|Hc].
    - unfold leadingFraction. destruct (take_digits_split r) as (fs & r' & -> & ->). destruct (fraction_digits _ _ _ _) as [f sc]. do 4 eexists. split; [done|]. cbn. rewrite length_app. lia.
    - exists 0, f1, (c :: r), false. split; [|done]. by destruct c as [[] [] [] [] [] [] [] []]. }
  destruct Hf as (f & scale & r' & post & -> & Hr'). destruct (negb _ && negb post); [done|].
  destruct (take_unit_split r') as (u & r2 & -> & ->). case_bool_decide as Hu; [done|]. destruct (unitMap (l2s u)) as [unit|]; [|done]. cbn.
  repeat case_match; try done; intros [= _ <-]; rewrite !length_app in *; (destruct u; [done|]); cbn in *; lia.
Qed.

Lemma terms_fuel fuel : forall fuel' d l, (length l <= fuel)%nat -> (length l <= fuel')%nat -> terms fuel d l = terms fuel' d l.
Proof.
  induction fuel as [|fuel IH]; intros fuel' d l H H'.
  - destruct l; [by destruct fuel'|cbn in H; lia].
  - destruct l as [|c l]; [by destruct fuel'|]. destruct fuel' as [|fuel']; [cbn in H'; lia|]. cbn [terms].
    destruct (one_term (c :: l)) as [[v rest]|] eqn:E; [|done]. apply one_term_shorter in E. cbn [mbind option_bind]. case_match; [done|]. apply IH; cbn in *; lia.
Qed.

(** Whole numbers of a unit are read exactly. *)
Definition unit_text (u : string) : bool :=
  negb (bool_decide (u = "")) && forallb (fun c => negb (is_digit c || bool_decide (c = "."%char))) (s2l u).

Lemma take_digits_stop ds c r : all_digits ds -> is_digit c = false -> take_digits (ds ++ c :: r) = (ds, c :: r).
Proof. intros Hd Hc. induction Hd as [|x ds Hx Hds IH]; cbn; [by rewrite Hc|by rewrite Hx, IH]. Qed.
Lemma take_unit_all l : forallb (fun c => negb (is_digit c || bool_decide (c = "."%char))) l = true -> take_unit l = (l, []).
Proof. induction l as [|c l IH]; [done|]. cbn. intros [Hc%negb_true_iff Hl]%andb_true_iff. by rewrite Hc, IH. Qed.

Lemma one_term_whole ds u unit : all_digits ds -> ds <> [] -> unit_text u = true -> unitMap u = Some unit -> 0 < unit -> digits_value ds * unit <= int64_max -> 0 <= digits_value ds ->
  one_term (ds ++ s2l u) = Some (digits_value ds * unit, []).
Proof.
  intros Hd Hn Hu Hm Hunit Hmax Hpos. unfold unit_text in Hu. apply andb_true_iff in Hu as [Hu0 Hu]. apply negb_true_iff, bool_decide_eq_false in Hu0.
  pose proof (take_unit_all _ Hu) as Ht. assert (Hs : l2s (s2l u) = u) by apply l2s_s2l. destruct (s2l u) as [|c u'] eqn:E; [by destruct u|].
  cbn [forallb] in Hu. apply andb_true_iff in Hu as [Hc%negb_true_iff _]. apply orb_false_iff in Hc as [Hc Hdot%bool_decide_eq_false].
  unfold one_term, leadingInt. rewrite take_digits_stop by done. unfold int64_max in Hmax.
  assert (H63 : (2 ^ 63 <? digits_value ds) = false) by (apply Z.ltb_ge; nia). rewrite H63. cbn [mbind option_bind].
  assert (Hf : match c :: u' with "."%char :: rest' => let '(f, scale, r) := leadingFraction rest' in (f, scale, r, negb (bool_decide (length r = length rest'))) | _ => (0, f1, c :: u', false) end = (0, f1, c :: u', false)).
  { by destruct c as [[] [] [] [] [] [] [] []]. }
  rewrite Hf. rewrite bool_decide_false by (rewrite length_app; destruct ds; [done|cbn; lia]). cbn [negb andb]. rewrite Ht.
  rewrite bool_decide_false by done. rewrite Hs, Hm. cbn [mbind option_bind Z.ltb Z.compare].
  assert (Hq : (2 ^ 63 / unit <? digits_value ds) = false) by (apply Z.ltb_ge, Z.div_le_lower_bound; lia). rewrite Hq, Z.add_0_r.
  by replace (2 ^ 63 <? _) with false by (symmetry; apply Z.ltb_ge; lia).
Qed.

Theorem ParseDuration_whole n u unit : 0 <= n -> unit_text u = true -> unitMap u = Some unit -> n * unit <= int64_max -> ParseDuration (Itoa n +:+ u) = Some (n * unit).
Proof.
  intros Hn Hu Hm Hmax. assert (Hunit : 0 < unit) by (unfold unitMap in Hm; repeat case_bool_decide; simplify_eq; unfold Millisecond, Hour, Second; lia).
  destruct (Itoa_nonneg n Hn) as (ds & Hs & Hd & Hne & Hv & _). unfold ParseDuration. rewrite s2l_app, Hs.
  assert (H1 : one_term (ds ++ s2l u) = Some (n * unit, [])) by (rewrite <- Hv in *; by apply one_term_whole).
  destruct ds as [|c ds]; [done|]. apply Forall_cons in Hd as [Hc Hd]. cbn [app] in *.
  rewrite bool_decide_false by (intros Hin; repeat (apply elem_of_cons in Hin as [->|Hin]; [by vm_compute in Hc|]); by apply elem_of_nil in Hin).
  assert (Hul : s2l u <> []) by (unfold unit_text in Hu; by destruct u). rewrite bool_decide_false by (intros [= _ E]; apply app_eq_nil in E as [_ E]; done).
  rewrite bool_decide_false by done. cbn [length terms]. rewrite H1. cbn [mbind option_bind]. unfold int64_max in Hmax.
  replace (2 ^ 63 <? 0 + n * unit) with false by (symmetry; apply Z.ltb_ge; lia). destruct (length (ds ++ s2l u)); cbn [terms mbind option_bind];
    (by replace (2 ^ 63 - 1 <? 0 + n * unit) with false by (symmetry; apply Z.ltb_ge; lia)).
Qed.
