(* ===== verification/Binaries.v ===== *)
(** * The processes

    The commands under [cmd]: graphql-api, mcp-server, rest-api,
    identity-service, billing-service, outbox-consumer,
    identity-cache-invalidator with its [LoadEnv], and partition-gap-monitor.
    A process is what it reads from the environment, the databases it insists
    on, and the component it serves with which settings; serving, signals and
    shutdown are left out.  An error here is an exit. *)

From S2P Require Import Prelude GoStd Floats DurationText MetadataStore Uuid AgentsMd Identity McpSession CiRunClient GraphqlCost Outbox OutboxTtl SharedWriter RestApi Mcp GraphqlExec GraphqlApi Schedules.

Inductive startup_error :=
| NotParsed (key : string) | Required (key : string) | MustBeTrue (key : string) | TooShort (key : string) | Unsupported (key : string)
| PoolFailed (dsn : string) | PingFailed (dsn : string) | ListenFailed (addr : string) | ServerFailed (e : error) | Wiring (d : Domain) (e : config_error) | NoBrokers.

Section processes.
(** [os.Getenv]; [strconv.ParseFloat] with 64 bits; which pools can be made and
    pinged, which addresses listened on. *)
Context (getenv : string -> string) (ParseFloat : string -> option float) (opens pings listens : string -> bool).
Notation getenv_or := (envDefault getenv).
Notation start A := (result startup_error A).

Definition getenvBool (k : string) (def : bool) : start bool :=
  let v := getenv k in if bool_decide (v = "") then Ok def else match ParseBool v with Some b => Ok b | None => Err (NotParsed k) end.
Definition getenvFloat (k : string) (def : float) : start float :=
  let v := getenv k in if bool_decide (v = "") then Ok def else match ParseFloat v with Some f => Ok f | None => Err (NotParsed k) end.
(** As mcp-server has it: what cannot be read is the default. *)
Definition mcp_getenvFloat (k : string) (def : float) : float :=
  let v := getenv k in if bool_decide (v = "") then def else default def (ParseFloat v).
Definition need (ok : bool) (e : startup_error) : start unit := if ok then Ok tt else Err e.
Definition given (v : string) : bool := negb (bool_decide (v = "")).

Definition open_pool (dsn : string) : start unit := need (opens dsn) (PoolFailed dsn).
Definition ping_pool (dsn : string) : start unit := need (pings dsn) (PingFailed dsn).
Definition connect (dsn : string) : start unit := let? _ := open_pool dsn in ping_pool dsn.

(** ** rest-api *)

Record rest_config := mkRestConfig { rc_Addr : string; rc_PostgresDSN : string; rc_Insecure : bool; rc_Rates : RestApi.RateConfig }.
Definition rest_loadConfig : start rest_config :=
  let addr := getenv_or "REST_API_ADDR" ":8086" in
  let? insecure := getenvBool "REST_API_INSECURE" false in
  let? ac := getenvFloat "RATELIMIT_AGENT_CAPACITY" (f_of_int 200) in
  let? ar := getenvFloat "RATELIMIT_AGENT_REFILL_PER_SEC" (f_of_int 200) in
  let? hc := getenvFloat "RATELIMIT_HUMAN_CAPACITY" (f_of_int 20) in
  let? hr := getenvFloat "RATELIMIT_HUMAN_REFILL_PER_SEC" (f_of_int 20) in
  let dsn := getenv "POSTGRES_DSN" in
  let? _ := need (given dsn) (Required "POSTGRES_DSN") in
  let? _ := need insecure (MustBeTrue "REST_API_INSECURE") in
  Ok (mkRestConfig addr dsn insecure (RestApi.mkRateConfig ac ar hc hr)).
(** It serves [RestApi.ServeHTTP] with its rates. *)
Definition rest_main : start rest_config :=
  let? cfg := rest_loadConfig in
  let? _ := connect (rc_PostgresDSN cfg) in
  Ok cfg.

(** ** graphql-api *)

Record graphql_config := mkGraphqlConfig {
  gc_Addr : string; PrimaryDSN : string; ReaderDSN : string; Preview : bool; gc_Insecure : bool; gc_Bucket : GraphqlApi.BucketParams }.
Definition graphql_loadConfig : start graphql_config :=
  let addr := getenv_or "GRAPHQL_LISTEN" ":8087" in
  let? preview := getenvBool "GRAPHQL_PREVIEW" false in
  let? insecure := getenvBool "GRAPHQL_INSECURE" false in
  let? ac := getenvFloat "RATELIMIT_AGENT_CAPACITY" (f_of_int 5000) in
  let? ar := getenvFloat "RATELIMIT_AGENT_REFILL_PER_SEC" (f_of_int 500) in
  let? hc := getenvFloat "RATELIMIT_HUMAN_CAPACITY" (f_of_int 1000) in
  let? hr := getenvFloat "RATELIMIT_HUMAN_REFILL_PER_SEC" (f_of_int 100) in
  let primary := getenv_or "DATABASE_URL_PRIMARY" (getenv "POSTGRES_DSN") in
  let reader := getenv_or "DATABASE_URL_READER" primary in
  let? _ := need (given primary) (Required "DATABASE_URL_PRIMARY") in
  let? _ := need preview (MustBeTrue "GRAPHQL_PREVIEW") in
  let? _ := need insecure (MustBeTrue "GRAPHQL_INSECURE") in
  Ok (mkGraphqlConfig addr primary reader preview insecure (GraphqlApi.mkBucketParams ac ar hc hr)).
(** No pull-request service, and an SVID that always verifies. *)
Definition graphql_deps {R} (cfg : graphql_config) : ServerDeps R :=
  mkServerDeps (GraphqlCost.New DefaultLimits DefaultFieldWeights) (GraphqlExec.mkDeps None true) (gc_Bucket cfg).
Definition graphql_main {R} : start (graphql_config * ServerDeps R) :=
  let? cfg := graphql_loadConfig in
  let? _ := open_pool (PrimaryDSN cfg) in
  let? _ := (if bool_decide (ReaderDSN cfg = PrimaryDSN cfg) then Ok tt else open_pool (ReaderDSN cfg)) in
  let? _ := ping_pool (PrimaryDSN cfg) in
  let? _ := ping_pool (ReaderDSN cfg) in
  Ok (cfg, graphql_deps cfg).

(** ** identity-service and billing-service *)

Record grpc_config := mkGrpcConfig { sc_Addr : string; sc_PostgresDSN : string; sc_Insecure : bool }.
Definition grpc_loadConfig (addrKey insecureKey def : string) : start grpc_config :=
  let addr := getenv_or addrKey def in
  let? insecure := getenvBool insecureKey false in
  let dsn := getenv "POSTGRES_DSN" in
  let? _ := need (given dsn) (Required "POSTGRES_DSN") in
  let? _ := need insecure (MustBeTrue insecureKey) in
  Ok (mkGrpcConfig addr dsn insecure).
Definition grpc_main (cfg : start grpc_config) : start grpc_config :=
  let? cfg := cfg in
  let? _ := connect (sc_PostgresDSN cfg) in
  let? _ := need (listens (sc_Addr cfg)) (ListenFailed (sc_Addr cfg)) in
  Ok cfg.
Definition identity_loadConfig : start grpc_config := grpc_loadConfig "IDENTITY_SERVICE_ADDR" "IDENTITY_SERVICE_INSECURE" ":8085".
Definition billing_loadConfig : start grpc_config := grpc_loadConfig "BILLING_SERVICE_ADDR" "BILLING_SERVICE_INSECURE" ":8087".
Definition identity_main : start grpc_config := grpc_main identity_loadConfig.
Definition billing_main : start grpc_config := grpc_main billing_loadConfig.

(** ** mcp-server *)

Record mcp_config := mkMcpConfig { mc_Addr : string; mc_PostgresDSN : string; mc_Insecure : bool; mc_Server : Mcp.Config }.
Definition mcp_loadConfig : start mcp_config :=
  let insecure := envBool getenv "MCP_SERVER_INSECURE" false in
  let dsn := getenv "POSTGRES_DSN" in
  let? _ := need (given dsn) (Required "POSTGRES_DSN") in
  let secret := getenv "MCP_SESSION_HMAC_SECRET" in
  let? _ := need (MinSessionHMACSecretBytes <=? String.length secret)%nat (TooShort "MCP_SESSION_HMAC_SECRET") in
  let? _ := need insecure (MustBeTrue "MCP_SERVER_INSECURE") in
  Ok (mkMcpConfig (getenv_or "MCP_LISTEN" ":8087") dsn insecure
    (Mcp.mkConfig (getenv_or "MCP_PROTOCOL_VERSION" DeferredDefaultProtocolVersion)
      (RestApi.mkRateConfig (mcp_getenvFloat "MCP_RATELIMIT_AGENT_CAPACITY" (f_of_int 200)) (mcp_getenvFloat "MCP_RATELIMIT_AGENT_REFILL_PER_SEC" (f_of_int 200))
        (mcp_getenvFloat "MCP_RATELIMIT_HUMAN_CAPACITY" (f_of_int 20)) (mcp_getenvFloat "MCP_RATELIMIT_HUMAN_REFILL_PER_SEC" (f_of_int 20)))
      (getenv_or "MCP_SERVER_NAME" "gitscale-mcp") (getenv_or "MCP_SERVER_VERSION" "0.1.0") (s2l secret))).
(** Neither a blob reader nor a policy source; the CI client is [NilClient]. *)
Definition mcp_deps {E} : Mcp.Deps E := Mcp.mkDeps true true None None true true true None.
(** [None] is a panic of [NewServer]. *)
Definition mcp_main (Parse : string -> option uuid) {E} (yaml_unmarshal : string -> option frontMatter) {P} {MR : MapRange} (ipay : identity_payload -> P)
    : option (start (mcp_config * @Server P NilClient)) :=
  match (let? cfg := mcp_loadConfig in let? _ := connect (mc_PostgresDSN cfg) in Ok cfg) with
  | Err e => Some (Err e)
  | Ok cfg => r ← NewServer Parse yaml_unmarshal ipay (mcp_deps (E := E)) (mc_Server cfg);
              Some (match r with Ok srv => Ok (cfg, srv) | Err e => Err (ServerFailed e) end)
  end.

(** ** outbox-consumer *)

Definition outbox_main (hostname : string) : start (kafka_writer * list Outbox.Config) :=
  let servers := getenv "KAFKA_BOOTSTRAP_SERVERS" in
  let? _ := need (given servers) (Required "KAFKA_BOOTSTRAP_SERVERS") in
  let url := getenv "DATABASE_URL" in
  let? _ := need (given url) (Required "DATABASE_URL") in
  let clientID := getenv_or "KAFKA_CLIENT_ID" ("gitscale-outbox-" +:+ hostname) in
  let? _ := open_pool url in
  match NewKafkaProducer (mkProducerConfig servers clientID false) with
  | None => Err NoBrokers
  | Some w => match StartAll getenv AllDomains with Err (d, e) => Err (Wiring d e) | Ok cs => Ok (w, cs) end
  end.

(** ** identity-cache-invalidator *)

Record EnvConfig := mkEnvConfig {
  KafkaBootstrapServers : list string; KafkaTopic : string; KafkaGroupID : string; KafkaAutoOffsetReset : string;
  RedisURL : string; RedisUseCluster : bool; Env : string }.
Definition LoadEnv : start EnvConfig :=
  let reset := getenv_or "KAFKA_AUTO_OFFSET_RESET" "earliest" in
  let redis := getenv "REDIS_URL" in
  let bs := TrimSpace (getenv "KAFKA_BOOTSTRAP_SERVERS") in
  let? _ := need (given bs) (Required "KAFKA_BOOTSTRAP_SERVERS") in
  let servers := filter (fun s => s <> "") (map TrimSpace (Split bs ",")) in
  let? _ := need (given redis) (Required "REDIS_URL") in
  let? _ := need (bool_decide (reset ∈ ["earliest"; "latest"])) (Unsupported "KAFKA_AUTO_OFFSET_RESET") in
  Ok (mkEnvConfig servers (getenv_or "IDENTITY_INVALIDATOR_TOPIC" "gitscale.identity.events") (getenv_or "IDENTITY_INVALIDATOR_GROUP" "gitscale.identity-cache-invalidator")
    reset redis (bool_decide (getenv "REDIS_USE_CLUSTER" = "true")) (getenv_or "GITSCALE_ENV" "dev")).
(** Where a group without a committed offset begins. *)
Inductive start_offset := FirstOffset | LastOffset.
Definition startOffset (cfg : EnvConfig) : start_offset := if bool_decide (KafkaAutoOffsetReset cfg = "latest") then LastOffset else FirstOffset.

(** ** partition-gap-monitor *)

Record monitor := mkMonitor { mo_DSN : string; mo_Addr : string; mo_Interval : duration }.
(** [None] is the panic of [time.NewTicker] on an interval that is not
    positive. *)
Definition monitor_main : option (start monitor) :=
  let dsn := getenv "POSTGRES_DSN" in
  if negb (given dsn) then Some (Err (Required "POSTGRES_DSN"))
  else
    let addr := getenv_or "PARTITION_GAP_MONITOR_ADDR" ":9100" in
    match ParseDuration (getenv_or "PARTITION_GAP_MONITOR_INTERVAL" "60s") with
    | None => Some (Err (NotParsed "PARTITION_GAP_MONITOR_INTERVAL"))
    | Some interval =>
        if negb (opens dsn) then Some (Err (PoolFailed dsn))
        else if interval <=? 0 then None else Some (Ok (mkMonitor dsn addr interval))
    end.

(** [envDuration] of the workflow worker. *)
Definition envDuration (key : string) (def : duration) : duration :=
  let v := getenv key in if bool_decide (v = "") then def else default def (ParseDuration v).
End processes.

(** ** What a running server was given *)

Section starts.
Context (getenv : string -> string) (ParseFloat : string -> option float) (opens pings listens : string -> bool).

Definition consented (key : string) : Prop := ParseBool (getenv key) = Some true.
Definition connected (dsn : string) : Prop := dsn <> "" /\ opens dsn = true /\ pings dsn = true.

Lemma need_ok b e : need b e = Ok tt <-> b = true.
Proof. unfold need. by destruct b. Qed.
Lemma given_ok v : given v = true <-> v <> "".
Proof. unfold given. rewrite negb_true_iff. apply bool_decide_eq_false. Qed.
Lemma getenvBool_true k b : getenvBool getenv k false = Ok b -> b = true -> consented k.
Proof. unfold getenvBool, consented. case_bool_decide; [by intros [= <-]|]. destruct (ParseBool _); [|done]. by intros [= <-] ->. Qed.
Lemma connect_ok dsn : connect opens pings dsn = Ok tt -> opens dsn = true /\ pings dsn = true.
Proof. unfold connect, open_pool, ping_pool, need. by destruct (opens dsn), (pings dsn). Qed.

Lemma rest_started c : rest_main getenv ParseFloat opens pings = Ok c -> consented "REST_API_INSECURE" /\ rc_PostgresDSN c = getenv "POSTGRES_DSN" /\ connected (rc_PostgresDSN c).
Proof.
  unfold rest_main, rest_loadConfig. cbn zeta. intros H. destruct (getenvBool _ _ _) as [b|] eqn:B; [|done]. repeat (destruct (getenvFloat _ _ _ _); [|done]).
  unfold need in H. destruct (given _) eqn:G; [|done]. destruct b; [|done]. cbn [rc_PostgresDSN] in H. destruct (connect _ _ _) as [[]|] eqn:C; [|done].
  injection H as <-. split_and!; [by eapply getenvBool_true|done|]. split; [exact (proj1 (given_ok _) G)|by apply connect_ok].
Qed.
Lemma grpc_started addrKey insecureKey def c : grpc_main opens pings listens (grpc_loadConfig getenv addrKey insecureKey def) = Ok c ->
  consented insecureKey /\ sc_PostgresDSN c = getenv "POSTGRES_DSN" /\ connected (sc_PostgresDSN c) /\ listens (sc_Addr c) = true.
Proof.
  unfold grpc_main, grpc_loadConfig. cbn zeta. intros H. destruct (getenvBool _ _ _) as [b|] eqn:B; [|done].
  unfold need in H. destruct (given _) eqn:G; [|done]. destruct b; [|done]. cbn [sc_PostgresDSN sc_Addr] in H. destruct (connect _ _ _) as [[]|] eqn:C; [|done].
  unfold need in H. destruct (listens _) eqn:Li; [|done]. injection H as <-. split_and!; [by eapply getenvBool_true|done| |done]. split; [exact (proj1 (given_ok _) G)|by apply connect_ok].
Qed.
Lemma graphql_started {R} c (d : ServerDeps R) : graphql_main getenv ParseFloat opens pings = Ok (c, d) ->
  consented "GRAPHQL_INSECURE" /\ consented "GRAPHQL_PREVIEW" /\ connected (PrimaryDSN c) /\ connected (ReaderDSN c) /\ d = graphql_deps c.
Proof.
  unfold graphql_main, graphql_loadConfig. cbn zeta. intros H. destruct (getenvBool _ "GRAPHQL_PREVIEW" _) as [b|] eqn:B; [|done].
  destruct (getenvBool _ "GRAPHQL_INSECURE" _) as [b'|] eqn:B'; [|done]. repeat (destruct (getenvFloat _ _ _ _); [|done]).
  unfold need in H. destruct (given _) eqn:G; [|done]. destruct b; [|done]. destruct b'; [|done]. cbn [PrimaryDSN ReaderDSN] in H.
  set (primary := envDefault getenv "DATABASE_URL_PRIMARY" (getenv "POSTGRES_DSN")) in *. set (reader := envDefault getenv "DATABASE_URL_READER" primary) in *.
  unfold open_pool, ping_pool, need in H. destruct (opens primary) eqn:O; [|done].
  assert (Hr : reader <> "") by (clear H; unfold reader, envDefault; case_bool_decide; [exact (proj1 (given_ok _) G)|done]).
  destruct (bool_decide (reader = primary)) eqn:E; [apply bool_decide_eq_true in E|destruct (opens reader) eqn:O'; [|done]];
    (destruct (pings primary) eqn:Q; [|done]); (destruct (pings reader) eqn:Q'; [|done]); injection H as <- <-; cbn [PrimaryDSN ReaderDSN];
    (split_and!; [by eapply getenvBool_true|by eapply getenvBool_true|split_and!; [exact (proj1 (given_ok _) G)|done|done]|split_and!; try done; by rewrite E|done]).
Qed.

(** Every server that starts has been told that it is insecure, and has a
    database that answers. *)
Theorem servers_need_consent {R} :
  (forall c, rest_main getenv ParseFloat opens pings = Ok c -> consented "REST_API_INSECURE" /\ connected (rc_PostgresDSN c)) /\
  (forall c (d : ServerDeps R), graphql_main getenv ParseFloat opens pings = Ok (c, d) -> consented "GRAPHQL_INSECURE" /\ connected (PrimaryDSN c) /\ connected (ReaderDSN c)) /\
  (forall c, identity_main getenv opens pings listens = Ok c -> consented "IDENTITY_SERVICE_INSECURE" /\ connected (sc_PostgresDSN c)) /\
  (forall c, billing_main getenv opens pings listens = Ok c -> consented "BILLING_SERVICE_INSECURE" /\ connected (sc_PostgresDSN c)).
Proof.
  split_and!.
  - intros c (H & _ & Hc)%rest_started. done.
  - intros c d (H & _ & H1 & H2 & _)%graphql_started. done.
  - intros c (H & _ & Hc & _)%grpc_started. done.
  - intros c (H & _ & Hc & _)%grpc_started. done.
Qed.

(** ** The MCP server *)
Section mcp_server.
Context (Parse : string -> option uuid) {E : Type} (yaml_unmarshal : string -> option frontMatter) {P : Type} {MR : MapRange} (ipay : identity_payload -> P).
Notation boot := (mcp_main getenv ParseFloat opens pings Parse (E := E) yaml_unmarshal ipay).

(** What [NewServer] checks has been checked: once the configuration is read and
    the database answers, the server is there, with the tools of [Mcp]. *)
Theorem mcp_boots cfg : mcp_loadConfig getenv ParseFloat = Ok cfg -> opens (mc_PostgresDSN cfg) = true -> pings (mc_PostgresDSN cfg) = true ->
  exists srv, boot = Some (Ok (cfg, srv)) /\ default_server Parse yaml_unmarshal ipay (mcp_deps (E := E)) (mc_Server cfg) srv.
Proof.
  intros Hc Ho Hp. unfold mcp_main. rewrite Hc. unfold connect, open_pool, ping_pool, need. rewrite Ho, Hp.
  destruct (NewServer_spec Parse yaml_unmarshal (C := NilClient) ipay (mcp_deps (E := E)) (mc_Server cfg)) as (r & Hr & Hok).
  assert (Hg : exists srv, r = Ok srv).
  { apply Hok. unfold mcp_loadConfig in Hc. cbn zeta in Hc. unfold need in Hc. destruct (given _); [|done]. destruct (MinSessionHMACSecretBytes <=? _)%nat eqn:L; [|done].
    destruct (envBool _ _ _); [|done]. injection Hc as <-. cbn [mc_Server cf_ProtocolVersion cf_SessionHMACSecret]. apply Nat.leb_le in L. split_and!; [|by rewrite s2l_length|done|done].
    unfold envDefault. by case_bool_decide. }
  destruct Hg as [srv ->]. exists srv. rewrite Hr. done.
Qed.

(** Three of its seven tools never succeed. *)
Theorem mcp_tools_unavailable (e : mserved P) p raw (w : mcp P NilClient) :
  (exists err, (ciTriggerHandler Parse (mcp_deps (E := E)) e p raw w).2 = Err err) /\
  (exists err, (prCreateHandler (C := NilClient) e p raw w).2 = Err err) /\
  (exists err, (agentsMDGetHandler Parse yaml_unmarshal (mcp_deps (E := E)) e p raw w).2 = Err err).
Proof.
  split_and!; [|by eexists|by eexists]. unfold ciTriggerHandler, Actions.bind. cbn -[arguments Mcp.need].
  destruct (arguments raw ci_params w) as [w1 [[idText ref]|err]]; [|by eexists]. destruct (Mcp.need _ _ w1) as [w2 [repo|err]]; [|by eexists].
  destruct (bool_decide _); by eexists.
Qed.
End mcp_server.
End starts.

(** ** Samples *)

Definition env_of (l : list (string * string)) (k : string) : string := default "" ((list_to_map l : gmap string string) !! k).
Definition all_up (_ : string) : bool := true.
Definition no_float (_ : string) : option float := None.
Definition dev_env : string -> string :=
  env_of [("POSTGRES_DSN", "postgres://db"); ("REST_API_INSECURE", "true"); ("GRAPHQL_INSECURE", "1"); ("GRAPHQL_PREVIEW", "true"); ("IDENTITY_SERVICE_INSECURE", "true");
          ("BILLING_SERVICE_INSECURE", "T"); ("MCP_SERVER_INSECURE", "true"); ("MCP_SESSION_HMAC_SECRET", "0123456789abcdef0123456789abcdef"); ("DATABASE_URL", "postgres://db");
          ("KAFKA_BOOTSTRAP_SERVERS", "kafka-1:9092, kafka-2:9092"); ("REDIS_URL", "redis://cache")].

(** With the default addresses billing-service, graphql-api and mcp-server want
    the same port. *)
Example default_ports_collide :
  (match billing_main dev_env all_up all_up all_up with Ok c => sc_Addr c | Err _ => "" end,
   match graphql_loadConfig dev_env no_float with Ok c => gc_Addr c | Err _ => "" end,
   match mcp_loadConfig dev_env no_float with Ok c => mc_Addr c | Err _ => "" end) = (":8087", ":8087", ":8087").
Proof. vm_compute. reflexivity. Qed.

(** graphql-api does not read DATABASE_URL. *)
Example database_url_ignored :
  graphql_loadConfig (env_of [("DATABASE_URL", "postgres://db"); ("GRAPHQL_INSECURE", "1"); ("GRAPHQL_PREVIEW", "1")]) no_float = Err (Required "DATABASE_URL_PRIMARY").
Proof. vm_compute. reflexivity. Qed.

(** Two brokers are two for the invalidator and one address for the outbox
    consumer, whose client id goes nowhere; a list of nothing but commas passes
    for a list of brokers. *)
Example brokers_read_twice :
  (match LoadEnv dev_env with Ok c => KafkaBootstrapServers c | Err _ => [] end,
   match outbox_main dev_env all_up "host" with Ok (w, cs) => (w_addr w, length cs) | Err _ => ([], 0%nat) end,
   match LoadEnv (env_of [("KAFKA_BOOTSTRAP_SERVERS", " , "); ("REDIS_URL", "redis://cache")]) with Ok c => Some (KafkaBootstrapServers c) | Err _ => None end) =
  (["kafka-1:9092"; "kafka-2:9092"], (["kafka-1:9092, kafka-2:9092"], 6%nat), Some []).
Proof. vm_compute. reflexivity. Qed.
Lemma client_id_unused servers id id' dial : NewKafkaProducer (mkProducerConfig servers id dial) = NewKafkaProducer (mkProducerConfig servers id' dial).
Proof. done. Qed.

(** An interval of zero, or below, is a panic. *)
Example interval_panics :
  map (fun v => match monitor_main (env_of [("POSTGRES_DSN", "postgres://db"); ("PARTITION_GAP_MONITOR_INTERVAL", v)]) all_up with
                | None => "panic" | Some (Ok _) => "runs" | Some (Err _) => "exits" end) [""; "5m"; "0s"; "-1m"; "soon"] = ["runs"; "runs"; "panic"; "panic"; "exits"].
Proof. vm_compute. reflexivity. Qed.

(** A value that is not a boolean stops four of the servers and is no for the
    fifth. *)
Example unreadable_flags :
  (match rest_loadConfig (env_of [("POSTGRES_DSN", "d"); ("REST_API_INSECURE", "yes")]) no_float with Err e => Some e | Ok _ => None end,
   match mcp_loadConfig (env_of [("POSTGRES_DSN", "d"); ("MCP_SERVER_INSECURE", "yes"); ("MCP_SESSION_HMAC_SECRET", "0123456789abcdef0123456789abcdef")]) no_float with
   | Err e => Some e | Ok _ => None end) = (Some (NotParsed "REST_API_INSECURE"), Some (MustBeTrue "MCP_SERVER_INSECURE")).
Proof. vm_compute. reflexivity. Qed.
